(* ===== verification/_CoqProject ===== *)
-Q . S2P
Prelude.v
Queue.v
Bitmap.v
Mm.v
EarlyMem.v
Heap.v
FrameAlloc.v
CString.v
Path.v
Chan.v
Kio.v
PgCache.v
PgVisit.v
Interval.v
RbTree.v
Murmur.v
HashMap.v
RbEvents.v
RbInsert.v
RbAdd.v
RbDelete.v
RbFix.v
RbRemove.v
IntvlTree.v
IntvlOps.v
IntvlRun.v
PgTable.v
PgWalk.v
PgFrames.v
PgWindow.v
PgFork.v
Vmalloc.v
VmSpace.v
VmMap.v
VmSplit.v
VmFree.v
VmFile.v
VmBack.v
VmPhys.v
VmRun.v
VmUser.v
VmFault.v
Lock.v
LockRun.v
SpinLock.v
FileTable.v
FileRun.v
FdSpec.v
Time.v
Fmtlib.v
Fmt.v
FmtText.v
FmtRun.v
FmtPrint.v
