(* ===== verification/Prelude.v ===== *)
(** * A verification of the aar1on_osdev kernel libraries

    The repository is a 64-bit hobby kernel in C: a UEFI loader (boot/), the
    kernel proper (kernel/, include/kernel/) with its memory manager, file
    system layer, devices, scheduling and system calls, file systems (fs/),
    drivers, and support libraries (lib/).  This development models the
    memory manager, from the boot allocator to page faults, the locks, open
    files, and the data structures and services the rest of the kernel is
    built from, and proves what callers rely on.

    ** How code is modelled

    A C function is a Rocq function of the state it reads to the state it
    leaves, in the error monad [outcome]: [Ret] is a result, [Panic] a failed
    kassert or a call of panic, [Fault] an access outside of an object, an
    undefined shift or a null dereference, and [NoFuel] a loop that did not
    end within the fuel it was given.  Unsigned integers are [Z] with [wrap]
    written out at each operation that can leave the width ([u8] to [u64]);
    arrays and buffers are lists whose accesses are checked; objects that are
    linked or shared live in a store indexed by a name or an address.  The
    locks of address spaces and channels are counters, so that balance can be
    stated, and those of the heap, the frame allocators and the hash maps are
    left out: their calls are sequences.  Mutexes themselves are modelled in
    Lock: one processor at a time in LockRun and in the open files, and
    interleaved atomic steps of several processors in SpinLock.  printf output is left out.

    ** Files

    - Prelude (this file): integers, the monad, loops and their rules, the
      alignment macros of include/kernel/base.h, tactics and hints.
    - Queue: the intrusive lists of include/kernel/queue.h over a store of
      link fields.  Insertion, removal and traversal refine operations on the
      sequence of elements.
    - Bitmap: lib/bitmap.c and the bit scans of lib/asm/bits.asm.  The
      searches find the first free bit or run and change exactly the bits
      they report.
    - Mm: constants, flags and page arithmetic of include/kernel/mm_types.h.
    - EarlyMem: kernel/mm/init.c.  The boot allocator hands out consecutive
      disjoint memory from the region it chose.
    - Heap: kernel/mm/heap.c.  Headers tile the heap; allocation gives
      disjoint aligned blocks, release frees exactly one.
    - FrameAlloc: kernel/mm/pmalloc.c.  Frames, zones, reference counted page
      structs and page lists.
    - CString: kernel/string.c over one byte array.
    - Path: kernel/vfs/path.c.  Windows into a string, iteration over parts,
      base name and directory name.
    - Chan: kernel/chan.c.  The ring buffer refines a bounded queue that
      drops its oldest element.
    - Kio: kernel/kio.c.  Transfers over buffers and segment arrays.
    - PgCache: kernel/mm/pgcache.c.  The radix tree refines a map from page
      indices to pages.
    - PgVisit: its visitor and the release of all pages.
    - Murmur: lib/murmur3.c, the hash of keys and names.
    - HashMap: lib/hash_map.h over an arbitrary hash function.
    - RbTree: lib/rb_tree.c.  Trees as shapes with contexts in a node store;
      rotations, search, and what insertion and deletion leave behind.
    - RbEvents: what the callbacks of a tree may do, as a class: the plain
      trees and the interval trees are instances.
    - RbInsert: the repair after an insertion in lib/rb_tree.c, over the
      colours and black heights of a shape.
    - RbAdd: rb_tree_insert as a whole.  The search for the parent, the
      linking, the thread and the repair keep the invariant [rb_ok], under
      which a tree refines a finite map from keys to data.
    - RbDelete, RbFix: the repair after a deletion.  A subtree whose black
      height is one too small, and one iteration for a sibling on either
      side; then the loop.
    - RbRemove: rb_tree_delete as a whole, and every sequence of calls.
    - Interval, IntvlTree: lib/interval_tree.h and lib/interval_tree.c, as
      callbacks of the red-black tree that keep the extent of each subtree.
    - IntvlOps, IntvlRun: its searches, and every sequence of calls against a
      set of disjoint intervals.
    - PgTable: kernel/mm/pgtable.c.  Memory is a map from frames to pages of
      512 words, and a load or store goes through the processor's walk from
      cr3; the functions run over any source of frames.
    - PgWalk: the tables as a tree of frames with a recursive entry; mapping,
      unmapping and updating one page.
    - PgFrames: the zones of FrameAlloc as the source of frames.
    - PgWindow: filling unmapped pages through the temporary window.
    - PgFork: the root of a forked address space.
    - Vmalloc: kernel/mm/vmalloc.c.  Address spaces as a list and an interval
      tree of mappings over the page tables; reserved, physical, page and
      file mappings.
    - VmSpace: the invariant of a space: the list, the tree and the fields of
      the mappings agree, and mappings do not overlap.
    - VmMap, VmSplit, VmFree, VmBack, VmPhys: the operations keep it; what
      they do to the translation of addresses.
    - VmFile: kernel/mm/file.c.  The pages behind a file mapping.
    - VmRun: vmap_phys, vmap_free, vmalloc and vfree from call to return.
    - VmUser, VmFault: page faults, single pages and other spaces; a fault
      maps the page it needs or goes to the exception path.
    - Lock: kernel/lock.c, kernel/mutex.c and the critical sections of
      kernel/proc.c.
    - LockRun: claim lists are stacks; a wait mutex is an owner with a depth.
    - SpinLock: processors that take and release a spin mutex, as a step
      relation over all of them.
    - FileTable: kernel/vfs/file.c, and the calls of kernel/vfs/fs.c on
      descriptors, over any path resolution, file systems and devices
      ([file_ops]).
    - FileRun, FdSpec: the table of one process is a finite map of open files.
    - Time: the calendar conversions of include/kernel/time.h.
    - Fmtlib: lib/fmt/fmtlib.c.  Formatters are writers into a bounded buffer.
    - Fmt: lib/fmt/fmt.c.  The parsers of specifiers and the two passes.
    - FmtText: the text that each formatter writes, and numbers read back.
    - FmtRun: formatting ends and stays in its buffer, and returns for formats
      that print numbers.
    - FmtPrint: what a format prints, and the formats that never end.

    ** Theorems

    The theorems whose comment starts with C and a number are the claims of
    the development, numbered by importance.  Where a claim has hypotheses,
    the lemma with its name and the suffix _witness applies it to concrete
    values.  By subject:
    - heap: kmalloc_fresh_block and kfree_block preserve the tiling of the
      heap and never hand out overlapping blocks;
    - bitmap and frames: get_set_nfree_fast describes exactly the bits found
      and changed, fa_alloc_free_single that frames come back;
    - page tables: recursive_map_entry_maps, recursive_unmap_update,
      fill_unmapped_pages_bytes and fork_page_tables_root;
    - address spaces: vmap_internal_maps (a new mapping keeps the invariant),
      vmap_phys_translates (every address of a physical mapping goes to its
      frame), vmap_free_releases, vmalloc_vfree_back and split_join_back
      (round trips), file_getpage_keeps and file_split_merge,
      page_fault_recovers (the access to an anonymous file that faulted
      succeeds) and page_fault_refused (the faults that end in an exception);
    - locks: spin_exclusive (mutual exclusion under every interleaving),
      spin_progress (under fair ones somebody gets in), mtx_run_refines and
      claims_stack;
    - open files: fd_run_refines (every sequence of calls, from open to
      close) and open_claimed_fd (a failed open that frees a descriptor in
      use);
    - formatting: fmt_format_prints (the text printed), fmt_format_ends
      (the loops end in the buffer; formats of numbers return), fmtlib_format_spec_field (any formatter),
      format_signed_strtol (a round trip through strtol);
    - time: posix2tm_date;
    - refinements of abstract data types: chan_run_refines (a bounded queue),
      pgcache_insert_lookup and pgcache_remove_lookup (a map from pages),
      visit_iter_walks (the visitor is the recursive walk),
      hash_map_run_refines (a finite map);
    - hashes: murmur_separates (no collisions within a block);
    - trees: rb_tree_insert_refines (the invariant and a finite map),
      rb_tree_delete_refines (likewise, with the entry gone),
      rb_tree_run_refines (every sequence of insertions, deletions and
      lookups, with the logarithmic bound on lookups),
      intvl_tree_run_refines (disjoint intervals);
    - strings and paths: memmove_correct and path_iteration.
    Theorems of the same kind without a number are next to the lemmas they
    build on.  Those on behaviour that differs from the evident intent of the
    code or from its comments: fmt_format_open_percent, ksprintf_overruns,
    huge_mapping_breaks_top, rb_tree_delete_absent, claims_out_of_order,
    visit_ignores_offset and ftable_clone_faults.

    ** Bounds and fuel

    Loops over arrays run over their length.  A traversal of linked objects
    gets one step per object in the store, which is enough because the
    representation predicates allow no object twice ([rep_length] in Queue,
    [shaped_length] in RbTree); the claims prove that results are returned,
    never only that a returned result is right.  The bit-run search gets 65
    steps, one more than the bits of a word.  The heap claims bound the
    alignment by 2^31, since the size field of a chunk has 31 bits.  The
    parsers of a format get its length; its loops end within 31 steps per
    character and the terminator (fmt_format_ends), because the second pass
    either moves on or takes one of at most 30 entries; the loops that pad a
    field count down from its width or precision.  The years of posix2tm
    get one step per 365 days of the epoch.  One processor takes a mutex in two
    rounds of its loop; where processors interleave, each round is a step and
    the bound that the code itself puts on spinning is kept.

    ** Not modelled

    - Hardware: drivers, buses, ACPI, interrupt controllers, timers, the
      loader's calls to firmware, descriptor tables and assembly.
      Translation lookaside entries are left out of the page tables: every
      access walks.
    - Scheduling, processes and signals: they are entered from context
      switches in assembly, and much of them is commented out or ends in
      todo().  For the same reason a wait mutex that is taken ends in the
      panic that the code has there, and lock and wait queues, conditions and
      read-write locks, most of which are empty functions, are left out.
    - The tree of file system entries, its cache, path resolution and the
      file systems themselves: they share entries under read-write locks that
      exclude nobody.  Path resolution, vnodes' file systems and devices are
      parameters of the open files.
    - lib/hash_table.c, which no other file uses, and lib/sort.c and the HID
      report parser, which are not correct as they stand.
    - Reference counts, file offsets and clock values are unbounded integers
      where the code has no check; paths kept for display are left out.  The
      error strings are a parameter of the formatter, and the error numbers
      and flags of the file calls are a class, since they come from a C
      library outside the repository. *)

From Stdlib Require Export ZArith Lia.
From stdpp Require Export base tactics option list numbers.

Open Scope Z_scope.

(** ** Machine integers

    A w-bit unsigned integer is a [Z] in [0, 2^w); the C operators that may
    leave the range are followed by [wrap]. *)

Definition wrap (w x : Z) : Z := x mod 2 ^ w.

Abbreviation u8 := (wrap 8).
Abbreviation u16 := (wrap 16).
Abbreviation u32 := (wrap 32).
Abbreviation u64 := (wrap 64).

(** The two's complement reading of a w-bit pattern ([int], [ssize_t], ...). *)
Definition sint (w x : Z) : Z :=
  let y := wrap w x in if y <? 2 ^ (w - 1) then y else y - 2 ^ w.

Definition fits (w x : Z) : Prop := 0 <= x < 2 ^ w.

(** [~x] on w bits. *)
Definition not_w (w x : Z) : Z := wrap w (Z.lnot x).

(** The run of [n] one bits starting at bit [p]. *)
Definition mask_at (p n : Z) : Z := Z.shiftl (Z.ones n) p.

#[global] Arguments wrap : simpl never.
#[global] Arguments sint : simpl never.
#[global] Arguments not_w : simpl never.
#[global] Arguments mask_at : simpl never.

(** ** Outcomes

    [Panic] is a failed [kassert] or a call of [panic]; [Fault] is undefined
    behaviour of C (an access outside an object, a shift by the width or
    more, a bit scan of zero); [NoFuel] is a loop that did not end within the
    bound the model gives it. *)

Inductive outcome (A : Type) : Type :=
  | Ret (a : A)
  | Panic
  | Fault
  | NoFuel.
Arguments Ret {A} a.
Arguments Panic {A}.
Arguments Fault {A}.
Arguments NoFuel {A}.

#[export] Instance outcome_ret : MRet outcome := @Ret.
#[export] Instance outcome_bind : MBind outcome := fun A B f m =>
  match m with
  | Ret a => f a
  | Panic => Panic
  | Fault => Fault
  | NoFuel => NoFuel
  end.
#[export] Instance outcome_fmap : FMap outcome := fun A B f m =>
  match m with
  | Ret a => Ret (f a)
  | Panic => Panic
  | Fault => Fault
  | NoFuel => NoFuel
  end.

(** [kassert(b)]. *)
Definition kassert (b : bool) : outcome unit := if b then Ret tt else Panic.

(** C shifts of a w-bit unsigned operand. *)
Definition shl (w x n : Z) : outcome Z :=
  if (0 <=? n) && (n <? w) then Ret (wrap w (Z.shiftl x n)) else Fault.
Definition shr (w x n : Z) : outcome Z :=
  if (0 <=? n) && (n <? w) then Ret (Z.shiftr x n) else Fault.

(** Array accesses. *)
Definition load {A} (l : list A) (i : Z) : outcome A :=
  if 0 <=? i then
    match l !! Z.to_nat i with Some v => Ret v | None => Fault end
  else Fault.
Definition store {A} (l : list A) (i : Z) (v : A) : outcome (list A) :=
  if (0 <=? i) && (i <? Z.of_nat (length l)) then Ret (<[Z.to_nat i := v]> l) else Fault.

#[global] Arguments load : simpl never.
#[global] Arguments store : simpl never.
#[global] Arguments shl : simpl never.
#[global] Arguments shr : simpl never.

(** ** Loops

    [for_loop k i body s] is [for (; k iterations left; i++) body], threading
    the state [s]; a body either goes on or leaves the loop with a result. *)

Inductive ctl (S R : Type) : Type :=
  | Next (s : S)
  | Stop (r : R).
Arguments Next {S R} s.
Arguments Stop {S R} r.

Fixpoint for_loop {S R} (k : nat) (i : Z) (body : Z -> S -> outcome (ctl S R)) (s : S)
    : outcome (ctl S R) :=
  match k with
  | O => Ret (Next s)
  | Datatypes.S k' =>
      c ← body i s;
      match c with
      | Next s' => for_loop k' (i + 1) body s'
      | Stop r => Ret (Stop r)
      end
  end.

(** The same without an early exit. *)
Fixpoint for_each {S} (k : nat) (i : Z) (body : Z -> S -> outcome S) (s : S) : outcome S :=
  match k with
  | O => Ret s
  | Datatypes.S k' => s' ← body i s; for_each k' (i + 1) body s'
  end.

(** A loop without a syntactic bound; [fuel] bounds the iterations. *)
Fixpoint while_loop {S R} (fuel : nat) (body : S -> outcome (ctl S R)) (s : S)
    : outcome R :=
  match fuel with
  | O => NoFuel
  | Datatypes.S f =>
      c ← body s;
      match c with
      | Next s' => while_loop f body s'
      | Stop r => Ret r
      end
  end.

(** ** The macros of include/kernel/base.h on 64-bit operands *)

Definition align (v a : Z) : Z := u64 (v + Z.land (u64 (a - v)) (u64 (a - 1))).
Definition align_down (v a : Z) : Z := Z.land v (not_w 64 (u64 (a - 1))).
Definition is_aligned (v a : Z) : bool := Z.land v (u64 (a - 1)) =? 0.
Definition is_pow2 (v : Z) : bool := Z.land v (u64 (v - 1)) =? 0.

(** ** Automation *)

Create HintDb words.
Create Rewrite HintDb bits.

(** Turns [H : (x ← m; f x) = Ret r], conditionals and [kassert]s into their
    successful branches, naming nothing the caller relies on. *)
Lemma bind_Ret {A B} (m : outcome A) (f : A -> outcome B) (r : B) :
  (m ≫= f) = Ret r <-> exists a, m = Ret a /\ f a = Ret r.
Proof. destruct m; simpl; split; intros H; try (by exists a); try done; by destruct H as (? & [= ->] & ?). Qed.

Lemma bind_of_Ret {A B} (m : outcome A) (f : A -> outcome B) (a : A) :
  m = Ret a -> (m ≫= f) = f a.
Proof. by intros ->. Qed.

Lemma kassert_Ret b u : kassert b = Ret u -> b = true.
Proof. by destruct b. Qed.

Ltac inv_ret :=
  repeat match goal with
    | H : Ret _ = Ret _ |- _ => injection H as H; subst
    | H : Panic = Ret _ |- _ => discriminate H
    | H : Fault = Ret _ |- _ => discriminate H
    | H : NoFuel = Ret _ |- _ => discriminate H
    | H : _ ≫= _ = Ret _ |- _ => apply bind_Ret in H as (? & ? & H)
    | H : kassert _ = Ret _ |- _ => apply kassert_Ret in H
    end.

(** Splits a boolean test of the goal or of a hypothesis. *)
Ltac case_test :=
  match goal with
  | |- context [if ?b then _ else _] => destruct b eqn:?
  | H : context [if ?b then _ else _] |- _ => destruct b eqn:?
  end.

(** Splits every comparison of the goal and discards the impossible cases. *)
Ltac zcases :=
  repeat match goal with
    | |- context [?a <=? ?b] => destruct (Z.leb_spec a b)
    | |- context [?a <? ?b] => destruct (Z.ltb_spec a b)
    | |- context [?a =? ?b] => destruct (Z.eqb_spec a b)
    end; try done; try lia.

(** Moves boolean comparisons to [Prop]. *)
Ltac zbool :=
  repeat match goal with
    | H : (_ =? _) = true |- _ => apply Z.eqb_eq in H
    | H : (_ =? _) = false |- _ => apply Z.eqb_neq in H
    | H : (_ <? _) = true |- _ => apply Z.ltb_lt in H
    | H : (_ <? _) = false |- _ => apply Z.ltb_ge in H
    | H : (_ <=? _) = true |- _ => apply Z.leb_le in H
    | H : (_ <=? _) = false |- _ => apply Z.leb_gt in H
    | H : (_ && _)%bool = true |- _ => apply andb_true_iff in H as [? ?]
    | H : (_ || _)%bool = false |- _ => apply orb_false_iff in H as [? ?]
    | H : bool_decide _ = true |- _ => apply bool_decide_eq_true in H
    | H : bool_decide _ = false |- _ => apply bool_decide_eq_false in H
    | H : negb _ = true |- _ => apply negb_true_iff in H
    | H : negb _ = false |- _ => apply negb_false_iff in H
    end.

(** ** Words *)

Lemma wrap_range w x : 0 <= w -> fits w (wrap w x).
Proof. intros. unfold fits, wrap. apply Z.mod_pos_bound. lia. Qed.

Lemma wrap_small w x : fits w x -> wrap w x = x.
Proof. apply Z.mod_small. Qed.

Lemma wrap_idem w x : 0 <= w -> wrap w (wrap w x) = wrap w x.
Proof. intros. by apply wrap_small, wrap_range. Qed.

Lemma testbit_wrap w x i :
  0 <= w -> Z.testbit (wrap w x) i = (i <? w) && Z.testbit x i.
Proof.
  intros Hw. unfold wrap. destruct (Z.ltb_spec i w); simpl.
  - destruct (Z.lt_ge_cases i 0).
    + by rewrite !Z.testbit_neg_r by done.
    + by apply Z.mod_pow2_bits_low.
  - by apply Z.mod_pow2_bits_high.
Qed.

Lemma fits_testbit w x i : 0 <= w -> fits w x -> w <= i -> Z.testbit x i = false.
Proof.
  intros Hw Hx Hi. rewrite <- (wrap_small w x Hx), testbit_wrap by done.
  by destruct (Z.ltb_spec i w); [lia|].
Qed.

Lemma fits_of_testbit w x :
  0 <= w -> 0 <= x -> (forall i, w <= i -> Z.testbit x i = false) -> fits w x.
Proof.
  intros Hw Hx Hb. assert (x = wrap w x) as ->; [|by apply wrap_range].
  apply Z.bits_inj'. intros i Hi. rewrite testbit_wrap by done.
  destruct (Z.ltb_spec i w); simpl; auto.
Qed.

Lemma testbit_not_w w x i :
  0 <= w -> 0 <= i -> Z.testbit (not_w w x) i = (i <? w) && negb (Z.testbit x i).
Proof. intros. unfold not_w. by rewrite testbit_wrap, Z.lnot_spec by done. Qed.

Lemma not_w_range w x : 0 <= w -> fits w (not_w w x).
Proof. apply wrap_range. Qed.

Lemma testbit_mask_at p n i :
  0 <= p -> 0 <= n -> 0 <= i ->
  Z.testbit (mask_at p n) i = (p <=? i) && (i <? p + n).
Proof.
  intros. unfold mask_at. rewrite Z.shiftl_spec by done.
  destruct (Z.leb_spec p i); simpl.
  - rewrite Z.testbit_ones by done.
    destruct (Z.leb_spec 0 (i - p)), (Z.ltb_spec (i - p) n), (Z.ltb_spec i (p + n)); done || lia.
  - by rewrite Z.testbit_neg_r by lia.
Qed.

Lemma fits_lor w x y : 0 <= w -> fits w x -> fits w y -> fits w (Z.lor x y).
Proof.
  intros Hw Hx Hy. apply fits_of_testbit; [done|apply Z.lor_nonneg; unfold fits in *; lia|].
  intros i Hi. by rewrite Z.lor_spec, !(fits_testbit w) by done.
Qed.

Lemma fits_land w x y : 0 <= w -> fits w x -> 0 <= y -> fits w (Z.land x y).
Proof.
  intros Hw Hx Hy. apply fits_of_testbit; [done|apply Z.land_nonneg; unfold fits in *; lia|].
  intros i Hi. by rewrite Z.land_spec, (fits_testbit w x) by done.
Qed.

Lemma fits_mask_at w p n : 0 <= p -> 0 <= n -> p + n <= w -> fits w (mask_at p n).
Proof.
  intros. apply fits_of_testbit; [lia| |].
  - unfold mask_at. apply Z.shiftl_nonneg. rewrite Z.ones_equiv. lia.
  - intros i Hi. rewrite testbit_mask_at by lia. destruct (Z.ltb_spec i (p + n)); [lia|].
    by rewrite andb_false_r.
Qed.

#[export] Hint Resolve wrap_range not_w_range fits_lor fits_land fits_mask_at : words.
#[export] Hint Rewrite testbit_wrap testbit_not_w testbit_mask_at Z.lor_spec Z.land_spec
  Z.lxor_spec Z.bits_0 using lia : bits.

(** ** Alignment *)

Lemma align_pow2 v k :
  0 <= v -> 0 <= k < 64 -> v + 2 ^ k <= 2 ^ 64 -> align v (2 ^ k) = v + (- v) mod 2 ^ k.
Proof.
  intros Hv Hk Hb. unfold align.
  assert (0 < 2 ^ k) by (apply Z.pow_pos_nonneg; lia).
  rewrite (wrap_small 64 (2 ^ k - 1)) by (unfold fits; lia).
  replace (2 ^ k - 1) with (Z.ones k) by (rewrite Z.ones_equiv; lia).
  rewrite Z.land_ones by lia.
  assert (Hd : (2 ^ k | 2 ^ 64)).
  { exists (2 ^ (64 - k)). rewrite <- Z.pow_add_r by lia. f_equal. lia. }
  replace (wrap 64 (2 ^ k - v) mod 2 ^ k) with ((- v) mod 2 ^ k).
  - apply wrap_small. pose proof (Z.mod_pos_bound (- v) (2 ^ k) ltac:(lia)).
    unfold fits. lia.
  - unfold wrap. rewrite Z.mod_mod_divide by done.
    replace (2 ^ k - v) with (- v + 1 * 2 ^ k) by lia. symmetry. apply Z_mod_plus_full.
Qed.

(** ** Arrays *)

Lemma load_Some {A} (l : list A) (i : Z) (v : A) :
  load l i = Ret v <-> 0 <= i /\ l !! Z.to_nat i = Some v.
Proof.
  unfold load. destruct (Z.leb_spec 0 i); [|by split; [|lia]].
  destruct (l !! Z.to_nat i); split; [| |done|]; intros H'; inv_ret; try done.
  - by destruct H' as [_ [= ->]].
  - by destruct H'.
Qed.

Lemma load_in_range {A} (l : list A) (i : Z) :
  0 <= i < Z.of_nat (length l) -> exists v, load l i = Ret v /\ l !! Z.to_nat i = Some v.
Proof.
  intros Hi. destruct (lookup_lt_is_Some_2 l (Z.to_nat i)) as [v Hv]; [lia|].
  exists v. rewrite load_Some. split; [split; [lia|done]|done].
Qed.

Lemma store_in_range {A} (l : list A) (i : Z) (v : A) :
  0 <= i < Z.of_nat (length l) -> store l i v = Ret (<[Z.to_nat i := v]> l).
Proof.
  intros Hi. unfold store.
  by rewrite (proj2 (Z.leb_le 0 i)), (proj2 (Z.ltb_lt i _)) by lia.
Qed.

Lemma store_Ret {A} (l l' : list A) (i : Z) (v : A) :
  store l i v = Ret l' ->
  0 <= i < Z.of_nat (length l) /\ l' = <[Z.to_nat i := v]> l.
Proof. unfold store. intros. case_test; inv_ret; zbool. done. Qed.

(** ** Computations that end

    [ends x Q]: the computation does not run out of fuel, and a result it
    returns satisfies [Q].  Panics and faults are allowed. *)

Definition ends {A} (x : outcome A) (Q : A -> Prop) : Prop :=
  match x with Ret a => Q a | NoFuel => False | _ => True end.

Lemma ends_bind {A B} (x : outcome A) (f : A -> outcome B) (P : A -> Prop) (Q : B -> Prop) :
  ends x P -> (forall a, P a -> ends (f a) Q) -> ends (x ≫= f) Q.
Proof. destruct x; simpl; auto. Qed.

Lemma ends_mono {A} (x : outcome A) (P Q : A -> Prop) : ends x P -> (forall a, P a -> Q a) -> ends x Q.
Proof. destruct x; simpl; auto. Qed.

Lemma ends_load {A} (l : list A) i : ends (load l i) (fun a => l !! Z.to_nat i = Some a).
Proof. unfold load. destruct (0 <=? i); [|done]. by destruct (l !! Z.to_nat i) eqn:E. Qed.

Lemma ends_store {A} (l : list A) i v : ends (store l i v) (fun l' => length l' = length l).
Proof. unfold store. destruct (_ && _); [|done]. simpl. by rewrite length_insert. Qed.

(** ** Loop rules *)

Section loop_rules.
Context {St Res : Type} (I : Z -> St -> Prop) (Q : Res -> Prop).

(** What one iteration must establish. *)
Definition step_ok (c : ctl St Res) (j : Z) : Prop :=
  match c with Next s' => I (j + 1) s' | Stop r => Q r end.

Lemma for_loop_rule k : forall i body s,
  I i s ->
  (forall j s, i <= j < i + Z.of_nat k -> I j s ->
     exists c, body j s = Ret c /\ step_ok c j) ->
  exists c, for_loop k i body s = Ret c /\
    match c with Next s' => I (i + Z.of_nat k) s' | Stop r => Q r end.
Proof.
  induction k as [|k IH]; intros i body s HI Hstep; simpl.
  - eexists; split; [done|]. simpl. by rewrite Z.add_0_r.
  - destruct (Hstep i s) as (c & -> & Hc); [lia|done|]; simpl.
    destruct c as [s'|r]; [|by eexists].
    destruct (IH (i + 1) body s' Hc) as (c & -> & Hc').
    { intros j t Hj. apply Hstep. lia. }
    eexists; split; [done|]. destruct c; [|done].
    by replace (i + Z.of_nat (S k)) with (i + 1 + Z.of_nat k) by lia.
Qed.

Lemma for_each_rule k : forall i body s,
  I i s ->
  (forall j s, i <= j < i + Z.of_nat k -> I j s ->
     exists s', body j s = Ret s' /\ I (j + 1) s') ->
  exists s', for_each k i body s = Ret s' /\ I (i + Z.of_nat k) s'.
Proof.
  induction k as [|k IH]; intros i body s HI Hstep; simpl.
  - eexists; split; [done|]. simpl. by rewrite Z.add_0_r.
  - destruct (Hstep i s) as (s' & -> & Hs'); [lia|done|]; simpl.
    destruct (IH (i + 1) body s' Hs') as (s'' & -> & Hs'').
    { intros j t Hj. apply Hstep. lia. }
    eexists; split; [done|].
    by replace (i + Z.of_nat (S k)) with (i + 1 + Z.of_nat k) by lia.
Qed.
End loop_rules.
