(* ===== verification/Queue.v ===== *)
(** * include/kernel/queue.h: intrusive lists

    The list macros over a store of link fields indexed by the address of the
    element that holds them.  A macro that follows a pointer to no element, or
    a null one, faults.  The sequence a list stands for is its specification. *)

From S2P Require Import Prelude.
From stdpp Require Import list gmap.
Local Open Scope Z_scope.

(** ** State *)

Definition ptr : Type := option Z.

(** LIST_ENTRY and LIST_HEAD. *)
Record entry := mk_link { next : ptr; prev : ptr }.
Record head_t := mk_head { first : ptr; last : ptr }.

Abbreviation links := (gmap Z entry).

#[export] Instance entry_eq_dec : EqDecision entry.
Proof. solve_decision. Defined.

Definition deref (h : links) (p : ptr) : outcome entry :=
  match p with
  | Some x => match h !! x with Some e => Ret e | None => Fault end
  | None => Fault
  end.

(** [p->name.next = v] and [p->name.prev = v]. *)
Definition set_next (h : links) (p v : ptr) : outcome links :=
  match p with
  | Some x => match h !! x with Some e => Ret (<[x := mk_link v (prev e)]> h) | None => Fault end
  | None => Fault
  end.
Definition set_prev (h : links) (p v : ptr) : outcome links :=
  match p with
  | Some x => match h !! x with Some e => Ret (<[x := mk_link (next e) v]> h) | None => Fault end
  | None => Fault
  end.

Definition is_ptr (p q : ptr) : bool := bool_decide (p = q).

#[global] Arguments deref : simpl never.
#[global] Arguments set_next : simpl never.
#[global] Arguments set_prev : simpl never.

(** ** Lists with a head *)

Definition LIST_INIT : head_t := mk_head None None.

Definition LIST_ENTRY_INIT (h : links) (el : ptr) : outcome links :=
  h ← set_next h el None; set_prev h el None.

Definition LIST_ADD (hd : head_t) (h : links) (el : ptr) : outcome (head_t * links) :=
  if is_ptr (first hd) None then
    h ← set_next h el None;
    h ← set_prev h el None;
    Ret (mk_head el el, h)
  else
    h ← set_next h (last hd) el;
    h ← set_next h el None;
    h ← set_prev h el (last hd);
    Ret (mk_head (first hd) el, h).

Definition LIST_ADD_FRONT (hd : head_t) (h : links) (el : ptr) : outcome (head_t * links) :=
  if is_ptr (first hd) None then
    h ← set_next h el None;
    h ← set_prev h el None;
    Ret (mk_head el el, h)
  else
    h ← set_prev h (first hd) el;
    h ← set_next h el (first hd);
    h ← set_prev h el None;
    Ret (mk_head el (last hd), h).

Definition LIST_INSERT (hd : head_t) (h : links) (el after : ptr) : outcome (head_t * links) :=
  '(hd, h) ←
    (if is_ptr after (last hd) then Ret (mk_head (first hd) el, h)
     else
       e ← deref h after;
       h ← set_prev h (next e) el;
       Ret (hd, h));
  e ← deref h after;
  h ← set_next h el (next e);
  h ← set_prev h el after;
  h ← set_next h after el;
  Ret (hd, h).

(** The first element whose key is not below [k]: the loop of
    LIST_INSERT_ORDERED_BY. *)
Fixpoint ordered_pos (fuel : nat) (key : Z -> Z) (h : links) (p : ptr) (k : Z) : outcome ptr :=
  match fuel with
  | O => NoFuel
  | S f =>
      match p with
      | None => Ret None
      | Some x =>
          if key x <? k then e ← deref h p; ordered_pos f key h (next e) k
          else Ret p
      end
  end.

Definition LIST_INSERT_ORDERED_BY (key : Z -> Z) (hd : head_t) (h : links) (el : Z)
    : outcome (head_t * links) :=
  p ← ordered_pos (S (size h)) key h (first hd) (key el);
  match p with
  | Some _ => e ← deref h p; LIST_INSERT hd h (Some el) (prev e)
  | None => LIST_ADD hd h (Some el)
  end.

Definition LIST_REMOVE (hd : head_t) (h : links) (el : ptr) : outcome (head_t * links) :=
  if is_ptr el (first hd) then
    if is_ptr el (last hd) then Ret (mk_head None None, h)
    else
      e ← deref h el;
      h ← set_prev h (next e) None;
      h ← set_next h el None;
      Ret (mk_head (next e) (last hd), h)
  else if is_ptr el (last hd) then
    e ← deref h el;
    h ← set_next h (prev e) None;
    h ← set_prev h el None;
    Ret (mk_head (first hd) (prev e), h)
  else
    e ← deref h el;
    h ← set_prev h (next e) (prev e);
    e ← deref h el;
    h ← set_next h (prev e) (next e);
    h ← set_next h el None;
    h ← set_prev h el None;
    Ret (hd, h).

Definition LIST_REMOVE_FIRST (hd : head_t) (h : links) : outcome (ptr * head_t * links) :=
  match first hd with
  | Some x => '(hd', h') ← LIST_REMOVE hd h (Some x); Ret (Some x, hd', h')
  | None => Ret (None, hd, h)
  end.

Definition LIST_CONCAT (hd : head_t) (h : links) (start stop : ptr) : outcome (head_t * links) :=
  if is_ptr (first hd) None then Ret (mk_head start stop, h)
  else if is_ptr start None || is_ptr stop None then Ret (hd, h)
  else
    h ← set_next h (last hd) start;
    h ← set_prev h start (last hd);
    Ret (mk_head (first hd) stop, h).

(** ** Lists without a head; [p] is the pointer to the first element *)

Definition RLIST_ADD_FRONT (h : links) (p el : ptr) : outcome (ptr * links) :=
  if is_ptr p None then Ret (el, h)
  else
    h ← set_next h el p;
    h ← set_prev h p el;
    Ret (el, h).

Definition RLIST_REMOVE (h : links) (p el : ptr) : outcome (ptr * links) :=
  e ← deref h el;
  if is_ptr p el then Ret (next e, h)
  else
    h ← (if is_ptr (prev e) None then Ret h else set_next h (prev e) (next e));
    e ← deref h el;
    h ← (if is_ptr (next e) None then Ret h else set_prev h (next e) (prev e));
    Ret (p, h).

(** ** Traversal: LIST_FOREACH and its variants, with the loop's state *)

Fixpoint list_foreach {St Res} (fuel : nat) (body : Z -> St -> outcome (ctl St Res))
    (h : links) (p : ptr) (s : St) : outcome (ctl St Res) :=
  match p with
  | None => Ret (Next s)
  | Some x =>
      match fuel with
      | O => NoFuel
      | S f =>
          c ← body x s;
          match c with
          | Stop r => Ret (Stop r)
          | Next s' => e ← deref h p; list_foreach f body h (next e) s'
          end
      end
  end.

(** LIST_FIND: the element the condition stops at. *)
Definition LIST_FIND (cond : Z -> bool) (hd : head_t) (h : links) : outcome ptr :=
  c ← list_foreach (size h) (fun x _ => Ret (if cond x then Stop (Some x) else Next tt))
        h (first hd) tt;
  Ret (match c with Stop r => r | Next _ => None end).

(** ** The sequence a list stands for *)

(** The first element of [l], or [n] past its end. *)
Definition firstp (l : list Z) (n : ptr) : ptr :=
  match l with [] => n | x :: _ => Some x end.

(** The last element of [l], or [p] before its start. *)
Fixpoint lastp (p : ptr) (l : list Z) : ptr :=
  match l with [] => p | x :: l' => lastp (Some x) l' end.

(** The elements of [l] are linked in order, between [p] and [n]. *)
Fixpoint seg (h : links) (p : ptr) (l : list Z) (n : ptr) : Prop :=
  match l with
  | [] => True
  | x :: l' => h !! x = Some (mk_link (firstp l' n) p) /\ seg h (Some x) l' n
  end.

Definition rep (hd : head_t) (h : links) (l : list Z) : Prop :=
  NoDup l /\ seg h None l None /\ first hd = firstp l None /\ last hd = lastp None l.

(** [h'] has the elements of [h] and differs at most at those of [l]. *)
Definition same_outside (l : list Z) (h h' : links) : Prop :=
  dom h' = dom h /\ forall x, x ∉ l -> h' !! x = h !! x.

Lemma firstp_app l1 l2 n : firstp (l1 ++ l2) n = firstp l1 (firstp l2 n).
Proof. by destruct l1. Qed.

Lemma lastp_app p l1 l2 : lastp p (l1 ++ l2) = lastp (lastp p l1) l2.
Proof. revert p. induction l1 as [|x l1 IH]; intros p; simpl; [done|apply IH]. Qed.

Lemma seg_app h p l1 l2 n :
  seg h p (l1 ++ l2) n <-> seg h p l1 (firstp l2 n) /\ seg h (lastp p l1) l2 n.
Proof.
  revert p. induction l1 as [|x l1 IH]; intros p; simpl; [tauto|].
  rewrite IH, firstp_app. tauto.
Qed.

Lemma seg_insert_ne h p l n x e : x ∉ l -> seg (<[x := e]> h) p l n <-> seg h p l n.
Proof.
  revert p. induction l as [|y l IH]; intros p Hx; simpl; [done|].
  apply not_elem_of_cons in Hx as [Hxy Hx]. rewrite IH by done.
  by rewrite lookup_insert_ne by done.
Qed.

Lemma set_next_at h x v e :
  h !! x = Some e -> set_next h (Some x) v = Ret (<[x := mk_link v (prev e)]> h).
Proof. intros E. unfold set_next. by rewrite E. Qed.

Lemma set_prev_at h x v e :
  h !! x = Some e -> set_prev h (Some x) v = Ret (<[x := mk_link (next e) v]> h).
Proof. intros E. unfold set_prev. by rewrite E. Qed.

Lemma deref_at h x e : h !! x = Some e -> deref h (Some x) = Ret e.
Proof. intros E. unfold deref. by rewrite E. Qed.

Lemma is_ptr_same p : is_ptr p p = true.
Proof. by apply bool_decide_eq_true_2. Qed.

Lemma is_ptr_ne p q : p <> q -> is_ptr p q = false.
Proof. apply bool_decide_eq_false_2. Qed.

Lemma lastp_elem p l : l <> [] -> exists x, lastp p l = Some x /\ x ∈ l.
Proof.
  revert p. induction l as [|x l IH]; intros p Hl; [done|]. simpl.
  destruct l as [|y l]; [exists x; split; [done|apply list_elem_of_here]|].
  destruct (IH (Some x)) as (z & -> & Hz); [done|].
  exists z. split; [done|by apply list_elem_of_further].
Qed.

Lemma firstp_ne l k x : l <> [] -> x ∉ l -> Some x <> firstp (l ++ k) None.
Proof. destruct l; [done|]. simpl. intros _ Hx [= ->]. set_solver. Qed.

Lemma lastp_ne p l x : l <> [] -> x ∉ l -> Some x <> lastp p l.
Proof. intros Hl Hx E. destruct (lastp_elem p l Hl) as (y & Hy & Hin). congruence. Qed.

Lemma same_outside_refl l h : same_outside l h h.
Proof. by split. Qed.

(** Updating one listed element keeps the rest of the store. *)
Lemma same_outside_insert l h h' x e :
  same_outside l h h' -> x ∈ l -> x ∈ dom h -> same_outside l h (<[x := e]> h').
Proof.
  intros [Hd Hs] Hx Hxd. split; [rewrite dom_insert_L, Hd; set_solver|].
  intros y Hy. rewrite lookup_insert_ne by congruence. by apply Hs.
Qed.

Lemma seg_lookup h p l1 x l2 n :
  seg h p (l1 ++ x :: l2) n -> h !! x = Some (mk_link (firstp l2 n) (lastp p l1)).
Proof. rewrite seg_app. simpl. tauto. Qed.

Lemma seg_dom h p l n : seg h p l n -> forall x, x ∈ l -> x ∈ dom h.
Proof.
  intros Hs x Hx. apply list_elem_of_split in Hx as (l1 & l2 & ->).
  apply seg_lookup in Hs. apply elem_of_dom. eauto.
Qed.

(** Solves lookups in updated stores and segments away from the updates. *)
Ltac link_lookup :=
  repeat first [rewrite lookup_insert_eq | rewrite lookup_insert_ne by set_solver];
  try done.

Ltac seg_solve :=
  rewrite ?seg_app, ?lastp_app; simpl; rewrite ?seg_insert_ne by set_solver;
  repeat split; try done; link_lookup.

(** Runs the next link assignment of the goal, whose old entry is known. *)
Ltac link_step :=
  first [ erewrite set_next_at by (link_lookup; eassumption)
        | erewrite set_prev_at by (link_lookup; eassumption)
        | erewrite deref_at by (link_lookup; eassumption) ]; simpl.

Ltac frame_solve :=
  repeat (apply same_outside_insert; [|set_solver|set_solver]); apply same_outside_refl.

Lemma NoDup_snoc (l : list Z) x : NoDup l -> x ∉ l -> NoDup (l ++ [x]).
Proof. intros. apply NoDup_app. split; [done|split; [set_solver|apply NoDup_singleton]]. Qed.

Lemma rep_nil_first hd h l : rep hd h l -> first hd = None -> l = [].
Proof. intros (_ & _ & Hf & _) E. destruct l; [done|]. rewrite Hf in E. done. Qed.

Lemma list_add_back hd h l el :
  rep hd h l -> el ∉ l -> el ∈ dom h ->
  exists hd' h', LIST_ADD hd h (Some el) = Ret (hd', h') /\
    rep hd' h' (l ++ [el]) /\ same_outside (el :: l) h h'.
Proof.
  intros (Hnd & Hs & Hf & Hl) Hel Hd. pose proof (seg_dom _ _ _ _ Hs) as Hin.
  apply elem_of_dom in Hd as [e He]. pose proof (elem_of_dom_2 _ _ _ He) as Hd.
  unfold LIST_ADD. rewrite Hf. destruct l as [|a l' _] using rev_ind.
  - simpl. do 2 link_step. do 2 eexists. split; [done|]. split; [|frame_solve].
    split; [apply NoDup_singleton|]. split; [|done]. seg_solve.
  - rewrite Hl, lastp_app. rewrite is_ptr_ne by (by destruct l'). simpl.
    pose proof (seg_lookup _ _ _ _ _ _ Hs) as Ha. do 3 link_step.
    do 2 eexists. split; [done|]. split; [|frame_solve].
    pose proof Hnd as (_ & Hdis & _)%NoDup_app.
    split; [|split; [|split]].
    + by apply NoDup_snoc.
    + rewrite <- app_assoc. apply seg_app in Hs as [Hs _]. simpl. seg_solve.
    + simpl. by destruct l'.
    + by rewrite !lastp_app.
Qed.

Lemma list_add_front hd h l el :
  rep hd h l -> el ∉ l -> el ∈ dom h ->
  exists hd' h', LIST_ADD_FRONT hd h (Some el) = Ret (hd', h') /\
    rep hd' h' (el :: l) /\ same_outside (el :: l) h h'.
Proof.
  intros (Hnd & Hs & Hf & Hl) Hel Hd. pose proof (seg_dom _ _ _ _ Hs) as Hin.
  apply elem_of_dom in Hd as [e He]. pose proof (elem_of_dom_2 _ _ _ He) as Hd.
  unfold LIST_ADD_FRONT. rewrite Hf. destruct l as [|a l'].
  - simpl. do 2 link_step. do 2 eexists. split; [done|]. split; [|frame_solve].
    split; [apply NoDup_singleton|]. split; [|done]. seg_solve.
  - simpl. destruct Hs as [Ha Hs]. do 3 link_step.
    do 2 eexists. split; [done|]. split; [|frame_solve].
    pose proof Hnd as [Ha' _]%NoDup_cons.
    split; [by apply NoDup_cons|]. split; [seg_solve|]. done.
Qed.

Lemma list_remove hd h l1 el l2 :
  rep hd h (l1 ++ el :: l2) ->
  exists hd' h', LIST_REMOVE hd h (Some el) = Ret (hd', h') /\
    rep hd' h' (l1 ++ l2) /\ h' !! el = Some (mk_link None None) /\
    same_outside (l1 ++ el :: l2) h h'.
Proof.
  intros (Hnd & Hs & Hf & Hl). pose proof (seg_dom _ _ _ _ Hs) as Hin.
  pose proof (seg_lookup _ _ _ _ _ _ Hs) as He.
  pose proof Hnd as (Hnd1 & Hdis & [Hel2 Hnd2]%NoDup_cons)%NoDup_app.
  pose proof Hs as (Hs1 & _ & Hs2)%seg_app.
  assert (Hnd' : NoDup (l1 ++ l2)) by (apply NoDup_app; set_solver).
  unfold LIST_REMOVE. rewrite Hf, Hl, lastp_app.
  destruct l1 as [|a l1 _] using rev_ind; destruct l2 as [|b l2]; simpl in *.
  - rewrite !is_ptr_same. do 2 eexists. repeat split; done.
  - rewrite is_ptr_same. destruct Hs2 as [Hb Hs2].
    rewrite (is_ptr_ne (Some el)) by (by apply (lastp_ne None (b :: l2))). do 3 link_step.
    do 2 eexists. split; [done|]. split; [|split; [by link_lookup|frame_solve]].
    apply NoDup_cons in Hnd2 as [Hb2 _]. split; [done|]. split; [seg_solve|]. done.
  - rewrite (is_ptr_ne (Some el)) by (apply firstp_ne; [by destruct l1|set_solver]). rewrite is_ptr_same, lastp_app in *.
    pose proof (seg_lookup _ _ _ _ _ _ Hs1) as Ha. apply seg_app in Hs1 as [Hs1 _].
    pose proof Hnd1 as (_ & Hda & _)%NoDup_app. simpl in *. do 3 link_step.
    do 2 eexists. split; [done|]. split; [|split; [by link_lookup|frame_solve]].
    rewrite app_nil_r in *. split; [done|]. split; [seg_solve|].
    by rewrite lastp_app, <- app_assoc, !firstp_app.
  - rewrite (is_ptr_ne (Some el) (firstp _ _)) by (apply firstp_ne; [by destruct l1|set_solver]).
    rewrite (is_ptr_ne (Some el)) by (by apply (lastp_ne None (b :: l2))). rewrite lastp_app in *.
    pose proof (seg_lookup _ _ _ _ _ _ Hs1) as Ha. apply seg_app in Hs1 as [Hs1 _].
    pose proof Hnd1 as (_ & Hda & _)%NoDup_app. pose proof Hnd2 as [Hb2 _]%NoDup_cons.
    destruct Hs2 as [Hb Hs2]. simpl in *. do 6 link_step.
    do 2 eexists. split; [done|]. split; [|split; [by link_lookup|frame_solve]].
    split; [done|]. split; [seg_solve|]. rewrite Hf, Hl. split.
    + by rewrite <- !app_assoc, !firstp_app.
    + by rewrite !lastp_app.
Qed.

Lemma list_insert_after hd h l1 a l2 el :
  rep hd h (l1 ++ a :: l2) -> el ∉ l1 ++ a :: l2 -> el ∈ dom h ->
  exists hd' h', LIST_INSERT hd h (Some el) (Some a) = Ret (hd', h') /\
    rep hd' h' (l1 ++ a :: el :: l2) /\ same_outside (el :: l1 ++ a :: l2) h h'.
Proof.
  intros (Hnd & Hs & Hf & Hl) Hel Hd. pose proof (seg_dom _ _ _ _ Hs) as Hin.
  apply elem_of_dom in Hd as [e He]. pose proof (elem_of_dom_2 _ _ _ He) as Hd.
  pose proof (seg_lookup _ _ _ _ _ _ Hs) as Ha.
  pose proof Hnd as (Hnd1 & Hdis & [Ha2 Hnd2]%NoDup_cons)%NoDup_app.
  pose proof Hs as (Hs1 & _ & Hs2)%seg_app.
  assert (Hnd' : NoDup (l1 ++ a :: el :: l2))
    by (rewrite NoDup_app, !NoDup_cons; set_solver).
  unfold LIST_INSERT. rewrite Hl, lastp_app. destruct l2 as [|b l2]; simpl in *.
  - rewrite is_ptr_same. simpl. do 4 link_step.
    do 2 eexists. split; [done|]. split; [|frame_solve]. split; [done|].
    split; [seg_solve|]. rewrite lastp_app. simpl. by rewrite Hf, !firstp_app.
  - rewrite (is_ptr_ne (Some a)) by (by apply (lastp_ne None (b :: l2))).
    destruct Hs2 as [Hb Hs2]. pose proof Hnd2 as [Hb2 _]%NoDup_cons. do 6 link_step.
    do 2 eexists. split; [done|]. split; [|frame_solve]. split; [done|].
    split; [seg_solve|]. rewrite Hl, Hf, !lastp_app, !firstp_app. done.
Qed.

(** The elements before and from the first whose key is not below [k]. *)
Fixpoint split_key (key : Z -> Z) (k : Z) (l : list Z) : list Z * list Z :=
  match l with
  | [] => ([], [])
  | x :: l' =>
      if key x <? k then let '(a, b) := split_key key k l' in (x :: a, b) else ([], l)
  end.

Lemma split_key_app key k l : (split_key key k l).1 ++ (split_key key k l).2 = l.
Proof.
  induction l as [|x l IH]; simpl; [done|]. destruct (key x <? k); [|done].
  destruct (split_key key k l). simpl in *. by rewrite IH.
Qed.

Lemma ordered_pos_spec key k h l : forall p fuel,
  seg h p l None -> (length l < fuel)%nat ->
  ordered_pos fuel key h (firstp l None) k = Ret (firstp (split_key key k l).2 None).
Proof.
  induction l as [|x l IH]; intros p fuel Hs Hf; (destruct fuel as [|fuel]; [simpl in Hf; lia|]);
    simpl; [done|].
  destruct (key x <? k); [|done]. destruct Hs as [Hx Hs].
  rewrite (deref_at _ _ _ Hx). simpl. rewrite (IH (Some x)) by (done || (simpl in Hf; lia)).
  by destruct (split_key key k l).
Qed.

(** A list without duplicates within the store is no longer than it. *)
Lemma rep_length hd h l : rep hd h l -> (length l <= size h)%nat.
Proof.
  intros (Hnd & Hs & _). rewrite <- size_dom.
  rewrite <- (size_list_to_set (C := gset Z) l) by done. apply subseteq_size.
  intros x Hx. apply (seg_dom _ _ _ _ Hs). set_solver.
Qed.

(** The loop over the sequence itself. *)
Fixpoint seq_foreach {St Res} (body : Z -> St -> outcome (ctl St Res)) (l : list Z) (s : St)
    : outcome (ctl St Res) :=
  match l with
  | [] => Ret (Next s)
  | x :: l' =>
      c ← body x s;
      match c with Stop r => Ret (Stop r) | Next s' => seq_foreach body l' s' end
  end.

Lemma list_foreach_seg {St Res} (body : Z -> St -> outcome (ctl St Res)) h l : forall p fuel s,
  seg h p l None -> (length l <= fuel)%nat ->
  list_foreach fuel body h (firstp l None) s = seq_foreach body l s.
Proof.
  induction l as [|x l IH]; intros p fuel s Hs Hf; [by destruct fuel|].
  destruct fuel as [|fuel]; [simpl in Hf; lia|]. destruct Hs as [Hx Hs]. simpl.
  destruct (body x s) as [[s'|r]| | |]; simpl; try done.
  rewrite (deref_at _ _ _ Hx). simpl. apply (IH (Some x)); [done|simpl in Hf; lia].
Qed.

Lemma list_foreach_rep {St Res} (body : Z -> St -> outcome (ctl St Res)) hd h l s :
  rep hd h l -> list_foreach (size h) body h (first hd) s = seq_foreach body l s.
Proof.
  intros Hr. pose proof (rep_length _ _ _ Hr). destruct Hr as (_ & Hs & -> & _).
  by apply (list_foreach_seg _ _ _ None).
Qed.

(** ** Properties *)

(** Adding a fresh element to a list at its end or its front links it
    after or before the sequence the list stands for, keeps the links of
    every element outside the list, and a traversal of the result visits the
    new sequence in order and ends. *)
Theorem list_add_refines (hd : head_t) (h : links) (l : list Z) (el : Z)
    (Hrep : rep hd h l) (Hfresh : el ∉ l) (Hel : el ∈ dom h) :
  (exists hd' h', LIST_ADD hd h (Some el) = Ret (hd', h') /\ rep hd' h' (l ++ [el]) /\
     same_outside (el :: l) h h' /\
     forall St Res (body : Z -> St -> outcome (ctl St Res)) s,
       list_foreach (size h') body h' (first hd') s = seq_foreach body (l ++ [el]) s) /\
  (exists hd' h', LIST_ADD_FRONT hd h (Some el) = Ret (hd', h') /\ rep hd' h' (el :: l) /\
     same_outside (el :: l) h h' /\
     forall St Res (body : Z -> St -> outcome (ctl St Res)) s,
       list_foreach (size h') body h' (first hd') s = seq_foreach body (el :: l) s).
Proof.
  split.
  - destruct (list_add_back hd h l el) as (hd' & h' & Hr & Hr' & Ho); [done..|].
    exists hd', h'. split_and!; [done..|]. intros. by apply list_foreach_rep.
  - destruct (list_add_front hd h l el) as (hd' & h' & Hr & Hr' & Ho); [done..|].
    exists hd', h'. split_and!; [done..|]. intros. by apply list_foreach_rep.
Qed.

(** Three elements, the first two of them listed. *)
Definition store_ex : links :=
  <[10 := mk_link (Some 20) None]> (<[20 := mk_link None (Some 10)]>
    (<[30 := mk_link None None]> ∅)).
Definition head_ex : head_t := mk_head (Some 10) (Some 20).

Lemma rep_ex : rep head_ex store_ex [10; 20].
Proof.
  split; [|by repeat split].
  apply NoDup_cons. split; [set_solver|apply NoDup_singleton].
Qed.

Lemma list_add_refines_witness :
  exists hd' h', LIST_ADD head_ex store_ex (Some 30) = Ret (hd', h') /\
    rep hd' h' [10; 20; 30].
Proof.
  destruct (list_add_refines head_ex store_ex [10; 20] 30) as [(hd' & h' & H & Hr & _) _].
  - apply rep_ex.
  - set_solver.
  - apply elem_of_dom. exists (mk_link None None). reflexivity.
  - exists hd', h'. split; [exact H|exact Hr].
Defined.

(** Removing an element of a list, wherever it stands, takes exactly it
    out of the sequence, clears both of its links, and keeps the links of
    every element outside the list. *)
Theorem list_remove_refines (hd : head_t) (h : links) (l1 : list Z) (el : Z) (l2 : list Z)
    (Hrep : rep hd h (l1 ++ el :: l2)) :
  exists hd' h', LIST_REMOVE hd h (Some el) = Ret (hd', h') /\ rep hd' h' (l1 ++ l2) /\
    h' !! el = Some (mk_link None None) /\ same_outside (l1 ++ el :: l2) h h'.
Proof. by apply list_remove. Qed.

Lemma list_remove_refines_witness :
  exists hd' h', LIST_REMOVE head_ex store_ex (Some 20) = Ret (hd', h') /\
    rep hd' h' [10] /\ h' !! 20 = Some (mk_link None None).
Proof.
  destruct (list_remove_refines head_ex store_ex [10] 20 [] rep_ex)
    as (hd' & h' & H & Hr & He & _).
  exists hd', h'. split; [exact H|split; [exact Hr|exact He]].
Defined.

(** LIST_INSERT_ORDERED_BY puts an element before the first one whose
    key is not below its own, except when that is the first of the list:
    then it follows the first element's null [prev] link and faults. *)
Theorem list_insert_ordered (key : Z -> Z) (hd : head_t) (h : links) (l : list Z) (el : Z)
    (Hrep : rep hd h l) (Hfresh : el ∉ l) (Hel : el ∈ dom h) :
  let '(before, from) := split_key key (key el) l in
  if decide (before = [] /\ from <> []) then LIST_INSERT_ORDERED_BY key hd h el = Fault
  else exists hd' h', LIST_INSERT_ORDERED_BY key hd h el = Ret (hd', h') /\
    rep hd' h' (before ++ el :: from) /\ same_outside (el :: l) h h'.
Proof.
  pose proof (rep_length _ _ _ Hrep) as Hlen. pose proof Hrep as (_ & Hs & Hf & Hla).
  pose proof (split_key_app key (key el) l) as Happ.
  unfold LIST_INSERT_ORDERED_BY. rewrite Hf, (ordered_pos_spec _ _ _ _ None) by (done || lia).
  destruct (split_key key (key el) l) as [before from]. simpl in *. subst l.
  destruct from as [|b from].
  - rewrite decide_False by naive_solver. rewrite app_nil_r in *. simpl. by apply list_add_back.
  - simpl. rewrite (deref_at _ _ _ (seg_lookup _ _ _ _ _ _ Hs)). simpl.
    destruct before as [|a before _] using rev_ind.
    + rewrite decide_True by done. unfold LIST_INSERT.
      rewrite is_ptr_ne; [done|]. rewrite Hla. simpl. intros E. symmetry in E. revert E.
      destruct (lastp_elem (Some b) (b :: from)) as (x & Hx & _); [done|]. simpl in Hx.
      by rewrite Hx.
    + rewrite decide_False by (by destruct before; naive_solver).
      rewrite lastp_app. simpl. rewrite <- !app_assoc in *. simpl in *.
      by apply (list_insert_after hd h before a (b :: from)).
Qed.

Lemma list_insert_ordered_witness :
  LIST_INSERT_ORDERED_BY (fun x => if x =? 30 then 5 else x) head_ex store_ex 30 = Fault /\
  exists hd' h', LIST_INSERT_ORDERED_BY (fun x => if x =? 30 then 15 else x) head_ex store_ex 30
    = Ret (hd', h') /\ rep hd' h' [10; 30; 20].
Proof.
  assert (Hd : 30 ∈ dom store_ex) by (apply elem_of_dom; by exists (mk_link None None)).
  assert (Hf : 30 ∉ [10; 20]) by set_solver.
  split.
  - exact (list_insert_ordered (fun x => if x =? 30 then 5 else x) head_ex store_ex [10; 20] 30
      rep_ex Hf Hd).
  - destruct (list_insert_ordered (fun x => if x =? 30 then 15 else x) head_ex store_ex
      [10; 20] 30 rep_ex Hf Hd) as (hd' & h' & H & Hr & _).
    exists hd', h'. split; [exact H|exact Hr].
Defined.
