(* ===== verification/Bitmap.v ===== *)
(** * lib/bitmap.c: the bitmap allocator

    The bit primitives of lib/asm/bits.asm, the operations of lib/bitmap.c
    over an array of 64-bit words, and what they guarantee: which bits a
    search finds, which bits an update changes, and what happens to the
    [free]/[used] counters. *)

From S2P Require Import Prelude.
From stdpp Require Import list.
Local Open Scope Z_scope.

(** ** lib/asm/bits.asm *)

(** The index of the lowest set bit of [x] among bits [i .. i+k-1]. *)
Fixpoint bsf_from (k : nat) (i x : Z) : option Z :=
  match k with
  | O => None
  | S k' => if Z.testbit x i then Some i else bsf_from k' (i + 1) x
  end.

(** [bsf] leaves its destination undefined on a zero operand. *)
Definition bsf64 (x : Z) : outcome Z :=
  match bsf_from 64 0 x with Some k => Ret k | None => Fault end.

Fixpoint popcnt_from (k : nat) (i x : Z) : Z :=
  match k with
  | O => 0
  | S k' => Z.b2z (Z.testbit x i) + popcnt_from k' (i + 1) x
  end.

Definition popcnt64 (x : Z) : Z := popcnt_from 64 0 x.

(** [bt], [bts], [btr] on a word in memory: the old bit and the new word. *)
Definition bt64 (q bit : Z) : bool := Z.testbit q bit.
Definition bts64 (q bit : Z) : bool * Z := (Z.testbit q bit, Z.setbit q bit).
Definition btr64 (q bit : Z) : bool * Z := (Z.testbit q bit, Z.clearbit q bit).

(** ** State *)

Definition MAX_NUM : Z := 0xFFFFFFFFFFFFFFFF.

(** [bmp_map] is the word array [bmp->map] points to. *)
Record bitmap_t := mk_bitmap {
  bmp_map : list Z;
  bmp_size : Z;
  bmp_free : Z;
  bmp_used : Z;
}.

Definition set_map (b : bitmap_t) (m : list Z) : bitmap_t :=
  mk_bitmap m (bmp_size b) (bmp_free b) (bmp_used b).

(** [used += du; free += df] on [size_t]. *)
Definition add_counts (b : bitmap_t) (du df : Z) : bitmap_t :=
  mk_bitmap (bmp_map b) (bmp_size b) (u64 (bmp_free b + df)) (u64 (bmp_used b + du)).

(** ** Construction *)

Definition bitmap_init (n : Z) : bitmap_t :=
  let na := align n 64 in
  let bytes := na / 8 in
  mk_bitmap (replicate (Z.to_nat (bytes / 8)) 0) bytes n 0.

(** [bitmap_free] releases the words and zeroes the header. *)
Definition bitmap_free (b : bitmap_t) : bitmap_t := mk_bitmap [] 0 0 0.

(** The clone gets its own array, filled from [size] bytes of the source. *)
Definition clone_bitmap (b : bitmap_t) : bitmap_t :=
  mk_bitmap (take (Z.to_nat (bmp_size b / 8)) (bmp_map b)) (bmp_size b) (bmp_free b) (bmp_used b).

(** ** Single bits *)

(** [_assert(index < bmp->used + bmp->free)]: [index] converts to [size_t]. *)
Definition index_ok (b : bitmap_t) (index : Z) : bool :=
  u64 index <? u64 (bmp_used b + bmp_free b).

Definition bitmap_get (b : bitmap_t) (index : Z) : outcome bool :=
  _ ← kassert (index_ok b index);
  q ← load (bmp_map b) (index / 64);
  Ret (bt64 q (index mod 64)).

Definition bitmap_set (b : bitmap_t) (index : Z) : outcome (bool * bitmap_t) :=
  _ ← kassert (index_ok b index);
  q ← load (bmp_map b) (index / 64);
  let '(result, q') := bts64 q (index mod 64) in
  m ← store (bmp_map b) (index / 64) q';
  Ret (result, add_counts (set_map b m) 1 (-1)).

Definition bitmap_clear (b : bitmap_t) (index : Z) : outcome (bool * bitmap_t) :=
  _ ← kassert (index_ok b index);
  q ← load (bmp_map b) (index / 64);
  let '(result, q') := btr64 q (index mod 64) in
  m ← store (bmp_map b) (index / 64) q';
  Ret (result, add_counts (set_map b m) (- Z.b2z result) (Z.b2z result)).

(** [result = (value ^ -v) + v] in [uint8_t]. *)
Definition assign_result (value v : bool) : Z :=
  u8 (Z.lxor (Z.b2z value) (- Z.b2z v) + Z.b2z v).

Definition bitmap_assign (b : bitmap_t) (index : Z) (v : bool)
    : outcome (bool * bitmap_t) :=
  _ ← kassert (index_ok b index);
  q ← load (bmp_map b) (index / 64);
  let '(value, q') :=
    if v then bts64 q (index mod 64) else btr64 q (index mod 64) in
  m ← store (bmp_map b) (index / 64) q';
  let result := assign_result value v in
  Ret (negb (result =? 0), add_counts (set_map b m) (- result) result).

(** ** Regions *)

(** The mask of one step of the region loops; [m] is the step's bit count. *)
Definition region_mask (i chunk_count n m start_bit : Z) : outcome Z :=
  if i =? 0 then
    x ← shl 64 1 m; shl 64 (u64 (x - 1)) start_bit
  else if (i =? chunk_count - 1) && (n <? 64) then
    x ← shl 64 1 m; Ret (u64 (x - 1))
  else Ret MAX_NUM.

(** [(n / BIT_SIZE) + (n % BIT_SIZE > 0)]. *)
Definition chunks (n : Z) : Z := n / 64 + (if 0 <? n mod 64 then 1 else 0).

Definition bitmap_get_n (b : bitmap_t) (index n : Z) : outcome Z :=
  _ ← kassert (n <=? bmp_free b);
  let chunk_count := chunks n in
  r ← for_each (Z.to_nat chunk_count) 0 (fun i '(n, count) =>
        let m := Z.min n 64 in
        mask ← region_mask i chunk_count n m (index mod 64);
        q ← load (bmp_map b) (index / 64 + i);
        Ret (n - m, count + popcnt64 (Z.land q mask))) (n, 0);
  Ret (snd r).

Definition bitmap_set_n (b : bitmap_t) (index n : Z) : outcome (Z * bitmap_t) :=
  _ ← kassert (n <=? bmp_free b);
  let chunk_count := chunks n in
  r ← for_each (Z.to_nat chunk_count) 0 (fun i '(n, count, b) =>
        let m := Z.min n 64 in
        mask ← region_mask i chunk_count n m (index mod 64);
        q ← load (bmp_map b) (index / 64 + i);
        mp ← store (bmp_map b) (index / 64 + i) (Z.lor q mask);
        Ret (n - m, count + popcnt64 (Z.land q mask),
             add_counts (set_map b mp) m (- m))) (n, 0, b);
  let '(_, count, b') := r in Ret (count, b').

(** One chunk; [n] is what is left of the region. *)
Definition clear_n_step (index chunk_count i : Z) (s : Z * bitmap_t)
    : outcome (Z * bitmap_t) :=
  let '(n, b) := s in
  let m := Z.min n (64 - (if i =? 0 then index mod 64 else 0)) in
  mask ← region_mask i chunk_count n m (index mod 64);
  q ← load (bmp_map b) (index / 64 + i);
  mp ← store (bmp_map b) (index / 64 + i) (Z.land q (not_w 64 mask));
  Ret (n - m, add_counts (set_map b mp) (- m) m).

Definition bitmap_clear_n (b : bitmap_t) (index n : Z) : outcome (Z * bitmap_t) :=
  _ ← kassert (n <=? bmp_used b);
  let chunk_count := chunks n in
  r ← for_each (Z.to_nat chunk_count) 0 (clear_n_step index chunk_count) (n, b);
  Ret (sint 64 n, snd r).

(** ** Searches *)

(** The number of words the loops visit. *)
Definition bmp_words (b : bitmap_t) : nat := Z.to_nat (bmp_size b / 8).

Definition bitmap_get_free (b : bitmap_t) : outcome Z :=
  if bmp_free b =? 0 then Ret (-1)
  else
    r ← for_loop (bmp_words b) 0 (fun i _ =>
          qw ← load (bmp_map b) i;
          if qw =? MAX_NUM then Ret (Next tt)
          else if qw =? 0 then Ret (Stop (i * 64))
          else k ← bsf64 (not_w 64 qw); Ret (Stop (i * 64 + k))) tt;
    match r with Next _ => Ret (-1) | Stop x => Ret x end.

(** One word of the scan. *)
Definition get_set_free_step (b : bitmap_t) (i : Z) (_ : unit)
    : outcome (ctl unit (Z * bitmap_t)) :=
  qw ← load (bmp_map b) i;
  if qw =? MAX_NUM then Ret (Next tt)
  else if qw =? 0 then
    m ← store (bmp_map b) i 1; Ret (Stop (i * 64, set_map b m))
  else
    offset ← bsf64 (not_w 64 qw);
    x ← shl 64 1 offset;
    m ← store (bmp_map b) i (Z.lor qw x);
    Ret (Stop (i * 64 + offset, set_map b m)).

Definition bitmap_get_set_free (b : bitmap_t) : outcome (Z * bitmap_t) :=
  if bmp_free b =? 0 then Ret (-1, b)
  else
    r ← for_loop (bmp_words b) 0 (get_set_free_step b) tt;
    match r with Next _ => Ret (-1, b) | Stop x => Ret x end.

(** The [while (qw > 0)] scan of one inverted word: the first position of
    [n] consecutive one bits of [qw], offset by [p]. *)
Fixpoint find_run (fuel : nat) (n qw p : Z) : outcome (option Z) :=
  match fuel with
  | O => NoFuel
  | S f =>
      if qw =? 0 then Ret None
      else
        k ← bsf64 qw;
        qw1 ← shr 64 qw k;
        let p1 := u8 (p + k) in
        k1 ← bsf64 (not_w 64 qw1);
        if n <=? k1 then Ret (Some p1)
        else
          qw2 ← shr 64 qw1 k1;
          find_run f n qw2 (u8 (p1 + k1))
  end.

(** The inner [for (j = i; ...)] of the slow case, from word [j] with [found]
    words seen: [inl j'] is the [goto outer] at a used word [j'], [inr found]
    the loop's end. *)
Fixpoint count_free_words (k : nat) (m : list Z) (j chunk_count found : Z)
    : outcome (Z + Z) :=
  match k with
  | O => Ret (inr found)
  | S k' =>
      q ← load m j;
      if negb (q =? 0) then Ret (inl j)
      else if chunk_count <=? found + 1 then Ret (inr (found + 1))
      else count_free_words k' m (j + 1) chunk_count (found + 1)
  end.

(** The outer loop: [Some index] when it breaks or runs to its end ([-1]),
    [None] for the early [return -1]. [goto outer] sets [i = j + 1] and the
    loop then increments it once more. *)
Fixpoint find_free_words (fuel : nat) (m : list Z) (i max_index chunk_count al : Z)
    : outcome (option Z) :=
  match fuel with
  | O => NoFuel
  | S f =>
      if i <? max_index then
        q ← load m i;
        if negb (q =? 0) || negb ((i * 64) mod al =? 0) then
          find_free_words f m (i + 1) max_index chunk_count al
        else
          r ← count_free_words (Z.to_nat (max_index - i)) m i chunk_count 0;
          match r with
          | inl j => find_free_words f m (j + 2) max_index chunk_count al
          | inr found =>
              if found <? chunk_count then Ret None else Ret (Some i)
          end
      else Ret (Some (-1))
  end.

(** The slow case's marking loop over [chunk_count] words. *)
Fixpoint mark_words (k : nat) (m : list Z) (index i remaining : Z) : outcome (list Z) :=
  match k with
  | O => Panic (* unreachable *)
  | S k' =>
      let v := Z.min remaining 64 in
      let remaining := remaining - v in
      if 0 <? remaining then
        m' ← store m (u64 (index + i)) MAX_NUM;
        mark_words k' m' index (i + 1) remaining
      else if v =? 64 then store m (u64 (index + i)) MAX_NUM
      else x ← shr 64 MAX_NUM (64 - remaining); store m (u64 (index + i)) x
  end.

Definition bitmap_get_nfree (b : bitmap_t) (n : Z) : outcome (Z * bitmap_t) :=
  if bmp_free b <? n then Ret (-1, b)
  else if n <=? 64 then
    r ← for_loop (bmp_words b) 0 (fun i _ =>
          w ← load (bmp_map b) i;
          let qw := not_w 64 w in
          if (qw =? 0) || (popcnt64 qw <? n) then Ret (Next tt)
          else if qw =? MAX_NUM then Ret (Stop (i * 64, add_counts b 0 (- n)))
          else
            o ← find_run 65 n qw 0;
            match o with
            | Some p => Ret (Stop (i * 64 + p, add_counts b 0 (- n)))
            | None => Ret (Next tt)
            end) tt;
    match r with Next _ => Ret (-1, b) | Stop x => Ret x end
  else
    o ← find_free_words (S (bmp_words b)) (bmp_map b) 0 (bmp_size b / 8) (chunks n) 1;
    match o with
    | Some index => Ret (index * 64, b)
    | None => Ret (-1, b)
    end.

(** One word of the fast case: stop with a region, or go on. *)
Definition set_nfree_step (b : bitmap_t) (n i : Z) (_ : unit)
    : outcome (ctl unit (Z * bitmap_t)) :=
  w ← load (bmp_map b) i;
  let qw := not_w 64 w in
  if (qw =? 0) || (popcnt64 qw <? n) then Ret (Next tt)
  else if qw =? MAX_NUM then
    x ← shr 64 MAX_NUM (64 - n);
    m ← store (bmp_map b) i (Z.lor w x);
    Ret (Stop (i * 64, add_counts (set_map b m) 0 (- n)))
  else
    o ← find_run 65 n qw 0;
    match o with
    | Some p =>
        x ← shr 64 MAX_NUM (64 - n);
        y ← shl 64 x p;
        m ← store (bmp_map b) i (Z.lor w y);
        Ret (Stop (i * 64 + p, add_counts (set_map b m) n (- n)))
    | None => Ret (Next tt)
    end.

Definition bitmap_get_set_nfree (b : bitmap_t) (n al : Z) : outcome (Z * bitmap_t) :=
  if bmp_free b <? n then Ret (-1, b)
  else if negb (is_pow2 al) then Ret (-1, b)
  else if n <=? 64 then
    _ ← kassert (al =? 0);
    r ← for_loop (bmp_words b) 0 (set_nfree_step b n) tt;
    match r with Next _ => Ret (-1, b) | Stop x => Ret x end
  else
    let al := if al =? 0 then 1 else al in
    o ← find_free_words (S (bmp_words b)) (bmp_map b) 0 (bmp_size b / 8) (chunks n) al;
    match o with
    | None => Ret (-1, b)
    | Some index =>
        m ← mark_words (Z.to_nat (chunks n)) (bmp_map b) index 0 n;
        Ret (index * 64, add_counts (set_map b m) n (- n))
    end.

(** ** The bits of a bitmap *)

(** Bit [i] of the word array; bits outside the array read as clear. *)
Definition bit_at (m : list Z) (i : Z) : bool :=
  match m !! Z.to_nat (i / 64) with
  | Some q => Z.testbit q (i mod 64)
  | None => false
  end.

(** The words hold 64 bits each and [size] is their length in bytes. *)
Record wf (b : bitmap_t) : Prop := {
  wf_words : Forall (fits 64) (bmp_map b);
  wf_size : bmp_size b = 8 * Z.of_nat (length (bmp_map b));
}.

(** [n] consecutive set bits of a word starting at [p]. *)
Definition run_at (q p n : Z) : Prop := forall i, p <= i < p + n -> Z.testbit q i = true.

(** ** Bit scan lemmas *)

Lemma bsf_from_Some k : forall i x r,
  bsf_from k i x = Some r ->
  i <= r < i + Z.of_nat k /\ Z.testbit x r = true /\
  (forall j, i <= j < r -> Z.testbit x j = false).
Proof.
  induction k as [|k IH]; intros i x r H; simpl in H; [done|].
  destruct (Z.testbit x i) eqn:Hi.
  - injection H as ->. repeat split; [lia|lia|done|]. intros; lia.
  - apply IH in H as (Hr & Hb & Hl). repeat split; [lia|lia|done|].
    intros j Hj. destruct (Z.eq_dec j i) as [->|]; [done|]. apply Hl. lia.
Qed.

Lemma bsf_from_None k : forall i x,
  bsf_from k i x = None -> forall j, i <= j < i + Z.of_nat k -> Z.testbit x j = false.
Proof.
  induction k as [|k IH]; intros i x H j Hj; simpl in H; [lia|].
  destruct (Z.testbit x i) eqn:Hi; [done|].
  destruct (Z.eq_dec j i) as [->|]; [done|]. apply (IH (i + 1)); [done|lia].
Qed.

Lemma bsf64_spec x i :
  0 <= i < 64 -> Z.testbit x i = true ->
  exists k, bsf64 x = Ret k /\ 0 <= k <= i /\ Z.testbit x k = true /\
    (forall j, 0 <= j < k -> Z.testbit x j = false).
Proof.
  intros Hi Hb. unfold bsf64. destruct (bsf_from 64 0 x) as [k|] eqn:E.
  - apply bsf_from_Some in E as (Hk & Hbk & Hl). exists k. repeat split; try done; try lia.
    destruct (Z.le_gt_cases k i); [done|]. rewrite Hl in Hb; [done|lia].
  - pose proof (bsf_from_None _ _ _ E i) as Hn. rewrite Hn in Hb; [done|lia].
Qed.

Lemma fits_bit_exists q : fits 64 q -> q <> 0 -> exists i, 0 <= i < 64 /\ Z.testbit q i = true.
Proof.
  intros Hq H0. exists (Z.log2 q). unfold fits in Hq. repeat split.
  - apply Z.log2_nonneg.
  - apply Z.log2_lt_pow2; lia.
  - apply Z.bit_log2. lia.
Qed.

Lemma testbit_MAX_NUM i : 0 <= i -> Z.testbit MAX_NUM i = (i <? 64).
Proof.
  intros. change MAX_NUM with (mask_at 0 64). rewrite testbit_mask_at by lia.
  by rewrite (proj2 (Z.leb_le 0 i)) by done.
Qed.
#[local] Hint Rewrite testbit_MAX_NUM using lia : bits.

Lemma fits_zero_bit_exists q :
  fits 64 q -> q <> MAX_NUM -> exists i, 0 <= i < 64 /\ Z.testbit q i = false.
Proof.
  intros Hq HM. destruct (fits_bit_exists (not_w 64 q)) as (i & Hi & Hb).
  - auto with words lia.
  - intros H0. apply HM. apply Z.bits_inj'. intros i Hi.
    assert (Z.testbit (not_w 64 q) i = false) as Hb by by rewrite H0, Z.bits_0.
    autorewrite with bits in Hb |- *.
    destruct (Z.ltb_spec i 64); simpl in *.
    + destruct (Z.testbit q i); [done|discriminate Hb].
    + by apply (fits_testbit 64); [lia|..].
  - exists i. autorewrite with bits in Hb. split; [done|].
    apply andb_true_iff in Hb as [_ Hb]. by apply negb_true_iff in Hb.
Qed.

Lemma shr64 x k : 0 <= k < 64 -> shr 64 x k = Ret (Z.shiftr x k).
Proof. intros. unfold shr. by rewrite (proj2 (Z.leb_le 0 k)), (proj2 (Z.ltb_lt k 64)) by lia. Qed.

Lemma shl64 x k : 0 <= k < 64 -> shl 64 x k = Ret (u64 (Z.shiftl x k)).
Proof. intros. unfold shl. by rewrite (proj2 (Z.leb_le 0 k)), (proj2 (Z.ltb_lt k 64)) by lia. Qed.

(** ** The word scan *)

(** One round of the scan from position [p] of [W]: the next run of ones
    [a .. b-1], with [b] the zero bit that ends it. *)
Lemma scan_round W p :
  fits 64 W -> W <> MAX_NUM -> 0 <= p <= 64 -> Z.shiftr W p <> 0 ->
  exists a b, p <= a < b /\ b <= 64 /\ b - a < 64 /\
    bsf64 (Z.shiftr W p) = Ret (a - p) /\ bsf64 (not_w 64 (Z.shiftr W a)) = Ret (b - a) /\
    run_at W a (b - a) /\ (forall j, p <= j < a -> Z.testbit W j = false) /\
    Z.testbit W b = false.
Proof.
  intros HW HM Hp H0.
  destruct (fits_bit_exists (Z.shiftr W p)) as (i & Hi & Hb); [|done|].
  { unfold fits in *. split; [apply Z.shiftr_nonneg; lia|].
    rewrite Z.shiftr_div_pow2 by lia.
    apply Z.le_lt_trans with W; [|lia]. apply Z.div_le_upper_bound; nia. }
  destruct (bsf64_spec _ _ Hi Hb) as (k & Ek & Hk & Hbk & Hlow).
  rewrite Z.shiftr_spec in Hbk by lia.
  assert (Hkp : k + p < 64).
  { destruct (Z.lt_ge_cases (k + p) 64); [done|]. by rewrite (fits_testbit 64) in Hbk by (done || lia). }
  assert (exists z, 0 <= z < 64 /\ Z.testbit (not_w 64 (Z.shiftr W (k + p))) z = true)
    as (z & Hz & Hbz).
  { destruct (Z.eq_dec (k + p) 0) as [E|E].
    - destruct (fits_zero_bit_exists W HW HM) as (z & Hz & Hbz). exists z. split; [done|].
      rewrite testbit_not_w, E, Z.shiftr_0_r, Hbz, (proj2 (Z.ltb_lt z 64)) by lia. done.
    - exists 63. split; [lia|]. rewrite testbit_not_w, Z.shiftr_spec by lia.
      by rewrite (fits_testbit 64 W) by (done || lia). }
  destruct (bsf64_spec _ _ Hz Hbz) as (k1 & Ek1 & Hk1 & Hbk1 & Hlow1).
  assert (Hend : Z.testbit W (k1 + (k + p)) = false).
  { rewrite testbit_not_w, Z.shiftr_spec in Hbk1 by lia.
    apply andb_true_iff in Hbk1 as [_ Hb1]. by apply negb_true_iff. }
  assert (Hones : run_at W (k + p) k1).
  { intros j Hj. specialize (Hlow1 (j - (k + p))).
    rewrite testbit_not_w, Z.shiftr_spec, (proj2 (Z.ltb_lt _ 64)) in Hlow1 by lia.
    replace (j - (k + p) + (k + p)) with j in Hlow1 by lia.
    apply negb_false_iff, Hlow1. lia. }
  assert (Hk1' : k1 <> 0) by (intros ->; rewrite Z.add_0_l in Hend; congruence).
  exists (k + p), (k1 + (k + p)). replace (k + p - p) with k by lia.
  replace (k1 + (k + p) - (k + p)) with k1 by lia.
  repeat split; try done; try lia.
  - destruct (Z.le_gt_cases (k1 + (k + p)) 64); [done|].
    specialize (Hones 64). rewrite (fits_testbit 64) in Hones by (done || lia).
    discriminate Hones. lia.
  - intros j Hj. specialize (Hlow (j - p)). rewrite Z.shiftr_spec in Hlow by lia.
    replace (j - p + p) with j in Hlow by lia. apply Hlow. lia.
Qed.

Lemma no_run W p a b n :
  0 <= p -> b - a < n -> 1 <= n ->
  (forall s, 0 <= s < p -> ~ run_at W s n) ->
  (forall j, p <= j < a -> Z.testbit W j = false) -> Z.testbit W b = false ->
  forall s, 0 <= s < b -> ~ run_at W s n.
Proof.
  intros Hp Hn Hn1 Hbefore Hzero Hend s Hs Hrun.
  destruct (Z.lt_ge_cases s p); [by apply (Hbefore s); [lia|]|].
  destruct (Z.lt_ge_cases s a).
  - specialize (Hrun s). rewrite Hzero in Hrun by lia. discriminate Hrun. lia.
  - specialize (Hrun b). rewrite Hend in Hrun. discriminate Hrun. lia.
Qed.

Lemma find_run_spec W n :
  fits 64 W -> W <> MAX_NUM -> 1 <= n ->
  forall fuel p, 64 - p < Z.of_nat fuel -> 0 <= p <= 64 ->
  (forall s, 0 <= s < p -> ~ run_at W s n) ->
  exists o, find_run fuel n (Z.shiftr W p) p = Ret o /\
    match o with
    | Some r => 0 <= r /\ r + n <= 64 /\ run_at W r n /\
                (forall s, 0 <= s < r -> ~ run_at W s n)
    | None => forall s, 0 <= s -> ~ run_at W s n
    end.
Proof.
  intros HW HM Hn. induction fuel as [|fuel IH]; intros p Hf Hp Hno; [lia|]; simpl.
  case_test; zbool.
  - exists None. split; [done|]. intros s Hs Hrun. apply Z.shiftr_eq_0_iff in Heqb.
    destruct (Z.lt_ge_cases s p) as [?|Hge]; [by apply (Hno s)|].
    assert (Hb : Z.testbit (Z.shiftr W p) (s - p) = true).
    { rewrite Z.shiftr_spec by lia. replace (s - p + p) with s by lia. apply Hrun. lia. }
    assert (Z.shiftr W p = 0) as E by by apply Z.shiftr_eq_0_iff.
    by rewrite E, Z.bits_0 in Hb.
  - destruct (scan_round W p HW HM Hp Heqb) as (a & b & Ha & Hb & Hlen & E1 & E2 & Hrun & Hz & Hend).
    rewrite E1; simpl. rewrite shr64 by lia; simpl.
    rewrite Z.shiftr_shiftr by lia. replace (p + (a - p)) with a by lia.
    rewrite (wrap_small 8 a) by (unfold fits; lia). rewrite E2; simpl.
    case_test; zbool.
    + exists (Some a). split; [done|]. repeat split; try lia.
      * intros i Hi. apply Hrun. lia.
      * intros s Hs Hr. destruct (Z.lt_ge_cases s p); [by apply (Hno s); [lia|]|].
        specialize (Hr s). rewrite Hz in Hr by lia. discriminate Hr. lia.
    + rewrite shr64 by lia; simpl. rewrite Z.shiftr_shiftr by lia.
      replace (a + (b - a)) with b by lia.
      rewrite (wrap_small 8 b) by (unfold fits; lia).
      apply IH; [lia|lia|]. apply (no_run W p a b); done || lia.
Qed.

#[global] Arguments find_run : simpl never.
#[global] Arguments popcnt64 : simpl never.
#[global] Arguments bsf64 : simpl never.

(** ** Updating one word *)

Lemma bit_at_insert m i q j :
  0 <= i < Z.of_nat (length m) -> 0 <= j ->
  bit_at (<[Z.to_nat i := q]> m) j =
  if j / 64 =? i then Z.testbit q (j mod 64) else bit_at m j.
Proof.
  intros Hi Hj. unfold bit_at. destruct (Z.eqb_spec (j / 64) i) as [->|Hne].
  - by rewrite list_lookup_insert_eq by lia.
  - rewrite list_lookup_insert_ne; [done|]. intros E. apply Hne.
    assert (0 <= j / 64) by (apply Z.div_pos; lia). lia.
Qed.

(** Setting the bits [p .. p+n-1] of word [i]. *)
Lemma bit_at_set_run m i w p n :
  m !! Z.to_nat i = Some w -> 0 <= i -> 0 <= p -> 0 <= n -> p + n <= 64 ->
  forall j, 0 <= j ->
  bit_at (<[Z.to_nat i := Z.lor w (mask_at p n)]> m) j =
  bit_at m j || (i * 64 + p <=? j) && (j <? i * 64 + p + n).
Proof.
  intros Hw Hi Hp Hn Hpn j Hj. pose proof (lookup_lt_Some _ _ _ Hw) as Hlt.
  rewrite bit_at_insert by lia.
  pose proof (Z.div_mod j 64 ltac:(lia)) as Hdm.
  pose proof (Z.mod_pos_bound j 64 ltac:(lia)) as Hm.
  destruct (Z.eqb_spec (j / 64) i) as [E|Hne].
  - autorewrite with bits. unfold bit_at. rewrite E, Hw. f_equal.
    destruct (Z.leb_spec p (j mod 64)), (Z.leb_spec (i * 64 + p) j),
      (Z.ltb_spec (j mod 64) (p + n)), (Z.ltb_spec j (i * 64 + p + n)); done || lia.
  - destruct (Z.leb_spec (i * 64 + p) j), (Z.ltb_spec j (i * 64 + p + n)); simpl;
      rewrite ?orb_false_r; done || lia.
Qed.

Lemma run_mask p n : 0 <= p -> 1 <= n -> p + n <= 64 ->
  (x ← shr 64 MAX_NUM (64 - n); shl 64 x p) = Ret (mask_at p n).
Proof.
  intros. rewrite shr64 by lia; simpl. rewrite shl64 by lia. f_equal.
  apply Z.bits_inj'. intros i Hi. autorewrite with bits.
  rewrite Z.shiftl_spec by lia. destruct (Z.leb_spec p i); simpl.
  - rewrite Z.shiftr_spec, testbit_MAX_NUM by lia.
    destruct (Z.ltb_spec i 64), (Z.ltb_spec (i - p + (64 - n)) 64),
      (Z.ltb_spec i (p + n)); done || lia.
  - rewrite (Z.testbit_neg_r _ (i - p)) by lia. by rewrite andb_false_r.
Qed.

(** ** Free regions *)

(** [n] clear bits from bit [s] on. *)
Definition free_at (m : list Z) (s n : Z) : Prop :=
  forall j, s <= j < s + n -> bit_at m j = false.

Lemma free_at_run m i w p n :
  m !! Z.to_nat i = Some w -> 0 <= i -> 0 <= p -> p + n <= 64 ->
  free_at m (i * 64 + p) n <-> run_at (not_w 64 w) p n.
Proof.
  intros Hw Hi Hp Hn.
  assert (E : forall t, 0 <= t < 64 -> bit_at m (i * 64 + t) = Z.testbit w t).
  { intros t Ht. unfold bit_at. rewrite Z.div_add_l, Z.div_small, Z.add_0_r, Hw by lia.
    by rewrite Z.add_comm, Z.mod_add, Z.mod_small by lia. }
  split; intros H j Hj.
  - rewrite testbit_not_w, (proj2 (Z.ltb_lt j 64)), <- E, H by lia. done.
  - specialize (H (j - i * 64)). rewrite testbit_not_w, (proj2 (Z.ltb_lt _ 64)) in H by lia.
    replace j with (i * 64 + (j - i * 64)) by lia. rewrite E by lia.
    apply negb_true_iff, H. lia.
Qed.

Lemma popcnt_run q p n k : forall i,
  run_at q p n -> 0 <= n ->
  Z.min (i + Z.of_nat k) (p + n) - Z.max i p <= popcnt_from k i q /\
  0 <= popcnt_from k i q.
Proof.
  induction k as [|k IH]; intros i Hr Hn; cbn [popcnt_from]; [lia|].
  destruct (IH (i + 1) Hr Hn) as [H1 H2]. specialize (Hr i).
  destruct (Z.testbit q i); cbn [Z.b2z]; [lia|].
  assert (i < p \/ p + n <= i); [|lia].
  destruct (Z.lt_ge_cases i p), (Z.lt_ge_cases i (p + n)); lia.
Qed.

Lemma popcnt64_run q p n : run_at q p n -> 0 <= p -> 0 <= n -> p + n <= 64 -> n <= popcnt64 q.
Proof. intros Hr Hp Hn Hpn. pose proof (popcnt_run q p n 64 0 Hr Hn). unfold popcnt64. lia. Qed.

(** Region starts of word [i] that do not cross its end. *)
Lemma no_free_in_word m i w n :
  m !! Z.to_nat i = Some w -> 0 <= i ->
  (forall s, 0 <= s -> s + n <= 64 -> ~ run_at (not_w 64 w) s n) ->
  (forall s, 0 <= s < i * 64 -> s mod 64 + n <= 64 -> ~ free_at m s n) ->
  forall s, 0 <= s < (i + 1) * 64 -> s mod 64 + n <= 64 -> ~ free_at m s n.
Proof.
  intros Hw Hi Hno Hbefore s Hs Hfit Hfree.
  destruct (Z.lt_ge_cases s (i * 64)); [by apply (Hbefore s); [lia|..]|].
  assert (E : s = i * 64 + s mod 64).
  { pose proof (Z.div_mod s 64 ltac:(lia)). assert (s / 64 = i); [|lia].
    symmetry. apply (Z.div_unique s 64 i (s - i * 64)); lia. }
  pose proof (Z.mod_pos_bound s 64 ltac:(lia)).
  rewrite E in Hfree. apply (free_at_run m i w) in Hfree; try done; try lia.
  apply (Hno (s mod 64)); [lia|lia|done].
Qed.

Lemma wf_set_word b i q :
  wf b -> fits 64 q -> wf (set_map b (<[i := q]> (bmp_map b))).
Proof.
  intros [Hw Hs] Hq. split; simpl; [by apply Forall_insert|by rewrite length_insert].
Qed.

Lemma wf_add_counts b du df : wf b -> wf (add_counts b du df).
Proof. by intros [Hw Hs]; split. Qed.

#[local] Hint Resolve wf_set_word wf_add_counts : words.

Lemma wf_bmp_words b : wf b -> Z.of_nat (bmp_words b) = Z.of_nat (length (bmp_map b)).
Proof. intros [_ Hs]. unfold bmp_words. rewrite Hs, Z.mul_comm, Z.div_mul by lia. lia. Qed.

Lemma wf_word b i w : wf b -> bmp_map b !! i = Some w -> fits 64 w.
Proof. intros [Hw _]. apply Forall_lookup_1. done. Qed.

(** ** Allocation of at most a word *)

(** The bits [r .. r+n-1] were clear in [m] and are set in [m'], and no other
    bit differs. *)
Record took_bits (m m' : list Z) (r n : Z) : Prop := {
  took_start : 0 <= r;
  took_end : r + n <= 64 * Z.of_nat (length m);
  took_clear : free_at m r n;
  took_set : forall j, 0 <= j ->
    bit_at m' j = bit_at m j || (r <=? j) && (j <? r + n);
}.

(** The same for a bitmap whose free count went down by [n]. *)
Definition took (b b' : bitmap_t) (r n : Z) : Prop :=
  took_bits (bmp_map b) (bmp_map b') r n /\ n <= bmp_free b /\
  bmp_free b' = u64 (bmp_free b - n).

(** No region of [n] clear bits within one word starts before [limit]. *)
Definition none_before (m : list Z) (n limit : Z) : Prop :=
  forall s, 0 <= s < limit -> s mod 64 + n <= 64 -> ~ free_at m s n.

Lemma took_bits_run m i w p n :
  m !! Z.to_nat i = Some w -> 0 <= i -> 0 <= p -> 1 <= n -> p + n <= 64 ->
  run_at (not_w 64 w) p n ->
  took_bits m (<[Z.to_nat i := Z.lor w (mask_at p n)]> m) (i * 64 + p) n.
Proof.
  intros Hw Hi Hp Hn Hpn Hrun. pose proof (lookup_lt_Some _ _ _ Hw) as Hlt.
  split; try lia.
  - apply (free_at_run _ i w); done || lia.
  - intros j Hj. apply bit_at_set_run; done || lia.
Qed.

Lemma took_run b i w p n du :
  wf b -> bmp_map b !! Z.to_nat i = Some w -> 0 <= i -> 0 <= p -> 1 <= n -> p + n <= 64 ->
  n <= bmp_free b -> run_at (not_w 64 w) p n ->
  let b' := add_counts (set_map b (<[Z.to_nat i := Z.lor w (mask_at p n)]> (bmp_map b))) du (- n) in
  wf b' /\ took b b' (i * 64 + p) n.
Proof.
  intros Hwf Hw Hi Hp Hn Hpn Hfree Hrun b'.
  assert (fits 64 w) by by apply (wf_word b (Z.to_nat i)).
  split; [apply wf_add_counts, wf_set_word; auto with words lia|].
  split; [by apply took_bits_run|done].
Qed.

Lemma none_before_word b i w n :
  bmp_map b !! Z.to_nat i = Some w -> 0 <= i -> 1 <= n ->
  none_before (bmp_map b) n (i * 64) ->
  not_w 64 w = 0 \/ popcnt64 (not_w 64 w) < n \/
    (forall s, 0 <= s -> ~ run_at (not_w 64 w) s n) ->
  none_before (bmp_map b) n ((i + 1) * 64).
Proof.
  intros Hw Hi Hn Hbefore Hcase. refine (no_free_in_word _ i w n Hw Hi _ Hbefore).
  intros s Hs Hfit Hrun. destruct Hcase as [E|[Hpop|Hno]].
  - rewrite E in Hrun. specialize (Hrun s). rewrite Z.bits_0 in Hrun. discriminate Hrun. lia.
  - pose proof (popcnt64_run _ s n Hrun). lia.
  - by apply (Hno s).
Qed.

Lemma none_before_run m i w p n :
  m !! Z.to_nat i = Some w -> 0 <= i -> 0 <= p < 64 ->
  (forall s, 0 <= s < p -> ~ run_at (not_w 64 w) s n) ->
  none_before m n (i * 64) -> none_before m n (i * 64 + p).
Proof.
  intros Hw Hi Hp Hno Hbefore s Hs Hfit Hfree.
  destruct (Z.lt_ge_cases s (i * 64)); [by apply (Hbefore s); [lia|..]|].
  assert (E : s mod 64 = s - i * 64).
  { symmetry. apply (Z.mod_unique_pos s 64 i); lia. }
  apply (Hno (s - i * 64)); [lia|]. apply (free_at_run m i w); [done|lia|lia|lia|].
  by replace (i * 64 + (s - i * 64)) with s by lia.
Qed.

Lemma shr_MAX n : 1 <= n <= 64 -> shr 64 MAX_NUM (64 - n) = Ret (mask_at 0 n).
Proof.
  intros Hn. rewrite shr64 by lia. f_equal. apply Z.bits_inj'. intros i Hi.
  rewrite Z.shiftr_spec, testbit_MAX_NUM, testbit_mask_at by lia.
  destruct (Z.ltb_spec (i + (64 - n)) 64), (Z.leb_spec 0 i), (Z.ltb_spec i (0 + n)); done || lia.
Qed.

(** How many bits of a region found at [r] are counted as used: none when it
    is in an empty word. *)
Definition counted (m : list Z) (r n : Z) : Z := if default 0 (m !! Z.to_nat (r / 64)) =? 0 then 0 else n.

(** What the search promises once it stopped. *)
Definition found_first (b : bitmap_t) (n : Z) (res : Z * bitmap_t) : Prop :=
  wf (snd res) /\ (fst res) mod 64 + n <= 64 /\ took b (snd res) (fst res) n /\
  none_before (bmp_map b) n (fst res) /\ bmp_used (snd res) = u64 (bmp_used b + counted (bmp_map b) (fst res) n).

Lemma found_run b i w p n du :
  wf b -> bmp_map b !! Z.to_nat i = Some w -> 0 <= i -> 0 <= p -> 1 <= n -> p + n <= 64 ->
  n <= bmp_free b -> run_at (not_w 64 w) p n -> none_before (bmp_map b) n (i * 64) ->
  (forall s, 0 <= s < p -> ~ run_at (not_w 64 w) s n) -> du = (if w =? 0 then 0 else n) ->
  found_first b n (i * 64 + p, add_counts (set_map b
    (<[Z.to_nat i := Z.lor w (mask_at p n)]> (bmp_map b))) du (- n)).
Proof.
  intros Hwf Hw Hi Hp Hn Hpn Hfree Hrun Hbefore Hno Hdu.
  destruct (took_run b i w p n du) as [Hwf' Ht]; try done.
  split; [done|]. split; [|split; [|split]]; simpl; [|done| |].
  - rewrite (Z.add_comm (i * 64)), Z.mod_add, Z.mod_small by lia. lia.
  - apply (none_before_run _ i w); done || lia.
  - unfold counted. rewrite Z.div_add_l, Z.div_small, Z.add_0_r, Hw by lia. by subst du.
Qed.

Lemma empty_word w : fits 64 w -> (w =? 0) = (not_w 64 w =? MAX_NUM).
Proof.
  intros Hw. destruct (Z.eqb_spec w 0) as [->|Hne]; [done|]. symmetry. apply Z.eqb_neq. intros E. apply Hne, Z.bits_inj'. intros i Hi. rewrite Z.bits_0.
  destruct (Z.lt_ge_cases i 64) as [Hlt|]; [|by apply (fits_testbit 64)].
  assert (Z.testbit (not_w 64 w) i = true) as H by (rewrite E, testbit_MAX_NUM by lia; by apply Z.ltb_lt).
  rewrite testbit_not_w in H by lia. rewrite (proj2 (Z.ltb_lt i 64)) in H by lia. by destruct (Z.testbit w i).
Qed.

Lemma set_nfree_step_ok b n i :
  wf b -> 1 <= n <= 64 -> n <= bmp_free b -> 0 <= i < Z.of_nat (length (bmp_map b)) ->
  none_before (bmp_map b) n (i * 64) ->
  exists c, set_nfree_step b n i tt = Ret c /\
    step_ok (fun i _ => none_before (bmp_map b) n (i * 64)) (found_first b n) c i.
Proof.
  intros Hwf Hn Hfree Hi Hbefore. unfold set_nfree_step.
  destruct (load_in_range (bmp_map b) i) as (w & -> & Hw); [lia|]; simpl.
  assert (Hfw : fits 64 w) by by apply (wf_word b (Z.to_nat i)).
  assert (Hnw : fits 64 (not_w 64 w)) by (apply not_w_range; lia).
  case_test; zbool.
  { eexists; split; [done|]. apply (none_before_word b i w); done || lia. }
  destruct (Z.eqb_spec (not_w 64 w) MAX_NUM) as [Hmax|Hmax].
  - rewrite shr_MAX by lia. simpl. rewrite store_in_range by lia. simpl. eexists; split; [done|]. simpl.
    rewrite <- (Z.add_0_r (i * 64)). apply found_run; done || lia || (try (intros; lia)).
    + intros j Hj. rewrite Hmax, testbit_MAX_NUM by lia. apply Z.ltb_lt. lia.
    + by rewrite (empty_word w Hfw), (proj2 (Z.eqb_eq (not_w 64 w) MAX_NUM)).
  - destruct (find_run_spec (not_w 64 w) n Hnw Hmax ltac:(lia) 65 0) as (o & E & Ho);
      [lia|lia|intros; lia|].
    rewrite Z.shiftr_0_r in E. rewrite E. simpl. destruct o as [p|].
    + destruct Ho as (Hp & Hpn & Hrun & Hno).
      pose proof (run_mask p n Hp ltac:(lia) Hpn) as Hm. rewrite shr_MAX in Hm |- * by lia.
      simpl in Hm |- *. rewrite Hm. simpl. rewrite store_in_range by lia. simpl.
      eexists; split; [done|]. apply found_run; try (done || lia).
      by rewrite (empty_word w Hfw), (proj2 (Z.eqb_neq (not_w 64 w) MAX_NUM)).
    + eexists; split; [done|]. apply (none_before_word b i w); try done; try lia. auto.
Qed.

(** C26. [bitmap_get_set_nfree] for [1 <= n <= 64] bits (no alignment) always
    returns.  It yields either the lowest region of [n] clear bits that lies
    within one word, with exactly those bits set, the free count lowered by [n]
    and the used count raised by [n], or by nothing if the word was empty; or
    [-1] with the bitmap unchanged, and then fewer than [n] bits are counted
    free or no word has [n] clear bits in a row.  Regions that cross from one
    word into the next are not looked at. *)
Theorem get_set_nfree_fast (b : bitmap_t) (n : Z) (Hwf : wf b) (Hn : 1 <= n <= 64) :
  exists r b', bitmap_get_set_nfree b n 0 = Ret (r, b') /\
    (found_first b n (r, b') \/
     (r = -1 /\ b' = b /\
      (bmp_free b < n \/
       none_before (bmp_map b) n (64 * Z.of_nat (length (bmp_map b)))))).
Proof.
  unfold bitmap_get_set_nfree. case_test; zbool; [by do 2 eexists; auto 6|].
  simpl. rewrite (proj2 (Z.leb_le n 64)) by lia. simpl.
  edestruct (for_loop_rule (fun i _ => none_before (bmp_map b) n (i * 64))
    (found_first b n) (bmp_words b) 0 (set_nfree_step b n)) as (c & -> & Hc).
  - intros s Hs. lia.
  - intros i [] Hi Hbefore. rewrite wf_bmp_words in Hi by done.
    apply set_nfree_step_ok; done || lia.
  - destruct c as [[]|[r b']]; simpl; do 2 eexists; (split; [done|]); [right|by left].
    rewrite wf_bmp_words in Hc by done. repeat split. right.
    by rewrite Z.add_0_l, Z.mul_comm in Hc.
Qed.

Lemma get_set_nfree_fast_witness :
  exists r b', bitmap_get_set_nfree (mk_bitmap [0xFF0F] 8 52 12) 3 0 = Ret (r, b') /\ r = 4.
Proof.
  destruct (get_set_nfree_fast (mk_bitmap [0xFF0F] 8 52 12) 3) as (r & b' & E & _).
  - split; [|done]. repeat constructor; simpl; lia.
  - lia.
  - exists r, b'. split; [exact E|]. vm_compute in E. congruence.
Defined.

(** ** Allocation of a single bit *)


(** What the search of one clear bit promises: the lowest clear bit is set and
    nothing else changes, the counters included. *)
Definition took_first (b : bitmap_t) (res : Z * bitmap_t) : Prop :=
  wf (snd res) /\ took_bits (bmp_map b) (bmp_map (snd res)) (fst res) 1 /\
  none_before (bmp_map b) 1 (fst res) /\
  bmp_free (snd res) = bmp_free b /\ bmp_used (snd res) = bmp_used b.

Lemma run_at_one q p : run_at q p 1 <-> Z.testbit q p = true.
Proof.
  split; intros H; [apply H; lia|]. intros i Hi. by replace i with p by lia.
Qed.

Lemma mask_at_one p : 0 <= p -> mask_at p 1 = 2 ^ p.
Proof. intros. unfold mask_at. by rewrite Z.shiftl_mul_pow2, Z.mul_1_l. Qed.

Lemma took_first_run b i w p :
  wf b -> bmp_map b !! Z.to_nat i = Some w -> 0 <= i -> 0 <= p < 64 ->
  Z.testbit (not_w 64 w) p = true -> none_before (bmp_map b) 1 (i * 64) ->
  (forall s, 0 <= s < p -> Z.testbit (not_w 64 w) s = false) ->
  took_first b (i * 64 + p, set_map b (<[Z.to_nat i := Z.lor w (2 ^ p)]> (bmp_map b))).
Proof.
  intros Hwf Hw Hi Hp Hbit Hbefore Hlow. rewrite <- mask_at_one by lia.
  assert (fits 64 w) by by apply (wf_word b (Z.to_nat i)).
  split; [apply wf_set_word; auto with words lia|]. simpl. split; [|split; [|done]].
  - apply (took_bits_run _ i w); try done; try lia. by apply run_at_one.
  - apply (none_before_run _ i w); try done. intros s Hs Hr%run_at_one.
    by rewrite Hlow in Hr.
Qed.

Lemma get_set_free_step_ok b i :
  wf b -> 0 <= i < Z.of_nat (length (bmp_map b)) ->
  none_before (bmp_map b) 1 (i * 64) ->
  exists c, get_set_free_step b i tt = Ret c /\
    step_ok (fun i _ => none_before (bmp_map b) 1 (i * 64)) (took_first b) c i.
Proof.
  intros Hwf Hi Hbefore. unfold get_set_free_step.
  destruct (load_in_range (bmp_map b) i) as (w & -> & Hw); [lia|]; simpl.
  assert (Hfw : fits 64 w) by by apply (wf_word b (Z.to_nat i)).
  destruct (Z.eqb_spec w MAX_NUM) as [->|Hmax].
  { eexists; split; [done|]. apply (none_before_word b i MAX_NUM); try done; try lia.
    by left. }
  destruct (Z.eqb_spec w 0) as [->|H0].
  - rewrite store_in_range by lia. simpl. eexists; split; [done|].
    rewrite <- (Z.add_0_r (i * 64)). apply (took_first_run b i 0 0); try done; lia || (intros; lia).
  - destruct (fits_zero_bit_exists w Hfw Hmax) as (z & Hz & Hbz).
    destruct (bsf64_spec (not_w 64 w) z Hz) as (k & -> & Hk & Hbk & Hlow).
    { by rewrite testbit_not_w, Hbz, (proj2 (Z.ltb_lt z 64)) by lia. }
    simpl. rewrite shl64 by lia. simpl. rewrite store_in_range by lia. simpl.
    eexists; split; [done|].
    rewrite Z.shiftl_1_l, (wrap_small 64 (2 ^ k)).
    + apply took_first_run; done || lia.
    + split; [lia|]. apply Z.pow_lt_mono_r; lia.
Qed.

Lemma get_set_free_spec (b : bitmap_t) (Hwf : wf b) :
  exists r b', bitmap_get_set_free b = Ret (r, b') /\
    (took_first b (r, b') \/
     (r = -1 /\ b' = b /\
      (bmp_free b = 0 \/
       none_before (bmp_map b) 1 (64 * Z.of_nat (length (bmp_map b)))))).
Proof.
  unfold bitmap_get_set_free. case_test; zbool; [by do 2 eexists; auto 6|].
  edestruct (for_loop_rule (fun i _ => none_before (bmp_map b) 1 (i * 64))
    (took_first b) (bmp_words b) 0 (get_set_free_step b)) as (c & -> & Hc).
  - intros s Hs. lia.
  - intros i [] Hi Hbefore. rewrite wf_bmp_words in Hi by done.
    apply get_set_free_step_ok; done || lia.
  - destruct c as [[]|[r b']]; simpl; do 2 eexists; (split; [done|]); [right|by left].
    rewrite wf_bmp_words in Hc by done. repeat split. right.
    by rewrite Z.add_0_l, Z.mul_comm in Hc.
Qed.

Lemma get_set_free_size b r b' : bitmap_get_set_free b = Ret (r, b') -> bmp_size b' = bmp_size b.
Proof.
  unfold bitmap_get_set_free. intros H. case_test; [by inv_ret|]. inv_ret.
  assert (Hl : forall k i, for_loop k i (get_set_free_step b) () = Ret x ->
    match x with Next _ => True | Stop y => bmp_size (snd y) = bmp_size b end).
  { clear. intros k. induction k as [|k IH]; intros i H; simpl in H; inv_ret; [done|].
    destruct x0 as [[]|y]; [by eapply IH|]. inv_ret. unfold get_set_free_step in *.
    inv_ret. repeat case_test; inv_ret; done. }
  specialize (Hl _ _ H0). destruct x; [by inv_ret|]. by injection H as ->.
Qed.

(** [bitmap_get_set_free] always returns.  It yields the lowest clear bit
    of the array, with exactly that bit set and both counters unchanged; or
    [-1] with the bitmap unchanged when the free count is zero or every bit is
    set. *)
Theorem get_set_free_first (b : bitmap_t) (Hwf : wf b) :
  exists r b', bitmap_get_set_free b = Ret (r, b') /\
    (took_first b (r, b') \/
     (r = -1 /\ b' = b /\
      (bmp_free b = 0 \/
       none_before (bmp_map b) 1 (64 * Z.of_nat (length (bmp_map b)))))).
Proof. by apply get_set_free_spec. Qed.

Lemma get_set_free_first_witness :
  exists b', bitmap_get_set_free (mk_bitmap [MAX_NUM; 7] 16 61 67) = Ret (67, b').
Proof.
  destruct (get_set_free_first (mk_bitmap [MAX_NUM; 7] 16 61 67)) as (r & b' & E & _).
  - split; [|done]. repeat constructor; simpl; unfold MAX_NUM; lia.
  - exists b'. rewrite E. vm_compute in E. congruence.
Defined.

(** ** Clearing a region *)

Lemma chunks_one n : 0 < n < 64 -> chunks n = 1.
Proof.
  intros Hn. unfold chunks. rewrite Z.div_small, Z.mod_small by lia.
  by rewrite (proj2 (Z.ltb_lt 0 n)) by lia.
Qed.

(** The first chunk's mask: [m] bits from [start_bit], cut at the word's end. *)
Lemma region_mask_first cc n m start_bit :
  0 < m < 64 -> 0 <= start_bit < 64 ->
  region_mask 0 cc n m start_bit = Ret (mask_at start_bit (Z.min m (64 - start_bit))).
Proof.
  intros Hm Hs. unfold region_mask. simpl. rewrite shl64 by lia. simpl.
  rewrite Z.shiftl_1_l, (wrap_small 64 (2 ^ m)) by (split; [lia|apply Z.pow_lt_mono_r; lia]).
  rewrite (wrap_small 64) by (split; [lia|pose proof (Z.pow_lt_mono_r 2 m 64); lia]).
  rewrite shl64 by lia. f_equal. apply Z.bits_inj'. intros i Hi.
  rewrite testbit_wrap, testbit_mask_at, Z.shiftl_spec by lia.
  replace (2 ^ m - 1) with (Z.ones m) by (rewrite Z.ones_equiv; lia).
  destruct (Z.leb_spec start_bit i).
  - rewrite Z.testbit_ones by lia.
    destruct (Z.ltb_spec i 64), (Z.leb_spec 0 (i - start_bit)), (Z.ltb_spec (i - start_bit) m),
      (Z.ltb_spec i (start_bit + Z.min m (64 - start_bit))); done || lia.
  - rewrite Z.testbit_neg_r by lia. by rewrite andb_false_r.
Qed.

(** The end of a region cut at the end of its first word. *)
Definition word_end (index n : Z) : Z := Z.min (index + n) ((index / 64 + 1) * 64).

Lemma in_first_word index n j :
  0 <= index -> 0 <= j -> 0 < n < 64 ->
  (j / 64 =? index / 64) &&
    ((index mod 64 <=? j mod 64) && (j mod 64 <? index mod 64 + Z.min n (64 - index mod 64))) =
  (index <=? j) && (j <? word_end index n).
Proof.
  intros Hi Hj Hn. unfold word_end.
  pose proof (Z.div_mod j 64 ltac:(lia)). pose proof (Z.mod_pos_bound j 64 ltac:(lia)).
  pose proof (Z.div_mod index 64 ltac:(lia)). pose proof (Z.mod_pos_bound index 64 ltac:(lia)).
  apply eq_bool_prop_intro. rewrite !andb_True, !Is_true_true, Z.eqb_eq, !Z.leb_le, !Z.ltb_lt.
  split; [intros (E & ? & ?); rewrite E in *; lia|].
  intros [? ?]. assert (j / 64 = index / 64); [|lia].
  symmetry. apply (Z.div_unique j 64 _ (j - index / 64 * 64)); lia.
Qed.

(** [b'] is [b] with the bits [lo .. hi-1] clear and accounted as free. *)
Record gave (b b' : bitmap_t) (lo hi : Z) : Prop := {
  gave_wf : wf b';
  gave_bits : forall j, 0 <= j ->
    bit_at (bmp_map b') j = bit_at (bmp_map b) j && negb ((lo <=? j) && (j <? hi));
  gave_used : bmp_used b' = u64 (bmp_used b - (hi - lo));
  gave_free : bmp_free b' = u64 (bmp_free b + (hi - lo));
}.

Lemma clear_n_step_first b index cc n :
  wf b -> 0 < n < 64 -> 0 <= index < 64 * Z.of_nat (length (bmp_map b)) ->
  exists n' b', clear_n_step index cc 0 (n, b) = Ret (n', b') /\
    gave b b' index (word_end index n).
Proof.
  intros Hwf Hn Hidx. unfold clear_n_step. simpl (0 =? 0). cbv iota.
  pose proof (Z.div_mod index 64 ltac:(lia)) as Hdm.
  pose proof (Z.mod_pos_bound index 64 ltac:(lia)) as Hm.
  assert (Hi : 0 <= index / 64 < Z.of_nat (length (bmp_map b))).
  { split; [apply Z.div_pos; lia|]. apply Z.div_lt_upper_bound; lia. }
  destruct (load_in_range (bmp_map b) (index / 64) Hi) as (w & Hl & Hw).
  assert (Hfw : fits 64 w) by by apply (wf_word b (Z.to_nat (index / 64))).
  rewrite region_mask_first, Z.add_0_r by lia. simpl.
  rewrite Hl. simpl. rewrite store_in_range by done. simpl.
  replace (Z.min (Z.min n (64 - index mod 64)) (64 - index mod 64))
    with (Z.min n (64 - index mod 64)) by lia.
  do 2 eexists. split; [done|]. split.
  - apply wf_add_counts, wf_set_word; [done|]. apply fits_land; [lia|done|].
    apply not_w_range. lia.
  - intros j Hj. simpl. rewrite bit_at_insert by lia. rewrite <- in_first_word by lia.
    destruct (Z.eqb_spec (j / 64) (index / 64)) as [E|]; simpl; [|by rewrite andb_true_r].
    pose proof (Z.mod_pos_bound j 64 ltac:(lia)).
    rewrite Z.land_spec, testbit_not_w, testbit_mask_at by lia.
    unfold bit_at. by rewrite E, Hw, (proj2 (Z.ltb_lt (j mod 64) 64)) by lia.
  - simpl. f_equal. unfold word_end. lia.
  - simpl. f_equal. unfold word_end. lia.
Qed.

(** [bitmap_clear_n] on fewer than 64 bits clears the region's bits up to
    the end of the word the region starts in, moves as many bits from [used]
    to [free], leaves every other bit alone and returns [n].  A region within
    one word is cleared entirely; of one that crosses into the next word the
    rest stays set. *)
Theorem clear_n_word (b : bitmap_t) (index n : Z) (Hwf : wf b) (Hn : 0 < n < 64)
    (Hused : n <= bmp_used b)
    (Hidx : 0 <= index < 64 * Z.of_nat (length (bmp_map b))) :
  exists b', bitmap_clear_n b index n = Ret (n, b') /\ gave b b' index (word_end index n).
Proof.
  unfold bitmap_clear_n. rewrite (proj2 (Z.leb_le n _)) by lia. simpl.
  rewrite chunks_one by lia. change (Z.to_nat 1) with 1%nat. cbn [for_each].
  destruct (clear_n_step_first b index 1 n) as (n' & b' & -> & Hg); try done. simpl.
  exists b'. split; [|done]. f_equal. f_equal. unfold sint.
  rewrite wrap_small by (unfold fits; lia). by rewrite (proj2 (Z.ltb_lt n _)) by lia.
Qed.

Lemma clear_n_word_witness :
  exists b', bitmap_clear_n (mk_bitmap [0xFF; 0] 16 120 8) 2 3 = Ret (3, b') /\
    bmp_map b' = [0xE3; 0].
Proof.
  destruct (clear_n_word (mk_bitmap [0xFF; 0] 16 120 8) 2 3) as (b' & E & _).
  - split; [|done]. repeat constructor; simpl; lia.
  - lia.
  - simpl; lia.
  - simpl; lia.
  - exists b'. split; [exact E|]. vm_compute in E. injection E as <-. reflexivity.
Defined.

(** ** Allocation of more than a word *)

(** Words [i .. i+k-1] of the array are all zero. *)
Definition zero_words (m : list Z) (i k : Z) : Prop :=
  forall t, i <= t < i + k -> m !! Z.to_nat t = Some 0.

Lemma count_free_words_spec m cc k : forall j found,
  0 <= j -> j + Z.of_nat k <= Z.of_nat (length m) -> found < cc ->
  exists r, count_free_words k m j cc found = Ret r /\
    match r with
    | inl j' => j <= j'
    | inr f => f < cc \/ zero_words m j (cc - found)
    end.
Proof.
  induction k as [|k IH]; intros j found Hj Hlen Hcc; simpl; [by exists (inr found); auto|].
  destruct (load_in_range m j) as (q & -> & Hq); [lia|]; simpl.
  destruct (Z.eqb_spec q 0) as [->|]; simpl; [|exists (inl j); split; [done|lia]].
  case_test; zbool.
  - exists (inr (found + 1)). split; [done|]. right. intros t Ht. by replace t with j by lia.
  - destruct (IH (j + 1) (found + 1)) as (r & -> & Hr); try lia.
    exists r. split; [done|]. destruct r as [j'|f]; [lia|].
    destruct Hr as [?|Hz]; [by left|]. right. intros t Ht.
    destruct (Z.eq_dec t j) as [->|]; [done|]. apply Hz. lia.
Qed.

Lemma find_free_words_spec m max_index cc al fuel : forall i,
  max_index <= Z.of_nat (length m) -> 1 <= cc -> 0 <= i -> Z.max 0 (max_index - i) < Z.of_nat fuel ->
  exists o, find_free_words fuel m i max_index cc al = Ret o /\
    match o with
    | Some r => r = -1 \/ (0 <= r /\ zero_words m r cc /\ (r * 64) mod al = 0)
    | None => True
    end.
Proof.
  induction fuel as [|fuel IH]; intros i Hmax Hcc Hi Hf; simpl; [lia|].
  case_test; zbool; [|by exists (Some (-1)); split; [done|left]].
  destruct (load_in_range m i) as (q & -> & Hq); [lia|]; simpl.
  case_test; [apply IH; lia|]. zbool.
  destruct (count_free_words_spec m cc (Z.to_nat (max_index - i)) i 0)
    as (r & -> & Hr); try lia. simpl.
  destruct r as [j|f]; [apply IH; lia|].
  case_test; zbool; [by exists None|]. exists (Some i). split; [done|]. right.
  destruct Hr as [?|Hz]; [lia|]. by rewrite Z.sub_0_r in Hz.
Qed.

(** The marking loop on a whole number of words. *)
Lemma mark_words_full index k : forall m i,
  0 <= index + i -> index + i + Z.of_nat (S k) <= Z.of_nat (length m) ->
  Z.of_nat (length m) < 2 ^ 64 ->
  exists m', mark_words (S k) m index i (64 * Z.of_nat (S k)) = Ret m' /\
    length m' = length m /\
    forall t, 0 <= t -> m' !! Z.to_nat t =
      if (index + i <=? t) && (t <? index + i + Z.of_nat (S k)) then Some MAX_NUM
      else m !! Z.to_nat t.
Proof.
  induction k as [|k IH]; intros m i Hi Hlen H64.
  - simpl. rewrite wrap_small, store_in_range by (unfold fits; lia).
    eexists; split; [done|]. split; [by rewrite length_insert|]. intros t Ht.
    destruct (Z.eq_dec t (index + i)) as [->|Hne].
    + rewrite list_lookup_insert_eq by lia.
      by rewrite (proj2 (Z.leb_le _ _)), (proj2 (Z.ltb_lt _ _)) by lia.
    + rewrite list_lookup_insert_ne by lia.
      zcases.
  - remember (S k) as k1 eqn:Ek. cbn [mark_words].
    replace (Z.min (64 * Z.of_nat (S k1)) 64) with 64 by lia. rewrite (proj2 (Z.ltb_lt 0 _)) by lia.
    rewrite wrap_small, store_in_range by (unfold fits; lia). simpl mbind.
    replace (64 * Z.of_nat (S k1) - 64) with (64 * Z.of_nat k1) by lia.
    destruct (IH (<[Z.to_nat (index + i) := MAX_NUM]> m) (i + 1)) as (m' & E & Hl & Hm');
      rewrite ?length_insert; try lia.
    rewrite length_insert in Hl. exists m'. split; [exact E|]. split; [done|].
    intros t Ht. rewrite Hm' by done. destruct (Z.eq_dec t (index + i)) as [->|Hne].
    + rewrite list_lookup_insert_eq by lia.
      destruct (Z.leb_spec (index + (i + 1)) (index + i)); [lia|]; simpl.
      by rewrite (proj2 (Z.leb_le _ _)), (proj2 (Z.ltb_lt _ _)) by lia.
    + rewrite list_lookup_insert_ne by lia.
      zcases.
Qed.

(** A last word that is not full is written with [MAX_NUM >> 64]. *)
Lemma mark_words_partial index k : forall m i n,
  n mod 64 <> 0 -> 0 < n -> chunks n = Z.of_nat k -> mark_words k m index i n = Fault.
Proof.
  induction k as [|k IH]; intros m i n Hmod Hn Hk; simpl.
  - pose proof (Z.div_pos n 64). unfold chunks in Hk. case_test; zbool; [lia|].
    pose proof (Z.mod_pos_bound n 64). lia.
  - case_test; zbool.
    + unfold store. case_test; simpl; [|done].
      replace (Z.min n 64) with 64 in * by lia. apply IH; [|lia|].
      * by rewrite <- (Z.mod_add (n - 64) 1), Z.mul_1_l, Z.sub_add by lia.
      * unfold chunks in *. replace n with (n - 64 + 1 * 64) in Hk by lia.
        rewrite Z.div_add, Z.mod_add in Hk by lia. lia.
    + replace (Z.min n 64) with n in * by lia. destruct (Z.eqb_spec n 64) as [->|]; [done|].
      unfold shr. by replace (n - n) with 0 by lia.
Qed.

Lemma mark_words_outside m n k :
  64 < n -> Z.of_nat (length m) < 2 ^ 64 - 1 -> mark_words (S k) m (-1) 0 n = Fault.
Proof.
  intros Hn Hlen. cbn [mark_words]. rewrite (proj2 (Z.ltb_lt 0 _)) by lia.
  unfold store. change (u64 (-1 + 0)) with (2 ^ 64 - 1).
  by rewrite (proj2 (Z.ltb_ge _ _)), andb_false_r by lia.
Qed.

Lemma took_bits_words m m' i k :
  0 <= i -> 0 < k -> zero_words m i k ->
  (forall t, 0 <= t -> m' !! Z.to_nat t =
     if (i <=? t) && (t <? i + k) then Some MAX_NUM else m !! Z.to_nat t) ->
  took_bits m m' (i * 64) (64 * k).
Proof.
  intros Hi Hk Hz Hm'.
  assert (Hin : forall j, i * 64 <= j < i * 64 + 64 * k -> i <= j / 64 < i + k).
  { intros j Hj. split; [apply Z.div_le_lower_bound; lia|apply Z.div_lt_upper_bound; lia]. }
  split; [lia| | |].
  - pose proof (lookup_lt_Some m _ _ (Hz (i + k - 1) ltac:(lia))). lia.
  - intros j Hj. unfold bit_at. rewrite Hz by (by apply Hin). apply Z.bits_0.
  - intros j Hj. pose proof (Z.div_mod j 64 ltac:(lia)).
    pose proof (Z.mod_pos_bound j 64 ltac:(lia)). unfold bit_at at 1.
    rewrite Hm' by (apply Z.div_pos; lia). case_test; zbool.
    + rewrite testbit_MAX_NUM, (proj2 (Z.ltb_lt _ _)) by lia.
      by rewrite (proj2 (Z.leb_le (i * 64) j)), (proj2 (Z.ltb_lt j _)), orb_true_r by lia.
    + fold (bit_at m j). apply andb_false_iff in Heqb as [|]; zbool; zcases;
        by rewrite orb_false_r.
Qed.

(** What a request for more than a word does, by the outcome of the word
    search: a search that stopped at [i >= 0] found [chunks n] zero words. *)
Definition slow_result (b : bitmap_t) (n al : Z) (res : outcome (Z * bitmap_t)) : Prop :=
  match res with
  | Ret (r, b') =>
      (r = -1 /\ b' = b) \/
      (n mod 64 = 0 /\ r mod 64 = 0 /\ r mod (Z.max 1 al) = 0 /\ wf b' /\ took b b' r n /\
       bmp_used b' = u64 (bmp_used b + n))
  | Fault =>
      n mod 64 <> 0 \/
      find_free_words (S (bmp_words b)) (bmp_map b) 0 (bmp_size b / 8) (chunks n)
        (Z.max 1 al) = Ret (Some (-1))
  | Panic | NoFuel => False
  end.

Lemma Forall_fits_words m m' i k :
  Forall (fits 64) m -> length m' = length m ->
  (forall t, 0 <= t -> m' !! Z.to_nat t =
     if (i <=? t) && (t <? i + k) then Some MAX_NUM else m !! Z.to_nat t) ->
  Forall (fits 64) m'.
Proof.
  intros Hm Hl Hm'. apply Forall_lookup_2. intros t x Hx.
  specialize (Hm' (Z.of_nat t) ltac:(lia)). rewrite Nat2Z.id, Hx in Hm'.
  case_test; [injection Hm' as ->; unfold fits, MAX_NUM; lia|].
  by apply (Forall_lookup_1 _ m t).
Qed.

Lemma slow_take b al r k :
  let n := 64 * Z.of_nat (S k) in
  wf b -> 64 < n <= bmp_free b -> Z.of_nat (length (bmp_map b)) < 2 ^ 58 -> 0 <= r ->
  zero_words (bmp_map b) r (Z.of_nat (S k)) -> (r * 64) mod (Z.max 1 al) = 0 ->
  slow_result b n al
    (m ← mark_words (S k) (bmp_map b) r 0 n;
     Ret (r * 64, add_counts (set_map b m) n (- n))).
Proof.
  intros n. subst n. intros Hwf Hn Hlen Hr Hz Hra.
  pose proof (lookup_lt_Some _ _ _ (Hz (r + Z.of_nat (S k) - 1) ltac:(lia))).
  destruct (mark_words_full r k (bmp_map b) 0) as (m' & -> & Hl & Hm'); try lia.
  simpl mbind. right. rewrite Z.add_0_r in Hm'.
  split; [by rewrite Z.mul_comm, Z.mod_mul by lia|].
  split; [apply Z.mod_mul; lia|]. split; [done|]. split; [|split; [split|done]].
  - split; simpl; [|by rewrite (wf_size b Hwf), Hl].
    by apply (Forall_fits_words (bmp_map b) _ r (Z.of_nat (S k))); [apply wf_words|..].
  - apply took_bits_words; done || lia.
  - done || (split; [lia|done]).
Qed.

(** [bitmap_get_set_nfree] for more than 64 bits returns [-1] with the
    bitmap unchanged, or, for a whole number of words, a region of clear bits
    at an aligned word boundary that it sets, moving [n] bits from [free] to
    [used].  Otherwise its marking loop is undefined behaviour: for every
    request that is not a whole number of words, and whenever the search runs
    off the end of the map, in which case it writes before the array. *)
Theorem get_set_nfree_slow (b : bitmap_t) (n al : Z) (Hwf : wf b)
    (Hn : 64 < n <= bmp_free b) (Hal : is_pow2 al = true) (Hal0 : 0 <= al)
    (Hlen : Z.of_nat (length (bmp_map b)) < 2 ^ 58) :
  slow_result b n al (bitmap_get_set_nfree b n al).
Proof.
  unfold bitmap_get_set_nfree. rewrite (proj2 (Z.ltb_ge _ _)), Hal by lia. simpl negb. cbv iota.
  rewrite (proj2 (Z.leb_gt n 64)) by lia.
  replace (if al =? 0 then 1 else al) with (Z.max 1 al) by (zcases).
  assert (Hsz : bmp_size b / 8 = Z.of_nat (length (bmp_map b))).
  { rewrite (wf_size b Hwf), Z.mul_comm, Z.div_mul by lia. done. }
  assert (Hcc : 1 <= chunks n).
  { unfold chunks. pose proof (Z.div_le_lower_bound n 64 1). zcases. }
  destruct (find_free_words_spec (bmp_map b) (bmp_size b / 8) (chunks n) (Z.max 1 al)
    (S (bmp_words b)) 0) as (o & E & Ho); try lia.
  { rewrite Nat2Z.inj_succ, wf_bmp_words by done. lia. }
  rewrite E. simpl mbind. destruct o as [r|]; [|by left].
  destruct (Z.eq_dec (n mod 64) 0) as [Hmod|Hmod].
  2: { rewrite mark_words_partial by lia. by left. }
  destruct (Z.to_nat (chunks n)) as [|k] eqn:Ek; [lia|].
  destruct Ho as [->|(Hr & Hz & Hra)].
  { rewrite mark_words_outside by lia. by right. }
  assert (Hnk : n = 64 * Z.of_nat (S k)).
  { unfold chunks in Ek. rewrite Hmod in Ek. simpl in Ek.
    pose proof (Z.div_mod n 64). lia. }
  assert (Hcck : chunks n = Z.of_nat (S k)) by lia. rewrite Hcck in Hz. clear Ek Hcck E.
  subst n. by apply slow_take.
Qed.

Lemma get_set_nfree_slow_witness :
  slow_result (mk_bitmap [1; 0; 0; 0] 32 255 1) 128 0
    (bitmap_get_set_nfree (mk_bitmap [1; 0; 0; 0] 32 255 1) 128 0) /\
  bitmap_get_set_nfree (mk_bitmap [1; 0; 0; 0] 32 255 1) 128 0 =
    Ret (64, mk_bitmap [1; MAX_NUM; MAX_NUM; 0] 32 127 129).
Proof.
  split; [|reflexivity].
  apply get_set_nfree_slow; [split|..]; simpl; try done; try lia.
  repeat constructor; simpl; lia.
Defined.

(** ** The counters of the all-free branch *)

Lemma set_nfree_step_empty b n :
  bmp_map b !! 0%nat = Some 0 -> 1 <= n <= 64 ->
  set_nfree_step b n 0 tt = Ret (Stop (0,
    add_counts (set_map b (<[0%nat := mask_at 0 n]> (bmp_map b))) 0 (- n))).
Proof.
  intros Hempty Hn. pose proof (lookup_lt_Some _ _ _ Hempty) as Hlt. unfold set_nfree_step.
  assert (load (bmp_map b) 0 = Ret 0) as -> by by apply load_Some. simpl.
  change (not_w 64 0) with MAX_NUM. change (popcnt64 MAX_NUM) with 64.
  rewrite (proj2 (Z.ltb_ge _ _)) by lia. simpl.
  rewrite shr_MAX by lia. simpl. by rewrite store_in_range by lia.
Qed.

(** An allocation of [n <= 64] bits that is served from an empty first
    word does not count its bits as used, so that releasing the region again
    fails the assertion of [bitmap_clear_n] unless [n] other bits are in use. *)
Theorem release_of_fresh_region_panics (b : bitmap_t) (n : Z)
    (Hwf : wf b) (Hn : 1 <= n <= 64) (Hfree : n <= bmp_free b)
    (Hused : 0 <= bmp_used b < n) (Hempty : bmp_map b !! 0%nat = Some 0) :
  exists b', bitmap_get_set_nfree b n 0 = Ret (0, b') /\ bitmap_clear_n b' 0 n = Panic.
Proof.
  pose proof (lookup_lt_Some _ _ _ Hempty) as Hlt.
  unfold bitmap_get_set_nfree. rewrite (proj2 (Z.ltb_ge _ _)) by lia. simpl.
  rewrite (proj2 (Z.leb_le n 64)) by lia. simpl.
  replace (bmp_words b) with (S (pred (length (bmp_map b)))).
  2: { pose proof (wf_bmp_words b Hwf). lia. }
  cbn [for_loop]. erewrite set_nfree_step_empty by done. simpl.
  eexists. split; [done|]. unfold bitmap_clear_n, add_counts. simpl.
  rewrite (wrap_small 64 (bmp_used b + 0)) by (unfold fits; lia).
  by rewrite (proj2 (Z.leb_gt n _)) by lia.
Qed.

Lemma release_of_fresh_region_panics_witness :
  exists b', bitmap_get_set_nfree (mk_bitmap [0; 0; 0; 0] 32 256 0) 8 0 = Ret (0, b') /\
    bitmap_clear_n b' 0 8 = Panic.
Proof.
  refine (release_of_fresh_region_panics (mk_bitmap [0; 0; 0; 0] 32 256 0) 8 _ _ _ _ _).
  - split; [|reflexivity]. repeat constructor; simpl; lia.
  - lia.
  - simpl; lia.
  - simpl; lia.
  - reflexivity.
Defined.
