(* ===== verification/Mm.v ===== *)
(** * include/kernel/mm_types.h: sizes and flags of the memory manager *)

From S2P Require Import Prelude.
Local Open Scope Z_scope.

Definition PAGE_SIZE : Z := 0x1000.
Abbreviation PAGE_SIZE_2MB := (0x200000).
Abbreviation PAGE_SIZE_1GB := (0x40000000).

(** Pages of a byte count, rounded up, and back. *)
Definition PAGES_TO_SIZE (pages : Z) : Z := u64 (Z.shiftl pages 12).
Definition SIZE_TO_PAGES (size : Z) : Z :=
  Z.shiftr size 12 + (if Z.land size 0xFFF =? 0 then 0 else 1).

(** [flags & FLAG] as a condition. *)
Definition has_flag (flags flag : Z) : bool := negb (Z.land flags flag =? 0).

Lemma has_flag_bit x k : 0 <= k -> has_flag x (2 ^ k) = Z.testbit x k.
Proof.
  intros Hk. unfold has_flag. destruct (Z.testbit x k) eqn:Hb.
  - apply negb_true_iff, Z.eqb_neq. intros E. apply (f_equal (fun v => Z.testbit v k)) in E.
    by rewrite Z.land_spec, Hb, Z.pow2_bits_true, Z.bits_0 in E by lia.
  - apply negb_false_iff, Z.eqb_eq. apply Z.bits_inj'. intros i Hi. rewrite Z.land_spec, Z.bits_0.
    destruct (decide (i = k)) as [->|Hne]; [by rewrite Hb|]. by rewrite Z.pow2_bits_false, andb_false_r by lia.
Qed.

Abbreviation PG_BIGPAGE := (0x1).
Abbreviation PG_HUGEPAGE := (0x2).
Abbreviation PG_OWNING := (0x4).
Abbreviation PG_HEAD := (0x8).
Abbreviation PG_COW := (0x10).
Abbreviation PG_SIZE_MASK := (Z.lor PG_BIGPAGE PG_HUGEPAGE).

Definition pg_flags_to_size (pg_flags : Z) : Z :=
  if has_flag pg_flags PG_BIGPAGE then PAGE_SIZE_2MB
  else if has_flag pg_flags PG_HUGEPAGE then PAGE_SIZE_1GB
  else PAGE_SIZE.

Abbreviation VM_READ := (Z.shiftl 1 0).
Abbreviation VM_WRITE := (Z.shiftl 1 1).
Abbreviation VM_EXEC := (Z.shiftl 1 2).
Abbreviation VM_PRIVATE := (Z.shiftl 1 3).
Abbreviation VM_SHARED := (Z.shiftl 1 4).
Abbreviation VM_USER := (Z.shiftl 1 5).
Abbreviation VM_GLOBAL := (Z.shiftl 1 6).
Abbreviation VM_NOCACHE := (Z.shiftl 1 7).
Abbreviation VM_WRITETHRU := (Z.shiftl 1 8).
Abbreviation VM_HUGE_2MB := (Z.shiftl 1 9).
Abbreviation VM_HUGE_1GB := (Z.shiftl 1 10).
Abbreviation VM_NOMAP := (Z.shiftl 1 11).
Abbreviation VM_FIXED := (Z.shiftl 1 12).
Abbreviation VM_STACK := (Z.shiftl 1 13).
Abbreviation VM_REPLACE := (Z.shiftl 1 14).
Abbreviation VM_MALLOC := (Z.shiftl 1 16).
Abbreviation VM_MAPPED := (Z.shiftl 1 17).
Abbreviation VM_LINKED := (Z.shiftl 1 18).
Abbreviation VM_SPLIT := (Z.shiftl 1 19).
Abbreviation VM_PROT_MASK := (0x7).
Abbreviation VM_MODE_MASK := (0x18).
Abbreviation VM_MAP_MASK := (0xFE0).
Abbreviation VM_FLAGS_MASK := (0xFFFF).

Definition vm_flags_to_size (vm_flags : Z) : Z :=
  if has_flag vm_flags VM_HUGE_2MB then PAGE_SIZE_2MB
  else if has_flag vm_flags VM_HUGE_1GB then PAGE_SIZE_1GB
  else PAGE_SIZE.

Abbreviation USER_SPACE_START := (0x0000000000000000).
Abbreviation USER_SPACE_END := (0x00007FFFFFFFFFFF).
Abbreviation KERNEL_SPACE_START := (0xFFFF800000000000).
Abbreviation KERNEL_SPACE_END := (0xFFFFFFFFFFFFFFFF).

(** ** Lemmas *)

Lemma SIZE_TO_PAGES_exact k : SIZE_TO_PAGES (k * 4096) = k.
Proof.
  unfold SIZE_TO_PAGES. change 0xFFF with (Z.ones 12).
  rewrite Z.shiftr_div_pow2, Z.land_ones by lia. change (2 ^ 12) with 4096.
  rewrite Z.div_mul, Z.mod_mul by lia. simpl. lia.
Qed.

Lemma PAGES_TO_SIZE_small k : 0 <= k < 2 ^ 52 -> PAGES_TO_SIZE k = k * 4096.
Proof.
  intros Hk. unfold PAGES_TO_SIZE. rewrite Z.shiftl_mul_pow2 by lia.
  apply wrap_small. unfold fits. lia.
Qed.
