(* ===== verification/EarlyMem.v ===== *)
(** * kernel/mm/init.c: memory before the frame allocators exist

    The pass over the boot memory map that picks the region for the kernel's
    reserved memory, and the bump allocation of pages and virtual addresses
    from it.  The page table writes of [early_map_entries] are not part of
    this state. *)

From S2P Require Import Prelude Mm.
Local Open Scope Z_scope.

(** Entries of the boot memory map (include/boot.h). *)
Record memory_map_entry_t := mk_entry { e_type : Z; e_base : Z; e_size : Z }.

Definition MEMORY_USABLE : Z := 2.
Definition MEMORY_EFI_RUNTIME_DATA : Z := 8.

(** [em_entry] is the position of [reserved_map_entry] in the map. *)
Record early_t := mk_early {
  em_map : list memory_map_entry_t;
  em_entry : nat;
  kernel_reserved_start : Z;
  kernel_reserved_end : Z;
  kernel_reserved_ptr : Z;
  kernel_reserved_va_ptr : Z;
}.

Definition KERNEL_RESERVED_VA : Z := 0xFFFFFF8000C00000.
Definition SIZE_16MB : Z := 0x1000000.
Definition SIZE_8MB : Z := 0x800000.

(** ** The pass over the memory map *)

(** The region picked so far, whether the initrd was seen at its start, and
    the entry that holds the kernel image. *)
Record scan_t := mk_scan {
  sc_entry : option nat;
  sc_start : Z;
  sc_end : Z;
  sc_initrd_reserved : bool;
  sc_kernel_entry : option nat;
}.

Section early_init.
Context (kernel_phys kernel_size initrd_phys initrd_size : Z).

Definition scan_entry (i : nat) (e : memory_map_entry_t) (sc : scan_t) : outcome scan_t :=
  let start := e_base e in
  let end_ := u64 (start + e_size e) in
  if (e_type e <? 0) || (MEMORY_EFI_RUNTIME_DATA <? e_type e) then Panic (* bad memory map *)
  else
    let sc1 :=
      if (e_type e =? MEMORY_USABLE) && bool_decide (sc_entry sc = None)
         && (SIZE_16MB <=? start) && (SIZE_8MB <=? e_size e)
      then
        let hit := negb (initrd_phys =? 0) && (start =? initrd_phys) in
        mk_scan (Some i) (if hit then u64 (start + initrd_size) else start) end_
          (sc_initrd_reserved sc || hit) (sc_kernel_entry sc)
      else sc in
    let kernel_end := u64 (kernel_phys + kernel_size) in
    if (start <=? kernel_phys) && (kernel_end <=? end_) then
      _ ← kassert (bool_decide (sc_kernel_entry sc1 = None));
      _ ← kassert (kernel_phys =? start);
      Ret (mk_scan (sc_entry sc1) (sc_start sc1) (sc_end sc1) (sc_initrd_reserved sc1) (Some i))
    else Ret sc1.

Fixpoint scan_map (i : nat) (es : list memory_map_entry_t) (sc : scan_t) : outcome scan_t :=
  match es with
  | [] => Ret sc
  | e :: es' => sc' ← scan_entry i e sc; scan_map (S i) es' sc'
  end.

Definition mm_early_init (es : list memory_map_entry_t) : outcome early_t :=
  sc ← scan_map 0 es (mk_scan None 0 0 false None);
  match sc_kernel_entry sc, sc_entry sc with
  | Some k, Some r =>
      let shrink e := mk_entry (e_type e) (u64 (kernel_phys + kernel_size))
                        (u64 (e_size e - kernel_size)) in
      if negb (sc_initrd_reserved sc) then Panic
      else
        let initrd_end := u64 (initrd_phys + initrd_size) in
        _ ← kassert ((initrd_phys =? 0) ||
              (((initrd_phys <? sc_start sc) && (initrd_end <=? sc_start sc)) ||
               (sc_end sc <=? initrd_phys)));
        Ret (mk_early (alter shrink k es) r (sc_start sc) (sc_end sc) (sc_start sc)
               KERNEL_RESERVED_VA)
  | _, _ => Panic
  end.
End early_init.

(** ** Bump allocation *)

Definition upd_reserved (e : early_t) (f : memory_map_entry_t -> memory_map_entry_t)
    : list memory_map_entry_t := alter f (em_entry e) (em_map e).

(** [reserved_map_entry->base]. *)
Definition reserved_base (e : early_t) : Z :=
  match em_map e !! em_entry e with Some m => e_base m | None => 0 end.

Definition mm_early_reserve_pages (e : early_t) (count : Z) : outcome early_t :=
  let sz := PAGES_TO_SIZE count in
  let m := upd_reserved e (fun m =>
             mk_entry (e_type m) (u64 (e_base m + sz)) (u64 (e_size m - sz))) in
  let e' := mk_early m (em_entry e) (kernel_reserved_start e) (kernel_reserved_end e)
              (kernel_reserved_ptr e) (kernel_reserved_va_ptr e) in
  if kernel_reserved_end e <? reserved_base e' then Panic else Ret e'.

Definition mm_early_alloc_pages (e : early_t) (count : Z) : outcome (Z * early_t) :=
  let addr := kernel_reserved_ptr e in
  let sz := u64 (count * PAGE_SIZE) in
  let ptr := u64 (addr + sz) in
  if kernel_reserved_end e <? ptr then Panic
  else
    let m := upd_reserved e (fun m => mk_entry (e_type m) ptr (u64 (e_size m - sz))) in
    Ret (addr, mk_early m (em_entry e) (kernel_reserved_start e) (kernel_reserved_end e) ptr
                 (kernel_reserved_va_ptr e)).

(** The virtual address given to [early_map_entries] for [count] pages. *)
Definition mm_early_map_pages_reserved (e : early_t) (count vm_flags : Z) : Z * early_t :=
  let size := vm_flags_to_size vm_flags in
  (kernel_reserved_va_ptr e,
   mk_early (em_map e) (em_entry e) (kernel_reserved_start e) (kernel_reserved_end e)
     (kernel_reserved_ptr e) (u64 (kernel_reserved_va_ptr e + size))).

(** ** Sequences of early allocations *)

Fixpoint alloc_seq (e : early_t) (counts : list Z) : outcome (list Z * early_t) :=
  match counts with
  | [] => Ret ([], e)
  | c :: cs =>
      '(a, e1) ← mm_early_alloc_pages e c;
      '(r, e2) ← alloc_seq e1 cs;
      Ret (a :: r, e2)
  end.

(** The page ranges [(a, c)] lie one after the other from [lo] to [hi]. *)
Fixpoint consecutive (lo : Z) (rs : list (Z * Z)) (hi : Z) : Prop :=
  match rs with
  | [] => lo = hi
  | (a, c) :: rs' => a = lo /\ consecutive (lo + c * PAGE_SIZE) rs' hi
  end.

Definition total (cs : list Z) : Z := foldr Z.add 0 cs.

Lemma total_nonneg cs : Forall (fun c => 0 <= c < 2 ^ 50) cs -> 0 <= total cs.
Proof. induction 1; simpl; lia. Qed.

Lemma early_alloc_step e c :
  0 <= c < 2 ^ 50 -> 0 <= kernel_reserved_ptr e <= kernel_reserved_end e ->
  kernel_reserved_end e < 2 ^ 62 ->
  exists e', kernel_reserved_ptr e' = kernel_reserved_ptr e + c * PAGE_SIZE /\
    kernel_reserved_end e' = kernel_reserved_end e /\
    mm_early_alloc_pages e c =
      if kernel_reserved_end e <? kernel_reserved_ptr e + c * PAGE_SIZE then Panic
      else Ret (kernel_reserved_ptr e, e').
Proof.
  intros Hc Hp He. unfold mm_early_alloc_pages, PAGE_SIZE.
  rewrite (wrap_small 64 (c * 0x1000)) by (unfold fits; lia).
  rewrite (wrap_small 64 (_ + _)) by (unfold fits; lia).
  by eexists (mk_early _ _ _ _ _ _).
Qed.

(** A sequence of early page allocations succeeds exactly when the pages
    it asks for fit between the reserved pointer and the end of the reserved
    region; the ranges then lie back to back inside the region, so no two of
    them overlap.  Otherwise it panics. *)
Theorem early_alloc_consecutive (e : early_t) (counts : list Z)
    (Hc : Forall (fun c => 0 <= c < 2 ^ 50) counts)
    (Hp : 0 <= kernel_reserved_ptr e <= kernel_reserved_end e)
    (He : kernel_reserved_end e < 2 ^ 62) :
  let hi := kernel_reserved_ptr e + total counts * PAGE_SIZE in
  if kernel_reserved_end e <? hi then alloc_seq e counts = Panic
  else exists rs e', alloc_seq e counts = Ret (rs, e') /\ length rs = length counts /\
    consecutive (kernel_reserved_ptr e) (zip rs counts) hi /\ kernel_reserved_ptr e' = hi.
Proof.
  revert e Hp He. induction Hc as [|c cs Hc Hcs IH]; intros e Hp He hi; simpl in hi |- *.
  - unfold hi. zcases. exists [], e. repeat split; simpl; lia.
  - destruct (early_alloc_step e c Hc Hp He) as (e1 & Hp1 & He1 & ->).
    pose proof (total_nonneg cs Hcs). unfold PAGE_SIZE in *.
    destruct (Z.ltb_spec (kernel_reserved_end e) (kernel_reserved_ptr e + c * 4096));
      [rewrite (proj2 (Z.ltb_lt _ _)) by lia; done|]. simpl.
    specialize (IH e1 ltac:(lia) ltac:(lia)). cbv zeta in IH. rewrite He1, Hp1 in IH.
    replace (kernel_reserved_ptr e + c * 4096 + total cs * 4096) with hi in IH by (unfold hi; lia).
    case_test; [by rewrite IH|]. destruct IH as (rs & e' & -> & Hl & Hcons & Hend).
    simpl. exists (kernel_reserved_ptr e :: rs), e'. simpl. auto.
Qed.

Lemma early_alloc_consecutive_witness :
  exists rs e', alloc_seq (mk_early [] 0 0x1000000 0x2000000 0x1000000 0) [2; 3] = Ret (rs, e') /\
    consecutive 0x1000000 (zip rs [2; 3]) 0x1005000.
Proof.
  assert (H := early_alloc_consecutive (mk_early [] 0 0x1000000 0x2000000 0x1000000 0) [2; 3]).
  destruct H as (rs & e' & E & _ & Hc & _).
  - repeat constructor; lia.
  - simpl; lia.
  - simpl; lia.
  - exists rs, e'. split; [exact E|exact Hc].
Defined.

(** ** The region [mm_early_init] picks *)

Section early_init_proofs.
Context (kernel_phys kernel_size initrd_phys initrd_size : Z).
Context (es : list memory_map_entry_t).

(** What the scan knows of the region it picked. *)
Definition scan_inv (sc : scan_t) : Prop :=
  match sc_entry sc with
  | None => sc_initrd_reserved sc = false
  | Some i => exists e, es !! i = Some e /\ e_type e = MEMORY_USABLE /\
      SIZE_16MB <= e_base e /\ SIZE_8MB <= e_size e /\
      sc_end sc = u64 (e_base e + e_size e) /\
      (sc_initrd_reserved sc = true ->
         initrd_phys = e_base e /\ sc_start sc = u64 (e_base e + initrd_size))
  end.

Lemma scan_entry_inv i e sc sc' :
  es !! i = Some e -> scan_inv sc ->
  scan_entry kernel_phys kernel_size initrd_phys initrd_size i e sc = Ret sc' -> scan_inv sc'.
Proof.
  intros He Hinv H. unfold scan_entry in H. case_test; [done|].
  set (sc1 := if _ && _ then _ else sc) in H.
  assert (Hinv1 : scan_inv sc1).
  { unfold sc1. case_test; [|done]. zbool. unfold scan_inv in *. simpl.
    match goal with H : sc_entry sc = None |- _ => rewrite H in Hinv end.
    exists e. rewrite Hinv. simpl. repeat (split; [done|]). intros Hhit. rewrite Hhit. by zbool. }
  clearbody sc1. case_test; inv_ret; done.
Qed.

Lemma scan_map_inv l : forall i sc sc',
  (forall j e, l !! j = Some e -> es !! (i + j)%nat = Some e) -> scan_inv sc ->
  scan_map kernel_phys kernel_size initrd_phys initrd_size i l sc = Ret sc' -> scan_inv sc'.
Proof.
  induction l as [|e l IH]; intros i sc sc' Hl Hinv H; simpl in H; inv_ret; [done|].
  eapply (IH (S i)); [|eapply scan_entry_inv; [|exact Hinv|eassumption]|exact H].
  - intros j e' Hj. replace (S i + j)%nat with (i + S j)%nat by lia. by apply Hl.
  - rewrite <- (Nat.add_0_r i). by apply Hl.
Qed.
End early_init_proofs.

(** When [mm_early_init] returns, the reserved region comes from a usable
    memory map entry at or above 16MB of at least 8MB that begins with the
    initrd image: it runs from the end of the image to the end of the entry,
    allocation starts at its beginning, and the image lies below it. *)
Theorem early_init_region (kernel_phys kernel_size initrd_phys initrd_size : Z)
    (es : list memory_map_entry_t) (e : early_t)
    (H : mm_early_init kernel_phys kernel_size initrd_phys initrd_size es = Ret e) :
  exists m, es !! em_entry e = Some m /\ e_type m = MEMORY_USABLE /\
    SIZE_16MB <= e_base m /\ SIZE_8MB <= e_size m /\ initrd_phys = e_base m /\
    kernel_reserved_start e = u64 (initrd_phys + initrd_size) /\
    kernel_reserved_end e = u64 (e_base m + e_size m) /\
    kernel_reserved_ptr e = kernel_reserved_start e /\
    (initrd_phys < kernel_reserved_start e \/ kernel_reserved_end e <= initrd_phys).
Proof.
  unfold mm_early_init in H. apply bind_Ret in H as (sc & Hs & H).
  assert (Hinv : scan_inv initrd_phys initrd_size es sc).
  { by apply (scan_map_inv kernel_phys kernel_size initrd_phys initrd_size es es 0
      (mk_scan None 0 0 false None)). }
  destruct (sc_kernel_entry sc) as [k|]; [|done].
  unfold scan_inv in Hinv. destruct (sc_entry sc) as [r|]; [|done].
  destruct (sc_initrd_reserved sc); [|done]. simpl in H.
  apply bind_Ret in H as ([] & Ha & H). apply kassert_Ret in Ha. inv_ret. simpl.
  destruct Hinv as (m & Hm & Ht & Hb & Hsz & Hend & Hin). destruct (Hin eq_refl) as [Hi Hst].
  exists m. rewrite Hi in *. repeat split; try done.
  destruct (Z.eqb_spec (e_base m) 0) as [E|_]; [unfold SIZE_16MB in Hb; lia|]. simpl in Ha.
  apply orb_true_iff in Ha as [|]; zbool; auto.
Qed.

Lemma early_init_region_witness :
  let es := [mk_entry 2 0x100000 0x100000; mk_entry 2 0x1000000 0x1000000] in
  exists e m, mm_early_init 0x100000 0x80000 0x1000000 0x4000 es = Ret e /\
    es !! em_entry e = Some m /\ e_type m = MEMORY_USABLE.
Proof.
  intros es.
  destruct (early_init_region 0x100000 0x80000 0x1000000 0x4000 es
    (mk_early [mk_entry 2 0x180000 0x80000; mk_entry 2 0x1000000 0x1000000] 1 0x1004000
       0x2000000 0x1004000 KERNEL_RESERVED_VA)) as (m & Hm & Ht & _).
  - vm_compute. reflexivity.
  - eexists _, m. split; [vm_compute; reflexivity|]. split; [exact Hm|exact Ht].
Defined.
