(* ===== verification/Heap.v ===== *)
(** * kernel/mm/heap.c: the kernel heap

    Chunk headers and holes are found by their address; [links] holds the
    list fields of the chunk headers.  An address without a header stands for
    memory whose first half-word is neither magic number. *)

From S2P Require Import Prelude Queue Mm EarlyMem.
From stdpp Require Import list gmap.
Local Open Scope Z_scope.

(** ** State *)

Abbreviation CHUNK_MIN_SIZE := (8).
Definition CHUNK_MAX_SIZE : Z := 524288.
Abbreviation CHUNK_SIZE_ALIGN := (8).
Abbreviation CHUNK_MIN_ALIGN := (4).
Definition SIZEOF_CHUNK : Z := 24.
Abbreviation KERNEL_HEAP_VA := (0xFFFFFF8000400000).
Definition KERNEL_HEAP_SIZE : Z := 6 * 0x100000.

(** A chunk header; [None] is a [prev_offset] that was never written. *)
Record mm_chunk_t := mk_chunk {
  prev_offset : option Z;
  ch_size : Z;
  ch_free : bool;
}.

(** What the first half-word at an address says is there. *)
Inductive hdr := Chunk (c : mm_chunk_t) | Hole (hole_size : Z).

Record mm_heap_t := mk_heap {
  phys_addr : Z;
  virt_addr : Z;
  last_chunk : ptr;
  chunks : head_t;
  hp_size : Z;
  used : Z;
  alloc_count : Z;
  free_count : Z;
  alloc_sizes : list Z;
  lock_depth : Z;
  hdrs : gmap Z hdr;
  lnks : links;
}.

Definition with_last (s : mm_heap_t) (v : ptr) : mm_heap_t :=
  mk_heap (phys_addr s) (virt_addr s) v (chunks s) (hp_size s) (used s) (alloc_count s)
    (free_count s) (alloc_sizes s) (lock_depth s) (hdrs s) (lnks s).
Definition with_list (s : mm_heap_t) (hd : head_t) (l : links) : mm_heap_t :=
  mk_heap (phys_addr s) (virt_addr s) (last_chunk s) hd (hp_size s) (used s) (alloc_count s)
    (free_count s) (alloc_sizes s) (lock_depth s) (hdrs s) l.
Definition with_used (s : mm_heap_t) (v : Z) : mm_heap_t :=
  mk_heap (phys_addr s) (virt_addr s) (last_chunk s) (chunks s) (hp_size s) (u64 v)
    (alloc_count s) (free_count s) (alloc_sizes s) (lock_depth s) (hdrs s) (lnks s).
Definition with_stats (s : mm_heap_t) (a f : Z) (h : list Z) : mm_heap_t :=
  mk_heap (phys_addr s) (virt_addr s) (last_chunk s) (chunks s) (hp_size s) (used s)
    (u64 a) (u64 f) h (lock_depth s) (hdrs s) (lnks s).
Definition with_lock (s : mm_heap_t) (d : Z) : mm_heap_t :=
  mk_heap (phys_addr s) (virt_addr s) (last_chunk s) (chunks s) (hp_size s) (used s)
    (alloc_count s) (free_count s) (alloc_sizes s) (lock_depth s + d) (hdrs s) (lnks s).
Definition with_hdr (s : mm_heap_t) (a : Z) (v : hdr) : mm_heap_t :=
  mk_heap (phys_addr s) (virt_addr s) (last_chunk s) (chunks s) (hp_size s) (used s)
    (alloc_count s) (free_count s) (alloc_sizes s) (lock_depth s) (<[a := v]> (hdrs s)) (lnks s).

Definition END_ADDR (s : mm_heap_t) : Z := u64 (virt_addr s + hp_size s).

(** The header at [a], which must be a chunk's. *)
Definition chunk_at (s : mm_heap_t) (a : Z) : outcome mm_chunk_t :=
  match hdrs s !! a with Some (Chunk c) => Ret c | _ => Fault end.

Definition set_free (s : mm_heap_t) (a : Z) (c : mm_chunk_t) (v : bool) : mm_heap_t :=
  with_hdr s a (Chunk (mk_chunk (prev_offset c) (ch_size c) v)).

Definition aquire_heap (s : mm_heap_t) : mm_heap_t := with_lock s 1.
Definition release_heap (s : mm_heap_t) : mm_heap_t := with_lock s (-1).

(** ** Operations *)

Definition get_hist_bucket (size : Z) : Z :=
  if (1 <=? size) && (size <=? 8) then 0
  else if (9 <=? size) && (size <=? 16) then 1
  else if (17 <=? size) && (size <=? 32) then 2
  else if (33 <=? size) && (size <=? 64) then 3
  else if (65 <=? size) && (size <=? 128) then 4
  else if (129 <=? size) && (size <=? 512) then 5
  else if (513 <=? size) && (size <=? 1024) then 6
  else 7.

Definition get_prev_chunk (s : mm_heap_t) (chunk : Z) : outcome ptr :=
  c ← chunk_at s chunk;
  match prev_offset c with
  | None => Fault
  | Some o =>
      if o =? 0 then Ret None
      else
        match hdrs s !! u64 (chunk - o) with
        | Some (Chunk _) => Ret (Some (u64 (chunk - o)))
        | _ => Panic
        end
  end.

Definition get_next_chunk (s : mm_heap_t) (chunk : Z) : outcome ptr :=
  if is_ptr (Some chunk) (last_chunk s) then Ret None
  else
    c ← chunk_at s chunk;
    let next_addr := u64 (chunk + (SIZEOF_CHUNK + ch_size c)) in
    let next_addr :=
      if next_addr <? END_ADDR s then
        match hdrs s !! next_addr with
        | Some (Hole hole_size) => u64 (next_addr + hole_size)
        | _ => next_addr
        end
      else next_addr in
    if END_ADDR s <=? next_addr then Ret None
    else
      match hdrs s !! next_addr with
      | Some (Chunk _) => Ret (Some next_addr)
      | _ => Panic
      end.

(** The body of the search: the best candidate so far, replaced by a smaller
    chunk that fits. *)
Definition fit_step (s : mm_heap_t) (size alignment : Z) (curr : Z) (best : option (Z * Z))
    : outcome (ctl (option (Z * Z)) (option (Z * Z))) :=
  c ← chunk_at s curr;
  if negb (u64 (curr + SIZEOF_CHUNK) mod alignment =? 0) then Ret (Next best)
  else if size <=? ch_size c then
    match best with
    | None => Ret (Next (Some (curr, ch_size c)))
    | Some (_, bs) =>
        if ch_size c <? bs then Ret (Next (Some (curr, ch_size c))) else Ret (Next best)
    end
  else if ch_size c =? size then Ret (Stop (Some (curr, ch_size c)))
  else Ret (Next best).

Definition find_fit (s : mm_heap_t) (size alignment : Z) : outcome (option (Z * Z)) :=
  c ← list_foreach (base.size (lnks s)) (fit_step s size alignment) (lnks s) (first (chunks s)) None;
  Ret (match c with Next b => b | Stop b => b end).

(** Takes a free chunk off the list. *)
Definition reuse_chunk (s : mm_heap_t) (chunk size : Z) : outcome (Z * mm_heap_t) :=
  '(hd, l) ← LIST_REMOVE (chunks s) (lnks s) (Some chunk);
  let s := with_list s hd l in
  c ← chunk_at s chunk;
  let s := set_free s chunk c false in
  let s := with_used s (used s + (size + SIZEOF_CHUNK)) in
  Ret (u64 (chunk + SIZEOF_CHUNK), release_heap s).

(** Fills the bytes before an aligned chunk with a hole or a free chunk. *)
Definition fill_gap (s : mm_heap_t) (chunk_addr aligned_chunk : Z) : outcome mm_heap_t :=
  if aligned_chunk =? chunk_addr then Ret s
  else
    let hole_size := u64 (aligned_chunk - chunk_addr) in
    if hole_size <? SIZEOF_CHUNK + CHUNK_MIN_SIZE then
      let s := with_hdr s chunk_addr (Hole (u16 hole_size)) in
      Ret (with_used s (used s + hole_size))
    else
      let s := with_hdr s chunk_addr
                 (Chunk (mk_chunk None (wrap 31 (hole_size - SIZEOF_CHUNK)) true)) in
      '(hd, l) ← LIST_ADD_FRONT (chunks s) (<[chunk_addr := mk_link None None]> (lnks s))
                   (Some chunk_addr);
      Ret (with_list s hd l).

(** The first address after the last chunk. *)
Definition end_of_chunks (s : mm_heap_t) : outcome Z :=
  match last_chunk s with
  | None => Ret (virt_addr s)
  | Some lc => c ← chunk_at s lc; Ret (u64 (lc + (SIZEOF_CHUNK + ch_size c)))
  end.

Definition new_chunk (s : mm_heap_t) (size alignment : Z) : outcome (Z * mm_heap_t) :=
  chunk_addr ← end_of_chunks s;
  let aligned_mem := align (u64 (chunk_addr + SIZEOF_CHUNK)) alignment in
  let aligned_chunk := u64 (aligned_mem - SIZEOF_CHUNK) in
  s ← fill_gap s chunk_addr aligned_chunk;
  if END_ADDR s <? u64 (aligned_mem + size) then Panic
  else
    let off := match last_chunk s with
               | Some lc => u16 (aligned_chunk - lc)
               | None => 0
               end in
    let s := with_hdr s aligned_chunk (Chunk (mk_chunk (Some off) (wrap 31 size) false)) in
    let s := with_list s (chunks s) (<[aligned_chunk := mk_link None None]> (lnks s)) in
    let s := with_last s (Some aligned_chunk) in
    let s := with_used s (used s + (size + SIZEOF_CHUNK)) in
    Ret (u64 (aligned_chunk + SIZEOF_CHUNK), release_heap s).

(** [__kmalloc]; the result 0 is NULL. *)
Definition kmalloc_in (s : mm_heap_t) (size alignment : Z) : outcome (Z * mm_heap_t) :=
  if (alignment =? 0) || negb (Z.land alignment (u64 (alignment - 1)) =? 0) then Panic
  else if size =? 0 then Ret (0, s)
  else if CHUNK_MAX_SIZE <? size then Panic
  else
    let s := aquire_heap s in
    n ← load (alloc_sizes s) (get_hist_bucket size);
    h ← store (alloc_sizes s) (get_hist_bucket size) (u64 (n + 1));
    let s := with_stats s (alloc_count s + 1) (free_count s) h in
    let size := align (Z.max size CHUNK_MIN_SIZE) CHUNK_SIZE_ALIGN in
    best ← find_fit s size alignment;
    match best with
    | Some (chunk, _) => reuse_chunk s chunk size
    | None => new_chunk s size alignment
    end.

Definition kmalloc (s : mm_heap_t) (size : Z) : outcome (Z * mm_heap_t) :=
  kmalloc_in s size CHUNK_MIN_ALIGN.
Definition kmalloca (s : mm_heap_t) (size alignment : Z) : outcome (Z * mm_heap_t) :=
  kmalloc_in s size alignment.

(** [__kfree]. *)
Definition kfree_in (s : mm_heap_t) (p : Z) : outcome mm_heap_t :=
  if p =? 0 then Ret s
  else
    let s := with_stats s (alloc_count s) (free_count s + 1) (alloc_sizes s) in
    let chunk := u64 (p - SIZEOF_CHUNK) in
    match hdrs s !! chunk with
    | Some (Chunk c) =>
        if ch_free c then Ret s
        else
          let s := aquire_heap s in
          e ← deref (lnks s) (Some chunk);
          if negb (is_ptr (next e) None && is_ptr (prev e) None) then Panic
          else
            let s := set_free s chunk c true in
            _ ← get_next_chunk s chunk;
            '(hd, l) ← LIST_ADD_FRONT (chunks s) (lnks s) (Some chunk);
            let s := with_list s hd l in
            let s := with_used s (used s - (ch_size c + SIZEOF_CHUNK)) in
            Ret (release_heap s)
    | _ => Ret s
    end.

(** The zeroing of the memory is [memset]'s; the result is the block. *)
Definition kcalloc (s : mm_heap_t) (nmemb size : Z) : outcome (Z * mm_heap_t) :=
  if (nmemb =? 0) || (size =? 0) then Ret (0, s)
  else
    let total := u64 (nmemb * size) in
    if CHUNK_MAX_SIZE <? total then Panic else kmalloc s total.

Definition kheap_is_valid_ptr (s : mm_heap_t) (p : Z) : bool :=
  let chunk_addr := u64 (p - SIZEOF_CHUNK) in
  if (chunk_addr <? virt_addr s) || (END_ADDR s <? chunk_addr) then false
  else match hdrs s !! chunk_addr with Some (Chunk _) => true | _ => false end.

Definition kheap_ptr_to_phys (s : mm_heap_t) (p : Z) : outcome Z :=
  if p =? KERNEL_HEAP_VA then Ret (phys_addr s)
  else
    _ ← kassert (kheap_is_valid_ptr s p);
    Ret (u64 (phys_addr s + u64 (p - virt_addr s))).

(** [mm_init_kheap]: the heap and the early mappings it asks for, each as
    virtual address, physical address, count and flags. *)
Definition mm_init_kheap (e : early_t)
    : outcome (list (Z * Z * Z * Z) * mm_heap_t * early_t) :=
  let page_count := SIZE_TO_PAGES KERNEL_HEAP_SIZE in
  '(phys, e) ← mm_early_alloc_pages e page_count;
  let big := (PAGE_SIZE_2MB <=? KERNEL_HEAP_SIZE) && is_aligned phys PAGE_SIZE_2MB in
  let num_bigpages := KERNEL_HEAP_SIZE / PAGE_SIZE_2MB in
  let '(maps, page_count, phys, virt) :=
    if big then
      ([(KERNEL_HEAP_VA, phys, num_bigpages, Z.lor (Z.lor VM_READ VM_WRITE) VM_HUGE_2MB)],
       PAGES_TO_SIZE page_count mod PAGE_SIZE_2MB,
       u64 (phys + num_bigpages * PAGE_SIZE_2MB),
       u64 (KERNEL_HEAP_VA + num_bigpages * PAGE_SIZE_2MB))
    else ([], page_count, phys, KERNEL_HEAP_VA) in
  let maps := if 0 <? page_count
              then maps ++ [(virt, phys, page_count, Z.lor VM_READ VM_WRITE)] else maps in
  Ret (maps,
       mk_heap phys KERNEL_HEAP_VA None LIST_INIT KERNEL_HEAP_SIZE 0 0 0 (replicate 9 0) 0 ∅ ∅,
       e).

(** ** Layout

    Headers tile the memory from the heap's base to the end [e] of the last
    chunk. *)

Definition hlen (h : hdr) : Z :=
  match h with Chunk c => SIZEOF_CHUNK + ch_size c | Hole n => n end.

Definition hdr_ok (h : hdr) : Prop :=
  match h with
  | Chunk c => 8 <= ch_size c < 2 ^ 31
  | Hole n => 0 < n < 32
  end.

Record tiles (H : gmap Z hdr) (v e : Z) : Prop := mk_tiles {
  t_in : forall a h, H !! a = Some h -> hdr_ok h /\ v <= a /\ a + hlen h <= e;
  t_apart : forall a h b h', H !! a = Some h -> H !! b = Some h' -> a < b -> a + hlen h <= b;
  t_next : forall a h, H !! a = Some h -> a + hlen h = e \/ is_Some (H !! (a + hlen h));
}.

Lemma hdr_ok_pos h : hdr_ok h -> 0 < hlen h.
Proof. destruct h; unfold hdr_ok, hlen, SIZEOF_CHUNK; lia. Qed.

(** Changing a header to one of the same length. *)
Lemma tiles_update H v e a h h' :
  tiles H v e -> H !! a = Some h -> hlen h' = hlen h -> hdr_ok h' -> tiles (<[a := h']> H) v e.
Proof.
  intros [Hin Hap Hnx] Ha Hl Hok. split.
  - intros x y [[<- <-]|[_ Hx]]%lookup_insert_Some; [rewrite Hl|by apply Hin].
    split; [done|]. by apply (Hin _ _ Ha).
  - intros x hx y hy [[<- <-]|[_ Hx]]%lookup_insert_Some [[<- <-]|[_ Hy]]%lookup_insert_Some Hlt;
      [lia|rewrite Hl; eauto|eauto|eauto].
  - intros x hx [[<- <-]|[_ Hx]]%lookup_insert_Some; rewrite lookup_insert_is_Some', ?Hl.
    + destruct (Hnx _ _ Ha); tauto.
    + destruct (Hnx _ _ Hx); tauto.
Qed.

(** Placing a header at the end. *)
Lemma tiles_extend H v e h :
  tiles H v e -> v <= e -> hdr_ok h -> tiles (<[e := h]> H) v (e + hlen h).
Proof.
  intros [Hin Hap Hnx] Hve Hok. pose proof (hdr_ok_pos _ Hok) as Hpos. split.
  - intros x hx [[<- <-]|[_ Hx]]%lookup_insert_Some; [split; [done|lia]|].
    destruct (Hin _ _ Hx) as (? & ? & ?). split; [done|lia].
  - intros x hx y hy [[<- <-]|[_ Hx]]%lookup_insert_Some [[<- <-]|[_ Hy]]%lookup_insert_Some Hlt;
      [lia| | |eauto].
    + destruct (Hin _ _ Hy) as (Hk & _ & ?). pose proof (hdr_ok_pos _ Hk). lia.
    + by apply (Hin _ _ Hx).
  - intros x hx [[<- <-]|[_ Hx]]%lookup_insert_Some; [by left|].
    rewrite lookup_insert_is_Some'. destruct (Hnx _ _ Hx) as [->|?]; [|tauto].
    right. by left.
Qed.

Lemma tiles_end_fresh H v e : tiles H v e -> H !! e = None.
Proof.
  intros [Hin _ _]. destruct (H !! e) as [h|] eqn:E; [|done].
  destruct (Hin _ _ E) as (Hk & _ & ?). pose proof (hdr_ok_pos _ Hk). lia.
Qed.

(** ** The heap invariant

    [l] is the free list, [e] the end of the last chunk.  A hole is always
    followed by a chunk, and a chunk in use has empty links. *)
Record inv (s : mm_heap_t) (l : list Z) (e : Z) : Prop := mk_inv {
  i_room : 0 < virt_addr s /\ 0 <= hp_size s /\ virt_addr s + hp_size s <= 2 ^ 64 - 2 ^ 33;
  i_align : virt_addr s mod 8 = 0 /\ e mod 8 = 0;
  i_end : virt_addr s <= e <= virt_addr s + hp_size s;
  i_tiles : tiles (hdrs s) (virt_addr s) e;
  i_hole : forall a n, hdrs s !! a = Some (Hole n) -> exists c, hdrs s !! (a + n) = Some (Chunk c);
  i_last : match last_chunk s with
           | None => hdrs s = ∅ /\ e = virt_addr s
           | Some lc => exists c, hdrs s !! lc = Some (Chunk c) /\ lc + hlen (Chunk c) = e
           end;
  i_rep : rep (chunks s) (lnks s) l;
  i_free : forall a, a ∈ l <-> exists c, hdrs s !! a = Some (Chunk c) /\ ch_free c = true;
  i_used : forall a c, hdrs s !! a = Some (Chunk c) -> ch_free c = false ->
    lnks s !! a = Some (mk_link None None);
  i_stats : length (alloc_sizes s) = 9%nat;
}.

Definition heap_ok (s : mm_heap_t) : Prop := exists l e, inv s l e.

(** The size of the block given out at [p]. *)
Definition live (s : mm_heap_t) (p : Z) : option Z :=
  match hdrs s !! (p - SIZEOF_CHUNK) with
  | Some (Chunk c) => if ch_free c then None else Some (ch_size c)
  | _ => None
  end.

Lemma live_Some s p m :
  live s p = Some m <->
  exists c, hdrs s !! (p - SIZEOF_CHUNK) = Some (Chunk c) /\ ch_free c = false /\ ch_size c = m.
Proof.
  unfold live. split.
  - destruct (hdrs s !! _) as [[c|]|] eqn:E; try done. destruct (ch_free c) eqn:F; [done|].
    intros [= <-]. eauto.
  - intros (c & -> & -> & ->). done.
Qed.

(** Statistics and the lock are no part of the layout. *)
Definition same_layout (s s' : mm_heap_t) : Prop :=
  virt_addr s' = virt_addr s /\ hp_size s' = hp_size s /\ last_chunk s' = last_chunk s /\
  chunks s' = chunks s /\ hdrs s' = hdrs s /\ lnks s' = lnks s /\
  length (alloc_sizes s') = length (alloc_sizes s).

Lemma inv_same s s' l e : same_layout s s' -> inv s l e -> inv s' l e.
Proof.
  intros (Ev & Es & El & Ec & Eh & En & Ea) [? ? ? ? ? ? ? ? ? ?].
  split; rewrite ?Ev, ?Es, ?El, ?Ec, ?Eh, ?En, ?Ea; done.
Qed.

Lemma inv_bounds s l e a h :
  inv s l e -> hdrs s !! a = Some h -> 0 < a /\ a + hlen h <= END_ADDR s /\ END_ADDR s < 2 ^ 64 - 2 ^ 32.
Proof.
  intros I Ha. destruct (i_room _ _ _ I) as (? & ? & ?). destruct (i_end _ _ _ I).
  destruct (t_in _ _ _ (i_tiles _ _ _ I) _ _ Ha) as (_ & ? & ?).
  unfold END_ADDR. rewrite wrap_small by (unfold fits; lia). lia.
Qed.

(** ** The search *)

(** The free chunk at [a] is aligned and holds [n] bytes; [z] is its size. *)
Definition fits_at (s : mm_heap_t) (n al a z : Z) : Prop :=
  exists c, hdrs s !! a = Some (Chunk c) /\ ch_size c = z /\
    (a + SIZEOF_CHUNK) mod al = 0 /\ n <= z.

(** [b] is a smallest fitting chunk among [l]. *)
Definition best_in (s : mm_heap_t) (n al : Z) (l : list Z) (b : option (Z * Z)) : Prop :=
  match b with
  | None => forall a z, a ∈ l -> ~ fits_at s n al a z
  | Some (x, y) => x ∈ l /\ fits_at s n al x y /\
      forall a z, a ∈ l -> fits_at s n al a z -> y <= z
  end.

Lemma fits_at_fun s n al a y z : fits_at s n al a y -> fits_at s n al a z -> y = z.
Proof. intros (c & Hc & <- & _) (d & Hd & <- & _). congruence. Qed.

Lemma best_in_skip s n al l a b :
  best_in s n al l b -> (forall z, ~ fits_at s n al a z) -> best_in s n al (l ++ [a]) b.
Proof.
  intros Hb Hn. destruct b as [[x y]|]; simpl in *.
  - destruct Hb as (Hx & Hf & Hm). split; [apply elem_of_app; by left|]. split; [done|].
    intros a' z [Ha'|Ha'%list_elem_of_singleton]%elem_of_app Hf'; [eauto|].
    subst a'. by destruct (Hn z).
  - intros a' z [Ha'|Ha'%list_elem_of_singleton]%elem_of_app Hf'; [by destruct (Hb a' z)|].
    subst a'. by destruct (Hn z).
Qed.

Lemma best_in_take s n al l a z b :
  best_in s n al l b -> fits_at s n al a z ->
  match b with None => True | Some (_, y) => z < y end ->
  best_in s n al (l ++ [a]) (Some (a, z)).
Proof.
  intros Hb Hf Hlt. split; [apply elem_of_app; right; by apply list_elem_of_singleton|].
  split; [done|]. intros a' z' [Ha'|Ha'%list_elem_of_singleton]%elem_of_app Hf'.
  - destruct b as [[x y]|]; simpl in *.
    + destruct Hb as (_ & _ & Hm). pose proof (Hm a' z' Ha' Hf'). lia.
    + by destruct (Hb a' z').
  - subst a'. by rewrite (fits_at_fun _ _ _ _ _ _ Hf Hf').
Qed.

Lemma best_in_keep s n al l a z x y :
  best_in s n al l (Some (x, y)) -> fits_at s n al a z -> y <= z ->
  best_in s n al (l ++ [a]) (Some (x, y)).
Proof.
  intros (Hx & Hf & Hm) Hfa Hle. split; [apply elem_of_app; by left|]. split; [done|].
  intros a' z' [Ha'|Ha'%list_elem_of_singleton]%elem_of_app Hf'; [eauto|].
  subst a'. by rewrite <- (fits_at_fun _ _ _ _ _ _ Hfa Hf').
Qed.

Lemma fit_step_best s n al l a b :
  (exists c, hdrs s !! a = Some (Chunk c)) -> u64 (a + SIZEOF_CHUNK) = a + SIZEOF_CHUNK ->
  best_in s n al l b ->
  exists b', fit_step s n al a b = Ret (Next b') /\ best_in s n al (l ++ [a]) b'.
Proof.
  intros (c & Hc) Hu Hb. unfold fit_step, chunk_at. rewrite Hc, Hu. simpl.
  destruct (Z.eqb_spec ((a + SIZEOF_CHUNK) mod al) 0) as [Hal|Hal]; simpl.
  2:{ exists b. split; [done|]. apply best_in_skip; [done|]. by intros z (d & _ & _ & ? & _). }
  destruct (Z.leb_spec n (ch_size c)) as [Hn|Hn].
  - assert (Hf : fits_at s n al a (ch_size c)) by (by exists c).
    destruct b as [[x y]|]; [destruct (Z.ltb_spec (ch_size c) y)|];
      (eexists; split; [reflexivity|]).
    + by apply (best_in_take _ _ _ _ _ _ (Some (x, y))).
    + by apply (best_in_keep _ _ _ _ _ (ch_size c)).
    + by apply (best_in_take _ _ _ _ _ _ None).
  - rewrite (proj2 (Z.eqb_neq _ _)) by lia. exists b. split; [done|].
    apply best_in_skip; [done|]. intros z (d & Hd & <- & _ & ?).
    rewrite Hc in Hd. injection Hd as <-. lia.
Qed.

Lemma fit_loop s n al l : forall done b,
  (forall a, a ∈ l -> exists c, hdrs s !! a = Some (Chunk c)) ->
  (forall a, a ∈ l -> u64 (a + SIZEOF_CHUNK) = a + SIZEOF_CHUNK) ->
  best_in s n al done b ->
  exists b', seq_foreach (fit_step s n al) l b = Ret (Next b') /\ best_in s n al (done ++ l) b'.
Proof.
  induction l as [|a l IH]; intros done b Hc Hu Hb.
  - exists b. by rewrite app_nil_r.
  - destruct (fit_step_best s n al done a b) as (b1 & Hs & Hb1);
      [apply Hc, list_elem_of_here|apply Hu, list_elem_of_here|done|].
    destruct (IH (done ++ [a]) b1) as (b2 & Hl & Hb2); [set_solver..|done|].
    exists b2. simpl. rewrite Hs. simpl. split; [done|]. by rewrite <- app_assoc in Hb2.
Qed.

Lemma find_fit_best s l e n al :
  inv s l e -> exists b, find_fit s n al = Ret b /\ best_in s n al l b.
Proof.
  intros I. unfold find_fit. rewrite (list_foreach_rep _ _ _ l) by apply (i_rep _ _ _ I).
  assert (Hc : forall a, a ∈ l -> exists c, hdrs s !! a = Some (Chunk c)).
  { intros a Ha. apply (i_free _ _ _ I) in Ha as (c & Hc & _). eauto. }
  destruct (fit_loop s n al l [] None) as (b & Hl & Hb); [done| |by intros ? ? ?%elem_of_nil|].
  - intros a Ha. destruct (Hc a Ha) as [c Hac].
    destruct (inv_bounds _ _ _ _ _ I Hac) as (? & Hb & ?).
    destruct (t_in _ _ _ (i_tiles _ _ _ I) _ _ Hac) as (Hk & _).
    unfold hlen, SIZEOF_CHUNK, hdr_ok in *. apply wrap_small. unfold fits. lia.
  - exists b. by rewrite Hl.
Qed.

(** ** Allocation *)

(** [p] is a new block of at least [n] bytes, aligned to [al]; every other
    block is as it was. *)
Definition gives (s s' : mm_heap_t) (n al p : Z) : Prop :=
  heap_ok s' /\ p mod al = 0 /\ live s p = None /\
  (exists m, live s' p = Some m /\ n <= m) /\
  (forall q, q <> p -> live s' q = live s q).

(** A state whose headers differ from those of [s] only at [a]. *)
Lemma gives_hdr s s' n al a c :
  heap_ok s' -> (a + SIZEOF_CHUNK) mod al = 0 -> ch_free c = false -> n <= ch_size c ->
  (forall d, hdrs s !! a = Some (Chunk d) -> ch_free d = true) ->
  hdrs s' !! a = Some (Chunk c) ->
  (forall x, x <> a -> live s' (x + SIZEOF_CHUNK) = live s (x + SIZEOF_CHUNK)) ->
  gives s s' n al (a + SIZEOF_CHUNK).
Proof.
  intros Hok Hal Hf Hn Hold Hnew Hne. split_and!; try done.
  - unfold live. rewrite Z.add_simpl_r. destruct (hdrs s !! a) as [[d|]|] eqn:E; try done.
    by rewrite (Hold d eq_refl).
  - exists (ch_size c). split; [|done]. unfold live. by rewrite Z.add_simpl_r, Hnew, Hf.
  - intros q Hq. specialize (Hne (q - SIZEOF_CHUNK)). rewrite Z.sub_add in Hne.
    apply Hne. intros E. apply Hq. lia.
Qed.

Lemma live_hdrs s s' x :
  hdrs s' !! x = hdrs s !! x -> live s' (x + SIZEOF_CHUNK) = live s (x + SIZEOF_CHUNK).
Proof. intros E. unfold live. by rewrite Z.add_simpl_r, E. Qed.

Lemma holes_update (H : gmap Z hdr) a c :
  (forall x n, H !! x = Some (Hole n) -> exists d, H !! (x + n) = Some (Chunk d)) ->
  forall x n, <[a := Chunk c]> H !! x = Some (Hole n) ->
  exists d, <[a := Chunk c]> H !! (x + n) = Some (Chunk d).
Proof.
  intros Hh x n [[_ ?]|[_ Hx]]%lookup_insert_Some; [done|]. destruct (Hh _ _ Hx) as [d Hd].
  destruct (decide (a = x + n)) as [<-|Hne]; [by rewrite lookup_insert_eq; eauto|].
  rewrite lookup_insert_ne by done. eauto.
Qed.

(** Where the last chunk is, for headers [H]. *)
Definition last_at (H : gmap Z hdr) (v e : Z) (last : ptr) : Prop :=
  match last with
  | None => H = ∅ /\ e = v
  | Some lc => exists c, H !! lc = Some (Chunk c) /\ lc + hlen (Chunk c) = e
  end.

Lemma last_update s a c e b :
  last_at (hdrs s) (virt_addr s) e (last_chunk s) -> hdrs s !! a = Some (Chunk c) ->
  last_at (<[a := Chunk (mk_chunk (prev_offset c) (ch_size c) b)]> (hdrs s)) (virt_addr s) e
    (last_chunk s).
Proof.
  intros Hl Hc. unfold last_at in *. destruct (last_chunk s) as [lc|].
  - destruct Hl as (d & Hd & Hlen). destruct (decide (a = lc)) as [<-|Hne].
    + rewrite lookup_insert_eq. eexists. split; [done|]. rewrite Hc in Hd. by injection Hd as <-.
    + rewrite lookup_insert_ne by done. eauto.
  - destruct Hl as [E _]. by rewrite E, lookup_empty in Hc.
Qed.

Lemma reuse_inv s l1 a l2 e c hd' l' :
  inv s (l1 ++ a :: l2) e -> hdrs s !! a = Some (Chunk c) ->
  rep hd' l' (l1 ++ l2) -> l' !! a = Some (mk_link None None) ->
  same_outside (l1 ++ a :: l2) (lnks s) l' ->
  inv (set_free (with_list s hd' l') a c false) (l1 ++ l2) e.
Proof.
  intros I Hc Hr Ha [_ Ho]. pose proof I as [? ? ? Ht Hh Hl Hrep Hf Hu ?].
  assert (Hnd : NoDup (l1 ++ a :: l2)) by apply Hrep.
  apply NoDup_app in Hnd as (_ & Hd1 & [Hd2 _]%NoDup_cons).
  split; simpl; try done.
  - apply (tiles_update _ _ _ _ (Chunk c)); try done. by apply (t_in _ _ _ Ht) in Hc as [? _].
  - by apply holes_update.
  - by apply (last_update s a c).
  - intros x. destruct (decide (a = x)) as [<-|Hne].
    + rewrite lookup_insert_eq. split; [set_solver|]. by intros (d & [= <-] & ?).
    + rewrite lookup_insert_ne, <- Hf by done. set_solver.
  - intros x d [[<- _]|[Hne Hx]]%lookup_insert_Some Hfr; [done|].
    rewrite Ho; [by apply (Hu x d)|]. rewrite Hf. intros (d' & Hd' & ?). congruence.
Qed.

Lemma reuse_gives s l e n al a z :
  inv s l e -> a ∈ l -> fits_at s n al a z ->
  exists s', reuse_chunk s a n = Ret (a + SIZEOF_CHUNK, s') /\
    gives s s' n al (a + SIZEOF_CHUNK) /\ lock_depth s' = lock_depth s - 1.
Proof.
  intros I Hin (c & Hc & <- & Hal & Hn). pose proof Hin as Hin'.
  apply list_elem_of_split in Hin as (l1 & l2 & ->).
  destruct (list_remove _ _ _ _ _ (i_rep _ _ _ I)) as (hd' & l' & Hr & Hrep & Ha & Ho).
  unfold reuse_chunk. rewrite Hr. simpl. unfold chunk_at. simpl. rewrite Hc. simpl.
  destruct (inv_bounds _ _ _ _ _ I Hc) as (? & ? & ?).
  destruct (t_in _ _ _ (i_tiles _ _ _ I) _ _ Hc) as (Hk & _).
  rewrite wrap_small by (unfold fits, hlen, hdr_ok, SIZEOF_CHUNK in *; lia).
  eexists. split; [done|]. split; [|simpl; lia].
  apply (i_free _ _ _ I) in Hin' as (c' & Hc' & Hfr).
  apply (gives_hdr _ _ _ _ _ (mk_chunk (prev_offset c) (ch_size c) false)); try done.
  - exists (l1 ++ l2), e. eapply inv_same; [|by apply (reuse_inv s l1 a l2 e c hd' l')]. done.
  - intros d Hd. congruence.
  - simpl. by rewrite lookup_insert_eq.
  - intros x Hx. apply live_hdrs. simpl. by rewrite lookup_insert_ne.
Qed.

Lemma rep_insert_ne hd h l x v : x ∉ l -> rep hd h l -> rep hd (<[x := v]> h) l.
Proof. intros Hx (? & ? & ? & ?). split; [done|]. split; [by apply seg_insert_ne|done]. Qed.

(** The heap between [fill_gap] and the new chunk: the tiling ends at [e],
    perhaps with a hole. *)
Record gap (s : mm_heap_t) (l : list Z) (e : Z) : Prop := mk_gap {
  g_le : virt_addr s <= e;
  g_tiles : tiles (hdrs s) (virt_addr s) e;
  g_hole : forall a n, hdrs s !! a = Some (Hole n) ->
    a + n = e \/ exists c, hdrs s !! (a + n) = Some (Chunk c);
  g_rep : rep (chunks s) (lnks s) l;
  g_free : forall a, a ∈ l <-> exists c, hdrs s !! a = Some (Chunk c) /\ ch_free c = true;
  g_used : forall a c, hdrs s !! a = Some (Chunk c) -> ch_free c = false ->
    lnks s !! a = Some (mk_link None None);
  g_stats : length (alloc_sizes s) = 9%nat;
}.

Lemma inv_gap s l e : inv s l e -> gap s l e.
Proof. intros []. split; try done; [lia|eauto]. Qed.

Lemma gap_fresh s l e : gap s l e -> hdrs s !! e = None /\ e ∉ l.
Proof.
  intros G. pose proof (tiles_end_fresh _ _ _ (g_tiles _ _ _ G)) as Hn. split; [done|].
  rewrite (g_free _ _ _ G). intros (c & Hc & _). congruence.
Qed.

Lemma gap_hole s l e n u :
  gap s l e -> 0 < n < 32 -> (forall a m, hdrs s !! a = Some (Hole m) -> a + m <> e) ->
  gap (with_used (with_hdr s e (Hole n)) u) l (e + n).
Proof.
  intros G Hn Hno. destruct (gap_fresh _ _ _ G) as [Hf Hl]. destruct G as [? Ht Hh ? Hfr Hu ?].
  split; simpl; try done.
  - lia.
  - by apply (tiles_extend _ _ _ (Hole n)).
  - intros a m [[<- [= <-]]|[Hne Ha]]%lookup_insert_Some; [by left|].
    destruct (Hh _ _ Ha) as [E|[c Hc]]; [by destruct (Hno _ _ Ha)|].
    right. exists c. rewrite lookup_insert_ne; [done|]. intros E. congruence.
  - intros a. rewrite Hfr. destruct (decide (e = a)) as [<-|Hne].
    + rewrite lookup_insert_eq, Hf. naive_solver.
    + by rewrite lookup_insert_ne.
  - intros a c [[_ ?]|[_ Ha]]%lookup_insert_Some; [done|]. by apply Hu.
Qed.

(** Adds a chunk header at the end of the tiling, free and listed or in use. *)
Lemma gap_chunk s l e c hd lk l' :
  gap s l e -> 8 <= ch_size c < 2 ^ 31 -> rep hd lk l' ->
  (forall a, a ∈ l' <-> a ∈ l \/ a = e /\ ch_free c = true) ->
  (forall a, a <> e -> a ∉ l -> lk !! a = lnks s !! a) ->
  (ch_free c = false -> lk !! e = Some (mk_link None None)) ->
  gap (with_list (with_hdr s e (Chunk c)) hd lk) l' (e + hlen (Chunk c)).
Proof.
  intros G Hc Hrep Hl' Hlk Hlke. destruct (gap_fresh _ _ _ G) as [Hf Hl].
  destruct G as [? Ht Hh ? Hfr Hu ?]. split; simpl; try done.
  - unfold SIZEOF_CHUNK. lia.
  - by apply (tiles_extend _ _ _ (Chunk c)).
  - intros a m [[_ ?]|[Hne Ha]]%lookup_insert_Some; [done|].
    right. destruct (Hh _ _ Ha) as [E|[d Hd]].
    + rewrite E, lookup_insert_eq. eauto.
    + exists d. rewrite lookup_insert_ne; [done|]. intros E. congruence.
  - intros a. rewrite Hl', Hfr. destruct (decide (e = a)) as [<-|Hne].
    + rewrite lookup_insert_eq, Hf. naive_solver.
    + rewrite lookup_insert_ne by done. naive_solver.
  - intros a d [[<- [= <-]]|[Hne Ha]]%lookup_insert_Some Hd; [by apply Hlke|].
    rewrite Hlk; [by apply (Hu a d)|done|]. rewrite Hfr. intros (d' & Hd' & ?). congruence.
Qed.

(** [s'] differs from [s] in a gap that is no live block. *)
Definition gapped (s s' : mm_heap_t) : Prop :=
  virt_addr s' = virt_addr s /\ hp_size s' = hp_size s /\ last_chunk s' = last_chunk s /\
  lock_depth s' = lock_depth s /\
  forall x, live s' (x + SIZEOF_CHUNK) = live s (x + SIZEOF_CHUNK).

Lemma live_insert_fresh s a h :
  hdrs s !! a = None -> (forall c, h = Chunk c -> ch_free c = true) ->
  forall x, live (with_hdr s a h) (x + SIZEOF_CHUNK) = live s (x + SIZEOF_CHUNK).
Proof.
  intros Hn Hf x. unfold live. rewrite Z.add_simpl_r. simpl.
  destruct (decide (a = x)) as [<-|Hne]; [|by rewrite lookup_insert_ne].
  rewrite lookup_insert_eq, Hn. destruct h as [c|]; [|done]. by rewrite (Hf c).
Qed.

Lemma fill_gap_ok s l e g :
  gap s l e -> (forall a m, hdrs s !! a = Some (Hole m) -> a + m <> e) ->
  0 <= e -> 0 <= g -> g < 2 ^ 31 -> e + g < 2 ^ 64 ->
  exists s' l', fill_gap s e (e + g) = Ret s' /\ gap s' l' (e + g) /\ gapped s s'.
Proof.
  intros G Hno He Hg Hg' Hb. destruct (gap_fresh _ _ _ G) as [Hf Hl]. unfold fill_gap.
  destruct (Z.eqb_spec (e + g) e) as [E|E].
  { exists s, l. assert (g = 0) as -> by lia. rewrite Z.add_0_r. split; [done|]. split; [done|]. by unfold gapped; split_and!. }
  rewrite Z.add_simpl_l, (wrap_small 64 g) by (unfold fits; lia).
  unfold SIZEOF_CHUNK. destruct (Z.ltb_spec g (24 + 8)) as [Hs|Hs].
  - rewrite (wrap_small 16 g) by (unfold fits; lia). eexists _, l. split; [done|].
    split; [by apply gap_hole; [|lia|]|]. repeat split; try done.
    intros x. by apply (live_insert_fresh s e (Hole g)).
  - rewrite (wrap_small 31) by (unfold fits; lia). simpl.
    destruct (list_add_front (chunks s) (<[e := mk_link None None]> (lnks s)) l e)
      as (hd & lk & Hr & Hrep & _ & Ho);
      [by apply rep_insert_ne, (g_rep _ _ _ G)|done|set_solver|].
    rewrite Hr. simpl. exists (with_list (with_hdr s e (Chunk (mk_chunk None (g - 24) true))) hd lk).
    exists (e :: l). split; [done|]. split.
    + replace (e + g) with (e + hlen (Chunk (mk_chunk None (g - 24) true)))
        by (unfold hlen, SIZEOF_CHUNK; simpl; lia).
      apply (gap_chunk _ l); simpl; try done; [lia|set_solver|].
      intros a Ha Hal. rewrite Ho by set_solver. by rewrite lookup_insert_ne.
    + repeat split; try done. intros x.
      apply (live_insert_fresh s e (Chunk (mk_chunk None (g - 24) true))); [done|].
      by intros c [= <-].
Qed.

Lemma align_gap e k :
  e mod 8 = 0 -> 0 <= k <= 31 ->
  let g := (- (e + SIZEOF_CHUNK)) mod 2 ^ k in
  0 <= g < 2 ^ 31 /\ g mod 8 = 0 /\ (e + g + SIZEOF_CHUNK) mod 2 ^ k = 0.
Proof.
  intros He Hk g. assert (Hp : 0 < 2 ^ k) by (apply Z.pow_pos_nonneg; lia).
  pose proof (Z.mod_pos_bound (- (e + SIZEOF_CHUNK)) (2 ^ k) Hp) as Hg. fold g in Hg.
  assert (2 ^ k <= 2 ^ 31) by (apply Z.pow_le_mono_r; lia).
  assert (Hm : (e + g + SIZEOF_CHUNK) mod 2 ^ k = 0).
  { unfold g. rewrite Z.add_shuffle0, Zplus_mod_idemp_r, Z.add_opp_diag_r. by apply Z.mod_0_l; lia. }
  split; [lia|]. split; [|done]. unfold SIZEOF_CHUNK in *.
  destruct (Z.le_gt_cases 3 k) as [H3|H3].
  - apply Z.mod_divide; [lia|]. apply Z.mod_divide in Hm as [q Hq]; [|lia].
    apply Z.mod_divide in He as [r ->]; [|lia].
    replace (2 ^ k) with (8 * 2 ^ (k - 3)) in Hq
      by (change 8 with (2 ^ 3); rewrite <- Z.pow_add_r by lia; f_equal; lia).
    exists (q * 2 ^ (k - 3) - r - 3). lia.
  - unfold g. assert (k = 0 \/ k = 1 \/ k = 2) as [-> |[-> | ->]] by lia;
      simpl; Z.to_euclidean_division_equations; lia.
Qed.

Lemma end_of_chunks_ok s l e : inv s l e -> end_of_chunks s = Ret e.
Proof.
  intros I. pose proof (i_last _ _ _ I) as Hl. pose proof (i_room _ _ _ I).
  pose proof (i_end _ _ _ I). unfold end_of_chunks.
  destruct (last_chunk s) as [lc|]; [|by destruct Hl as [_ ->]].
  destruct Hl as (c & Hc & <-). unfold chunk_at. rewrite Hc. simpl.
  by rewrite wrap_small by (unfold fits, hlen in *; lia).
Qed.

Lemma inv_no_open_hole s l e a m : inv s l e -> hdrs s !! a = Some (Hole m) -> a + m <> e.
Proof.
  intros I Ha E. destruct (i_hole _ _ _ I _ _ Ha) as [c Hc]. rewrite E in Hc.
  by rewrite (tiles_end_fresh _ _ _ (i_tiles _ _ _ I)) in Hc.
Qed.

(** The chunk placed after a gap. *)
Lemma gap_place s l e n off :
  gap s l e -> 8 <= n < 2 ^ 31 -> n mod 8 = 0 -> e mod 8 = 0 -> virt_addr s mod 8 = 0 ->
  0 < virt_addr s /\ 0 <= hp_size s /\ virt_addr s + hp_size s <= 2 ^ 64 - 2 ^ 33 ->
  e + SIZEOF_CHUNK + n <= virt_addr s + hp_size s ->
  let c := mk_chunk off n false in
  inv (with_last (with_list (with_hdr s e (Chunk c)) (chunks s)
         (<[e := mk_link None None]> (lnks s))) (Some e)) l (e + hlen (Chunk c)).
Proof.
  intros G Hn Hn8 He8 Hv8 Hroom Hend c. destruct (gap_fresh _ _ _ G) as [Hf Hl].
  pose proof (g_le _ _ _ G). pose proof (g_hole _ _ _ G) as Hh.
  destruct (gap_chunk s l e c (chunks s) (<[e := mk_link None None]> (lnks s)) l)
    as [? ? _ ? ? ? ?]; try done.
  - by apply rep_insert_ne, (g_rep _ _ _ G).
  - naive_solver.
  - intros a Ha _. by rewrite lookup_insert_ne.
  - intros _. by rewrite lookup_insert_eq.
  - split; simpl in *; try done.
    + split; [done|]. unfold SIZEOF_CHUNK. Z.to_euclidean_division_equations; lia.
    + unfold SIZEOF_CHUNK in *. lia.
    + intros a m [[_ ?]|[Hne Ha]]%lookup_insert_Some; [done|].
      destruct (Hh _ _ Ha) as [E|[d Hd]].
      * rewrite E, lookup_insert_eq. eauto.
      * exists d. rewrite lookup_insert_ne; [done|]. intros E. congruence.
    + exists c. by rewrite lookup_insert_eq.
Qed.

(** The address after a chunk header placed at the end, aligned. *)
Definition next_block (e al : Z) : Z := e + SIZEOF_CHUNK + (- (e + SIZEOF_CHUNK)) mod al.

Lemma new_chunk_gives s l e n k :
  inv s l e -> 8 <= n <= CHUNK_MAX_SIZE -> n mod 8 = 0 -> 0 <= k <= 31 ->
  let p := next_block e (2 ^ k) in
  if END_ADDR s <? p + n then new_chunk s n (2 ^ k) = Panic
  else exists s', new_chunk s n (2 ^ k) = Ret (p, s') /\ gives s s' n (2 ^ k) p /\
    lock_depth s' = lock_depth s - 1.
Proof.
  intros I Hn Hn8 Hk p. unfold CHUNK_MAX_SIZE in Hn.
  pose proof (i_room _ _ _ I) as Hroom. pose proof (i_end _ _ _ I) as Hend.
  destruct (i_align _ _ _ I) as [Hv8 He8].
  destruct (align_gap e k He8 Hk) as (Hg & Hg8 & Hal).
  assert (Hp : 2 ^ k <= 2 ^ 31) by (apply Z.pow_le_mono_r; lia).
  unfold new_chunk. rewrite (end_of_chunks_ok _ _ _ I). simpl.
  rewrite (wrap_small 64 (e + SIZEOF_CHUNK)) by (unfold fits, SIZEOF_CHUNK; lia).
  rewrite align_pow2 by (unfold SIZEOF_CHUNK; lia). fold (next_block e (2 ^ k)). fold p.
  set (g := (- (e + SIZEOF_CHUNK)) mod 2 ^ k) in *.
  assert (Ep : p = e + g + SIZEOF_CHUNK) by (unfold p, next_block, g; lia).
  rewrite (wrap_small 64 (p - SIZEOF_CHUNK)) by (unfold fits, SIZEOF_CHUNK in *; lia).
  replace (p - SIZEOF_CHUNK) with (e + g) by lia.
  destruct (fill_gap_ok s l e g) as (s1 & l1 & -> & G & Ev & Es & El & Elk & Hlive);
    [by apply inv_gap|intros; by eapply inv_no_open_hole|lia..|].
  simpl. unfold END_ADDR. rewrite Ev, Es.
  rewrite (wrap_small 64 (p + n)) by (unfold fits, SIZEOF_CHUNK in *; lia).
  destruct (Z.ltb_spec (u64 (virt_addr s + hp_size s)) (p + n)) as [?|Hfit]; [done|].
  rewrite (wrap_small 64 (virt_addr s + hp_size s)) in Hfit by (unfold fits; lia).
  rewrite (wrap_small 31 n) by (unfold fits; lia).
  rewrite (wrap_small 64 (e + g + _)) by (unfold fits, SIZEOF_CHUNK in *; lia). rewrite <- Ep.
  eexists. split; [done|]. split; [|simpl; rewrite Elk; lia]. rewrite Ep.
  set (off := Some _). destruct (gap_fresh _ _ _ G) as [Hf _].
  apply (gives_hdr _ _ _ _ _ (mk_chunk off n false)); try done.
  - exists l1, (e + g + hlen (Chunk (mk_chunk off n false))). eapply inv_same;
      [|apply (gap_place s1 l1 (e + g) n off G); rewrite ?Ev, ?Es; try done; try lia].
    + done.
    + Z.to_euclidean_division_equations; lia.
  - intros d Hd. specialize (Hlive (e + g)). unfold live in Hlive.
    rewrite Z.add_simpl_r, Hd, Hf in Hlive. by destruct (ch_free d).
  - simpl. by rewrite lookup_insert_eq.
  - intros x Hx. rewrite <- Hlive. apply live_hdrs. simpl. by rewrite lookup_insert_ne.
Qed.

Lemma live_apart s p q m k :
  heap_ok s -> live s p = Some m -> live s q = Some k -> p < q -> p + m <= q - SIZEOF_CHUNK.
Proof.
  intros (l & e & I) (c & Hc & _ & <-)%live_Some (d & Hd & _ & <-)%live_Some Hlt.
  pose proof (t_apart _ _ _ (i_tiles _ _ _ I) _ _ _ _ Hc Hd ltac:(lia)).
  unfold hlen in *. lia.
Qed.

Lemma live_inside s p m :
  heap_ok s -> live s p = Some m ->
  virt_addr s + SIZEOF_CHUNK <= p /\ p + m <= virt_addr s + hp_size s.
Proof.
  intros (l & e & I) (c & Hc & _ & <-)%live_Some.
  destruct (t_in _ _ _ (i_tiles _ _ _ I) _ _ Hc) as (_ & ? & ?).
  pose proof (i_end _ _ _ I). unfold hlen in *. lia.
Qed.

Lemma get_hist_bucket_range n : 0 <= get_hist_bucket n <= 7.
Proof. unfold get_hist_bucket. repeat case_test; lia. Qed.

(** The size a request is rounded to. *)
Definition request (n : Z) : Z := align (Z.max n CHUNK_MIN_SIZE) CHUNK_SIZE_ALIGN.

Lemma request_ok n :
  0 < n <= CHUNK_MAX_SIZE -> 8 <= request n <= CHUNK_MAX_SIZE /\ request n mod 8 = 0 /\ n <= request n.
Proof.
  unfold request, CHUNK_MAX_SIZE. intros Hn.
  pose proof (align_pow2 (Z.max n 8) 3 ltac:(lia) ltac:(lia) ltac:(lia)) as E.
  change (2 ^ 3) with 8 in E. rewrite E. Z.to_euclidean_division_equations; lia.
Qed.

(** Everything [kmalloc] does before it searches. *)
Lemma kmalloc_search s n k :
  length (alloc_sizes s) = 9%nat -> 0 < n <= CHUNK_MAX_SIZE -> 0 <= k <= 31 ->
  exists s0, same_layout s s0 /\ lock_depth s0 = lock_depth s + 1 /\
    kmalloc_in s n (2 ^ k) =
      (best ← find_fit s0 (request n) (2 ^ k);
       match best with
       | Some (chunk, _) => reuse_chunk s0 chunk (request n)
       | None => new_chunk s0 (request n) (2 ^ k)
       end).
Proof.
  intros Hs Hn Hk. unfold kmalloc_in.
  assert (Hp : 0 < 2 ^ k) by (apply Z.pow_pos_nonneg; lia).
  assert (2 ^ k <= 2 ^ 31) by (apply Z.pow_le_mono_r; lia).
  rewrite (proj2 (Z.eqb_neq (2 ^ k) 0)) by lia.
  rewrite (wrap_small 64 (2 ^ k - 1)) by (unfold fits; lia).
  replace (2 ^ k - 1) with (Z.ones k) by (rewrite Z.ones_equiv; lia).
  rewrite Z.land_ones, Z_mod_same_full by lia. simpl.
  rewrite (proj2 (Z.eqb_neq n 0)), (proj2 (Z.ltb_ge CHUNK_MAX_SIZE n)) by lia.
  pose proof (get_hist_bucket_range n) as Hb.
  destruct (load_in_range (alloc_sizes s) (get_hist_bucket n)) as (v & -> & _); [lia|]. simpl.
  rewrite store_in_range by lia. simpl. eexists. split; [|split; [|reflexivity]]; [|done].
  unfold same_layout. simpl. rewrite length_insert. done.
Qed.

(** Taking [s] to [s'] gave out a block of [m >= n] bytes at [p] with
    alignment [al]: it lies inside the heap and apart from every other block,
    and those are the blocks of [s]. *)
Definition new_block (s s' : mm_heap_t) (n al p m : Z) : Prop :=
  p mod al = 0 /\ n <= m /\ live s p = None /\ live s' p = Some m /\
  virt_addr s' + SIZEOF_CHUNK <= p /\ p + m <= virt_addr s' + hp_size s' /\
  (forall q, q <> p -> live s' q = live s q) /\
  (forall q z, q <> p -> live s' q = Some z ->
     q + z <= p - SIZEOF_CHUNK \/ p + m <= q - SIZEOF_CHUNK).

Lemma gives_block s s0 s' n r al p :
  (forall q, live s0 q = live s q) -> n <= r -> gives s0 s' r al p ->
  exists m, new_block s s' n al p m.
Proof.
  intros Hlv Hnr (Hok & Hal & Hnone & (m & Hm & Hle) & Hoth). exists m.
  destruct (live_inside _ _ _ Hok Hm). rewrite Hlv in Hnone.
  split_and!; try done; [lia|intros; by rewrite Hoth|].
  intros q z Hq Hz. destruct (Z.lt_ge_cases q p).
  - left. by apply (live_apart s' _ _ _ m).
  - right. apply (live_apart s' _ _ _ z); done || lia.
Qed.

(** C1. [__kmalloc] of a well-formed heap, for a request it accepts and a
    power-of-two alignment, either finds the heap exhausted, when no free
    chunk fits and the request does not fit behind the last chunk, or returns
    a block inside the heap that is aligned, large enough, and disjoint from
    every block given out before, all of which it leaves alone.  The heap
    stays well formed and the lock is released. *)
Theorem kmalloc_fresh_block (s : mm_heap_t) (n k : Z)
    (Hok : heap_ok s) (Hn : 0 < n <= CHUNK_MAX_SIZE) (Hk : 0 <= k <= 31) :
  (kmalloc_in s n (2 ^ k) = Panic /\ exists l e, inv s l e /\
     (forall a z, a ∈ l -> ~ fits_at s (request n) (2 ^ k) a z) /\
     END_ADDR s < next_block e (2 ^ k) + request n) \/
  exists p s' m, kmalloc_in s n (2 ^ k) = Ret (p, s') /\ heap_ok s' /\
    lock_depth s' = lock_depth s /\ new_block s s' n (2 ^ k) p m.
Proof.
  destruct Hok as (l & e & I). destruct (request_ok n Hn) as (Hr & Hr8 & Hrn).
  destruct (kmalloc_search s n k (i_stats _ _ _ I) Hn Hk) as (s0 & Hsame & Hlock & ->).
  pose proof (inv_same _ _ _ _ Hsame I) as I0.
  destruct (find_fit_best s0 l e (request n) (2 ^ k) I0) as (b & -> & Hb). simpl.
  pose proof Hsame as (Ev & Es & _ & _ & Eh & _).
  assert (Hlv : forall q, live s0 q = live s q) by (intros q; unfold live; by rewrite Eh).
  destruct b as [[a z]|].
  - right. destruct Hb as (Ha & Hf & _).
    destruct (reuse_gives _ _ _ _ _ _ _ I0 Ha Hf) as (s' & -> & Hg & Hl).
    destruct (gives_block s s0 s' n _ _ _ Hlv Hrn Hg) as (m & H). destruct Hg as [Hok _].
    exists (a + SIZEOF_CHUNK), s', m. split_and!; done || lia.
  - pose proof (new_chunk_gives s0 l e (request n) k I0 Hr Hr8 Hk) as Hnew. cbv zeta in Hnew.
    destruct (Z.ltb_spec (END_ADDR s0) (next_block e (2 ^ k) + request n)) as [Hlt|_].
    + left. split; [done|]. exists l, e. split; [done|]. split.
      * intros a z Ha (c & Hc & H). apply (Hb a z Ha). exists c. by rewrite Eh.
      * unfold END_ADDR in *. by rewrite Ev, Es in Hlt.
    + right. destruct Hnew as (s' & -> & Hg & Hl).
      destruct (gives_block s s0 s' n _ _ _ Hlv Hrn Hg) as (m & H). destruct Hg as [Hok _].
      exists (next_block e (2 ^ k)), s', m. split_and!; done || lia.
Qed.

(** ** Release *)

(** The chunk that ends the tiling is the last one. *)
Lemma ends_last H v e last a c :
  tiles H v e -> last_at H v e last -> H !! a = Some (Chunk c) -> a + hlen (Chunk c) = e ->
  last = Some a.
Proof.
  intros Ht Hl Ha E. unfold last_at in Hl. destruct last as [lc|].
  2:{ destruct Hl as [-> _]. by rewrite lookup_empty in Ha. }
  destruct Hl as (d & Hd & Hlen). f_equal.
  destruct (t_in _ _ _ Ht _ _ Ha) as (Hka & _). pose proof (hdr_ok_pos _ Hka).
  destruct (t_in _ _ _ Ht _ _ Hd) as (Hkd & _). pose proof (hdr_ok_pos _ Hkd).
  destruct (Z.lt_trichotomy a lc) as [Hlt|[?|Hlt]]; [|done|].
  - pose proof (t_apart _ _ _ Ht _ _ _ _ Ha Hd Hlt). lia.
  - pose proof (t_apart _ _ _ Ht _ _ _ _ Hd Ha Hlt). lia.
Qed.

(** Looking for the next chunk never meets a header that is none. *)
Lemma get_next_chunk_ok s a c e :
  tiles (hdrs s) (virt_addr s) e -> last_at (hdrs s) (virt_addr s) e (last_chunk s) ->
  e <= END_ADDR s -> END_ADDR s < 2 ^ 64 -> 0 < virt_addr s ->
  (forall x n, hdrs s !! x = Some (Hole n) -> exists d, hdrs s !! (x + n) = Some (Chunk d)) ->
  hdrs s !! a = Some (Chunk c) -> exists r, get_next_chunk s a = Ret r.
Proof.
  intros Ht Hl He Hend Hv Hh Ha. unfold get_next_chunk, chunk_at.
  destruct (is_ptr (Some a) (last_chunk s)) eqn:El; [eauto|]. rewrite Ha. simpl.
  assert (Hin : forall x h, hdrs s !! x = Some h -> 0 < x /\ 0 < hlen h /\ x + hlen h < 2 ^ 64).
  { intros x h Hx. destruct (t_in _ _ _ Ht _ _ Hx) as (Hk & ? & ?).
    pose proof (hdr_ok_pos _ Hk). lia. }
  pose proof (Hin _ _ Ha) as Hba. pose proof (t_next _ _ _ Ht _ _ Ha) as Hnx.
  unfold hlen in Hba, Hnx. rewrite (wrap_small 64 (a + _)) by (unfold fits; lia).
  destruct Hnx as [E|[h Hn]].
  { apply (ends_last _ _ _ _ _ _ Ht Hl) in E; [|done]. by rewrite E, is_ptr_same in El. }
  pose proof (Hin _ _ Hn). destruct (t_in _ _ _ Ht _ _ Hn) as (_ & _ & ?).
  rewrite (proj2 (Z.ltb_lt _ (END_ADDR s))) by lia. rewrite Hn. destruct h as [d|n].
  - case_test; [eauto|]. rewrite Hn. eauto.
  - unfold hlen in *. rewrite (wrap_small 64) by (unfold fits; lia).
    case_test; [eauto|]. destruct (Hh _ _ Hn) as [d ->]. eauto.
Qed.

(** The released chunk goes to the front of the free list. *)
Lemma free_inv s l a e c hd' l' :
  inv s l e -> hdrs s !! a = Some (Chunk c) -> ch_free c = false -> rep hd' l' (a :: l) ->
  same_outside (a :: l) (lnks s) l' ->
  inv (with_list (set_free s a c true) hd' l') (a :: l) e.
Proof.
  intros I Hc Hfc Hr [_ Ho]. pose proof I as [? ? ? Ht Hh Hl Hrep Hf Hu ?].
  split; simpl; try done.
  - apply (tiles_update _ _ _ _ (Chunk c)); try done. by apply (t_in _ _ _ Ht) in Hc as [? _].
  - by apply holes_update.
  - by apply (last_update s a c).
  - intros x. destruct (decide (a = x)) as [<-|Hne].
    + rewrite lookup_insert_eq. split; [eauto|]. intros _. apply list_elem_of_here.
    + rewrite lookup_insert_ne, <- Hf by done. rewrite elem_of_cons. naive_solver.
  - intros x d [[<- [= <-]]|[Hne Hx]]%lookup_insert_Some Hfr; [done|].
    rewrite Ho; [by apply (Hu x d)|]. apply not_elem_of_cons. split; [done|].
    rewrite Hf. intros (d' & Hd' & ?). congruence.
Qed.

(** The heap after the chunk at [a] was put on the list. *)
Definition freed_heap (s : mm_heap_t) (a : Z) (c : mm_chunk_t) (hd : head_t) (lk : links)
    : mm_heap_t :=
  release_heap (with_used (with_list (set_free (aquire_heap (with_stats s
    (alloc_count s) (free_count s + 1) (alloc_sizes s))) a c true) hd lk)
    (used s - (ch_size c + SIZEOF_CHUNK))).

Lemma kfree_runs s l e a c :
  inv s l e -> hdrs s !! a = Some (Chunk c) -> ch_free c = false ->
  exists hd lk, kfree_in s (a + SIZEOF_CHUNK) = Ret (freed_heap s a c hd lk) /\
    inv (with_list (set_free s a c true) hd lk) (a :: l) e.
Proof.
  intros I Hc Hfc. destruct (inv_bounds _ _ _ _ _ I Hc) as (Ha0 & Hae & Hend).
  pose proof (i_used _ _ _ I _ _ Hc Hfc) as Hlk. pose proof (i_room _ _ _ I).
  assert (Hk : 0 < hlen (Chunk c)) by (eapply hdr_ok_pos, (t_in _ _ _ (i_tiles _ _ _ I) _ _ Hc)).
  assert (Hal : a ∉ l) by (rewrite (i_free _ _ _ I); intros (d & Hd & ?); congruence).
  destruct (list_add_front (chunks s) (lnks s) l a) as (hd & lk & Hr & Hrep & Ho);
    [apply (i_rep _ _ _ I)|done|by apply elem_of_dom; eauto|].
  pose proof (free_inv _ _ _ _ _ _ _ I Hc Hfc Hrep Ho) as I'.
  exists hd, lk. split; [|done]. unfold kfree_in.
  rewrite (proj2 (Z.eqb_neq _ 0)) by (unfold SIZEOF_CHUNK; lia).
  rewrite Z.add_simpl_r, (wrap_small 64 a) by (unfold fits; lia). simpl.
  rewrite Hc, Hfc. unfold deref. simpl. rewrite Hlk. simpl.
  destruct (get_next_chunk_ok (set_free (aquire_heap (with_stats s (alloc_count s)
    (free_count s + 1) (alloc_sizes s))) a c true) a (mk_chunk (prev_offset c) (ch_size c) true) e)
    as (r & ->).
  - exact (i_tiles _ _ _ I').
  - exact (i_last _ _ _ I').
  - pose proof (i_end _ _ _ I). unfold END_ADDR in *. simpl.
    rewrite wrap_small by (unfold fits; lia). lia.
  - unfold END_ADDR in *. simpl. lia.
  - simpl. lia.
  - exact (i_hole _ _ _ I').
  - simpl. by rewrite lookup_insert_eq.
  - simpl. by rewrite Hr.
Qed.

(** C2. Releasing a block of a well-formed heap frees exactly that block:
    its chunk becomes the first of the free list, every other block stays,
    the heap stays well formed and the lock is released.  Releasing it again,
    or releasing NULL, changes no block and no list. *)
Theorem kfree_block (s : mm_heap_t) (p m : Z) (Hok : heap_ok s) (Hp : live s p = Some m) :
  exists s', kfree_in s p = Ret s' /\
    (exists l e, inv s' ((p - SIZEOF_CHUNK) :: l) e) /\
    lock_depth s' = lock_depth s /\ live s' p = None /\
    (forall q, q <> p -> live s' q = live s q) /\
    kfree_in s' 0 = Ret s' /\
    exists s'', kfree_in s' p = Ret s'' /\ same_layout s' s'' /\ lock_depth s'' = lock_depth s'.
Proof.
  destruct Hok as (l & e & I). apply live_Some in Hp as (c & Hc & Hfc & _).
  assert (exists a, p = a + SIZEOF_CHUNK) as [a ->] by (exists (p - SIZEOF_CHUNK); lia).
  rewrite Z.add_simpl_r in *. destruct (inv_bounds _ _ _ _ _ I Hc) as (Ha0 & Hae & Hend).
  destruct (kfree_runs _ _ _ _ _ I Hc Hfc) as (hd & lk & Hrun & I').
  exists (freed_heap s a c hd lk). split; [done|].
  assert (Hk : 0 < hlen (Chunk c)) by (eapply hdr_ok_pos, (t_in _ _ _ (i_tiles _ _ _ I) _ _ Hc)).
  split; [exists l, e; eapply inv_same; [|exact I']; done|]. split; [simpl; lia|].
  split; [unfold live; by rewrite Z.add_simpl_r; simpl; rewrite lookup_insert_eq|].
  split; [|split; [done|]].
  - intros q Hq. unfold live. simpl. rewrite lookup_insert_ne; [done|]. intros E. apply Hq. lia.
  - unfold kfree_in. rewrite (proj2 (Z.eqb_neq _ 0)) by (unfold SIZEOF_CHUNK; lia).
    rewrite Z.add_simpl_r, (wrap_small 64 a) by (unfold fits; lia). simpl.
    rewrite lookup_insert_eq. simpl. eexists. by repeat split.
Qed.

(** ** Examples *)

(** A heap of one page with no chunk yet. *)
Definition heap_ex : mm_heap_t :=
  mk_heap 0x200000 0x10000 None LIST_INIT 0x1000 0 0 0 (replicate 9 0) 0 ∅ ∅.

Lemma heap_ex_ok : heap_ok heap_ex.
Proof.
  exists [], 0x10000. split; simpl; try done; try lia.
  - split; [apply NoDup_nil_2|done].
  - intros a. rewrite elem_of_nil. split; [done|]. intros (c & Hc & _). by rewrite lookup_empty in Hc.
Qed.

Lemma kmalloc_fresh_block_witness :
  exists p s' m, kmalloc_in heap_ex 100 (2 ^ 6) = Ret (p, s') /\ heap_ok s' /\
    lock_depth s' = 0 /\ new_block heap_ex s' 100 (2 ^ 6) p m.
Proof.
  destruct (kmalloc_fresh_block heap_ex 100 6) as [[H _]|H].
  - exact heap_ex_ok.
  - by unfold CHUNK_MAX_SIZE.
  - done.
  - exfalso. vm_compute in H. discriminate H.
  - exact H.
Defined.

(** The heap with one block in use. *)
Definition heap_ex1 : mm_heap_t :=
  mk_heap 0x200000 0x10000 (Some 0x10000) LIST_INIT 0x1000 40 1 0 (replicate 9 0) 0
    {[0x10000 := Chunk (mk_chunk (Some 0) 16 false)]} {[0x10000 := mk_link None None]}.

Lemma heap_ex1_ok : heap_ok heap_ex1.
Proof.
  exists [], 0x10028. split; simpl; try done; try lia.
  - split; intros a h.
    + intros [<- <-]%lookup_singleton_Some. unfold hlen, SIZEOF_CHUNK. simpl. lia.
    + intros b h' [<- <-]%lookup_singleton_Some [<- <-]%lookup_singleton_Some. lia.
    + intros [<- <-]%lookup_singleton_Some. by left.
  - by intros a n [_ ?]%lookup_singleton_Some.
  - by exists (mk_chunk (Some 0) 16 false).
  - split; [apply NoDup_nil_2|done].
  - intros a. rewrite elem_of_nil. split; [done|].
    by intros (c & [_ [= <-]]%lookup_singleton_Some & ?).
  - by intros a c [<- _]%lookup_singleton_Some _.
Qed.

Lemma kfree_block_witness :
  exists s', kfree_in heap_ex1 0x10018 = Ret s' /\ live s' 0x10018 = None.
Proof.
  destruct (kfree_block heap_ex1 0x10018 16) as (s' & H & _ & _ & Hl & _).
  - exact heap_ex1_ok.
  - reflexivity.
  - exists s'. split; [exact H|exact Hl].
Defined.

(** When the memory reserved for the kernel heap is aligned to a big
    page, the heap is mapped with big pages from the start of that memory, but
    its physical address is recorded as the end of it: the translation of the
    first heap address is off by the size of the heap. *)
Theorem kheap_phys_off (e e' : early_t) (phys : Z)
    (Halloc : mm_early_alloc_pages e 1536 = Ret (phys, e'))
    (Hal : is_aligned phys PAGE_SIZE_2MB = true) (Hb : 0 <= phys < 2 ^ 63) :
  exists s, mm_init_kheap e =
      Ret ([(KERNEL_HEAP_VA, phys, 3, Z.lor (Z.lor VM_READ VM_WRITE) VM_HUGE_2MB)], s, e') /\
    heap_ok s /\ (forall p, live s p = None) /\
    kheap_ptr_to_phys s KERNEL_HEAP_VA = Ret (phys + KERNEL_HEAP_SIZE).
Proof.
  unfold mm_init_kheap. change (SIZE_TO_PAGES KERNEL_HEAP_SIZE) with 1536.
  rewrite Halloc. simpl. rewrite Hal.
  change (0 <? _) with false. change (KERNEL_HEAP_SIZE / PAGE_SIZE_2MB) with 3. simpl.
  eexists. split; [done|]. split; [|split].
  - exists [], KERNEL_HEAP_VA. split; simpl; try done; try (unfold KERNEL_HEAP_SIZE; lia).
    + split; [apply NoDup_nil_2|done].
    + intros a. rewrite elem_of_nil. split; [done|]. intros (c & Hc & _). by rewrite lookup_empty in Hc.
  - done.
  - unfold kheap_ptr_to_phys. rewrite Z.eqb_refl. simpl. f_equal.
    apply wrap_small. unfold fits, KERNEL_HEAP_SIZE. lia.
Qed.

Lemma kheap_phys_off_witness :
  exists s, mm_init_kheap (mk_early [EarlyMem.mk_entry 2 0x400000 0x1000000] 0 0x400000 0x1400000 0x400000
      KERNEL_RESERVED_VA) =
    Ret ([(KERNEL_HEAP_VA, 0x400000, 3, Z.lor (Z.lor VM_READ VM_WRITE) VM_HUGE_2MB)], s,
      mk_early [EarlyMem.mk_entry 2 0xA00000 0xA00000] 0 0x400000 0x1400000 0xA00000
      KERNEL_RESERVED_VA) /\
    kheap_ptr_to_phys s KERNEL_HEAP_VA = Ret 0xA00000.
Proof.
  destruct (kheap_phys_off
    (mk_early [EarlyMem.mk_entry 2 0x400000 0x1000000] 0 0x400000 0x1400000 0x400000 KERNEL_RESERVED_VA)
    (mk_early [EarlyMem.mk_entry 2 0xA00000 0xA00000] 0 0x400000 0x1400000 0xA00000 KERNEL_RESERVED_VA)
    0x400000) as (s & H & _ & _ & Hp).
  - reflexivity.
  - reflexivity.
  - lia.
  - exists s. split; [exact H|exact Hp].
Defined.
