(* ===== verification/FrameAlloc.v ===== *)
(** * kernel/mm/pmalloc.c: physical frames, zones and page lists

    Frame allocators over a bitmap, grouped into zones by address, and the
    reference counted page structs that own the frames.  Page structs live in
    a store of objects indexed by number; [next] and [source] are references
    into it. *)

From S2P Require Import Prelude Bitmap Mm EarlyMem.
From stdpp Require Import list gmap.
Local Open Scope Z_scope.

(** ** State *)

Record frame_allocator_t := mk_fa {
  fa_base : Z;
  fa_size : Z;
  fa_free : Z;
  fa_data : bitmap_t;
}.

(** A page table entry that maps a page (struct pte). *)
Record pte := mk_pte {
  pte_page : nat;
  pte_entry : Z;
  pte_address : Z;
}.

(** A page struct: [pg_fa] is valid with PG_OWNING, [pg_source] with PG_COW. *)
Record page_t := mk_page {
  pg_address : Z;
  pg_flags : Z;
  pg_count : Z;
  pg_contiguous : bool;
  pg_fa : option nat;
  pg_source : option nat;
  pg_entries : list pte;
  pg_next : option nat;
  pg_refcount : Z;
}.

(** The allocators ever made, the zones' lists of them, and the page structs;
    [pm_fresh] is the next unused page number. *)
Record pm_state := mk_pm {
  pm_fas : list frame_allocator_t;
  pm_zones : list (list nat);
  pm_zone_page_count : list Z;
  pm_reserved_pages : Z;
  pm_early : early_t;
  pm_pages : gmap nat page_t;
  pm_fresh : nat;
}.

Definition with_fas (s : pm_state) (f : list frame_allocator_t) : pm_state :=
  mk_pm f (pm_zones s) (pm_zone_page_count s) (pm_reserved_pages s) (pm_early s) (pm_pages s) (pm_fresh s).
Definition with_pages (s : pm_state) (p : gmap nat page_t) : pm_state :=
  mk_pm (pm_fas s) (pm_zones s) (pm_zone_page_count s) (pm_reserved_pages s) (pm_early s) p (pm_fresh s).

Definition with_flags (p : page_t) (v : Z) : page_t :=
  mk_page (pg_address p) v (pg_count p) (pg_contiguous p) (pg_fa p) (pg_source p)
    (pg_entries p) (pg_next p) (pg_refcount p).
Definition with_head (p : page_t) (count : Z) (contiguous : bool) : page_t :=
  mk_page (pg_address p) (pg_flags p) count contiguous (pg_fa p) (pg_source p)
    (pg_entries p) (pg_next p) (pg_refcount p).
Definition with_entries (p : page_t) (v : list pte) : page_t :=
  mk_page (pg_address p) (pg_flags p) (pg_count p) (pg_contiguous p) (pg_fa p) (pg_source p)
    v (pg_next p) (pg_refcount p).
Definition with_next (p : page_t) (v : option nat) : page_t :=
  mk_page (pg_address p) (pg_flags p) (pg_count p) (pg_contiguous p) (pg_fa p) (pg_source p)
    (pg_entries p) v (pg_refcount p).
Definition with_refcount (p : page_t) (v : Z) : page_t :=
  mk_page (pg_address p) (pg_flags p) (pg_count p) (pg_contiguous p) (pg_fa p) (pg_source p)
    (pg_entries p) (pg_next p) v.

(** ** Zones *)

Inductive zone_type := ZONE_TYPE_LOW | ZONE_TYPE_DMA | ZONE_TYPE_NORMAL | ZONE_TYPE_HIGH.

#[export] Instance zone_type_eq_dec : EqDecision zone_type.
Proof. solve_decision. Defined.

Definition zone_index (z : zone_type) : nat :=
  match z with
  | ZONE_TYPE_LOW => 0 | ZONE_TYPE_DMA => 1 | ZONE_TYPE_NORMAL => 2 | ZONE_TYPE_HIGH => 3
  end.

Definition zone_limits (z : zone_type) : Z :=
  match z with
  | ZONE_TYPE_LOW => 0x100000
  | ZONE_TYPE_DMA => 0x1000000
  | ZONE_TYPE_NORMAL => 0x100000000
  | ZONE_TYPE_HIGH => 0xFFFFFFFFFFFFFFFF
  end.

(** The zone tried after [z]; [None] is MAX_ZONE_TYPE. *)
Definition zone_alloc_order (z : zone_type) : option zone_type :=
  match z with
  | ZONE_TYPE_LOW => None
  | ZONE_TYPE_DMA => Some ZONE_TYPE_LOW
  | ZONE_TYPE_NORMAL => Some ZONE_TYPE_DMA
  | ZONE_TYPE_HIGH => Some ZONE_TYPE_NORMAL
  end.

Definition get_mem_zone_type (addr : Z) : zone_type :=
  if addr <? zone_limits ZONE_TYPE_LOW then ZONE_TYPE_LOW
  else if addr <? zone_limits ZONE_TYPE_DMA then ZONE_TYPE_DMA
  else if addr <? zone_limits ZONE_TYPE_NORMAL then ZONE_TYPE_NORMAL
  else ZONE_TYPE_HIGH.

(** [addr >= fa->base && addr < fa->base + fa->size]. *)
Definition fa_owns (fa : frame_allocator_t) (addr : Z) : bool :=
  (fa_base fa <=? addr) && (addr <? u64 (fa_base fa + fa_size fa)).

Fixpoint find_owner (fas : list frame_allocator_t) (ids : list nat) (addr : Z) : option nat :=
  match ids with
  | [] => None
  | id :: ids' =>
      match fas !! id with
      | Some fa => if fa_owns fa addr then Some id else find_owner fas ids' addr
      | None => find_owner fas ids' addr
      end
  end.

Definition zone_list (s : pm_state) (z : zone_type) : list nat :=
  default [] (pm_zones s !! zone_index z).

Definition locate_owning_allocator (s : pm_state) (addr : Z) : option nat :=
  find_owner (pm_fas s) (zone_list s (get_mem_zone_type addr)) addr.

(** ** The bitmap frame allocator *)

Definition with_free (fa : frame_allocator_t) (free : Z) (data : bitmap_t) : frame_allocator_t :=
  mk_fa (fa_base fa) (fa_size fa) free data.

(** [memset(buffer, 0, nbytes)] over 64-bit little-endian words. *)
Definition zero_bytes (nbytes : Z) (ws : list Z) : list Z :=
  let full := Z.to_nat (nbytes / 8) in
  replicate (Nat.min full (length ws)) 0 ++
  match drop full ws with
  | [] => []
  | w :: rest => Z.land w (not_w 64 (Z.ones (8 * (nbytes mod 8)))) :: rest
  end.

(** The bitmap of an allocator of [size] bytes.  A map too large for the heap
    is placed in reserved pages; [buffer] is what those pages hold. *)
Definition bitmap_fa_init (reserved_pages : Z) (early : early_t) (buffer : list Z) (size : Z)
    : outcome (bitmap_t * Z * early_t) :=
  let num_frames := align size PAGE_SIZE / PAGE_SIZE in
  let nbytes := align num_frames 8 / 8 in
  if PAGES_TO_SIZE 2 <=? nbytes then
    let num_bmp_pages := SIZE_TO_PAGES nbytes in
    if reserved_pages <? num_bmp_pages then Panic
    else
      '(_, early1) ← mm_early_alloc_pages early num_bmp_pages;
      let early2 := snd (mm_early_map_pages_reserved early1 num_bmp_pages
                           (Z.lor VM_WRITE VM_NOCACHE)) in
      Ret (mk_bitmap (zero_bytes nbytes buffer) nbytes num_frames 0,
           reserved_pages - num_bmp_pages, early2)
  else Ret (bitmap_init num_frames, reserved_pages, early).

(** [(count * pagesize) / PAGE_SIZE]. *)
Definition num_4k_pages (count pagesize : Z) : Z := u64 (count * pagesize) / PAGE_SIZE.

Definition bitmap_fa_alloc (fa : frame_allocator_t) (count pagesize : Z)
    : outcome (Z * frame_allocator_t) :=
  let frames := fa_data fa in
  if bmp_free frames =? 0 then Ret (-1, fa)
  else
    let n := num_4k_pages count pagesize in
    r ← (if n =? 1 then bitmap_get_set_free frames
         else
           let al := if pagesize =? PAGE_SIZE then 0 else SIZE_TO_PAGES pagesize in
           bitmap_get_set_nfree frames n al);
    let '(frame_index, frames') := r in
    if 0 <=? frame_index then
      Ret (sint 64 (fa_base fa + PAGES_TO_SIZE frame_index),
           with_free fa (u64 (fa_free fa - count * pagesize)) frames')
    else Ret (-1, with_free fa (fa_free fa) frames').

Definition bitmap_fa_reserve (fa : frame_allocator_t) (frame count pagesize : Z)
    : outcome (Z * frame_allocator_t) :=
  let frames := fa_data fa in
  if bmp_free frames =? 0 then Ret (-1, fa)
  else
    let n := num_4k_pages count pagesize in
    let frame_index := SIZE_TO_PAGES (u64 (frame - fa_base fa)) in
    r ← (if n =? 1 then
           '(set, frames') ← bitmap_set frames frame_index;
           Ret (if (set : bool) then 1 else 0, frames')
         else
           before ← bitmap_get_n frames frame_index n;
           if before =? 0 then
             '(_, frames') ← bitmap_set_n frames frame_index n; Ret (before, frames')
           else Ret (before, frames));
    let '(before_count, frames') := r in
    if before_count =? 0 then
      Ret (0, with_free fa (u64 (fa_free fa - count * pagesize)) frames')
    else Ret (-1, with_free fa (fa_free fa) frames').

Definition bitmap_fa_free (fa : frame_allocator_t) (frame count pagesize : Z)
    : outcome frame_allocator_t :=
  let frames := fa_data fa in
  let n := num_4k_pages count pagesize in
  let frame_index := SIZE_TO_PAGES (u64 (frame - fa_base fa)) in
  frames' ← (if n =? 1 then snd <$> bitmap_clear frames frame_index
             else snd <$> bitmap_clear_n frames frame_index n);
  Ret (with_free fa (u64 (fa_free fa + count * pagesize)) frames').

(** [new_frame_allocator] with the bitmap implementation. *)
Definition new_frame_allocator (reserved_pages : Z) (early : early_t) (buffer : list Z)
    (base size : Z) : outcome (frame_allocator_t * Z * early_t) :=
  '(data, reserved_pages', early') ← bitmap_fa_init reserved_pages early buffer size;
  Ret (mk_fa base size size data, reserved_pages', early').

Definition valid_pg_size (sz : Z) : bool :=
  (sz =? PAGE_SIZE) || (sz =? PAGE_SIZE_2MB) || (sz =? PAGE_SIZE_1GB).

(** ** Page structs *)

(** [kmallocz] of a page struct: a new object with one reference. *)
Definition new_page (s : pm_state) (p : page_t) : nat * pm_state :=
  (pm_fresh s,
   mk_pm (pm_fas s) (pm_zones s) (pm_zone_page_count s) (pm_reserved_pages s)
     (pm_early s) (<[pm_fresh s := p]> (pm_pages s)) (S (pm_fresh s))).

(** An update of the page object [id]. *)
Definition upd_page (s : pm_state) (id : nat) (f : page_t -> page_t) : outcome pm_state :=
  match pm_pages s !! id with
  | Some p => Ret (with_pages s (<[id := f p]> (pm_pages s)))
  | None => Fault
  end.

Definition get_page (s : pm_state) (id : nat) : outcome page_t :=
  match pm_pages s !! id with Some p => Ret p | None => Fault end.

(** The flags of a page of the given size. *)
Definition size_flags (pg_size : Z) : Z :=
  if pg_size =? PAGE_SIZE_2MB then PG_BIGPAGE
  else if pg_size =? PAGE_SIZE_1GB then PG_HUGEPAGE
  else 0.

(** The allocation loops: [k] pages from [address] on, appended after [last]. *)
Fixpoint alloc_loop (k : nat) (flags : Z) (fa : option nat) (pg_size address : Z)
    (first last : option nat) (s : pm_state) : outcome (option nat * pm_state) :=
  match k with
  | O => Ret (first, s)
  | S k' =>
      let '(id, s1) := new_page s (mk_page address flags 0 false fa None [] None 1) in
      match last with
      | None =>
          alloc_loop k' flags fa pg_size (u64 (address + pg_size)) (Some id) (Some id) s1
      | Some l =>
          s2 ← upd_page s1 l (fun p => with_next p (Some id));
          alloc_loop k' flags fa pg_size (u64 (address + pg_size)) first (Some id) s2
      end
  end.

(** [first->flags |= PG_HEAD; first->head = ...]. *)
Definition make_head (s : pm_state) (first : option nat) (count : Z) (contiguous : bool)
    : outcome (option nat * pm_state) :=
  match first with
  | None => Fault
  | Some f =>
      s' ← upd_page s f (fun p =>
             with_head (with_flags p (Z.lor (pg_flags p) PG_HEAD)) count contiguous);
      Ret (first, s')
  end.

Definition alloc_page_structs (s : pm_state) (fa : option nat) (frame count pg_size : Z)
    : outcome (option nat * pm_state) :=
  _ ← kassert (0 <? count);
  '(first, s') ← alloc_loop (Z.to_nat count) (Z.lor PG_OWNING (size_flags pg_size)) fa
                   pg_size frame None None s;
  make_head s' first count true.

Definition alloc_nonowned_structs (s : pm_state) (frame count pg_size : Z)
    : outcome (option nat * pm_state) :=
  _ ← kassert (0 <? count);
  _ ← kassert (frame mod pg_size =? 0);
  '(first, s') ← alloc_loop (Z.to_nat count) (size_flags pg_size) None
                   pg_size frame None None s;
  make_head s' first count true.

(** Walks along [next] visit each object of the store at most once. *)
Definition walk_fuel (s : pm_state) : nat := S (size (pm_pages s)).
#[global] Arguments walk_fuel : simpl never.

Definition add_ref (p : page_t) : page_t := with_refcount p (pg_refcount p + 1).

Fixpoint cow_loop (fuel : nat) (curr first last : option nat) (s : pm_state)
    : outcome (option nat * pm_state) :=
  match curr with
  | None => Ret (first, s)
  | Some c =>
      match fuel with
      | O => NoFuel
      | S f =>
          p ← get_page s c;
          s1 ← upd_page s c add_ref;
          let '(id, s2) := new_page s1
            (mk_page (pg_address p) (Z.lor (Z.land (pg_flags p) PG_SIZE_MASK) PG_COW)
               0 false None (Some c) [] None 1) in
          match last with
          | None => cow_loop f (pg_next p) (Some id) (Some id) s2
          | Some l =>
              s3 ← upd_page s2 l (fun p => with_next p (Some id));
              cow_loop f (pg_next p) first (Some id) s3
          end
      end
  end.

Definition alloc_cow_structs (s : pm_state) (pages : nat) : outcome (option nat * pm_state) :=
  p ← get_page s pages;
  _ ← kassert (has_flag (pg_flags p) PG_HEAD);
  '(first, s') ← cow_loop (walk_fuel s) (Some pages) None None s;
  make_head s' first (pg_count p) (pg_contiguous p).

(** Takes a reference on every page of the list; [last->next = curr] leaves
    the links as they are. *)
Fixpoint shared_loop (fuel : nat) (curr : option nat) (s : pm_state) : outcome pm_state :=
  match curr with
  | None => Ret s
  | Some c =>
      match fuel with
      | O => NoFuel
      | S f =>
          p ← get_page s c;
          s' ← upd_page s c add_ref;
          shared_loop f (pg_next p) s'
      end
  end.

Definition alloc_shared_structs (s : pm_state) (pages : nat) : outcome (option nat * pm_state) :=
  p ← get_page s pages;
  _ ← kassert (has_flag (pg_flags p) PG_HEAD);
  s' ← shared_loop (walk_fuel s) (Some pages) s;
  Ret (Some pages, s').

Definition alloc_cow_pages := alloc_cow_structs.
Definition alloc_shared_pages := alloc_shared_structs.

(** ** The allocator interface *)

Definition get_fa (s : pm_state) (id : nat) : outcome frame_allocator_t :=
  match pm_fas s !! id with Some fa => Ret fa | None => Fault end.
Definition set_fa (s : pm_state) (id : nat) (fa : frame_allocator_t) : pm_state :=
  with_fas s (<[id := fa]> (pm_fas s)).

(** [fa_alloc] reports failure as [-1]; the caller tests for [0]. *)
Definition fa_alloc_pages (s : pm_state) (id : nat) (count pg_size : Z)
    : outcome (option nat * pm_state) :=
  _ ← kassert (valid_pg_size pg_size);
  fa ← get_fa s id;
  if (fa_free fa =? 0) || (count =? 0) then Ret (None, s)
  else
    '(r, fa') ← bitmap_fa_alloc fa count pg_size;
    let s' := set_fa s id fa' in
    let frame := u64 r in
    if frame =? 0 then Ret (None, s')
    else
      _ ← kassert (is_aligned frame pg_size);
      alloc_page_structs s' (Some id) frame count pg_size.

Definition fa_reserve_pages (s : pm_state) (id : nat) (frame count pg_size : Z)
    : outcome (Z * pm_state) :=
  _ ← kassert (valid_pg_size pg_size);
  _ ← kassert (is_aligned frame pg_size);
  fa ← get_fa s id;
  _ ← kassert (fa_owns fa frame);
  if (fa_free fa =? 0) || (count =? 0) then Ret (-1, s)
  else
    '(r, fa') ← bitmap_fa_reserve fa frame count pg_size;
    Ret (r, set_fa s id fa').

(** [putref(&ref, free)]: drops one reference, destroying the object with the
    last one. *)
Definition putref (free : pm_state -> nat -> outcome pm_state) (s : pm_state)
    (ref : option nat) : outcome pm_state :=
  match ref with
  | None => Ret s
  | Some q =>
      p ← get_page s q;
      s' ← upd_page s q (fun p => with_refcount p (pg_refcount p - 1));
      if pg_refcount p =? 1 then free s' q else Ret s'
  end.

Fixpoint fa_free_page (fuel : nat) (s : pm_state) (id : nat) : outcome pm_state :=
  match fuel with
  | O => NoFuel
  | S f =>
      page ← get_page s id;
      s1 ← (if has_flag (pg_flags page) PG_COW then
              s1 ← putref (fa_free_page f) s (pg_source page);
              upd_page s1 id (fun p =>
                mk_page (pg_address p) (pg_flags p) (pg_count p) (pg_contiguous p) (pg_fa p)
                  None (pg_entries p) (pg_next p) (pg_refcount p))
            else if has_flag (pg_flags page) PG_OWNING then
              match pg_fa page with
              | None => Fault
              | Some a =>
                  fa ← get_fa s a;
                  fa' ← bitmap_fa_free fa (pg_address page) 1
                          (pg_flags_to_size (pg_flags page));
                  Ret (set_fa s a fa')
              end
            else Ret s);
      s2 ← putref (fa_free_page f) s1 (pg_next page);
      Ret (with_pages s2 (delete id (pm_pages s2)))
  end.

Definition drop_pages (s : pm_state) (pages : option nat) : outcome pm_state :=
  putref (fa_free_page (walk_fuel s)) s pages.

(** ** Reservation and allocation by zone *)

Inductive pg_rsrv_kind := PG_RSRV_ANY | PG_RSRV_MANAGED | PG_RSRV_PHYS.

#[export] Instance pg_rsrv_kind_eq_dec : EqDecision pg_rsrv_kind.
Proof. solve_decision. Defined.

Definition reserve_pages (s : pm_state) (kind : pg_rsrv_kind) (address count pagesize : Z)
    : outcome (Z * pm_state) :=
  _ ← kassert (valid_pg_size pagesize);
  _ ← kassert (is_aligned address pagesize);
  if count =? 0 then Ret (-1, s)
  else
    let total_size := u64 (count * pagesize) in
    let last := u64 (address + total_size - 1) in
    if bool_decide (get_mem_zone_type address <> get_mem_zone_type last) then Panic
    else
      let fa := locate_owning_allocator s address in
      let fa_end := locate_owning_allocator s last in
      if bool_decide (fa <> fa_end) then Panic
      else
        match fa with
        | None => Ret (if bool_decide (kind <> PG_RSRV_MANAGED) then 0 else -1, s)
        | Some id =>
            if bool_decide (kind = PG_RSRV_PHYS) then Ret (-1, s)
            else fa_reserve_pages s id address count pagesize
        end.

Fixpoint zone_loop (ids : list nat) (s : pm_state) (total_size count pagesize : Z)
    : outcome (option nat * pm_state) :=
  match ids with
  | [] => Ret (None, s)
  | id :: ids' =>
      fa ← get_fa s id;
      if total_size <=? fa_free fa then
        '(pages, s') ← fa_alloc_pages s id count pagesize;
        match pages with
        | Some _ => Ret (pages, s')
        | None => zone_loop ids' s' total_size count pagesize
        end
      else zone_loop ids' s total_size count pagesize
  end.

Definition alloc_pages_zone (s : pm_state) (z : zone_type) (count pagesize : Z)
    : outcome (option nat * pm_state) :=
  if count =? 0 then Ret (None, s)
  else zone_loop (zone_list s z) s (u64 (count * pagesize)) count pagesize.

(** The zones are tried from [z] downwards; past the last one it panics. *)
Fixpoint alloc_pages_from (fuel : nat) (s : pm_state) (z : option zone_type)
    (count pagesize : Z) : outcome (option nat * pm_state) :=
  match fuel with
  | O => NoFuel
  | S f =>
      match z with
      | None => Panic
      | Some zt =>
          '(pages, s') ← alloc_pages_zone s zt count pagesize;
          match pages with
          | Some _ => Ret (pages, s')
          | None => alloc_pages_from f s' (zone_alloc_order zt) count pagesize
          end
      end
  end.

Definition alloc_pages_size (s : pm_state) (count pagesize : Z)
    : outcome (option nat * pm_state) :=
  _ ← kassert (valid_pg_size pagesize);
  alloc_pages_from 5 s (Some ZONE_TYPE_HIGH) count pagesize.

Definition alloc_pages (s : pm_state) (count : Z) : outcome (option nat * pm_state) :=
  alloc_pages_size s count PAGE_SIZE.

Definition alloc_pages_at (s : pm_state) (address count pagesize : Z)
    : outcome (option nat * pm_state) :=
  _ ← kassert (address mod pagesize =? 0);
  '(r, s') ← reserve_pages s PG_RSRV_ANY address count pagesize;
  if r <? 0 then Ret (None, s')
  else alloc_page_structs s' (locate_owning_allocator s' address) address count pagesize.

Definition alloc_nonowned_pages_at (s : pm_state) (address count pagesize : Z)
    : outcome (option nat * pm_state) :=
  _ ← kassert (address mod pagesize =? 0);
  if count =? 0 then Ret (None, s)
  else
    '(r, s') ← reserve_pages s PG_RSRV_PHYS address count pagesize;
    if r <? 0 then Panic else alloc_nonowned_structs s' address count pagesize.

(** ** Zone initialisation *)

Definition zone_of_index (z : zone_type) : Z := Z.of_nat (zone_index z).

(** Creates an allocator and appends it to zone [z], counting its pages to
    zone [count_z]. *)
Definition add_allocator (buffer : list Z) (s : pm_state) (z count_z : zone_type)
    (base size : Z) : outcome pm_state :=
  '(fa, reserved, early) ←
    new_frame_allocator (pm_reserved_pages s) (pm_early s) buffer base size;
  let id := length (pm_fas s) in
  Ret (mk_pm (pm_fas s ++ [fa])
         (alter (fun l => l ++ [id]) (zone_index z) (pm_zones s))
         (alter (fun c => u64 (c + SIZE_TO_PAGES size)) (zone_index count_z)
            (pm_zone_page_count s))
         reserved early (pm_pages s) (pm_fresh s)).

Section init.
(** What the reserved pages given to the n-th allocator's map hold. *)
Variable buffers : nat -> list Z.

Definition init_entry (s : pm_state) (e : memory_map_entry_t) : outcome pm_state :=
  if negb (e_type e =? MEMORY_USABLE) then Ret s
  else
    let base := e_base e in
    let size := e_size e in
    let type := get_mem_zone_type base in
    let end_type := get_mem_zone_type (u64 (base + size - 1)) in
    '(s1, size1) ←
      (if bool_decide (type <> end_type) then
         _ ← kassert (u32 (zone_of_index end_type - zone_of_index type) =? 1);
         let end_base := zone_limits type in
         let end_size := u64 (base + size - end_base) in
         s1 ← add_allocator (buffers (length (pm_fas s))) s end_type end_type end_base end_size;
         Ret (s1, u64 (end_base - base))
       else Ret (s, size));
    add_allocator (buffers (length (pm_fas s1))) s1 type end_type base size1.

(** The [k] entries from position [i] on; an allocator's map may come out of
    an entry that is still to be visited. *)
Fixpoint init_entries (k : nat) (i : nat) (s : pm_state) : outcome pm_state :=
  match k with
  | O => Ret s
  | S k' =>
      match em_map (pm_early s) !! i with
      | None => Fault
      | Some e => s' ← init_entry s e; init_entries k' (S i) s'
      end
  end.

(** The initrd must lie outside every managed region. *)
Definition init_mem_zones (s : pm_state) (initrd_addr initrd_size : Z) : outcome pm_state :=
  early ← mm_early_reserve_pages (pm_early s) (pm_reserved_pages s);
  let s0 := mk_pm (pm_fas s) (pm_zones s) (pm_zone_page_count s) (pm_reserved_pages s) early
              (pm_pages s) (pm_fresh s) in
  s1 ← init_entries (length (em_map early)) 0 s0;
  if initrd_addr =? 0 then Ret s1
  else
    '(r, s2) ← reserve_pages s1 PG_RSRV_PHYS initrd_addr (SIZE_TO_PAGES initrd_size) PAGE_SIZE;
    if r <? 0 then Panic else Ret s2.
End init.

(** ** Mappings of a page *)

Definition pte_struct_alloc (s : pm_state) (page : nat) (entry vm_address : Z)
    : outcome (pte * pm_state) :=
  s' ← upd_page s page add_ref;
  Ret (mk_pte page entry vm_address, s').

Definition pte_struct_free (s : pm_state) (p : pte) : outcome pm_state :=
  drop_pages s (Some (pte_page p)).

Definition page_add_mapping (p : page_t) (e : pte) : page_t :=
  with_entries p (e :: pg_entries p).

(** Unlinks the first entry for the mapping at [vm_address]. *)
Fixpoint remove_entry (es : list pte) (vm_address : Z) : option pte * list pte :=
  match es with
  | [] => (None, [])
  | e :: es' =>
      if pte_address e =? vm_address then (Some e, es')
      else let '(r, rest) := remove_entry es' vm_address in (r, e :: rest)
  end.

Definition page_remove_mapping (p : page_t) (vm_address : Z) : option pte * page_t :=
  let '(r, es) := remove_entry (pg_entries p) vm_address in (r, with_entries p es).

Definition page_get_mapping (p : page_t) (vm_address : Z) : option pte :=
  List.find (fun e => pte_address e =? vm_address) (pg_entries p).

Definition set_size_flags (flags : Z) (p : page_t) : page_t :=
  with_flags p (Z.lor (Z.land (pg_flags p) (not_w 32 PG_SIZE_MASK))
                      (Z.land flags PG_SIZE_MASK)).

Fixpoint update_flags_loop (fuel : nat) (s : pm_state) (curr : option nat) (flags : Z)
    : outcome pm_state :=
  match curr with
  | None => Ret s
  | Some c =>
      match fuel with
      | O => NoFuel
      | S f =>
          p ← get_page s c;
          s' ← upd_page s c (set_size_flags flags);
          update_flags_loop f s' (pg_next p) flags
      end
  end.

Definition page_update_flags (s : pm_state) (page : nat) (flags : Z) : outcome pm_state :=
  p ← get_page s page;
  if has_flag (pg_flags p) PG_HEAD then update_flags_loop (walk_fuel s) s (Some page) flags
  else upd_page s page (set_size_flags flags).

(** ** Page lists *)

(** [SLIST_GET_LAST]. *)
Fixpoint get_last (fuel : nat) (s : pm_state) (id : nat) : outcome nat :=
  match fuel with
  | O => NoFuel
  | S f =>
      p ← get_page s id;
      match pg_next p with None => Ret id | Some q => get_last f s q end
  end.

Definition page_list_join (s : pm_state) (head tail : option nat)
    : outcome (option nat * pm_state) :=
  match head, tail with
  | None, _ => Ret (tail, s)
  | _, None => Ret (head, s)
  | Some h, Some t =>
      hp ← get_page s h;
      tp ← get_page s t;
      _ ← kassert (has_flag (pg_flags hp) PG_HEAD);
      _ ← kassert (has_flag (pg_flags tp) PG_HEAD);
      l ← get_last (walk_fuel s) s h;
      lp ← get_page s l;
      let contiguous :=
        (u64 (pg_address lp + pg_flags_to_size (pg_flags hp)) =? pg_address tp)
        && pg_contiguous tp in
      s1 ← upd_page s h (fun p => with_head p ((pg_count p + pg_count tp) mod 2 ^ 63) contiguous);
      s2 ← upd_page s1 t (fun p =>
             with_head (with_flags p (Z.lxor (pg_flags p) PG_HEAD)) 0 false);
      s3 ← upd_page s2 l (fun p => with_next p (Some t));
      Ret (head, s3)
  end.

(** The [ccount] steps along the list: the last page passed and the next. *)
Fixpoint split_walk (k : nat) (s : pm_state) (pptr ptr : option nat)
    : outcome (option nat * option nat) :=
  match k with
  | O => Ret (pptr, ptr)
  | S k' =>
      match ptr with
      | None => Panic
      | Some i => p ← get_page s i; split_walk k' s (Some i) (pg_next p)
      end
  end.

(** The new head, the tail stored through [tailref] ([None]: the pointer is
    left as it was; [Some t]: set to [t]) and the state. *)
Definition page_list_split (s : pm_state) (head : option nat) (count : Z)
    : outcome (option nat * option (option nat) * pm_state) :=
  match head with
  | None => Ret (head, None, s)
  | Some h =>
      if count =? 0 then Ret (head, None, s)
      else
        hp ← get_page s h;
        _ ← kassert (has_flag (pg_flags hp) PG_HEAD);
        _ ← kassert (count <=? pg_count hp);
        if pg_count hp =? count then Ret (head, Some None, s)
        else
          '(pptr, ptr) ← split_walk (Z.to_nat count) s None (Some h);
          match ptr with
          | None => Fault (* newhead->flags on a null pointer *)
          | Some n =>
              s1 ← upd_page s n add_ref;
              s2 ← upd_page s1 n (fun p =>
                     with_head (with_flags p (Z.lor (pg_flags p) PG_HEAD))
                       (pg_count hp - count) (pg_contiguous hp));
              s3 ← upd_page s2 h (fun p => with_head p count (pg_contiguous p));
              match pptr with
              | None => Ret (head, Some (Some n), s3)
              | Some l =>
                  s4 ← putref (fa_free_page (walk_fuel s)) s3 (Some n);
                  s5 ← upd_page s4 l (fun p => with_next p None);
                  Ret (head, Some (Some n), s5)
              end
          end
  end.

(** ** Accounting of single frames *)

(** The clear bits among the first [k]. *)
Fixpoint clear_count (m : list Z) (k : nat) : Z :=
  match k with
  | O => 0
  | S k' => clear_count m k' + (if bit_at m (Z.of_nat k') then 0 else 1)
  end.

Lemma clear_count_pos m k :
  0 < clear_count m k -> exists i, 0 <= i < Z.of_nat k /\ bit_at m i = false.
Proof.
  induction k as [|k IH]; cbn [clear_count]; [lia|]. intros H.
  destruct (bit_at m (Z.of_nat k)) eqn:E.
  - destruct IH as (i & Hi & Hb); [lia|]. exists i. split; [lia|done].
  - exists (Z.of_nat k). split; [lia|done].
Qed.

Lemma clear_count_same m m' k :
  (forall j, 0 <= j < Z.of_nat k -> bit_at m' j = bit_at m j) ->
  clear_count m' k = clear_count m k.
Proof.
  induction k as [|k IH]; intros H; cbn [clear_count]; [done|].
  rewrite IH, H by (try intros; lia || (apply H; lia)). done.
Qed.

(** [m'] differs from [m] in bit [i] only. *)
Definition flips (m m' : list Z) (i : Z) (to : bool) : Prop :=
  bit_at m i = negb to /\
  forall j, 0 <= j -> bit_at m' j = if j =? i then to else bit_at m j.

Lemma clear_count_flip m m' i to k :
  0 <= i < Z.of_nat k -> flips m m' i to ->
  clear_count m' k = clear_count m k + (if to then -1 else 1).
Proof.
  induction k as [|k IH]; intros Hi [Hold Hnew]; cbn [clear_count]; [lia|].
  rewrite (Hnew (Z.of_nat k)) by lia. destruct (Z.eqb_spec (Z.of_nat k) i) as [E|Hne].
  - rewrite (clear_count_same m m' k).
    + rewrite E, Hold. destruct to; simpl; lia.
    + intros j Hj. rewrite Hnew by lia. by rewrite (proj2 (Z.eqb_neq j i)) by lia.
  - rewrite IH; [lia|lia|done].
Qed.

(** An allocator of [nf] frames whose free byte count agrees with its map. *)
Record fa_ok (fa : frame_allocator_t) (nf : Z) : Prop := {
  ok_wf : wf (fa_data fa);
  ok_base : 0 <= fa_base fa /\ fa_base fa mod 4096 = 0;
  ok_size : fa_size fa = nf * 4096;
  ok_range : 0 <= nf < 2 ^ 40 /\ fa_base fa + nf * 4096 < 2 ^ 63;
  ok_words : nf <= 64 * Z.of_nat (length (bmp_map (fa_data fa)));
  ok_free : fa_free fa = 4096 * clear_count (bmp_map (fa_data fa)) (Z.to_nat nf);
}.

Lemma took_bits_flips m m' r : took_bits m m' r 1 -> flips m m' r true.
Proof.
  intros [H0 He Hc Hs]. split; [apply Hc; lia|]. intros j Hj. rewrite Hs by done.
  destruct (Z.eqb_spec j r) as [->|Hne].
  - by rewrite (proj2 (Z.leb_le _ _)), (proj2 (Z.ltb_lt _ _)), orb_true_r by lia.
  - zcases; by rewrite orb_false_r.
Qed.

Lemma clear_count_range m k : 0 <= clear_count m k <= Z.of_nat k.
Proof. induction k as [|k IH]; cbn [clear_count]; [lia|]. case_test; lia. Qed.

Lemma free_at_one m s : free_at m s 1 <-> bit_at m s = false.
Proof.
  split; intros H; [apply H; lia|]. intros j Hj. by replace j with s by lia.
Qed.

(** The search for one clear bit finds one below [nf] when there is one. *)
Lemma get_set_free_below b nf :
  wf b -> bmp_free b <> 0 -> nf <= 64 * Z.of_nat (length (bmp_map b)) ->
  0 < clear_count (bmp_map b) (Z.to_nat nf) ->
  exists i b', bitmap_get_set_free b = Ret (i, b') /\ 0 <= i < nf /\ wf b' /\
    flips (bmp_map b) (bmp_map b') i true /\ length (bmp_map b') = length (bmp_map b) /\
    bmp_free b' = bmp_free b /\ bmp_used b' = bmp_used b.
Proof.
  intros Hwf Hfree Hnf Hpos. destruct (clear_count_pos _ _ Hpos) as (z & Hz & Hbz).
  assert (Hno : forall lim, z < lim -> ~ none_before (bmp_map b) 1 lim).
  { intros lim Hlim Hnb. apply (Hnb z); [lia| |by apply free_at_one].
    pose proof (Z.mod_pos_bound z 64 ltac:(lia)). lia. }
  destruct (get_set_free_spec b Hwf) as (i & b' & E & [Ht|(-> & -> & [?|Hnone])]);
    [|done|exfalso; eapply Hno; [|exact Hnone]; lia].
  destruct Ht as (Hwf' & Hbits & Hnb & Hf & Hu). simpl in *.
  exists i, b'. split; [done|]. split.
  - split; [apply Hbits|]. destruct (Z.lt_ge_cases i nf); [done|].
    exfalso. apply (Hno i); [lia|done].
  - split; [done|]. split; [by apply took_bits_flips|]. split; [|done].
    pose proof (wf_size _ Hwf). pose proof (wf_size _ Hwf').
    pose proof (get_set_free_size _ _ _ E). lia.
Qed.

Lemma align_page_multiple x : is_aligned (x * 4096) PAGE_SIZE = true.
Proof.
  unfold is_aligned. change (u64 (PAGE_SIZE - 1)) with (Z.ones 12).
  rewrite Z.land_ones by lia. change (2 ^ 12) with 4096. by rewrite Z.mod_mul by lia.
Qed.

Lemma fa_ok_flip fa b' i to nf :
  fa_ok fa nf -> 0 <= i < nf -> wf b' -> length (bmp_map b') = length (bmp_map (fa_data fa)) ->
  flips (bmp_map (fa_data fa)) (bmp_map b') i to ->
  fa_ok (with_free fa (fa_free fa + (if to then -4096 else 4096)) b') nf.
Proof.
  intros [Hwf Hb Hs Hr Hw Hf] Hi Hwf' Hl Hfl. split; simpl; try done; try lia.
  rewrite (clear_count_flip (bmp_map (fa_data fa)) _ i to) by (done || lia).
  rewrite Hf. destruct to; lia.
Qed.

Lemma fa_alloc_single_spec fa nf :
  fa_ok fa nf -> fa_free fa <> 0 -> bmp_free (fa_data fa) <> 0 ->
  exists i b', bitmap_fa_alloc fa 1 PAGE_SIZE =
      Ret (fa_base fa + i * 4096, with_free fa (fa_free fa + -4096) b') /\
    0 <= i < nf /\ wf b' /\ flips (bmp_map (fa_data fa)) (bmp_map b') i true /\
    length (bmp_map b') = length (bmp_map (fa_data fa)) /\
    bmp_free b' = bmp_free (fa_data fa) /\ bmp_used b' = bmp_used (fa_data fa).
Proof.
  intros Hok Hfree Hbmp. pose proof Hok as [Hwf [Hb _] Hs [Hr1 Hr2] Hw Hf].
  pose proof (clear_count_range (bmp_map (fa_data fa)) (Z.to_nat nf)) as Hcc.
  destruct (get_set_free_below (fa_data fa) nf) as (i & b' & E & Hi & Hrest); try done; [lia|].
  exists i, b'. split; [|done]. unfold bitmap_fa_alloc.
  rewrite (proj2 (Z.eqb_neq _ 0)) by done. change (num_4k_pages 1 PAGE_SIZE =? 1) with true.
  cbv iota. rewrite E. simpl mbind. cbv iota beta.
  rewrite (proj2 (Z.leb_le 0 i)), PAGES_TO_SIZE_small by lia.
  change (1 * PAGE_SIZE) with 4096. unfold sint. rewrite !wrap_small by (unfold fits; lia).
  by rewrite (proj2 (Z.ltb_lt _ _)) by lia.
Qed.

(** In a frame allocator whose free count agrees with its bitmap, the
    allocation of a single 4K frame succeeds while bytes are free: it returns
    the lowest free frame of the allocator's own range, marks exactly that
    frame and keeps the count in agreement. *)
Theorem fa_alloc_single (fa : frame_allocator_t) (nf : Z) (Hok : fa_ok fa nf)
    (Hfree : fa_free fa <> 0) (Hbmp : bmp_free (fa_data fa) <> 0) :
  exists i fa', bitmap_fa_alloc fa 1 PAGE_SIZE = Ret (fa_base fa + i * 4096, fa') /\
    0 <= i < nf /\ flips (bmp_map (fa_data fa)) (bmp_map (fa_data fa')) i true /\
    fa_ok fa' nf /\ fa_free fa' = fa_free fa - 4096.
Proof.
  destruct (fa_alloc_single_spec fa nf Hok Hfree Hbmp) as (i & b' & E & Hi & Hwf & Hfl & Hl & _).
  exists i. eexists. split; [exact E|]. split; [done|]. split; [done|]. split; [|done].
  by apply (fa_ok_flip fa b' i true).
Qed.

Lemma testbit_clearbit q i j : 0 <= i -> 0 <= j ->
  Z.testbit (Z.clearbit q i) j = if j =? i then false else Z.testbit q j.
Proof.
  intros Hi Hj. destruct (Z.eqb_spec j i) as [->|Hne].
  - by apply Z.clearbit_eq.
  - by apply Z.clearbit_neq.
Qed.

Lemma clear_set_bit b i :
  wf b -> 0 <= i < 64 * Z.of_nat (length (bmp_map b)) -> i < 2 ^ 64 ->
  i < u64 (bmp_used b + bmp_free b) -> bit_at (bmp_map b) i = true ->
  exists b', bitmap_clear b i = Ret (true, b') /\ wf b' /\
    flips (bmp_map b) (bmp_map b') i false /\ length (bmp_map b') = length (bmp_map b).
Proof.
  intros Hwf Hi Hi64 Hcap Hset. unfold bitmap_clear, index_ok.
  rewrite (wrap_small 64 i) by (unfold fits; lia). rewrite (proj2 (Z.ltb_lt _ _)) by lia. simpl.
  assert (Hdiv : 0 <= i / 64 < Z.of_nat (length (bmp_map b))).
  { split; [apply Z.div_pos; lia|apply Z.div_lt_upper_bound; lia]. }
  pose proof (Z.mod_pos_bound i 64 ltac:(lia)) as Hm.
  destruct (load_in_range _ _ Hdiv) as (q & -> & Hq). simpl.
  assert (Hb : Z.testbit q (i mod 64) = true) by by unfold bit_at in Hset; rewrite Hq in Hset.
  rewrite Hb, store_in_range by done. simpl. eexists. split; [done|].
  assert (Hfq : fits 64 q) by by apply (wf_word b (Z.to_nat (i / 64))).
  split; [|split; [split; [done|]|simpl; by rewrite length_insert]].
  - apply wf_add_counts, wf_set_word; [done|]. apply fits_of_testbit; [lia| |].
    + unfold Z.clearbit. apply Z.ldiff_nonneg. left. apply Hfq.
    + intros j Hj. rewrite testbit_clearbit, (fits_testbit 64 q) by (done || lia). by case_test.
  - intros j Hj. simpl. rewrite bit_at_insert by done.
    pose proof (Z.mod_pos_bound j 64 ltac:(lia)).
    pose proof (Z.div_mod i 64 ltac:(lia)). pose proof (Z.div_mod j 64 ltac:(lia)).
    destruct (Z.eqb_spec (j / 64) (i / 64)) as [E|]; [|by zcases; subst].
    rewrite testbit_clearbit by lia. unfold bit_at. rewrite E, Hq. zcases.
Qed.

(** C28. Allocating a single 4K frame and freeing it again gives back exactly
    the frames that were free before, and the allocator's free byte count. *)
Theorem fa_alloc_free_single (fa : frame_allocator_t) (nf : Z) (Hok : fa_ok fa nf)
    (Hfree : fa_free fa <> 0) (Hbmp : bmp_free (fa_data fa) <> 0)
    (Hcap : nf <= u64 (bmp_used (fa_data fa) + bmp_free (fa_data fa))) :
  exists frame fa1 fa2, bitmap_fa_alloc fa 1 PAGE_SIZE = Ret (frame, fa1) /\
    bitmap_fa_free fa1 frame 1 PAGE_SIZE = Ret fa2 /\ fa_ok fa2 nf /\
    fa_free fa2 = fa_free fa /\
    (forall j, 0 <= j -> bit_at (bmp_map (fa_data fa2)) j = bit_at (bmp_map (fa_data fa)) j).
Proof.
  destruct (fa_alloc_single_spec fa nf Hok Hfree Hbmp)
    as (i & b1 & E & Hi & Hwf & Hfl & Hl & Hf1 & Hu1).
  pose proof (fa_ok_flip fa b1 i true nf Hok Hi Hwf Hl Hfl) as Hok1.
  pose proof Hok as [_ [Hb _] _ [Hr1 Hr2] Hw Hfr]. pose proof Hok1 as [_ _ _ _ Hw1 _]. simpl in Hw1.
  destruct (clear_set_bit b1 i) as (b2 & E2 & Hwf2 & Hfl2 & Hl2); try done; try lia.
  { rewrite Hf1, Hu1. lia. }
  { rewrite (proj2 Hfl), Z.eqb_refl by lia. done. }
  pose proof (clear_count_range (bmp_map (fa_data fa)) (Z.to_nat nf)).
  eexists _, _, (with_free fa (fa_free fa) b2). split; [exact E|]. split.
  - unfold bitmap_fa_free. change (num_4k_pages 1 PAGE_SIZE =? 1) with true. simpl fa_base.
    replace (fa_base fa + i * 4096 - fa_base fa) with (i * 4096) by lia.
    rewrite (wrap_small 64 (i * 4096)) by (unfold fits; lia). rewrite SIZE_TO_PAGES_exact. simpl fa_data.
    rewrite E2. simpl. change (1 * PAGE_SIZE) with 4096. unfold with_free. simpl.
    rewrite wrap_small by (unfold fits; lia). do 2 f_equal. lia.
  - split; [|split; [done|]].
    + pose proof (fa_ok_flip _ b2 i false nf Hok1 Hi Hwf2 Hl2 Hfl2) as Hok2.
      unfold with_free in *. simpl in Hok2. by replace (fa_free fa + -4096 + 4096)
        with (fa_free fa) in Hok2 by lia.
    + intros j Hj. simpl. rewrite (proj2 Hfl2), (proj2 Hfl) by done.
      destruct (Z.eqb_spec j i) as [->|]; [|done]. by rewrite (proj1 Hfl).
Qed.

(** An allocator of 70 frames at 16MB; the first 64 are taken. *)
Definition sample_fa : frame_allocator_t :=
  mk_fa 0x1000000 (70 * 4096) (6 * 4096) (mk_bitmap [MAX_NUM; 0] 16 70 0).

Lemma sample_fa_ok : fa_ok sample_fa 70.
Proof.
  split; try (simpl; lia); try done. split; [|done].
  repeat constructor; simpl; unfold MAX_NUM; lia.
Qed.

Lemma fa_alloc_single_witness :
  exists i fa', bitmap_fa_alloc sample_fa 1 PAGE_SIZE = Ret (fa_base sample_fa + i * 4096, fa') /\
    fa_free fa' = 5 * 4096.
Proof.
  destruct (fa_alloc_single sample_fa 70 sample_fa_ok) as (i & fa' & E & _ & _ & _ & Hf).
  - discriminate.
  - discriminate.
  - exists i, fa'. split; [exact E|exact Hf].
Defined.

Lemma fa_alloc_free_single_witness :
  exists frame fa1 fa2, bitmap_fa_alloc sample_fa 1 PAGE_SIZE = Ret (frame, fa1) /\
    bitmap_fa_free fa1 frame 1 PAGE_SIZE = Ret fa2 /\ fa_free fa2 = fa_free sample_fa.
Proof.
  destruct (fa_alloc_free_single sample_fa 70 sample_fa_ok)
    as (frame & fa1 & fa2 & E1 & E2 & _ & Hf & _).
  - discriminate.
  - discriminate.
  - vm_compute. discriminate.
  - exists frame, fa1, fa2. split; [exact E1|]. split; [exact E2|exact Hf].
Defined.

(** ** Page lists *)

(** The pages reached from a reference by following [next]. *)
Inductive plist (m : gmap nat page_t) : option nat -> list nat -> Prop :=
  | plist_nil : plist m None []
  | plist_cons id p l :
      m !! id = Some p -> plist m (pg_next p) l -> plist m (Some id) (id :: l).

Lemma plist_det m o l1 : plist m o l1 -> forall l2, plist m o l2 -> l1 = l2.
Proof.
  induction 1 as [|id p l Hp Hl IH]; intros l2 H2; inversion H2; subst; [done|].
  f_equal. apply IH. congruence.
Qed.

Lemma plist_suffix m o l1 id l2 : plist m o (l1 ++ id :: l2) -> plist m (Some id) (id :: l2).
Proof.
  revert o. induction l1 as [|x l1 IH]; intros o H; inversion H; subst; [|by eapply IH].
  by econstructor.
Qed.

Lemma plist_NoDup m o l : plist m o l -> NoDup l.
Proof.
  induction 1 as [|id p l Hp Hl IH]; constructor; [|done].
  intros (l1 & l2 & ->)%list_elem_of_split.
  pose proof (plist_suffix _ _ _ _ _ Hl) as H1.
  assert (H2 : plist m (Some id) (id :: l1 ++ id :: l2)) by by econstructor.
  pose proof (plist_det _ _ _ H1 _ H2) as E. apply (f_equal length) in E.
  simpl in E. rewrite length_app in E. simpl in E. lia.
Qed.

Lemma plist_dom m o l : plist m o l -> forall id, id ∈ l -> is_Some (m !! id).
Proof.
  induction 1 as [|id p l Hp Hl IH]; intros i Hi; [by apply elem_of_nil in Hi|].
  apply elem_of_cons in Hi as [->|]; [by eexists|auto].
Qed.

(** The walk bound is enough for every list of the store. *)
Lemma plist_length m o l : plist m o l -> (length l <= size m)%nat.
Proof.
  intros H. rewrite <- (size_list_to_set (C:=gset nat) l) by by eapply plist_NoDup.
  rewrite <- (size_dom m (D:=gset nat)). apply subseteq_size.
  intros i Hi. apply elem_of_dom. eapply plist_dom; [done|]. by apply elem_of_list_to_set in Hi.
Qed.

Lemma plist_frame m m' o l :
  plist m o l -> (forall id, id ∈ l -> m' !! id = m !! id) -> plist m' o l.
Proof.
  induction 1 as [|id p l Hp Hl IH]; intros Heq; [constructor|].
  econstructor; [rewrite Heq; [done|]; by left|]. apply IH. intros i Hi. apply Heq. by right.
Qed.

(** Linking the last page of a list to the head of another. *)
Lemma plist_link m h l0 last lp t tl :
  plist m h (l0 ++ [last]) -> m !! last = Some lp -> plist m (Some t) tl ->
  (forall id, id ∈ l0 ++ [last] -> id ∉ tl) ->
  plist (<[last := with_next lp (Some t)]> m) h ((l0 ++ [last]) ++ tl).
Proof.
  intros Hh Hlp Ht Hdis.
  assert (Htl : plist (<[last:=with_next lp (Some t)]> m) (Some t) tl).
  { eapply plist_frame; [done|]. intros id Hid. rewrite lookup_insert_ne; [done|].
    intros ->. apply (Hdis id); [set_solver|done]. }
  clear Ht Hdis. revert h Hh. induction l0 as [|x l0 IH]; intros h Hh; inversion Hh; subst; simpl.
  - econstructor; [by rewrite lookup_insert_eq|]. done.
  - assert (x <> last).
    { apply plist_NoDup, NoDup_cons in Hh as [Hx _]. set_solver. }
    econstructor; [rewrite lookup_insert_ne; done|]. by apply IH.
Qed.

Lemma get_last_spec s fuel : forall h l last,
  plist (pm_pages s) (Some h) (l ++ [last]) -> (length l < fuel)%nat ->
  get_last fuel s h = Ret last.
Proof.
  induction fuel as [|fuel IH]; intros h l last Hl Hf; [lia|]. simpl. unfold get_page.
  destruct l as [|x l]; inversion Hl as [|? p ? Hp Hn]; subst; simpl; rewrite Hp; simpl.
  - by inversion Hn.
  - destruct (pg_next p) as [q|]; [|by inversion Hn; destruct l]. apply (IH _ l); [done|].
    simpl in Hf. lia.
Qed.

#[global] Arguments get_last : simpl never.
#[global] Arguments fa_free_page : simpl never.
#[global] Arguments cow_loop : simpl never.
#[global] Arguments shared_loop : simpl never.
#[global] Arguments update_flags_loop : simpl never.

Lemma upd_page_Some s id p f :
  pm_pages s !! id = Some p -> upd_page s id f = Ret (with_pages s (<[id := f p]> (pm_pages s))).
Proof. unfold upd_page. by intros ->. Qed.

(** An update that keeps [next] keeps the lists. *)
Lemma plist_upd m id p p' o l :
  m !! id = Some p -> pg_next p' = pg_next p -> plist m o l ->
  plist (<[id := p']> m) o l.
Proof.
  intros Hp Hf. induction 1 as [|i q l Hq Hl IH]; [constructor|].
  destruct (decide (i = id)) as [->|Hne].
  - econstructor; [by rewrite lookup_insert_eq|]. rewrite Hp in Hq. injection Hq as ->.
    by rewrite Hf.
  - econstructor; [by rewrite lookup_insert_ne|done].
Qed.

(** The store after a join: both heads rewritten, then the link. *)
Lemma join_store m h t last l0 tl hp tp hp' tp' lp2 :
  plist m (Some h) (l0 ++ [last]) -> plist m (Some t) tl ->
  (forall id, id ∈ l0 ++ [last] -> id ∉ tl) -> h <> t ->
  m !! h = Some hp -> m !! t = Some tp ->
  pg_next hp' = pg_next hp -> pg_next tp' = pg_next tp ->
  let m2 := <[t := tp']> (<[h := hp']> m) in
  m2 !! last = Some lp2 ->
  plist (<[last := with_next lp2 (Some t)]> m2) (Some h) ((l0 ++ [last]) ++ tl).
Proof.
  intros Hh Ht Hdis Hht Hhp Htp Hf1 Hf2 m2 Hlp2.
  assert (Hp2 : forall o l, plist m o l -> plist m2 o l).
  { intros o l Hol. unfold m2. apply (plist_upd _ t tp); [by rewrite lookup_insert_ne|done|].
    by apply (plist_upd _ h hp). }
  by apply plist_link; [apply Hp2|..|apply Hp2|].
Qed.

Lemma plist_head m h l : plist m (Some h) l -> h ∈ l.
Proof. inversion 1. by left. Qed.

(** Joining two page lists with no page in common gives the list of the
    first's pages followed by the second's, headed by the first head, whose
    page count is the sum of both. *)
Theorem page_list_join_app (s : pm_state) (h t : nat) (hl tl : list nat) (hp tp : page_t)
    (Hh : plist (pm_pages s) (Some h) hl) (Ht : plist (pm_pages s) (Some t) tl)
    (Hdis : forall id, id ∈ hl -> id ∉ tl)
    (Hhp : pm_pages s !! h = Some hp) (Htp : pm_pages s !! t = Some tp)
    (Hhf : has_flag (pg_flags hp) PG_HEAD = true) (Htf : has_flag (pg_flags tp) PG_HEAD = true) :
  exists s' hp', page_list_join s (Some h) (Some t) = Ret (Some h, s') /\
    plist (pm_pages s') (Some h) (hl ++ tl) /\
    pm_pages s' !! h = Some hp' /\
    pg_count hp' = (pg_count hp + pg_count tp) mod 2 ^ 63 /\ pg_flags hp' = pg_flags hp.
Proof.
  destruct hl as [|last l0 _] using rev_ind; [by inversion Hh|].
  pose proof (plist_head _ _ _ Hh) as Hh1. pose proof (plist_head _ _ _ Ht) as Ht1.
  destruct (plist_dom _ _ _ Hh last) as [lp Hlp]; [by apply elem_of_app; right; left|].
  assert (Hht : t <> h) by (intros ->; by apply (Hdis h)).
  assert (Hlt : t <> last) by (intros ->; apply (Hdis last); [apply elem_of_app; right; by left|done]).
  assert (Hl : get_last (walk_fuel s) s h = Ret last).
  { apply (get_last_spec s _ h l0); [done|]. unfold walk_fuel.
    pose proof (plist_length _ _ _ Hh) as Hlen. rewrite length_app in Hlen. simpl in Hlen. lia. }
  unfold page_list_join, get_page. rewrite Hhp, Htp. simpl. rewrite Hhf, Htf. simpl.
  rewrite Hl. simpl. rewrite Hlp. simpl.
  erewrite upd_page_Some by done. simpl.
  erewrite upd_page_Some by (simpl; by rewrite lookup_insert_ne). simpl.
  destruct (decide (h = last)) as [->|Hne].
  - erewrite upd_page_Some by (simpl; by rewrite lookup_insert_ne, lookup_insert_eq). simpl.
    do 2 eexists. split; [done|]. split; [|split; [simpl; by rewrite lookup_insert_eq|done]]. simpl.
    apply (join_store _ last t last l0 tl hp tp); try (done || by apply not_eq_sym).
    by rewrite lookup_insert_ne, lookup_insert_eq.
  - erewrite upd_page_Some by (simpl; by rewrite !lookup_insert_ne). simpl.
    do 2 eexists. split; [done|]. split; simpl.
    + apply (join_store _ h t last l0 tl hp tp); try (done || by apply not_eq_sym).
      by rewrite !lookup_insert_ne.
    + split; [do 2 rewrite lookup_insert_ne by done; by rewrite lookup_insert_eq|done].
Qed.

(** Two lists of one page each, at 0x1000 and 0x2000. *)
Definition sample_pages : pm_state :=
  let head a := mk_page a (Z.lor PG_OWNING PG_HEAD) 1 true None None [] None 1 in
  mk_pm [] [] [] 0 (mk_early [] 0 0 0 0 0) (<[1%nat := head 0x1000]> (<[2%nat := head 0x2000]> ∅)) 3.

Lemma page_list_join_app_witness :
  exists s', page_list_join sample_pages (Some 1%nat) (Some 2%nat) = Ret (Some 1%nat, s') /\
    plist (pm_pages s') (Some 1%nat) [1%nat; 2%nat].
Proof.
  edestruct (page_list_join_app sample_pages 1 2 [1%nat] [2%nat]) as (s' & hp' & E & Hl & _).
  - econstructor; [reflexivity|constructor].
  - econstructor; [reflexivity|constructor].
  - intros id [->|H]%elem_of_cons; [|by apply elem_of_nil in H].
    intros [H|H]%elem_of_cons; [discriminate|by apply elem_of_nil in H].
  - reflexivity.
  - reflexivity.
  - reflexivity.
  - reflexivity.
  - exists s'. split; [exact E|exact Hl].
Defined.

(** ** Fresh page lists *)

(** The [i]-th of [k] fresh pages that start at object [n] and [address]. *)
Definition fresh_page (n k : nat) (flags : Z) (fa : option nat) (pg_size address : Z) (i : nat)
    : page_t :=
  mk_page (u64 (address + Z.of_nat i * pg_size)) flags 0 false fa None []
    (if (S i <? k)%nat then Some (n + S i)%nat else None) 1.

Lemma fresh_page_S n k flags fa pg_size address i :
  fresh_page (S n) k flags fa pg_size (u64 (address + pg_size)) i =
  fresh_page n (S k) flags fa pg_size address (S i).
Proof.
  unfold fresh_page. f_equal.
  - unfold wrap. rewrite Zplus_mod_idemp_l. f_equal. lia.
  - change (S (S i) <? S k)%nat with (S i <? k)%nat. case_test; [|done]. f_equal. lia.
Qed.

Lemma alloc_loop_spec flags fa pg_size k : forall address first l lp s,
  fits 64 address ->
  pm_pages s !! l = Some lp -> pg_next lp = None -> (l < pm_fresh s)%nat ->
  exists s', alloc_loop k flags fa pg_size address first (Some l) s = Ret (first, s') /\
    pm_pages s' !! l =
      Some (with_next lp (if (0 <? k)%nat then Some (pm_fresh s) else None)) /\
    (forall i, (i < k)%nat -> pm_pages s' !! (pm_fresh s + i)%nat =
       Some (fresh_page (pm_fresh s) k flags fa pg_size address i)) /\
    (forall id, (id < pm_fresh s)%nat -> id <> l -> pm_pages s' !! id = pm_pages s !! id).
Proof.
  induction k as [|k IH]; intros address first l lp s Ha Hl Hnext Hlt; simpl.
  - exists s. split; [done|]. split; [|split; [lia|done]]. rewrite Hl. f_equal.
    destruct lp; simpl in *; by subst.
  - erewrite upd_page_Some by (simpl; rewrite lookup_insert_ne by lia; done). simpl.
    set (s1 := with_pages _ _).
    destruct (IH (u64 (address + pg_size)) first (pm_fresh s)
      (mk_page address flags 0 false fa None [] None 1) s1)
      as (s' & -> & Hl' & Hnew & Hold); [by apply wrap_range| |done|simpl; lia|].
    { unfold s1. simpl. rewrite lookup_insert_ne by lia. by rewrite lookup_insert_eq. }
    exists s'. split; [done|]. split; [|split].
    + rewrite Hold by (simpl; lia). unfold s1. simpl. by rewrite lookup_insert_eq.
    + intros [|i] Hi.
      * rewrite Nat.add_0_r, Hl'. unfold fresh_page, with_next. simpl. f_equal.
        rewrite Z.add_0_r, wrap_small by done. f_equal. destruct k; simpl; [done|].
        f_equal. lia.
      * specialize (Hnew i ltac:(lia)). simpl in Hnew.
        replace (pm_fresh s + S i)%nat with (S (pm_fresh s + i)) by lia. rewrite Hnew.
        f_equal. apply fresh_page_S.
    + intros id Hid Hne. rewrite Hold by (simpl; lia). unfold s1. simpl.
      by rewrite !lookup_insert_ne by lia.
Qed.

Lemma alloc_loop_first flags fa pg_size k address s :
  fits 64 address ->
  exists s', alloc_loop (S k) flags fa pg_size address None None s = Ret (Some (pm_fresh s), s') /\
    (forall i, (i < S k)%nat -> pm_pages s' !! (pm_fresh s + i)%nat =
       Some (fresh_page (pm_fresh s) (S k) flags fa pg_size address i)) /\
    (forall id, (id < pm_fresh s)%nat -> pm_pages s' !! id = pm_pages s !! id).
Proof.
  intros Ha. cbn [alloc_loop new_page]. set (s1 := mk_pm _ _ _ _ _ _ _).
  destruct (alloc_loop_spec flags fa pg_size k (u64 (address + pg_size)) (Some (pm_fresh s))
    (pm_fresh s) (mk_page address flags 0 false fa None [] None 1) s1)
    as (s' & -> & Hl & Hnew & Hold); [by apply wrap_range| |done|simpl; lia|].
  { unfold s1. simpl. by rewrite lookup_insert_eq. }
  exists s'. split; [done|]. split.
  - intros [|i] Hi.
    + rewrite Nat.add_0_r, Hl. unfold fresh_page, with_next. simpl. f_equal.
      rewrite Z.add_0_r, wrap_small by done. f_equal. destruct k; simpl; [done|]. f_equal. lia.
    + specialize (Hnew i ltac:(lia)). simpl in Hnew.
      replace (pm_fresh s + S i)%nat with (S (pm_fresh s + i)) by lia. rewrite Hnew.
      f_equal. apply fresh_page_S.
  - intros id Hid. rewrite Hold by (simpl; lia). unfold s1. simpl.
    by rewrite lookup_insert_ne by lia.
Qed.

(** Objects [n .. n+k-1] chained by [next] form a list. *)
Lemma plist_seq m n k :
  (forall i, (i < k)%nat -> exists p, m !! (n + i)%nat = Some p /\
     pg_next p = if (S i <? k)%nat then Some (n + S i)%nat else None) ->
  plist m (if (0 <? k)%nat then Some n else None) (seq n k).
Proof.
  revert n. induction k as [|k IH]; intros n H; simpl; [constructor|].
  destruct (H 0%nat) as (p & Hp & Hn); [lia|]. rewrite Nat.add_0_r in Hp.
  econstructor; [done|]. rewrite Hn.
  replace (if (1 <? S k)%nat then Some (n + 1)%nat else None)
    with (if (0 <? k)%nat then Some (S n) else None) by (destruct k; [done|simpl; f_equal; lia]).
  apply IH. intros i Hi. destruct (H (S i)) as (q & Hq & Hqn); [lia|].
  exists q. replace (n + S i)%nat with (S n + i)%nat in Hq by lia. split; [done|].
  rewrite Hqn. change (S (S i) <? S k)%nat with (S i <? k)%nat. case_test; [|done]. f_equal. lia.
Qed.

(** [alloc_page_structs] makes a list of [count] fresh page structs, the
    [i]-th at [frame + i * pg_size], each owned by the allocator with one
    reference; the head is flagged and records the count, and the page structs
    that existed before are unchanged. *)
Theorem alloc_page_structs_list (s : pm_state) (fa : option nat) (frame count pg_size : Z)
    (Hcount : 0 < count) (Hframe : fits 64 frame) :
  exists s', alloc_page_structs s fa frame count pg_size = Ret (Some (pm_fresh s), s') /\
    plist (pm_pages s') (Some (pm_fresh s)) (seq (pm_fresh s) (Z.to_nat count)) /\
    (forall i, 0 <= i < count -> exists p,
       pm_pages s' !! (pm_fresh s + Z.to_nat i)%nat = Some p /\
       pg_address p = u64 (frame + i * pg_size) /\ pg_fa p = fa /\ pg_refcount p = 1 /\
       pg_flags p = Z.lor (Z.lor PG_OWNING (size_flags pg_size)) (if i =? 0 then PG_HEAD else 0) /\
       pg_count p = if i =? 0 then count else 0) /\
    (forall id, (id < pm_fresh s)%nat -> pm_pages s' !! id = pm_pages s !! id).
Proof.
  unfold alloc_page_structs. rewrite (proj2 (Z.ltb_lt 0 count)) by done. simpl kassert.
  destruct (Z.to_nat count) as [|k] eqn:Ek; [lia|]. cbn [mbind outcome_bind].
  destruct (alloc_loop_first (Z.lor PG_OWNING (size_flags pg_size)) fa pg_size k frame s Hframe)
    as (s1 & -> & Hnew & Hold). cbn [mbind outcome_bind make_head].
  pose proof (Hnew 0%nat ltac:(lia)) as H0. rewrite Nat.add_0_r in H0.
  erewrite upd_page_Some by exact H0. cbn [mbind outcome_bind].
  eexists. split; [done|]. cbn [pm_pages with_pages]. split; [|split].
  - apply (plist_upd _ _ _ _ _ _ H0); [done|].
    apply (plist_seq _ _ (S k)). intros i Hi. eexists. by split; [apply Hnew|].
  - intros i Hi. destruct (Z.eqb_spec i 0) as [->|Hne].
    + eexists. rewrite Nat.add_0_r, lookup_insert_eq. repeat split.
    + eexists. rewrite lookup_insert_ne by lia. rewrite Hnew by lia. split; [done|].
      unfold fresh_page. simpl. rewrite Z2Nat.id, Z.lor_0_r by lia. done.
  - intros id Hid. rewrite lookup_insert_ne by lia. by apply Hold.
Qed.

Lemma alloc_page_structs_list_witness :
  exists s', alloc_page_structs sample_pages (Some 0%nat) 0x1000000 3 PAGE_SIZE =
      Ret (Some 3%nat, s') /\ plist (pm_pages s') (Some 3%nat) [3; 4; 5]%nat.
Proof.
  destruct (alloc_page_structs_list sample_pages (Some 0%nat) 0x1000000 3 PAGE_SIZE)
    as (s' & E & Hl & _).
  - lia.
  - unfold fits. lia.
  - exists s'. split; [exact E|exact Hl].
Defined.

(** When an allocator that still has free bytes cannot serve a request,
    [fa_alloc_pages] does not report it but fails an assertion: the search
    returns [-1] and the code tests for [0]. *)
Theorem fa_alloc_pages_no_room (s : pm_state) (id : nat) (fa fa' : frame_allocator_t)
    (count pg_size : Z) (Hfa : pm_fas s !! id = Some fa) (Hsize : valid_pg_size pg_size = true)
    (Hcount : count <> 0) (Hfree : fa_free fa <> 0)
    (Hfull : bitmap_fa_alloc fa count pg_size = Ret (-1, fa')) :
  fa_alloc_pages s id count pg_size = Panic.
Proof.
  unfold fa_alloc_pages, get_fa. rewrite Hsize, Hfa. simpl.
  rewrite (proj2 (Z.eqb_neq (fa_free fa) 0)), (proj2 (Z.eqb_neq count 0)) by done. simpl.
  rewrite Hfull. simpl. change (u64 (-1) =? 0) with false. cbv iota.
  unfold valid_pg_size in Hsize. repeat (apply orb_true_iff in Hsize as [Hsize|Hsize]);
    apply Z.eqb_eq in Hsize; by subst.
Qed.

(** Frames 1 and 3 of four are free: no two adjacent ones. *)
Lemma fa_alloc_pages_no_room_witness :
  let fa := mk_fa 0x1000000 (4 * 4096) (2 * 4096) (mk_bitmap [0xFFFFFFFFFFFFFFF5] 8 4 0) in
  fa_alloc_pages (mk_pm [fa] [] [] 0 (mk_early [] 0 0 0 0 0) ∅ 0) 0 2 PAGE_SIZE = Panic.
Proof.
  intros fa. eapply (fa_alloc_pages_no_room _ 0 fa).
  - reflexivity.
  - reflexivity.
  - lia.
  - discriminate.
  - vm_compute. reflexivity.
Defined.
