(* ===== verification/CString.v ===== *)
(** * kernel/string.c: byte and string routines

    Memory is one array of bytes; pointers are positions in it, so that source
    and destination may overlap.  Loops over NUL terminated strings take a
    bound on the bytes they may read; running past the array is a fault. *)

From S2P Require Import Prelude.
From Stdlib Require Import String Ascii.
From stdpp Require Import list.
Local Open Scope Z_scope.

(** The bytes of a string literal. *)
Definition bytes (s : string) : list Z :=
  List.map (fun a => Z.of_N (N_of_ascii a)) (list_ascii_of_string s).

(** A byte read as [char], which is signed. *)
Definition schar (b : Z) : Z := if b <? 128 then b else b - 256.

(** ** Character classes (include/kernel/string.h) *)

Definition islower (c : Z) : bool := (97 <=? c) && (c <=? 122).
Definition isupper (c : Z) : bool := (65 <=? c) && (c <=? 90).
Definition isalpha (c : Z) : bool := islower c || isupper c.
Definition isdigit (c : Z) : bool := (48 <=? c) && (c <=? 57).
Definition isalnum (c : Z) : bool := isalpha c || isdigit c.
Definition isspace (c : Z) : bool :=
  (c =? 32) || (c =? 10) || (c =? 9) || (c =? 11) || (c =? 12) || (c =? 13).

(** ** Memory *)

Fixpoint memcmp (k : nat) (m : list Z) (s1 s2 : Z) : outcome Z :=
  match k with
  | O => Ret 0
  | S k' =>
      a ← load m s1;
      b ← load m s2;
      if a =? b then memcmp k' m (s1 + 1) (s2 + 1) else Ret (if a <? b then -1 else 1)
  end.

(** [while (len--) *d++ = *s++]. *)
Fixpoint copy_up (k : nat) (m : list Z) (d s : Z) : outcome (list Z) :=
  match k with
  | O => Ret m
  | S k' => c ← load m s; m' ← store m d c; copy_up k' m' (d + 1) (s + 1)
  end.

(** [while (len--) *lastd-- = *lasts--]. *)
Fixpoint copy_down (k : nat) (m : list Z) (d s : Z) : outcome (list Z) :=
  match k with
  | O => Ret m
  | S k' => c ← load m s; m' ← store m d c; copy_down k' m' (d - 1) (s - 1)
  end.

(** The result pointer and the memory; [None] is NULL. *)
Definition memcpy (m : list Z) (d s len : Z) : outcome (option Z * list Z) :=
  if len =? 0 then Ret (None, m)
  else m' ← copy_up (Z.to_nat len) m d s; Ret (Some d, m').

Definition memmove (m : list Z) (d s len : Z) : outcome (list Z) :=
  if len =? 0 then Ret m
  else if d <? s then copy_up (Z.to_nat len) m d s
  else copy_down (Z.to_nat len) m (d + (len - 1)) (s + (len - 1)).

Fixpoint memset (k : nat) (m : list Z) (d val : Z) : outcome (list Z) :=
  match k with
  | O => Ret m
  | S k' => m' ← store m d (u8 val); memset k' m' (d + 1) val
  end.

(** ** Strings *)

(** Enough iterations to read the whole array. *)
Definition mem_fuel (m : list Z) : nat := S (length m).

Fixpoint strcmp_loop (fuel : nat) (m : list Z) (s1 s2 : Z) : outcome Z :=
  match fuel with
  | O => NoFuel
  | S f =>
      a ← load m s1;
      b ← load m s2;
      if (a =? 0) || negb (a =? b) then Ret (schar a - schar b)
      else strcmp_loop f m (s1 + 1) (s2 + 1)
  end.

Definition strcmp (m : list Z) (s1 s2 : Z) : outcome Z := strcmp_loop (mem_fuel m) m s1 s2.

Fixpoint strncmp (n : nat) (m : list Z) (s1 s2 : Z) : outcome Z :=
  match n with
  | O => Ret 0
  | S n' =>
      a ← load m s1;
      b ← load m s2;
      if negb (a =? b) then Ret (a - b)
      else if a =? 0 then Ret 0
      else strncmp n' m (s1 + 1) (s2 + 1)
  end.

Fixpoint strlen_loop (fuel : nat) (m : list Z) (s : Z) (len : Z) : outcome Z :=
  match fuel with
  | O => NoFuel
  | S f => c ← load m s; if c =? 0 then Ret len else strlen_loop f m (s + 1) (len + 1)
  end.

Definition strlen (m : list Z) (s : Z) : outcome Z := strlen_loop (mem_fuel m) m s 0.

Definition strcpy (m : list Z) (d s : Z) : outcome (list Z) :=
  len ← strlen m s;
  m' ← copy_up (Z.to_nat len) m d s;
  store m' (d + len) 0.

(** The fresh copy, terminator included. *)
Definition strdup (m : list Z) (s : Z) : outcome (list Z) :=
  len ← strlen m s;
  Ret (take (Z.to_nat len) (drop (Z.to_nat s) m) ++ [0]).

(** The swaps of [reverse] from positions [i] and [j] of the string at [s]. *)
Fixpoint reverse_loop (fuel : nat) (m : list Z) (s i j : Z) : outcome (list Z) :=
  match fuel with
  | O => NoFuel
  | S f =>
      if i <? j then
        a ← load m (s + i);
        b ← load m (s + j);
        m1 ← store m (s + i) b;
        m2 ← store m1 (s + j) a;
        reverse_loop f m2 s (i + 1) (j - 1)
      else Ret m
  end.

Definition reverse (m : list Z) (s : Z) : outcome (list Z) :=
  len ← strlen m s;
  reverse_loop (mem_fuel m) m s 0 (len - 1).

(** ** UTF-16 *)

Definition utf16_strlen (src : list Z) : outcome Z := strlen src 0.

(** The loop never moves [src]. *)
Fixpoint utf16_iconv_ascii (fuel : nat) (dest src : list Z) (d count : Z) : outcome (Z * list Z) :=
  match fuel with
  | O => NoFuel
  | S f =>
      c ← load src 0;
      if c =? 0 then Ret (count, dest)
      else if c <=? 127 then
        dest' ← store dest d (Z.land c 0xFF);
        utf16_iconv_ascii f dest' src (d + 1) (count + 1)
      else utf16_iconv_ascii f dest src d count
  end.

Fixpoint utf16_iconvn_ascii (n : nat) (dest src : list Z) (d s count : Z)
    : outcome (Z * list Z) :=
  match n with
  | O => Ret (count, dest)
  | S n' =>
      c ← load src s;
      if c <=? 127 then
        dest' ← store dest d (Z.land c 0xFF);
        utf16_iconvn_ascii n' dest' src (d + 1) (s + 1) (count + 1)
      else utf16_iconvn_ascii n' dest src d s count
  end.

(** ** strtol *)

(** A character of the string at [s] as [int]. *)
Definition char_at (m : list Z) (s : Z) : outcome Z := c ← load m s; Ret (schar c).

(** [do c = *s++; while (c == ' ')]: the character and the position after it. *)
Fixpoint skip_blanks (fuel : nat) (m : list Z) (s : Z) : outcome (Z * Z) :=
  match fuel with
  | O => NoFuel
  | S f =>
      c ← char_at m s;
      if c =? 32 then skip_blanks f m (s + 1) else Ret (c, s + 1)
  end.

(** The digit a character stands for; [None] ends the number. *)
Definition digit_of (c base : Z) : option Z :=
  let d :=
    if isdigit c then Some (c - 48)
    else if isupper c || islower c then Some (c - (if isupper c then 55 else 87))
    else None in
  match d with Some v => if base <=? v then None else Some v | None => None end.

Record acc_t := mk_acc { acc : Z; any : Z }.

(** One digit: accumulate, or remember the overflow. *)
Definition push_digit (base cutoff cutlim : Z) (a : acc_t) (c : Z) : acc_t :=
  if (any a <? 0) || (cutoff <? acc a) || ((acc a =? cutoff) && (cutlim <? c))
  then mk_acc (acc a) (-1)
  else mk_acc (u64 (u64 (acc a * base) + c)) 1.

(** The digit loop at character [c], read at [s - 1]; the final position is
    the one after the character that ended it. *)
Fixpoint digit_loop (fuel : nat) (m : list Z) (base cutoff cutlim c s : Z) (a : acc_t)
    : outcome (acc_t * Z) :=
  match fuel with
  | O => NoFuel
  | S f =>
      match digit_of c base with
      | None => Ret (a, s)
      | Some v =>
          c' ← char_at m s;
          digit_loop f m base cutoff cutlim c' (s + 1) (push_digit base cutoff cutlim a v)
      end
  end.

Definition LONG_MAX : Z := 2 ^ 63 - 1.
Definition LONG_MIN : Z := - 2 ^ 63.

(** The sign, and the character and position after it. *)
Definition take_sign (m : list Z) (c s : Z) : outcome (bool * Z * Z) :=
  if c =? 45 then c' ← char_at m s; Ret (true, c', s + 1)
  else if c =? 43 then c' ← char_at m s; Ret (false, c', s + 1)
  else Ret (false, c, s).

(** The [0x] of base 0 or 16, and the base a leading zero selects. *)
Definition take_prefix (m : list Z) (base c s : Z) : outcome (Z * Z * Z) :=
  '(base, c, s) ←
    (if ((base =? 0) || (base =? 16)) && (c =? 48) then
       x ← char_at m s;
       if (x =? 120) || (x =? 88) then c' ← char_at m (s + 1); Ret (16, c', s + 2)
       else Ret (base, c, s)
     else Ret (base, c, s));
  Ret (if base =? 0 then (if c =? 48 then 8 else 10) else base, c, s).

(** The digits, and the value and end pointer they give. *)
Definition take_digits (m : list Z) (nptr : Z) (neg : bool) (base c s : Z) : outcome (Z * Z) :=
  let limit := if neg then 2 ^ 63 else LONG_MAX in
  '(a, s') ← digit_loop (mem_fuel m) m base (limit / base) (limit mod base) c s (mk_acc 0 0);
  let v :=
    if any a <? 0 then (if neg then LONG_MIN else LONG_MAX)
    else if neg then sint 64 (- acc a) else sint 64 (acc a) in
  Ret (v, if any a =? 0 then nptr else s' - 1).

(** The value and the end pointer. *)
Definition strtol (m : list Z) (nptr base : Z) : outcome (Z * Z) :=
  '(c0, s0) ← skip_blanks (mem_fuel m) m nptr;
  '(neg, c1, s1) ← take_sign m c0 s0;
  '(base, c2, s2) ← take_prefix m base c1 s1;
  take_digits m nptr neg base c2 s2.

(** ** Copying *)

(** [m'] is [m] with [n] bytes from [s] placed at [d]. *)
Definition copied (m m' : list Z) (d s n : Z) : Prop :=
  length m' = length m /\
  forall j, 0 <= j -> m' !! Z.to_nat j =
    if (d <=? j) && (j <? d + n) then m !! Z.to_nat (s + (j - d)) else m !! Z.to_nat j.

Lemma lookup_store_z (m : list Z) (i v j : Z) : 0 <= i < Z.of_nat (length m) -> 0 <= j ->
  <[Z.to_nat i := v]> m !! Z.to_nat j = if j =? i then Some v else m !! Z.to_nat j.
Proof.
  intros Hi Hj. destruct (Z.eqb_spec j i) as [->|Hne].
  - by rewrite list_lookup_insert_eq by lia.
  - by rewrite list_lookup_insert_ne by lia.
Qed.

Lemma copy_up_spec k : forall m d s,
  0 <= d -> 0 <= s -> d + Z.of_nat k <= Z.of_nat (length m) ->
  s + Z.of_nat k <= Z.of_nat (length m) -> (d <= s \/ s + Z.of_nat k <= d) ->
  exists m', copy_up k m d s = Ret m' /\ copied m m' d s (Z.of_nat k).
Proof.
  induction k as [|k IH]; intros m d s Hd Hs Hdl Hsl Hov; simpl.
  - exists m. split; [done|]. split; [done|]. intros j Hj. zcases.
  - destruct (load_in_range m s) as (c & -> & Hc); [lia|]. simpl.
    rewrite store_in_range by lia. simpl.
    destruct (IH (<[Z.to_nat d:=c]> m) (d + 1) (s + 1)) as (m' & -> & Hl & Hm');
      rewrite ?length_insert; try lia.
    exists m'. split; [done|]. rewrite length_insert in Hl. split; [done|]. intros j Hj.
    rewrite Hm' by done. replace (s + 1 + (j - (d + 1))) with (s + (j - d)) by lia.
    rewrite (lookup_store_z _ _ _ j) by lia.
    destruct (Z.eq_dec j d) as [->|].
    + replace (s + (d - d)) with s by lia. rewrite Hc. zcases.
    + zcases. rewrite lookup_store_z by lia. zcases.
Qed.

Lemma copy_down_spec k : forall m d s,
  Z.of_nat k <= d + 1 -> Z.of_nat k <= s + 1 -> d < Z.of_nat (length m) ->
  s < Z.of_nat (length m) -> s <= d ->
  exists m', copy_down k m d s = Ret m' /\
    copied m m' (d - Z.of_nat k + 1) (s - Z.of_nat k + 1) (Z.of_nat k).
Proof.
  induction k as [|k IH]; intros m d s Hd Hs Hdl Hsl Hov; simpl.
  - exists m. split; [done|]. split; [done|]. intros j Hj. zcases.
  - destruct (load_in_range m s) as (c & -> & Hc); [lia|]. simpl.
    rewrite store_in_range by lia. simpl.
    destruct (IH (<[Z.to_nat d:=c]> m) (d - 1) (s - 1)) as (m' & -> & Hl & Hm');
      rewrite ?length_insert; try lia.
    exists m'. split; [done|]. rewrite length_insert in Hl. split; [done|]. intros j Hj.
    rewrite Hm' by done.
    replace (d - 1 - Z.of_nat k + 1) with (d - Z.of_nat (S k) + 1) by lia.
    replace (s - 1 - Z.of_nat k + 1) with (s - Z.of_nat (S k) + 1) by lia.
    rewrite (lookup_store_z _ _ _ j) by lia. destruct (Z.eq_dec j d) as [->|].
    + replace (s - Z.of_nat (S k) + 1 + (d - (d - Z.of_nat (S k) + 1))) with s by lia.
      rewrite Hc. zcases.
    + zcases. rewrite lookup_store_z by lia. zcases.
Qed.

(** C39. [memmove] on any two in-range regions, overlapping or not, leaves the
    destination holding what the source held before the call and every other
    byte of memory as it was. *)
Theorem memmove_correct (m : list Z) (d s len : Z)
    (Hd : 0 <= d /\ d + len <= Z.of_nat (length m))
    (Hs : 0 <= s /\ s + len <= Z.of_nat (length m)) (Hlen : 0 <= len) :
  exists m', memmove m d s len = Ret m' /\ copied m m' d s len.
Proof.
  unfold memmove. case_test; zbool.
  - exists m. split; [done|]. split; [done|]. intros j Hj. zcases.
  - case_test; zbool.
    + destruct (copy_up_spec (Z.to_nat len) m d s) as (m' & E & Hc); try lia.
      exists m'. rewrite Z2Nat.id in Hc by lia. done.
    + destruct (copy_down_spec (Z.to_nat len) m (d + (len - 1)) (s + (len - 1)))
        as (m' & E & Hc); try lia.
      exists m'. split; [done|]. rewrite Z2Nat.id in Hc by lia.
      replace (d + (len - 1) - len + 1) with d in Hc by lia.
      by replace (s + (len - 1) - len + 1) with s in Hc by lia.
Qed.

Lemma memmove_correct_witness :
  exists m', memmove [1; 2; 3; 4; 5] 1 0 4 = Ret m' /\ m' = [1; 1; 2; 3; 4] /\
    copied [1; 2; 3; 4; 5] m' 1 0 4.
Proof.
  destruct (memmove_correct [1; 2; 3; 4; 5] 1 0 4) as (m' & E & Hc).
  - simpl; lia.
  - simpl; lia.
  - lia.
  - exists m'. split; [exact E|]. split; [vm_compute in E; congruence|exact Hc].
Defined.

(** ** Numbers *)

(** The digits of a text, most significant first, as a number. *)
Definition value (base : Z) (ds : list Z) : Z := fold_left (fun v d => v * base + d) ds 0.

Definition digits_of (base : Z) (cs ds : list Z) : Prop :=
  Forall2 (fun c d => digit_of (schar c) base = Some d) cs ds.

(** [value] clamped to the range of [long]. *)
Definition clamp (neg : bool) (v : Z) : Z :=
  if neg then Z.max LONG_MIN (- v) else Z.min LONG_MAX v.

Lemma digit_of_range c base d : digit_of c base = Some d -> 0 <= d < base.
Proof.
  unfold digit_of, isdigit, isupper, islower. intros H.
  destruct ((48 <=? c) && (c <=? 57)) eqn:E1.
  - destruct (base <=? c - 48) eqn:E2; [done|]. injection H as <-. zbool. lia.
  - destruct ((65 <=? c) && (c <=? 90)) eqn:E2; simpl in H;
      [|destruct ((97 <=? c) && (c <=? 122)) eqn:E3; [|done]]; case_test; try done;
      injection H as <-; zbool; lia.
Qed.

Lemma digit_of_not_sign c base d :
  digit_of c base = Some d -> c <> 32 /\ c <> 45 /\ c <> 43.
Proof.
  intros H. repeat split; intros ->; vm_compute in H; discriminate H.
Qed.

Lemma char_at_app pre c rest : char_at (pre ++ c :: rest) (Z.of_nat (length pre)) = Ret (schar c).
Proof.
  unfold char_at. assert (load (pre ++ c :: rest) (Z.of_nat (length pre)) = Ret c) as ->; [|done].
  apply load_Some. split; [lia|]. by rewrite Nat2Z.id, list_lookup_middle.
Qed.

(** The accumulator after a prefix of value [v]: the value itself while it is
    within [limit], the overflow mark from then on. *)
Definition acc_ok (limit v : Z) (a : acc_t) : Prop :=
  (any a = -1 /\ limit < v) \/ (any a <> -1 /\ 0 <= any a /\ acc a = v /\ v <= limit).

Lemma push_digit_ok base limit v a d :
  2 <= base <= 36 -> 0 <= limit <= 2 ^ 63 -> 0 <= v -> 0 <= d < base -> acc_ok limit v a ->
  acc_ok limit (v * base + d) (push_digit base (limit / base) (limit mod base) a d) /\
  any (push_digit base (limit / base) (limit mod base) a d) <> 0.
Proof.
  intros Hb Hl Hv Hd Ha. unfold push_digit.
  pose proof (Z.div_mod limit base ltac:(lia)) as Hdm.
  pose proof (Z.mod_pos_bound limit base ltac:(lia)) as Hm.
  destruct Ha as [[Hany Hlt]|(Hany & Hany0 & Hacc & Hle)].
  - rewrite Hany. simpl. split; [left; split; [done|nia]|done].
  - rewrite Hacc. case_test; split; simpl; try done.
    + left. split; [done|]. rewrite !orb_true_iff, andb_true_iff in Heqb.
      destruct Heqb as [[H|H]|[H1 H2]]; zbool; nia.
    + right. zbool. apply andb_false_iff in H0. assert (v * base + d <= limit) by
        (destruct H0; zbool; nia).
      rewrite (wrap_small 64 (v * base)), wrap_small by (unfold fits; nia). simpl. lia.
Qed.

Lemma digit_loop_spec base limit t : forall cs ds c d pre rest a v fuel,
  2 <= base <= 36 -> 0 <= limit <= 2 ^ 63 -> digit_of (schar t) base = None ->
  digits_of base (c :: cs) (d :: ds) -> 0 <= v -> acc_ok limit v a ->
  (length cs + 1 < fuel)%nat ->
  exists a', digit_loop fuel (pre ++ (c :: cs) ++ t :: rest) base (limit / base) (limit mod base)
      (schar c) (Z.of_nat (length pre) + 1) a
    = Ret (a', Z.of_nat (length pre) + Z.of_nat (length cs) + 2) /\
    acc_ok limit (fold_left (fun v d => v * base + d) (d :: ds) v) a' /\ any a' <> 0.
Proof.
  induction cs as [|c' cs IH]; intros ds c d pre rest a v fuel Hb Hl Ht Hds Hv Ha Hf;
    apply Forall2_cons_1 in Hds as [Hc Hds]; destruct fuel as [|fuel]; try lia;
    cbn [digit_loop]; rewrite Hc.
  - apply Forall2_nil_inv_l in Hds as ->. simpl app.
    replace (pre ++ c :: t :: rest) with ((pre ++ [c]) ++ t :: rest) by by rewrite <- app_assoc.
    pose proof (char_at_app (pre ++ [c]) t rest) as E. rewrite length_app in E. simpl in E.
    replace (Z.of_nat (length pre + 1)) with (Z.of_nat (length pre) + 1) in E by lia.
    rewrite E. simpl. destruct fuel as [|fuel]; [simpl in Hf; lia|]. cbn [digit_loop]. rewrite Ht.
    eexists. split; [f_equal; f_equal; lia|].
    by apply push_digit_ok; try done; eapply digit_of_range.
  - destruct ds as [|d' ds]; [by inversion Hds|].
    replace (pre ++ (c :: c' :: cs) ++ t :: rest) with ((pre ++ [c]) ++ (c' :: cs) ++ t :: rest)
      by by rewrite <- app_assoc.
    pose proof (char_at_app (pre ++ [c]) c' (cs ++ t :: rest)) as E.
    rewrite length_app in E. simpl in E.
    replace (Z.of_nat (length pre + 1)) with (Z.of_nat (length pre) + 1) in E by lia.
    simpl app in E |- *. rewrite E. simpl.
    pose proof (digit_of_range _ _ _ Hc) as Hd.
    destruct (push_digit_ok base limit v a d Hb Hl Hv Hd Ha) as [Ha' _].
    destruct (IH ds c' d' (pre ++ [c]) rest _ (v * base + d) fuel Hb Hl Ht Hds ltac:(nia) Ha')
      as (a' & E' & Hres); [simpl in Hf; lia|].
    rewrite length_app in E'. simpl in E'.
    replace (Z.of_nat (length pre + 1) + 1) with (Z.of_nat (length pre) + 1 + 1) in E' by lia.
    exists a'. rewrite E'. split; [f_equal; f_equal; lia|]. exact Hres.
Qed.

(** A sign of [strtol], with whether it negates. *)
Inductive sign_text : list Z -> bool -> Prop :=
  | sign_none : sign_text [] false
  | sign_plus : sign_text [43] false
  | sign_minus : sign_text [45] true.

Lemma acc_result neg limit v a :
  limit = (if neg : bool then 2 ^ 63 else LONG_MAX) -> 0 <= v -> acc_ok limit v a ->
  (if any a <? 0 then (if neg then LONG_MIN else LONG_MAX)
   else if neg then sint 64 (- acc a) else sint 64 (acc a)) = clamp neg v.
Proof.
  unfold LONG_MAX, LONG_MIN. intros -> Hv [[Hany Hlt]|(_ & Hany & Hacc & Hle)]; unfold clamp.
  - rewrite Hany. simpl. destruct neg; unfold LONG_MAX, LONG_MIN in *; lia.
  - rewrite (proj2 (Z.ltb_ge _ _)), Hacc by lia. unfold sint, LONG_MAX, LONG_MIN in *.
    change (2 ^ (64 - 1)) with (2 ^ 63). destruct neg.
    + destruct (Z.eq_dec v 0) as [->|]; [done|].
      assert (E : u64 (- v) = 2 ^ 64 - v).
      { unfold wrap. rewrite <- (Z.mod_add (- v) 1), Z.mod_small by lia. lia. }
      rewrite E, (proj2 (Z.ltb_ge _ _)) by lia. lia.
    + rewrite wrap_small by (unfold fits; lia). rewrite (proj2 (Z.ltb_lt _ _)) by lia. lia.
Qed.

Lemma fold_nonneg base ds : forall v,
  0 <= base -> Forall (fun d => 0 <= d) ds -> 0 <= v ->
  0 <= fold_left (fun v d => v * base + d) ds v.
Proof.
  induction ds as [|d ds IH]; intros v Hb Hds Hv; simpl; [done|].
  apply Forall_cons in Hds as [? ?]. apply IH; [done|done|nia].
Qed.

Lemma value_nonneg base ds : 0 <= base -> Forall (fun d => 0 <= d) ds -> 0 <= value base ds.
Proof. intros. apply fold_nonneg; done || lia. Qed.

Lemma take_digits_spec pre base c cs d ds t rest nptr neg :
  2 <= base <= 36 -> digit_of (schar t) base = None -> digits_of base (c :: cs) (d :: ds) ->
  take_digits (pre ++ (c :: cs) ++ t :: rest) nptr neg base (schar c) (Z.of_nat (length pre) + 1) =
  Ret (clamp neg (value base (d :: ds)), Z.of_nat (length pre) + Z.of_nat (length (c :: cs))).
Proof.
  intros Hb Ht Hds. unfold take_digits. set (limit := if neg then 2 ^ 63 else LONG_MAX).
  assert (Hl : 0 <= limit <= 2 ^ 63) by (subst limit; unfold LONG_MAX; destruct neg; lia).
  set (m := pre ++ (c :: cs) ++ t :: rest).
  destruct (digit_loop_spec base limit t cs ds c d pre rest (mk_acc 0 0) 0 (mem_fuel m))
    as (a & E & Ha & Hany); try done.
  { right. simpl. lia. }
  { unfold mem_fuel, m. rewrite !length_app. simpl. lia. }
  fold m in E. rewrite E. simpl mbind. rewrite (proj2 (Z.eqb_neq (any a) 0)) by done.
  rewrite (acc_result neg limit (value base (d :: ds))); [|done| |done].
  - do 2 f_equal. simpl length. lia.
  - apply value_nonneg; [lia|]. clear -Hds.
    induction Hds; constructor; [|done]. apply digit_of_range in H. lia.
Qed.

(** Blanks and sign: what is left is the first digit, the position after it. *)
Lemma skip_sign pre sign neg c rest base d :
  sign_text sign neg -> digit_of (schar c) base = Some d ->
  let m := pre ++ sign ++ c :: rest in
  ('(c0, s0) ← skip_blanks (mem_fuel m) m (Z.of_nat (length pre)); take_sign m c0 s0) =
  Ret (neg, schar c, Z.of_nat (length (pre ++ sign)) + 1).
Proof.
  intros Hsign Hc m. destruct (digit_of_not_sign _ _ _ Hc) as (Hc1 & Hc2 & Hc3).
  destruct Hsign; subst m; unfold mem_fuel; cbn [skip_blanks app]; rewrite char_at_app;
    simpl mbind; cbv iota beta.
  - rewrite (proj2 (Z.eqb_neq (schar c) 32)) by done. simpl mbind. cbv iota beta. unfold take_sign.
    rewrite (proj2 (Z.eqb_neq (schar c) 45)), (proj2 (Z.eqb_neq (schar c) 43)), app_nil_r by done.
    done.
  - pose proof (char_at_app (pre ++ [43]) c rest) as E. rewrite <- app_assoc in E.
    rewrite length_app in *. unfold take_sign. simpl in *.
    replace (Z.of_nat (length pre + 1)) with (Z.of_nat (length pre) + 1) in * by lia.
    by rewrite E.
  - pose proof (char_at_app (pre ++ [45]) c rest) as E. rewrite <- app_assoc in E.
    rewrite length_app in *. unfold take_sign. simpl in *.
    replace (Z.of_nat (length pre + 1)) with (Z.of_nat (length pre) + 1) in * by lia.
    by rewrite E.
Qed.

Lemma strtol_text pre sign cs ds rest base t neg :
  2 <= base <= 36 -> base <> 16 -> sign_text sign neg -> cs <> [] -> digits_of base cs ds ->
  digit_of (schar t) base = None ->
  strtol (pre ++ sign ++ cs ++ t :: rest) (Z.of_nat (length pre)) base =
  Ret (clamp neg (value base ds), Z.of_nat (length (pre ++ sign)) + Z.of_nat (length cs)).
Proof.
  intros Hb H16 Hsign Hne Hds Ht.
  destruct cs as [|c cs]; [done|]. destruct ds as [|d ds]; [by inversion Hds|].
  assert (Hc : digit_of (schar c) base = Some d) by by inversion Hds.
  pose proof (skip_sign pre sign neg c (cs ++ t :: rest) base d Hsign Hc) as Hs. cbv zeta in Hs.
  apply bind_Ret in Hs as ([c0 s0] & E1 & E2). unfold strtol.
  replace (pre ++ sign ++ (c :: cs) ++ t :: rest) with (pre ++ sign ++ c :: cs ++ t :: rest) by done.
  rewrite E1. simpl mbind. cbv iota beta. rewrite E2. simpl mbind. cbv iota beta.
  unfold take_prefix. rewrite (proj2 (Z.eqb_neq base 16)), (proj2 (Z.eqb_neq base 0)) by lia.
  simpl mbind. cbv iota beta. rewrite (proj2 (Z.eqb_neq base 0)) by lia.
  rewrite app_assoc. by apply (take_digits_spec (pre ++ sign) base c cs d ds t rest).
Qed.

(** [strtol] with an explicit base other than 16 (and other than the
    detecting base 0) on an optional sign and a non-empty run of digits of
    that base, followed by a character that is none, returns the number
    denoted, clamped to the range of [long], and the position after the
    digits. *)
Theorem strtol_value (pre sign cs ds rest : list Z) (base t : Z) (neg : bool)
    (Hb : 2 <= base <= 36) (H16 : base <> 16) (Hsign : sign_text sign neg) (Hne : cs <> [])
    (Hds : digits_of base cs ds) (Ht : digit_of (schar t) base = None) :
  strtol (pre ++ sign ++ cs ++ t :: rest) (Z.of_nat (length pre)) base =
  Ret (clamp neg (value base ds), Z.of_nat (length (pre ++ sign)) + Z.of_nat (length cs)).
Proof. by apply strtol_text. Qed.

(** The text [-128,] at position 2. *)
Lemma strtol_value_witness :
  strtol ([120; 61] ++ [45] ++ [49; 50; 56] ++ 44 :: []) 2 10 =
    Ret (clamp true (value 10 [1; 2; 8]), 6) /\ clamp true (value 10 [1; 2; 8]) = -128.
Proof.
  split; [|reflexivity].
  apply (strtol_value [120; 61] [45] [49; 50; 56] [1; 2; 8] [] 10 44 true).
  - lia.
  - lia.
  - constructor.
  - discriminate.
  - repeat constructor.
  - reflexivity.
Defined.
