(* ===== verification/Path.v ===== *)
(** * kernel/vfs/path.c: paths as views of strings

    A path is a window on a string that it does not own.  The operations move
    the window; the theorems relate the characters seen through it to plain
    list functions: stripping, base and directory name, and the iteration over
    the components between slashes. *)

From S2P Require Import Prelude CString.
From Stdlib Require Import String.
From stdpp Require Import list.
Local Open Scope Z_scope.

Definition SLASH : Z := 47.
Definition DOT : Z := 46.

(** ** State *)

(** [p_str] is the memory [storage.str] points to, [None] for NULL. *)
Record path_t := mk_path {
  p_str : option (list Z);
  p_slen : Z;
  p_off : Z;
  p_len : Z;
  p_orig_len : Z;
  p_valid : bool;
}.

Definition MAX_PATH_LEN : Z := 65535.

Abbreviation NULL_PATH := (mk_path None 0 0 0 0 false).
Abbreviation SLASH_PATH := (mk_path (Some (bytes "/")) 1 0 1 0 false).
Abbreviation DOT_PATH := (mk_path (Some (bytes ".")) 1 0 1 0 false).

Definition with_view (p : path_t) (off len : Z) : path_t :=
  mk_path (p_str p) (p_slen p) off len (p_orig_len p) (p_valid p).
Definition with_iter (p : path_t) (orig_len : Z) : path_t :=
  mk_path (p_str p) (p_slen p) (p_off p) (p_len p) orig_len true.

Definition path_len (p : path_t) : Z := p_len p.
Definition path_is_null (p : path_t) : bool := path_len p =? 0.

(** [path_start(path)[i]]. *)
Definition path_char (p : path_t) (i : Z) : outcome Z :=
  match p_str p with
  | Some s => load s (p_off p + i)
  | None => Fault
  end.

Definition path_first_char (p : path_t) : outcome Z :=
  if path_len p =? 0 then Ret 0 else path_char p 0.

Definition path_is_slash (p : path_t) : outcome bool :=
  if path_len p =? 1 then c ← path_char p 0; Ret (c =? SLASH) else Ret false.
Definition path_is_dot (p : path_t) : outcome bool :=
  if path_len p =? 1 then c ← path_char p 0; Ret (c =? DOT) else Ret false.
Definition path_is_dotdot (p : path_t) : outcome bool :=
  if path_len p =? 2 then
    c ← path_char p 0;
    if c =? DOT then c ← path_char p 1; Ret (c =? DOT) else Ret false
  else Ret false.
Definition path_is_special (p : path_t) : outcome bool :=
  a ← path_is_slash p;
  if (a : bool) then Ret true
  else b ← path_is_dot p; if (b : bool) then Ret true else path_is_dotdot p.
Definition path_is_absolute (p : path_t) : outcome bool :=
  if path_len p =? 0 then Ret false else c ← path_char p 0; Ret (c =? SLASH).
Definition path_is_relative (p : path_t) : outcome bool := negb <$> path_is_absolute p.

(** ** Construction and copying *)

Definition path_new (str : option (list Z)) (len : Z) : path_t :=
  match str with
  | None => NULL_PATH
  | Some _ =>
      if len =? 0 then NULL_PATH
      else
        let len := if MAX_PATH_LEN <? len then MAX_PATH_LEN else len in
        mk_path str len 0 len 0 false
  end.

Definition path_make (str : option (list Z)) : outcome path_t :=
  match str with
  | None => Ret NULL_PATH
  | Some s =>
      len ← strlen s 0;
      _ ← kassert (len <=? MAX_PATH_LEN);
      Ret (path_new str len)
  end.

(** [n] bytes from [path_start]. *)
Definition path_read (p : path_t) (n : Z) : outcome (list Z) :=
  match p_str p with
  | Some s =>
      if p_off p + n <=? Z.of_nat (length s)
      then Ret (take (Z.to_nat n) (drop (Z.to_nat (p_off p)) s))
      else Fault
  | None => if n =? 0 then Ret [] else Fault
  end.

(** The fresh string, with its terminator; [None] is NULL. *)
Definition path2str (p : path_t) : outcome (option (list Z)) :=
  if path_is_null p then Ret None
  else s ← path_read p (path_len p); Ret (Some (s ++ [0])).

(** [path_copy]: the count and the new contents of [dest]. *)
Definition path_copy (dest : list Z) (size : Z) (p : path_t) : outcome (Z * list Z) :=
  if path_is_null p || (size =? 0) then Ret (0, dest)
  else
    let len := Z.min (size - 1) (path_len p) in
    s ← path_read p len;
    if len + 1 <=? Z.of_nat (length dest)
    then Ret (len, s ++ [0] ++ drop (Z.to_nat (len + 1)) dest)
    else Fault.

(** ** Comparison *)

(** [memcmp(a, b, n) == 0] on two runs of [n] bytes. *)
Definition bytes_eq (a b : list Z) : bool := bool_decide (a = b).

Definition path_eq (p q : path_t) : outcome bool :=
  if negb (path_len p =? path_len q) then Ret false
  else a ← path_read p (path_len p); b ← path_read q (path_len p); Ret (bytes_eq a b).

Definition path_eq_charp (p : path_t) (str : option (list Z)) : outcome bool :=
  if path_is_null p then Ret (bool_decide (str = None))
  else
    match str with
    | None => Fault
    | Some s =>
        len ← strlen s 0;
        if negb (path_len p =? len) then Ret false
        else a ← path_read p len; Ret (bytes_eq a (take (Z.to_nat len) s))
    end.

Definition path_eq_charpn (p : path_t) (str : option (list Z)) (len : Z) : outcome bool :=
  if path_is_null p then Ret (bool_decide (str = None) && (len =? 0))
  else if negb (path_len p =? len) then Ret false
  else
    match str with
    | None => Fault
    | Some s =>
        a ← path_read p len;
        if len <=? Z.of_nat (length s) then Ret (bytes_eq a (take (Z.to_nat len) s)) else Fault
    end.

Fixpoint count_loop (k : nat) (p : path_t) (i c : Z) : outcome Z :=
  match k with
  | O => Ret 0
  | S k' =>
      x ← path_char p i;
      n ← count_loop k' p (i + 1) c;
      Ret (n + if x =? c then 1 else 0)
  end.

Definition path_count_char (p : path_t) (c : Z) : outcome Z :=
  count_loop (Z.to_nat (path_len p)) p 0 c.

(** The common prefix loop, from position [i] with [a] and [b] characters left:
    [None] at a difference, else the position where a path ended. *)
Fixpoint prefix_loop (k : nat) (p q : path_t) (i : Z) : outcome (option Z) :=
  match k with
  | O => Ret (Some i)
  | S k' =>
      a ← path_char p i;
      b ← path_char q i;
      if a =? b then prefix_loop k' p q (i + 1) else Ret None
  end.

Definition path_is_subpath (p q : path_t) : outcome bool :=
  if path_is_null p || path_is_null q then Ret false
  else
    r ← prefix_loop (Z.to_nat (Z.min (path_len p) (path_len q))) p q 0;
    match r with
    | None => Ret false
    | Some i =>
        if i =? path_len p then
          if i =? path_len q then Ret true else c ← path_char q i; Ret (c =? SLASH)
        else c ← path_char p i; Ret (c =? SLASH)
    end.

(** ** Moving the window *)

Definition path_drop_first (p : path_t) : path_t :=
  if 0 <? path_len p
  then mk_path (p_str p) (p_slen p) (u16 (p_off p + 1)) (path_len p - 1) 0 false
  else mk_path (p_str p) (p_slen p) (p_off p) (path_len p) 0 false.

(** [path.view.off++; path.view.len--]. *)
Definition advance (p : path_t) : path_t :=
  with_view p (u16 (p_off p + 1)) (u16 (p_len p - 1)).
Definition shorten (p : path_t) : path_t :=
  with_view p (p_off p) (u16 (p_len p - 1)).

(** Drops leading characters while [keep] is false of them. *)
Fixpoint lead_loop (k : nat) (p : path_t) (stop : Z -> bool) : outcome path_t :=
  match k with
  | O => Ret p
  | S k' =>
      x ← path_char p 0;
      if stop x then Ret p else lead_loop k' (advance p) stop
  end.

Fixpoint trail_loop (k : nat) (p : path_t) (stop : Z -> bool) : outcome path_t :=
  match k with
  | O => Ret p
  | S k' =>
      x ← path_char p (p_len p - 1);
      if stop x then Ret p else trail_loop k' (shorten p) stop
  end.

Definition path_strip_leading (p : path_t) (c : Z) : outcome path_t :=
  lead_loop (Z.to_nat (path_len p)) p (fun x => negb (x =? c)).
Definition path_strip_trailing (p : path_t) (c : Z) : outcome path_t :=
  trail_loop (Z.to_nat (path_len p)) p (fun x => negb (x =? c)).
Definition path_remove_until (p : path_t) (c : Z) : outcome path_t :=
  lead_loop (Z.to_nat (path_len p)) p (fun x => x =? c).
Definition path_remove_until_reverse (p : path_t) (c : Z) : outcome path_t :=
  trail_loop (Z.to_nat (path_len p)) p (fun x => x =? c).

(** ** Base and directory name *)

(** [while (path_first_char(path) == '/')]. *)
Fixpoint drop_slashes (fuel : nat) (p : path_t) (slashes : Z) : outcome (path_t * Z) :=
  match fuel with
  | O => NoFuel
  | S f =>
      c ← path_first_char p;
      if c =? SLASH then drop_slashes f (path_drop_first p) (slashes - 1) else Ret (p, slashes)
  end.

Fixpoint basename_loop (fuel : nat) (p : path_t) (slashes : Z) : outcome path_t :=
  match fuel with
  | O => NoFuel
  | S f =>
      if (0 <? slashes) && (0 <? path_len p) then
        p1 ← path_remove_until p SLASH;
        '(p2, slashes') ← drop_slashes (S (Z.to_nat (path_len p1))) p1 slashes;
        basename_loop f p2 slashes'
      else Ret p
  end.

Definition path_basename (p : path_t) : outcome path_t :=
  if path_is_null p then Ret DOT_PATH
  else
    p1 ← path_strip_trailing p SLASH;
    slashes ← path_count_char p1 SLASH;
    if path_len p1 =? 0 then Ret SLASH_PATH
    else if slashes =? 0 then Ret p1
    else basename_loop (S (Z.to_nat (path_len p1))) p1 slashes.

Definition path_dirname (p : path_t) : outcome path_t :=
  if path_is_null p then Ret DOT_PATH
  else
    p1 ← path_strip_trailing p SLASH;
    slashes ← path_count_char p1 SLASH;
    if path_len p1 =? 0 then Ret SLASH_PATH
    else if slashes =? 0 then Ret DOT_PATH
    else
      p2 ← path_remove_until_reverse p1 SLASH;
      p3 ← path_strip_trailing p2 SLASH;
      if path_is_null p3 then Ret SLASH_PATH else Ret p3.

(** ** Iteration *)

(** The part that starts after the leading slashes of the view. *)
Definition part_of (p : path_t) : outcome path_t :=
  p1 ← path_strip_leading p SLASH;
  p2 ← path_remove_until p1 SLASH;
  Ret (with_view p1 (p_off p1) (u16 (p_off p2 - p_off p1))).

Definition path_next_part (p : path_t) : outcome path_t :=
  if path_is_null p then Ret p
  else if negb (p_valid p) then part_of (with_view (with_iter p (p_len p)) 0 (p_slen p))
  else
    let off := u16 (p_off p + p_len p) in
    part_of (with_view p off (u16 (p_orig_len p - off))).

Definition path_iter_end (p : path_t) : outcome bool := path_is_null <$> path_next_part p.

(** ** The characters of a path *)

(** The characters the window shows. *)
Definition view (p : path_t) : list Z :=
  match p_str p with
  | Some s => take (Z.to_nat (p_len p)) (drop (Z.to_nat (p_off p)) s)
  | None => []
  end.

(** The window lies inside the string, whose length fits 16 bits. *)
Record wf (p : path_t) (s : list Z) : Prop := {
  wf_str : p_str p = Some s;
  wf_bounds : 0 <= p_off p /\ 0 <= p_len p /\ p_off p + p_len p <= p_slen p;
  wf_slen : p_slen p <= MAX_PATH_LEN /\ p_slen p <= Z.of_nat (length s);
}.

(** [q] is another window on the string of [p]. *)
Definition same_string (p q : path_t) : Prop :=
  p_str q = p_str p /\ p_slen q = p_slen p /\ p_orig_len q = p_orig_len p /\
  p_valid q = p_valid p.

(** The longest prefix without a stop character, and what follows it. *)
Fixpoint until (stop : Z -> bool) (l : list Z) : list Z :=
  match l with [] => [] | c :: l' => if stop c then [] else c :: until stop l' end.
Fixpoint skip (stop : Z -> bool) (l : list Z) : list Z :=
  match l with [] => [] | c :: l' => if stop c then l else skip stop l' end.

Lemma until_skip stop l : until stop l ++ skip stop l = l.
Proof. induction l as [|c l IH]; simpl; [done|]. case_test; simpl; [done|by f_equal]. Qed.

Lemma view_length p s : wf p s -> Z.of_nat (length (view p)) = p_len p.
Proof.
  intros [Hs Hb Hl]. unfold view. rewrite Hs, length_take, length_drop. lia.
Qed.

Lemma path_char_view p s i :
  wf p s -> 0 <= i < p_len p ->
  exists c, path_char p i = Ret c /\ view p !! Z.to_nat i = Some c.
Proof.
  intros [Hs Hb Hl] Hi. unfold path_char, view. rewrite Hs.
  destruct (load_in_range s (p_off p + i)) as (c & -> & Hc); [lia|]. exists c. split; [done|].
  rewrite lookup_take_lt, lookup_drop by lia. by replace (Z.to_nat (p_off p) + Z.to_nat i)%nat
    with (Z.to_nat (p_off p + i)) by lia.
Qed.

Lemma view_cons p s :
  wf p s -> 0 < p_len p ->
  exists c, path_char p 0 = Ret c /\ view p = c :: view (advance p) /\ wf (advance p) s /\
    p_off (advance p) = p_off p + 1 /\ p_len (advance p) = p_len p - 1.
Proof.
  intros Hwf Hlen. destruct (path_char_view p s 0) as (c & Hc & Hv); [done|lia|].
  pose proof Hwf as [Hs Hb Hl]. unfold MAX_PATH_LEN in Hl. exists c. split; [done|].
  unfold advance, with_view. simpl. rewrite !wrap_small by (unfold fits; lia).
  split; [|split; [split; simpl; done || lia|done]].
  unfold view in *. simpl. rewrite Hs in *.
  destruct (drop (Z.to_nat (p_off p)) s) as [|x r] eqn:E; [by rewrite take_nil in Hv|].
  replace (Z.to_nat (p_len p)) with (S (Z.to_nat (p_len p - 1))) in * by lia.
  simpl in *. injection Hv as ->. f_equal.
  replace (Z.to_nat (p_off p + 1)) with (Z.to_nat (p_off p) + 1)%nat by lia.
  by rewrite <- drop_drop, E.
Qed.

Lemma lead_loop_spec stop k : forall p s,
  wf p s -> Z.of_nat k = p_len p ->
  exists q, lead_loop k p stop = Ret q /\ same_string p q /\ wf q s /\
    view q = skip stop (view p) /\ p_off q + p_len q = p_off p + p_len p /\ p_off p <= p_off q.
Proof.
  induction k as [|k IH]; intros p s Hwf Hk; simpl.
  - exists p. repeat split; try apply Hwf; try lia. pose proof (view_length p s Hwf) as Hv.
    destruct (view p); [done|]. simpl in Hv. lia.
  - destruct (view_cons p s) as (c & -> & Hv & Hwf' & Ho & Hl); [done|lia|]. simpl. rewrite Hv.
    simpl. case_test.
    + exists p. repeat split; done || apply Hwf.
    + destruct (IH (advance p) s) as (q & -> & Hs & Hq & Hvq & Hoq & Hle); [done|lia|].
      exists q. repeat split; try apply Hs; try apply Hq; try done; lia.
Qed.

Lemma view_snoc p s :
  wf p s -> 0 < p_len p ->
  exists c, path_char p (p_len p - 1) = Ret c /\ view p = view (shorten p) ++ [c] /\
    wf (shorten p) s /\ p_len (shorten p) = p_len p - 1.
Proof.
  intros Hwf Hlen. destruct (path_char_view p s (p_len p - 1)) as (c & Hc & Hv); [done|lia|].
  pose proof Hwf as [Hs Hb Hl]. unfold MAX_PATH_LEN in Hl. exists c. split; [done|].
  unfold shorten, with_view. simpl. rewrite !wrap_small by (unfold fits; lia).
  split; [|split; [split; simpl; done || lia|done]].
  unfold view in *. simpl. rewrite Hs in *.
  replace (Z.to_nat (p_len p)) with (S (Z.to_nat (p_len p - 1))) in * by lia.
  rewrite lookup_take_lt in Hv by lia. by apply take_S_r.
Qed.

Lemma trail_loop_spec stop k : forall p s,
  wf p s -> Z.of_nat k = p_len p ->
  exists q, trail_loop k p stop = Ret q /\ same_string p q /\ wf q s /\
    view q = rev (skip stop (rev (view p))) /\ p_off q = p_off p.
Proof.
  induction k as [|k IH]; intros p s Hwf Hk; simpl.
  - exists p. repeat split; try apply Hwf. pose proof (view_length p s Hwf) as Hv.
    destruct (view p); [done|]. simpl in Hv. lia.
  - destruct (view_snoc p s) as (c & -> & Hv & Hwf' & Hl); [done|lia|]. simpl. rewrite Hv.
    rewrite rev_app_distr. simpl. case_test.
    + exists p. repeat split; try done; try apply Hwf. simpl. by rewrite rev_involutive.
    + destruct (IH (shorten p) s) as (q & -> & Hs & Hq & Hvq & Hoq); [done|lia|].
      exists q. repeat split; try apply Hs; try apply Hq; done.
Qed.

(** ** Components *)

(** The pieces between slashes, empty ones included. *)
Fixpoint split_slash (l : list Z) : list (list Z) :=
  match l with
  | [] => [[]]
  | c :: l' =>
      if c =? SLASH then [] :: split_slash l'
      else match split_slash l' with
           | h :: t => (c :: h) :: t
           | [] => [[c]]
           end
  end.

(** The components of a path: the non-empty pieces. *)
Definition components (l : list Z) : list (list Z) := filter (fun x => x <> []) (split_slash l).

Definition is_slash (c : Z) : bool := c =? SLASH.

Lemma split_slash_cons l : exists h t, split_slash l = h :: t.
Proof.
  induction l as [|c l (h & t & E)]; simpl; [by eexists _, _|]. rewrite E.
  case_test; by eexists _, _.
Qed.

Lemma split_slash_until l :
  split_slash l = until is_slash l ::
    match skip is_slash l with [] => [] | _ :: r => split_slash r end.
Proof.
  induction l as [|c l IH]; simpl; [done|]. change (is_slash c) with (c =? SLASH).
  destruct (c =? SLASH); [done|]. by rewrite IH.
Qed.

Lemma components_slash l : components (SLASH :: l) = components l.
Proof. done. Qed.

Lemma components_skip_slashes l :
  components (skip (fun x => negb (is_slash x)) l) = components l.
Proof.
  induction l as [|c l IH]; simpl; [done|].
  destruct (is_slash c) eqn:E; simpl; [|done]. apply Z.eqb_eq in E as ->.
  by rewrite components_slash.
Qed.

Lemma components_part l :
  until is_slash l <> [] ->
  components l = until is_slash l :: components (skip is_slash l).
Proof.
  intros H. unfold components. rewrite split_slash_until, filter_cons_True by done. f_equal.
  destruct (skip is_slash l) as [|c r] eqn:E; [done|].
  assert (c = SLASH) as ->.
  { clear H. induction l as [|x l IH]; simpl in E; [done|].
    destruct (is_slash x) eqn:Ex; [|auto]. injection E as -> _. by apply Z.eqb_eq in Ex. }
  done.
Qed.

Lemma until_nil_skip l :
  until is_slash (skip (fun x => negb (is_slash x)) l) = [] ->
  skip (fun x => negb (is_slash x)) l = [].
Proof.
  induction l as [|c l IH]; simpl; [done|]. destruct (is_slash c) eqn:E; simpl; [done|].
  by rewrite E.
Qed.

(** ** The iteration *)

(** The string from the end of the window on. *)
Definition rest_of (p : path_t) (s : list Z) : list Z :=
  drop (Z.to_nat (p_off p + p_len p)) (take (Z.to_nat (p_slen p)) s).

Lemma part_of_spec p s :
  wf p s -> p_off p + p_len p = p_slen p ->
  exists q, part_of p = Ret q /\ same_string p q /\ wf q s /\
    view q = until is_slash (skip (fun x => negb (is_slash x)) (view p)) /\
    rest_of q s = skip is_slash (skip (fun x => negb (is_slash x)) (view p)).
Proof.
  intros Hwf Hend. unfold part_of, path_strip_leading, path_remove_until.
  destruct (lead_loop_spec (fun x => negb (x =? SLASH)) (Z.to_nat (path_len p)) p s Hwf)
    as (p1 & -> & Hs1 & Hwf1 & Hv1 & Ho1 & Hle1); [unfold path_len; destruct Hwf; lia|]. simpl.
  destruct (lead_loop_spec (fun x => x =? SLASH) (Z.to_nat (path_len p1)) p1 s Hwf1)
    as (p2 & -> & Hs2 & Hwf2 & Hv2 & Ho2 & Hle2); [unfold path_len; destruct Hwf1; lia|]. simpl.
  pose proof Hwf1 as [Hs1' Hb1 Hl1]. pose proof Hwf2 as [_ Hb2 _]. unfold MAX_PATH_LEN in Hl1.
  rewrite wrap_small by (unfold fits; lia).
  assert (Hsplit : view p1 = take (Z.to_nat (p_off p2 - p_off p1)) (view p1) ++ view p2).
  { unfold view. destruct Hs2 as [-> _]. rewrite Hs1'.
    rewrite take_take, Nat.min_l by lia.
    replace (Z.to_nat (p_len p1)) with (Z.to_nat (p_off p2 - p_off p1) + Z.to_nat (p_len p2))%nat
      by lia.
    rewrite <- take_take_drop, drop_drop. by replace (Z.to_nat (p_off p1) +
      Z.to_nat (p_off p2 - p_off p1))%nat with (Z.to_nat (p_off p2)) by lia. }
  eexists. split; [done|]. destruct Hs1 as (E1 & E2 & E3 & E4).
  split; [done|]. split; [split; simpl; done || lia|].
  change (fun x => negb (is_slash x)) with (fun x => negb (x =? SLASH)). rewrite <- Hv1.
  change (fun x => x =? SLASH) with is_slash in Hv2.
  rewrite Hv2, <- (until_skip is_slash (view p1)) in Hsplit at 1.
  apply app_inv_tail in Hsplit. unfold view at 1, rest_of. simpl. rewrite Hs1'. split.
  - rewrite Hsplit. unfold view. by rewrite Hs1', take_take, Nat.min_l by lia.
  - rewrite <- Hv2. unfold view. destruct Hs2 as [-> _]. rewrite Hs1', skipn_firstn_comm.
    f_equal; [|f_equal; lia]. lia.
Qed.

(** Collects the parts a caller sees until the null path. *)
Fixpoint path_parts (fuel : nat) (p : path_t) : outcome (list (list Z)) :=
  match fuel with
  | O => NoFuel
  | S f =>
      q ← path_next_part p;
      if path_is_null q then Ret []
      else x ← path_read q (path_len q); r ← path_parts f q; Ret (x :: r)
  end.

Lemma path_read_view p s : wf p s -> path_read p (path_len p) = Ret (view p).
Proof.
  intros [Hs Hb Hl]. unfold path_read, view, path_len. rewrite Hs.
  by rewrite (proj2 (Z.leb_le _ _)) by lia.
Qed.

(** A path in the middle of an iteration over the whole string. *)
Definition iterating (p : path_t) (s : list Z) : Prop :=
  wf p s /\ p_valid p = true /\ p_orig_len p = p_slen p /\ 0 < p_len p.

Lemma next_part_iterating p s :
  iterating p s ->
  exists q, path_next_part p = Ret q /\ same_string p q /\ wf q s /\
    view q = until is_slash (skip (fun x => negb (is_slash x)) (rest_of p s)) /\
    rest_of q s = skip is_slash (skip (fun x => negb (is_slash x)) (rest_of p s)).
Proof.
  intros (Hwf & Hv & Ho & Hlen). pose proof Hwf as [Hs Hb Hl]. unfold MAX_PATH_LEN in Hl.
  unfold path_next_part, path_is_null, path_len.
  rewrite (proj2 (Z.eqb_neq _ 0)), Hv, Ho by lia. simpl.
  rewrite !wrap_small by (unfold fits; rewrite ?wrap_small by (unfold fits; lia); lia).
  edestruct part_of_spec as (q & -> & Hsame & Hwq & Hvq & Hrq); [split; simpl; done || lia|simpl; lia|].
  exists q. split; [done|]. split; [done|]. split; [done|].
  assert (E : view (with_view p (p_off p + p_len p) (p_slen p - (p_off p + p_len p))) = rest_of p s).
  { unfold view, rest_of. simpl. rewrite Hs, skipn_firstn_comm. f_equal. lia. }
  by rewrite E in *.
Qed.

(** One step of the collection, from what the step leaves for the next. *)
Lemma parts_step fuel p q s r :
  path_next_part p = Ret q -> wf q s -> p_valid q = true -> p_orig_len q = p_slen q ->
  view q = until is_slash (skip (fun x => negb (is_slash x)) r) ->
  rest_of q s = skip is_slash (skip (fun x => negb (is_slash x)) r) ->
  (length r < S fuel)%nat ->
  (iterating q s -> (length (rest_of q s) < fuel)%nat ->
   path_parts fuel q = Ret (components (rest_of q s))) ->
  path_parts (S fuel) p = Ret (components r).
Proof.
  intros Hn Hwq Hv Ho Hvq Hrq Hf IH. cbn [path_parts]. rewrite Hn. simpl mbind.
  pose proof (view_length q s Hwq) as Hlq. rewrite <- (components_skip_slashes r).
  set (r1 := skip _ r) in *. unfold path_is_null. case_test; zbool.
  - assert (Hu : until is_slash r1 = []).
    { rewrite <- Hvq. unfold path_len in *. destruct (view q); [done|]. simpl in Hlq. lia. }
    by rewrite (until_nil_skip _ Hu : r1 = []).
  - rewrite (path_read_view q s Hwq). simpl mbind. unfold path_len in *.
    assert (Hne : until is_slash r1 <> []).
    { intros E. rewrite Hvq, E in Hlq. simpl in Hlq. lia. }
    pose proof (wf_bounds q s Hwq). rewrite IH.
    + simpl. by rewrite Hrq, Hvq, <- components_part.
    + split; [done|]. split; [done|]. split; [done|lia].
    + rewrite Hrq. pose proof (until_skip (fun x => negb (is_slash x)) r) as H1.
      pose proof (until_skip is_slash r1) as H2. fold r1 in H1.
      apply (f_equal length) in H1, H2. rewrite length_app in H1, H2.
      destruct (until is_slash r1); [done|]. simpl in H2. lia.
Qed.

Lemma path_parts_iterating fuel : forall p s,
  iterating p s -> (length (rest_of p s) < fuel)%nat ->
  path_parts fuel p = Ret (components (rest_of p s)).
Proof.
  induction fuel as [|fuel IH]; intros p s Hit Hf; [lia|].
  destruct (next_part_iterating p s Hit) as (q & Hn & (E1 & E2 & E3 & E4) & Hwq & Hvq & Hrq).
  destruct Hit as (Hwf & Hv & Ho & _).
  by apply (parts_step fuel p q s); try done; try congruence; apply IH.
Qed.

(** C40. Iterating over a path with [path_next_part] until it returns the null
    path yields exactly the components of the string: the non-empty pieces
    between slashes, in order. *)
Theorem path_iteration (s : list Z) (Hlen : 0 < Z.of_nat (length s) <= MAX_PATH_LEN) :
  path_parts (S (length s)) (path_new (Some s) (Z.of_nat (length s))) = Ret (components s).
Proof.
  unfold path_new. rewrite (proj2 (Z.eqb_neq _ 0)), (proj2 (Z.ltb_ge _ _)) by lia.
  set (p := mk_path _ _ _ _ _ _).
  destruct (part_of_spec (with_view (with_iter p (p_len p)) 0 (p_slen p)) s)
    as (q & Hq & (E1 & E2 & E3 & E4) & Hwq & Hvq & Hrq); [split; simpl; done || lia|simpl; lia|].
  assert (E : view (with_view (with_iter p (p_len p)) 0 (p_slen p)) = s).
  { unfold view. simpl. by rewrite Nat2Z.id, firstn_all. }
  rewrite E in *. apply (parts_step (length s) p q s s); try done; try lia.
  - unfold path_next_part, path_is_null, path_len. simpl p_len.
    by rewrite (proj2 (Z.eqb_neq _ 0)) by lia.
  - by rewrite E3, E2.
  - apply path_parts_iterating.
Qed.

Lemma path_iteration_witness :
  path_parts 8 (path_new (Some (bytes "/ab//c/")) 7) = Ret [bytes "ab"; bytes "c"].
Proof. refine (path_iteration (bytes "/ab//c/") _). unfold MAX_PATH_LEN. simpl. lia. Defined.

(** ** Base and directory name *)

(** The slashes of a text. *)
Fixpoint slashes (l : list Z) : Z :=
  match l with [] => 0 | c :: l' => slashes l' + (if is_slash c then 1 else 0) end.

(** [l] without trailing slashes. *)
Definition rstrip (l : list Z) : list Z := rev (skip (fun x => negb (is_slash x)) (rev l)).

(** What follows the last slash. *)
Definition after_last (l : list Z) : list Z := rev (until is_slash (rev l)).

Definition base_name (l : list Z) : list Z :=
  match rstrip l with [] => [SLASH] | t => after_last t end.

Definition dir_name (l : list Z) : list Z :=
  match rstrip l with
  | [] => [SLASH]
  | t =>
      if slashes t =? 0 then [DOT]
      else match rstrip (rev (skip is_slash (rev t))) with [] => [SLASH] | u => u end
  end.

Lemma slashes_nonneg l : 0 <= slashes l.
Proof. induction l as [|c l IH]; simpl; [done|]. case_test; lia. Qed.

Lemma slashes_app a b : slashes (a ++ b) = slashes a + slashes b.
Proof. induction a as [|c a IH]; simpl; [done|]. rewrite IH. lia. Qed.

Lemma count_loop_spec p s k : forall i,
  wf p s -> 0 <= i -> i + Z.of_nat k = p_len p ->
  count_loop k p i SLASH = Ret (slashes (drop (Z.to_nat i) (view p))).
Proof.
  induction k as [|k IH]; intros i Hwf Hi Hk; simpl.
  - pose proof (view_length p s Hwf). rewrite drop_ge by lia. done.
  - destruct (path_char_view p s i) as (c & -> & Hc); [done|lia|]. simpl.
    rewrite IH by (done || lia). simpl. rewrite (drop_S _ _ _ Hc). simpl.
    by replace (Z.to_nat (i + 1)) with (S (Z.to_nat i)) by lia.
Qed.

Lemma path_count_slashes p s : wf p s -> path_count_char p SLASH = Ret (slashes (view p)).
Proof.
  intros Hwf. unfold path_count_char, path_len. pose proof (wf_bounds p s Hwf).
  by rewrite (count_loop_spec p s) by (done || lia).
Qed.

Lemma after_last_slash a b : after_last (a ++ SLASH :: b) = after_last b.
Proof.
  unfold after_last. rewrite rev_app_distr. simpl. rewrite <- app_assoc. simpl. f_equal.
  induction (rev b) as [|c l IH]; simpl; [done|]. destruct (is_slash c); [done|]. by f_equal.
Qed.

Lemma after_last_none l : slashes l = 0 -> after_last l = l.
Proof.
  intros H. unfold after_last. rewrite <- (rev_involutive l) at 2. f_equal.
  assert (Hr : slashes (rev l) = 0).
  { clear -H. induction l as [|c l IH]; simpl in *; [done|]. pose proof (slashes_nonneg l).
    rewrite slashes_app. simpl. case_test; [lia|]. rewrite IH by lia. done. }
  induction (rev l) as [|c r IH]; simpl in *; [done|]. pose proof (slashes_nonneg r).
  destruct (is_slash c); [lia|]. f_equal. apply IH. lia.
Qed.

Lemma path_drop_first_view p s c l :
  wf p s -> view p = c :: l ->
  wf (path_drop_first p) s /\ view (path_drop_first p) = l /\
  p_len (path_drop_first p) = p_len p - 1.
Proof.
  intros Hwf Hv. pose proof (view_length p s Hwf) as Hlen. rewrite Hv in Hlen. simpl in Hlen.
  destruct (view_cons p s) as (c' & _ & Hv' & Hwf' & Ho & Hl); [done|lia|].
  rewrite Hv in Hv'. injection Hv' as _ Hv'. unfold path_drop_first, path_len.
  rewrite (proj2 (Z.ltb_lt _ _)) by lia. pose proof Hwf' as [Hs Hb Hsl].
  rewrite wrap_small by (unfold fits, MAX_PATH_LEN in *; pose proof (wf_bounds p s Hwf); lia).
  rewrite Ho, Hl in Hb. split; [split; simpl; done || lia|]. split; [|done].
  rewrite Hv'. unfold view. simpl. simpl in Hl, Ho. by rewrite Hl, Ho.
Qed.

(** The inner loop drops the leading slashes and counts them off. *)
Lemma drop_slashes_spec fuel : forall p s n,
  wf p s -> p_len p < Z.of_nat fuel ->
  exists q k, drop_slashes fuel p n = Ret (q, n - Z.of_nat k) /\ wf q s /\
    view p = replicate k SLASH ++ view q /\
    match view q with [] => True | c :: _ => is_slash c = false end.
Proof.
  induction fuel as [|fuel IH]; intros p s n Hwf Hf;
    [pose proof (wf_bounds p s Hwf); lia|]. simpl. unfold path_first_char, path_len.
  pose proof (view_length p s Hwf) as Hlen. destruct (view p) as [|c l] eqn:Hv; simpl in Hlen.
  - rewrite (proj2 (Z.eqb_eq _ 0)) by lia. simpl. exists p, 0%nat. rewrite Z.sub_0_r, Hv. done.
  - rewrite (proj2 (Z.eqb_neq _ 0)) by lia.
    destruct (path_char_view p s 0) as (c' & -> & Hc); [done|lia|]. rewrite Hv in Hc.
    injection Hc as <-. simpl. destruct (is_slash c) eqn:E; unfold is_slash in E; rewrite E.
    + apply Z.eqb_eq in E as ->. destruct (path_drop_first_view p s _ _ Hwf Hv) as (Hw & Hv' & Hl).
      destruct (IH (path_drop_first p) s (n - 1)) as (q & k & -> & Hq & Hvq & Hh); [done|lia|].
      exists q, (S k). split; [do 2 f_equal; lia|]. split; [done|]. split; [|done].
      simpl. f_equal. by rewrite <- Hv', Hvq.
    + exists p, 0%nat. rewrite Z.sub_0_r, Hv. done.
Qed.

Lemma slashes_replicate k : slashes (replicate k SLASH) = Z.of_nat k.
Proof. induction k as [|k IH]; simpl; [done|]. rewrite IH. unfold is_slash. simpl. lia. Qed.

Lemma until_no_slash l : slashes (until is_slash l) = 0.
Proof. induction l as [|c l IH]; simpl; [done|]. destruct (is_slash c) eqn:E; simpl; [done|].
  rewrite IH, E. done.
Qed.

Lemma after_last_slashes a k b : after_last (a ++ replicate (S k) SLASH ++ b) = after_last b.
Proof.
  revert a. induction k as [|k IH]; intros a; simpl; [apply after_last_slash|].
  change (SLASH :: SLASH :: replicate k SLASH ++ b)
    with ([SLASH] ++ (replicate (S k) SLASH ++ b)). rewrite app_assoc. apply IH.
Qed.

Lemma skip_slash_head l : slashes l <> 0 -> exists r, skip is_slash l = SLASH :: r.
Proof.
  induction l as [|c l IH]; simpl; [done|]. intros H. destruct (is_slash c) eqn:E.
  - apply Z.eqb_eq in E as ->. by eexists.
  - apply IH. lia.
Qed.

(** The loop ends at what follows the last slash. *)
Lemma basename_loop_spec fuel : forall p s,
  wf p s -> p_len p < Z.of_nat fuel ->
  exists q, basename_loop fuel p (slashes (view p)) = Ret q /\ wf q s /\
    view q = after_last (view p).
Proof.
  induction fuel as [|fuel IH]; intros p s Hwf Hf;
    [pose proof (wf_bounds p s Hwf); lia|]. cbn [basename_loop].
  pose proof (view_length p s Hwf) as Hlen. pose proof (slashes_nonneg (view p)) as Hpos.
  destruct (Z.eq_dec (slashes (view p)) 0) as [E0|Hne].
  { rewrite E0. simpl. exists p. by rewrite after_last_none. }
  assert (0 < p_len p) by (destruct (view p); simpl in *; lia).
  unfold path_len at 1. rewrite !(proj2 (Z.ltb_lt 0 _)) by lia. simpl.
  unfold path_remove_until. destruct (lead_loop_spec is_slash (Z.to_nat (path_len p)) p s Hwf)
    as (p1 & E1 & Hs1 & Hwf1 & Hv1 & Ho1 & Hle1); [unfold path_len; lia|].
  change (fun x => x =? SLASH) with is_slash. rewrite E1. simpl.
  pose proof (wf_bounds p1 s Hwf1) as Hb1.
  destruct (drop_slashes_spec (S (Z.to_nat (path_len p1))) p1 s (slashes (view p)) Hwf1)
    as (p2 & k & E2 & Hwf2 & Hv2 & Hh); [unfold path_len; lia|].
  cbn [drop_slashes] in E2. rewrite E2. simpl mbind. cbv iota beta.
  destruct (skip_slash_head _ Hne) as [r Hr].
  assert (Hsplit : view p = until is_slash (view p) ++ replicate k SLASH ++ view p2).
  { rewrite <- Hv2, Hv1. by rewrite until_skip. }
  destruct k as [|k]; [simpl in Hv2; rewrite <- Hv2, Hv1, Hr in Hh; done|].
  replace (slashes (view p) - Z.of_nat (S k)) with (slashes (view p2)).
  2: { rewrite Hsplit, !slashes_app, until_no_slash, slashes_replicate. lia. }
  destruct (IH p2 s Hwf2) as (q & -> & Hwq & Hvq).
  { pose proof (view_length p2 s Hwf2). apply (f_equal length) in Hsplit.
    rewrite !length_app, length_replicate in Hsplit. lia. }
  exists q. split; [done|]. split; [done|]. by rewrite Hvq, Hsplit, after_last_slashes.
Qed.

#[global] Arguments basename_loop : simpl never.

Lemma strip_trailing_spec p s :
  wf p s -> exists q, path_strip_trailing p SLASH = Ret q /\ wf q s /\ view q = rstrip (view p).
Proof.
  intros Hwf. unfold path_strip_trailing. pose proof (wf_bounds p s Hwf).
  destruct (trail_loop_spec (fun x => negb (x =? SLASH)) (Z.to_nat (path_len p)) p s Hwf)
    as (q & E & _ & Hwq & Hvq & _); [unfold path_len; lia|]. by exists q.
Qed.

Lemma view_null p s : wf p s -> path_is_null p = true <-> view p = [].
Proof.
  intros Hwf. unfold path_is_null, path_len. rewrite Z.eqb_eq.
  pose proof (view_length p s Hwf). destruct (view p); simpl in *; split; done || lia.
Qed.

(** The common start of both functions. *)
Lemma strip_and_count p s :
  wf p s -> view p <> [] -> exists q, path_is_null p = false /\
    path_strip_trailing p SLASH = Ret q /\ wf q s /\ view q = rstrip (view p) /\
    path_count_char q SLASH = Ret (slashes (view q)) /\
    (path_len q =? 0) = bool_decide (view q = []).
Proof.
  intros Hwf Hne. destruct (strip_trailing_spec p s Hwf) as (q & Hq & Hwq & Hvq).
  exists q. split; [by apply not_true_iff_false; rewrite (view_null p s)|].
  split; [done|]. split; [done|]. split; [done|]. split; [by apply (path_count_slashes q s)|].
  change (path_len q =? 0) with (path_is_null q). apply eq_bool_prop_intro.
  rewrite !Is_true_true, bool_decide_eq_true. by apply (view_null q s).
Qed.

Lemma base_name_ne l : rstrip l <> [] -> base_name l = after_last (rstrip l).
Proof. unfold base_name. by destruct (rstrip l). Qed.

Lemma dir_name_ne l :
  rstrip l <> [] ->
  dir_name l =
    if slashes (rstrip l) =? 0 then [DOT]
    else match rstrip (rev (skip is_slash (rev (rstrip l)))) with [] => [SLASH] | u => u end.
Proof. unfold dir_name. by destruct (rstrip l). Qed.

(** [path_basename] and [path_dirname] of a non-empty path show the parts
    of the text after and before its last slash, trailing slashes aside: a
    path of slashes only gives "/" for both, a path without a slash has
    directory name ".", and a file in the root has directory name "/". *)
Theorem path_names (p : path_t) (s : list Z) (Hwf : wf p s) (Hne : view p <> []) :
  (exists b, path_basename p = Ret b /\ view b = base_name (view p)) /\
  (exists d, path_dirname p = Ret d /\ view d = dir_name (view p)).
Proof.
  destruct (strip_and_count p s Hwf Hne) as (q & Hn & Hq & Hwq & Hvq & Hcount & Hlen).
  unfold path_basename, path_dirname. rewrite Hn, Hq. simpl. rewrite Hcount. simpl. rewrite Hlen.
  destruct (decide (view q = [])) as [E|E].
  { rewrite bool_decide_true by done. unfold base_name, dir_name. rewrite <- Hvq, E.
    by split; eexists. }
  rewrite bool_decide_false by done.
  rewrite base_name_ne, dir_name_ne, <- Hvq by by rewrite <- Hvq.
  destruct (Z.eqb_spec (slashes (view q)) 0) as [E0|E0].
  { split; [by exists q; rewrite after_last_none|by eexists]. }
  pose proof (wf_bounds q s Hwq). split.
  - destruct (basename_loop_spec (S (Z.to_nat (path_len q))) q s Hwq) as (b & -> & _ & Hb);
      [unfold path_len; lia|]. by exists b.
  - unfold path_remove_until_reverse.
    destruct (trail_loop_spec is_slash (Z.to_nat (path_len q)) q s Hwq)
      as (q2 & E2 & _ & Hwq2 & Hvq2 & _); [unfold path_len; lia|].
    change (fun x => x =? SLASH) with is_slash. rewrite E2. simpl.
    destruct (strip_trailing_spec q2 s Hwq2) as (q3 & -> & Hwq3 & Hvq3). simpl.
    rewrite <- Hvq2, <- Hvq3. destruct (path_is_null q3) eqn:En.
    + apply (view_null q3 s) in En; [|done]. rewrite En. by eexists.
    + exists q3. split; [done|]. destruct (view q3) eqn:E3; [|done].
      apply (view_null q3 s) in E3; [|done]. congruence.
Qed.

Lemma path_names_witness :
  exists b d, path_basename (path_new (Some (bytes "/usr//lib/")) 10) = Ret b /\
    path_dirname (path_new (Some (bytes "/usr//lib/")) 10) = Ret d /\
    view b = bytes "lib" /\ view d = bytes "/usr".
Proof.
  destruct (path_names (path_new (Some (bytes "/usr//lib/")) 10) (bytes "/usr//lib/"))
    as [(b & Hb & Hvb) (d & Hd & Hvd)].
  - split; [reflexivity|simpl; lia|unfold MAX_PATH_LEN; simpl; lia].
  - discriminate.
  - exists b, d. split; [exact Hb|]. split; [exact Hd|]. split; [exact Hvb|exact Hvd].
Defined.

(** ** Subpaths *)

Lemma prefix_loop_sym p q s t k : forall i,
  wf p s -> wf q t -> 0 <= i -> i + Z.of_nat k <= p_len p -> i + Z.of_nat k <= p_len q ->
  prefix_loop k p q i = prefix_loop k q p i /\
  (prefix_loop k p q i = Ret None \/ prefix_loop k p q i = Ret (Some (i + Z.of_nat k))).
Proof.
  induction k as [|k IH]; intros i Hp Hq Hi Hlp Hlq; simpl.
  - split; [done|]. right. do 2 f_equal. lia.
  - destruct (path_char_view p s i) as (a & -> & _); [done|lia|].
    destruct (path_char_view q t i) as (b & -> & _); [done|lia|]. simpl.
    rewrite (Z.eqb_sym b a). case_test; [|auto].
    destruct (IH (i + 1)) as [E Hr]; try done; try lia. split; [done|].
    by replace (i + Z.of_nat (S k)) with (i + 1 + Z.of_nat k) by lia.
Qed.

(** [path_is_subpath] does not depend on the order of its arguments: it
    also accepts a first path that is a directory above the second, where its
    documentation promises "at or under". *)
Theorem path_is_subpath_symmetric (p q : path_t) (s t : list Z) (Hp : wf p s) (Hq : wf q t) :
  path_is_subpath p q = path_is_subpath q p.
Proof.
  unfold path_is_subpath. rewrite (orb_comm (path_is_null p)). case_test; [done|].
  pose proof (wf_bounds p s Hp). pose proof (wf_bounds q t Hq). unfold path_len.
  rewrite (Z.min_comm (p_len q)).
  destruct (prefix_loop_sym p q s t (Z.to_nat (Z.min (p_len p) (p_len q))) 0)
    as [E [Hn|Hi]]; try done; try lia; rewrite <- E; [by rewrite Hn|].
  rewrite Hi. simpl. rewrite Z2Nat.id by lia. zcases.
Qed.

Lemma path_is_subpath_symmetric_witness :
  path_is_subpath (path_new (Some (bytes "/a/b")) 4) (path_new (Some (bytes "/a")) 2) =
  path_is_subpath (path_new (Some (bytes "/a")) 2) (path_new (Some (bytes "/a/b")) 4) /\
  path_is_subpath (path_new (Some (bytes "/a")) 2) (path_new (Some (bytes "/a/b")) 4) = Ret true.
Proof.
  split; [|reflexivity].
  apply (path_is_subpath_symmetric _ _ (bytes "/a/b") (bytes "/a"));
    (split; [reflexivity|simpl; lia|unfold MAX_PATH_LEN; simpl; lia]).
Defined.
