(* ===== verification/Chan.v ===== *)
(** * kernel/chan.c: bounded channels over a ring buffer

    One thread's view of a channel: the ring buffer, the calls made to the
    free callback, and how often the thread holds each of the channel's three
    recursive locks.  The condition variables of the source are commented out,
    so no call blocks.  The channel refines a bounded queue that drops its
    oldest element when a send finds it full. *)

From S2P Require Import Prelude.
From stdpp Require Import list.
Local Open Scope Z_scope.

Abbreviation CHAN_CLOSED := (1).

(** [freed] lists the data passed to [free_cb] so far; the [lk_] fields count
    the caller's holds of [lock], [reader] and [writer]. *)
Record chan_t := mk_chan {
  flags : Z;
  read_idx : Z;
  write_idx : Z;
  max_idx : Z;
  buffer : list Z;
  free_cb : bool;
  freed : list Z;
  lk_lock : Z;
  lk_reader : Z;
  lk_writer : Z;
}.

Definition set_flags (c : chan_t) (v : Z) : chan_t :=
  mk_chan v (read_idx c) (write_idx c) (max_idx c) (buffer c) (free_cb c) (freed c)
    (lk_lock c) (lk_reader c) (lk_writer c).
Definition set_ring (c : chan_t) (r w : Z) (b : list Z) : chan_t :=
  mk_chan (flags c) r w (max_idx c) b (free_cb c) (freed c) (lk_lock c) (lk_reader c) (lk_writer c).
Definition set_freed (c : chan_t) (v : list Z) : chan_t :=
  mk_chan (flags c) (read_idx c) (write_idx c) (max_idx c) (buffer c) (free_cb c) v
    (lk_lock c) (lk_reader c) (lk_writer c).
Definition add_locks (c : chan_t) (l r w : Z) : chan_t :=
  mk_chan (flags c) (read_idx c) (write_idx c) (max_idx c) (buffer c) (free_cb c) (freed c)
    (lk_lock c + l) (lk_reader c + r) (lk_writer c + w).

Definition lock_lock (c : chan_t) : chan_t := add_locks c 1 0 0.
Definition unlock_lock (c : chan_t) : chan_t := add_locks c (-1) 0 0.
Definition lock_reader (c : chan_t) : chan_t := add_locks c 0 1 0.
Definition unlock_reader (c : chan_t) : chan_t := add_locks c 0 (-1) 0.
Definition lock_writer (c : chan_t) : chan_t := add_locks c 0 0 1.
Definition unlock_writer (c : chan_t) : chan_t := add_locks c 0 0 (-1).

Definition closed (c : chan_t) : bool := negb (Z.land (flags c) CHAN_CLOSED =? 0).

(** ** Operations *)

Definition get_next_index (c : chan_t) (curr_index : Z) : Z :=
  if curr_index =? max_idx c then 0 else u16 (curr_index + 1).

(** Passes non-null data to the callback, if there is one. *)
Definition cleanup_data (c : chan_t) (data : Z) : chan_t :=
  if negb (data =? 0) && free_cb c then set_freed c (freed c ++ [data]) else c.

(** [words] is what the fresh buffer holds. *)
Definition chan_alloc (size fl : Z) (words : list Z) : option chan_t :=
  if size =? 0 then None
  else Some (mk_chan (Z.land fl (not_w 32 CHAN_CLOSED)) 0 0 (size - 1)
               (take (Z.to_nat size) words) false [] 0 0 0).

Definition chan_set_free_cb (c : chan_t) (cb : bool) : chan_t :=
  mk_chan (flags c) (read_idx c) (write_idx c) (max_idx c) (buffer c) cb (freed c)
    (lk_lock c) (lk_reader c) (lk_writer c).

(** Takes the element under the read index off the buffer. *)
Definition take_head (c : chan_t) : outcome (Z * chan_t) :=
  data ← load (buffer c) (read_idx c);
  b ← store (buffer c) (read_idx c) 0;
  Ret (data, set_ring c (get_next_index c (read_idx c)) (write_idx c) b).

(** The loop of [chan_free] and [chan_close] that empties the buffer. *)
Fixpoint drain (fuel : nat) (c : chan_t) : outcome chan_t :=
  match fuel with
  | O => NoFuel
  | S f =>
      if read_idx c =? write_idx c then Ret c
      else '(data, c') ← take_head c; drain f (cleanup_data c' data)
  end.

Definition drain_fuel (c : chan_t) : nat := S (Z.to_nat (max_idx c + 1)).

(** The result code and, for a freed channel, its final contents. *)
Definition chan_free (c : chan_t) : outcome (Z * chan_t) :=
  if negb (closed c) then Ret (-1, c)
  else c' ← drain (drain_fuel c) c; Ret (0, c').

Definition chan_send (c : chan_t) (data : Z) : outcome (Z * chan_t) :=
  if closed c then Ret (-1, c)
  else
    let c1 := lock_lock (lock_writer c) in
    b ← store (buffer c1) (write_idx c1) data;
    let c2 := set_ring c1 (read_idx c1) (write_idx c1) b in
    c3 ← (if get_next_index c2 (write_idx c2) =? read_idx c2 then
            '(old_data, c3) ← take_head c2;
            Ret (cleanup_data
                   (set_ring c3 (read_idx c3) (get_next_index c3 (write_idx c3)) (buffer c3))
                   old_data)
          else Ret (set_ring c2 (read_idx c2) (get_next_index c2 (write_idx c2)) (buffer c2)));
    Ret (0, unlock_writer (unlock_lock c3)).

Definition chan_sendb (c : chan_t) (data : Z) : outcome (Z * chan_t) :=
  if closed c then Ret (-1, c)
  else
    '(r, c1) ← chan_send (lock_writer c) data;
    if r <? 0 then Ret (-1, unlock_writer c1) else Ret (0, unlock_writer c1).

(** The end of both receive functions: the data goes to the caller, or to the
    callback when the caller passes no place for it. *)
Definition finish_recv (c : chan_t) (want : bool) : outcome (Z * option Z * chan_t) :=
  _ ← kassert (negb (read_idx c =? write_idx c));
  '(data, c1) ← take_head c;
  let c2 := unlock_lock c1 in
  let c3 := if want then c2 else cleanup_data c2 data in
  Ret (0, (if want then Some data else None), unlock_reader c3).

(** Result code, received data, channel; [want] is [result != NULL]. *)
Definition chan_recv (c : chan_t) (want : bool) : outcome (Z * option Z * chan_t) :=
  if closed c then Ret (-1, None, c)
  else
    let c1 := lock_lock (lock_reader c) in
    if read_idx c1 =? write_idx c1 then
      let c2 := unlock_lock c1 in
      if closed c2 then Ret (-1, None, unlock_reader c2) else finish_recv (lock_lock c2) want
    else finish_recv c1 want.

Definition chan_recv_noblock (c : chan_t) (want : bool) : outcome (Z * option Z * chan_t) :=
  if closed c then Ret (-1, None, c)
  else
    let c1 := lock_lock (lock_reader c) in
    if read_idx c1 =? write_idx c1 then Ret (-2, None, unlock_reader (unlock_lock c1))
    else finish_recv c1 want.

Fixpoint recvn_loop (n : nat) (c : chan_t) : outcome (Z * list Z * chan_t) :=
  match n with
  | O => Ret (0, [], c)
  | S n' =>
      '(r, d, c1) ← chan_recv c true;
      if r <? 0 then Ret (-1, [], c1)
      else
        '(r', ds, c2) ← recvn_loop n' c1;
        Ret (r', default 0 d :: ds, c2)
  end.

Definition chan_recvn (c : chan_t) (n : Z) : outcome (Z * list Z * chan_t) :=
  if (n =? 0) || closed c then Ret (-1, [], c)
  else
    '(r, ds, c1) ← recvn_loop (Z.to_nat n) (lock_reader c);
    Ret (r, ds, unlock_reader c1).

Definition chan_wait (c : chan_t) : Z * chan_t :=
  if closed c then (-1, c)
  else
    let c1 := lock_lock (lock_reader c) in
    if read_idx c1 =? write_idx c1 then
      let c2 := unlock_lock c1 in
      if closed c2 then (-1, unlock_reader c2) else (0, c2)
    else (0, unlock_reader (unlock_lock c1)).

Definition chan_close (c : chan_t) : outcome (Z * chan_t) :=
  if closed c then Ret (-1, c)
  else
    let c1 := lock_lock (lock_writer c) in
    let c2 := set_flags c1 (Z.lor (flags c1) CHAN_CLOSED) in
    c3 ← drain (drain_fuel c2) c2;
    Ret (0, unlock_writer (unlock_lock c3)).

(** ** The contents of the ring *)

Record wf (c : chan_t) : Prop := {
  wf_max : 0 <= max_idx c < 2 ^ 16 - 1;
  wf_len : Z.of_nat (length (buffer c)) = max_idx c + 1;
  wf_read : 0 <= read_idx c <= max_idx c;
  wf_write : 0 <= write_idx c <= max_idx c;
}.

(** Position [x] steps past the start of a ring of [N] slots, for [x < 2 * N]. *)
Definition widx (N x : Z) : Z := if x <? N then x else x - N.

(** The [k] elements from slot [i] on. *)
Definition ring (N : Z) (b : list Z) (i : Z) (k : nat) : list Z :=
  List.map (fun t => nth (Z.to_nat (widx N (i + Z.of_nat t))) b 0) (seq 0 k).

Definition count (c : chan_t) : Z :=
  if read_idx c <=? write_idx c then write_idx c - read_idx c
  else write_idx c - read_idx c + (max_idx c + 1).

(** The queue a channel holds, oldest element first. *)
Definition contents (c : chan_t) : list Z :=
  ring (max_idx c + 1) (buffer c) (read_idx c) (Z.to_nat (count c)).

Lemma ring_snoc N b i k :
  ring N b i (S k) = ring N b i k ++ [nth (Z.to_nat (widx N (i + Z.of_nat k))) b 0].
Proof. unfold ring. by rewrite seq_S, map_app. Qed.

Lemma ring_ext N b b' i k :
  (forall t, (t < k)%nat ->
     nth (Z.to_nat (widx N (i + Z.of_nat t))) b' 0 = nth (Z.to_nat (widx N (i + Z.of_nat t))) b 0) ->
  ring N b' i k = ring N b i k.
Proof. intros H. unfold ring. apply map_ext_in. intros t Ht%in_seq. apply H. lia. Qed.

Lemma ring_cons N b i j k :
  0 <= i < N -> Z.of_nat k < N -> j = widx N (i + 1) ->
  ring N b i (S k) = nth (Z.to_nat i) b 0 :: ring N b j k.
Proof.
  intros Hi Hk ->. unfold ring. simpl. f_equal.
  - do 2 f_equal. unfold widx. zcases.
  - rewrite <- seq_shift, map_map. apply map_ext_in. intros t Ht%in_seq. do 2 f_equal.
    unfold widx. zcases.
Qed.

Lemma nth_insert b i j v :
  0 <= i < Z.of_nat (length b) -> 0 <= j ->
  nth (Z.to_nat j) (<[Z.to_nat i := v]> b) 0 = if j =? i then v else nth (Z.to_nat j) b 0.
Proof.
  intros Hi Hj. rewrite !nth_lookup. destruct (Z.eqb_spec j i) as [->|Hne].
  - by rewrite list_lookup_insert_eq by lia.
  - by rewrite list_lookup_insert_ne by lia.
Qed.

(** Writing to a slot outside the [k] elements. *)
Lemma ring_insert_outside N b i k w v :
  Z.of_nat (length b) = N -> 0 <= i < N -> 0 <= w < N -> Z.of_nat k <= N ->
  (if i <=? w then w - i else w - i + N) >= Z.of_nat k ->
  ring N (<[Z.to_nat w := v]> b) i k = ring N b i k.
Proof.
  intros Hb Hi Hw Hk Hout. apply ring_ext. intros t Ht.
  rewrite nth_insert by (unfold widx; zcases). unfold widx. revert Hout. zcases.
Qed.

Lemma get_next_widx c i :
  0 <= max_idx c < 2 ^ 16 - 1 -> 0 <= i <= max_idx c ->
  get_next_index c i = widx (max_idx c + 1) (i + 1).
Proof.
  intros Hm Hi. unfold get_next_index, widx.
  destruct (Z.eqb_spec i (max_idx c)) as [->|]; zcases.
  apply wrap_small. unfold fits. lia.
Qed.

Lemma load_nth (b : list Z) i :
  0 <= i < Z.of_nat (length b) -> load b i = Ret (nth (Z.to_nat i) b 0).
Proof.
  intros Hi. apply load_Some. split; [lia|]. rewrite nth_lookup.
  destruct (lookup_lt_is_Some_2 b (Z.to_nat i)) as [x Hx]; [lia|]. by rewrite Hx.
Qed.

(** ** The specification: a bounded queue that drops its oldest element *)

Module Spec.
(** What a send puts out of the queue. *)
Definition send (cap : Z) (q : list Z) (d : Z) : list Z * list Z :=
  if Z.of_nat (length q) <? cap then (q ++ [d], [])
  else (tail (q ++ [d]), take 1 (q ++ [d])).

Definition recv (q : list Z) : option Z * list Z :=
  match q with [] => (None, []) | d :: q' => (Some d, q') end.
End Spec.

(** The calls the callback gets for dropped data. *)
Definition freed_by (c : chan_t) (ds : list Z) : list Z :=
  if free_cb c then filter (fun d => d <> 0) ds else [].

(** What stays the same across an operation. *)
Definition same_frame (c c' : chan_t) : Prop :=
  max_idx c' = max_idx c /\ flags c' = flags c /\ free_cb c' = free_cb c /\
  lk_lock c' = lk_lock c /\ lk_reader c' = lk_reader c /\ lk_writer c' = lk_writer c.

Lemma count_range c : wf c -> 0 <= count c <= max_idx c.
Proof. intros [Hm Hl Hr Hw]. unfold count. zcases. Qed.

Lemma contents_length c : wf c -> Z.of_nat (length (contents c)) = count c.
Proof.
  intros Hwf. unfold contents, ring. rewrite length_map, length_seq.
  pose proof (count_range c Hwf). lia.
Qed.

Lemma take_head_eq c :
  wf c ->
  take_head c = Ret (nth (Z.to_nat (read_idx c)) (buffer c) 0,
    set_ring c (widx (max_idx c + 1) (read_idx c + 1)) (write_idx c)
      (<[Z.to_nat (read_idx c) := 0]> (buffer c))).
Proof.
  intros Hwf. pose proof Hwf as [Hm Hl Hr Hw]. unfold take_head.
  rewrite load_nth by lia. simpl. rewrite store_in_range by lia. simpl.
  by rewrite get_next_widx.
Qed.

(** Taking the head off a non-empty channel. *)
Lemma take_head_contents c d q :
  wf c -> contents c = d :: q ->
  exists c', take_head c = Ret (d, c') /\ wf c' /\ contents c' = q /\
    same_frame c c' /\ freed c' = freed c /\ write_idx c' = write_idx c.
Proof.
  intros Hwf Hq. pose proof (contents_length c Hwf) as Hlen. rewrite Hq in Hlen. simpl in Hlen.
  pose proof Hwf as [Hm Hl Hr Hw]. rewrite (take_head_eq c Hwf). unfold contents in Hq.
  assert (Hk : Z.to_nat (count c) = S (length q)) by lia. rewrite Hk in Hq.
  pose proof (count_range c Hwf) as Hc.
  rewrite (ring_cons _ _ _ (widx (max_idx c + 1) (read_idx c + 1))) in Hq by (done || lia).
  injection Hq as Hd Hq. rewrite Hd. eexists. split; [done|].
  assert (Hwf' : wf (set_ring c (widx (max_idx c + 1) (read_idx c + 1)) (write_idx c)
    (<[Z.to_nat (read_idx c):=0]> (buffer c)))).
  { split; simpl; try done; [by rewrite length_insert|]. unfold widx. zcases. }
  split; [done|]. split; [|done].
  assert (Hc' : Z.to_nat (count (set_ring c (widx (max_idx c + 1) (read_idx c + 1)) (write_idx c)
    (<[Z.to_nat (read_idx c):=0]> (buffer c)))) = length q).
  { revert Hlen. unfold count. simpl. unfold widx. zcases. }
  unfold contents. rewrite Hc'. simpl. etrans; [|exact Hq].
  apply ring_insert_outside; try lia; unfold widx; zcases.
Qed.

Lemma cleanup_freed c d :
  cleanup_data c d = set_freed c (freed c ++ freed_by c [d]).
Proof.
  unfold cleanup_data, freed_by. destruct (free_cb c) eqn:E.
  - destruct (Z.eqb_spec d 0) as [->|H]; simpl.
    + rewrite filter_cons_False, app_nil_r by auto. by destruct c.
    + by rewrite filter_cons_True.
  - rewrite andb_false_r, app_nil_r. by destruct c.
Qed.

(** The buffer with the new element in place: the old contents and [d]. *)
Lemma ring_write c d :
  wf c ->
  ring (max_idx c + 1) (<[Z.to_nat (write_idx c) := d]> (buffer c)) (read_idx c)
    (S (Z.to_nat (count c))) = contents c ++ [d].
Proof.
  intros Hwf. pose proof Hwf as [Hm Hl Hr Hw]. pose proof (count_range c Hwf) as Hc.
  rewrite ring_snoc. rewrite ring_insert_outside.
  2-6: try lia; unfold count in *; zcases.
  f_equal. rewrite nth_insert by (unfold widx, count in *; zcases).
  f_equal. rewrite (proj2 (Z.eqb_eq _ _)); [done|]. unfold widx, count in *. zcases.
Qed.

Lemma wf_set_ring c r w b :
  wf c -> 0 <= r <= max_idx c -> 0 <= w <= max_idx c ->
  Z.of_nat (length b) = max_idx c + 1 -> wf (set_ring c r w b).
Proof. intros [Hm Hl Hr Hw] ? ? ?. by split. Qed.

Lemma wf_add_locks c l r w : wf c -> wf (add_locks c l r w).
Proof. intros [Hm Hl Hr Hw]. by split. Qed.

Lemma widx_range N x : 0 <= x < 2 * N -> 0 <= widx N x <= N - 1.
Proof. intros. unfold widx. zcases. Qed.

(** The two ways the indices move, by the contents they leave. *)
Lemma send_room c d :
  wf c -> widx (max_idx c + 1) (write_idx c + 1) <> read_idx c ->
  count c < max_idx c /\
  contents (set_ring c (read_idx c) (widx (max_idx c + 1) (write_idx c + 1))
    (<[Z.to_nat (write_idx c) := d]> (buffer c))) = contents c ++ [d].
Proof.
  intros Hwf Hne. pose proof Hwf as [Hm Hl Hr Hw].
  split; [revert Hne; unfold count, widx; zcases|].
  rewrite <- ring_write by done. unfold contents. simpl. f_equal.
  revert Hne. unfold count, widx. simpl. zcases.
Qed.

Lemma send_full c d :
  wf c -> widx (max_idx c + 1) (write_idx c + 1) = read_idx c ->
  let b := <[Z.to_nat (write_idx c) := d]> (buffer c) in
  let c' := set_ring c (widx (max_idx c + 1) (read_idx c + 1)) (read_idx c)
              (<[Z.to_nat (read_idx c) := 0]> b) in
  max_idx c <= count c /\
  contents c ++ [d] = nth (Z.to_nat (read_idx c)) b 0 :: contents c'.
Proof.
  intros Hwf He b c'. pose proof Hwf as [Hm Hl Hr Hw].
  assert (Hcount : count c = max_idx c) by (revert He; unfold count, widx; zcases).
  split; [lia|]. rewrite <- ring_write, Hcount by done. fold b.
  assert (Hlb : Z.of_nat (length b) = max_idx c + 1) by (unfold b; by rewrite length_insert).
  rewrite (ring_cons _ _ _ (widx (max_idx c + 1) (read_idx c + 1))) by (done || lia). f_equal.
  unfold contents. replace (count c') with (max_idx c) by
    (unfold c', count; simpl; unfold widx; zcases).
  symmetry. simpl. apply ring_insert_outside; try lia; unfold widx; zcases.
Qed.

Lemma chan_send_spec (c : chan_t) (d : Z) (Hwf : wf c) (Hopen : closed c = false) :
  exists c' dropped, chan_send c d = Ret (0, c') /\ wf c' /\
    Spec.send (max_idx c) (contents c) d = (contents c', dropped) /\
    freed c' = freed c ++ freed_by c dropped /\ same_frame c c'.
Proof.
  unfold chan_send. rewrite Hopen. pose proof Hwf as [Hm Hl Hr Hw]. simpl.
  rewrite store_in_range by lia. simpl. unfold Spec.send. rewrite (contents_length c Hwf).
  set (c2 := set_ring (lock_lock (lock_writer c)) (read_idx c) (write_idx c)
    (<[Z.to_nat (write_idx c) := d]> (buffer c))).
  assert (Hwf2 : wf c2).
  { apply wf_set_ring; simpl; rewrite ?length_insert; done || by do 2 apply wf_add_locks. }
  rewrite (get_next_widx c2) by (simpl; lia). simpl.
  destruct (Z.eqb_spec (widx (max_idx c + 1) (write_idx c + 1)) (read_idx c)) as [E|E].
  - destruct (send_full c d Hwf E) as [Hfull Happ]. cbv zeta in Happ.
    rewrite (take_head_eq c2 Hwf2), (proj2 (Z.ltb_ge _ _)), Happ by lia. simpl.
    rewrite cleanup_freed. simpl. rewrite get_next_widx by (simpl; lia). simpl. rewrite E.
    eexists _, _. split; [done|]. split; [|split; [done|]].
    + do 2 apply wf_add_locks. split; simpl; try lia; [rewrite !length_insert; lia|].
      pose proof (widx_range (max_idx c + 1) (read_idx c + 1)). lia.
    + split; [done|]. repeat split; simpl; lia.
  - destruct (send_room c d Hwf E) as [Hroom Happ]. rewrite (proj2 (Z.ltb_lt _ _)) by lia. simpl.
    eexists _, []. split; [done|]. split; [|split; [|split]].
    + do 2 apply wf_add_locks. split; simpl; try lia; [by rewrite length_insert|].
      pose proof (widx_range (max_idx c + 1) (write_idx c + 1)). lia.
    + by rewrite <- Happ.
    + unfold freed_by. by destruct (free_cb c); rewrite app_nil_r.
    + repeat split; simpl; lia.
Qed.

Lemma same_frame_trans a b c : same_frame a b -> same_frame b c -> same_frame a c.
Proof. unfold same_frame. intuition congruence. Qed.

(** A send on an open channel of [N] slots acts on the queue it holds as
    a bounded queue of capacity [N - 1]: the element is appended and, when the
    queue was full, the oldest element is dropped and handed to the free
    callback; the locks end as they were. *)
Theorem chan_send_refines (c : chan_t) (d : Z) (Hwf : wf c) (Hopen : closed c = false) :
  exists c' dropped, chan_send c d = Ret (0, c') /\ wf c' /\
    Spec.send (max_idx c) (contents c) d = (contents c', dropped) /\
    freed c' = freed c ++ freed_by c dropped /\ same_frame c c'.
Proof. by apply chan_send_spec. Qed.

(** A channel of four slots that holds three elements. *)
Definition full_chan : chan_t := mk_chan 0 1 0 3 [0; 11; 12; 13] true [] 0 0 0.

Lemma full_chan_wf : wf full_chan.
Proof. split; simpl; lia. Qed.

Lemma chan_send_refines_witness :
  exists c', chan_send full_chan 14 = Ret (0, c') /\ contents c' = [12; 13; 14] /\ freed c' = [11].
Proof.
  destruct (chan_send_refines full_chan 14 full_chan_wf) as (c' & dr & E & _ & Hs & Hf & _).
  - reflexivity.
  - exists c'. split; [exact E|].
    change (Spec.send (max_idx full_chan) (contents full_chan) 14) with ([12; 13; 14], [11]) in Hs.
    injection Hs as Hc Hd. split; [congruence|]. rewrite Hf, <- Hd. reflexivity.
Defined.

(** ** Receiving *)

Lemma finish_recv_spec c d q :
  wf c -> contents c = d :: q ->
  exists c', finish_recv c true = Ret (0, Some d, c') /\ wf c' /\ contents c' = q /\
    freed c' = freed c /\ max_idx c' = max_idx c /\ flags c' = flags c /\
    free_cb c' = free_cb c /\ lk_lock c' = lk_lock c - 1 /\ lk_reader c' = lk_reader c - 1 /\
    lk_writer c' = lk_writer c.
Proof.
  intros Hwf Hq. destruct (take_head_contents c d q Hwf Hq)
    as (c' & E & Hwf' & Hc' & (Hm & Hf & Hcb & Hl & Hr & Hw) & Hfr & _).
  unfold finish_recv. rewrite (proj2 (Z.eqb_neq (read_idx c) (write_idx c))).
  - simpl. rewrite E. simpl. eexists. split; [done|].
    split; [by do 2 apply wf_add_locks|]. split; [done|]. simpl. repeat split; lia || done.
  - intros E0. pose proof (contents_length c Hwf) as Hlen. rewrite Hq in Hlen. simpl in Hlen.
    unfold count in Hlen. rewrite E0 in Hlen. revert Hlen. zcases.
Qed.

Lemma contents_nil c : wf c -> contents c = [] <-> read_idx c = write_idx c.
Proof.
  intros Hwf. pose proof (contents_length c Hwf) as Hlen. pose proof Hwf as [Hm Hl Hr Hw].
  split; intros H.
  - rewrite H in Hlen. simpl in Hlen. revert Hlen. unfold count. zcases.
  - destruct (contents c); [done|]. simpl in Hlen. unfold count in Hlen. rewrite H in Hlen.
    revert Hlen. zcases.
Qed.

Lemma recv_noblock_refines c :
  wf c -> closed c = false ->
  exists r c', chan_recv_noblock c true = Ret (r, fst (Spec.recv (contents c)), c') /\
    r = (if bool_decide (contents c = []) then -2 else 0) /\
    wf c' /\ contents c' = snd (Spec.recv (contents c)) /\ freed c' = freed c /\ same_frame c c'.
Proof.
  intros Hwf Hopen. unfold chan_recv_noblock. rewrite Hopen. simpl.
  destruct (contents c) as [|d q] eqn:Hq.
  - rewrite (proj2 (Z.eqb_eq _ _)) by by apply contents_nil. eexists _, _. split; [done|].
    split; [done|]. split; [by do 4 apply wf_add_locks|]. split; [exact Hq|].
    split; [done|]. repeat split; simpl; lia.
  - rewrite (proj2 (Z.eqb_neq _ _)) by (intros E%contents_nil; [congruence|done]).
    destruct (finish_recv_spec (lock_lock (lock_reader c)) d q)
      as (c' & -> & Hwf' & Hc' & Hfr & Hm & Hf & Hcb & Hl & Hr & Hw);
      [by do 2 apply wf_add_locks|done|].
    eexists _, c'. split; [done|]. split; [done|]. split; [done|]. split; [done|].
    split; [done|]. repeat split; simpl in *; lia || done.
Qed.

(** ** Runs *)

Inductive op := Send (d : Z) | Recv.

(** A run of non-blocking operations: what each receive returned. *)
Fixpoint run (c : chan_t) (ops : list op) : outcome (list (option Z) * chan_t) :=
  match ops with
  | [] => Ret ([], c)
  | Send d :: ops' => '(_, c1) ← chan_send c d; run c1 ops'
  | Recv :: ops' =>
      '(_, x, c1) ← chan_recv_noblock c true;
      '(xs, c2) ← run c1 ops';
      Ret (x :: xs, c2)
  end.

Fixpoint spec_run (cap : Z) (q : list Z) (ops : list op) : list (option Z) * list Z :=
  match ops with
  | [] => ([], q)
  | Send d :: ops' => spec_run cap (fst (Spec.send cap q d)) ops'
  | Recv :: ops' =>
      let '(x, q1) := Spec.recv q in
      let '(xs, q2) := spec_run cap q1 ops' in
      (x :: xs, q2)
  end.

(** C27. Every run of sends and non-blocking receives on an open channel
    returns what the same run of the bounded dropping queue returns, leaves
    its contents, and holds no lock more than before. *)
Theorem chan_run_refines (c : chan_t) (ops : list op) (Hwf : wf c) (Hopen : closed c = false) :
  exists xs c', run c ops = Ret (xs, c') /\ wf c' /\
    spec_run (max_idx c) (contents c) ops = (xs, contents c') /\ same_frame c c'.
Proof.
  revert c Hwf Hopen. induction ops as [|[d|] ops IH]; intros c Hwf Hopen; simpl.
  - by exists [], c.
  - destruct (chan_send_spec c d Hwf Hopen) as (c1 & dr & -> & Hwf1 & Hs & _ & Hsf).
    pose proof Hsf as (Hm & Hf & _). simpl.
    destruct (IH c1 Hwf1) as (xs & c' & -> & Hwf' & Hr & Hsf'); [unfold closed in *; congruence|].
    exists xs, c'. split; [done|]. split; [done|]. rewrite Hs. simpl. split; [congruence|].
    by apply (same_frame_trans c c1).
  - destruct (recv_noblock_refines c Hwf Hopen) as (r & c1 & -> & _ & Hwf1 & Hs & _ & Hsf).
    pose proof Hsf as (Hm & Hf & _). simpl.
    destruct (IH c1 Hwf1) as (xs & c' & -> & Hwf' & Hr & Hsf'); [unfold closed in *; congruence|].
    simpl. eexists _, c'. split; [done|]. split; [done|]. split; [|by apply (same_frame_trans c c1)].
    destruct (Spec.recv (contents c)) as [x q1]. simpl in *. rewrite <- Hs, <- Hm, Hr. done.
Qed.

Lemma chan_run_refines_witness :
  exists xs c', run full_chan [Send 14; Recv; Recv; Send 15; Recv] = Ret (xs, c') /\
    xs = [Some 12; Some 13; Some 14].
Proof.
  destruct (chan_run_refines full_chan [Send 14; Recv; Recv; Send 15; Recv] full_chan_wf)
    as (xs & c' & E & _ & Hs & _).
  - reflexivity.
  - exists xs, c'. split; [exact E|].
    change (spec_run (max_idx full_chan) (contents full_chan)
      [Send 14; Recv; Recv; Send 15; Recv]) with ([Some 12; Some 13; Some 14], [15]) in Hs.
    injection Hs as Hx _. congruence.
Defined.

(** ** Closing *)

Lemma drain_spec fuel : forall c,
  wf c -> (length (contents c) < fuel)%nat ->
  exists c', drain fuel c = Ret c' /\ wf c' /\ contents c' = [] /\
    freed c' = freed c ++ freed_by c (contents c) /\ same_frame c c'.
Proof.
  induction fuel as [|fuel IH]; intros c Hwf Hf; [lia|]. simpl.
  destruct (contents c) as [|d q] eqn:Hq.
  - rewrite (proj2 (Z.eqb_eq _ _)) by by apply contents_nil. exists c. split; [done|].
    split; [done|]. split; [done|]. unfold freed_by. by destruct (free_cb c); rewrite app_nil_r.
  - rewrite (proj2 (Z.eqb_neq _ _)) by (intros E%contents_nil; [congruence|done]).
    destruct (take_head_contents c d q Hwf Hq) as (c1 & -> & Hwf1 & Hc1 & Hsf & Hfr & _). simpl.
    rewrite cleanup_freed. pose proof Hsf as (Hm & Hfl & Hcb & _).
    destruct (IH (set_freed c1 (freed c1 ++ freed_by c1 [d]))) as (c' & -> & Hwf' & Hc' & Hfr' & Hsf').
    { by destruct Hwf1. }
    { change (contents (set_freed c1 _)) with (contents c1). rewrite Hc1. simpl in Hf. lia. }
    exists c'. split; [done|]. split; [done|]. split; [done|].
    split; [|by apply (same_frame_trans c c1)].
    rewrite Hfr'. change (contents (set_freed c1 _)) with (contents c1). rewrite Hc1. simpl freed.
    rewrite Hfr, <- app_assoc. f_equal. unfold freed_by. simpl. rewrite Hcb.
    destruct (free_cb c); [|done]. by rewrite <- filter_app.
Qed.

Lemma closed_set_closed fl : Z.land (Z.lor fl CHAN_CLOSED) CHAN_CLOSED <> 0.
Proof.
  intros H. apply (f_equal (fun x => Z.testbit x 0)) in H.
  rewrite Z.land_spec, Z.lor_spec in H. simpl in H. by rewrite orb_true_r in H.
Qed.

(** Closing an open channel empties it, hands every remaining non-null
    element to the free callback, oldest first, marks it closed, so that later
    sends fail, and releases its locks. *)
Theorem chan_close_drains (c : chan_t) (Hwf : wf c) (Hopen : closed c = false) :
  exists c', chan_close c = Ret (0, c') /\ contents c' = [] /\
    freed c' = freed c ++ freed_by c (contents c) /\ closed c' = true /\
    (forall d, chan_send c' d = Ret (-1, c')) /\
    lk_lock c' = lk_lock c /\ lk_writer c' = lk_writer c /\ lk_reader c' = lk_reader c.
Proof.
  unfold chan_close. rewrite Hopen. set (c2 := set_flags _ _).
  assert (Hwf2 : wf c2) by by destruct Hwf.
  destruct (drain_spec (drain_fuel c2) c2) as (c3 & -> & Hwf3 & Hc3 & Hf3 & Hsf); [done| |].
  { pose proof (contents_length c2 Hwf2). pose proof (count_range c2 Hwf2).
    unfold drain_fuel. lia. }
  destruct Hsf as (Hm & Hfl & Hcb & Hl & Hr & Hw). simpl.
  assert (Hcl : closed c3 = true).
  { unfold closed. rewrite Hfl. apply negb_true_iff, Z.eqb_neq. apply closed_set_closed. }
  eexists. split; [done|]. split; [exact Hc3|]. split; [exact Hf3|]. split; [exact Hcl|].
  split; [|simpl in *; lia].
  intros d. unfold chan_send. by change (closed (unlock_writer (unlock_lock c3))) with (closed c3);
    rewrite Hcl.
Qed.

Lemma chan_close_drains_witness :
  exists c', chan_close full_chan = Ret (0, c') /\ freed c' = [11; 12; 13].
Proof.
  destruct (chan_close_drains full_chan full_chan_wf) as (c' & E & _ & Hf & _).
  - reflexivity.
  - exists c'. split; [exact E|exact Hf].
Defined.

(** On an open empty channel, with the waits of the source commented out,
    [chan_recv] fails its assertion, and [chan_wait] returns success while
    still holding the reader lock. *)
Theorem empty_channel (c : chan_t) (Hwf : wf c) (Hopen : closed c = false)
    (Hempty : contents c = []) :
  (forall want, chan_recv c want = Panic) /\
  exists c', chan_wait c = (0, c') /\ lk_reader c' = lk_reader c + 1 /\ lk_lock c' = lk_lock c.
Proof.
  apply contents_nil in Hempty; [|done]. split.
  - intros want. unfold chan_recv. rewrite Hopen. simpl.
    rewrite (proj2 (Z.eqb_eq _ _)) by done. unfold closed in *. simpl. rewrite Hopen.
    unfold finish_recv. simpl. by rewrite (proj2 (Z.eqb_eq _ _)) by done.
  - unfold chan_wait. rewrite Hopen. simpl. rewrite (proj2 (Z.eqb_eq _ _)) by done.
    unfold closed in *. simpl. rewrite Hopen. eexists. split; [done|]. simpl. lia.
Qed.

Lemma empty_channel_witness :
  chan_recv (mk_chan 0 2 2 3 [0; 0; 0; 0] false [] 0 0 0) true = Panic.
Proof.
  destruct (empty_channel (mk_chan 0 2 2 3 [0; 0; 0; 0] false [] 0 0 0)) as [H _].
  - split; simpl; lia.
  - reflexivity.
  - reflexivity.
  - exact (H true).
Defined.
