(* ===== verification/Kio.v ===== *)
(** * kernel/kio.c: transfers to and from buffers and iovecs

    A transfer keeps its own position in one buffer or in an array of
    segments.  Buffers are byte lists; copies outside of them are faults. *)

From S2P Require Import Prelude.
From stdpp Require Import list.
Local Open Scope Z_scope.

(** ** State *)

Inductive kio_dir_t := KIO_WRITE | KIO_READ.

#[export] Instance kio_dir_eq_dec : EqDecision kio_dir_t.
Proof. solve_decision. Defined.

(** The two kinds of transfer; a segment's list is its [iov_len] bytes. *)
Inductive kio_kind_t :=
  | KIO_BUF (base : list Z) (off : Z)
  | KIO_IOV (arr : list (list Z)) (idx off t_off : Z).

Record kio_t := mk_kio {
  kind : kio_kind_t;
  dir : kio_dir_t;
  size : Z;
}.

Definition with_kind (k : kio_t) (x : kio_kind_t) : kio_t := mk_kio x (dir k) (size k).

Definition zlen {A} (l : list A) : Z := Z.of_nat (length l).

Definition kio_new_writable (base : list Z) (len : Z) : kio_t :=
  mk_kio (KIO_BUF base 0) KIO_WRITE len.
Definition kio_new_readable (base : list Z) (len : Z) : kio_t :=
  mk_kio (KIO_BUF base 0) KIO_READ len.

(** [size += iov[i].iov_len]. *)
Fixpoint iov_size (arr : list (list Z)) (acc : Z) : Z :=
  match arr with [] => acc | s :: arr' => iov_size arr' (u64 (acc + zlen s)) end.

Definition kio_new_writablev (arr : list (list Z)) : kio_t :=
  mk_kio (KIO_IOV arr 0 0 0) KIO_WRITE (iov_size arr 0).
Definition kio_new_readablev (arr : list (list Z)) : kio_t :=
  mk_kio (KIO_IOV arr 0 0 0) KIO_READ (iov_size arr 0).

Definition kio_transfered (k : kio_t) : Z :=
  match kind k with KIO_BUF _ off => off | KIO_IOV _ _ _ t_off => t_off end.
Definition kio_remaining (k : kio_t) : Z := u64 (size k - kio_transfered k).

(** ** Copies *)

(** [n] bytes of [l] from [off]. *)
Definition read_at (l : list Z) (off n : Z) : outcome (list Z) :=
  if (0 <=? off) && (0 <=? n) && (off + n <=? zlen l)
  then Ret (take (Z.to_nat n) (drop (Z.to_nat off) l)) else Fault.

(** [l] with the bytes [s] at [off]. *)
Definition write_at (l : list Z) (off : Z) (s : list Z) : outcome (list Z) :=
  if (0 <=? off) && (off + zlen s <=? zlen l)
  then Ret (take (Z.to_nat off) l ++ s ++ drop (Z.to_nat off + length s) l) else Fault.

(** ** The segment loop

    [while (n > 0)] over the segments: [act] handles [m] bytes of the current
    segment at the current offset.  [track] says whether the transfer offset
    is kept.  The result is the final [n], which the loop leaves at the size
    of the last piece, the position, and the action's state. *)

Section iov_loop.
Context {St : Type} (act : list Z -> Z -> Z -> St -> outcome (list Z * St)) (track : bool).

Fixpoint iov_loop (fuel : nat) (arr : list (list Z)) (idx off t_off n : Z) (st : St)
    : outcome (Z * kio_kind_t * St) :=
  match fuel with
  | O => NoFuel
  | S f =>
      if n =? 0 then Ret (n, KIO_IOV arr idx off t_off, st)
      else
        seg ← load arr idx;
        let iov_remain := u64 (zlen seg - off) in
        if n <=? iov_remain then
          '(seg', st') ← act seg off n st;
          arr' ← store arr idx seg';
          let t_off' := if track then u64 (t_off + n) else t_off in
          if n =? iov_remain
          then Ret (n, KIO_IOV arr' (u32 (idx + 1)) 0 t_off', st')
          else Ret (n, KIO_IOV arr' idx (u64 (off + n)) t_off', st')
        else
          '(seg', st') ← act seg off iov_remain st;
          arr' ← store arr idx seg';
          let t_off' := if track then u64 (t_off + iov_remain) else t_off in
          iov_loop f arr' (u32 (idx + 1)) (u64 (off + iov_remain)) t_off' (n - iov_remain) st'
  end.
End iov_loop.
#[global] Arguments iov_loop : simpl never.

(** ** Operations *)

(** [len - off] bytes, at most what remains and at most [n] unless it is 0. *)
Definition clip (remain len off n : Z) : Z :=
  let to_copy := len - off in
  let to_copy := if remain <? to_copy then remain else to_copy in
  if (0 <? n) && (n <? to_copy) then n else to_copy.

(** Copies from the segment to [buf] at the state's offset. *)
Definition act_read (seg : list Z) (off m : Z) (st : list Z * Z)
    : outcome (list Z * (list Z * Z)) :=
  let '(buf, boff) := st in
  s ← read_at seg off m;
  buf' ← write_at buf boff s;
  Ret (seg, (buf', boff + m)).

(** Copies from [buf] at the state's offset into the segment. *)
Definition act_write (seg : list Z) (off m : Z) (st : list Z * Z)
    : outcome (list Z * (list Z * Z)) :=
  let '(buf, boff) := st in
  s ← read_at buf boff m;
  seg' ← write_at seg off s;
  Ret (seg', (buf, boff + m)).

Definition act_fill (byte : Z) (seg : list Z) (off m : Z) (st : unit)
    : outcome (list Z * unit) :=
  seg' ← write_at seg off (replicate (Z.to_nat m) byte);
  Ret (seg', tt).

Definition act_none (seg : list Z) (off m : Z) (st : unit) : outcome (list Z * unit) :=
  Ret (seg, tt).

(** The result, the new contents of [buf], and the transfer. *)
Definition kio_nread_out (buf : list Z) (len off n : Z) (k : kio_t)
    : outcome (Z * list Z * kio_t) :=
  _ ← kassert (bool_decide (dir k = KIO_READ));
  let remain := kio_remaining k in
  if len <=? off then Ret (0, buf, k)
  else
    let to_copy := clip remain len off n in
    if to_copy =? 0 then Ret (0, buf, k)
    else
      match kind k with
      | KIO_BUF base o =>
          s ← read_at base o to_copy;
          buf' ← write_at buf off s;
          Ret (to_copy, buf', with_kind k (KIO_BUF base (u64 (o + to_copy))))
      | KIO_IOV arr idx o t_off =>
          '(r, x, (buf', _)) ←
            iov_loop act_read true (S (length arr)) arr idx o t_off to_copy (buf, off);
          Ret (r, buf', with_kind k x)
      end.

Definition kio_nwrite_in (k : kio_t) (buf : list Z) (len off n : Z) : outcome (Z * kio_t) :=
  _ ← kassert (bool_decide (dir k = KIO_WRITE));
  let remain := kio_remaining k in
  if len <=? off then Ret (0, k)
  else
    let to_copy := clip remain len off n in
    if to_copy =? 0 then Ret (0, k)
    else
      match kind k with
      | KIO_BUF base o =>
          s ← read_at buf off to_copy;
          base' ← write_at base o s;
          Ret (to_copy, with_kind k (KIO_BUF base' (u64 (o + to_copy))))
      | KIO_IOV arr idx o t_off =>
          '(r, x, _) ←
            iov_loop act_write true (S (length arr)) arr idx o t_off to_copy (buf, off);
          Ret (r, with_kind k x)
      end.

(** Writes a piece of a source segment into the destination transfer. *)
Definition act_transfer (seg : list Z) (off m : Z) (dst : kio_t) : outcome (list Z * kio_t) :=
  '(_, dst') ← kio_nwrite_in dst seg (zlen seg) off m;
  Ret (seg, dst').

Definition kio_transfer (dst src : kio_t) : outcome (Z * kio_t * kio_t) :=
  _ ← kassert (bool_decide (dir dst = KIO_WRITE));
  _ ← kassert (bool_decide (dir src = KIO_READ));
  let remain := kio_remaining dst in
  let to_copy := kio_remaining src in
  let to_copy := if remain <? to_copy then remain else to_copy in
  match kind src with
  | KIO_BUF base o =>
      '(_, dst') ← kio_nwrite_in dst base (size src) o to_copy;
      Ret (to_copy, dst', with_kind src (KIO_BUF base (u64 (o + to_copy))))
  | KIO_IOV arr idx o t_off =>
      '(r, x, dst') ← iov_loop act_transfer false (S (length arr)) arr idx o t_off to_copy dst;
      Ret (r, dst', with_kind src x)
  end.

Definition kio_fill (k : kio_t) (byte len : Z) : outcome (Z * kio_t) :=
  _ ← kassert (bool_decide (dir k = KIO_WRITE));
  let remain := kio_remaining k in
  let len := if remain <? len then remain else len in
  if len =? 0 then Ret (0, k)
  else
    match kind k with
    | KIO_BUF base o =>
        base' ← write_at base o (replicate (Z.to_nat len) byte);
        Ret (len, with_kind k (KIO_BUF base' (u64 (o + len))))
    | KIO_IOV arr idx o t_off =>
        '(r, x, _) ← iov_loop (act_fill byte) true (S (length arr)) arr idx o t_off len tt;
        Ret (r, with_kind k x)
    end.

Definition kio_drain (k : kio_t) (len : Z) : outcome (Z * kio_t) :=
  _ ← kassert (bool_decide (dir k = KIO_READ));
  let remain := kio_remaining k in
  let len := if remain <? len then remain else len in
  if len =? 0 then Ret (0, k)
  else
    match kind k with
    | KIO_BUF base o => Ret (len, with_kind k (KIO_BUF base (u64 (o + len))))
    | KIO_IOV arr idx o t_off =>
        '(r, x, _) ← iov_loop act_none true (S (length arr)) arr idx o t_off len tt;
        Ret (r, with_kind k x)
    end.

Definition kio_read_out (buf : list Z) (len off : Z) (k : kio_t) : outcome (Z * list Z * kio_t) :=
  kio_nread_out buf len off 0 k.
Definition kio_write_in (k : kio_t) (buf : list Z) (len off : Z) : outcome (Z * kio_t) :=
  kio_nwrite_in k buf len off 0.
Definition kio_read_ch (ch : Z) (k : kio_t) : outcome (Z * list Z * kio_t) :=
  kio_read_out [ch] 1 0 k.
Definition kio_write_ch (k : kio_t) (ch : Z) : outcome (Z * kio_t) := kio_write_in k [ch] 1 0.
Definition kio_remfill (k : kio_t) (byte : Z) : outcome (Z * kio_t) :=
  kio_fill k byte (kio_remaining k).

(** ** Properties of buffer transfers *)

(** [k] is a transfer in direction [d] over a buffer holding all of its
    [size] bytes, at position [o]. *)
Definition buf_at (k : kio_t) (d : kio_dir_t) (base : list Z) (o : Z) : Prop :=
  dir k = d /\ kind k = KIO_BUF base o /\ 0 <= o <= size k /\ size k <= zlen base < 2 ^ 64.

(** [l] with [s] in place of the bytes from [off]. *)
Definition splice (l : list Z) (off : Z) (s : list Z) : list Z :=
  take (Z.to_nat off) l ++ s ++ drop (Z.to_nat off + length s) l.

(** [m] bytes of [l] from [off]. *)
Definition slice (l : list Z) (off m : Z) : list Z :=
  take (Z.to_nat m) (drop (Z.to_nat off) l).

Lemma splice_nil (l : list Z) (off : Z) : splice l off [] = l.
Proof. unfold splice. simpl. rewrite Nat.add_0_r. apply take_drop. Qed.

Lemma slice_length (l : list Z) (off m : Z) :
  0 <= off -> 0 <= m -> off + m <= zlen l -> zlen (slice l off m) = m.
Proof. intros. unfold slice, zlen in *. rewrite length_take, length_drop. lia. Qed.

Lemma splice_length (l s : list Z) (off : Z) :
  0 <= off -> off + zlen s <= zlen l -> zlen (splice l off s) = zlen l.
Proof.
  intros Ho Hs. unfold splice, zlen in *. rewrite !length_app, length_take, length_drop. lia.
Qed.

Lemma read_at_slice (l : list Z) (off m : Z) :
  0 <= off -> 0 <= m -> off + m <= zlen l -> read_at l off m = Ret (slice l off m).
Proof.
  intros. unfold read_at.
  rewrite (proj2 (Z.leb_le 0 off)), (proj2 (Z.leb_le 0 m)), (proj2 (Z.leb_le (off + m) _)) by done.
  done.
Qed.

Lemma write_at_splice (l s : list Z) (off : Z) :
  0 <= off -> off + zlen s <= zlen l -> write_at l off s = Ret (splice l off s).
Proof.
  intros. unfold write_at.
  rewrite (proj2 (Z.leb_le 0 off)), (proj2 (Z.leb_le (off + _) _)) by done.
  done.
Qed.

Lemma remaining_buf (k : kio_t) (d : kio_dir_t) (base : list Z) (o : Z) :
  buf_at k d base o -> kio_remaining k = size k - o.
Proof.
  intros (_ & Hk & Ho & Hs). unfold kio_remaining, kio_transfered. rewrite Hk.
  apply (wrap_small 64). unfold fits. lia.
Qed.

(** The bytes an operation moves: what is asked for, within what remains. *)
Definition moved (remain len off n : Z) : Z :=
  Z.min (len - off) (Z.min remain (if n =? 0 then len - off else n)).

Lemma clip_moved (remain len off n : Z) : 0 <= n -> clip remain len off n = moved remain len off n.
Proof.
  intros. unfold clip, moved. destruct (Z.ltb_spec remain (len - off)); zcases; simpl; lia.
Qed.

Lemma with_kind_buf (k : kio_t) (d : kio_dir_t) (base base' : list Z) (o o' : Z) :
  buf_at k d base o -> 0 <= o' <= size k -> zlen base' = zlen base ->
  buf_at (with_kind k (KIO_BUF base' (u64 o'))) d base' o'.
Proof.
  intros (Hd & Hk & Ho & Hs) Ho' Hl. unfold buf_at. simpl.
  rewrite (wrap_small 64 o') by (unfold fits; lia). repeat split; try done; lia.
Qed.

Lemma with_kind_same (k : kio_t) : with_kind k (kind k) = k.
Proof. by destruct k. Qed.

Lemma moved_range (k : kio_t) (d : kio_dir_t) (base : list Z) (o len off n : Z) :
  buf_at k d base o -> 0 <= off <= len -> 0 <= n ->
  0 <= moved (size k - o) len off n <= size k - o /\ off + moved (size k - o) len off n <= len.
Proof. intros (_ & _ & Ho & _) Hoff Hn. unfold moved. zcases. Qed.

Lemma buf_at_pos (k : kio_t) (d : kio_dir_t) (base : list Z) (o m : Z) :
  buf_at k d base o -> 0 <= m <= size k - o -> u64 (o + m) = o + m /\ o + m <= zlen base.
Proof.
  intros (_ & _ & Ho & Hs) Hm. split; [|lia]. apply (wrap_small 64). unfold fits. lia.
Qed.

Lemma nread_buf (buf base : list Z) (len off n o : Z) (k : kio_t) :
  buf_at k KIO_READ base o -> 0 <= off <= len -> len <= zlen buf -> 0 <= n ->
  kio_nread_out buf len off n k =
    let m := moved (size k - o) len off n in
    Ret (m, splice buf off (slice base o m), with_kind k (KIO_BUF base (o + m))).
Proof.
  intros Hb Hoff Hlen Hn. pose proof (moved_range _ _ _ _ _ _ _ Hb Hoff Hn) as [Hm Hm'].
  pose proof Hb as (Hd & Hk & Ho & Hs).
  unfold kio_nread_out. rewrite Hd, (remaining_buf _ _ _ _ Hb), clip_moved by done. simpl.
  set (m := moved _ _ _ _) in *. cbv zeta.
  destruct (Z.eq_dec m 0) as [E|E].
  - rewrite E. change (slice base o 0) with (@nil Z).
    rewrite splice_nil, (Z.add_0_r o), <- Hk, with_kind_same.
    by destruct (len <=? off).
  - rewrite (proj2 (Z.leb_gt len off)), (proj2 (Z.eqb_neq m 0)), Hk by lia.
    destruct (buf_at_pos _ _ _ _ m Hb Hm) as [-> Hin].
    rewrite read_at_slice by lia. simpl.
    by rewrite write_at_splice by (rewrite ?slice_length; lia).
Qed.

Lemma nwrite_buf (buf base : list Z) (len off n o : Z) (k : kio_t) :
  buf_at k KIO_WRITE base o -> 0 <= off <= len -> len <= zlen buf -> 0 <= n ->
  kio_nwrite_in k buf len off n =
    let m := moved (size k - o) len off n in
    Ret (m, with_kind k (KIO_BUF (splice base o (slice buf off m)) (o + m))).
Proof.
  intros Hb Hoff Hlen Hn. pose proof (moved_range _ _ _ _ _ _ _ Hb Hoff Hn) as [Hm Hm'].
  pose proof Hb as (Hd & Hk & Ho & Hs).
  unfold kio_nwrite_in. rewrite Hd, (remaining_buf _ _ _ _ Hb), clip_moved by done. simpl.
  set (m := moved _ _ _ _) in *. cbv zeta.
  destruct (Z.eq_dec m 0) as [E|E].
  - rewrite E. change (slice buf off 0) with (@nil Z).
    rewrite splice_nil, (Z.add_0_r o), <- Hk, with_kind_same.
    by destruct (len <=? off).
  - rewrite (proj2 (Z.leb_gt len off)), (proj2 (Z.eqb_neq m 0)), Hk by lia.
    destruct (buf_at_pos _ _ _ _ m Hb Hm) as [-> Hin].
    rewrite read_at_slice by lia. simpl.
    by rewrite write_at_splice by (rewrite ?slice_length; lia).
Qed.

(** Reading from a buffer transfer moves what was asked for, within what
    remains and what the destination holds: those bytes of the source replace
    the destination's bytes from [off], nothing else changes, the position
    advances by the returned count, and the transfer stays well formed. *)
Theorem kio_nread_out_buf (buf base : list Z) (len off n o : Z) (k : kio_t)
    (Hk : buf_at k KIO_READ base o) (Hoff : 0 <= off <= len) (Hlen : len <= zlen buf)
    (Hn : 0 <= n) :
  let m := Z.min (len - off) (Z.min (size k - o) (if n =? 0 then len - off else n)) in
  exists k', kio_nread_out buf len off n k = Ret (m, splice buf off (slice base o m), k') /\
    buf_at k' KIO_READ base (o + m) /\ kio_remaining k' = kio_remaining k - m.
Proof.
  intros m. change m with (moved (size k - o) len off n). clear m.
  pose proof (moved_range _ _ _ _ _ _ _ Hk Hoff Hn) as [Hm Hm'].
  rewrite (nread_buf _ base _ _ _ o) by done. cbv zeta.
  set (m := moved _ _ _ _) in *. eexists. split; [done|].
  assert (Hb : buf_at (with_kind k (KIO_BUF base (o + m))) KIO_READ base (o + m)).
  { rewrite <- (proj1 (buf_at_pos _ _ _ _ m Hk Hm)) at 1. pose proof Hk as (_ & _ & ? & _).
    apply (with_kind_buf k KIO_READ base base o); done || lia. }
  split; [done|]. rewrite (remaining_buf _ _ _ _ Hb), (remaining_buf _ _ _ _ Hk). simpl. lia.
Qed.

Lemma kio_nread_out_buf_witness :
  let k := mk_kio (KIO_BUF [1; 2; 3; 4] 1) KIO_READ 4 in
  exists k', kio_nread_out [9; 9; 9; 9; 9] 5 1 2 k = Ret (2, [9; 2; 3; 9; 9], k') /\
    buf_at k' KIO_READ [1; 2; 3; 4] 3 /\ kio_remaining k' = 1.
Proof.
  intros k. refine (kio_nread_out_buf [9; 9; 9; 9; 9] [1; 2; 3; 4] 5 1 2 1 k _ _ _ _).
  - by unfold buf_at.
  - lia.
  - done.
  - lia.
Defined.

(** A transfer between two buffers moves as many bytes as both sides have
    left, copies exactly those bytes of the source over the destination, and
    advances both positions by the returned count. *)
Theorem kio_transfer_buf (dst src : kio_t) (dbase sbase : list Z) (d s : Z)
    (Hdst : buf_at dst KIO_WRITE dbase d) (Hsrc : buf_at src KIO_READ sbase s) :
  let m := Z.min (size dst - d) (size src - s) in
  exists dst' src', kio_transfer dst src = Ret (m, dst', src') /\
    buf_at dst' KIO_WRITE (splice dbase d (slice sbase s m)) (d + m) /\
    buf_at src' KIO_READ sbase (s + m).
Proof.
  intros m. pose proof Hdst as (Hdd & _ & Hdo & Hds). pose proof Hsrc as (Hsd & Hsk & Hso & Hss).
  assert (Hmv : moved (size dst - d) (size src) s m = m) by (unfold moved, m; zcases).
  unfold kio_transfer.
  rewrite Hdd, Hsd, (remaining_buf _ _ _ _ Hdst), (remaining_buf _ _ _ _ Hsrc), Hsk. simpl.
  replace (if size dst - d <? size src - s then _ else _) with m by (unfold m; zcases).
  rewrite (nwrite_buf sbase dbase _ _ _ d) by (done || lia). rewrite Hmv. simpl.
  do 2 eexists. split; [done|].
  assert (Hm : 0 <= m <= size dst - d) by lia.
  rewrite <- (proj1 (buf_at_pos _ _ _ _ m Hdst Hm)) at 1. split.
  - apply (with_kind_buf dst KIO_WRITE dbase _ d); [done|lia|].
    apply splice_length; rewrite ?slice_length; lia.
  - apply (with_kind_buf src KIO_READ sbase sbase s); done || lia.
Qed.

Lemma kio_transfer_buf_witness :
  let dst := mk_kio (KIO_BUF [9; 9; 9] 1) KIO_WRITE 3 in
  let src := mk_kio (KIO_BUF [1; 2; 3; 4] 1) KIO_READ 4 in
  exists dst' src', kio_transfer dst src = Ret (2, dst', src') /\
    buf_at dst' KIO_WRITE [9; 2; 3] 3 /\ buf_at src' KIO_READ [1; 2; 3; 4] 3.
Proof.
  intros dst src. refine (kio_transfer_buf dst src [9; 9; 9] [1; 2; 3; 4] 1 1 _ _);
    by unfold buf_at.
Defined.

(** ** Segment transfers *)

Lemma iov_loop_next {St} (act : list Z -> Z -> Z -> St -> outcome (list Z * St)) track f
    arr idx off t_off n st seg seg' st' :
  load arr idx = Ret seg -> u64 (zlen seg - off) < n -> 0 < n ->
  act seg off (u64 (zlen seg - off)) st = Ret (seg', st') ->
  iov_loop act track (S f) arr idx off t_off n st =
    (arr' ← store arr idx seg';
     iov_loop act track f arr' (u32 (idx + 1)) (u64 (off + u64 (zlen seg - off)))
       (if track then u64 (t_off + u64 (zlen seg - off)) else t_off)
       (n - u64 (zlen seg - off)) st').
Proof.
  intros Hl Hn Hp Ha. unfold iov_loop at 1. fold (@iov_loop St act track).
  rewrite (proj2 (Z.eqb_neq n 0)) by lia. rewrite Hl. simpl.
  by rewrite (proj2 (Z.leb_gt n _)), Ha by done.
Qed.

Lemma iov_size_two (a b : list Z) :
  zlen a + zlen b < 2 ^ 64 -> iov_size [a; b] 0 = zlen a + zlen b.
Proof.
  intros. pose proof (Zle_0_nat (length a)). pose proof (Zle_0_nat (length b)).
  unfold zlen in *. simpl.
  by rewrite !(wrap_small 64) by (rewrite ?(wrap_small 64); unfold fits, zlen; lia).
Qed.

Lemma second_segment_fault (a b buf : list Z) (t m boff : Z) :
  0 < zlen b <= zlen a -> zlen a < 2 ^ 64 -> 0 < m <= zlen b -> 0 <= boff <= zlen buf ->
  iov_loop act_read true 2 [a; b] 1 (zlen a) t m (buf, boff) = Fault.
Proof.
  intros Hab Hmax Hm Hbuf. destruct (Z.eq_dec (zlen a) (zlen b)) as [E|E].
  - assert (Eb : u64 (zlen b - zlen a) = 0) by (rewrite E, Z.sub_diag; done).
    rewrite (iov_loop_next _ _ _ _ _ _ _ _ _ b b (buf, boff)); rewrite ?Eb; [|done|lia|lia|].
    { change (store _ 1 b) with (Ret [a; b]). simpl. unfold iov_loop.
      by rewrite (proj2 (Z.eqb_neq (m - 0) 0)) by lia. }
    simpl. rewrite read_at_slice by lia. simpl. change (slice b (zlen a) 0) with (@nil Z).
    rewrite write_at_splice by (change (zlen []) with 0; lia). simpl.
    by rewrite splice_nil, Z.add_0_r.
  - assert (Eb : u64 (zlen b - zlen a) = 2 ^ 64 + zlen b - zlen a).
    { unfold wrap. symmetry. apply (Z.mod_unique_pos _ _ (-1)); lia. }
    unfold iov_loop. rewrite (proj2 (Z.eqb_neq m 0)) by lia. simpl.
    rewrite Eb, (proj2 (Z.leb_le m _)) by lia.
    unfold read_at. by rewrite (proj2 (Z.leb_gt (zlen a + m) _)), andb_false_r by lia.
Qed.

(** The segment loop keeps the old segment's offset when it moves on to
    the next one.  Reading past the end of a first segment that is at least
    as long as the second therefore leaves the segments: the read faults
    although both segments and the destination are large enough. *)
Theorem kio_iov_second_segment (a b buf : list Z) (m : Z)
    (Hb : 0 < zlen b <= zlen a) (Hm : 0 < m <= zlen b) (Hbuf : zlen buf = zlen a + m)
    (Hmax : zlen a + zlen b < 2 ^ 64) :
  kio_nread_out buf (zlen buf) 0 0 (kio_new_readablev [a; b]) = Fault.
Proof.
  unfold kio_nread_out, kio_remaining, kio_new_readablev. rewrite iov_size_two by done. simpl.
  rewrite Z.sub_0_r, (wrap_small 64 (zlen a + zlen b)) by (unfold fits; lia).
  rewrite (proj2 (Z.leb_gt (zlen buf) 0)), clip_moved by lia.
  replace (moved _ _ _ _) with (zlen a + m) by (unfold moved; zcases).
  rewrite (proj2 (Z.eqb_neq (zlen a + m) 0)) by lia.
  assert (Ea : u64 (zlen a - 0) = zlen a)
    by (rewrite Z.sub_0_r; apply (wrap_small 64); unfold fits; lia).
  rewrite (iov_loop_next _ _ _ _ _ _ _ _ _ a a (splice buf 0 (slice a 0 (zlen a)), zlen a));
    rewrite ?Ea; [|done|lia|lia|].
  2:{ simpl. rewrite read_at_slice by lia. simpl.
      by rewrite write_at_splice by (rewrite ?slice_length; lia). }
  change (store _ 0 a) with (Ret [a; b]). simpl.
  rewrite !Z.add_0_l, Z.add_simpl_l, (wrap_small 64 (zlen a)) by (unfold fits; lia).
  change (u32 1) with 1. rewrite second_segment_fault; [done|lia|lia|lia|].
  rewrite splice_length; rewrite ?slice_length; lia.
Qed.

Lemma kio_iov_second_segment_witness :
  kio_nread_out [0; 0; 0; 0; 0] 5 0 0 (kio_new_readablev [[1; 2; 3]; [4; 5; 6]]) = Fault.
Proof.
  refine (kio_iov_second_segment [1; 2; 3] [4; 5; 6] [0; 0; 0; 0; 0] 2 _ _ _ _);
    by vm_compute.
Defined.
