(* ===== verification/PgCache.v ===== *)
(** * kernel/mm/pgcache.c: the radix tree of cached pages

    Nodes are owned by one slot each, so the tree is a value; a page is named
    by a number.  The index of a page is consumed from its low bits upwards,
    one digit per level. *)

From S2P Require Import Prelude.
From stdpp Require Import list.
Local Open Scope Z_scope.

(** ** State *)

Abbreviation PGCACHE_FANOUT := (16).

(** A node and what its [void *] slots hold: nothing, a node, or a page. *)
Inductive node := Node (slots : list slot) (leaf_count : Z)
with slot := Null | Inner (n : node) | Page (p : Z).

Definition slots (n : node) : list slot := let '(Node s _) := n in s.
Definition leaf_count (n : node) : Z := let '(Node _ c) := n in c.

(** A node of [kmallocz]. *)
Definition zero_node : node := Node (replicate 16 Null) 0.

(** [leaf_nodes] lists the leaves by the slots that lead to them. *)
Record pgcache := mk_pgcache {
  order : Z;
  bits_per_lvl : Z;
  pg_size : Z;
  max_capacity : Z;
  refcount : Z;
  root : node;
  leaf_nodes : list (list Z);
}.

Definition with_root (c : pgcache) (n : node) (leaves : list (list Z)) : pgcache :=
  mk_pgcache (order c) (bits_per_lvl c) (pg_size c) (max_capacity c) (refcount c) n
    (leaf_nodes c ++ leaves).

(** [63 - __builtin_clzll(x)], undefined at 0. *)
Definition log2 (x : Z) : outcome Z := if x =? 0 then Fault else Ret (Z.log2 x).

Definition pgcache_alloc (ord pg_sz : Z) : outcome pgcache :=
  bits ← log2 PGCACHE_FANOUT;
  n ← shl 64 1 ((ord + 1) * bits);
  Ret (mk_pgcache ord bits pg_sz (u64 (n * pg_sz)) 1 zero_node (if ord =? 0 then [[]] else [])).

(** ** Walking to a leaf *)

Section walk.
Context {R : Type} (insert : bool) (bits : Z) (act : node -> Z -> outcome (node * R)).

(** [internal_lookup_leaf] below a node with [k] levels left, followed by
    what its caller does at the leaf and slot it returns.  The result is the
    node, the leaves added, and the caller's result; [None] is a missing node
    that is not to be inserted. *)
Fixpoint walk (k : nat) (n : node) (off : Z) (path : list Z)
    : outcome (option (node * list (list Z) * R)) :=
  mask ← shl 32 1 bits;
  let idx := Z.land off (mask - 1) in
  _ ← kassert (idx <? PGCACHE_FANOUT);
  match k with
  | O => '(n', r) ← act n idx; Ret (Some (n', [], r))
  | S k' =>
      s ← load (slots n) idx;
      let path' := path ++ [idx] in
      match s with
      | Page _ => Fault
      | Null =>
          if insert then
            x ← walk k' zero_node (Z.shiftr off bits) path';
            match x with
            | Some (c', leaves, r) =>
                sl ← store (slots n) idx (Inner c');
                let leaves := if Nat.eqb k' 0 then path' :: leaves else leaves in
                Ret (Some (Node sl (leaf_count n), leaves, r))
            | None => Ret None
            end
          else Ret None
      | Inner c =>
          x ← walk k' c (Z.shiftr off bits) path';
          match x with
          | Some (c', leaves, r) =>
              sl ← store (slots n) idx (Inner c');
              Ret (Some (Node sl (leaf_count n), leaves, r))
          | None => Ret None
          end
      end
  end.
End walk.

Definition internal_lookup_leaf {R} (insert : bool) (act : node -> Z -> outcome (node * R))
    (t : pgcache) (off : Z) : outcome (option (pgcache * R)) :=
  _ ← kassert (off <? max_capacity t);
  sh ← log2 (pg_size t);
  x ← walk insert (bits_per_lvl t) act (Z.to_nat (order t)) (root t) (Z.shiftr off sh) [];
  match x with
  | Some (n, leaves, r) => Ret (Some (with_root t n leaves, r))
  | None => Ret None
  end.

(** ** Operations *)

(** The page in a slot of a leaf. *)
Definition slot_page (s : slot) : outcome (option Z) :=
  match s with Null => Ret None | Page p => Ret (Some p) | Inner _ => Fault end.

Definition act_get (n : node) (idx : Z) : outcome (node * option Z) :=
  s ← load (slots n) idx; p ← slot_page s; Ret (n, p).

(** Stores the page, counts it, and returns what was there. *)
Definition act_put (page : Z) (n : node) (idx : Z) : outcome (node * option Z) :=
  s ← load (slots n) idx;
  old ← slot_page s;
  sl ← store (slots n) idx (Page page);
  Ret (Node sl (u16 (leaf_count n + 1)), old).

(** Takes the page out, if there is one. *)
Definition act_take (n : node) (idx : Z) : outcome (node * option Z) :=
  s ← load (slots n) idx;
  old ← slot_page s;
  match old with
  | None => Ret (n, None)
  | Some _ =>
      sl ← store (slots n) idx Null;
      Ret (Node sl (u16 (leaf_count n - 1)), old)
  end.

Definition pgcache_lookup (c : pgcache) (off : Z) : outcome (option Z) :=
  if max_capacity c <=? off then Ret None
  else
    x ← internal_lookup_leaf false act_get c off;
    Ret (match x with Some (_, p) => p | None => None end).

(** The cache, the page given back through [out_old], and the pages dropped. *)
Definition pgcache_insert (c : pgcache) (off page : Z) (want_old : bool)
    : outcome (pgcache * option Z * list Z) :=
  if max_capacity c <=? off then Ret (c, None, [page])
  else
    x ← internal_lookup_leaf true (act_put page) c off;
    match x with
    | None => Panic
    | Some (c', old) =>
        if want_old then Ret (c', old, []) else Ret (c', None, option_list old)
    end.

Definition pgcache_remove (c : pgcache) (off : Z) (want_page : bool)
    : outcome (pgcache * option Z * list Z) :=
  if max_capacity c <=? off then Ret (c, None, [])
  else
    x ← internal_lookup_leaf false act_take c off;
    match x with
    | None => Ret (c, None, [])
    | Some (c', old) =>
        if want_page then Ret (c', old, []) else Ret (c', None, option_list old)
    end.

(** [pgcache_size_to_order]; the loop ends once [size] reaches the total, for
    which [fuel] bounds the multiplications. *)
Fixpoint size_to_order (fuel : nat) (total size ord : Z) : outcome Z :=
  match fuel with
  | O => NoFuel
  | S f =>
      if size <? total then size_to_order f total (u64 (size * PGCACHE_FANOUT)) (ord + 1)
      else Ret ord
  end.

Definition pgcache_size_to_order (total pg_sz : Z) : outcome Z :=
  size_to_order 17 total pg_sz 0.

(** ** The tree as a map from page indices to pages *)

Definition page_of (s : option slot) : option Z :=
  match s with Some (Page p) => Some p | _ => None end.

Fixpoint get (k : nat) (n : node) (i : Z) : option Z :=
  let s := slots n !! Z.to_nat (i mod 16) in
  match k with
  | O => page_of s
  | S k' => match s with Some (Inner c) => get k' c (i / 16) | _ => None end
  end.

(** A tree of [k] levels above its leaves, 16 slots to a node. *)
Fixpoint wf_node (k : nat) (n : node) : Prop :=
  length (slots n) = 16%nat /\
  Forall (fun s => match s, k with
                   | Null, _ => True
                   | Page _, O => True
                   | Inner c, S k' => wf_node k' c
                   | _, _ => False
                   end) (slots n).

#[global] Arguments wf_node : simpl never.
#[global] Arguments get : simpl never.

Lemma get_0 n i : get 0 n i = page_of (slots n !! Z.to_nat (i mod 16)).
Proof. done. Qed.

Lemma get_S k n i :
  get (S k) n i =
  match slots n !! Z.to_nat (i mod 16) with Some (Inner c) => get k c (i / 16) | _ => None end.
Proof. done. Qed.

(** Indices that lead to the same slot of a tree of [k] levels. *)
Definition same_slot (k : nat) (i j : Z) : Prop :=
  i mod 16 ^ (Z.of_nat k + 1) = j mod 16 ^ (Z.of_nat k + 1).

#[export] Instance same_slot_dec k i j : Decision (same_slot k i j).
Proof. unfold same_slot. apply _. Defined.

Lemma same_slot_S k i j :
  same_slot (S k) i j <-> i mod 16 = j mod 16 /\ same_slot k (i / 16) (j / 16).
Proof.
  unfold same_slot. replace (Z.of_nat (S k) + 1) with (1 + (Z.of_nat k + 1)) by lia.
  rewrite Z.pow_add_r by lia. change (16 ^ 1) with 16.
  assert (0 < 16 ^ (Z.of_nat k + 1)) by (apply Z.pow_pos_nonneg; lia).
  rewrite !Z.rem_mul_r by lia.
  pose proof (Z.mod_pos_bound i 16 ltac:(lia)). pose proof (Z.mod_pos_bound j 16 ltac:(lia)).
  split; [|intros [-> ->]; done]. intros E.
  assert (i mod 16 = j mod 16) by lia. split; [done|lia].
Qed.

Lemma same_slot_0 i j : same_slot 0 i j <-> i mod 16 = j mod 16.
Proof. done. Qed.

Lemma zero_node_wf k : wf_node k zero_node.
Proof. destruct k; (split; [done|]); by apply Forall_replicate. Qed.

Lemma get_zero_node k i : get k zero_node i = None.
Proof.
  assert (Hz : slots zero_node !! Z.to_nat (i mod 16) = Some Null).
  { apply lookup_replicate_2. pose proof (Z.mod_pos_bound i 16 ltac:(lia)). lia. }
  destruct k; by rewrite ?get_0, ?get_S, Hz.
Qed.

(** [act] returns the page of its slot and leaves [v] of it there. *)
Definition acts (act : node -> Z -> outcome (node * option Z)) (v : option Z -> option Z) : Prop :=
  forall n i, wf_node 0 n ->
    exists n', act n (i mod 16) = Ret (n', get 0 n i) /\ wf_node 0 n' /\
      forall j, get 0 n' j = if decide (same_slot 0 j i) then v (get 0 n i) else get 0 n j.

Lemma digit_range i : 0 <= i mod 16 < 16.
Proof. apply Z.mod_pos_bound. lia. Qed.

Lemma digit_inj i j : Z.to_nat (i mod 16) = Z.to_nat (j mod 16) <-> i mod 16 = j mod 16.
Proof. pose proof (digit_range i). pose proof (digit_range j). lia. Qed.

(** The slot of an index, and the node with it replaced. *)
Lemma slot_load n i : length (slots n) = 16%nat ->
  exists s, load (slots n) (i mod 16) = Ret s /\ slots n !! Z.to_nat (i mod 16) = Some s.
Proof. intros H. pose proof (digit_range i). apply load_in_range. lia. Qed.

Lemma slot_store n i s : length (slots n) = 16%nat ->
  store (slots n) (i mod 16) s = Ret (<[Z.to_nat (i mod 16) := s]> (slots n)).
Proof. intros H. pose proof (digit_range i). apply store_in_range. lia. Qed.

Lemma slot_lookup n i j s : length (slots n) = 16%nat ->
  <[Z.to_nat (i mod 16) := s]> (slots n) !! Z.to_nat (j mod 16) =
  if decide (j mod 16 = i mod 16) then Some s else slots n !! Z.to_nat (j mod 16).
Proof.
  intros H. pose proof (digit_range i). case_decide as E.
  - rewrite E. apply list_lookup_insert_eq. lia.
  - apply list_lookup_insert_ne. rewrite digit_inj. congruence.
Qed.

Lemma wf_insert k n i s c :
  wf_node k n ->
  match s, k with
  | Null, _ => True | Page _, O => True | Inner c', S k' => wf_node k' c' | _, _ => False
  end ->
  wf_node k (Node (<[Z.to_nat (i mod 16) := s]> (slots n)) c).
Proof.
  destruct k; intros [Hl Hf] Hs; (split; [by simpl; rewrite length_insert|]); simpl; by apply Forall_insert.
Qed.

Lemma leaf_slot n i s :
  wf_node 0 n -> slots n !! Z.to_nat (i mod 16) = Some s ->
  slot_page s = Ret (get 0 n i).
Proof.
  intros [_ Hf] Hs. rewrite get_0, Hs. pose proof (Forall_lookup_1 _ _ _ _ Hf Hs).
  by destruct s.
Qed.

Lemma get_leaf_insert n i j s c :
  wf_node 0 n ->
  get 0 (Node (<[Z.to_nat (i mod 16) := s]> (slots n)) c) j =
  if decide (same_slot 0 j i) then page_of (Some s) else get 0 n j.
Proof.
  intros [Hl _]. rewrite !get_0. cbn [slots]. rewrite slot_lookup by done.
  destruct (decide (j mod 16 = i mod 16)) as [E|E].
  - by rewrite decide_True by exact E.
  - by rewrite decide_False by exact E.
Qed.

Lemma get_same_slot k : forall n i j, same_slot k j i -> get k n j = get k n i.
Proof.
  induction k as [|k IH]; intros n i j E.
  - change (j mod 16 = i mod 16) in E. by rewrite !get_0, E.
  - apply same_slot_S in E as [E1 E2]. rewrite !get_S, E1.
    destruct (slots n !! _) as [[]|]; try done. by apply IH.
Qed.

Lemma act_get_acts : acts act_get id.
Proof.
  intros n i Hwf. destruct (slot_load n i (proj1 Hwf)) as (s & Hl & Hs).
  exists n. unfold act_get. rewrite Hl. simpl. rewrite (leaf_slot _ _ _ Hwf Hs). simpl.
  split; [done|]. split; [done|]. intros j. case_decide as E; [|done]. by apply get_same_slot.
Qed.

Lemma act_put_acts p : acts (act_put p) (fun _ => Some p).
Proof.
  intros n i Hwf. destruct (slot_load n i (proj1 Hwf)) as (s & Hl & Hs).
  eexists. unfold act_put. rewrite Hl. simpl. rewrite (leaf_slot _ _ _ Hwf Hs).
  rewrite slot_store by apply Hwf. split; [done|]. split; [by apply (wf_insert 0)|].
  intros j. by apply (get_leaf_insert n i j (Page p)).
Qed.

Lemma act_take_acts : acts act_take (fun _ => None).
Proof.
  intros n i Hwf. destruct (slot_load n i (proj1 Hwf)) as (s & Hl & Hs).
  unfold act_take. rewrite Hl. simpl. rewrite (leaf_slot _ _ _ Hwf Hs). simpl.
  destruct (get 0 n i) as [p|] eqn:Hg.
  - rewrite slot_store by apply Hwf. eexists. split; [done|]. split; [by apply (wf_insert 0)|].
    intros j. by apply (get_leaf_insert n i j Null).
  - exists n. split; [done|]. split; [done|]. intros j. case_decide as E; [|done].
    by rewrite (get_same_slot 0 n i j E).
Qed.

(** What a walk does, for a tree of [k] levels. *)
Definition walked (insert : bool) (v : option Z -> option Z) (k : nat) (n : node) (i : Z)
    (r : option (node * list (list Z) * option Z)) : Prop :=
  match r with
  | None => insert = false /\ get k n i = None
  | Some (n', _, old) => old = get k n i /\ wf_node k n' /\
      forall j, get k n' j = if decide (same_slot k j i) then v (get k n i) else get k n j
  end.

(** Putting the walked child [c'] of [c] back into its slot. *)
Lemma walked_up insert v k n i c c' lv lv' old :
  wf_node (S k) n -> (forall j, j mod 16 = i mod 16 -> get (S k) n j = get k c (j / 16)) ->
  walked insert v k c (i / 16) (Some (c', lv, old)) ->
  walked insert v (S k) n i
    (Some (Node (<[Z.to_nat (i mod 16) := Inner c']> (slots n)) (leaf_count n), lv', old)).
Proof.
  intros Hwf Hc (-> & Hwf' & Hget). rewrite <- (Hc i eq_refl).
  split; [done|]. split; [by apply (wf_insert (S k))|]. intros j.
  rewrite (get_S k (Node _ _)). cbn [slots].
  rewrite slot_lookup by apply Hwf. destruct (decide (j mod 16 = i mod 16)) as [E|E].
  - rewrite Hget, (Hc i eq_refl), (Hc j E). apply decide_ext. rewrite same_slot_S. tauto.
  - rewrite decide_False by (rewrite same_slot_S; tauto). done.
Qed.

Lemma walk_spec insert act v k : acts act v -> forall n i path,
  0 <= i -> wf_node k n ->
  exists r, walk insert 4 act k n i path = Ret r /\ walked insert v k n i r.
Proof.
  intros Ha. induction k as [|k IH]; intros n i path Hi Hwf; cbn [walk];
    change (shl 32 1 4) with (Ret 16); simpl mbind; cbv beta zeta; change (16 - 1) with (Z.ones 4);
    rewrite (Z.land_ones i 4) by lia; change (2 ^ 4) with 16;
    rewrite (proj2 (Z.ltb_lt _ PGCACHE_FANOUT)) by apply digit_range; simpl mbind.
  - destruct (Ha n i Hwf) as (n' & -> & Hwf' & Hget). by eexists.
  - rewrite (Z.shiftr_div_pow2 i 4) by lia. change (2 ^ 4) with 16.
    destruct (slot_load n i (proj1 Hwf)) as (s & -> & Hs). simpl.
    assert (0 <= i / 16) by (apply Z.div_pos; lia).
    pose proof (Forall_lookup_1 _ _ _ _ (proj2 Hwf) Hs) as Hk.
    assert (Hg : forall j, j mod 16 = i mod 16 -> get (S k) n j =
      match s with Inner c => get k c (j / 16) | _ => None end).
    { intros j E. by rewrite get_S, E, Hs. }
    destruct s as [|c|p]; [|simpl in Hk|done].
    + destruct insert; [|exists None; split; [done|split; [done|by rewrite (Hg i eq_refl)]]].
      destruct (IH zero_node (i / 16) (path ++ [i mod 16])) as (r & -> & Hw);
        [done|apply zero_node_wf|].
      destruct r as [[[c' lv] old]|]; [|by destruct Hw]. simpl. rewrite slot_store by apply Hwf.
      eexists. split; [done|]. apply (walked_up _ _ _ _ _ zero_node _ lv); [done| |done].
      intros j E. by rewrite (Hg j E), get_zero_node.
    + destruct (IH c (i / 16) (path ++ [i mod 16])) as (r & -> & Hw); [done..|].
      destruct r as [[[c' lv] old]|]; simpl.
      * rewrite slot_store by apply Hwf. eexists. split; [done|].
        by apply (walked_up _ _ _ _ _ c _ lv).
      * exists None. split; [done|]. destruct Hw as [-> Hw]. split; [done|]. by rewrite (Hg i eq_refl).
Qed.

(** ** Caches *)

Record wf (c : pgcache) : Prop := mk_wf {
  wf_order : 0 <= order c <= 12;
  wf_bits : bits_per_lvl c = 4;
  wf_pg : exists ps, 0 <= ps /\ pg_size c = 2 ^ ps;
  wf_cap : max_capacity c = 16 ^ (order c + 1) * pg_size c;
  wf_root : wf_node (Z.to_nat (order c)) (root c);
}.

Lemma wf_pg_pos c : wf c -> 0 < pg_size c.
Proof. intros W. destruct (wf_pg _ W) as (ps & ? & ->). apply Z.pow_pos_nonneg; lia. Qed.

(** Offsets below the capacity are in one slot exactly when on one page. *)
Lemma same_slot_page c off off' :
  wf c -> 0 <= off < max_capacity c -> 0 <= off' < max_capacity c ->
  same_slot (Z.to_nat (order c)) (off' / pg_size c) (off / pg_size c) <->
  off' / pg_size c = off / pg_size c.
Proof.
  intros W Ho Ho'. pose proof (wf_order _ W). pose proof (wf_pg_pos _ W).
  rewrite (wf_cap _ W) in *. unfold same_slot. rewrite Z2Nat.id by lia.
  assert (forall x, 0 <= x < 16 ^ (order c + 1) * pg_size c ->
    0 <= x / pg_size c < 16 ^ (order c + 1)) as Hd.
  { intros x Hx. split; [apply Z.div_pos; lia|]. apply Z.div_lt_upper_bound; lia. }
  by rewrite !Z.mod_small by (apply Hd; lia).
Qed.

Lemma lookup_leaf_spec insert act v c off :
  acts act v -> wf c -> 0 <= off < max_capacity c ->
  exists r, internal_lookup_leaf insert act c off = Ret r /\
    match r with
    | None => insert = false /\ get (Z.to_nat (order c)) (root c) (off / pg_size c) = None
    | Some (c', old) => old = get (Z.to_nat (order c)) (root c) (off / pg_size c) /\ wf c' /\
        order c' = order c /\ pg_size c' = pg_size c /\ max_capacity c' = max_capacity c /\
        forall j, get (Z.to_nat (order c)) (root c') j =
          if decide (same_slot (Z.to_nat (order c)) j (off / pg_size c)) then v old
          else get (Z.to_nat (order c)) (root c) j
    end.
Proof.
  intros Ha W Ho. destruct (wf_pg _ W) as (ps & Hps & Epg). pose proof (wf_pg_pos _ W).
  unfold internal_lookup_leaf, log2.
  rewrite (proj2 (Z.ltb_lt off _)), (proj2 (Z.eqb_neq (pg_size c) 0)), (wf_bits _ W) by lia. simpl.
  rewrite Epg, Z.log2_pow2, Z.shiftr_div_pow2, <- Epg by lia.
  destruct (walk_spec insert act v (Z.to_nat (order c)) Ha (root c) (off / pg_size c) [])
    as (r & -> & Hw); [apply Z.div_pos; lia|apply (wf_root _ W)|]. simpl.
  destruct r as [[[n lv] old]|]; simpl in *; [|by exists None].
  destruct Hw as (-> & Hwf & Hget). eexists. split; [done|]. simpl. split_and!; try done.
  destruct W. by split.
Qed.

Lemma lookup_get c off :
  wf c -> 0 <= off < max_capacity c ->
  pgcache_lookup c off = Ret (get (Z.to_nat (order c)) (root c) (off / pg_size c)).
Proof.
  intros W Ho. unfold pgcache_lookup. rewrite (proj2 (Z.leb_gt _ off)) by lia.
  destruct (lookup_leaf_spec false act_get id c off act_get_acts W Ho) as (r & -> & Hr).
  destruct r as [[c' old]|]; simpl.
  - by destruct Hr as [-> _].
  - by destruct Hr as [_ ->].
Qed.

(** What the cache answers after the page at [off] became [v]. *)
Lemma lookup_after c c' off v :
  wf c -> wf c' -> order c' = order c -> pg_size c' = pg_size c ->
  max_capacity c' = max_capacity c -> 0 <= off < max_capacity c ->
  (forall j, get (Z.to_nat (order c)) (root c') j =
     if decide (same_slot (Z.to_nat (order c)) j (off / pg_size c)) then v
     else get (Z.to_nat (order c)) (root c) j) ->
  forall off', 0 <= off' -> pgcache_lookup c' off' =
    if decide (off' / pg_size c = off / pg_size c) then Ret v else pgcache_lookup c off'.
Proof.
  intros W W' Eo Ep Em Ho Hg off' Ho'. pose proof (wf_pg_pos _ W) as Hpos.
  destruct (Z.lt_ge_cases off' (max_capacity c)) as [Hlt|Hge].
  - rewrite (lookup_get c' off'), (lookup_get c off') by (done || lia).
    rewrite Eo, Ep, Hg. destruct (decide (off' / pg_size c = off / pg_size c)) as [E|E].
    + by rewrite decide_True by (by apply (same_slot_page c)).
    + rewrite decide_False; [done|]. intros E'. apply E. by apply (same_slot_page c).
  - rewrite decide_False.
    + unfold pgcache_lookup. rewrite Em. by rewrite (proj2 (Z.leb_le _ off')).
    + rewrite (wf_cap _ W) in *. intros E.
      assert (off / pg_size c < 16 ^ (order c + 1)) by (apply Z.div_lt_upper_bound; lia).
      assert (16 ^ (order c + 1) <= off' / pg_size c) by (apply Z.div_le_lower_bound; lia). lia.
Qed.

Lemma insert_lookup (c : pgcache) (off page : Z) (want_old : bool) :
  wf c -> 0 <= off < max_capacity c ->
  exists c' old, pgcache_lookup c off = Ret old /\
    pgcache_insert c off page want_old =
      Ret (c', if want_old then old else None, if want_old then [] else option_list old) /\
    wf c' /\ pg_size c' = pg_size c /\ max_capacity c' = max_capacity c /\
    forall off', 0 <= off' -> pgcache_lookup c' off' =
      if decide (off' / pg_size c = off / pg_size c) then Ret (Some page)
      else pgcache_lookup c off'.
Proof.
  intros Hwf Hoff. rewrite (lookup_get c off) by done. unfold pgcache_insert.
  rewrite (proj2 (Z.leb_gt _ off)) by lia.
  destruct (lookup_leaf_spec true (act_put page) _ c off (act_put_acts page) Hwf Hoff)
    as (r & -> & Hr). destruct r as [[c' old]|]; [|by destruct Hr].
  destruct Hr as (-> & Hwf' & Eo & Ep & Em & Hg). do 2 eexists. split; [done|].
  split; [simpl; by destruct want_old|]. do 3 (split; [done|]). by apply lookup_after.
Qed.

(** C31. Inserting a page below the capacity replaces what the cache holds at
    that page and nothing else: a later lookup finds the new page anywhere on
    it and the old answers everywhere else.  The page that was there is given
    back, or dropped when the caller does not want it. *)
Theorem pgcache_insert_lookup (c : pgcache) (off page : Z) (want_old : bool)
    (Hwf : wf c) (Hoff : 0 <= off < max_capacity c) :
  exists c' old, pgcache_lookup c off = Ret old /\
    pgcache_insert c off page want_old =
      Ret (c', if want_old then old else None, if want_old then [] else option_list old) /\
    wf c' /\
    forall off', 0 <= off' -> pgcache_lookup c' off' =
      if decide (off' / pg_size c = off / pg_size c) then Ret (Some page)
      else pgcache_lookup c off'.
Proof. destruct (insert_lookup c off page want_old Hwf Hoff) as (c' & old & Hl & Hi & Hw & _ & _ & Hg). by exists c', old. Qed.

(** The cache of [pgcache_alloc(1, 4096)]. *)
Definition cache_ex : pgcache := mk_pgcache 1 4 4096 0x100000 1 zero_node [].

Lemma cache_ex_wf : pgcache_alloc 1 4096 = Ret cache_ex /\ wf cache_ex.
Proof.
  split; [done|]. split; simpl; try done; [by exists 12|]. apply (zero_node_wf 1).
Qed.

Lemma pgcache_insert_lookup_witness :
  exists c' old, pgcache_lookup cache_ex 0x12345 = Ret old /\
    pgcache_insert cache_ex 0x12345 7 true = Ret (c', old, []) /\
    pgcache_lookup c' 0x12000 = Ret (Some 7) /\ pgcache_lookup c' 0x13000 = Ret None.
Proof.
  destruct (pgcache_insert_lookup cache_ex 0x12345 7 true) as (c' & old & Hl & Hi & _ & Hg).
  - apply cache_ex_wf.
  - done.
  - exists c', old. split; [exact Hl|]. split; [exact Hi|].
    split; (rewrite Hg by done; reflexivity).
Defined.

(** C32. Removing a page takes exactly it out of the cache and gives it back,
    or drops it; where the cache holds nothing the cache is unchanged for
    every lookup. *)
Theorem pgcache_remove_lookup (c : pgcache) (off : Z) (want_page : bool)
    (Hwf : wf c) (Hoff : 0 <= off < max_capacity c) :
  exists c' old, pgcache_lookup c off = Ret old /\
    pgcache_remove c off want_page =
      Ret (c', if want_page then old else None, if want_page then [] else option_list old) /\
    wf c' /\
    forall off', 0 <= off' -> pgcache_lookup c' off' =
      if decide (off' / pg_size c = off / pg_size c) then Ret None else pgcache_lookup c off'.
Proof.
  rewrite (lookup_get c off) by done. unfold pgcache_remove.
  rewrite (proj2 (Z.leb_gt _ off)) by lia.
  destruct (lookup_leaf_spec false act_take _ c off act_take_acts Hwf Hoff) as (r & -> & Hr).
  destruct r as [[c' old]|]; simpl.
  - destruct Hr as (-> & Hwf' & Eo & Ep & Em & Hg). do 2 eexists. split; [done|].
    split; [by destruct want_page|]. split; [done|]. by apply lookup_after.
  - destruct Hr as [_ Hn]. exists c, None. rewrite Hn. split; [done|].
    split; [by destruct want_page|]. split; [done|]. apply (lookup_after c c off None); try done.
    intros j. case_decide as E; [|done]. by rewrite (get_same_slot _ _ _ _ E).
Qed.

Lemma pgcache_remove_lookup_witness :
  exists c' old, pgcache_lookup cache_ex 0x12345 = Ret old /\
    pgcache_remove cache_ex 0x12345 true = Ret (c', old, []) /\
    pgcache_lookup c' 0x12000 = Ret None.
Proof.
  destruct (pgcache_remove_lookup cache_ex 0x12345 true) as (c' & old & Hl & Hi & _ & Hg).
  - apply cache_ex_wf.
  - done.
  - exists c', old. split; [exact Hl|]. split; [exact Hi|]. rewrite Hg by done. reflexivity.
Defined.
