(* ===== verification/PgVisit.v ===== *)
(** * kernel/mm/pgcache.c: visiting and releasing the pages of a cache

    [internal_visit_pages_iter] walks the radix tree of PgCache with an
    explicit stack.  It is equivalent to a recursive walk, its stack does not
    outgrow the array, and releasing a cache drops each cached page once. *)

From stdpp Require Import list.
From S2P Require Import Prelude PgCache.
Local Open Scope Z_scope.

(** ** The visitor *)

Record visit_stack_entry := mk_visit {
  v_node : node;
  v_slot_index : Z;
  v_level : Z;
}.

Section visit.
Context {A : Type} (c : pgcache) (start_off end_off : Z) (free : bool) (fn : Z -> Z -> A -> outcome A).

(** [i << n] on an int, undefined when it overflows. *)
Definition int_shl (i n : Z) : outcome Z :=
  if (0 <=? n) && (n <? 32) && (Z.shiftl i n <? 2 ^ 31) then Ret (Z.shiftl i n) else Fault.

(** The range of the slot [i] of a node at a level. *)
Definition slot_range (level i : Z) : outcome (Z * Z) :=
  let n := bits_per_lvl c * (order c - level) in
  s ← int_shl i n; w ← shl 64 1 n; Ret (s, u64 (s + w)).

(** One round of the loop; the array [stack] has 64 entries, its top first
    here.  The result counts the nodes given back to the heap. *)
Definition visit_step (stack : list visit_stack_entry) (freed : Z) (a : A)
    : outcome (list visit_stack_entry * Z * A) :=
  match stack with
  | [] => Fault
  | mk_visit n i level :: rest =>
      if PGCACHE_FANOUT <=? i then Ret (rest, if free then freed + 1 else freed, a)
      else
        let stack := mk_visit n (i + 1) level :: rest in
        '(slot_start, slot_end) ← slot_range level i;
        if (slot_end <=? start_off) || (end_off <=? slot_start) then Ret (stack, freed, a)
        else
          s ← load (slots n) i;
          match s with
          | Null => Ret (stack, freed, a)
          | Inner child =>
              if level <? order c then
                if Z.of_nat (length stack) <? 64 then Ret (mk_visit child 0 (level + 1) :: stack, freed, a) else Fault
              else Fault
          | Page p => if level <? order c then Fault else a ← fn p slot_start a; Ret (stack, freed, a)
          end
  end.

Fixpoint visit_loop (fuel : nat) (stack : list visit_stack_entry) (freed : Z) (a : A) : outcome (Z * A) :=
  match stack with
  | [] => Ret (freed, a)
  | _ =>
      match fuel with
      | O => NoFuel
      | S f => '(stack, freed, a) ← visit_step stack freed a; visit_loop f stack freed a
      end
  end.

(** ** A recursive walk *)

(** The slots of a node from the [i]-th on; [below] walks a child. *)
Fixpoint walk_slots (below : node -> Z -> A -> outcome (Z * A)) (level i : Z) (sl : list slot) (freed : Z) (a : A)
    : outcome (Z * A) :=
  match sl with
  | [] => Ret (if free then freed + 1 else freed, a)
  | s :: sl =>
      '(slot_start, slot_end) ← slot_range level i;
      '(freed, a) ←
        (if (slot_end <=? start_off) || (end_off <=? slot_start) then Ret (freed, a)
         else match s with
              | Null => Ret (freed, a)
              | Inner child => if level <? order c then below child freed a else Fault
              | Page p => if level <? order c then Fault else a ← fn p slot_start a; Ret (freed, a)
              end);
      walk_slots below level (i + 1) sl freed a
  end.

Fixpoint walk_node (k : nat) (n : node) (freed : Z) (a : A) : outcome (Z * A) :=
  walk_slots (match k with O => fun _ _ _ => Fault | S k' => walk_node k' end) (order c - Z.of_nat k) 0 (slots n) freed a.

End visit.

(** The rounds a walk below a node takes: one for each slot, and one to leave
    it. *)
Fixpoint rounds (k : nat) (n : node) : nat :=
  17 + match k with
       | O => O
       | S k' => sum_list_with (fun s => match s with Inner m => rounds k' m | _ => O end) (slots n)
       end.

Definition internal_visit_pages_iter {A} (c : pgcache) (n : node) (start_off end_off : Z) (free : bool) (level : Z)
    (fn : Z -> Z -> A -> outcome A) (a : A) : outcome (Z * A) :=
  let end_off := if end_off =? 0 then max_capacity c else Z.min end_off (max_capacity c) in
  if end_off <=? start_off then Ret (0, a)
  else visit_loop c start_off end_off free fn (rounds (Z.to_nat (order c - level)) n) [mk_visit n 0 level] 0 a.

(** The cache with one reference less, or none and the nodes given back. *)
Definition pgcache_free {A} (c : pgcache) (drop_pages : Z -> A -> outcome A) (a : A) : outcome (option pgcache * Z * A) :=
  let c' := mk_pgcache (order c) (bits_per_lvl c) (pg_size c) (max_capacity c) (refcount c - 1) (root c) (leaf_nodes c) in
  if refcount c =? 1 then
    '(freed, a) ← internal_visit_pages_iter c' (root c) 0 (max_capacity c) true 0 (fun p _ => drop_pages p) a;
    Ret (None, freed, a)
  else Ret (Some c', 0, a).

Definition pgcache_visit_pages {A} (c : pgcache) (start_off end_off : Z) (fn : Z -> Z -> A -> outcome A) (a : A) : outcome A :=
  '(_, a) ← internal_visit_pages_iter c (root c) start_off end_off false 0 fn a; Ret a.

(** ** The loop is the recursive walk *)

Section equivalence.
Context {A : Type} (c : pgcache) (start_off end_off : Z) (free : bool) (fn : Z -> Z -> A -> outcome A).
Local Abbreviation loop := (visit_loop c start_off end_off free fn).
Local Abbreviation wslots := (walk_slots c start_off end_off free fn).
Local Abbreviation wnode := (walk_node c start_off end_off free fn).

Definition below (k : nat) : node -> Z -> A -> outcome (Z * A) :=
  match k with O => fun _ _ _ => Fault | S k' => wnode k' end.

Lemma walk_node_eq k n freed a : wnode k n freed a = wslots (below k) (order c - Z.of_nat k) 0 (slots n) freed a.
Proof. by destruct k. Qed.

Definition child_rounds (k : nat) (s : slot) : nat :=
  match k, s with S k', Inner m => rounds k' m | _, _ => O end.

Lemma rounds_eq k n : rounds k n = (17 + sum_list_with (child_rounds k) (slots n))%nat.
Proof. destruct k; [|done]. simpl. do 17 f_equal. induction (slots n); simpl; lia. Qed.

Lemma loop_round f e rest freed a :
  loop (S f) (e :: rest) freed a = ('(st, fr, b) ← visit_step c start_off end_off free fn (e :: rest) freed a; loop f st fr b).
Proof. done. Qed.

Lemma loop_nil f freed a : loop f [] freed a = Ret (freed, a).
Proof. by destruct f. Qed.

(** The round for the slot [i] of a node. *)
Lemma step_at n i level rest s freed a : 0 <= i < 16 -> slots n !! Z.to_nat i = Some s ->
  let stack := mk_visit n (i + 1) level :: rest in
  visit_step c start_off end_off free fn (mk_visit n i level :: rest) freed a =
  ('(lo, hi) ← slot_range c level i;
   if (hi <=? start_off) || (end_off <=? lo) then Ret (stack, freed, a)
   else match s with
        | Null => Ret (stack, freed, a)
        | Inner child =>
            if level <? order c then
              if Z.of_nat (length stack) <? 64 then Ret (mk_visit child 0 (level + 1) :: stack, freed, a) else Fault
            else Fault
        | Page p => if level <? order c then Fault else a ← fn p lo a; Ret (stack, freed, a)
        end).
Proof.
  intros Hi Hs stack. unfold visit_step. rewrite (proj2 (Z.leb_gt 16 i)) by lia. destruct (slot_range c level i) as [[lo hi]| | |]; try done.
  cbn [mbind outcome_bind]. destruct (_ || _); [done|]. unfold load. rewrite (proj2 (Z.leb_le 0 i)) by lia. by rewrite Hs.
Qed.

#[local] Arguments visit_loop : simpl never.
#[local] Arguments visit_step : simpl never.

(** What the loop does with the entry on top of the stack. *)
Lemma loop_slots k : forall n sl i rest freed a,
  wf_node k n -> i + Z.of_nat (length sl) = 16 -> 0 <= i -> sl = drop (Z.to_nat i) (slots n) ->
  Z.of_nat (length rest) + Z.of_nat k < 64 ->
  exists used, (used <= length sl + 1 + sum_list_with (child_rounds k) sl)%nat /\
    forall f, loop (used + f) (mk_visit n i (order c - Z.of_nat k) :: rest) freed a =
      ('(fr, b) ← wslots (below k) (order c - Z.of_nat k) i sl freed a; loop f rest fr b).
Proof.
  induction k as [k IHk] using lt_wf_ind. intros n sl. induction sl as [|s sl IH]; intros i rest freed a Hwf Hlen Hi Hsl Hroom.
  - exists 1%nat. simpl in *. split; [lia|]. intros f. rewrite loop_round. unfold visit_step. rewrite (proj2 (Z.leb_le 16 i)) by lia. done.
  - simpl in Hlen. assert (Hs : slots n !! Z.to_nat i = Some s) by (rewrite <- (Nat.add_0_r (Z.to_nat i)), <- lookup_drop, <- Hsl; done).
    assert (Hsl' : sl = drop (Z.to_nat (i + 1)) (slots n)).
    { replace (Z.to_nat (i + 1)) with (Z.to_nat i + 1)%nat by lia. by rewrite <- drop_drop, <- Hsl. }
    set (level := order c - Z.of_nat k). simpl length. simpl sum_list_with.
    assert (Hgo : forall fr b, (forall f, loop (S f) (mk_visit n i level :: rest) freed a = loop f (mk_visit n (i + 1) level :: rest) fr b) ->
      wslots (below k) level i (s :: sl) freed a = wslots (below k) level (i + 1) sl fr b ->
      exists used, (used <= S (length sl) + 1 + (child_rounds k s + sum_list_with (child_rounds k) sl))%nat /\
        forall f, loop (used + f) (mk_visit n i level :: rest) freed a =
          ('(fr, b) ← wslots (below k) level i (s :: sl) freed a; loop f rest fr b)).
    { intros fr b Hl Hw. destruct (IH (i + 1) rest fr b) as (u & Hu & Hrun); [done|lia|lia|done|done|].
      exists (S u). split; [lia|]. intros f. cbn [Nat.add]. by rewrite Hl, Hw, Hrun. }
    assert (Hstop : forall r : outcome (Z * A), wslots (below k) level i (s :: sl) freed a = r ->
      (forall f, loop (S f) (mk_visit n i level :: rest) freed a = ('(fr, b) ← r; loop f rest fr b)) ->
      exists used, (used <= S (length sl) + 1 + (child_rounds k s + sum_list_with (child_rounds k) sl))%nat /\
        forall f, loop (used + f) (mk_visit n i level :: rest) freed a =
          ('(fr, b) ← wslots (below k) level i (s :: sl) freed a; loop f rest fr b)).
    { intros r -> Hr. exists 1%nat. split; [lia|]. exact Hr. }
    assert (Hstep : forall f, loop (S f) (mk_visit n i level :: rest) freed a = _) by (intros f; rewrite loop_round, (step_at n i level rest s) by (done || lia); reflexivity).
    simpl in Hgo, Hstop |- *.
    destruct (slot_range c level i) as [[lo hi]| | |] eqn:Er; simpl in *; [|by eapply Hstop..].
    destruct ((hi <=? start_off) || (end_off <=? lo)) eqn:Eskip; simpl in *; [by eapply Hgo|].
    destruct s as [|child|p]; simpl in *; [by eapply Hgo| |].
    + destruct (level <? order c) eqn:El; simpl in *; [|by eapply Hstop].
      destruct k as [|k']; [unfold level in El; zbool; lia|]. pose proof Hwf as [_ Hwf']. pose proof (Forall_lookup_1 _ _ _ _ Hwf' Hs) as Hc. simpl in Hc.
      assert (Hc16 : length (slots child) = 16%nat) by (destruct k'; by destruct Hc).
      assert (Elv : level + 1 = order c - Z.of_nat k') by (unfold level; lia). rewrite Elv in *.
      rewrite (proj2 (Z.ltb_lt _ 64)) in Hstep by lia.
      destruct (IHk k' ltac:(lia) child (slots child) 0 (mk_visit n (i + 1) level :: rest) freed a) as (u1 & Hu1 & Hrun1);
        [done|rewrite Hc16; done|done|by rewrite drop_0|simpl; lia|].
      rewrite <- walk_node_eq in Hrun1.
      cbn [child_rounds below]. rewrite (rounds_eq k' child).
      destruct (wnode k' child freed a) as [[fr b]| | |] eqn:Ew; simpl in *.
      2-4: exists (S u1); (split; [lia|]); intros f; cbn [Nat.add]; by rewrite Hstep, Hrun1.
      destruct (IH (i + 1) rest fr b) as (u & Hu & Hrun); [done|lia|lia|done|done|].
      exists (S (u1 + u)). split; [lia|]. intros f. cbn [Nat.add]. by rewrite Hstep, <- Nat.add_assoc, Hrun1, Hrun.
    + destruct (level <? order c) eqn:El; simpl in *; [by eapply Hstop|].
      destruct (fn p lo a) as [b| | |] eqn:Ef; simpl in *; [by eapply Hgo|by eapply Hstop..].
Qed.

Lemma visit_loop_walk k n a :
  wf_node k n -> Z.of_nat k < 64 -> loop (rounds k n) [mk_visit n 0 (order c - Z.of_nat k)] 0 a = wnode k n 0 a.
Proof.
  intros Hwf Hk. assert (Hn16 : length (slots n) = 16%nat) by (destruct k; by destruct Hwf).
  destruct (loop_slots k n (slots n) 0 [] 0 a) as (u & Hu & Hrun); [done|by rewrite Hn16|done|by rewrite drop_0|simpl; lia|].
  rewrite rounds_eq. replace (17 + _)%nat with (u + (17 + sum_list_with (child_rounds k) (slots n) - u))%nat by lia.
  rewrite Hrun, <- walk_node_eq. destruct (wnode k n 0 a) as [[fr b]| | |]; [apply loop_nil|done..].
Qed.

End equivalence.

(** ** Every page of a cache *)

(** The pages below a node, in the order of the walk, and its nodes. *)
Fixpoint pages_in (k : nat) (n : node) : list Z :=
  slots n ≫= fun s =>
    match s with
    | Null => []
    | Page p => [p]
    | Inner m => match k with O => [] | S k' => pages_in k' m end
    end.

Fixpoint nodes_in (k : nat) (n : node) : Z :=
  1 + foldr (fun s acc => match s with Inner m => match k with O => 0 | S k' => nodes_in k' m end | _ => 0 end + acc) 0 (slots n).

Definition slot_pages (k : nat) (s : slot) : list Z :=
  match s with Null => [] | Page p => [p] | Inner m => match k with O => [] | S k' => pages_in k' m end end.
Definition slot_nodes (k : nat) (s : slot) : Z :=
  match s with Inner m => match k with O => 0 | S k' => nodes_in k' m end | _ => 0 end.

Lemma pages_in_eq k n : pages_in k n = slots n ≫= slot_pages k.
Proof. by destruct k. Qed.

Lemma nodes_in_eq k n : nodes_in k n = 1 + foldr (fun s acc => slot_nodes k s + acc) 0 (slots n).
Proof. by destruct k. Qed.

(** [f] applied to the elements of a list one after the other. *)
Fixpoint each {A} (f : Z -> A -> outcome A) (l : list Z) (a : A) : outcome A :=
  match l with [] => Ret a | p :: l => a ← f p a; each f l a end.

Lemma each_app {A} (f : Z -> A -> outcome A) l1 l2 a : each f (l1 ++ l2) a = (b ← each f l1 a; each f l2 b).
Proof. revert a. induction l1 as [|p l1 IH]; intros a; simpl; [done|]. destruct (f p a); simpl; done. Qed.

(** What a cache holds for its [i]-th page. *)
Definition cached (c : pgcache) (i : Z) : option Z :=
  match pgcache_lookup c (i * pg_size c) with Ret p => p | _ => None end.

Section full.
Context {A : Type} (c : pgcache) (Hwf : wf c) (Hord : order c <= 6) (free : bool) (f : Z -> A -> outcome A).
Local Abbreviation wslots := (walk_slots c 0 (max_capacity c) free (fun p _ => f p)).
Local Abbreviation wnode := (walk_node c 0 (max_capacity c) free (fun p _ => f p)).

Lemma slot_range_full k i : 0 <= i < 16 -> Z.of_nat k <= order c ->
  exists lo hi, slot_range c (order c - Z.of_nat k) i = Ret (lo, hi) /\ (hi <=? 0) || (max_capacity c <=? lo) = false.
Proof.
  intros Hi Hk. unfold slot_range. rewrite (wf_bits _ Hwf). replace (4 * (order c - (order c - Z.of_nat k))) with (4 * Z.of_nat k) by lia.
  assert (Hp : 1 <= 2 ^ (4 * Z.of_nat k) <= 2 ^ 24).
  { split; [change 1 with (2 ^ 0)|]; apply Z.pow_le_mono_r; lia. }
  unfold int_shl. rewrite Z.shiftl_mul_pow2 by lia. change (2 ^ 24) with 16777216 in Hp. change (2 ^ 31) with 2147483648.
  rewrite (proj2 (Z.leb_le 0 _)), (proj2 (Z.ltb_lt _ 32)), (proj2 (Z.ltb_lt _ 2147483648)) by nia. cbn [andb mbind outcome_bind].
  unfold shl. rewrite (proj2 (Z.leb_le 0 _)), (proj2 (Z.ltb_lt _ 64)) by lia. cbn [andb mbind outcome_bind].
  rewrite Z.shiftl_1_l, (wrap_small 64 (2 ^ (4 * Z.of_nat k))), wrap_small by (unfold fits; nia).
  do 2 eexists. split; [done|]. rewrite (proj2 (Z.leb_gt _ 0)) by nia. cbn [orb]. apply Z.leb_gt.
  rewrite (wf_cap _ Hwf). pose proof (wf_pg_pos _ Hwf). replace (16 ^ (order c + 1)) with (2 ^ (4 * (order c + 1))) by (by rewrite Z.pow_mul_r by lia).
  assert (2 ^ (4 * Z.of_nat k + 4) <= 2 ^ (4 * (order c + 1))) as Hpow by (apply Z.pow_le_mono_r; lia).
  rewrite Z.pow_add_r in Hpow by lia. nia.
Qed.

Lemma walk_slots_full k sl : Z.of_nat k <= order c ->
  (forall m freed a, (0 < k)%nat -> Inner m ∈ sl ->
     below c 0 (max_capacity c) free (fun p _ => f p) k m freed a =
     (b ← each f (pages_in (k - 1) m) a; Ret (if free then freed + nodes_in (k - 1) m else freed, b))) ->
  Forall (fun s => match s, k with Null, _ => True | Page _, O => True | Inner _, S _ => True | _, _ => False end) sl ->
  forall i freed a, 0 <= i -> i + Z.of_nat (length sl) = 16 ->
  wslots (below c 0 (max_capacity c) free (fun p _ => f p) k) (order c - Z.of_nat k) i sl freed a =
  (b ← each f (sl ≫= slot_pages k) a; Ret (if free then freed + 1 + foldr (fun s acc => slot_nodes k s + acc) 0 sl else freed, b)).
Proof.
  intros Hk Hbelow. induction sl as [|s sl IH]; intros Hall i freed a Hi Hlen; simpl in *; [by rewrite Z.add_0_r|].
  apply Forall_cons_1 in Hall as [Hs Hall]. destruct (slot_range_full k i) as (lo & hi & -> & Eskip); [lia|done|]. simpl. rewrite Eskip.
  rewrite each_app. specialize (IH ltac:(intros m fr b Hk0 Hm; apply Hbelow; [done|by apply elem_of_cons; right]) Hall). destruct s as [|m|p]; simpl.
  - apply IH; lia.
  - destruct k as [|k']; [done|]. rewrite (proj2 (Z.ltb_lt _ (order c))) by lia. rewrite (Hbelow m) by (lia || (apply elem_of_cons; by left)).
    replace (S k' - 1)%nat with k' by lia. destruct (each f (pages_in k' m) a) as [b| | |]; simpl; try done.
    rewrite IH by lia. destruct (each f _ b); simpl; try done. destruct free; [|done]. do 2 f_equal. lia.
  - destruct k as [|k']; [|done]. rewrite (proj2 (Z.ltb_ge _ (order c))) by lia. destruct (f p a) as [b| | |]; simpl; try done.
    apply IH; lia.
Qed.

Lemma walk_full k : Z.of_nat k <= order c -> forall n freed a, wf_node k n ->
  wnode k n freed a = (b ← each f (pages_in k n) a; Ret (if free then freed + nodes_in k n else freed, b)).
Proof.
  induction k as [k IHk] using lt_wf_ind. intros Hk n freed a Hn. rewrite walk_node_eq, pages_in_eq, nodes_in_eq.
  assert (Hn16 : length (slots n) = 16%nat) by (destruct k; by destruct Hn).
  rewrite walk_slots_full; [by rewrite Z.add_assoc|done| | |done|by rewrite Hn16].
  - intros m fr b Hk0 Hm. destruct k as [|k']; [lia|]. cbn [below]. replace (S k' - 1)%nat with k' by lia. apply IHk; [lia|lia|].
    destruct Hn as [_ Hn]. apply list_elem_of_lookup in Hm as (j & Hj). apply (Forall_lookup_1 _ _ _ _ Hn Hj).
  - destruct k; destruct Hn as [_ Hn]; (eapply Forall_impl; [|exact Hn]); by intros [|m|p].
Qed.

End full.

(** Indices by their lowest digit. *)
Lemma digits_perm N : 0 <= N ->
  seqZ 0 (16 * N) ≡ₚ seqZ 0 16 ≫= fun j => (fun i => j + 16 * i) <$> seqZ 0 N.
Proof.
  intros HN. apply NoDup_Permutation.
  - apply NoDup_seqZ.
  - apply NoDup_bind; [|intros j Hj; apply NoDup_fmap; [intros u v E; lia|apply NoDup_seqZ]|apply NoDup_seqZ].
    intros j1 j2 x Hj1 Hj2 (i1 & -> & Hi1)%list_elem_of_fmap (i2 & E & Hi2)%list_elem_of_fmap. apply elem_of_seqZ in Hj1, Hj2, Hi1, Hi2. lia.
  - intros x. rewrite elem_of_seqZ, list_elem_of_bind. split.
    + intros Hx. exists (x mod 16). pose proof (Z.mod_pos_bound x 16 ltac:(lia)). split; [|apply elem_of_seqZ; lia].
      apply list_elem_of_fmap. exists (x / 16). pose proof (Z.div_mod x 16 ltac:(lia)). split; [lia|]. apply elem_of_seqZ.
      split; [apply Z.div_pos; lia|]. apply Z.div_lt_upper_bound; lia.
    + intros (j & (i & -> & Hi%elem_of_seqZ)%list_elem_of_fmap & Hj%elem_of_seqZ). lia.
Qed.

Lemma omap_bind {X Y W} (g : Y -> option W) (h : X -> list Y) l : omap g (l ≫= h) = l ≫= fun x => omap g (h x).
Proof. induction l as [|x l IH]; [done|]. by rewrite !bind_cons, omap_app, IH. Qed.

Lemma bind_perm {X Y} (g h : X -> list Y) l : (forall x, x ∈ l -> g x ≡ₚ h x) -> l ≫= g ≡ₚ l ≫= h.
Proof.
  induction l as [|x l IH]; intros H; [done|]. rewrite !bind_cons, (H x), IH; [done|intros y Hy; apply H; by apply elem_of_cons; right|].
  apply elem_of_cons. by left.
Qed.

Lemma bind_by_index {X Y} (h : X -> list Y) l :
  l ≫= h = seqZ 0 (Z.of_nat (length l)) ≫= fun j => from_option h [] (l !! Z.to_nat j).
Proof.
  induction l as [|x l IH] using rev_ind; [done|]. rewrite length_app. simpl. rewrite Nat2Z.inj_add, seqZ_app by lia.
  rewrite !bind_app. f_equal.
  - rewrite IH. apply Forall_bind_ext, Forall_forall. intros j Hj%list_elem_of_In%elem_of_seqZ. by rewrite lookup_app_l by lia.
  - change (seqZ (0 + Z.of_nat (length l)) (Z.of_nat 1)) with [0 + (0 + Z.of_nat (length l))]. rewrite !bind_singleton.
    replace (Z.to_nat _) with (length l) by lia. by rewrite lookup_app_r, Nat.sub_diag.
Qed.

Lemma omap_none {X Y} (g : X -> option Y) l : (forall x, x ∈ l -> g x = None) -> omap g l = [].
Proof.
  induction l as [|x l IH]; intros H; [done|]. simpl. rewrite H by (apply elem_of_cons; by left). apply IH. intros y Hy. apply H.
  by apply elem_of_cons; right.
Qed.

(** The walk meets the page of each index once. *)
Lemma pages_in_perm k n : wf_node k n -> pages_in k n ≡ₚ omap (get k n) (seqZ 0 (16 ^ (Z.of_nat k + 1))).
Proof.
  revert n. induction k as [|k IH]; intros n [H16 Hn]; rewrite pages_in_eq, (bind_by_index (slot_pages _)), H16.
  - change (16 ^ (Z.of_nat 0 + 1)) with (16 * 1). rewrite (digits_perm 1), omap_bind by lia. apply bind_perm. intros j Hj%elem_of_seqZ.
    simpl. rewrite get_0. rewrite Z.mod_small by lia. replace (j + 16 * (Z.of_nat 0 + 0)) with j by lia.
    destruct (slots n !! Z.to_nat j) as [s|] eqn:Es; [|done]. pose proof (Forall_lookup_1 _ _ _ _ Hn Es). by destruct s.
  - replace (Z.of_nat (S k) + 1) with (1 + (Z.of_nat k + 1)) by lia. rewrite Z.pow_add_r by lia. change (16 ^ 1) with 16.
    assert (0 <= 16 ^ (Z.of_nat k + 1)) by (apply Z.pow_nonneg; lia). rewrite digits_perm, omap_bind by done. apply bind_perm. intros j Hj%elem_of_seqZ.
    assert (Hd : forall i, get (S k) n (j + 16 * i) = match slots n !! Z.to_nat j with Some (Inner m) => get k m i | _ => None end).
    { intros i. rewrite get_S. rewrite (Z.mul_comm 16 i), Z.mod_add, Z.mod_small, Z.div_add, Z.div_small by lia. done. }
    rewrite (list_omap_ext _ (fun i => match slots n !! Z.to_nat j with Some (Inner m) => get k m i | _ => None end) _ (seqZ 0 (16 ^ (Z.of_nat k + 1))))
      by (apply Forall2_fmap_l; apply Forall_Forall2_diag, Forall_forall; intros i _; apply Hd).
    destruct (slots n !! Z.to_nat j) as [s|] eqn:Es; [|by rewrite omap_none]. pose proof (Forall_lookup_1 _ _ _ _ Hn Es) as Hs.
    destruct s as [|m|p]; [by rewrite omap_none| |done]. simpl. by apply IH.
Qed.

Lemma visit_iter_eq {A} (c : pgcache) (start_off end_off : Z) (free : bool) (fn : Z -> Z -> A -> outcome A) (a : A) :
  wf c -> internal_visit_pages_iter c (root c) start_off end_off free 0 fn a =
    let end_off := if end_off =? 0 then max_capacity c else Z.min end_off (max_capacity c) in
    if end_off <=? start_off then Ret (0, a)
    else walk_node c start_off end_off free fn (Z.to_nat (order c)) (root c) 0 a.
Proof.
  intros W. unfold internal_visit_pages_iter. cbv zeta. destruct (_ <=? start_off); [done|]. rewrite Z.sub_0_r.
  pose proof (wf_order _ W). rewrite <- visit_loop_walk by (apply W || lia). do 3 f_equal. lia.
Qed.

(** A cache without pages. *)
Lemma walk_nulls {A} (c : pgcache) (start_off end_off : Z) (free : bool) (fn : Z -> Z -> A -> outcome A) below k n i freed (a : A) :
  wf c -> order c <= 6 -> Z.of_nat k <= order c -> 0 <= i -> i + Z.of_nat n <= 16 ->
  walk_slots c start_off end_off free fn below (order c - Z.of_nat k) i (replicate n Null) freed a = Ret (if free then freed + 1 else freed, a).
Proof.
  intros W Ho Hk. revert i. induction n as [|n IH]; intros i Hi Hn; [done|]. simpl.
  destruct (slot_range_full c W Ho k i) as (lo & hi & -> & _); [lia|done|]. simpl. destruct (_ || _); simpl; apply IH; lia.
Qed.

Lemma visit_zero {A} (c : pgcache) (start_off end_off : Z) (free : bool) (fn : Z -> Z -> A -> outcome A) (a : A) :
  wf c -> order c <= 6 -> root c = zero_node ->
  exists freed, internal_visit_pages_iter c zero_node start_off end_off free 0 fn a = Ret (freed, a).
Proof.
  intros W Ho Er. pose proof (wf_order _ W). rewrite <- Er, visit_iter_eq by done. cbv zeta. destruct (_ <=? start_off); [by exists 0|].
  rewrite walk_node_eq, Er. eexists. apply (walk_nulls c start_off _ free fn _ _ 16); (done || lia).
Qed.

(** C20. The walk of [internal_visit_pages_iter] with its explicit stack of 64
    entries is the recursive walk of the tree: for a well-formed cache, any
    range and any callback it ends, the stack never overflows, and it makes
    the same calls in the same order, in particular when a call fails. *)
Theorem visit_iter_walks {A} (c : pgcache) (start_off end_off : Z) (free : bool) (fn : Z -> Z -> A -> outcome A) (a : A)
    (Hwf : wf c) :
  internal_visit_pages_iter c (root c) start_off end_off free 0 fn a =
    let end_off := if end_off =? 0 then max_capacity c else Z.min end_off (max_capacity c) in
    if end_off <=? start_off then Ret (0, a)
    else walk_node c start_off end_off free fn (Z.to_nat (order c)) (root c) 0 a.
Proof. by apply visit_iter_eq. Qed.

(** A cache of two levels with three pages. *)
Definition visit_ex : pgcache :=
  mk_pgcache 1 4 4096 0x100000 1
    (Node (<[0%nat := Inner (Node (<[1%nat := Page 7]> (replicate 16 Null)) 1)]>
           (<[5%nat := Inner (Node (<[0%nat := Page 8]> (<[15%nat := Page 9]> (replicate 16 Null))) 2)]>
            (replicate 16 Null))) 0) [[0]; [5]].

Lemma visit_ex_wf : wf visit_ex.
Proof.
  split; simpl; try done; [by exists 12|]. vm_compute. split; [done|]. repeat constructor.
Qed.

Lemma visit_iter_walks_witness :
  internal_visit_pages_iter visit_ex (root visit_ex) 0 0 true 0 (fun p off l => Ret (l ++ [(p, off)])) [] =
    Ret (3, [(7, 1); (8, 0); (9, 15)]).
Proof.
  pose proof (visit_iter_walks visit_ex 0 0 true (fun p off l => Ret (l ++ [(p, off)])) [] visit_ex_wf) as H.
  rewrite H. vm_compute. reflexivity.
Defined.

(** Dropping the last reference to a cache calls [drop_pages] once for
    each page of the cache, whatever the callback does, and gives every node
    back; a cache with other references only loses one. *)
Theorem pgcache_free_drops {A} (c : pgcache) (drop_pages : Z -> A -> outcome A) (a : A)
    (Hwf : wf c) (Hord : order c <= 6) :
  exists l, l ≡ₚ omap (cached c) (seqZ 0 (16 ^ (order c + 1))) /\
    pgcache_free c drop_pages a =
      if refcount c =? 1 then b ← each drop_pages l a; Ret (None, nodes_in (Z.to_nat (order c)) (root c), b)
      else Ret (Some (mk_pgcache (order c) (bits_per_lvl c) (pg_size c) (max_capacity c) (refcount c - 1) (root c) (leaf_nodes c)), 0, a).
Proof.
  pose proof (wf_order _ Hwf) as Ho. pose proof (wf_pg_pos _ Hwf) as Hpos. exists (pages_in (Z.to_nat (order c)) (root c)). split.
  - rewrite pages_in_perm by apply Hwf. rewrite Z2Nat.id by lia.
    erewrite (list_omap_ext _ (cached c)); [done|]. apply Forall_Forall2_diag, Forall_forall. intros i Hi%list_elem_of_In%elem_of_seqZ.
    unfold cached. rewrite lookup_get; [by rewrite Z.div_mul by lia|done|]. rewrite (wf_cap _ Hwf). split; [lia|]. apply Z.mul_lt_mono_pos_r; lia.
  - unfold pgcache_free. destruct (refcount c =? 1); [|done]. set (c' := mk_pgcache _ _ _ _ _ _ _).
    assert (Hwf' : wf c') by (destruct Hwf; by split).
    change (root c) with (root c'). rewrite (visit_iter_eq c') by done. cbv zeta.
    assert (0 < max_capacity c) by (rewrite (wf_cap _ Hwf); apply Z.mul_pos_pos; [apply Z.pow_pos_nonneg; lia|done]).
    rewrite (proj2 (Z.eqb_neq _ 0)) by lia. change (max_capacity c') with (max_capacity c). rewrite Z.min_id, (proj2 (Z.leb_gt _ 0)) by lia.
    rewrite (walk_full c') by (done || (apply Hwf' || (simpl; lia))). simpl. by destruct (each drop_pages _ a).
Qed.

Lemma pgcache_free_drops_witness :
  pgcache_free visit_ex (fun p l => Ret (p :: l)) [] = Ret (None, 3, [9; 8; 7]) /\
  exists l, l ≡ₚ [7; 8; 9] /\ each (fun p l => Ret (p :: l)) l [] = Ret [9; 8; 7].
Proof.
  split; [vm_compute; reflexivity|].
  destruct (pgcache_free_drops visit_ex (fun p l => Ret (p :: l)) [] visit_ex_wf ltac:(simpl; lia)) as (l & Hp & H).
  exists l. split; [etrans; [exact Hp|]|].
  - vm_compute. apply perm_swap.
  - simpl in H. destruct (each _ l []) as [b| | |]; vm_compute in H; [|done..]. by injection H as <-.
Defined.
