(* ===== verification/Interval.v ===== *)
(** * lib/interval_tree.h: intervals

    Half-open ranges of 64-bit numbers, the macros over them, and the record
    an interval tree keeps for each of its nodes. *)

From S2P Require Import Prelude.
Local Open Scope Z_scope.

Record interval_t := mk_intvl { start : Z; end_ : Z }.

#[export] Instance interval_eq_dec : EqDecision interval_t.
Proof. solve_decision. Defined.

Abbreviation UINT64_MAX := (2 ^ 64 - 1).

Abbreviation NULL_SET := (mk_intvl UINT64_MAX 0).

Definition is_null_set (i : interval_t) : bool := (start i =? UINT64_MAX) && (end_ i =? 0).

Definition intvl_eq (i j : interval_t) : bool := (start i =? start j) && (end_ i =? end_ j).

Definition intersection (i j : interval_t) : interval_t :=
  if (end_ i <=? start j) || (end_ j <=? start i) then NULL_SET
  else mk_intvl (Z.max (start i) (start j)) (Z.min (end_ i) (end_ j)).

Definition overlaps (i j : interval_t) : bool := negb (is_null_set (intersection i j)).

Definition contains (i j : interval_t) : bool := intvl_eq (intersection i j) j.

Definition contains_point (i : interval_t) (p : Z) : bool := (start i <=? p) && (p <? end_ i).

Definition contiguous (i j : interval_t) : bool :=
  negb (overlaps i j) && ((start j =? end_ i) || (start i =? end_ j)).

Definition subtract (i j : interval_t) : interval_t :=
  if contains i j || negb (overlaps i j) then NULL_SET
  else if start i <? start j then mk_intvl (start i) (start j)
  else mk_intvl (end_ j) (end_ i).

(** The record of a node: the bounds are those of its subtree. *)
Record intvl_node_t := mk_intvl_node {
  node : nat;
  interval : interval_t;
  imax : Z;
  imin : Z;
  idata : Z;
}.

(** ** What the macros mean *)

(** A range of addresses that is not empty. *)
Definition proper (i : interval_t) : Prop := 0 <= start i /\ start i < end_ i.

Lemma overlaps_proper i j : proper i -> proper j -> overlaps i j = (start i <? end_ j) && (start j <? end_ i).
Proof.
  unfold proper, overlaps, intersection, is_null_set. intros Hi Hj.
  destruct (Z.leb_spec (end_ i) (start j)), (Z.leb_spec (end_ j) (start i)); simpl; [zbool; lia..|].
  rewrite (proj2 (Z.ltb_lt _ _)), (proj2 (Z.ltb_lt _ _)) by done. simpl.
  rewrite (proj2 (Z.eqb_neq (Z.min _ _) 0)) by lia. by rewrite andb_false_r.
Qed.
