(* ===== verification/RbTree.v ===== *)
(** * lib/rb_tree.c: red-black trees with threaded nodes

    Nodes live in a store and are named by numbers; [nil] is the sentinel
    node of the tree, which the code reads and writes like any other.  The
    event callbacks are functions on the tree and on the interval records
    that the data of its nodes may point to. *)

From S2P Require Import Prelude Interval.
From stdpp Require Import list gmap sorting.
Local Open Scope Z_scope.

(** ** State *)

Inductive rb_color := RED | BLACK.

#[export] Instance rb_color_eq_dec : EqDecision rb_color.
Proof. solve_decision. Defined.

Record rb_node_t := mk_node {
  key : Z;
  data : Z;
  color : rb_color;
  left : nat;
  right : nat;
  parent : nat;
  next : nat;
  prev : nat;
}.

(** A tree with the store of all nodes; [fresh] is the next unused name.
    [objs] is the memory of the callbacks, by address. *)
Record rb_tree_t := mk_tree {
  root : nat;
  nil : nat;
  min : nat;
  max : nat;
  nodes : Z;
  store_of : gmap nat rb_node_t;
  fresh : nat;
  objs : gmap Z intvl_node_t;
}.

(** The callbacks of struct rb_tree_events. *)
Record events := mk_events {
  pre_rotate : rb_tree_t -> nat -> nat -> outcome rb_tree_t;
  post_rotate : rb_tree_t -> nat -> nat -> outcome rb_tree_t;
  pre_insert_node : rb_tree_t -> nat -> outcome rb_tree_t;
  post_insert_node : rb_tree_t -> nat -> outcome rb_tree_t;
  pre_delete_node : rb_tree_t -> nat -> outcome rb_tree_t;
  post_delete_node : rb_tree_t -> nat -> nat -> outcome rb_tree_t;
  evt_replace_node : rb_tree_t -> nat -> nat -> outcome rb_tree_t;
}.

(** A tree without events. *)
Definition no_events : events :=
  mk_events (fun t _ _ => Ret t) (fun t _ _ => Ret t) (fun t _ => Ret t) (fun t _ => Ret t)
    (fun t _ => Ret t) (fun t _ _ => Ret t) (fun t _ _ => Ret t).

Definition with_store (t : rb_tree_t) (s : gmap nat rb_node_t) : rb_tree_t :=
  mk_tree (root t) (nil t) (min t) (max t) (nodes t) s (fresh t) (objs t).
Definition with_root (t : rb_tree_t) (x : nat) : rb_tree_t :=
  mk_tree x (nil t) (min t) (max t) (nodes t) (store_of t) (fresh t) (objs t).
Definition with_min (t : rb_tree_t) (x : nat) : rb_tree_t :=
  mk_tree (root t) (nil t) x (max t) (nodes t) (store_of t) (fresh t) (objs t).
Definition with_max (t : rb_tree_t) (x : nat) : rb_tree_t :=
  mk_tree (root t) (nil t) (min t) x (nodes t) (store_of t) (fresh t) (objs t).
Definition with_nodes (t : rb_tree_t) (n : Z) : rb_tree_t :=
  mk_tree (root t) (nil t) (min t) (max t) (u64 n) (store_of t) (fresh t) (objs t).
Definition with_objs (t : rb_tree_t) (o : gmap Z intvl_node_t) : rb_tree_t :=
  mk_tree (root t) (nil t) (min t) (max t) (nodes t) (store_of t) (fresh t) o.

Definition rd (t : rb_tree_t) (x : nat) : outcome rb_node_t :=
  match store_of t !! x with Some n => Ret n | None => Fault end.
Definition wr (t : rb_tree_t) (x : nat) (f : rb_node_t -> rb_node_t) : outcome rb_tree_t :=
  n ← rd t x; Ret (with_store t (<[x := f n]> (store_of t))).

Definition put_color (c : rb_color) (n : rb_node_t) : rb_node_t :=
  mk_node (key n) (data n) c (left n) (right n) (parent n) (next n) (prev n).
Definition put_left (v : nat) (n : rb_node_t) : rb_node_t :=
  mk_node (key n) (data n) (color n) v (right n) (parent n) (next n) (prev n).
Definition put_right (v : nat) (n : rb_node_t) : rb_node_t :=
  mk_node (key n) (data n) (color n) (left n) v (parent n) (next n) (prev n).
Definition put_parent (v : nat) (n : rb_node_t) : rb_node_t :=
  mk_node (key n) (data n) (color n) (left n) (right n) v (next n) (prev n).
Definition put_next (v : nat) (n : rb_node_t) : rb_node_t :=
  mk_node (key n) (data n) (color n) (left n) (right n) (parent n) v (prev n).
Definition put_prev (v : nat) (n : rb_node_t) : rb_node_t :=
  mk_node (key n) (data n) (color n) (left n) (right n) (parent n) (next n) v.

Definition get_left (t : rb_tree_t) (x : nat) : outcome nat := n ← rd t x; Ret (left n).
Definition get_right (t : rb_tree_t) (x : nat) : outcome nat := n ← rd t x; Ret (right n).
Definition get_parent (t : rb_tree_t) (x : nat) : outcome nat := n ← rd t x; Ret (parent n).
Definition get_color (t : rb_tree_t) (x : nat) : outcome rb_color := n ← rd t x; Ret (color n).
Definition is_color (t : rb_tree_t) (x : nat) (c : rb_color) : outcome bool :=
  d ← get_color t x; Ret (bool_decide (d = c)).

(** Steps enough for a walk down or up a tree without cycles. *)
Definition walk_fuel (t : rb_tree_t) : nat := S (size (store_of t)).

Definition rb_node_is_nil (t : rb_tree_t) (x : nat) : outcome bool :=
  n ← rd t x; Ret ((data n =? 0) && (x =? parent n)%nat).

Fixpoint minimum_loop (fuel : nat) (t : rb_tree_t) (x : nat) : outcome nat :=
  match fuel with
  | O => NoFuel
  | S f => l ← get_left t x; if (l =? nil t)%nat then Ret x else minimum_loop f t l
  end.
Definition minimum (t : rb_tree_t) (x : nat) : outcome nat := minimum_loop (walk_fuel t) t x.

(** ** Rotations *)

(** Makes [y] the child of [x]'s parent in place of [x]. *)
Definition relink (t : rb_tree_t) (x y : nat) : outcome rb_tree_t :=
  p ← get_parent t x;
  if (p =? nil t)%nat then Ret (with_root t y)
  else
    l ← get_left t p;
    if (x =? l)%nat then wr t p (put_left y) else wr t p (put_right y).

Section operations.
Context (ev : events).

Definition rotate_left (t : rb_tree_t) (x : nat) : outcome rb_tree_t :=
  y ← get_right t x;
  t ← pre_rotate ev t x y;
  y ← get_right t x;
  yl ← get_left t y;
  t ← wr t x (put_right yl);
  yl ← get_left t y;
  t ← (if (yl =? nil t)%nat then Ret t else wr t yl (put_parent x));
  xp ← get_parent t x;
  t ← wr t y (put_parent xp);
  t ← relink t x y;
  t ← wr t y (put_left x);
  t ← wr t x (put_parent y);
  post_rotate ev t x y.

Definition rotate_right (t : rb_tree_t) (x : nat) : outcome rb_tree_t :=
  y ← get_left t x;
  t ← pre_rotate ev t x y;
  y ← get_left t x;
  yr ← get_right t y;
  t ← wr t x (put_left yr);
  yr ← get_right t y;
  t ← (if (yr =? nil t)%nat then Ret t else wr t yr (put_parent x));
  xp ← get_parent t x;
  t ← wr t y (put_parent xp);
  t ← relink t x y;
  t ← wr t y (put_right x);
  t ← wr t x (put_parent y);
  post_rotate ev t x y.

Definition replace_node (t : rb_tree_t) (u v : nat) : outcome rb_tree_t :=
  t ← evt_replace_node ev t u v;
  t ← relink t u v;
  up ← get_parent t u;
  wr t v (put_parent up).

(** ** Insertion *)

(** One iteration of the repair, with [p] the red parent of [z]; the
    [get_*] side is mirrored in the second half. *)
Definition insert_fixup_step (t : rb_tree_t) (z : nat) : outcome (rb_tree_t * nat) :=
  p ← get_parent t z;
  g ← get_parent t p;
  gl ← get_left t g;
  if (p =? gl)%nat then
    y ← get_right t g;
    red ← is_color t y RED;
    if (red : bool) then
      t ← wr t p (put_color BLACK);
      t ← wr t y (put_color BLACK);
      t ← wr t g (put_color RED);
      Ret (t, g)
    else
      pr ← get_right t p;
      '(t, z) ← (if (z =? pr)%nat then t ← rotate_left t p; Ret (t, p) else Ret (t, z));
      p ← get_parent t z;
      t ← wr t p (put_color BLACK);
      g ← get_parent t p;
      t ← wr t g (put_color RED);
      t ← rotate_right t g;
      Ret (t, z)
  else
    red ← is_color t gl RED;
    if (red : bool) then
      t ← wr t p (put_color BLACK);
      t ← wr t gl (put_color BLACK);
      t ← wr t g (put_color RED);
      Ret (t, g)
    else
      pl ← get_left t p;
      '(t, z) ← (if (z =? pl)%nat then t ← rotate_right t p; Ret (t, p) else Ret (t, z));
      p ← get_parent t z;
      t ← wr t p (put_color BLACK);
      g ← get_parent t p;
      t ← wr t g (put_color RED);
      t ← rotate_left t g;
      Ret (t, z).

Fixpoint insert_fixup_loop (fuel : nat) (t : rb_tree_t) (z : nat) : outcome rb_tree_t :=
  match fuel with
  | O => NoFuel
  | S f =>
      p ← get_parent t z;
      red ← is_color t p RED;
      if (red : bool) then '(t, z) ← insert_fixup_step t z; insert_fixup_loop f t z else Ret t
  end.

Definition insert_fixup (t : rb_tree_t) (z : nat) : outcome rb_tree_t :=
  t ← insert_fixup_loop (walk_fuel t) t z;
  wr t (root t) (put_color BLACK).

(** The node under which [k] belongs. *)
Fixpoint find_parent (fuel : nat) (t : rb_tree_t) (x y : nat) (k : Z) : outcome nat :=
  match fuel with
  | O => NoFuel
  | S f =>
      if (x =? nil t)%nat then Ret y
      else
        n ← rd t x;
        find_parent f t (if k <? key n then left n else right n) x k
  end.

(** The first node of the thread whose key is not below [k]. *)
Fixpoint find_thread (fuel : nat) (t : rb_tree_t) (curr : nat) (k : Z) : outcome nat :=
  match fuel with
  | O => NoFuel
  | S f =>
      if (curr =? nil t)%nat then Ret curr
      else
        n ← rd t curr;
        if key n <? k then find_thread f t (next n) k else Ret curr
  end.

(** Links [z] below [y]. *)
Definition link_child (t : rb_tree_t) (z y : nat) : outcome rb_tree_t :=
  t ← wr t z (put_parent y);
  t ← (if (y =? nil t)%nat then Ret (with_root t z)
       else
         nz ← rd t z;
         ny ← rd t y;
         if key nz <? key ny then wr t y (put_left z) else wr t y (put_right z));
  t ← wr t z (put_color RED);
  t ← wr t z (put_left (nil t));
  wr t z (put_right (nil t)).

(** Threads [z] into the list from [min] to [max]. *)
Definition thread_node (t : rb_tree_t) (z : nat) : outcome rb_tree_t :=
  if nodes t =? 0 then
    t ← wr t z (put_prev (nil t));
    t ← wr t z (put_next (nil t));
    Ret (with_max (with_min t z) z)
  else
    nz ← rd t z;
    curr ← find_thread (walk_fuel t) t (min t) (key nz);
    if (curr =? nil t)%nat then
      t ← wr t z (put_prev (max t));
      t ← wr t z (put_next (nil t));
      t ← wr t (max t) (put_next z);
      Ret (with_max t z)
    else if (curr =? min t)%nat then
      t ← wr t z (put_next (min t));
      t ← wr t z (put_prev (nil t));
      t ← wr t (min t) (put_prev z);
      Ret (with_min t z)
    else
      t ← wr t z (put_next curr);
      nc ← rd t curr;
      t ← wr t z (put_prev (prev nc));
      nc ← rd t curr;
      t ← wr t (prev nc) (put_next z);
      wr t curr (put_prev z).

Definition insert_node (t : rb_tree_t) (z : nat) : outcome rb_tree_t :=
  t ← pre_insert_node ev t z;
  nz ← rd t z;
  y ← find_parent (walk_fuel t) t (root t) (nil t) (key nz);
  t ← link_child t z y;
  t ← thread_node t z;
  t ← insert_fixup t z;
  post_insert_node ev (with_nodes t (nodes t + 1)) z.

(** ** Deletion *)

(** The repair below a black sibling [w] of [x], on its right and on its left. *)
Definition delete_rest_left (t : rb_tree_t) (x w : nat) : outcome (rb_tree_t * nat) :=
  wl ← get_left t w;
  wr' ← get_right t w;
  lb ← is_color t wl BLACK;
  rb ← is_color t wr' BLACK;
  if lb && rb then
    t ← wr t w (put_color RED);
    p ← get_parent t x;
    Ret (t, p)
  else
    '(t, w) ← (if (rb : bool) then
                 t ← wr t wl (put_color BLACK);
                 t ← wr t w (put_color RED);
                 t ← rotate_right t w;
                 p ← get_parent t x;
                 w ← get_right t p;
                 Ret (t, w)
               else Ret (t, w));
    p ← get_parent t x;
    pc ← get_color t p;
    t ← wr t w (put_color pc);
    t ← wr t p (put_color BLACK);
    wr' ← get_right t w;
    t ← wr t wr' (put_color BLACK);
    t ← rotate_left t p;
    Ret (t, root t).

Definition delete_rest_right (t : rb_tree_t) (x w : nat) : outcome (rb_tree_t * nat) :=
  wr' ← get_right t w;
  wl ← get_left t w;
  rb ← is_color t wr' BLACK;
  lb ← is_color t wl BLACK;
  if rb && lb then
    t ← wr t w (put_color RED);
    p ← get_parent t x;
    Ret (t, p)
  else
    '(t, w) ← (if (lb : bool) then
                 t ← wr t wr' (put_color BLACK);
                 t ← wr t w (put_color RED);
                 t ← rotate_left t w;
                 p ← get_parent t x;
                 w ← get_left t p;
                 Ret (t, w)
               else Ret (t, w));
    p ← get_parent t x;
    pc ← get_color t p;
    t ← wr t w (put_color pc);
    t ← wr t p (put_color BLACK);
    wl ← get_left t w;
    t ← wr t wl (put_color BLACK);
    t ← rotate_right t p;
    Ret (t, root t).

(** One iteration of the repair after a deletion: a red sibling is turned into
    a black one first. *)
Definition delete_fixup_step (t : rb_tree_t) (x : nat) : outcome (rb_tree_t * nat) :=
  p ← get_parent t x;
  pl ← get_left t p;
  if (x =? pl)%nat then
    w ← get_right t p;
    red ← is_color t w RED;
    '(t, w) ← (if (red : bool) then
                 t ← wr t w (put_color BLACK);
                 t ← wr t p (put_color RED);
                 t ← rotate_left t p;
                 p ← get_parent t x;
                 w ← get_right t p;
                 Ret (t, w)
               else Ret (t, w));
    delete_rest_left t x w
  else
    red ← is_color t pl RED;
    '(t, w) ← (if (red : bool) then
                 t ← wr t pl (put_color BLACK);
                 t ← wr t p (put_color RED);
                 t ← rotate_right t p;
                 p ← get_parent t x;
                 w ← get_left t p;
                 Ret (t, w)
               else Ret (t, pl));
    delete_rest_right t x w.

Fixpoint delete_fixup_loop (fuel : nat) (t : rb_tree_t) (x : nat) : outcome (rb_tree_t * nat) :=
  match fuel with
  | O => NoFuel
  | S f =>
      black ← is_color t x BLACK;
      if negb (x =? root t)%nat && black
      then '(t, x) ← delete_fixup_step t x; delete_fixup_loop f t x
      else Ret (t, x)
  end.

Definition delete_fixup (t : rb_tree_t) (x : nat) : outcome rb_tree_t :=
  '(t, x) ← delete_fixup_loop (S (walk_fuel t)) t x;
  wr t x (put_color BLACK).

(** Takes [z] out of the thread. *)
Definition unthread_node (t : rb_tree_t) (z : nat) : outcome rb_tree_t :=
  nz ← rd t z;
  t ← (if (prev nz =? nil t)%nat then Ret (with_min t (next nz))
       else wr t (prev nz) (put_next (next nz)));
  nz ← rd t z;
  if (next nz =? nil t)%nat then Ret (with_max t (prev nz))
  else wr t (next nz) (put_prev (prev nz)).

(** Takes [z] out of the tree: the node that moved up and the colour lost. *)
Definition unlink_node (t : rb_tree_t) (z : nat) : outcome (rb_tree_t * nat * rb_color) :=
  nz ← rd t z;
  if (left nz =? nil t)%nat then
    t ← replace_node t z (right nz);
    Ret (t, right nz, color nz)
  else if (right nz =? nil t)%nat then
    t ← replace_node t z (left nz);
    Ret (t, left nz, color nz)
  else
    y ← minimum t (right nz);
    ny ← rd t y;
    let orig_color := color ny in
    let x := right ny in
    t ← (if (parent ny =? z)%nat then wr t x (put_parent y)
         else
           t ← replace_node t y (right ny);
           zr ← get_right t z;
           t ← wr t y (put_right zr);
           yr ← get_right t y;
           wr t yr (put_parent y));
    t ← replace_node t z y;
    zl ← get_left t z;
    t ← wr t y (put_left zl);
    yl ← get_left t y;
    t ← wr t yl (put_parent y);
    zc ← get_color t z;
    t ← wr t y (put_color zc);
    Ret (t, x, orig_color).

Definition delete_node (t : rb_tree_t) (z : nat) : outcome rb_tree_t :=
  t ← pre_delete_node ev t z;
  t ← unthread_node t z;
  '(t, x, orig_color) ← unlink_node t z;
  t ← post_delete_node ev (with_nodes t (nodes t - 1)) z x;
  if bool_decide (orig_color = BLACK) then delete_fixup t x else Ret t.

(** ** Interface *)

Definition rb_tree_insert_node (t : rb_tree_t) (node : nat) : outcome rb_tree_t :=
  t ← insert_node t node;
  n ← rd t node;
  t ← (if nodes t =? 0 then Ret (with_max (with_min t node) node)
       else
         nmin ← rd t (min t);
         if key n <? key nmin then Ret (with_min t node)
         else
           nmax ← rd t (max t);
           if key nmax <=? key n then Ret (with_max t node) else Ret t);
  Ret (with_nodes t (nodes t + 1)).

(** The data of the node, which is then released. *)
Definition rb_tree_delete_node (t : rb_tree_t) (node : nat) : outcome (Z * rb_tree_t) :=
  t ← delete_node t node;
  n ← rd t node;
  let t :=
    if nodes t =? 1 then with_max (with_min t (nil t)) (nil t)
    else if (node =? min t)%nat then
      if nodes t =? 2 then with_min t (max t) else with_min t (parent n)
    else if (node =? max t)%nat then with_max t (parent n)
    else t in
  let t := with_nodes t (nodes t - 1) in
  Ret (data n, with_store t (delete node (store_of t))).

Fixpoint find_loop (fuel : nat) (t : rb_tree_t) (x : nat) (k : Z) : outcome nat :=
  match fuel with
  | O => NoFuel
  | S f =>
      if (x =? nil t)%nat then Ret (nil t)
      else
        n ← rd t x;
        if k =? key n then Ret x
        else find_loop f t (if k <? key n then left n else right n) k
  end.

Definition rb_tree_find_node (t : rb_tree_t) (k : Z) : outcome nat :=
  find_loop (walk_fuel t) t (root t) k.

(** The data, or 0 for NULL. *)
Definition rb_tree_find (t : rb_tree_t) (k : Z) : outcome Z :=
  x ← rb_tree_find_node t k;
  none ← rb_node_is_nil t x;
  if (none : bool) then Ret 0 else n ← rd t x; Ret (data n).

Definition rb_tree_insert (t : rb_tree_t) (k d : Z) : outcome rb_tree_t :=
  let z := fresh t in
  let n := mk_node k d RED (nil t) (nil t) (nil t) (nil t) (nil t) in
  rb_tree_insert_node
    (mk_tree (root t) (nil t) (min t) (max t) (nodes t) (<[z := n]> (store_of t)) (S z) (objs t)) z.

Definition rb_tree_delete (t : rb_tree_t) (k : Z) : outcome (Z * rb_tree_t) :=
  x ← rb_tree_find_node t k;
  none ← rb_node_is_nil t x;
  if (none : bool) then Ret (0, t) else rb_tree_delete_node t x.

End operations.

Definition create_rb_tree : rb_tree_t :=
  mk_tree 0 0 0 0 0 {[0%nat := mk_node 0 0 BLACK 0 0 0 0 0]} 1 ∅.

(** ** The shape of a tree

    [tr] is the shape with node names; a context is the path from a subtree
    up to the root, each step with the sibling that is left aside. *)

Inductive tr := E | T (l : tr) (x : nat) (r : tr).

Inductive frame :=
  | LeftOf (x : nat) (r : tr)
  | RightOf (l : tr) (x : nat).

Fixpoint plug (ctx : list frame) (t : tr) : tr :=
  match ctx with
  | [] => t
  | LeftOf x r :: ctx' => plug ctx' (T t x r)
  | RightOf l x :: ctx' => plug ctx' (T l x t)
  end.

(** The names in order. *)
Fixpoint inorder (t : tr) : list nat :=
  match t with E => [] | T l x r => inorder l ++ x :: inorder r end.

Fixpoint ctx_before (ctx : list frame) : list nat :=
  match ctx with
  | [] => []
  | LeftOf _ _ :: ctx' => ctx_before ctx'
  | RightOf l x :: ctx' => ctx_before ctx' ++ inorder l ++ [x]
  end.
Fixpoint ctx_after (ctx : list frame) : list nat :=
  match ctx with
  | [] => []
  | LeftOf x r :: ctx' => x :: inorder r ++ ctx_after ctx'
  | RightOf _ _ :: ctx' => ctx_after ctx'
  end.

Lemma inorder_plug ctx t : inorder (plug ctx t) = ctx_before ctx ++ inorder t ++ ctx_after ctx.
Proof.
  revert t. induction ctx as [|[x r|l x] ctx IH]; intros t; simpl.
  - by rewrite app_nil_r.
  - rewrite IH. simpl. by rewrite <- !app_assoc.
  - rewrite IH. simpl. by rewrite <- !app_assoc.
Qed.

(** The subtree at pointer [h], with parent [p], has shape [t]. *)
Fixpoint repr (s : gmap nat rb_node_t) (nl p h : nat) (t : tr) : Prop :=
  match t with
  | E => h = nl
  | T l x r => h = x /\ x <> nl /\
      exists n, s !! x = Some n /\ parent n = p /\ repr s nl x (left n) l /\ repr s nl x (right n) r
  end.

(** The context of a subtree at pointer [h] whose parent is [p], in a tree
    whose root pointer is [rt]. *)
Fixpoint crepr (s : gmap nat rb_node_t) (nl rt h p : nat) (ctx : list frame) : Prop :=
  match ctx with
  | [] => p = nl /\ h = rt
  | LeftOf x r :: ctx' => p = x /\ x <> nl /\
      exists n, s !! x = Some n /\ left n = h /\ repr s nl x (right n) r /\
        crepr s nl rt x (parent n) ctx'
  | RightOf l x :: ctx' => p = x /\ x <> nl /\
      exists n, s !! x = Some n /\ right n = h /\ repr s nl x (left n) l /\
        crepr s nl rt x (parent n) ctx'
  end.

Lemma repr_plug s nl rt ctx : forall t,
  repr s nl nl rt (plug ctx t) <-> exists h p, crepr s nl rt h p ctx /\ repr s nl p h t.
Proof.
  induction ctx as [|[x r|l x] ctx IH]; intros t; simpl.
  - split; [intros H; by exists rt, nl|]. by intros (h & p & [-> ->] & H).
  - rewrite IH. simpl. split.
    + intros (h & p & Hc & -> & Hx & n & Hn & <- & Hl & Hr).
      exists (left n), x. split_and!; try done. by exists n.
    + intros (h & p & (-> & Hx & n & Hn & <- & Hr & Hc) & Ht).
      exists x, (parent n). split; [done|]. split; [done|]. split; [done|]. by exists n.
  - rewrite IH. simpl. split.
    + intros (h & p & Hc & -> & Hx & n & Hn & <- & Hl & Hr).
      exists (right n), x. split_and!; try done. by exists n.
    + intros (h & p & (-> & Hx & n & Hn & <- & Hl & Hc) & Ht).
      exists x, (parent n). split; [done|]. split; [done|]. split; [done|]. by exists n.
Qed.

(** Only the children and parents of the nodes in the shape matter. *)
Definition same_links (s s' : gmap nat rb_node_t) (x : nat) : Prop :=
  (fun n => (left n, right n, parent n)) <$> s' !! x =
  (fun n => (left n, right n, parent n)) <$> s !! x.

Lemma same_links_Some s s' x n :
  same_links s s' x -> s !! x = Some n ->
  exists n', s' !! x = Some n' /\ left n' = left n /\ right n' = right n /\ parent n' = parent n.
Proof.
  unfold same_links. intros H Hn. rewrite Hn in H. destruct (s' !! x) as [n'|]; [|done].
  simpl in H. injection H as ? ? ?. by exists n'.
Qed.

Lemma repr_frame s s' nl t : forall p h,
  (forall x, x ∈ inorder t -> same_links s s' x) -> repr s nl p h t -> repr s' nl p h t.
Proof.
  induction t as [|l IHl x r IHr]; intros p h Hs; simpl in *; [done|].
  intros (-> & Hx & n & Hn & <- & Hl & Hr). split; [done|]. split; [done|].
  destruct (same_links_Some s s' x n) as (n' & Hn' & El & Er & Ep); [apply Hs; set_solver|done|].
  exists n'. rewrite El, Er. split_and!; try done.
  - apply IHl; [set_solver|done].
  - apply IHr; [set_solver|done].
Qed.

Lemma crepr_frame s s' nl rt ctx : forall h p,
  (forall x, x ∈ ctx_before ctx ++ ctx_after ctx -> same_links s s' x) ->
  crepr s nl rt h p ctx -> crepr s' nl rt h p ctx.
Proof.
  induction ctx as [|[x r|l x] ctx IH]; intros h p Hs; simpl in *; [done|..];
    intros (-> & Hx & n & Hn & <- & Hr & Hc); (split; [done|]); (split; [done|]);
    (destruct (same_links_Some s s' x n) as (n' & Hn' & El & Er & Ep);
      [apply Hs; set_solver|done|]);
    exists n'; rewrite ?El, ?Er, ?Ep; (split_and!; try done);
    [apply (repr_frame s)|apply IH|apply (repr_frame s)|apply IH]; try done; set_solver.
Qed.

(** What a tree keeps when only its links change. *)
Definition payload (n : rb_node_t) : Z * Z * rb_color * nat * nat :=
  (key n, data n, color n, next n, prev n).

Definition kept (t t' : rb_tree_t) : Prop :=
  nil t' = nil t /\ min t' = min t /\ max t' = max t /\ nodes t' = nodes t /\ fresh t' = fresh t /\
  forall z, payload <$> store_of t' !! z = payload <$> store_of t !! z.

Lemma kept_refl t : kept t t.
Proof. by split_and!. Qed.

Lemma kept_trans a b c : kept a b -> kept b c -> kept a c.
Proof.
  intros (? & ? & ? & ? & ? & H) (? & ? & ? & ? & ? & H'). split_and!; congruence.
Qed.

(** The trees agree at [z]. *)
Definition agree (t t' : rb_tree_t) (z : nat) : Prop := store_of t' !! z = store_of t !! z.

Lemma agree_links t t' z : agree t t' z -> same_links (store_of t) (store_of t') z.
Proof. unfold agree, same_links. by intros ->. Qed.

(** A write of links. *)
Lemma wr_links t x f n :
  store_of t !! x = Some n -> (forall m, payload (f m) = payload m) ->
  exists t', wr t x f = Ret t' /\ kept t t' /\ root t' = root t /\
    store_of t' !! x = Some (f n) /\ forall z, z <> x -> agree t t' z.
Proof.
  intros Hn Hf. unfold wr, rd. rewrite Hn. simpl. eexists. split; [done|]. simpl.
  split; [|split; [done|split; [by rewrite lookup_insert_eq|]]].
  - unfold kept. do 5 (split; [done|]). intros z. simpl. destruct (decide (x = z)) as [<-|Hne].
    + rewrite lookup_insert_eq, Hn. simpl. by rewrite Hf.
    + by rewrite lookup_insert_ne.
  - intros z Hz. unfold agree. simpl. by rewrite lookup_insert_ne.
Qed.

Lemma rd_at t x n : store_of t !! x = Some n -> rd t x = Ret n.
Proof. intros H. unfold rd. by rewrite H. Qed.

Lemma repr_root s nl p h t : repr s nl p h t -> h = nl \/ h ∈ inorder t.
Proof. destruct t as [|l x r]; simpl; [by left|]. intros (-> & _). right. set_solver. Qed.

Lemma repr_not_nil s nl t : forall p h, repr s nl p h t -> nl ∉ inorder t.
Proof.
  induction t as [|l IHl x r IHr]; intros p h; simpl; [set_solver|].
  intros (_ & Hx & n & _ & _ & Hl & Hr). apply IHl in Hl. apply IHr in Hr. set_solver.
Qed.

(** Giving the root of a subtree, if it has one, a new parent. *)
Lemma reparent t q h b x :
  repr (store_of t) (nil t) q h b -> NoDup (inorder b) ->
  exists t', (if (h =? nil t)%nat then Ret t else wr t h (put_parent x)) = Ret t' /\
    kept t t' /\ root t' = root t /\ repr (store_of t') (nil t) x h b /\
    forall z, z ∉ inorder b -> agree t t' z.
Proof.
  intros Hb Hnd. destruct b as [|l y r].
  - simpl in Hb. subst h. rewrite Nat.eqb_refl. exists t. split; [done|]. split; [apply kept_refl|].
    by split_and!.
  - destruct Hb as (-> & Hy & n & Hn & _ & Hl & Hr). rewrite (proj2 (Nat.eqb_neq _ _)) by done.
    destruct (wr_links t y (put_parent x) n) as (t' & Hw & Hk & Hrt & Hy' & Ho); [done..|].
    exists t'. split_and!; try done.
    + simpl. split; [done|]. split; [done|]. exists (put_parent x n). split; [done|].
      simpl in Hnd. apply NoDup_app in Hnd as (_ & Hd & [Hd' _]%NoDup_cons).
      split; [done|]. simpl. split.
      * apply (repr_frame (store_of t)); [|done]. intros z Hz. apply agree_links, Ho. set_solver.
      * apply (repr_frame (store_of t)); [|done]. intros z Hz. apply agree_links, Ho. set_solver.
    + intros z Hz. apply Ho. simpl in Hz. set_solver.
Qed.

(** Putting [y] in the place of [x] under its parent. *)
Lemma relink_ctx t ctx x y n :
  crepr (store_of t) (nil t) (root t) x (parent n) ctx -> store_of t !! x = Some n -> x <> nil t ->
  NoDup (ctx_before ctx ++ ctx_after ctx) -> x ∉ ctx_before ctx ++ ctx_after ctx ->
  exists t', relink t x y = Ret t' /\ kept t t' /\
    crepr (store_of t') (nil t) (root t') y (parent n) ctx /\
    forall z, z ∉ ctx_before ctx ++ ctx_after ctx -> agree t t' z.
Proof.
  intros Hc Hn Hxn Hnd Hx. unfold relink, get_parent, get_left. rewrite (rd_at _ _ _ Hn). simpl.
  destruct ctx as [|[p r|l p] ctx]; simpl in Hc.
  - destruct Hc as [Hp _]. rewrite Hp, Nat.eqb_refl. exists (with_root t y). by split_and!.
  - destruct Hc as (Hp & Hpn & m & Hm & Hl & Hr & Hc). rewrite Hp in *.
    rewrite (proj2 (Nat.eqb_neq _ _)) by done. rewrite (rd_at _ _ _ Hm). simpl.
    rewrite Hl, Nat.eqb_refl.
    destruct (wr_links t p (put_left y) m) as (t' & Hw & Hk & Hrt & Hp' & Ho); [done..|].
    exists t'. rewrite Hrt. split; [done|]. split; [done|]. simpl in Hnd, Hx. split.
    + split; [done|]. split; [done|]. exists (put_left y m). simpl. split_and!; try done.
      * apply (repr_frame (store_of t)); [|done]. intros z Hz. apply agree_links, Ho.
        intros ->. apply NoDup_app in Hnd as (_ & _ & [Hd _]%NoDup_cons). set_solver.
      * apply (crepr_frame (store_of t)); [|done]. intros z Hz. apply agree_links, Ho.
        intros ->. apply NoDup_app in Hnd as (_ & Hd1 & [Hd _]%NoDup_cons). set_solver.
    + intros z Hz. apply Ho. simpl in Hz. set_solver.
  - destruct Hc as (Hp & Hpn & m & Hm & Hr & Hl & Hc). rewrite Hp in *.
    rewrite (proj2 (Nat.eqb_neq _ _)) by done. rewrite (rd_at _ _ _ Hm). simpl.
    rewrite (proj2 (Nat.eqb_neq x (left m))).
    2:{ intros Ex. simpl in Hx. destruct (repr_root _ _ _ _ _ Hl) as [|Hin]; [congruence|].
        rewrite <- Ex in Hin. apply Hx. rewrite !elem_of_app. tauto. }
    destruct (wr_links t p (put_right y) m) as (t' & Hw & Hk & Hrt & Hp' & Ho); [done..|].
    exists t'. rewrite Hrt. split; [done|]. split; [done|]. simpl in Hnd, Hx. split.
    + split; [done|]. split; [done|]. exists (put_right y m). simpl. split_and!; try done.
      * apply (repr_frame (store_of t)); [|done]. intros z Hz. apply agree_links, Ho.
        intros ->. apply NoDup_app in Hnd as (Hd & _). apply NoDup_app in Hd as (_ & _ & Hd).
        apply NoDup_app in Hd as (_ & Hd & _). set_solver.
      * apply (crepr_frame (store_of t)); [|done]. intros z Hz. apply agree_links, Ho.
        intros ->. apply NoDup_app in Hnd as (Hd & Hd2 & _). apply NoDup_app in Hd as (_ & Hd & _).
        set_solver.
    + intros z Hz. apply Ho. simpl in Hz. set_solver.
Qed.

Definition ctx_ids (ctx : list frame) : list nat := ctx_before ctx ++ ctx_after ctx.

(** Two nodes, their three subtrees and the context have no node in common. *)
Record apart (A : list nat) (x : nat) (B : list nat) (y : nat) (C D : list nat) : Prop := {
  a_xy : x <> y;
  a_x : (x ∉ A) /\ (x ∉ B) /\ (x ∉ C) /\ (x ∉ D);
  a_y : (y ∉ A) /\ (y ∉ B) /\ (y ∉ C) /\ (y ∉ D);
  a_sets : forall z, (z ∈ A -> (z ∉ B) /\ z ∉ D) /\ (z ∈ B -> (z ∉ C) /\ z ∉ D) /\ (z ∈ C -> z ∉ D);
}.

Lemma NoDup_apart A x B y C D : NoDup (D ++ A ++ x :: B ++ y :: C) -> apart A x B y C D.
Proof.
  intros (_ & H1 & H)%NoDup_app. apply NoDup_app in H as (_ & H2 & H).
  apply NoDup_cons in H as (H3 & H). apply NoDup_app in H as (_ & H4 & H).
  apply NoDup_cons in H as (H5 & _).
  split; [set_solver..|]. intros z. split; [|split]; set_solver.
Qed.

Lemma plug_perm ctx t : inorder (plug ctx t) ≡ₚ ctx_ids ctx ++ inorder t.
Proof.
  rewrite inorder_plug. unfold ctx_ids. rewrite <- !app_assoc. f_equiv. apply Permutation_app_comm.
Qed.

Lemma agree_trans a b c z : agree a b z -> agree b c z -> agree a c z.
Proof. unfold agree. congruence. Qed.

(** The link changes common to both rotations, after [x] took over the root
    [hb] of [y]'s inner subtree by [fx]; [fy] makes [x] a child of [y]. *)
Lemma rotate_links t ctx A C b x y nx ny hb fx fy :
  store_of t !! x = Some nx -> store_of t !! y = Some ny ->
  (forall m, payload (fx m) = payload m /\ parent (fx m) = parent m) ->
  (forall m, payload (fy m) = payload m) -> x <> nil t ->
  apart A x (inorder b) y C (ctx_ids ctx) -> NoDup (ctx_ids ctx) -> NoDup (inorder b) ->
  crepr (store_of t) (nil t) (root t) x (parent nx) ctx ->
  repr (store_of t) (nil t) y hb b ->
  exists t1 t2 t', wr t x fx = Ret t1 /\ nil t1 = nil t /\ store_of t1 !! y = Some ny /\
    (if (hb =? nil t1)%nat then Ret t1 else wr t1 hb (put_parent x)) = Ret t2 /\
    (xp ← get_parent t2 x; t3 ← wr t2 y (put_parent xp); t4 ← relink t3 x y;
     t5 ← wr t4 y fy; wr t5 x (put_parent y)) = Ret t' /\
    kept t t' /\ (forall z, z ∈ A ++ C -> agree t t' z) /\
    store_of t' !! x = Some (put_parent y (fx nx)) /\
    store_of t' !! y = Some (fy (put_parent (parent nx) ny)) /\
    repr (store_of t') (nil t) x hb b /\ crepr (store_of t') (nil t) (root t') y (parent nx) ctx.
Proof.
  intros Hx Hy Hfx Hfy Hxn [Hxy Hxs Hys Hsets] Hndc Hndb Hc Hb. pose proof (Hfx nx) as [_ Hpx].
  destruct (wr_links t x fx nx) as (t1 & W1 & K1 & R1 & X1 & O1); [done|apply Hfx|].
  assert (N1 : nil t1 = nil t) by apply K1.
  assert (Y1 : store_of t1 !! y = Some ny) by (rewrite O1; done).
  destruct (reparent t1 y hb b x) as (t2 & W2 & K2 & R2 & B2 & O2); [|done|].
  { rewrite N1. apply (repr_frame (store_of t)); [|done]. intros z Hz. apply agree_links, O1. set_solver. }
  assert (X2 : store_of t2 !! x = Some (fx nx)) by (rewrite O2; tauto).
  assert (Y2 : store_of t2 !! y = Some ny) by (rewrite O2; tauto).
  assert (N2 : nil t2 = nil t) by (rewrite <- N1; apply K2).
  destruct (wr_links t2 y (put_parent (parent nx)) ny) as (t3 & W3 & K3 & R3 & Y3 & O3); [done..|].
  assert (X3 : store_of t3 !! x = Some (fx nx)) by (rewrite O3; done).
  assert (N3 : nil t3 = nil t) by (rewrite <- N2; apply K3).
  assert (O03 : forall z, z <> x -> z <> y -> z ∉ inorder b -> agree t t3 z).
  { intros z ? ? ?. eapply agree_trans; [by apply O1|]. eapply agree_trans; [by apply O2|by apply O3]. }
  assert (C3 : crepr (store_of t3) (nil t3) (root t3) x (parent (fx nx)) ctx).
  { rewrite N3, Hpx, R3, R2, R1. apply (crepr_frame (store_of t)); [|done]. intros z Hz.
    apply agree_links, O03; unfold ctx_ids in *; specialize (Hsets z); set_solver. }
  destruct (relink_ctx t3 ctx x y (fx nx) C3 X3) as (t4 & W4 & K4 & C4 & O4);
    [by rewrite N3|done|apply Hxs|]. rewrite N3, Hpx in C4.
  assert (X4 : store_of t4 !! x = Some (fx nx)) by (rewrite O4; [done|apply Hxs]).
  assert (Y4 : store_of t4 !! y = Some (put_parent (parent nx) ny)) by (rewrite O4; [done|apply Hys]).
  destruct (wr_links t4 y fy _ Y4) as (t5 & W5 & K5 & R5 & Y5 & O5); [done|].
  assert (X5 : store_of t5 !! x = Some (fx nx)) by (rewrite O5; done).
  destruct (wr_links t5 x (put_parent y) _ X5) as (t6 & W6 & K6 & R6 & X6 & O6); [done|].
  exists t1, t2, t6. do 4 (split; [done|]).
  assert (O46 : forall z, z <> x -> z <> y -> agree t4 t6 z).
  { intros z ? ?. eapply agree_trans; [by apply O5|by apply O6]. }
  split; [unfold get_parent; rewrite (rd_at _ _ _ X2); simpl; rewrite Hpx, W3; simpl;
          rewrite W4; simpl; by rewrite W5|].
  split; [by repeat (eapply kept_trans; [eassumption|])|]. split.
  { intros z Hz. specialize (Hsets z).
    eapply agree_trans; [apply O03|eapply agree_trans; [apply O4|apply O46]]; set_solver. }
  split; [done|]. split; [rewrite O6; done|]. rewrite R6, R5. split.
  - apply (repr_frame (store_of t2)); [|by rewrite <- N1]. intros z Hz. specialize (Hsets z).
    apply agree_links. eapply agree_trans; [apply O3|eapply agree_trans; [apply O4|apply O46]]; set_solver.
  - apply (crepr_frame (store_of t4)); [|done]. intros z Hz. specialize (Hsets z).
    apply agree_links, O46; unfold ctx_ids in *; set_solver.
Qed.

(** The tree has shape [sh], without a node twice. *)
Definition shaped (t : rb_tree_t) (sh : tr) : Prop :=
  repr (store_of t) (nil t) (nil t) (root t) sh /\ NoDup (inorder sh).

Lemma NoDup_parts ctx a x b y c :
  NoDup (inorder (plug ctx (T a x (T b y c)))) ->
  apart (inorder a) x (inorder b) y (inorder c) (ctx_ids ctx) /\
  NoDup (ctx_ids ctx) /\ NoDup (inorder b).
Proof.
  rewrite plug_perm. simpl. intros Hnd. split; [by apply NoDup_apart|].
  apply NoDup_app in Hnd as (? & _ & Hnd). split; [done|].
  apply NoDup_app in Hnd as (_ & _ & Hnd). apply NoDup_cons in Hnd as [_ Hnd].
  by apply NoDup_app in Hnd as (? & _).
Qed.

Lemma inorder_rotate ctx a x b y c :
  inorder (plug ctx (T a x (T b y c))) = inorder (plug ctx (T (T a x b) y c)).
Proof. rewrite !inorder_plug. simpl. do 2 f_equal. by rewrite <- !app_assoc. Qed.

Lemma rotate_left_shape t ctx a x b y c :
  shaped t (plug ctx (T a x (T b y c))) ->
  exists t', rotate_left no_events t x = Ret t' /\ kept t t' /\
    shaped t' (plug ctx (T (T a x b) y c)).
Proof.
  intros [Hr Hnd]. destruct (NoDup_parts _ _ _ _ _ _ Hnd) as (Hap & Hndc & Hndb).
  apply repr_plug in Hr as (h & p & Hc & Ht). simpl in Ht.
  destruct Ht as (-> & Hxn & nx & Hnx & <- & Ha & Ey & Hyn & ny & Hny & Epy & Hb & Hcc).
  destruct (rotate_links t ctx (inorder a) (inorder c) b x y nx ny (left ny)
    (put_right (left ny)) (put_left x))
    as (t1 & t2 & t' & W1 & N1 & Y1 & W2 & W3 & K & O & X' & Y' & B' & C'); try done.
  exists t'. split; [|split; [done|]].
  - unfold rotate_left, get_right, get_left. rewrite (rd_at _ _ _ Hnx). simpl.
    rewrite (rd_at _ _ _ Hnx). simpl. rewrite Ey, (rd_at _ _ _ Hny). simpl.
    rewrite W1. simpl. rewrite (rd_at _ _ _ Y1). simpl. rewrite W2. simpl.
    rewrite <- W3. unfold get_parent. destruct (rd t2 x) as [m| | |]; simpl; try done.
    destruct (wr t2 y _) as [t3| | |]; simpl; try done. destruct (relink t3 x y) as [t4| | |]; simpl; try done.
    destruct (wr t4 y _) as [t5| | |]; simpl; try done. by destruct (wr t5 x _).
  - assert (Nn : nil t' = nil t) by apply K. split; [|by rewrite <- inorder_rotate].
    rewrite Nn. apply repr_plug. exists y, (parent nx). split; [done|]. simpl.
    split; [done|]. split; [done|]. exists (put_left x (put_parent (parent nx) ny)).
    split; [done|]. split; [done|]. simpl. split.
    + split; [done|]. split; [done|]. exists (put_parent y (put_right (left ny) nx)).
      split; [done|]. split; [done|]. split; [|done]. simpl.
      apply (repr_frame (store_of t)); [|done]. intros z Hz. apply agree_links, O. set_solver.
    + apply (repr_frame (store_of t)); [|done]. intros z Hz. apply agree_links, O. set_solver.
Qed.

Lemma apart_mirror A x B y C D : apart A x B y C D -> apart C y B x A D.
Proof.
  intros [Hxy Hx Hy Hs]. split; [congruence|tauto|tauto|].
  intros z. specialize (Hs z). tauto.
Qed.

Lemma rotate_right_shape t ctx a x b y c :
  shaped t (plug ctx (T (T a x b) y c)) ->
  exists t', rotate_right no_events t y = Ret t' /\ kept t t' /\
    shaped t' (plug ctx (T a x (T b y c))).
Proof.
  intros [Hr Hnd]. rewrite <- inorder_rotate in Hnd.
  destruct (NoDup_parts _ _ _ _ _ _ Hnd) as (Hap%apart_mirror & Hndc & Hndb).
  apply repr_plug in Hr as (h & p & Hc & Ht). simpl in Ht.
  destruct Ht as (-> & Hyn & ny & Hny & <- & (Ex & Hxn & nx & Hnx & Epx & Ha & Hb) & Hcc).
  destruct (rotate_links t ctx (inorder c) (inorder a) b y x ny nx (right nx)
    (put_left (right nx)) (put_right y))
    as (t1 & t2 & t' & W1 & N1 & Y1 & W2 & W3 & K & O & Y' & X' & B' & C'); try done.
  exists t'. split; [|split; [done|]].
  - unfold rotate_right, get_right, get_left. rewrite (rd_at _ _ _ Hny). simpl.
    rewrite (rd_at _ _ _ Hny). simpl. rewrite Ex, (rd_at _ _ _ Hnx). simpl.
    rewrite W1. simpl. rewrite (rd_at _ _ _ Y1). simpl. rewrite W2. simpl.
    rewrite <- W3. unfold get_parent. destruct (rd t2 y) as [m| | |]; simpl; try done.
    destruct (wr t2 x _) as [t3| | |]; simpl; try done. destruct (relink t3 y x) as [t4| | |]; simpl; try done.
    destruct (wr t4 x _) as [t5| | |]; simpl; try done. by destruct (wr t5 y _).
  - assert (Nn : nil t' = nil t) by apply K. split; [|done].
    rewrite Nn. apply repr_plug. exists x, (parent ny). split; [done|]. simpl.
    split; [done|]. split; [done|]. exists (put_right y (put_parent (parent ny) nx)).
    split; [done|]. split; [done|]. simpl. split.
    + apply (repr_frame (store_of t)); [|done]. intros z Hz. apply agree_links, O. set_solver.
    + split; [done|]. split; [done|]. exists (put_parent x (put_left (right nx) ny)).
      split; [done|]. split; [done|]. split; [done|]. simpl.
      apply (repr_frame (store_of t)); [|done]. intros z Hz. apply agree_links, O. set_solver.
Qed.

(** ** Search *)

(** Keys do not decrease along [l]. *)
Definition ascending (s : gmap nat rb_node_t) (l : list nat) : Prop :=
  StronglySorted (fun a b => forall m n, s !! a = Some m -> s !! b = Some n -> key m <= key n) l.

(** [x] is a node of [l] with key [k], or the sentinel when there is none. *)
Definition found (s : gmap nat rb_node_t) (nl : nat) (l : list nat) (k : Z) (x : nat) : Prop :=
  (x ∈ l /\ exists n, s !! x = Some n /\ key n = k) \/
  (x = nl /\ forall z n, z ∈ l -> s !! z = Some n -> key n <> k).

Lemma repr_dom s nl t : forall p h, repr s nl p h t -> forall x, x ∈ inorder t -> x ∈ dom s.
Proof.
  induction t as [|l IHl x r IHr]; intros p h; simpl; [set_solver|].
  intros (_ & _ & n & Hn & _ & Hl & Hr) z [Hz|[->|Hz]%elem_of_cons]%elem_of_app; eauto.
  apply elem_of_dom. eauto.
Qed.

Lemma shaped_length t sh : shaped t sh -> (length (inorder sh) <= size (store_of t))%nat.
Proof.
  intros [Hr Hnd]. rewrite <- size_dom.
  rewrite <- (size_list_to_set (C := gset nat) (inorder sh)) by done. apply subseteq_size.
  intros x Hx. apply (repr_dom _ _ _ _ _ Hr). set_solver.
Qed.

(** Searching below [h]: the keys outside the side taken differ from [k]. *)
Lemma find_loop_found t k sh : forall p h fuel,
  repr (store_of t) (nil t) p h sh -> ascending (store_of t) (inorder sh) ->
  (length (inorder sh) < fuel)%nat ->
  exists x, find_loop fuel t h k = Ret x /\ found (store_of t) (nil t) (inorder sh) k x.
Proof.
  induction sh as [|l IHl y r IHr]; intros p h fuel Hr Hs Hf;
    (destruct fuel as [|fuel]; [lia|]); simpl in *.
  - subst h. rewrite Nat.eqb_refl. exists (nil t). split; [done|]. right. split; [done|set_solver].
  - destruct Hr as (-> & Hy & n & Hn & _ & Hl & Hr). rewrite (proj2 (Nat.eqb_neq _ _)) by done.
    rewrite (rd_at _ _ _ Hn). simpl. rewrite length_app in Hf. simpl in Hf.
    apply StronglySorted_app in Hs as (Hlr & Hsl & Hsr).
    apply StronglySorted_cons in Hsr as [Hyr Hsr].
    destruct (Z.eqb_spec k (key n)) as [Ek|Ek].
    { exists y. split; [done|]. left. split; [set_solver|]. by exists n. }
    destruct (Z.ltb_spec k (key n)) as [Hlt|Hge].
    + destruct (IHl y (left n) fuel) as (x & Hx & [[Hin Hfo]|[-> Hno]]); [done|done|lia|..];
        exists x || exists (nil t); (split; [done|]); [left; split; [set_solver|done]|right].
      split; [done|]. intros z m [Hz|[->|Hz]%elem_of_cons]%elem_of_app Hm; [eauto|congruence|].
      rewrite Forall_forall in Hyr. pose proof (Hyr z Hz n m Hn Hm). lia.
    + destruct (IHr y (right n) fuel) as (x & Hx & [[Hin Hfo]|[-> Hno]]); [done|done|lia|..];
        exists x || exists (nil t); (split; [done|]); [left; split; [set_solver|done]|right].
      split; [done|]. intros z m [Hz|[->|Hz]%elem_of_cons]%elem_of_app Hm; [|congruence|eauto].
      assert (key m <= key n) by (apply (Hlr z y); set_solver || done). lia.
Qed.

Lemma find_node_found t sh k :
  shaped t sh -> ascending (store_of t) (inorder sh) ->
  exists x, rb_tree_find_node t k = Ret x /\ found (store_of t) (nil t) (inorder sh) k x.
Proof.
  intros Ht Hs. pose proof (shaped_length _ _ Ht). destruct Ht as [Hr _].
  apply (find_loop_found t k sh (nil t)); [done..|]. unfold walk_fuel. lia.
Qed.

(** ** Properties *)

(** A tree of three nodes 1, 2, 3 with keys 5, 3, 8, as insertion builds it. *)
Definition tree_ex : rb_tree_t :=
  mk_tree 1 0 2 3 6
    (<[0%nat := mk_node 0 0 BLACK 0 0 0 0 0]>
      (<[1%nat := mk_node 5 105 BLACK 2 3 0 3 2]>
        (<[2%nat := mk_node 3 103 RED 0 0 1 1 0]>
          (<[3%nat := mk_node 8 108 RED 0 0 1 0 1]> ∅)))) 4 ∅.

Lemma tree_ex_built :
  (t ← rb_tree_insert no_events create_rb_tree 5 105;
   t ← rb_tree_insert no_events t 3 103; rb_tree_insert no_events t 8 108) = Ret tree_ex.
Proof. vm_compute. reflexivity. Qed.

Lemma tree_ex_is : shaped tree_ex (T (T E 2 E) 1 (T E 3 E)).
Proof.
  split; [|apply (bool_decide_unpack (NoDup [2; 1; 3]%nat)); exact I].
  vm_compute. repeat (split; [done|]). eexists. repeat (split; [done|]).
  split; (split; [done|]); (split; [done|]); eexists; by repeat split.
Qed.

(** A rotation moves two linked nodes of a tree to the other side and
    back: the shape changes as expected anywhere in the tree, the nodes stay
    in the same order, and nothing but links changes. *)
Theorem rotations_inverse (t : rb_tree_t) (ctx : list frame) (a b c : tr) (x y : nat)
    (Ht : shaped t (plug ctx (T a x (T b y c)))) :
  inorder (plug ctx (T a x (T b y c))) = inorder (plug ctx (T (T a x b) y c)) /\
  exists t' t'', rotate_left no_events t x = Ret t' /\ kept t t' /\
    shaped t' (plug ctx (T (T a x b) y c)) /\
    rotate_right no_events t' y = Ret t'' /\ kept t t'' /\
    shaped t'' (plug ctx (T a x (T b y c))).
Proof.
  split; [apply inorder_rotate|].
  destruct (rotate_left_shape _ _ _ _ _ _ _ Ht) as (t' & H & Hk & Ht').
  destruct (rotate_right_shape _ _ _ _ _ _ _ Ht') as (t'' & H' & Hk' & Ht'').
  exists t', t''. split_and!; try done. by apply (kept_trans _ t').
Qed.

Lemma rotations_inverse_witness :
  exists t' t'', rotate_left no_events tree_ex 1 = Ret t' /\
    shaped t' (T (T (T E 2 E) 1 E) 3 E) /\
    rotate_right no_events t' 3 = Ret t'' /\ shaped t'' (T (T E 2 E) 1 (T E 3 E)).
Proof.
  destruct (rotations_inverse tree_ex [] (T E 2 E) E E 1 3 tree_ex_is)
    as (_ & t' & t'' & H & _ & Ht & H' & _ & Ht').
  exists t', t''. split; [exact H|]. split; [exact Ht|]. split; [exact H'|exact Ht'].
Defined.

(** Looking a key up in a search tree ends and returns the data of a
    node with that key, or NULL when no node has it, whatever the parent link
    of the sentinel is. *)
Theorem rb_tree_find_correct (t : rb_tree_t) (sh : tr) (k : Z) (nn : rb_node_t)
    (Ht : shaped t sh) (Hs : ascending (store_of t) (inorder sh))
    (Hnil : store_of t !! nil t = Some nn) (Hdata : data nn = 0) :
  exists d, rb_tree_find t k = Ret d /\
    ((exists x n, x ∈ inorder sh /\ store_of t !! x = Some n /\ key n = k /\ data n = d) \/
     ((forall x n, x ∈ inorder sh -> store_of t !! x = Some n -> key n <> k) /\ d = 0)).
Proof.
  destruct (find_node_found t sh k Ht Hs) as (x & Hx & Hf).
  unfold rb_tree_find, rb_node_is_nil. rewrite Hx. simpl. destruct Hf as [(Hin & n & Hn & Hk)|[-> Hno]].
  - rewrite (rd_at _ _ _ Hn). simpl. exists (data n). split; [|left; by exists x, n].
    destruct (Z.eqb_spec (data n) 0) as [E|E]; [|done]. rewrite E. simpl. by destruct (x =? _)%nat.
  - rewrite (rd_at _ _ _ Hnil). simpl. rewrite Hdata. simpl. exists 0. split; [by destruct (_ =? _)%nat|]. by right.
Qed.

(** Checks the keys of a concrete list of nodes. *)
Ltac ascend :=
  repeat first
    [ apply SSorted_nil
    | apply SSorted_cons
    | apply Forall_nil_2
    | apply Forall_cons_2; [intros m n Hm Hn; vm_compute in Hm, Hn;
        injection Hm as <-; injection Hn as <-; simpl; lia|] ].

Lemma tree_ex_ascending : ascending (store_of tree_ex) [2; 1; 3]%nat.
Proof. ascend. Qed.

Lemma rb_tree_find_correct_witness :
  exists d, rb_tree_find tree_ex 8 = Ret d /\
    ((exists x n, x ∈ [2; 1; 3]%nat /\ store_of tree_ex !! x = Some n /\ key n = 8 /\ data n = d) \/
     ((forall x n, x ∈ [2; 1; 3]%nat -> store_of tree_ex !! x = Some n -> key n <> 8) /\ d = 0)).
Proof.
  refine (rb_tree_find_correct tree_ex (T (T E 2 E) 1 (T E 3 E)) 8
    (mk_node 0 0 BLACK 0 0 0 0 0) tree_ex_is tree_ex_ascending _ _); reflexivity.
Defined.

(** Deleting a key no node has takes the sentinel for a node once an
    earlier deletion has given it a parent: the sentinel itself is deleted
    and released. *)
Theorem rb_tree_delete_absent (ev : events) (t : rb_tree_t) (sh : tr) (k : Z) (nn : rb_node_t)
    (Ht : shaped t sh) (Hs : ascending (store_of t) (inorder sh))
    (Hnil : store_of t !! nil t = Some nn) (Hparent : parent nn <> nil t)
    (Habsent : forall x n, x ∈ inorder sh -> store_of t !! x = Some n -> key n <> k) :
  rb_tree_delete ev t k = rb_tree_delete_node ev t (nil t) /\
  forall d t', rb_tree_delete ev t k = Ret (d, t') -> store_of t' !! nil t = None.
Proof.
  destruct (find_node_found t sh k Ht Hs) as (x & Hx & Hf).
  destruct Hf as [(Hin & n & Hn & Hk)|[-> Hno]]; [by destruct (Habsent x n)|].
  assert (Heq : rb_tree_delete ev t k = rb_tree_delete_node ev t (nil t)).
  { unfold rb_tree_delete, rb_node_is_nil. rewrite Hx. simpl. rewrite (rd_at _ _ _ Hnil). simpl.
    by rewrite (proj2 (Nat.eqb_neq (nil t) _)), andb_false_r by done. }
  split; [done|]. rewrite Heq. unfold rb_tree_delete_node. intros d t' H.
  inv_ret. simpl. apply lookup_delete_eq.
Qed.

(** The tree after key 3 was deleted, and what deleting key 42 leaves of the
    sentinel. *)
Definition tree_ex' : rb_tree_t :=
  mk_tree 1 0 1 3 4
    (<[0%nat := mk_node 0 0 BLACK 0 0 1 0 0]>
      (<[1%nat := mk_node 5 105 BLACK 0 3 0 3 0]>
        (<[3%nat := mk_node 8 108 RED 0 0 1 0 1]> ∅))) 4 ∅.

Lemma tree_ex'_is : shaped tree_ex' (T E 1 (T E 3 E)).
Proof.
  split; [|apply (bool_decide_unpack (NoDup [1; 3]%nat)); exact I].
  vm_compute. repeat (split; [done|]). eexists. repeat (split; [done|]). eexists. by repeat split.
Qed.

Lemma tree_ex'_ascending : ascending (store_of tree_ex') [1; 3]%nat.
Proof. ascend. Qed.

Lemma rb_tree_delete_absent_witness :
  rb_tree_delete no_events tree_ex 3 = Ret (103, tree_ex') /\
  rb_tree_delete no_events tree_ex' 42 = rb_tree_delete_node no_events tree_ex' 0 /\
  exists t, rb_tree_delete no_events tree_ex' 42 = Ret (0, t) /\ store_of t !! 0%nat = None.
Proof.
  destruct (rb_tree_delete_absent no_events tree_ex' (T E 1 (T E 3 E)) 42
    (mk_node 0 0 BLACK 0 0 1 0 0) tree_ex'_is tree_ex'_ascending) as [H H'].
  - reflexivity.
  - discriminate.
  - intros x n [->|[->|[]%elem_of_nil]%elem_of_cons]%elem_of_cons Hn; vm_compute in Hn;
      injection Hn as <-; simpl; lia.
  - split; [vm_compute; reflexivity|]. split; [exact H|].
    destruct (rb_tree_delete no_events tree_ex' 42) as [[d t]| | |] eqn:E;
      vm_compute in E; try discriminate E.
    injection E as E1 E2. subst d. exists t. split; [reflexivity|]. apply (H' 0 t). reflexivity.
Defined.

(** The tree with the one node 1. *)
Definition single (k d n : Z) : rb_tree_t :=
  mk_tree 1 0 1 1 n
    (<[1%nat := mk_node k d BLACK 0 0 0 0 0]> {[0%nat := mk_node 0 0 BLACK 0 0 0 0 0]}) 2 ∅.

Lemma single_node k d n : rd (single k d n) 1 = Ret (mk_node k d BLACK 0 0 0 0 0).
Proof. reflexivity. Qed.

Lemma insert_node_single k d :
  insert_node no_events (mk_tree 0 0 0 0 0 (<[1%nat := mk_node k d RED 0 0 0 0 0]>
    {[0%nat := mk_node 0 0 BLACK 0 0 0 0 0]}) 2 ∅) 1 = Ret (single k d 1).
Proof. vm_compute. reflexivity. Qed.

(** The first insertion into an empty tree makes the node its root, its
    minimum and maximum, and a later lookup finds its data, but the tree
    counts two nodes. *)
Theorem first_insert (k d : Z) :
  exists t, rb_tree_insert no_events create_rb_tree k d = Ret t /\
    shaped t (T E 1 E) /\ min t = 1%nat /\ max t = 1%nat /\ nodes t = 2 /\
    rb_tree_find t k = Ret d.
Proof.
  exists (single k d 2). split.
  - unfold rb_tree_insert, rb_tree_insert_node, create_rb_tree. simpl.
    rewrite insert_node_single. simpl. rewrite !(single_node k d 1). simpl.
    rewrite Z.ltb_irrefl. simpl. by rewrite Z.leb_refl.
  - split; [split; [|apply NoDup_singleton]|].
    + simpl. split; [done|]. split; [done|]. eexists. by repeat split.
    + do 3 (split; [done|]). unfold rb_tree_find, rb_tree_find_node, walk_fuel.
      change (size (store_of (single k d 2))) with 2%nat. simpl.
      rewrite (single_node k d 2). simpl. rewrite Z.eqb_refl. simpl. unfold rb_node_is_nil.
      rewrite (single_node k d 2). simpl. by rewrite andb_false_r.
Qed.
