(* ===== verification/Murmur.v ===== *)
(** * lib/murmur3.c: the hash of keys

    The three variants of the hash, on a key of bytes whose length fits an
    int.  The processor reads words lowest byte first, at any address; the
    loops that count blocks from the end of them visit the same blocks in the
    same order.  Every step is a bijection of the hash state, so keys of one
    length that differ in one block only never collide. *)

From S2P Require Import Prelude.
From Stdlib Require Import Znumtheory.
From stdpp Require Import list.
Local Open Scope Z_scope.

(** ** Words *)

Definition rotl (w x r : Z) : Z := Z.lor (wrap w (Z.shiftl x r)) (Z.shiftr x (w - r)).
Abbreviation rotl32 := (rotl 32).
Abbreviation rotl64 := (rotl 64).

(** The [n] bytes from [i] on as a word, the lowest first: a block, or the
    bytes of a tail that a case of the switch falls through. *)
Fixpoint le_bytes (n : nat) (key : list Z) (i : Z) : outcome Z :=
  match n with
  | O => Ret 0
  | S n => b ← load key i; x ← le_bytes n key (i + 1); Ret (Z.lxor b (Z.shiftl x 8))
  end.
Definition getblock32 (key : list Z) (i : Z) : outcome Z := le_bytes 4 key (4 * i).
Definition getblock64 (key : list Z) (i : Z) : outcome Z := le_bytes 8 key (8 * i).

Definition xorshift (x r : Z) : Z := Z.lxor x (Z.shiftr x r).

Definition fmix32 (h : Z) : Z :=
  let h := xorshift h 16 in
  let h := u32 (h * 0x85EBCA6B) in
  let h := xorshift h 13 in
  let h := u32 (h * 0xC2B2AE35) in
  xorshift h 16.

Definition fmix64 (k : Z) : Z :=
  let k := xorshift k 33 in
  let k := u64 (k * 0xFF51AFD7ED558CCD) in
  let k := xorshift k 33 in
  let k := u64 (k * 0xC4CEB9FE1A85EC53) in
  xorshift k 33.

(** A word of the key before it is added to the hash. *)
Definition mix_k (w k c1 r c2 : Z) : Z := wrap w (rotl w (wrap w (k * c1)) r * c2).

(** The bytes that the switch adds to the word of [n] bytes at [i] of the tail,
    when the tail has [rem] bytes in all. *)
Definition tail_word (n : Z) (key : list Z) (start i rem : Z) : outcome Z :=
  le_bytes (Z.to_nat (Z.min n (rem - i))) key (start + i).

(** ** 32 bits *)

Definition body_x86_32 (h1 k1 : Z) : Z := u32 (rotl32 (Z.lxor h1 (mix_k 32 k1 0xCC9E2D51 15 0x1B873593)) 13 * 5 + 0xE6546B64).

Fixpoint blocks_x86_32 (n : nat) (key : list Z) (i h1 : Z) : outcome Z :=
  match n with
  | O => Ret h1
  | S n => k1 ← getblock32 key i; blocks_x86_32 n key (i + 1) (body_x86_32 h1 k1)
  end.

Definition murmur_hash_x86_32 (key : list Z) (seed : Z) : outcome Z :=
  let len := Z.of_nat (length key) in
  let nblocks := len / 4 in
  h1 ← blocks_x86_32 (Z.to_nat nblocks) key 0 seed;
  let rem := Z.land len 3 in
  h1 ← (if 1 <=? rem then k1 ← tail_word 3 key (nblocks * 4) 0 rem; Ret (Z.lxor h1 (mix_k 32 k1 0xCC9E2D51 15 0x1B873593)) else Ret h1);
  Ret (fmix32 (Z.lxor h1 len)).

Definition murmur_hash32 (key : list Z) (seed : Z) : outcome Z := murmur_hash_x86_32 key seed.

(** The hash that a map of lib/hash_map.h uses when it is given none. *)
Definition hash_map_default_hash (key : list Z) : outcome Z := murmur_hash32 key 0x74747474.

(** ** 128 bits in words of 32 *)

Record quad := mk_quad { q1 : Z; q2 : Z; q3 : Z; q4 : Z }.

Definition mix_quad (k : quad) : quad :=
  mk_quad (mix_k 32 (q1 k) 0x239B961B 15 0xAB0E9789) (mix_k 32 (q2 k) 0xAB0E9789 16 0x38B34AE5)
    (mix_k 32 (q3 k) 0x38B34AE5 17 0xA1E38B93) (mix_k 32 (q4 k) 0xA1E38B93 18 0x239B961B).

Definition body_x86_128 (h k : quad) : quad :=
  let k := mix_quad k in
  let h1 := u32 (u32 (rotl32 (Z.lxor (q1 h) (q1 k)) 19 + q2 h) * 5 + 0x561CCD1B) in
  let h2 := u32 (u32 (rotl32 (Z.lxor (q2 h) (q2 k)) 17 + q3 h) * 5 + 0x0BCAA747) in
  let h3 := u32 (u32 (rotl32 (Z.lxor (q3 h) (q3 k)) 15 + q4 h) * 5 + 0x96CD1C35) in
  let h4 := u32 (u32 (rotl32 (Z.lxor (q4 h) (q4 k)) 13 + h1) * 5 + 0x32AC3B17) in
  mk_quad h1 h2 h3 h4.

Fixpoint blocks_x86_128 (n : nat) (key : list Z) (i : Z) (h : quad) : outcome quad :=
  match n with
  | O => Ret h
  | S n =>
      k1 ← getblock32 key (i * 4); k2 ← getblock32 key (i * 4 + 1); k3 ← getblock32 key (i * 4 + 2); k4 ← getblock32 key (i * 4 + 3);
      blocks_x86_128 n key (i + 1) (body_x86_128 h (mk_quad k1 k2 k3 k4))
  end.

(** The cases of the switch, from the end of the tail to its start. *)
Definition tail_x86_128 (key : list Z) (start rem : Z) (h : quad) : outcome quad :=
  h ← (if 13 <=? rem then k4 ← tail_word 3 key start 12 rem; Ret (mk_quad (q1 h) (q2 h) (q3 h) (Z.lxor (q4 h) (mix_k 32 k4 0xA1E38B93 18 0x239B961B))) else Ret h);
  h ← (if 9 <=? rem then k3 ← tail_word 4 key start 8 rem; Ret (mk_quad (q1 h) (q2 h) (Z.lxor (q3 h) (mix_k 32 k3 0x38B34AE5 17 0xA1E38B93)) (q4 h)) else Ret h);
  h ← (if 5 <=? rem then k2 ← tail_word 4 key start 4 rem; Ret (mk_quad (q1 h) (Z.lxor (q2 h) (mix_k 32 k2 0xAB0E9789 16 0x38B34AE5)) (q3 h) (q4 h)) else Ret h);
  if 1 <=? rem then k1 ← tail_word 4 key start 0 rem; Ret (mk_quad (Z.lxor (q1 h) (mix_k 32 k1 0x239B961B 15 0xAB0E9789)) (q2 h) (q3 h) (q4 h)) else Ret h.

Definition sum_quad (h : quad) : quad :=
  let h1 := u32 (u32 (u32 (q1 h + q2 h) + q3 h) + q4 h) in
  mk_quad h1 (u32 (q2 h + h1)) (u32 (q3 h + h1)) (u32 (q4 h + h1)).

Definition fmix_quad (h : quad) : quad := mk_quad (fmix32 (q1 h)) (fmix32 (q2 h)) (fmix32 (q3 h)) (fmix32 (q4 h)).
Definition xor_quad (h : quad) (x : Z) : quad := mk_quad (Z.lxor (q1 h) x) (Z.lxor (q2 h) x) (Z.lxor (q3 h) x) (Z.lxor (q4 h) x).

Definition murmur_hash_x86_128 (key : list Z) (seed : Z) : outcome quad :=
  let len := Z.of_nat (length key) in
  let nblocks := len / 16 in
  h ← blocks_x86_128 (Z.to_nat nblocks) key 0 (mk_quad seed seed seed seed);
  h ← tail_x86_128 key (nblocks * 16) (Z.land len 15) h;
  Ret (sum_quad (fmix_quad (sum_quad (xor_quad h len)))).

(** The hash of names (kernel/vfs/ventry.c): the four words read as two. *)
Definition ve_hash_default (name : list Z) : outcome Z :=
  h ← murmur_hash_x86_128 name 0xDEADBEEF;
  Ret (Z.lxor (Z.lor (q1 h) (Z.shiftl (q2 h) 32)) (Z.lor (q3 h) (Z.shiftl (q4 h) 32))).

(** ** 128 bits in words of 64 *)

Record pair := mk_pair { p1 : Z; p2 : Z }.

Definition body_x64_128 (h k : pair) : pair :=
  let h1 := u64 (u64 (rotl64 (Z.lxor (p1 h) (mix_k 64 (p1 k) 0x87C37B91114253D5 31 0x4CF5AD432745937F)) 27 + p2 h) * 5 + 0x52DCE729) in
  let h2 := u64 (u64 (rotl64 (Z.lxor (p2 h) (mix_k 64 (p2 k) 0x4CF5AD432745937F 33 0x87C37B91114253D5)) 31 + h1) * 5 + 0x38495AB5) in
  mk_pair h1 h2.

Fixpoint blocks_x64_128 (n : nat) (key : list Z) (i : Z) (h : pair) : outcome pair :=
  match n with
  | O => Ret h
  | S n => k1 ← getblock64 key (i * 2); k2 ← getblock64 key (i * 2 + 1); blocks_x64_128 n key (i + 1) (body_x64_128 h (mk_pair k1 k2))
  end.

Definition tail_x64_128 (key : list Z) (start rem : Z) (h : pair) : outcome pair :=
  h ← (if 9 <=? rem then k2 ← tail_word 7 key start 8 rem; Ret (mk_pair (p1 h) (Z.lxor (p2 h) (mix_k 64 k2 0x4CF5AD432745937F 33 0x87C37B91114253D5))) else Ret h);
  if 1 <=? rem then k1 ← tail_word 8 key start 0 rem; Ret (mk_pair (Z.lxor (p1 h) (mix_k 64 k1 0x87C37B91114253D5 31 0x4CF5AD432745937F)) (p2 h)) else Ret h.

Definition sum_pair (h : pair) : pair := let h1 := u64 (p1 h + p2 h) in mk_pair h1 (u64 (p2 h + h1)).

Definition murmur_hash_x64_128 (key : list Z) (seed : Z) : outcome pair :=
  let len := Z.of_nat (length key) in
  let nblocks := len / 16 in
  h ← blocks_x64_128 (Z.to_nat nblocks) key 0 (mk_pair seed seed);
  h ← tail_x64_128 key (nblocks * 16) (Z.land len 15) h;
  let h := sum_pair (mk_pair (Z.lxor (p1 h) len) (Z.lxor (p2 h) len)) in
  Ret (sum_pair (mk_pair (fmix64 (p1 h)) (fmix64 (p2 h)))).

Definition murmur_hash64 (key : list Z) (seed : Z) : outcome Z :=
  h ← murmur_hash_x64_128 key seed; Ret (Z.lxor (p1 h) (p2 h)).

(** ** Words: every step can be undone *)

Lemma fits_lxor w x y : 0 <= w -> fits w x -> fits w y -> fits w (Z.lxor x y).
Proof.
  intros Hw Hx Hy. apply fits_of_testbit; [done|apply Z.lxor_nonneg; unfold fits in *; lia|].
  intros i Hi. rewrite Z.lxor_spec, !(fits_testbit w) by done. done.
Qed.

Lemma fits_shiftr w x r : 0 <= r -> fits w x -> fits w (Z.shiftr x r).
Proof.
  intros Hr [H1 H2]. rewrite Z.shiftr_div_pow2 by done. split; [apply Z.div_pos; lia|].
  apply Z.le_lt_trans with x; [|done]. apply Z.div_le_upper_bound; nia.
Qed.

Lemma fits_rotl w x r : 0 <= r <= w -> fits w x -> fits w (rotl w x r).
Proof. intros. apply fits_lor; [lia|apply wrap_range; lia|apply fits_shiftr; [lia|done]]. Qed.

Lemma fits_xorshift w x r : 0 <= w -> 0 <= r -> fits w x -> fits w (xorshift x r).
Proof. intros. apply fits_lxor; [done|done|by apply fits_shiftr]. Qed.

Lemma lxor_inj_l x y z : Z.lxor x z = Z.lxor y z -> x = y.
Proof. intros H. by rewrite <- (Z.lxor_0_r x), <- (Z.lxor_nilpotent z), <- Z.lxor_assoc, H, Z.lxor_assoc, Z.lxor_nilpotent, Z.lxor_0_r. Qed.

Lemma lxor_inj_r x y z : Z.lxor z x = Z.lxor z y -> x = y.
Proof. rewrite !(Z.lxor_comm z). apply lxor_inj_l. Qed.

Lemma xorshift_inj w x y r : 0 < r -> fits w x -> fits w y -> xorshift x r = xorshift y r -> x = y.
Proof.
  intros Hr Hx Hy E. apply Z.lxor_eq. set (d := Z.lxor x y).
  assert (d = Z.shiftr d r) as Hd.
  { apply Z.lxor_eq. unfold d. rewrite Z.shiftr_lxor.
    transitivity (Z.lxor (xorshift x r) (xorshift y r)); [|rewrite E; apply Z.lxor_nilpotent].
    unfold xorshift. rewrite !Z.lxor_assoc. f_equal. rewrite <- !Z.lxor_assoc. f_equal. apply Z.lxor_comm. }
  assert (0 <= d) by (apply Z.lxor_nonneg; unfold fits in *; lia).
  rewrite Z.shiftr_div_pow2 in Hd by lia.
  destruct (Z.eq_dec d 0) as [|Hn]; [done|]. assert (1 < 2 ^ r) by (apply Z.pow_gt_1; lia).
  pose proof (Z.div_lt d (2 ^ r) ltac:(lia) ltac:(lia)). lia.
Qed.

Lemma add_inj w x y z : 0 <= w -> fits w x -> fits w y -> wrap w (x + z) = wrap w (y + z) -> x = y.
Proof.
  intros Hw Hx Hy E. rewrite <- (wrap_small w x Hx), <- (wrap_small w y Hy). unfold wrap in *.
  replace x with (x + z - z) by lia. replace y with (y + z - z) by lia.
  by rewrite Zminus_mod, E, <- Zminus_mod.
Qed.

(** Multiplication by an odd number. *)
Lemma mul_inj w c x y : 0 <= w -> Z.odd c = true -> fits w x -> fits w y -> wrap w (x * c) = wrap w (y * c) -> x = y.
Proof.
  intros Hw Hc Hx Hy E. pose proof (Z.pow_pos_nonneg 2 w ltac:(lia) Hw).
  rewrite <- (wrap_small w x Hx), <- (wrap_small w y Hy). apply Z.cong_iff_0. apply Z.cong_iff_0 in E.
  apply Z.mod_divide; [lia|]. apply Z.mod_divide in E; [|lia].
  apply (Z.gauss _ c); [by replace (c * (x - y)) with (x * c - y * c) by lia|].
  apply Z.coprime_pow_l; [done|]. apply Z.coprime_Bezout. exists (- (c / 2)), 1.
  pose proof (Z.div_mod c 2 ltac:(lia)). rewrite Zmod_odd, Hc in *. lia.
Qed.

(** The low [r] bits and the others of a rotated word. *)
Lemma rotl_parts w x r : 0 <= r <= w -> fits w x -> rotl w x r = x mod 2 ^ (w - r) * 2 ^ r + x / 2 ^ (w - r).
Proof.
  intros Hr Hx. unfold rotl, wrap. rewrite Z.shiftl_mul_pow2, Z.shiftr_div_pow2 by lia.
  replace (2 ^ w) with (2 ^ (w - r) * 2 ^ r) by (rewrite <- Z.pow_add_r by lia; f_equal; lia).
  rewrite Zmult_mod_distr_r. rewrite <- Z.shiftl_mul_pow2 by lia.
  assert (0 <= x / 2 ^ (w - r) < 2 ^ r) as Hq.
  { destruct Hx. split; [apply Z.div_pos; lia|]. apply Z.div_lt_upper_bound; [lia|].
    rewrite <- Z.pow_add_r by lia. by replace (w - r + r) with w by lia. }
  assert (Z.land (Z.shiftl (x mod 2 ^ (w - r)) r) (x / 2 ^ (w - r)) = 0) as Hl.
  { apply Z.bits_inj'; intros i Hi. rewrite Z.land_spec, Z.bits_0, Z.shiftl_spec by done.
    destruct (Z.lt_ge_cases i r); [by rewrite Z.testbit_neg_r by lia|].
    rewrite (fits_testbit r (x / _)) by (lia || done). apply andb_false_r. }
  by rewrite Z.add_nocarry_lxor, Z.lxor_lor.
Qed.

Lemma rotl_inj w x y r : 0 <= r <= w -> fits w x -> fits w y -> rotl w x r = rotl w y r -> x = y.
Proof.
  intros Hr Hx Hy E. rewrite !rotl_parts in E by done.
  assert (forall v, fits w v -> 0 <= v / 2 ^ (w - r) < 2 ^ r) as Hq.
  { intros v [H1 H2]. split; [apply Z.div_pos; lia|]. apply Z.div_lt_upper_bound; [lia|].
    rewrite <- Z.pow_add_r by lia. by replace (w - r + r) with w by lia. }
  pose proof (Hq x Hx). pose proof (Hq y Hy).
  rewrite !(Z.mul_comm _ (2 ^ r)) in E. apply Z.div_mod_unique in E as [E1 E2]; [|lia..].
  rewrite (Z.div_mod x (2 ^ (w - r))), (Z.div_mod y (2 ^ (w - r))) by lia. by rewrite E1, E2.
Qed.

Lemma mix_k_fits w k c1 r c2 : 0 <= w -> fits w (mix_k w k c1 r c2).
Proof. intros. by apply wrap_range. Qed.

Lemma mix_k_inj w x y c1 r c2 :
  0 <= r <= w -> Z.odd c1 = true -> Z.odd c2 = true -> fits w x -> fits w y -> mix_k w x c1 r c2 = mix_k w y c1 r c2 -> x = y.
Proof.
  intros Hr H1 H2 Hx Hy E.
  assert (forall v, fits w (wrap w (v * c1))) by (intros; apply wrap_range; lia).
  apply (mul_inj w c2) in E; [|lia|done|by apply fits_rotl..].
  apply rotl_inj in E; [|done..]. by apply (mul_inj w c1) in E; [|lia|done|..].
Qed.

Lemma mix_k_0 w c1 r c2 : mix_k w 0 c1 r c2 = 0.
Proof. unfold mix_k, rotl, wrap. by rewrite Z.mul_0_l, Zmod_0_l, Z.shiftl_0_l, Z.shiftr_0_l, Zmod_0_l. Qed.

Lemma fmix32_fits h : fits 32 h -> fits 32 (fmix32 h).
Proof. intros. apply fits_xorshift; [lia..|]. apply wrap_range; lia. Qed.

Lemma fmix64_fits h : fits 64 h -> fits 64 (fmix64 h).
Proof. intros. apply fits_xorshift; [lia..|]. apply wrap_range; lia. Qed.

Lemma fmix_inj w r1 c1 r2 c2 r3 x y :
  0 <= w -> 0 < r1 -> 0 < r2 -> 0 < r3 -> Z.odd c1 = true -> Z.odd c2 = true -> fits w x -> fits w y ->
  xorshift (wrap w (xorshift (wrap w (xorshift x r1 * c1)) r2 * c2)) r3 = xorshift (wrap w (xorshift (wrap w (xorshift y r1 * c1)) r2 * c2)) r3 ->
  x = y.
Proof.
  intros Hw H1 H2 H3 Ho1 Ho2 Hx Hy E.
  assert (forall v, fits w (wrap w v)) by (intros; by apply wrap_range).
  apply (xorshift_inj w) in E; [|done..]. apply mul_inj in E; [|done|done|apply fits_xorshift; [lia|lia|done]..].
  apply (xorshift_inj w) in E; [|done..]. apply mul_inj in E; [|done|done|apply fits_xorshift; [lia|lia|done]..].
  by apply (xorshift_inj w) in E.
Qed.

Lemma fmix32_inj x y : fits 32 x -> fits 32 y -> fmix32 x = fmix32 y -> x = y.
Proof. intros Hx Hy. by apply fmix_inj. Qed.

Lemma fmix64_inj x y : fits 64 x -> fits 64 y -> fmix64 x = fmix64 y -> x = y.
Proof. intros Hx Hy. by apply fmix_inj. Qed.

(** A word of the state after a word of the key is added, as the three bodies
    compute it: to it another word of the state is added, in two of them. *)
Definition stir (w h k r a c : Z) : Z := wrap w (wrap w (rotl w (Z.lxor h k) r + a) * 5 + c).

Lemma stir_fits w h k r a c : 0 <= w -> fits w (stir w h k r a c).
Proof. intros. by apply wrap_range. Qed.

Lemma stir_inj w h h' k k' r a c :
  0 <= r <= w -> Z.odd 5 = true -> fits w h -> fits w h' -> fits w k -> fits w k' ->
  stir w h k r a c = stir w h' k' r a c -> Z.lxor h k = Z.lxor h' k'.
Proof.
  intros Hr Ho H1 H2 H3 H4 E. unfold stir in E.
  assert (forall x y, wrap w (wrap w x * 5 + c) = wrap w (wrap w y * 5 + c) -> wrap w x = wrap w y) as Hmul.
  { intros x y Exy. apply (mul_inj w 5); [lia|done|apply wrap_range; lia..|].
    apply (add_inj w _ _ c); [lia|apply wrap_range; lia..|].
    unfold wrap in *. by rewrite !Zplus_mod_idemp_l. }
  apply Hmul in E. apply add_inj in E; [|lia|apply fits_rotl; [done|apply fits_lxor; [lia|done..]]..].
  by apply rotl_inj in E; [|done|apply fits_lxor; [lia|done..]..].
Qed.

(** ** The bytes of the key *)

Definition byte (b : Z) : Prop := fits 8 b.

Fixpoint word_of (bs : list Z) : Z := match bs with [] => 0 | b :: bs => Z.lxor b (Z.shiftl (word_of bs) 8) end.

Lemma word_of_cons b bs : byte b -> word_of (b :: bs) = b + word_of bs * 256.
Proof.
  intros Hb. simpl. rewrite <- Z.add_nocarry_lxor.
  - by rewrite Z.shiftl_mul_pow2 by lia.
  - apply Z.bits_inj'. intros i Hi. rewrite Z.land_spec, Z.bits_0, Z.shiftl_spec by done.
    destruct (Z.lt_ge_cases i 8); [rewrite (Z.testbit_neg_r _ (i - 8)) by lia; apply andb_false_r|].
    by rewrite (fits_testbit 8 b).
Qed.

Lemma word_of_fits w bs : Forall byte bs -> 8 * Z.of_nat (length bs) <= w -> fits w (word_of bs).
Proof.
  intros Hb. revert w. induction Hb as [|b bs Hb _ IH]; intros w Hw; simpl length in Hw; [simpl; split; [done|apply Z.pow_pos_nonneg; lia]|].
  rewrite word_of_cons by done. specialize (IH (w - 8) ltac:(lia)). unfold byte, fits in *.
  replace w with (w - 8 + 8) by lia. rewrite Z.pow_add_r by lia. lia.
Qed.

Lemma word_of_inj bs bs' : Forall byte bs -> Forall byte bs' -> length bs = length bs' -> word_of bs = word_of bs' -> bs = bs'.
Proof.
  intros Hb. revert bs'. induction Hb as [|b bs Hb _ IH]; intros [|b' bs'] Hb' Hl E; try done.
  apply Forall_cons in Hb' as [Hb0 Hb']. rewrite !word_of_cons in E by done. unfold byte, fits in *.
  f_equal; [lia|]. apply IH; [done|simpl in Hl; lia|lia].
Qed.

Lemma le_bytes_word_of n key i :
  0 <= i -> i + Z.of_nat n <= Z.of_nat (length key) -> le_bytes n key i = Ret (word_of (take n (drop (Z.to_nat i) key))).
Proof.
  revert i. induction n as [|n IH]; intros i Hi Hn; [done|]. simpl.
  destruct (load_in_range key i ltac:(lia)) as (b & Hl & Hb). rewrite Hl. simpl. rewrite IH by lia. simpl.
  rewrite (drop_S key b (Z.to_nat i)) by done. simpl.
  by replace (Z.to_nat (i + 1)) with (S (Z.to_nat i)) by lia.
Qed.

(** ** A hash of blocks

    [words] reads a block of at most [sz] bytes; [body] adds a whole block to
    the state, [last] what is left at the end of the key.  Each can be undone
    when one of its arguments is known. *)

Class block_hash {H K R : Type} (sz : nat) (words : list Z -> K) (body last : H -> K -> H) (finish : Z -> H -> R) (good : H -> Prop) := {
  words_inj bs bs' : Forall byte bs -> Forall byte bs' -> length bs = length bs' -> (length bs <= sz)%nat -> words bs = words bs' -> bs = bs';
  body_good h bs : good h -> Forall byte bs -> (length bs <= sz)%nat -> good (body h (words bs));
  body_state h h' bs : good h -> good h' -> Forall byte bs -> (length bs <= sz)%nat -> body h (words bs) = body h' (words bs) -> h = h';
  body_block h bs bs' : good h -> Forall byte bs -> Forall byte bs' -> (length bs <= sz)%nat -> (length bs' <= sz)%nat ->
    body h (words bs) = body h (words bs') -> words bs = words bs';
  last_good h bs : good h -> Forall byte bs -> (length bs <= sz)%nat -> good (last h (words bs));
  last_state h h' bs : good h -> good h' -> Forall byte bs -> (length bs <= sz)%nat -> last h (words bs) = last h' (words bs) -> h = h';
  last_block h bs bs' : good h -> Forall byte bs -> Forall byte bs' -> (length bs <= sz)%nat -> (length bs' <= sz)%nat ->
    last h (words bs) = last h (words bs') -> words bs = words bs';
  finish_inj n h h' : fits 31 n -> good h -> good h' -> finish n h = finish n h' -> h = h'
}.

(** Block [j] of a key, and keys that are alike outside of it. *)
Definition block (sz : nat) (key : list Z) (j : nat) : list Z := take sz (drop (sz * j) key).
Definition alike (sz : nat) (key key' : list Z) (j : nat) : Prop :=
  length key = length key' /\ forall i, (i / sz)%nat <> j -> key !! i = key' !! i.

Lemma block_le sz key j : (length (block sz key j) <= sz)%nat.
Proof. unfold block. rewrite length_take. lia. Qed.

Lemma block_byte sz key j : Forall byte key -> Forall byte (block sz key j).
Proof. intros. by apply Forall_take, Forall_drop. Qed.

Lemma block_length sz key key' j : length key = length key' -> length (block sz key j) = length (block sz key' j).
Proof. intros E. unfold block. by rewrite !length_take, !length_drop, E. Qed.

Lemma block_lookup sz key j i : (i < sz)%nat -> block sz key j !! i = key !! (sz * j + i)%nat.
Proof. intros. unfold block. by rewrite lookup_take_lt, lookup_drop. Qed.

Lemma alike_block sz key key' j j' : alike sz key key' j -> j' <> j -> block sz key j' = block sz key' j'.
Proof.
  intros [Hl Ha] Hj. apply list_eq. intros i. destruct (decide (i < sz)%nat) as [Hi|Hi].
  - rewrite !block_lookup by done. apply Ha. rewrite Nat.mul_comm, Nat.div_add_l, Nat.div_small by lia. lia.
  - by rewrite !lookup_ge_None_2 by (pose proof (block_le sz key j'); pose proof (block_le sz key' j'); lia).
Qed.

Lemma alike_same sz key key' j : (0 < sz)%nat -> alike sz key key' j -> block sz key j = block sz key' j -> key = key'.
Proof.
  intros Hsz [Hl Ha] Hb. apply list_eq. intros i. destruct (decide ((i / sz)%nat = j)) as [<-|]; [|by apply Ha].
  pose proof (Nat.mod_upper_bound i sz ltac:(lia)).
  rewrite (Nat.div_mod_eq i sz), <- !block_lookup by done. by rewrite Hb.
Qed.

Lemma block_end sz key j : (0 < sz)%nat -> (length key / sz < j)%nat -> block sz key j = [].
Proof.
  intros Hsz Hj. unfold block. rewrite drop_ge; [by destruct sz|].
  pose proof (Nat.mul_succ_div_gt (length key) sz ltac:(lia)). nia.
Qed.

Section block_hash.
Context {H K R : Type} {sz : nat} {words : list Z -> K} {body last : H -> K -> H} {finish : Z -> H -> R} {good : H -> Prop}.
Context `{BH : !block_hash sz words body last finish good} (Hsz : (0 < sz)%nat).

Definition fold_blocks (key : list Z) (js : list nat) (h : H) : H := fold_left (fun h j => body h (words (block sz key j))) js h.

Definition hash_of (key : list Z) (h : H) : R :=
  finish (Z.of_nat (length key)) (last (fold_blocks key (seq 0 (length key / sz)) h) (words (block sz key (length key / sz)))).

Lemma fold_good key js h : Forall byte key -> good h -> good (fold_blocks key js h).
Proof.
  intros Hk. revert h. induction js as [|j js IH]; intros h Hh; [done|]. apply IH.
  apply body_good; [done|by apply block_byte|apply block_le].
Qed.

Lemma fold_state key key' js j h h' :
  Forall byte key -> good h -> good h' -> alike sz key key' j -> ~ In j js ->
  fold_blocks key js h = fold_blocks key' js h' -> h = h'.
Proof.
  intros Hk. revert h h'. induction js as [|i js IH]; intros h h' Hh Hh' Ha Hj E; [done|].
  pose proof (block_byte sz key i Hk). pose proof (block_le sz key i). simpl in Hj.
  unfold fold_blocks in E. simpl in E. rewrite <- (alike_block sz key key' j i) in E by (done || intuition).
  apply IH in E; [by apply body_state in E|by apply body_good..|done|intuition].
Qed.

Lemma fold_same key key' js j h : alike sz key key' j -> ~ In j js -> fold_blocks key js h = fold_blocks key' js h.
Proof.
  intros Ha. revert h. induction js as [|i js IH]; intros h Hj; [done|]. simpl in Hj.
  unfold fold_blocks. simpl. rewrite <- (alike_block sz key key' j i) by (done || intuition). apply IH. intuition.
Qed.

(** Equal states after blocks among which is [j] once. *)
Lemma fold_block key key' js j h :
  Forall byte key -> Forall byte key' -> good h -> alike sz key key' j -> NoDup js -> In j js ->
  fold_blocks key js h = fold_blocks key' js h -> block sz key j = block sz key' j.
Proof.
  intros Hk Hk'. revert h. induction js as [|i js IH]; intros h Hh Ha Hn Hj E; [done|].
  apply NoDup_cons in Hn as [Hi Hn]. rewrite list_elem_of_In in Hi.
  pose proof (block_byte sz key i Hk). pose proof (block_byte sz key' i Hk').
  pose proof (block_le sz key i). pose proof (block_le sz key' i).
  unfold fold_blocks in E. simpl in E. destruct (decide (i = j)) as [->|Hij].
  - apply (fold_state _ _ _ j) in E; [|done|by apply body_good..|done|done].
    apply words_inj; [done|done|by apply block_length, Ha|done|by apply (body_block h)].
  - rewrite <- (alike_block sz key key' j i) in E by done.
    apply IH in E; [done|by apply body_good|done|done|by destruct Hj].
Qed.

Lemma hash_separates key key' j h :
  Forall byte key -> Forall byte key' -> Z.of_nat (length key) < 2 ^ 31 -> good h -> alike sz key key' j ->
  hash_of key h = hash_of key' h -> key = key'.
Proof.
  intros Hk Hk' Hn Hh Ha E. unfold hash_of in E. rewrite <- (proj1 Ha) in E. set (n := (length key / sz)%nat) in *.
  pose proof (block_byte sz key n Hk). pose proof (block_byte sz key' n Hk').
  pose proof (block_le sz key n). pose proof (block_le sz key' n).
  assert (forall k, Forall byte k -> good (fold_blocks k (seq 0 n) h)) by (intros; by apply fold_good).
  apply finish_inj in E; [|split; [lia|done]|by apply last_good; auto..].
  apply (alike_same sz _ _ j); [done..|]. destruct (decide (j = n)) as [->|Hj].
  - rewrite <- (fold_same key key' (seq 0 n) n) in E by (done || rewrite in_seq; lia).
    apply words_inj; [done|done|by apply block_length, Ha|done|]. eapply last_block; [|done..|exact E]. auto.
  - rewrite <- (alike_block sz key key' j n) in E by done. apply last_state in E; [|by auto..].
    destruct (decide (j < n)%nat) as [Hin|Hin].
    + apply (fold_block key key' (seq 0 n) j h); [done..|apply NoDup_seq|apply in_seq; lia|done].
    + rewrite (block_end sz key), (block_end sz key') by (rewrite <- ?(proj1 Ha); fold n; lia). done.
Qed.
End block_hash.

(** ** Words of a block *)

Lemma sub_block m c key b i : (i < c)%nat -> block m (block (m * c) key b) i = take m (drop (m * c * b + m * i) key).
Proof.
  intros Hi. unfold block. rewrite skipn_firstn_comm, take_take, drop_drop. f_equal. nia.
Qed.

Lemma blocks_inj m n bs bs' :
  (0 < m)%nat -> length bs = length bs' -> (length bs <= m * n)%nat -> (forall j, (j < n)%nat -> block m bs j = block m bs' j) -> bs = bs'.
Proof.
  intros Hm Hl Hn Hb. apply list_eq. intros i. destruct (decide (i < length bs)%nat) as [Hi|Hi].
  - pose proof (Nat.mod_upper_bound i m ltac:(lia)). rewrite (Nat.div_mod_eq i m), <- !block_lookup by done. f_equal.
    apply Hb. apply Nat.Div0.div_lt_upper_bound. lia.
  - by rewrite !lookup_ge_None_2 by lia.
Qed.

Lemma block_word_fits w m bs j : Forall byte bs -> 8 * Z.of_nat m = w -> fits w (word_of (block m bs j)).
Proof. intros Hb <-. apply word_of_fits; [by apply block_byte|]. pose proof (block_le m bs j). lia. Qed.

Lemma block_0 sz bs : (length bs <= sz)%nat -> block sz bs 0 = bs.
Proof. intros. unfold block. by rewrite Nat.mul_0_r, drop_0, take_ge. Qed.

(** The words that the loop reads, and those that the switch builds. *)
Lemma loop_word m c key b i p :
  p = Z.of_nat (m * c * b + m * i) -> (i < c)%nat -> (m * c * b + m * i + m <= length key)%nat ->
  le_bytes m key p = Ret (word_of (block m (block (m * c) key b) i)).
Proof. intros -> Hi Hl. rewrite le_bytes_word_of, sub_block, Nat2Z.id by (done || lia). done. Qed.

Lemma switch_word n m c key b i p rem :
  p = Z.of_nat (m * i) -> (i < c)%nat -> Z.of_nat (length key) = Z.of_nat (m * c * b) + rem -> p < rem ->
  (n = Z.of_nat m \/ rem - p <= n <= Z.of_nat m) ->
  tail_word n key (Z.of_nat (m * c * b)) p rem = Ret (word_of (block m (block (m * c) key b) i)).
Proof.
  intros -> Hi Hl Hp Hn. unfold tail_word. rewrite le_bytes_word_of, sub_block by (done || lia).
  rewrite <- Nat2Z.inj_add, Nat2Z.id. do 2 f_equal.
  assert (length (drop (m * c * b + m * i) key) = Z.to_nat (rem - Z.of_nat (m * i))) as Hd by (rewrite length_drop; lia).
  destruct (Z.le_gt_cases (rem - Z.of_nat (m * i)) n); [by rewrite !take_ge by lia|f_equal; lia].
Qed.

Lemma no_word m c key b i rem :
  (i < c)%nat -> Z.of_nat (length key) = Z.of_nat (m * c * b) + rem -> rem <= Z.of_nat (m * i) -> word_of (block m (block (m * c) key b) i) = 0.
Proof. intros Hi Hl Hr. rewrite sub_block, drop_ge by (done || lia). by destruct m. Qed.

(** One group of cases of the switch. *)
Lemma switch_add {A} (f : Z -> A) w x c1 s c2 n m c key b i p q rem :
  p = Z.of_nat (m * i) -> q = p + 1 -> (i < c)%nat -> Z.of_nat (length key) = Z.of_nat (m * c * b) + rem ->
  (n = Z.of_nat m \/ rem - p <= n <= Z.of_nat m) ->
  (if q <=? rem then k ← tail_word n key (Z.of_nat (m * c * b)) p rem; Ret (f (Z.lxor x (mix_k w k c1 s c2))) else Ret (f x)) =
  Ret (f (Z.lxor x (mix_k w (word_of (block m (block (m * c) key b) i)) c1 s c2))).
Proof.
  intros Hp -> Hi Hl Hn. destruct (Z.leb_spec (p + 1) rem).
  - by rewrite (switch_word n m c key b i p rem) by (done || lia).
  - by rewrite (no_word m c key b i rem), mix_k_0, Z.lxor_0_r by (done || lia).
Qed.

Lemma bind_eq {A B} (m : outcome A) v (f : A -> outcome B) r : m = Ret v -> f v = r -> (x ← m; f x) = r.
Proof. by intros -> <-. Qed.

Lemma land_mod x n : 0 <= n -> Z.land x (2 ^ n - 1) = x mod 2 ^ n.
Proof. intros. by rewrite <- Z.land_ones, Z.ones_equiv. Qed.

(** The blocks and the tail of a key. *)
Lemma key_parts sz n (key : list Z) :
  0 <= n -> Z.of_nat sz = 2 ^ n -> let len := Z.of_nat (length key) in let b := (length key / sz)%nat in
  len / 2 ^ n = Z.of_nat b /\ len = Z.of_nat (sz * b) + Z.land len (2 ^ n - 1) /\ 0 <= Z.land len (2 ^ n - 1) < 2 ^ n.
Proof.
  intros Hn Hsz len b. rewrite land_mod by done. pose proof (Z.pow_pos_nonneg 2 n ltac:(lia) Hn).
  pose proof (Z.mod_pos_bound len (2 ^ n) ltac:(lia)) as Hm.
  unfold b, len. rewrite Nat2Z.inj_mul, Nat2Z.inj_div, Hsz. split_and!; [done|apply Z.div_mod; lia|apply Hm|apply Hm].
Qed.

(** A mixed word added to a word of the state: either gives back the other. *)
Lemma stir_state w h h' k c1 s c2 r a c :
  0 <= r <= w -> Z.odd 5 = true -> fits w h -> fits w h' ->
  stir w h (mix_k w k c1 s c2) r a c = stir w h' (mix_k w k c1 s c2) r a c -> h = h'.
Proof.
  intros Hr Ho Hh Hh' E. apply stir_inj in E; [by apply lxor_inj_l in E|done..|apply mix_k_fits; lia|apply mix_k_fits; lia].
Qed.

Lemma add_word w h k k' c1 s c2 :
  0 <= s <= w -> Z.odd c1 = true -> Z.odd c2 = true -> fits w k -> fits w k' ->
  Z.lxor h (mix_k w k c1 s c2) = Z.lxor h (mix_k w k' c1 s c2) -> k = k'.
Proof. intros Hs H1 H2 Hk Hk' E. apply lxor_inj_r in E. by apply mix_k_inj in E. Qed.

Lemma stir_word w h k k' c1 s c2 r a c :
  0 <= r <= w -> Z.odd 5 = true -> 0 <= s <= w -> Z.odd c1 = true -> Z.odd c2 = true -> fits w h -> fits w k -> fits w k' ->
  stir w h (mix_k w k c1 s c2) r a c = stir w h (mix_k w k' c1 s c2) r a c -> k = k'.
Proof.
  intros Hr Ho Hs H1 H2 Hh Hk Hk' E. apply stir_inj in E; [|done..|apply mix_k_fits; lia|apply mix_k_fits; lia].
  by apply add_word in E.
Qed.

Lemma fits_add_mix w h k c1 s c2 : 0 <= w -> fits w h -> fits w (Z.lxor h (mix_k w k c1 s c2)).
Proof. intros. apply fits_lxor; [done|done|by apply mix_k_fits]. Qed.

(** ** 32 bits *)

Definition last_x86_32 (h k : Z) : Z := Z.lxor h (mix_k 32 k 0xCC9E2D51 15 0x1B873593).
Definition finish_x86_32 (len h : Z) : Z := fmix32 (Z.lxor h len).

Lemma body_x86_32_stir h k : fits 32 h -> body_x86_32 h k = stir 32 h (mix_k 32 k 0xCC9E2D51 15 0x1B873593) 13 0 0xE6546B64.
Proof.
  intros Hh. unfold body_x86_32, stir. rewrite Z.add_0_r, (wrap_small 32 (rotl _ _ _)); [done|].
  apply fits_rotl; [lia|]. apply fits_lxor; [lia|done|by apply mix_k_fits].
Qed.

Lemma fits_31_32 x : fits 31 x -> fits 32 x.
Proof. unfold fits. lia. Qed.

#[export] Instance block_hash_x86_32 : block_hash 4 word_of body_x86_32 last_x86_32 finish_x86_32 (fits 32).
Proof.
  assert (forall bs, Forall byte bs -> (length bs <= 4)%nat -> fits 32 (word_of bs)) as Hw by (intros; apply word_of_fits; [done|lia]).
  split.
  - intros. by apply word_of_inj.
  - intros. by apply wrap_range.
  - intros h h' bs Hh Hh' Hb Hl. rewrite !body_x86_32_stir by done. by apply stir_state.
  - intros h bs bs' Hh Hb Hb' Hl Hl'. rewrite !body_x86_32_stir by done. by apply stir_word; auto.
  - intros. apply fits_lxor; [done|done|by apply mix_k_fits].
  - intros h h' bs _ _ _ _ E. by apply lxor_inj_l in E.
  - intros h bs bs' Hh Hb Hb' Hl Hl'. by apply add_word; auto.
  - intros n h h' Hn Hh Hh' E. apply fits_31_32 in Hn. apply fmix32_inj in E; [by apply lxor_inj_l in E|by apply fits_lxor..].
Qed.

Lemma blocks_x86_32_fold n key i h :
  (4 * (i + n) <= length key)%nat ->
  blocks_x86_32 n key (Z.of_nat i) h = Ret (fold_blocks (sz := 4) (words := word_of) (body := body_x86_32) key (seq i n) h).
Proof.
  revert i h. induction n as [|n IH]; intros i h Hl; [done|]. simpl. unfold getblock32.
  rewrite le_bytes_word_of by lia. simpl. replace (Z.of_nat i + 1) with (Z.of_nat (S i)) by lia. rewrite IH by lia.
  unfold block. by replace (Z.to_nat (4 * Z.of_nat i)) with (4 * i)%nat by lia.
Qed.

Lemma murmur_hash_x86_32_hash key seed :
  murmur_hash_x86_32 key seed = Ret (hash_of (sz := 4) (words := word_of) (body := body_x86_32) (last := last_x86_32) (finish := finish_x86_32) key seed).
Proof.
  destruct (key_parts 4 2 key ltac:(lia) eq_refl) as (Hd & Hk & Hr).
  change (2 ^ 2) with 4 in *. change (4 - 1) with 3 in *. unfold murmur_hash_x86_32, hash_of. rewrite Hd.
  set (b := (length key / 4)%nat) in *. set (rem := Z.land (Z.of_nat (length key)) 3) in *.
  rewrite Nat2Z.id, (blocks_x86_32_fold b key 0) by lia. cbn [mbind outcome_bind].
  replace (Z.of_nat b * 4) with (Z.of_nat (4 * 1 * b)) by lia.
  rewrite <- (block_0 4 (block 4 key b)) by apply block_le.
  eapply bind_eq; [exact (switch_add (fun v => v) 32 _ _ _ _ 3 4 1 key b 0 0 1 rem eq_refl eq_refl ltac:(lia) ltac:(lia) ltac:(lia))|done].
Qed.

(** ** 128 bits in words of 32 *)

Definition quad_of (bs : list Z) : quad :=
  mk_quad (word_of (block 4 bs 0)) (word_of (block 4 bs 1)) (word_of (block 4 bs 2)) (word_of (block 4 bs 3)).
Definition last_x86_128 (h k : quad) : quad :=
  let k := mix_quad k in mk_quad (Z.lxor (q1 h) (q1 k)) (Z.lxor (q2 h) (q2 k)) (Z.lxor (q3 h) (q3 k)) (Z.lxor (q4 h) (q4 k)).
Definition finish_x86_128 (len : Z) (h : quad) : quad := sum_quad (fmix_quad (sum_quad (xor_quad h len))).
Definition quad_fits (h : quad) : Prop := fits 32 (q1 h) /\ fits 32 (q2 h) /\ fits 32 (q3 h) /\ fits 32 (q4 h).

Lemma quad_of_fits bs : Forall byte bs -> quad_fits (quad_of bs).
Proof. intros. by split_and!; apply block_word_fits. Qed.

Lemma sum_quad_fits h : quad_fits (sum_quad h).
Proof. by split_and!; apply wrap_range. Qed.

Lemma fmix_quad_fits h : quad_fits h -> quad_fits (fmix_quad h).
Proof. intros (? & ? & ? & ?). by split_and!; apply fmix32_fits. Qed.

Lemma xor_quad_fits h x : fits 32 x -> quad_fits h -> quad_fits (xor_quad h x).
Proof. intros ? (? & ? & ? & ?). by split_and!; apply fits_lxor. Qed.

Lemma sum_quad_inj h h' : quad_fits h -> quad_fits h' -> sum_quad h = sum_quad h' -> h = h'.
Proof.
  destruct h as [a b c d], h' as [a' b' c' d']. unfold quad_fits, sum_quad. simpl.
  intros (Ha & Hb & Hc & Hd) (Ha' & Hb' & Hc' & Hd') [= E1 E2 E3 E4]. rewrite E1 in E2, E3, E4.
  apply add_inj in E2, E3, E4; [|done..]. subst.
  do 2 (apply add_inj in E1; [|done|by apply wrap_range..]). apply add_inj in E1; [|done..]. by subst.
Qed.

Lemma fmix_quad_inj h h' : quad_fits h -> quad_fits h' -> fmix_quad h = fmix_quad h' -> h = h'.
Proof.
  destruct h, h'. intros (? & ? & ? & ?) (? & ? & ? & ?) [= E1 E2 E3 E4].
  apply fmix32_inj in E1, E2, E3, E4; [|done..]. cbn [q1 q2 q3 q4] in *. by subst.
Qed.

Lemma xor_quad_inj h h' x : xor_quad h x = xor_quad h' x -> h = h'.
Proof. destruct h, h'. intros [= E1 E2 E3 E4]. apply lxor_inj_l in E1, E2, E3, E4. by subst. Qed.

Lemma body_x86_128_stir h k :
  let h1 := stir 32 (q1 h) (mix_k 32 (q1 k) 0x239B961B 15 0xAB0E9789) 19 (q2 h) 0x561CCD1B in
  body_x86_128 h k = mk_quad h1
    (stir 32 (q2 h) (mix_k 32 (q2 k) 0xAB0E9789 16 0x38B34AE5) 17 (q3 h) 0x0BCAA747)
    (stir 32 (q3 h) (mix_k 32 (q3 k) 0x38B34AE5 17 0xA1E38B93) 15 (q4 h) 0x96CD1C35)
    (stir 32 (q4 h) (mix_k 32 (q4 k) 0xA1E38B93 18 0x239B961B) 13 h1 0x32AC3B17).
Proof. reflexivity. Qed.

Local Opaque stir mix_k fmix32 word_of block.

Lemma body_x86_128_state h h' k : quad_fits h -> quad_fits h' -> body_x86_128 h k = body_x86_128 h' k -> h = h'.
Proof.
  rewrite !body_x86_128_stir.   destruct h as [a b c d], h' as [a' b' c' d']. intros (Ha & Hb & Hc & Hd) (Ha' & Hb' & Hc' & Hd') [= E1 E2 E3 E4]. cbn [q1 q2 q3 q4] in *.
  rewrite E1 in E4. apply stir_state in E4; [|done..]. subst d'.
  apply stir_state in E3; [|done..]. subst c'. apply stir_state in E2; [|done..]. subst b'. apply stir_state in E1; [|done..]. by subst.
Qed.

Lemma body_x86_128_block h k k' : quad_fits h -> quad_fits k -> quad_fits k' -> body_x86_128 h k = body_x86_128 h k' -> k = k'.
Proof.
  rewrite !body_x86_128_stir.   destruct k as [a b c d], k' as [a' b' c' d']. intros (? & ? & ? & ?) (Ha & Hb & Hc & Hd) (Ha' & Hb' & Hc' & Hd') [= E1 E2 E3 E4]. cbn [q1 q2 q3 q4] in *.
  rewrite E1 in E4. apply stir_word in E1, E2, E3, E4; [|done..]. by subst.
Qed.

Lemma last_x86_128_block h k k' : quad_fits k -> quad_fits k' -> last_x86_128 h k = last_x86_128 h k' -> k = k'.
Proof.
  destruct k, k'. intros (? & ? & ? & ?) (? & ? & ? & ?) [= E1 E2 E3 E4]. cbn [q1 q2 q3 q4] in *.
  apply add_word in E1, E2, E3, E4; [|done..]. by subst.
Qed.

#[export] Instance block_hash_x86_128 : block_hash 16 quad_of body_x86_128 last_x86_128 finish_x86_128 quad_fits.
Proof.
  split.
  - intros bs bs' Hb Hb' Hl Hn [= E1 E2 E3 E4]. apply (blocks_inj 4 4); [lia|done|done|].
    apply word_of_inj in E1, E2, E3, E4; try by (apply block_byte || apply block_length).
    intros j Hj. do 4 (destruct j as [|j]; [done|]). lia.
  - intros. by split_and!; apply wrap_range.
  - intros h h' bs ? ? _ _. by apply body_x86_128_state.
  - intros h bs bs' Hh Hb Hb' _ _. by apply body_x86_128_block; [|apply quad_of_fits..].
  - intros h bs (? & ? & ? & ?) _ _. by split_and!; apply fits_add_mix.
  - intros [] [] bs _ _ _ _ [= E1 E2 E3 E4]. apply lxor_inj_l in E1, E2, E3, E4. by subst.
  - intros h bs bs' Hh Hb Hb' _ _. by apply last_x86_128_block; apply quad_of_fits.
  - intros n h h' Hn Hh Hh' E. apply fits_31_32 in Hn. unfold finish_x86_128 in E.
    pose proof (xor_quad_fits h n Hn Hh). pose proof (xor_quad_fits h' n Hn Hh').
    apply sum_quad_inj in E; [|apply fmix_quad_fits, sum_quad_fits..]. apply fmix_quad_inj in E; [|apply sum_quad_fits..].
    apply sum_quad_inj in E; [|done..]. by apply xor_quad_inj in E.
Qed.

Lemma blocks_x86_128_fold n key i h :
  (16 * (i + n) <= length key)%nat ->
  blocks_x86_128 n key (Z.of_nat i) h = Ret (fold_blocks (sz := 16) (words := quad_of) (body := body_x86_128) key (seq i n) h).
Proof.
  revert i h. induction n as [|n IH]; intros i h Hl; [done|]. cbn [blocks_x86_128]. unfold getblock32.
  rewrite (loop_word 4 4 key i 0 (4 * (Z.of_nat i * 4))), (loop_word 4 4 key i 1 (4 * (Z.of_nat i * 4 + 1))),
    (loop_word 4 4 key i 2 (4 * (Z.of_nat i * 4 + 2))), (loop_word 4 4 key i 3 (4 * (Z.of_nat i * 4 + 3))) by lia.
  cbn [mbind outcome_bind]. replace (Z.of_nat i + 1) with (Z.of_nat (S i)) by lia. by rewrite IH by lia.
Qed.

Lemma tail_x86_128_last key b rem h :
  Z.of_nat (length key) = Z.of_nat (16 * b) + rem -> 0 <= rem < 16 ->
  tail_x86_128 key (Z.of_nat b * 16) rem h = Ret (last_x86_128 h (quad_of (block 16 key b))).
Proof.
  intros Hk Hr. destruct h as [a c d e]. unfold tail_x86_128, last_x86_128, quad_of.
  replace (Z.of_nat b * 16) with (Z.of_nat (4 * 4 * b)) by lia. change (block 16 key b) with (block (4 * 4) key b).
  eapply bind_eq; [exact (switch_add (fun v => mk_quad a c d v) 32 e _ _ _ 3 4 4 key b 3 12 13 rem eq_refl eq_refl ltac:(lia) ltac:(lia) ltac:(lia))|].
  eapply bind_eq; [exact (switch_add (fun v => mk_quad a c v _) 32 d _ _ _ 4 4 4 key b 2 8 9 rem eq_refl eq_refl ltac:(lia) ltac:(lia) ltac:(lia))|].
  eapply bind_eq; [exact (switch_add (fun v => mk_quad a v _ _) 32 c _ _ _ 4 4 4 key b 1 4 5 rem eq_refl eq_refl ltac:(lia) ltac:(lia) ltac:(lia))|].
  exact (switch_add (fun v => mk_quad v _ _ _) 32 a _ _ _ 4 4 4 key b 0 0 1 rem eq_refl eq_refl ltac:(lia) ltac:(lia) ltac:(lia)).
Qed.

Lemma murmur_hash_x86_128_hash key seed :
  murmur_hash_x86_128 key seed =
  Ret (hash_of (sz := 16) (words := quad_of) (body := body_x86_128) (last := last_x86_128) (finish := finish_x86_128) key (mk_quad seed seed seed seed)).
Proof.
  destruct (key_parts 16 4 key ltac:(lia) eq_refl) as (Hd & Hk & Hr).
  change (2 ^ 4) with 16 in *. change (16 - 1) with 15 in *. unfold murmur_hash_x86_128, hash_of. rewrite Hd, Nat2Z.id.
  eapply bind_eq; [apply (blocks_x86_128_fold _ key 0); lia|]. by eapply bind_eq; [apply tail_x86_128_last|].
Qed.

(** ** 128 bits in words of 64 *)

Definition pair_of (bs : list Z) : pair := mk_pair (word_of (block 8 bs 0)) (word_of (block 8 bs 1)).
Definition last_x64_128 (h k : pair) : pair :=
  mk_pair (Z.lxor (p1 h) (mix_k 64 (p1 k) 0x87C37B91114253D5 31 0x4CF5AD432745937F)) (Z.lxor (p2 h) (mix_k 64 (p2 k) 0x4CF5AD432745937F 33 0x87C37B91114253D5)).
Definition finish_x64_128 (len : Z) (h : pair) : pair :=
  let h := sum_pair (mk_pair (Z.lxor (p1 h) len) (Z.lxor (p2 h) len)) in sum_pair (mk_pair (fmix64 (p1 h)) (fmix64 (p2 h))).
Definition pair_fits (h : pair) : Prop := fits 64 (p1 h) /\ fits 64 (p2 h).

Lemma pair_of_fits bs : Forall byte bs -> pair_fits (pair_of bs).
Proof. intros. by split; apply block_word_fits. Qed.

Lemma sum_pair_inj h h' : pair_fits h -> pair_fits h' -> sum_pair h = sum_pair h' -> h = h'.
Proof.
  destruct h, h'. intros [Ha Hb] [Ha' Hb'] [= E1 E2]. cbn [p1 p2] in *. rewrite E1 in E2.
  apply add_inj in E2; [|done..]. subst. apply add_inj in E1; [|done..]. by subst.
Qed.

Lemma body_x64_128_stir h k :
  let h1 := stir 64 (p1 h) (mix_k 64 (p1 k) 0x87C37B91114253D5 31 0x4CF5AD432745937F) 27 (p2 h) 0x52DCE729 in
  body_x64_128 h k = mk_pair h1 (stir 64 (p2 h) (mix_k 64 (p2 k) 0x4CF5AD432745937F 33 0x87C37B91114253D5) 31 h1 0x38495AB5).
Proof. reflexivity. Qed.

Lemma body_x64_128_state h h' k : pair_fits h -> pair_fits h' -> body_x64_128 h k = body_x64_128 h' k -> h = h'.
Proof.
  rewrite !body_x64_128_stir. destruct h, h'. intros [Ha Hb] [Ha' Hb'] [= E1 E2]. cbn [p1 p2] in *. rewrite E1 in E2.
  apply stir_state in E2; [|done..]. subst. apply stir_state in E1; [|done..]. by subst.
Qed.

Lemma body_x64_128_block h k k' : pair_fits h -> pair_fits k -> pair_fits k' -> body_x64_128 h k = body_x64_128 h k' -> k = k'.
Proof.
  rewrite !body_x64_128_stir. destruct k, k'. intros [? ?] [Ha Hb] [Ha' Hb'] [= E1 E2]. cbn [p1 p2] in *. rewrite E1 in E2.
  apply stir_word in E1, E2; [|done..]. by subst.
Qed.

Lemma last_x64_128_block h k k' : pair_fits k -> pair_fits k' -> last_x64_128 h k = last_x64_128 h k' -> k = k'.
Proof.
  destruct k, k'. intros [? ?] [? ?] [= E1 E2]. cbn [p1 p2] in *. apply add_word in E1, E2; [|done..]. by subst.
Qed.

Lemma finish_x64_128_inj n h h' : fits 31 n -> pair_fits h -> pair_fits h' -> finish_x64_128 n h = finish_x64_128 n h' -> h = h'.
Proof.
  intros Hn [Ha Hb] [Ha' Hb'] E. assert (fits 64 n) by (unfold fits in *; lia).
  apply sum_pair_inj in E; [|by split; apply fmix64_fits, wrap_range..]. injection E as E1 E2.
  apply fmix64_inj in E1, E2; [|by apply wrap_range..].
  assert (mk_pair (Z.lxor (p1 h) n) (Z.lxor (p2 h) n) = mk_pair (Z.lxor (p1 h') n) (Z.lxor (p2 h') n)) as Ex.
  { apply sum_pair_inj; [by split; apply fits_lxor..|]. unfold sum_pair. by f_equal. }
  destruct h, h'. injection Ex as E3 E4. apply lxor_inj_l in E3, E4. by subst.
Qed.

#[export] Instance block_hash_x64_128 : block_hash 16 pair_of body_x64_128 last_x64_128 finish_x64_128 pair_fits.
Proof.
  split.
  - intros bs bs' Hb Hb' Hl Hn [= E1 E2]. apply (blocks_inj 8 2); [lia|done|done|].
    apply word_of_inj in E1, E2; try by (apply block_byte || apply block_length).
    intros j Hj. do 2 (destruct j as [|j]; [done|]). lia.
  - intros. by split; apply wrap_range.
  - intros h h' bs ? ? _ _. by apply body_x64_128_state.
  - intros h bs bs' Hh Hb Hb' _ _. by apply body_x64_128_block; [|apply pair_of_fits..].
  - intros h bs (? & ?) _ _. by split; apply fits_add_mix.
  - intros [] [] bs _ _ _ _ [= E1 E2]. apply lxor_inj_l in E1, E2. by subst.
  - intros h bs bs' Hh Hb Hb' _ _. by apply last_x64_128_block; apply pair_of_fits.
  - apply finish_x64_128_inj.
Qed.

Lemma blocks_x64_128_fold n key i h :
  (16 * (i + n) <= length key)%nat ->
  blocks_x64_128 n key (Z.of_nat i) h = Ret (fold_blocks (sz := 16) (words := pair_of) (body := body_x64_128) key (seq i n) h).
Proof.
  revert i h. induction n as [|n IH]; intros i h Hl; [done|]. cbn [blocks_x64_128]. unfold getblock64.
  rewrite (loop_word 8 2 key i 0 (8 * (Z.of_nat i * 2))), (loop_word 8 2 key i 1 (8 * (Z.of_nat i * 2 + 1))) by lia.
  cbn [mbind outcome_bind]. replace (Z.of_nat i + 1) with (Z.of_nat (S i)) by lia. by rewrite IH by lia.
Qed.

Lemma tail_x64_128_last key b rem h :
  Z.of_nat (length key) = Z.of_nat (16 * b) + rem -> 0 <= rem < 16 ->
  tail_x64_128 key (Z.of_nat b * 16) rem h = Ret (last_x64_128 h (pair_of (block 16 key b))).
Proof.
  intros Hk Hr. destruct h as [a c]. unfold tail_x64_128, last_x64_128, pair_of.
  replace (Z.of_nat b * 16) with (Z.of_nat (8 * 2 * b)) by lia. change (block 16 key b) with (block (8 * 2) key b).
  eapply bind_eq; [exact (switch_add (fun v => mk_pair a v) 64 c _ _ _ 7 8 2 key b 1 8 9 rem eq_refl eq_refl ltac:(lia) ltac:(lia) ltac:(lia))|].
  exact (switch_add (fun v => mk_pair v _) 64 a _ _ _ 8 8 2 key b 0 0 1 rem eq_refl eq_refl ltac:(lia) ltac:(lia) ltac:(lia)).
Qed.

Lemma murmur_hash_x64_128_hash key seed :
  murmur_hash_x64_128 key seed =
  Ret (hash_of (sz := 16) (words := pair_of) (body := body_x64_128) (last := last_x64_128) (finish := finish_x64_128) key (mk_pair seed seed)).
Proof.
  destruct (key_parts 16 4 key ltac:(lia) eq_refl) as (Hd & Hk & Hr).
  change (2 ^ 4) with 16 in *. change (16 - 1) with 15 in *. unfold murmur_hash_x64_128, hash_of. rewrite Hd, Nat2Z.id.
  eapply bind_eq; [apply (blocks_x64_128_fold _ key 0); lia|]. by eapply bind_eq; [apply tail_x64_128_last|].
Qed.

(** ** Keys that differ in one block *)

(** C34. The three hashes (murmur_hash_x86_32, murmur_hash_x86_128 and
    murmur_hash_x64_128) return for every key of bytes that an int can measure,
    whatever its length modulo the size of a block, without a read outside the
    key.  Two keys of one length that are alike outside a single block, of 4
    bytes in the first and 16 in the others, the bytes after the last whole
    block counting as one, get the same hash only if they are the same key:
    neither a single byte nor any change inside one block makes a collision. *)
Theorem murmur_separates (key key' : list Z) (seed : Z) (j : nat) :
  Forall byte key -> Forall byte key' -> Z.of_nat (length key) < 2 ^ 31 -> fits 32 seed ->
  (alike 4 key key' j ->
    exists h h', murmur_hash_x86_32 key seed = Ret h /\ murmur_hash_x86_32 key' seed = Ret h' /\ (h = h' -> key = key')) /\
  (alike 16 key key' j ->
    exists h h', murmur_hash_x86_128 key seed = Ret h /\ murmur_hash_x86_128 key' seed = Ret h' /\ (h = h' -> key = key')) /\
  (alike 16 key key' j ->
    exists h h', murmur_hash_x64_128 key seed = Ret h /\ murmur_hash_x64_128 key' seed = Ret h' /\ (h = h' -> key = key')).
Proof.
  intros Hk Hk' Hn Hs. assert (fits 64 seed) by (unfold fits in *; lia). split_and!; intros Ha; eexists _, _; split_and!.
  1, 2: apply murmur_hash_x86_32_hash. 2, 3: apply murmur_hash_x86_128_hash. 3, 4: apply murmur_hash_x64_128_hash.
  all: eapply hash_separates; try done; lia.
Qed.

(** Nineteen bytes, and the same with one of the tail changed. *)
Lemma murmur_separates_witness :
  let key := replicate 19 65 in let key' := replicate 18 65 ++ [66] in
  exists h h', murmur_hash_x86_128 key 0xDEADBEEF = Ret h /\ murmur_hash_x86_128 key' 0xDEADBEEF = Ret h' /\ (h = h' -> key = key').
Proof.
  apply (murmur_separates (replicate 19 65) (replicate 18 65 ++ [66]) 0xDEADBEEF 1).
  - repeat constructor; done.
  - repeat constructor; done.
  - done.
  - done.
  - split; [done|]. intros i Hi. do 18 (destruct i as [|i]; [done|]). destruct i as [|i]; [by destruct Hi|]. by destruct i.
Defined.
