(* ===== verification/HashMap.v ===== *)
(** * lib/hash_map.h: the generic chained hash map

    The header is instantiated with a value type, an error value and a hash
    function; those are the parameters of the section.  Keys are byte strings
    with their length; a bucket is the chain of its items. *)

From S2P Require Import Prelude.
From stdpp Require Import list gmap.
Local Open Scope Z_scope.

(** [strncmp(a, b, n) == 0] for the first [n] bytes of two strings. *)
Fixpoint strncmp_eq (n : nat) (a b : list Z) : outcome bool :=
  match n with
  | O => Ret true
  | S n' =>
      match a, b with
      | x :: a', y :: b' =>
          if negb (x =? y) then Ret false
          else if x =? 0 then Ret true
          else strncmp_eq n' a' b'
      | _, _ => Fault
      end
  end.

Section hash_map.
Context {T : Type} (HMAP_ERRVAL : T) (HMAP_HASH : list Z -> Z).

(** ** State *)

(** struct __map_item without its [next] link. *)
Record map_item := mk_item { it_key : list Z; key_len : Z; value : T }.

Record hash_map_t := mk_map { size : Z; capacity : Z; items : list (list map_item) }.

(** ** Operations *)

Definition hash_map_new_s (n : Z) : hash_map_t := mk_map 0 n (replicate (Z.to_nat n) []).

Abbreviation HMAP_DEFAULT_SIZE := (128).
Definition hash_map_new : hash_map_t := hash_map_new_s HMAP_DEFAULT_SIZE.

(** [hash % map->capacity], undefined for a map without buckets. *)
Definition bucket_index (m : hash_map_t) (key : list Z) (len : Z) : outcome Z :=
  if capacity m =? 0 then Fault else Ret (HMAP_HASH (take (Z.to_nat len) key) mod capacity m).

Definition item_matches (key : list Z) (len : Z) (it : map_item) : outcome bool :=
  if len =? key_len it then strncmp_eq (Z.to_nat len) key (it_key it) else Ret false.

Fixpoint chain_get (chain : list map_item) (key : list Z) (len : Z) : outcome T :=
  match chain with
  | [] => Ret HMAP_ERRVAL
  | it :: chain' =>
      b ← item_matches key len it;
      if (b : bool) then Ret (value it) else chain_get chain' key len
  end.

Definition hash_map_get_len (m : hash_map_t) (key : list Z) (len : Z) : outcome T :=
  index ← bucket_index m key len;
  chain ← load (items m) index;
  chain_get chain key len.

(** The chain with the value of a matching item replaced, and the value
    evicted; [None] if no item matches. *)
Fixpoint chain_replace (chain : list map_item) (key : list Z) (len : Z) (v : T)
    : outcome (option (list map_item * T)) :=
  match chain with
  | [] => Ret None
  | it :: chain' =>
      b ← item_matches key len it;
      if (b : bool) then Ret (Some (mk_item (it_key it) (key_len it) v :: chain', value it))
      else
        r ← chain_replace chain' key len v;
        Ret (match r with Some (c, old) => Some (it :: c, old) | None => None end)
  end.

(** The map and the values given to the evict callback. *)
Definition hash_map_set_len (m : hash_map_t) (key : list Z) (len : Z) (v : T)
    : outcome (hash_map_t * list T) :=
  index ← bucket_index m key len;
  chain ← load (items m) index;
  r ← chain_replace chain key len v;
  match r with
  | Some (chain', old) =>
      its ← store (items m) index chain';
      Ret (mk_map (size m) (capacity m) its, [old])
  | None =>
      its ← store (items m) index (mk_item key len v :: chain);
      Ret (mk_map (u64 (size m + 1)) (capacity m) its, [])
  end.

(** The chain without a matching item, and its value. *)
Fixpoint chain_delete (chain : list map_item) (key : list Z) (len : Z)
    : outcome (option (list map_item * T)) :=
  match chain with
  | [] => Ret None
  | it :: chain' =>
      b ← item_matches key len it;
      if (b : bool) then Ret (Some (chain', value it))
      else
        r ← chain_delete chain' key len;
        Ret (match r with Some (c, old) => Some (it :: c, old) | None => None end)
  end.

Definition hash_map_delete_len (m : hash_map_t) (key : list Z) (len : Z)
    : outcome (T * hash_map_t) :=
  index ← bucket_index m key len;
  chain ← load (items m) index;
  r ← chain_delete chain key len;
  match r with
  | Some (chain', old) =>
      its ← store (items m) index chain';
      Ret (old, mk_map (u64 (size m - 1)) (capacity m) its)
  | None => Ret (HMAP_ERRVAL, m)
  end.

(** The interface for C strings; [strlen] of a key is its length. *)
Definition hash_map_get (m : hash_map_t) (key : list Z) : outcome T :=
  hash_map_get_len m key (Z.of_nat (length key)).
Definition hash_map_set (m : hash_map_t) (key : list Z) (v : T) : outcome (hash_map_t * list T) :=
  hash_map_set_len m key (Z.of_nat (length key)) v.
Definition hash_map_delete (m : hash_map_t) (key : list Z) : outcome (T * hash_map_t) :=
  hash_map_delete_len m key (Z.of_nat (length key)).

(** [hash_map_free]: the values evicted, bucket by bucket. *)
Definition hash_map_free (m : hash_map_t) : list T := concat (map (map value) (items m)).

End hash_map.

Arguments map_item : clear implicits.
Arguments hash_map_t : clear implicits.

(** ** The finite map a hash map stands for *)

Section refinement.
Context {T : Type} (err : T) (hash : list Z -> Z).

Implicit Types (c : list (map_item T)) (m : hash_map_t T) (M : gmap (list Z) T) (k : list Z).

(** A C string: no zero byte before its end. *)
Definition nul_free (k : list Z) : Prop := Forall (fun x => x <> 0) k.

Definition item_ok (it : map_item T) : Prop :=
  key_len it = Z.of_nat (length (it_key it)) /\ nul_free (it_key it).

Definition chain_map c : gmap (list Z) T := list_to_map ((fun it => (it_key it, value it)) <$> c).

(** The bucket of a key. *)
Definition index m k : nat := Z.to_nat (hash k mod capacity m).

(** The items of bucket [i]. *)
Definition chain_ok m (i : nat) c : Prop :=
  NoDup (it_key <$> c) /\ Forall item_ok c /\ Forall (fun it => index m (it_key it) = i) c.

Record wf m : Prop := mk_wf {
  wf_cap : 0 < capacity m /\ Z.of_nat (length (items m)) = capacity m;
  wf_chain : forall i c, items m !! i = Some c ->
    chain_ok m i c;
}.

(** [M] has the bindings of the chains, and [size] counts them. *)
Record models m M : Prop := mk_models {
  mo_wf : wf m;
  mo_lookup : forall k, M !! k = items m !! index m k ≫= fun c => chain_map c !! k;
  mo_size : size m = u64 (Z.of_nat (base.size M));
}.

Lemma strncmp_eq_spec n : forall a b,
  nul_free a -> length a = n -> length b = n -> strncmp_eq n a b = Ret (bool_decide (a = b)).
Proof.
  induction n as [|n IH]; intros [|x a] [|y b] Hn Ha Hb; simpl in *; try done.
  apply Forall_cons in Hn as [Hx Hn].
  destruct (Z.eqb_spec x y) as [->|Hxy]; simpl.
  - rewrite (proj2 (Z.eqb_neq y 0)) by done. rewrite IH by (done || lia). f_equal.
    apply bool_decide_ext. split; congruence.
  - rewrite bool_decide_eq_false_2; [done|]. congruence.
Qed.

Lemma item_matches_spec k it :
  nul_free k -> item_ok it ->
  item_matches k (Z.of_nat (length k)) it = Ret (bool_decide (k = it_key it)).
Proof.
  intros Hk [Hl Hn]. unfold item_matches. rewrite Hl.
  destruct (Z.eqb_spec (Z.of_nat (length k)) (Z.of_nat (length (it_key it)))) as [E|E].
  - rewrite Nat2Z.id. apply strncmp_eq_spec; [done|done|lia].
  - rewrite bool_decide_eq_false_2; [done|]. congruence.
Qed.

Lemma chain_map_cons it c : chain_map (it :: c) = <[it_key it := value it]> (chain_map c).
Proof. done. Qed.

(** Case analysis on whether the first item of a chain has the key. *)
Lemma chain_map_head it c k :
  chain_map (it :: c) !! k = if bool_decide (k = it_key it) then Some (value it) else chain_map c !! k.
Proof.
  rewrite chain_map_cons. case_bool_decide as E.
  - subst k. by rewrite lookup_insert_eq.
  - by rewrite lookup_insert_ne by congruence.
Qed.

Lemma chain_get_spec c k :
  nul_free k -> Forall item_ok c ->
  chain_get err c k (Z.of_nat (length k)) = Ret (default err (chain_map c !! k)).
Proof.
  intros Hk. induction c as [|it c IH]; intros Hc; [done|].
  apply Forall_cons in Hc as [Hit Hc]. cbn [chain_get].
  rewrite item_matches_spec, chain_map_head by done. simpl. case_bool_decide; [done|by apply IH].
Qed.

Lemma chain_map_None c k : k ∉ it_key <$> c -> chain_map c !! k = None.
Proof. intros Hk. apply not_elem_of_list_to_map_1. by rewrite <- list_fmap_compose. Qed.

(** The key and length of an item. *)
Definition names (it : map_item T) : list Z * Z := (it_key it, key_len it).

(** Replacing keeps the keys. *)
Lemma chain_replace_spec c k v :
  nul_free k -> Forall item_ok c ->
  match chain_map c !! k with
  | None => chain_replace c k (Z.of_nat (length k)) v = Ret None
  | Some old => exists c', chain_replace c k (Z.of_nat (length k)) v = Ret (Some (c', old)) /\
      names <$> c' = names <$> c /\ chain_map c' = <[k := v]> (chain_map c)
  end.
Proof.
  intros Hk. induction c as [|it c IH]; intros Hc; [done|].
  apply Forall_cons in Hc as [Hit Hc]. specialize (IH Hc). cbn [chain_replace].
  rewrite item_matches_spec, chain_map_head by done. simpl. case_bool_decide as E.
  - eexists. split; [done|]. split; [done|].
    rewrite !chain_map_cons. simpl. subst k. by rewrite insert_insert_eq.
  - destruct (chain_map c !! k) as [old|].
    + destruct IH as (c' & -> & Hkeys & Hm). eexists. split; [done|].
      split; [by rewrite !fmap_cons, Hkeys|].
      rewrite !chain_map_cons, Hm. apply insert_insert_ne. congruence.
    + by rewrite IH.
Qed.

(** Deleting takes the item out. *)
Lemma chain_delete_spec c k :
  nul_free k -> Forall item_ok c -> NoDup (it_key <$> c) ->
  match chain_map c !! k with
  | None => chain_delete c k (Z.of_nat (length k)) = Ret None
  | Some old => exists c', chain_delete c k (Z.of_nat (length k)) = Ret (Some (c', old)) /\
      sublist c' c /\ chain_map c' = delete k (chain_map c)
  end.
Proof.
  intros Hk. induction c as [|it c IH]; intros Hc Hnd; [done|].
  apply Forall_cons in Hc as [Hit Hc]. apply NoDup_cons in Hnd as [Hni Hnd]. specialize (IH Hc Hnd).
  cbn [chain_delete]. rewrite item_matches_spec, chain_map_head by done. simpl. case_bool_decide as E.
  - eexists. split; [done|]. split; [by apply sublist_cons|].
    rewrite chain_map_cons, E. rewrite delete_insert_id; [done|]. by apply chain_map_None.
  - destruct (chain_map c !! k) as [old|].
    + destruct IH as (c' & -> & Hsub & Hm). eexists. split; [done|]. split; [by apply sublist_skip|].
      rewrite !chain_map_cons, Hm. by rewrite delete_insert_ne by congruence.
    + by rewrite IH.
Qed.

Lemma chain_ok_names m i c c' :
  names <$> c' = names <$> c -> chain_ok m i c -> chain_ok m i c'.
Proof.
  assert (Hk : forall d : list (map_item T), it_key <$> d = fst <$> (names <$> d)).
  { intros d. by rewrite <- list_fmap_compose. }
  intros E (Hnd & Hok & Hi). split; [|split].
  - by rewrite Hk, E, <- Hk.
  - apply (Forall_fmap names (fun p => p.2 = Z.of_nat (length p.1) /\ nul_free p.1)).
    rewrite E. by apply Forall_fmap.
  - apply (Forall_fmap names (fun p => index m p.1 = i)). rewrite E. by apply Forall_fmap.
Qed.

Lemma chain_ok_sublist m i c c' : sublist c' c -> chain_ok m i c -> chain_ok m i c'.
Proof.
  intros Hs (Hnd & Hok & Hi). split; [|split].
  - revert Hnd. clear Hok Hi. induction Hs as [|it c1 c2 Hs IH|it c1 c2 Hs IH]; [done|..];
      rewrite ?fmap_cons; intros [Hni Hnd]%NoDup_cons; [|by apply IH].
    apply NoDup_cons. split; [|by apply IH]. intros (x & Ex & Hx)%list_elem_of_fmap.
    apply Hni. apply list_elem_of_fmap. exists x. split; [done|]. by apply (elem_of_sublist c1).
  - apply Forall_forall. intros x Hx. rewrite Forall_forall in Hok. apply Hok. by eapply elem_of_sublist.
  - apply Forall_forall. intros x Hx. rewrite Forall_forall in Hi. apply Hi. by eapply elem_of_sublist.
Qed.

Lemma index_range m k : wf m -> (index m k < length (items m))%nat.
Proof.
  intros [[Hc Hl] _]. unfold index. pose proof (Z.mod_pos_bound (hash k) (capacity m) Hc). lia.
Qed.

(** Finding the bucket of a key. *)
Lemma bucket_ok m k :
  wf m -> exists c, bucket_index hash m k (Z.of_nat (length k)) = Ret (Z.of_nat (index m k)) /\
    load (items m) (Z.of_nat (index m k)) = Ret c /\ items m !! index m k = Some c /\
    chain_ok m (index m k) c.
Proof.
  intros W. pose proof (index_range m k W) as Hi. destruct (wf_cap _ W) as [Hc Hl].
  destruct (load_in_range (items m) (Z.of_nat (index m k))) as (c & Hld & Hlk); [lia|].
  rewrite Nat2Z.id in Hlk. exists c. split; [|split; [done|split; [done|by apply (wf_chain _ W)]]].
  unfold bucket_index. rewrite (proj2 (Z.eqb_neq _ 0)) by lia.
  rewrite Nat2Z.id, firstn_all. f_equal. unfold index.
  pose proof (Z.mod_pos_bound (hash k) (capacity m) Hc). lia.
Qed.

Lemma bucket_store m k c :
  wf m -> store (items m) (Z.of_nat (index m k)) c = Ret (<[index m k := c]> (items m)).
Proof.
  intros W. pose proof (index_range m k W). rewrite store_in_range by lia. by rewrite Nat2Z.id.
Qed.

(** Replacing the chain of one bucket. *)
Lemma models_update m M k c' M' sz :
  models m M -> chain_ok m (index m k) c' ->
  (forall k', index m k' = index m k -> chain_map c' !! k' = M' !! k') ->
  (forall k', index m k' <> index m k -> M' !! k' = M !! k') ->
  sz = u64 (Z.of_nat (base.size M')) ->
  models (mk_map sz (capacity m) (<[index m k := c']> (items m))) M'.
Proof.
  intros [W Hlk Hsz] Hok Hin Hout ->. pose proof (index_range m k W) as Hi.
  destruct W as [[Hc Hl] Hch]. split; [split| |done].
  - simpl. by rewrite length_insert.
  - simpl. intros i c. destruct (decide (i = index m k)) as [->|Hne].
    + rewrite list_lookup_insert_eq by done. by intros [= <-].
    + rewrite list_lookup_insert_ne by congruence. apply Hch.
  - simpl. intros k'. change (index (mk_map _ (capacity m) _) k') with (index m k').
    destruct (decide (index m k' = index m k)) as [E|E].
    + rewrite E, list_lookup_insert_eq by done. simpl. symmetry. by apply Hin.
    + rewrite list_lookup_insert_ne by congruence. rewrite Hout by done. apply Hlk.
Qed.

Lemma u64_step a b : u64 (u64 a + b) = u64 (a + b).
Proof. unfold wrap. by rewrite Zplus_mod_idemp_l. Qed.

Lemma hash_map_get_models m M k :
  models m M -> nul_free k -> hash_map_get err hash m k = Ret (default err (M !! k)).
Proof.
  intros HM Hk. destruct (bucket_ok m k (mo_wf _ _ HM)) as (c & Hi & Hl & Hc & Hok).
  unfold hash_map_get, hash_map_get_len. rewrite Hi. simpl. rewrite Hl. simpl.
  rewrite chain_get_spec by (done || apply Hok). by rewrite (mo_lookup _ _ HM), Hc.
Qed.

Lemma hash_map_set_models m M k v :
  models m M -> nul_free k ->
  exists m', hash_map_set hash m k v = Ret (m', option_list (M !! k)) /\ models m' (<[k := v]> M).
Proof.
  intros HM Hk. pose proof (mo_wf _ _ HM) as W.
  destruct (bucket_ok m k W) as (c & Hi & Hl & Hc & Hok).
  assert (Hlk : forall k', index m k' = index m k -> M !! k' = chain_map c !! k').
  { intros k' E. by rewrite (mo_lookup _ _ HM), E, Hc. }
  unfold hash_map_set, hash_map_set_len. rewrite Hi. simpl. rewrite Hl. simpl.
  pose proof (chain_replace_spec c k v Hk (proj1 (proj2 Hok))) as Hr.
  rewrite (Hlk k eq_refl). destruct (chain_map c !! k) as [old|] eqn:Ho.
  - destruct Hr as (c' & -> & Hn & Hm). simpl. rewrite bucket_store by done. eexists.
    split; [done|]. apply (models_update m M); [done|by apply (chain_ok_names _ _ c)|..].
    + intros k' E. rewrite Hm. destruct (decide (k = k')) as [<-|Hne].
      * by rewrite !lookup_insert_eq.
      * rewrite !lookup_insert_ne by done. symmetry. by apply Hlk.
    + intros k' E. rewrite lookup_insert_ne; [done|]. congruence.
    + rewrite map_size_insert, (Hlk k eq_refl), Ho. apply (mo_size _ _ HM).
  - rewrite Hr. simpl. rewrite bucket_store by done. eexists.
    split; [done|]. apply (models_update m M); [done|..].
    + destruct Hok as (Hnd & Hit & Hix). split; [|split].
      * rewrite fmap_cons. apply NoDup_cons. split; [|done]. intros (x & E & Hx)%list_elem_of_fmap.
        simpl in E. apply not_elem_of_list_to_map_2 in Ho. apply Ho.
        rewrite <- list_fmap_compose. apply list_elem_of_fmap. by exists x.
      * apply Forall_cons. by split.
      * apply Forall_cons. by split.
    + intros k' E. rewrite chain_map_cons. simpl. destruct (decide (k = k')) as [<-|Hne].
      * by rewrite !lookup_insert_eq.
      * rewrite !lookup_insert_ne by done. symmetry. by apply Hlk.
    + intros k' E. rewrite lookup_insert_ne; [done|]. congruence.
    + rewrite map_size_insert, (Hlk k eq_refl), Ho, (mo_size _ _ HM), u64_step. f_equal. lia.
Qed.

Lemma hash_map_delete_models m M k :
  models m M -> nul_free k ->
  exists m', hash_map_delete err hash m k = Ret (default err (M !! k), m') /\ models m' (delete k M).
Proof.
  intros HM Hk. pose proof (mo_wf _ _ HM) as W.
  destruct (bucket_ok m k W) as (c & Hi & Hl & Hc & Hok).
  assert (Hlk : forall k', index m k' = index m k -> M !! k' = chain_map c !! k').
  { intros k' E. by rewrite (mo_lookup _ _ HM), E, Hc. }
  unfold hash_map_delete, hash_map_delete_len. rewrite Hi. simpl. rewrite Hl. simpl.
  pose proof (chain_delete_spec c k Hk (proj1 (proj2 Hok)) (proj1 Hok)) as Hr.
  rewrite (Hlk k eq_refl). destruct (chain_map c !! k) as [old|] eqn:Ho.
  - destruct Hr as (c' & -> & Hs & Hm). simpl. rewrite bucket_store by done. eexists.
    split; [done|]. apply (models_update m M); [done|by apply (chain_ok_sublist _ _ c)|..].
    + intros k' E. rewrite Hm. destruct (decide (k = k')) as [<-|Hne].
      * by rewrite !lookup_delete_eq.
      * rewrite !lookup_delete_ne by done. symmetry. by apply Hlk.
    + intros k' E. rewrite lookup_delete_ne; [done|]. congruence.
    + assert (HMk : M !! k = Some old) by (by rewrite (Hlk k eq_refl)).
      rewrite map_size_delete, HMk, (mo_size _ _ HM). change (?a - 1) with (a + -1).
      rewrite u64_step. f_equal.
      destruct (base.size M) eqn:E; [|simpl; lia].
      apply map_size_empty_inv in E. by rewrite E, lookup_empty in HMk.
  - rewrite Hr. simpl. exists m. split; [done|]. rewrite delete_id; [done|].
    by rewrite (Hlk k eq_refl).
Qed.

Lemma models_new n : 0 < n -> models (hash_map_new_s n) ∅.
Proof.
  intros Hn. split; [split|..]; simpl.
  - rewrite length_replicate. lia.
  - intros i c [-> _]%lookup_replicate_1. split; [apply NoDup_nil_2|]. split; apply Forall_nil_2.
  - intros k. rewrite lookup_empty. destruct (replicate _ _ !! _) as [c|] eqn:E; [|done].
    by apply lookup_replicate_1 in E as [-> _].
  - done.
Qed.

(** ** Sequences of operations *)

Inductive op := Get (k : list Z) | Set_ (k : list Z) (v : T) | Del (k : list Z).

Definition op_key (o : op) : list Z := match o with Get k | Set_ k _ | Del k => k end.

(** What the operations return: the value read or removed, or the values
    evicted. *)
Fixpoint run (m : hash_map_t T) (ops : list op) : outcome (list (list T) * hash_map_t T) :=
  match ops with
  | [] => Ret ([], m)
  | Get k :: ops' =>
      v ← hash_map_get err hash m k; '(r, m) ← run m ops'; Ret ([v] :: r, m)
  | Set_ k v :: ops' =>
      '(m, ev) ← hash_map_set hash m k v; '(r, m) ← run m ops'; Ret (ev :: r, m)
  | Del k :: ops' =>
      '(v, m) ← hash_map_delete err hash m k; '(r, m) ← run m ops'; Ret ([v] :: r, m)
  end.

Fixpoint spec_run (M : gmap (list Z) T) (ops : list op) : list (list T) * gmap (list Z) T :=
  match ops with
  | [] => ([], M)
  | Get k :: ops' => let '(r, M') := spec_run M ops' in ([default err (M !! k)] :: r, M')
  | Set_ k v :: ops' =>
      let '(r, M') := spec_run (<[k := v]> M) ops' in (option_list (M !! k) :: r, M')
  | Del k :: ops' =>
      let '(r, M') := spec_run (delete k M) ops' in ([default err (M !! k)] :: r, M')
  end.

Lemma run_models ops : forall m M,
  models m M -> Forall (fun o => nul_free (op_key o)) ops ->
  exists m', run m ops = Ret ((spec_run M ops).1, m') /\ models m' (spec_run M ops).2.
Proof.
  induction ops as [|o ops IH]; intros m M HM Hops; [by exists m|].
  apply Forall_cons in Hops as [Hk Hops]. destruct o as [k|k v|k]; simpl in *.
  - rewrite (hash_map_get_models m M k) by done. simpl.
    destruct (IH m M HM Hops) as (m' & -> & HM'). exists m'. by destruct (spec_run M ops).
  - destruct (hash_map_set_models m M k v HM Hk) as (m1 & -> & HM1). simpl.
    destruct (IH m1 _ HM1 Hops) as (m' & -> & HM'). exists m'. by destruct (spec_run _ ops).
  - destruct (hash_map_delete_models m M k HM Hk) as (m1 & -> & HM1). simpl.
    destruct (IH m1 _ HM1 Hops) as (m' & -> & HM'). exists m'. by destruct (spec_run _ ops).
Qed.

End refinement.

(** C33. From a new hash map of any positive capacity and for any hash
    function, every sequence of lookups, insertions and deletions with C
    string keys returns what a finite map returns, evicts exactly the values
    it overwrites, and leaves a map that holds the same bindings and counts
    them. *)
Theorem hash_map_run_refines {T} (err : T) (hash : list Z -> Z) (n : Z) (ops : list (op (T := T)))
    (Hn : 0 < n) (Hkeys : Forall (fun o => nul_free (op_key o)) ops) :
  exists m', run err hash (hash_map_new_s n) ops = Ret ((spec_run err ∅ ops).1, m') /\
    models hash m' (spec_run err ∅ ops).2.
Proof. apply run_models; [by apply models_new|done]. Qed.

Lemma hash_map_run_refines_witness :
  exists m', run 0 (fun k => Z.of_nat (length k)) (hash_map_new_s 2)
      [Set_ [97] 1; Set_ [98] 2; Set_ [97] 3; Get [97]; Del [98]; Get [98]]
    = Ret ([[]; []; [1]; [3]; [2]; [0]], m') /\
    models (fun k => Z.of_nat (length k)) m' {[ [97] := 3 ]}.
Proof.
  destruct (hash_map_run_refines 0 (fun k => Z.of_nat (length k)) 2
      [Set_ [97] 1; Set_ [98] 2; Set_ [97] 3; Get [97]; Del [98]; Get [98]]) as (m' & H & HM).
  - done.
  - repeat (apply Forall_cons_2; [apply Forall_cons_2; [done|apply Forall_nil_2]|]).
    apply Forall_nil_2.
  - exists m'. split; [exact H|exact HM].
Defined.
