(* ===== verification/RbEvents.v ===== *)
(** * lib/rb_tree.c: the contract of the event callbacks

    A tree may have callbacks that keep records about its nodes.  [tree_inv]
    is what insertion and deletion need of them: an invariant of the records
    for each shape, which a rotation's callback moves along with the nodes,
    and that they write nothing but records.  The proofs about the tree are
    done once, against this interface; a tree without callbacks is an
    instance. *)

From S2P Require Import Prelude Interval.
From stdpp Require Import list gmap sorting.
From S2P Require Import RbTree.
Local Open Scope Z_scope.

Definition entry (n : rb_node_t) : Z * Z := (key n, data n).

Definition key_at (t : rb_tree_t) (x : nat) : Z :=
  match store_of t !! x with Some n => key n | None => 0 end.

(** The trees have the same records, and the same keys and data at [L]
    and at the sentinel. *)
Definition same_records (L : list nat) (t t' : rb_tree_t) : Prop :=
  objs t' = objs t /\ nil t' = nil t /\
  forall x, x ∈ nil t :: L -> entry <$> store_of t' !! x = entry <$> store_of t !! x.

Class tree_inv (ev : events) := mk_tree_inv {
  ti : rb_tree_t -> tr -> Prop;
  ti_stable t t' sh : same_records (inorder sh) t t' -> ti t sh -> ti t' sh;
  ti_pre t x y : pre_rotate ev t x y = Ret t;
  ti_quiet t x y t' : post_rotate ev t x y = Ret t' -> exists o, t' = with_objs t o;
  ti_left t ctx a x b y c :
    shaped t (plug ctx (T (T a x b) y c)) -> ti t (plug ctx (T a x (T b y c))) ->
    exists o, post_rotate ev t x y = Ret (with_objs t o) /\
      ti (with_objs t o) (plug ctx (T (T a x b) y c));
  ti_right t ctx a x b y c :
    shaped t (plug ctx (T a x (T b y c))) -> ti t (plug ctx (T (T a x b) y c)) ->
    exists o, post_rotate ev t y x = Ret (with_objs t o) /\
      ti (with_objs t o) (plug ctx (T a x (T b y c)));
}.

#[export] Instance no_events_inv : tree_inv no_events.
Proof.
  refine (mk_tree_inv no_events (fun _ _ => True) _ _ _ _ _); try done.
  - intros t x y t' [= <-]. exists (objs t). by destruct t.
  - intros t. exists (objs t). by destruct t.
  - intros t. exists (objs t). by destruct t.
Defined.

(** What insertion needs: an invariant for the time in which [z] is linked and
    its records are not written yet, which holds for a leaf that the caller
    prepared, and from which the last callback restores the first one. *)
Class insert_inv (ev : events) (TI : tree_inv ev) := mk_insert_inv {
  ii (z : nat) : tree_inv ev;
  ii_new : rb_tree_t -> list nat -> nat -> Prop;
  ii_pre t z : pre_insert_node ev t z = Ret t;
  ii_link t ctx z :
    @ti ev TI t (plug ctx E) -> ii_new t (inorder (plug ctx E)) z ->
    StronglySorted Z.lt (key_at t <$> ctx_before ctx ++ z :: ctx_after ctx) ->
    @ti ev (ii z) t (plug ctx (T E z E));
  ii_post t sh z :
    shaped t sh -> z ∈ inorder sh -> @ti ev (ii z) t sh ->
    exists o, post_insert_node ev t z = Ret (with_objs t o) /\ @ti ev TI (with_objs t o) sh;
}.

#[export] Instance no_events_insert : insert_inv no_events no_events_inv.
Proof.
  refine (mk_insert_inv no_events no_events_inv (fun _ => no_events_inv) (fun _ _ _ => True) _ _ _); try done.
  intros t. exists (objs t). by destruct t.
Defined.

(** What deletion needs: the records when a node is replaced by its only
    subtree, or by its successor from next to it or from further down. *)
Class delete_inv (ev : events) (TI : tree_inv ev) := mk_delete_inv {
  di_pre t z : pre_delete_node ev t z = Ret t;
  di_post t z x : post_delete_node ev t z x = Ret t;
  di_one t ctx l u r V :
    shaped t (plug ctx (T l u r)) -> ti t (plug ctx (T l u r)) -> (V = r /\ l = E) \/ (V = l /\ r = E) ->
    exists o, evt_replace_node ev t u (match V with E => nil t | T _ x _ => x end) = Ret (with_objs t o) /\
      ti (with_objs t o) (plug ctx V);
  di_near t ctx l z y r t' :
    shaped t (plug ctx (T l z (T E y r))) -> ti t (plug ctx (T l z (T E y r))) ->
    same_records (inorder (plug ctx (T l z (T E y r)))) t t' ->
    exists o, evt_replace_node ev t' z y = Ret (with_objs t' o) /\ ti (with_objs t' o) (plug ctx (T l y r));
  di_far t ctx l z f cy y r :
    ctx_before (f :: cy) = [] -> shaped t (plug ctx (T l z (plug (f :: cy) (T E y r)))) ->
    ti t (plug ctx (T l z (plug (f :: cy) (T E y r)))) ->
    exists o, evt_replace_node ev t y (match r with E => nil t | T _ x _ => x end) = Ret (with_objs t o) /\
      forall t', same_records (inorder (plug ctx (T l z (plug (f :: cy) (T E y r))))) (with_objs t o) t' ->
      exists o', evt_replace_node ev t' z y = Ret (with_objs t' o') /\
        ti (with_objs t' o') (plug ctx (T l y (plug (f :: cy) r)));
}.

#[export] Instance no_events_delete : delete_inv no_events no_events_inv.
Proof.
  split; try done.
  - intros t. exists (objs t). by destruct t.
  - intros t ctx l z y r t'. exists (objs t'). by destruct t'.
  - intros t. exists (objs t). split; [by destruct t|]. intros t' _. exists (objs t'). by destruct t'.
Defined.

(** ** Rotations with callbacks *)

Lemma wr_objs t x f t' : wr t x f = Ret t' -> objs t' = objs t.
Proof. unfold wr. destruct (rd t x); try done. by intros [= <-]. Qed.

Lemma relink_objs t x y t' : relink t x y = Ret t' -> objs t' = objs t.
Proof.
  unfold relink. destruct (get_parent t x) as [p| | |]; try done. simpl.
  destruct (p =? nil t)%nat; [by intros [= <-]|]. destruct (get_left t p) as [l| | |]; try done. simpl.
  destruct (x =? l)%nat; apply wr_objs.
Qed.

(** The writes of a rotation in turn. *)
Ltac rotation_objs :=
  intros H;
  repeat match type of H with
    | (get_left ?t ?y ≫= _) = _ => destruct (get_left t y) as [?| | |]; try done; simpl in H
    | (get_right ?t ?y ≫= _) = _ => destruct (get_right t y) as [?| | |]; try done; simpl in H
    | (get_parent ?t ?y ≫= _) = _ => destruct (get_parent t y) as [?| | |]; try done; simpl in H
    | (wr ?t ?z ?f ≫= _) = _ =>
        let W := fresh in destruct (wr t z f) as [?| | |] eqn:W; try done; simpl in H; apply wr_objs in W
    | ((if (?a =? ?b)%nat then Ret ?t else wr ?t ?z ?f) ≫= _) = _ => destruct (a =? b)%nat; simpl in H
    | (relink ?t ?a ?b ≫= _) = _ =>
        let W := fresh in destruct (relink t a b) as [?| | |] eqn:W; try done; simpl in H; apply relink_objs in W
    end; injection H as <-; congruence.

Lemma rotate_left_objs t x t' : rotate_left no_events t x = Ret t' -> objs t' = objs t.
Proof. unfold rotate_left. simpl. rotation_objs. Qed.

Lemma rotate_right_objs t x t' : rotate_right no_events t x = Ret t' -> objs t' = objs t.
Proof. unfold rotate_right. simpl. rotation_objs. Qed.

Section events.
Context {ev : events} {TI : tree_inv ev}.

(** The callback comes last. *)
Ltac callback_last :=
  repeat match goal with
    | |- context [wr ?t ?x ?f ≫= _] => destruct (wr t x f) as [?| | |]; simpl; try done
    | |- context [get_left ?t ?x ≫= _] => destruct (get_left t x) as [?| | |]; simpl; try done
    | |- context [get_right ?t ?x ≫= _] => destruct (get_right t x) as [?| | |]; simpl; try done
    | |- context [get_parent ?t ?x ≫= _] => destruct (get_parent t x) as [?| | |]; simpl; try done
    | |- context [relink ?t ?x ?y ≫= _] => destruct (relink t x y) as [?| | |]; simpl; try done
    | |- context [(if ?b then Ret _ else _) ≫= _] => destruct b; simpl; try done
    end.

Lemma rotate_left_ev t x y : get_right t x = Ret y ->
  rotate_left ev t x = (t' ← rotate_left no_events t x; post_rotate ev t' x y).
Proof.
  intros Hy. unfold rotate_left. simpl. rewrite Hy. simpl. rewrite ti_pre. simpl. rewrite Hy. simpl. callback_last.
Qed.

Lemma rotate_right_ev t x y : get_left t x = Ret y ->
  rotate_right ev t x = (t' ← rotate_right no_events t x; post_rotate ev t' x y).
Proof.
  intros Hy. unfold rotate_right. simpl. rewrite Hy. simpl. rewrite ti_pre. simpl. rewrite Hy. simpl. callback_last.
Qed.

(** A tree of shape [sh] with the records for it. *)
Definition tree_is (t : rb_tree_t) (sh : tr) : Prop := shaped t sh /\ ti t sh.

Lemma tree_is_repr t sh : tree_is t sh -> repr (store_of t) (nil t) (nil t) (root t) sh.
Proof. by intros [[? _] _]. Qed.

Lemma tree_is_NoDup t sh : tree_is t sh -> NoDup (inorder sh).
Proof. by intros [[_ ?] _]. Qed.

Lemma tree_is_length t sh : tree_is t sh -> (length (inorder sh) <= size (store_of t))%nat.
Proof. intros [? _]. by apply shaped_length. Qed.

Lemma kept_records L t t' : kept t t' -> objs t' = objs t -> same_records L t t'.
Proof.
  intros (? & _ & _ & _ & _ & H) Ho. split; [done|]. split; [done|]. intros x _. specialize (H x).
  unfold payload, entry in *. destruct (store_of t' !! x), (store_of t !! x); simpl in *; congruence.
Qed.

Lemma shaped_objs t o sh : shaped t sh -> shaped (with_objs t o) sh.
Proof. done. Qed.

Lemma right_child t ctx a x b y c : shaped t (plug ctx (T a x (T b y c))) -> get_right t x = Ret y.
Proof.
  intros [Hr _]. apply repr_plug in Hr as (h & p & _ & _ & _ & n & Hn & _ & _ & (E & _)).
  unfold get_right. by rewrite (rd_at _ _ _ Hn), <- E.
Qed.

Lemma left_child t ctx a x b y c : shaped t (plug ctx (T (T a x b) y c)) -> get_left t y = Ret x.
Proof.
  intros [Hr _]. apply repr_plug in Hr as (h & p & _ & _ & _ & n & Hn & _ & (E & _) & _).
  unfold get_left. by rewrite (rd_at _ _ _ Hn), <- E.
Qed.

Lemma rotate_left_tree t ctx a x b y c :
  tree_is t (plug ctx (T a x (T b y c))) ->
  exists t', rotate_left ev t x = Ret t' /\ kept t t' /\ tree_is t' (plug ctx (T (T a x b) y c)).
Proof.
  intros [Hs Hi]. destruct (rotate_left_shape t ctx a x b y c Hs) as (t1 & W & K & Hs1).
  pose proof (rotate_left_objs _ _ _ W) as Ho.
  destruct (ti_left t1 ctx a x b y c Hs1) as (o & Hp & Hi').
  { apply (ti_stable t); [|done]. by apply kept_records. }
  exists (with_objs t1 o). split; [|by split].
  rewrite (rotate_left_ev t x y) by (by apply (right_child t ctx a x b y c)). by rewrite W.
Qed.

Lemma rotate_right_tree t ctx a x b y c :
  tree_is t (plug ctx (T (T a x b) y c)) ->
  exists t', rotate_right ev t y = Ret t' /\ kept t t' /\ tree_is t' (plug ctx (T a x (T b y c))).
Proof.
  intros [Hs Hi]. destruct (rotate_right_shape t ctx a x b y c Hs) as (t1 & W & K & Hs1).
  pose proof (rotate_right_objs _ _ _ W) as Ho.
  destruct (ti_right t1 ctx a x b y c Hs1) as (o & Hp & Hi').
  { apply (ti_stable t); [|done]. by apply kept_records. }
  exists (with_objs t1 o). split; [|by split].
  rewrite (rotate_right_ev t y x) by (by apply (left_child t ctx a x b y c)). by rewrite W.
Qed.
End events.
