(* ===== verification/RbInsert.v ===== *)
(** * lib/rb_tree.c: the repair after an insertion

    The colours of a tree: no red node has a red child, and every path from a
    node down to the sentinel meets the same number of black nodes.  The
    repair loop of insert_fixup restores this after a red node was linked
    below a possibly red parent. *)

From S2P Require Import Prelude.
From stdpp Require Import list gmap.
From S2P Require Import RbTree RbEvents.
Local Open Scope Z_scope.

(** ** Colour predicates on shapes *)

Section colours.
Implicit Types (c : nat -> rb_color) (sh l r : tr) (ctx : list frame).

Definition rootcol c sh : rb_color := match sh with E => BLACK | T _ x _ => c x end.

(** No red node has a red child. *)
Fixpoint nored c sh : Prop :=
  match sh with
  | E => True
  | T l x r => (c x = RED -> rootcol c l = BLACK /\ rootcol c r = BLACK) /\ nored c l /\ nored c r
  end.

(** Every path down meets [n] black nodes. *)
Fixpoint bh c sh (n : nat) : Prop :=
  match sh with
  | E => n = 0%nat
  | T l x r =>
      match c x with
      | RED => bh c l n /\ bh c r n
      | BLACK => match n with O => False | S m => bh c l m /\ bh c r m end
      end
  end.

(** The context has no red node with a red child when its hole has colour [hc]. *)
Fixpoint nored_ctx c ctx (hc : rb_color) : Prop :=
  match ctx with
  | [] => True
  | LeftOf x r :: ctx' =>
      (c x = RED -> hc = BLACK /\ rootcol c r = BLACK) /\ nored c r /\ nored_ctx c ctx' (c x)
  | RightOf l x :: ctx' =>
      (c x = RED -> rootcol c l = BLACK /\ hc = BLACK) /\ nored c l /\ nored_ctx c ctx' (c x)
  end.

(** The colour of the root, when it is in the context. *)
Fixpoint ctx_root c ctx : option rb_color :=
  match ctx with
  | [] => None
  | (LeftOf x _ | RightOf _ x) :: ctx' =>
      match ctx_root c ctx' with Some d => Some d | None => Some (c x) end
  end.

Lemma nored_plug c ctx : forall sh,
  nored c (plug ctx sh) <-> nored c sh /\ nored_ctx c ctx (rootcol c sh).
Proof.
  induction ctx as [|[x r|l x] ctx IH]; intros sh; simpl; [tauto|..]; rewrite IH; simpl; tauto.
Qed.

(** Two colourings that agree on the names in [L]. *)
Definition same_on (L : list nat) c c' : Prop := forall x, x ∈ L -> c' x = c x.

Lemma rootcol_same c c' sh : same_on (inorder sh) c c' -> rootcol c' sh = rootcol c sh.
Proof. destruct sh; simpl; [done|]. intros H. apply H. set_solver. Qed.

Lemma nored_same c c' sh : same_on (inorder sh) c c' -> nored c sh -> nored c' sh.
Proof.
  induction sh as [|l IHl x r IHr]; simpl; [done|]. intros H (Hx & Hl & Hr).
  assert (same_on (inorder l) c c') by (intros y Hy; apply H; set_solver).
  assert (same_on (inorder r) c c') by (intros y Hy; apply H; set_solver).
  rewrite !(rootcol_same c c'), H by (done || set_solver). eauto.
Qed.

Lemma bh_same c c' sh : forall n, same_on (inorder sh) c c' -> bh c sh n -> bh c' sh n.
Proof.
  induction sh as [|l IHl x r IHr]; intros n; simpl; [done|]. intros H.
  assert (same_on (inorder l) c c') by (intros y Hy; apply H; set_solver).
  assert (same_on (inorder r) c c') by (intros y Hy; apply H; set_solver).
  rewrite (H x) by set_solver. destruct (c x); [|destruct n; [done|]]; intros [? ?]; eauto.
Qed.

Lemma nored_ctx_same c c' ctx : forall hc,
  same_on (ctx_ids ctx) c c' -> nored_ctx c ctx hc -> nored_ctx c' ctx hc.
Proof.
  unfold ctx_ids. induction ctx as [|[x r|l x] ctx IH]; intros hc H; simpl in *; [done|..].
  - intros (Hx & Hr & Hc).
    assert (same_on (inorder r) c c') by (intros y Hy; apply H; set_solver).
    rewrite (rootcol_same c c'), (H x) by (done || set_solver). split; [done|].
    split; [by apply (nored_same c)|]. apply IH; [|done]. intros y Hy. apply H. set_solver.
  - intros (Hx & Hr & Hc).
    assert (same_on (inorder l) c c') by (intros y Hy; apply H; set_solver).
    rewrite (rootcol_same c c'), (H x) by (done || set_solver). split; [done|].
    split; [by apply (nored_same c)|]. apply IH; [|done]. intros y Hy. apply H. set_solver.
Qed.

Lemma ctx_root_same c c' ctx : same_on (ctx_ids ctx) c c' -> ctx_root c' ctx = ctx_root c ctx.
Proof.
  unfold ctx_ids. induction ctx as [|[x r|l x] ctx IH]; intros H; simpl in *; [done|..];
    (rewrite IH by (intros y Hy; apply H; set_solver)); rewrite (H x) by set_solver; done.
Qed.

(** Replacing a subtree by one of the same black height. *)
Lemma bh_plug c c' ctx : forall sh sh' n,
  same_on (ctx_ids ctx) c c' -> (forall m, bh c sh m -> bh c' sh' m) ->
  bh c (plug ctx sh) n -> bh c' (plug ctx sh') n.
Proof.
  unfold ctx_ids. induction ctx as [|[x r|l x] ctx IH]; intros sh sh' n H Hsh; simpl in *; [apply Hsh|..].
  - apply IH; [intros y Hy; apply H; set_solver|]. intros m. simpl. rewrite (H x) by set_solver.
    assert (same_on (inorder r) c c') by (intros y Hy; apply H; set_solver).
    destruct (c x); [|destruct m; [done|]]; intros [? ?]; split; eauto using bh_same.
  - apply IH; [intros y Hy; apply H; set_solver|]. intros m. simpl. rewrite (H x) by set_solver.
    assert (same_on (inorder l) c c') by (intros y Hy; apply H; set_solver).
    destruct (c x); [|destruct m; [done|]]; intros [? ?]; split; eauto using bh_same.
Qed.

Lemma nored_black c l x r : c x = BLACK -> nored c l -> nored c r -> nored c (T l x r).
Proof. intros Hx Hl Hr. split; [congruence|done]. Qed.

Lemma nored_red c l x r :
  rootcol c l = BLACK -> rootcol c r = BLACK -> nored c l -> nored c r -> nored c (T l x r).
Proof. intros Hl Hr Nl Nr. by split. Qed.

Lemma bh_red c l x r n : c x = RED -> bh c (T l x r) n <-> bh c l n /\ bh c r n.
Proof. intros Hx. simpl. by rewrite Hx. Qed.

Lemma bh_black c l x r n :
  c x = BLACK -> bh c (T l x r) n <-> exists m, n = S m /\ bh c l m /\ bh c r m.
Proof.
  intros Hx. simpl. rewrite Hx. destruct n as [|n]; split; try done.
  - by intros (m & ? & _).
  - intros [? ?]. by exists n.
  - by intros (m & [= <-] & ?).
Qed.

End colours.

(** The colours of a tree in its store. *)
Definition col (t : rb_tree_t) (x : nat) : rb_color :=
  match store_of t !! x with Some n => color n | None => BLACK end.

Section rb.
Context {ev : events} {TI : tree_inv ev}.

(** ** Writing colours *)

(** What the repair keeps: everything but links and colours. *)
Definition kept_data (t t' : rb_tree_t) : Prop :=
  nil t' = nil t /\ min t' = min t /\ max t' = max t /\ nodes t' = nodes t /\ fresh t' = fresh t /\
  forall z, (fun n => (key n, data n, next n, prev n)) <$> store_of t' !! z =
            (fun n => (key n, data n, next n, prev n)) <$> store_of t !! z.

Lemma kept_data_refl t : kept_data t t.
Proof. by split_and!. Qed.

Lemma kept_data_trans a b c : kept_data a b -> kept_data b c -> kept_data a c.
Proof.
  intros (? & ? & ? & ? & ? & H) (? & ? & ? & ? & ? & H'). split_and!; congruence.
Qed.

Lemma kept_kept_data t t' : kept t t' -> kept_data t t'.
Proof.
  intros (? & ? & ? & ? & ? & H). do 5 (split; [done|]). intros z. specialize (H z). unfold payload in H.
  destruct (store_of t' !! z), (store_of t !! z); simpl in *; congruence.
Qed.

Lemma kept_col t t' x : kept t t' -> col t' x = col t x.
Proof.
  intros (_ & _ & _ & _ & _ & H). specialize (H x). unfold col, payload in *.
  destruct (store_of t' !! x), (store_of t !! x); simpl in *; congruence.
Qed.

(** [t'] is [t] with the node [x] coloured [d]. *)
Definition painted (t : rb_tree_t) (x : nat) (d : rb_color) (t' : rb_tree_t) : Prop :=
  kept_data t t' /\ (forall y, col t' y = if decide (y = x) then d else col t y) /\
  forall sh, tree_is t sh -> tree_is t' sh.

Lemma wr_color t x d n :
  store_of t !! x = Some n -> exists t', wr t x (put_color d) = Ret t' /\ painted t x d t'.
Proof.
  intros Hn. unfold wr, rd. rewrite Hn. simpl. eexists. split; [done|]. split; [|split].
  - do 5 (split; [done|]). intros z. simpl. destruct (decide (x = z)) as [<-|Hne].
    + by rewrite lookup_insert_eq, Hn.
    + by rewrite lookup_insert_ne.
  - intros y. unfold col. simpl. case_decide as E.
    + subst y. by rewrite lookup_insert_eq.
    + by rewrite lookup_insert_ne by congruence.
  - intros sh [[Hr Hnd] Hi]. split; [split; [|done]|].
    + simpl. apply (repr_frame (store_of t)); [|done].
      intros y _. unfold same_links. destruct (decide (x = y)) as [<-|Hne].
      * by rewrite lookup_insert_eq, Hn.
      * by rewrite lookup_insert_ne.
    + apply (ti_stable t); [|done]. split; [done|]. split; [done|]. intros y _. simpl.
      destruct (decide (x = y)) as [<-|Hne].
      * by rewrite lookup_insert_eq, Hn.
      * by rewrite lookup_insert_ne.
Qed.

(** ** Reading a tree of known shape *)

Lemma sub_repr t ctx sh :
  tree_is t (plug ctx sh) -> exists q h, repr (store_of t) (nil t) q h sh.
Proof. intros Hr%tree_is_repr. apply repr_plug in Hr as (h & p & _ & H). eauto. Qed.

Lemma sub_NoDup t ctx sh : tree_is t (plug ctx sh) -> NoDup (inorder sh).
Proof. intros Hnd%tree_is_NoDup. rewrite plug_perm in Hnd. by apply NoDup_app in Hnd as (_ & _ & ?). Qed.

(** The node at the root of a subtree. *)
Lemma node_at t ctx l x r :
  tree_is t (plug ctx (T l x r)) ->
  exists n, store_of t !! x = Some n /\ x <> nil t /\
    repr (store_of t) (nil t) x (left n) l /\ repr (store_of t) (nil t) x (right n) r.
Proof. intros (q & h & _ & Hx & n & Hn & _ & Hl & Hr)%sub_repr. eauto 6. Qed.

Lemma parent_left t ctx l x r y s :
  tree_is t (plug ctx (T (T l x r) y s)) -> get_parent t x = Ret y /\ get_left t y = Ret x.
Proof.
  intros (q & h & _ & _ & n & Hn & _ & (Hx & _ & m & Hm & Hp & _) & _)%sub_repr.
  unfold get_parent, get_left. rewrite (rd_at _ _ _ Hm), (rd_at _ _ _ Hn). simpl. by rewrite Hp, Hx.
Qed.

Lemma parent_right t ctx l x r y s :
  tree_is t (plug ctx (T s y (T l x r))) -> get_parent t x = Ret y /\ get_right t y = Ret x.
Proof.
  intros (q & h & _ & _ & n & Hn & _ & _ & (Hx & _ & m & Hm & Hp & _))%sub_repr.
  unfold get_parent, get_right. rewrite (rd_at _ _ _ Hm), (rd_at _ _ _ Hn). simpl. by rewrite Hp, Hx.
Qed.

(** The child pointer on a side is not a node of the other side. *)
Lemma left_ne t ctx l y r z :
  tree_is t (plug ctx (T l y r)) -> z ∈ inorder r -> exists x, get_left t y = Ret x /\ x <> z.
Proof.
  intros Ht Hz. destruct (node_at _ _ _ _ _ Ht) as (n & Hn & _ & Hl & Hr).
  exists (left n). unfold get_left. rewrite (rd_at _ _ _ Hn). split; [done|]. intros <-.
  pose proof (sub_NoDup _ _ _ Ht) as (_ & Hd & _)%NoDup_app.
  destruct (repr_root _ _ _ _ _ Hl) as [E|E]; [|set_solver].
  rewrite E in Hz. by apply (repr_not_nil _ _ _ _ _ Hr) in Hz.
Qed.

Lemma right_ne t ctx l y r z :
  tree_is t (plug ctx (T l y r)) -> z ∈ inorder l -> exists x, get_right t y = Ret x /\ x <> z.
Proof.
  intros Ht Hz. destruct (node_at _ _ _ _ _ Ht) as (n & Hn & _ & Hl & Hr).
  exists (right n). unfold get_right. rewrite (rd_at _ _ _ Hn). split; [done|]. intros <-.
  pose proof (sub_NoDup _ _ _ Ht) as (_ & Hd & _)%NoDup_app.
  destruct (repr_root _ _ _ _ _ Hr) as [E|E]; [|set_solver].
  rewrite E in Hz. by apply (repr_not_nil _ _ _ _ _ Hl) in Hz.
Qed.

(** The sentinel is black. *)
Definition nil_black (t : rb_tree_t) : Prop :=
  exists n, store_of t !! nil t = Some n /\ color n = BLACK.

(** The colour test on the root pointer of a subtree. *)
Lemma is_color_root t q h sh d :
  nil_black t -> repr (store_of t) (nil t) q h sh ->
  is_color t h d = Ret (bool_decide (rootcol (col t) sh = d)).
Proof.
  intros (nn & Hnn & Hb) Hr. unfold is_color, get_color. destruct sh as [|l x r]; simpl in *.
  - subst h. rewrite (rd_at _ _ _ Hnn). simpl. by rewrite Hb.
  - destruct Hr as (-> & _ & n & Hn & _). rewrite (rd_at _ _ _ Hn). unfold col. by rewrite Hn.
Qed.

Lemma nil_black_kept t t' : kept t t' -> nil_black t -> nil_black t'.
Proof.
  intros K (n & Hn & Hb). pose proof (kept_col _ _ (nil t) K) as Hc.
  destruct K as (E & _ & _ & _ & _ & H). specialize (H (nil t)). unfold nil_black, col in *.
  rewrite E, Hn in *. destruct (store_of t' !! nil t) as [m|]; [|done]. exists m.
  split; [done|]. congruence.
Qed.

Lemma nil_black_painted t x d t' : painted t x d t' -> x <> nil t -> nil_black t -> nil_black t'.
Proof.
  intros ((E & _ & _ & _ & _ & H) & Hc & _) Hx (n & Hn & Hb). specialize (H (nil t)).
  specialize (Hc (nil t)). rewrite decide_False in Hc by congruence. unfold nil_black, col in *.
  rewrite E, Hn in *. destruct (store_of t' !! nil t) as [m|]; [|done]. exists m.
  split; [done|]. congruence.
Qed.

Lemma kept_data_Some t t' x n :
  kept_data t t' -> store_of t !! x = Some n -> exists n', store_of t' !! x = Some n'.
Proof.
  intros (_ & _ & _ & _ & _ & H) Hn. specialize (H x). rewrite Hn in H.
  destruct (store_of t' !! x); [eauto|done].
Qed.

(** Paints the node [x] of a tree. *)
Lemma paint t sh x d :
  tree_is t sh -> nil_black t -> x ∈ inorder sh ->
  exists t', wr t x (put_color d) = Ret t' /\ painted t x d t' /\ tree_is t' sh /\ nil_black t'.
Proof.
  intros Ht Hb Hx. pose proof (tree_is_repr _ _ Ht) as Hr. pose proof (repr_dom _ _ _ _ _ Hr x Hx) as [n Hn]%elem_of_dom.
  destruct (wr_color t x d n Hn) as (t' & Hw & Hp). exists t'. split; [done|]. split; [done|].
  split; [by apply Hp|]. apply (nil_black_painted t x d t' Hp); [|done].
  intros ->. by apply (repr_not_nil _ _ _ _ _ Hr).
Qed.

(** ** One step of the repair: a red uncle *)

(** [z] is a child of [p]. *)
Definition child_of (P : tr) (z p : nat) : Prop :=
  exists l r s, P = T (T l z r) p s \/ P = T s p (T l z r).

Lemma child_parent t ctx P z p : tree_is t (plug ctx P) -> child_of P z p -> get_parent t z = Ret p.
Proof.
  intros Ht (l & r & s & [-> | ->]).
  - by apply (parent_left t ctx l z r p s).
  - by apply (parent_right t ctx l z r p s).
Qed.

Lemma child_in P z p : child_of P z p -> z ∈ inorder P /\ p ∈ inorder P.
Proof. intros (l & r & s & [-> | ->]); simpl; set_solver. Qed.

Lemma child_root P z p : child_of P z p -> exists a b, P = T a p b.
Proof. intros (l & r & s & [-> | ->]); eauto. Qed.

(** Parent and uncle become black, the grandparent red. *)
Definition recoloured (t : rb_tree_t) (p y g : nat) (t' : rb_tree_t) : Prop :=
  kept_data t t' /\ nil_black t' /\ (forall sh, tree_is t sh -> tree_is t' sh) /\
  forall x, col t' x = if decide (x = g) then RED else if decide (x = p \/ x = y) then BLACK else col t x.

Lemma recolour t sh p y g :
  tree_is t sh -> nil_black t -> p ∈ inorder sh -> y ∈ inorder sh -> g ∈ inorder sh ->
  exists t', (t1 ← wr t p (put_color BLACK); t2 ← wr t1 y (put_color BLACK);
              t3 ← wr t2 g (put_color RED); Ret (t3, g)) = Ret (t', g) /\ recoloured t p y g t'.
Proof.
  intros Ht Hb Hp Hy Hg.
  destruct (paint t sh p BLACK Ht Hb Hp) as (t1 & -> & (K1 & C1 & S1) & Ht1 & Hb1).
  destruct (paint t1 sh y BLACK Ht1 Hb1 Hy) as (t2 & W2 & (K2 & C2 & S2) & Ht2 & Hb2).
  destruct (paint t2 sh g RED Ht2 Hb2 Hg) as (t3 & W3 & (K3 & C3 & S3) & Ht3 & Hb3).
  simpl. rewrite W2. simpl. rewrite W3. simpl. exists t3. split; [done|]. split; [|split; [done|split]].
  - eapply kept_data_trans; [done|]. by eapply kept_data_trans.
  - eauto.
  - intros x. rewrite C3, C2, C1. repeat case_decide; naive_solver.
Qed.

Lemma step_red_left t ctx P g ul y ur z p :
  tree_is t (plug ctx (T P g (T ul y ur))) -> nil_black t -> child_of P z p -> col t y = RED ->
  exists t', insert_fixup_step ev t z = Ret (t', g) /\ recoloured t p y g t'.
Proof.
  intros Ht Hb Hc Hy. unfold insert_fixup_step.
  rewrite (child_parent t (LeftOf g (T ul y ur) :: ctx) P z p) by done. simpl.
  destruct (child_root _ _ _ Hc) as (a & b & EP).
  assert (Hpg : get_parent t p = Ret g /\ get_left t g = Ret p)
    by (subst P; by apply (parent_left t ctx a p b g (T ul y ur))).
  destruct Hpg as [Hpg Hgl]. rewrite Hpg. simpl. rewrite Hgl. simpl. rewrite Nat.eqb_refl.
  destruct (parent_right t ctx ul y ur g P Ht) as [_ ->]. simpl.
  destruct (sub_repr t (RightOf P g :: ctx) (T ul y ur) Ht) as (q & h & Hr).
  pose proof Hr as [-> _]. rewrite (is_color_root t q y (T ul y ur)) by done. simpl. rewrite Hy. simpl.
  apply (recolour t _ p y g Ht Hb); rewrite inorder_plug; destruct (child_in _ _ _ Hc); simpl; set_solver.
Qed.

Lemma step_red_right t ctx P g ul y ur z p :
  tree_is t (plug ctx (T (T ul y ur) g P)) -> nil_black t -> child_of P z p -> col t y = RED ->
  exists t', insert_fixup_step ev t z = Ret (t', g) /\ recoloured t p y g t'.
Proof.
  intros Ht Hb Hc Hy. unfold insert_fixup_step.
  rewrite (child_parent t (RightOf (T ul y ur) g :: ctx) P z p) by done. simpl.
  destruct (child_root _ _ _ Hc) as (a & b & EP). pose proof (child_in _ _ _ Hc) as [_ Hpin].
  assert (Hpg : get_parent t p = Ret g)
    by (subst P; by apply (parent_right t ctx a p b g (T ul y ur))).
  rewrite Hpg. simpl. destruct (left_ne t ctx (T ul y ur) g P p Ht Hpin) as (x & Hx & Hne).
  destruct (parent_left t ctx ul y ur g P Ht) as [_ Hl]. rewrite Hl in *. injection Hx as <-. simpl.
  rewrite (proj2 (Nat.eqb_neq p y)) by done.
  destruct (sub_repr t (LeftOf g P :: ctx) (T ul y ur) Ht) as (q & h & Hr).
  pose proof Hr as [-> _]. rewrite (is_color_root t q y (T ul y ur)) by done. simpl. rewrite Hy. simpl.
  apply (recolour t _ p y g Ht Hb); rewrite inorder_plug; simpl; set_solver.
Qed.

(** ** One step of the repair: a black uncle *)

(** [p] becomes black and [g] red. *)
Definition turned (t : rb_tree_t) (p g : nat) (t' : rb_tree_t) : Prop :=
  kept_data t t' /\ nil_black t' /\
  forall x, col t' x = if decide (x = g) then RED else if decide (x = p) then BLACK else col t x.

Lemma turn_right t ctx a p b g u z :
  tree_is t (plug ctx (T (T a p b) g u)) -> nil_black t -> get_parent t z = Ret p ->
  exists t', (p ← get_parent t z; t ← wr t p (put_color BLACK); g ← get_parent t p;
              t ← wr t g (put_color RED); t ← rotate_right ev t g; Ret (t, z)) = Ret (t', z) /\
    turned t p g t' /\ tree_is t' (plug ctx (T a p (T b g u))).
Proof.
  intros Ht Hb Hz. rewrite Hz. simpl.
  destruct (paint t _ p BLACK Ht Hb) as (t1 & W1 & (K1 & C1 & _) & Ht1 & Hb1);
    [rewrite inorder_plug; simpl; set_solver|]. rewrite W1. simpl.
  destruct (parent_left t1 ctx a p b g u Ht1) as [-> _]. simpl.
  destruct (paint t1 _ g RED Ht1 Hb1) as (t2 & W2 & (K2 & C2 & _) & Ht2 & Hb2);
    [rewrite inorder_plug; simpl; set_solver|]. rewrite W2. simpl.
  destruct (rotate_right_tree t2 ctx a p b g u Ht2) as (t3 & W3 & K3 & Ht3). rewrite W3. simpl.
  exists t3. split; [done|]. split; [|done]. split; [|split].
  - eapply kept_data_trans; [done|]. eapply kept_data_trans; [done|]. by apply kept_kept_data.
  - by apply (nil_black_kept t2).
  - intros x. rewrite (kept_col t2) by done. by rewrite C2, C1.
Qed.

Lemma turn_left t ctx u g a p b z :
  tree_is t (plug ctx (T u g (T a p b))) -> nil_black t -> get_parent t z = Ret p ->
  exists t', (p ← get_parent t z; t ← wr t p (put_color BLACK); g ← get_parent t p;
              t ← wr t g (put_color RED); t ← rotate_left ev t g; Ret (t, z)) = Ret (t', z) /\
    turned t p g t' /\ tree_is t' (plug ctx (T (T u g a) p b)).
Proof.
  intros Ht Hb Hz. rewrite Hz. simpl.
  destruct (paint t _ p BLACK Ht Hb) as (t1 & W1 & (K1 & C1 & _) & Ht1 & Hb1);
    [rewrite inorder_plug; simpl; set_solver|]. rewrite W1. simpl.
  destruct (parent_right t1 ctx a p b g u Ht1) as [-> _]. simpl.
  destruct (paint t1 _ g RED Ht1 Hb1) as (t2 & W2 & (K2 & C2 & _) & Ht2 & Hb2);
    [rewrite inorder_plug; simpl; set_solver|]. rewrite W2. simpl.
  destruct (rotate_left_tree t2 ctx u g a p b Ht2) as (t3 & W3 & K3 & Ht3). rewrite W3. simpl.
  exists t3. split; [done|]. split; [|done]. split; [|split].
  - eapply kept_data_trans; [done|]. eapply kept_data_trans; [done|]. by apply kept_kept_data.
  - by apply (nil_black_kept t2).
  - intros x. rewrite (kept_col t2) by done. by rewrite C2, C1.
Qed.

(** The step is its last three assignments, after the inner rotation. *)
Lemma turned_after t t1 p g t' : kept t t1 -> turned t1 p g t' -> turned t p g t'.
Proof.
  intros K (K' & Hb & C). split; [|split; [done|]].
  - eapply kept_data_trans; [by apply kept_kept_data|done].
  - intros x. rewrite C. by rewrite (kept_col t t1).
Qed.

(** The node on top, its black colour, and a child of it to go on with. *)
Definition settled (t : rb_tree_t) (z : nat) (t' : rb_tree_t) (x g : nat) : Prop :=
  turned t x g t' /\ get_parent t' z = Ret x.

Lemma step_black_left t ctx P g u z p l r s :
  tree_is t (plug ctx (T P g u)) -> nil_black t -> rootcol (col t) u = BLACK ->
  P = T (T l z r) p s \/ P = T s p (T l z r) ->
  exists t' z' x a b c, insert_fixup_step ev t z = Ret (t', z') /\ settled t z' t' x g /\
    tree_is t' (plug ctx (T a x (T b g c))) /\ c = u /\
    ((P = T (T l z r) p s /\ x = p /\ a = T l z r /\ b = s) \/
     (P = T s p (T l z r) /\ x = z /\ a = T s p l /\ b = r)).
Proof.
  intros Ht Hb Hu HP. unfold insert_fixup_step.
  assert (Hc : child_of P z p) by (exists l, r, s; done).
  rewrite (child_parent t (LeftOf g u :: ctx) P z p) by done. simpl.
  destruct (child_root _ _ _ Hc) as (a0 & b0 & EP).
  assert (Hpg : get_parent t p = Ret g /\ get_left t g = Ret p)
    by (rewrite EP in Ht; by apply (parent_left t ctx a0 p b0 g u)).
  destruct Hpg as [Hpg Hgl]. rewrite Hpg. simpl. rewrite Hgl. simpl. rewrite Nat.eqb_refl.
  destruct (node_at t ctx P g u Ht) as (ng & Hng & _ & _ & Hur).
  assert (get_right t g = Ret (right ng)) as -> by (unfold get_right; by rewrite (rd_at _ _ _ Hng)).
  simpl. rewrite (is_color_root t g (right ng) u) by done. rewrite Hu. simpl.
  destruct HP as [-> | ->].
  - destruct (right_ne t (LeftOf g u :: ctx) (T l z r) p s z Ht) as (y & -> & Hne);
      [simpl; set_solver|]. simpl. rewrite (proj2 (Nat.eqb_neq z y)) by congruence. simpl.
    destruct (parent_left t (LeftOf g u :: ctx) l z r p s Ht) as [Hz _].
    destruct (turn_right t ctx (T l z r) p s g u z Ht Hb Hz) as (t' & -> & Htu & Ht').
    exists t', z, p, (T l z r), s, u. split; [done|]. split; [|split; [done|split; [done|by left]]].
    split; [done|]. by apply (parent_left t' ctx l z r p (T s g u)).
  - destruct (parent_right t (LeftOf g u :: ctx) l z r p s Ht) as [_ ->]. simpl.
    rewrite Nat.eqb_refl.
    destruct (rotate_left_tree t (LeftOf g u :: ctx) s p l z r Ht) as (t1 & -> & K1 & Ht1). simpl in *.
    destruct (parent_left t1 (LeftOf g u :: ctx) s p l z r Ht1) as [Hz _].
    destruct (turn_right t1 ctx (T s p l) z r g u p Ht1 (nil_black_kept _ _ K1 Hb) Hz)
      as (t' & -> & Htu & Ht').
    exists t', p, z, (T s p l), r, u. split; [done|]. split; [|split; [done|split; [done|by right]]].
    split; [by apply (turned_after t t1)|]. by apply (parent_left t' ctx s p l z (T r g u)).
Qed.

Lemma step_black_right t ctx P g u z p l r s :
  tree_is t (plug ctx (T u g P)) -> nil_black t -> rootcol (col t) u = BLACK ->
  P = T (T l z r) p s \/ P = T s p (T l z r) ->
  exists t' z' x a b c, insert_fixup_step ev t z = Ret (t', z') /\ settled t z' t' x g /\
    tree_is t' (plug ctx (T (T c g b) x a)) /\ c = u /\
    ((P = T s p (T l z r) /\ x = p /\ a = T l z r /\ b = s) \/
     (P = T (T l z r) p s /\ x = z /\ a = T r p s /\ b = l)).
Proof.
  intros Ht Hb Hu HP. unfold insert_fixup_step.
  assert (Hc : child_of P z p) by (exists l, r, s; done).
  rewrite (child_parent t (RightOf u g :: ctx) P z p) by done. simpl.
  destruct (child_root _ _ _ Hc) as (a0 & b0 & EP). pose proof (child_in _ _ _ Hc) as [_ Hpin].
  assert (Hpg : get_parent t p = Ret g) by (rewrite EP in Ht; by apply (parent_right t ctx a0 p b0 g u)).
  rewrite Hpg. simpl. destruct (left_ne t ctx u g P p Ht Hpin) as (x & Hx & Hne).
  destruct (node_at t ctx u g P Ht) as (ng & Hng & _ & Hul & _).
  assert (Hgl : get_left t g = Ret (left ng)) by (unfold get_left; by rewrite (rd_at _ _ _ Hng)).
  rewrite Hgl in *. injection Hx as <-. simpl. rewrite (proj2 (Nat.eqb_neq p (left ng))) by congruence.
  rewrite (is_color_root t g (left ng) u) by done. rewrite Hu. simpl.
  destruct HP as [-> | ->].
  - destruct (parent_left t (RightOf u g :: ctx) l z r p s Ht) as [_ ->]. simpl.
    rewrite Nat.eqb_refl.
    destruct (rotate_right_tree t (RightOf u g :: ctx) l z r p s Ht) as (t1 & -> & K1 & Ht1). simpl in *.
    destruct (parent_right t1 (RightOf u g :: ctx) r p s z l Ht1) as [Hz _].
    destruct (turn_left t1 ctx u g l z (T r p s) p Ht1 (nil_black_kept _ _ K1 Hb) Hz)
      as (t' & -> & Htu & Ht').
    exists t', p, z, (T r p s), l, u. split; [done|]. split; [|split; [done|split; [done|by right]]].
    split; [by apply (turned_after t t1)|]. by apply (parent_right t' ctx r p s z (T u g l)).
  - destruct (left_ne t (RightOf u g :: ctx) s p (T l z r) z Ht) as (y & -> & Hne');
      [simpl; set_solver|]. simpl. rewrite (proj2 (Nat.eqb_neq z y)) by congruence. simpl.
    destruct (parent_right t (RightOf u g :: ctx) l z r p s Ht) as [Hz _].
    destruct (turn_left t ctx u g s p (T l z r) z Ht Hb Hz) as (t' & -> & Htu & Ht').
    exists t', z, p, (T l z r), s, u. split; [done|]. split; [|split; [done|split; [done|by left]]].
    split; [done|]. by apply (parent_right t' ctx l z r p (T u g s)).
Qed.

(** ** The colours after a step *)

Section shapes.
Context (c c' : nat -> rb_color) (l r s u : tr) (z p g : nat).
Context (Hz : c z = RED) (Hp : c p = RED) (Hg : c g = BLACK).
Context (Hsub : nored c (T l z r)) (Hs : nored c s) (Hsb : rootcol c s = BLACK) (Hu : nored c u).

(** Recolouring below a red uncle keeps black heights and pushes red up. *)
Lemma recolour_shape ul y ur :
  u = T ul y ur -> c y = RED -> c' p = BLACK -> c' y = BLACK -> c' g = RED ->
  same_on (inorder (T l z r) ++ inorder s ++ inorder ul ++ inorder ur) c c' ->
  forall P, P = T (T l z r) p s \/ P = T s p (T l z r) ->
  nored c' (T P g u) /\ nored c' (T u g P) /\
  (forall m, bh c (T P g u) m -> bh c' (T P g u) m) /\
  (forall m, bh c (T u g P) m -> bh c' (T u g P) m).
Proof.
  intros -> Hy Hp' Hy' Hg' Hsame P HP.
  assert (Ss : forall L, L ⊆ inorder (T l z r) ++ inorder s ++ inorder ul ++ inorder ur -> same_on L c c').
  { intros L HL x Hx. by apply Hsame, HL. }
  destruct Hu as (_ & Hul & Hur).
  assert (Hsub' : nored c' (T l z r)) by (apply (nored_same c); [apply Ss; set_solver|done]).
  assert (Hs' : nored c' s) by (apply (nored_same c); [apply Ss; set_solver|done]).
  assert (Hul' : nored c' ul) by (apply (nored_same c); [apply Ss; set_solver|done]).
  assert (Hur' : nored c' ur) by (apply (nored_same c); [apply Ss; set_solver|done]).
  assert (Bsub : forall m, bh c (T l z r) m -> bh c' (T l z r) m) by (intros m; apply bh_same, Ss; set_solver).
  assert (Bs : forall m, bh c s m -> bh c' s m) by (intros m; apply bh_same, Ss; set_solver).
  assert (Bul : forall m, bh c ul m -> bh c' ul m) by (intros m; apply bh_same, Ss; set_solver).
  assert (Bur : forall m, bh c ur m -> bh c' ur m) by (intros m; apply bh_same, Ss; set_solver).
  assert (HP' : nored c' P /\ rootcol c' P = BLACK /\ forall m, bh c P m -> bh c' P (S m)).
  { destruct HP as [-> | ->]; (split; [by apply nored_black|]); (split; [done|]); intros m;
      rewrite (bh_red c), (bh_black c') by done; intros [? ?]; exists m; eauto. }
  destruct HP' as (NP & RP & BP).
  assert (NU : nored c' (T ul y ur)) by (by apply nored_black).
  assert (BU : forall m, bh c (T ul y ur) m -> bh c' (T ul y ur) (S m)).
  { intros m. rewrite (bh_red c), (bh_black c') by done. intros [? ?]. exists m. eauto. }
  split; [by apply nored_red|]. split; [by apply nored_red|].
  split; intros m; rewrite (bh_black c), (bh_red c') by done; intros (k & -> & ? & ?); eauto.
Qed.

Context (Hub : rootcol c u = BLACK).

(** The outer case: [p] comes on top of its child [z] and [g]. *)
Lemma turn_outer :
  c' p = BLACK -> c' g = RED -> same_on (inorder (T l z r) ++ inorder s ++ inorder u) c c' ->
  nored c' (T (T l z r) p (T s g u)) /\ nored c' (T (T u g s) p (T l z r)) /\
  (forall m, bh c (T (T (T l z r) p s) g u) m -> bh c' (T (T l z r) p (T s g u)) m) /\
  (forall m, bh c (T u g (T s p (T l z r))) m -> bh c' (T (T u g s) p (T l z r)) m).
Proof.
  intros Hp' Hg' Hsame.
  assert (Ss : forall L, L ⊆ inorder (T l z r) ++ inorder s ++ inorder u -> same_on L c c').
  { intros L HL x Hx. by apply Hsame, HL. }
  assert (Nz : nored c' (T l z r)) by (apply (nored_same c); [apply Ss; set_solver|done]).
  assert (Ns : nored c' s) by (apply (nored_same c); [apply Ss; set_solver|done]).
  assert (Nu : nored c' u) by (apply (nored_same c); [apply Ss; set_solver|done]).
  assert (Rs : rootcol c' s = BLACK) by (rewrite (rootcol_same c); [done|apply Ss; set_solver]).
  assert (Ru : rootcol c' u = BLACK) by (rewrite (rootcol_same c); [done|apply Ss; set_solver]).
  assert (Bz : forall m, bh c (T l z r) m -> bh c' (T l z r) m) by (intros m; apply bh_same, Ss; set_solver).
  assert (Bs : forall m, bh c s m -> bh c' s m) by (intros m; apply bh_same, Ss; set_solver).
  assert (Bu : forall m, bh c u m -> bh c' u m) by (intros m; apply bh_same, Ss; set_solver).
  split; [by apply nored_black; [|done|apply nored_red]|].
  split; [by apply nored_black; [|apply nored_red|done]|].
  split; intros m; rewrite (bh_black c), (bh_black c') by done; intros (k & -> & H1 & H2);
    exists k; (split; [done|]); rewrite (bh_red c' _ g) by done.
  - apply (bh_red c _ p) in H1 as [H0 H1]; [|done]. auto 6.
  - apply (bh_red c _ p) in H2 as [H0 H2]; [|done]. auto 6.
Qed.

(** The inner case: [z] comes on top of [p] and [g]. *)
Lemma turn_inner :
  c' z = BLACK -> c' g = RED ->
  same_on (p :: inorder l ++ inorder r ++ inorder s ++ inorder u) c c' ->
  nored c' (T (T s p l) z (T r g u)) /\ nored c' (T (T u g l) z (T r p s)) /\
  (forall m, bh c (T (T s p (T l z r)) g u) m -> bh c' (T (T s p l) z (T r g u)) m) /\
  (forall m, bh c (T u g (T (T l z r) p s)) m -> bh c' (T (T u g l) z (T r p s)) m).
Proof.
  intros Hz' Hg' Hsame. destruct Hsub as (Hlr & Hl & Hr). destruct (Hlr Hz) as [Hlb Hrb].
  assert (Ss : forall L, L ⊆ p :: inorder l ++ inorder r ++ inorder s ++ inorder u -> same_on L c c').
  { intros L HL x Hx. by apply Hsame, HL. }
  assert (Hp' : c' p = RED) by (rewrite (Hsame p); [done|set_solver]).
  assert (N : forall t, inorder t ⊆ inorder l ++ inorder r ++ inorder s ++ inorder u ->
    (nored c t -> nored c' t) /\ (rootcol c t = BLACK -> rootcol c' t = BLACK) /\
    forall m, bh c t m -> bh c' t m).
  { intros t Hin. assert (same_on (inorder t) c c') by (apply Ss; set_solver).
    split; [by apply nored_same|]. split; [by rewrite (rootcol_same c c' t)|]. intros m. by apply bh_same. }
  destruct (N l) as (Nl & Rl & Bl); [set_solver|]. destruct (N r) as (Nr & Rr & Br); [set_solver|].
  destruct (N s) as (Ns & Rs & Bs); [set_solver|]. destruct (N u) as (Nu & Ru & Bu); [set_solver|].
  split; [apply nored_black; [done|apply nored_red; auto|apply nored_red; auto]|].
  split; [apply nored_black; [done|apply nored_red; auto|apply nored_red; auto]|].
  split; intros m; rewrite (bh_black c), (bh_black c') by done; intros (k & -> & H1 & H2);
    exists k; (split; [done|]); rewrite (bh_red c' _ g), (bh_red c' _ p) by done.
  - apply (bh_red c _ p) in H1 as [H0 H1]; [|done]. apply (bh_red c _ z) in H1 as [H3 H4]; [|done]. auto 8.
  - apply (bh_red c _ p) in H2 as [H0 H2]; [|done]. apply (bh_red c _ z) in H0 as [H3 H4]; [|done]. auto 8.
Qed.

End shapes.

(** ** The loop *)

(** A tree whose colours are right. *)
Record balanced (t : rb_tree_t) (sh : tr) (n : nat) : Prop := mk_balanced {
  b_tree : tree_is t sh;
  b_nil : nil_black t;
  b_red : nored (col t) sh;
  b_height : bh (col t) sh n
}.

(** The loop's invariant: the only red node with a red child may be the parent
    of the red node [z], and the root is not red unless it is [z]. *)
Record ready (t : rb_tree_t) (z : nat) (ctx : list frame) (l r : tr) (n : nat) : Prop := mk_ready {
  r_tree : tree_is t (plug ctx (T l z r));
  r_nil : nil_black t;
  r_z : col t z = RED;
  r_below : nored (col t) (T l z r);
  r_above : nored_ctx (col t) ctx BLACK;
  r_root : ctx_root (col t) ctx <> Some RED;
  r_height : bh (col t) (plug ctx (T l z r)) n
}.

(** After a step: the invariant two levels up, or a tree whose colours are
    right and in which the parent of the current node is black. *)
Definition stepped (ctx : list frame) (L : list nat) (n : nat) (t : rb_tree_t) (z : nat) : Prop :=
  (exists l r, ready t z ctx l r n /\ inorder (plug ctx (T l z r)) = L) \/
  (exists x sh, get_parent t z = Ret x /\ x ∈ inorder sh /\ col t x = BLACK /\
    balanced t sh n /\ inorder sh = L).

Lemma turned_same t x g t' L :
  turned t x g t' -> x ∉ L -> g ∉ L -> same_on L (col t) (col t').
Proof. intros (_ & _ & C) Hx Hg y Hy. rewrite C. by rewrite !decide_False by congruence. Qed.

Lemma recoloured_same t p y g t' L :
  recoloured t p y g t' -> p ∉ L -> y ∉ L -> g ∉ L -> same_on L (col t) (col t').
Proof.
  intros (_ & _ & _ & C) Hp Hy Hg x Hx. rewrite C. rewrite !decide_False; [done|..]; naive_solver.
Qed.

Lemma family_perm ctx l z r p s g u P G :
  P = T (T l z r) p s \/ P = T s p (T l z r) -> G = T P g u \/ G = T u g P ->
  inorder (plug ctx G) ≡ₚ
    z :: p :: g :: (inorder l ++ inorder r ++ inorder s ++ inorder u ++ ctx_ids ctx).
Proof.
  intros HP HG. rewrite plug_perm.
  apply (Permutation_count_occ Nat.eq_dec). intros x.
  destruct HP as [-> | ->], HG as [-> | ->]; simpl; rewrite ?count_occ_app; simpl;
    rewrite ?count_occ_app; simpl; rewrite ?count_occ_app; simpl;
    repeat case_match; lia.
Qed.

Section step.
Context (t : rb_tree_t) (ctx : list frame) (P l r s u : tr) (z p g n : nat).
Context (HP : P = T (T l z r) p s \/ P = T s p (T l z r)).
Context (Hnil : nil_black t) (Hz : col t z = RED) (Hp : col t p = RED) (Hg : col t g = BLACK).
Context (Nz : nored (col t) (T l z r)) (Ns : nored (col t) s) (Rs : rootcol (col t) s = BLACK).
Context (Nu : nored (col t) u) (Nc : nored_ctx (col t) ctx BLACK).
Context (Hroot : ctx_root (col t) ctx <> Some RED).

(** A red uncle. *)
Lemma stepped_red G ul y ur t' :
  G = T P g u \/ G = T u g P -> tree_is t (plug ctx G) -> bh (col t) (plug ctx G) n ->
  u = T ul y ur -> col t y = RED -> recoloured t p y g t' ->
  stepped ctx (inorder (plug ctx G)) n t' g.
Proof.
  intros HG Ht Hh Eu Hy Hre. pose proof (tree_is_NoDup _ _ Ht) as Hnd.
  rewrite (family_perm ctx l z r p s g u P G HP HG) in Hnd.
  assert (Hperm : inorder u ≡ₚ y :: inorder ul ++ inorder ur)
    by (rewrite Eu; simpl; symmetry; apply Permutation_middle).
  rewrite Hperm in Hnd. simpl in Hnd. rewrite <- !Permutation_middle in Hnd.
  apply NoDup_cons in Hnd as [Dz Hnd]. apply NoDup_cons in Hnd as [Dp Hnd].
  apply NoDup_cons in Hnd as [Dg Hnd]. apply NoDup_cons in Hnd as [Dy _].
  pose proof Hre as (_ & Hnil' & Hkeep & C).
  assert (Hctx : same_on (ctx_ids ctx) (col t) (col t'))
    by (apply (recoloured_same t p y g); [done|clear - Dz Dp Dg Dy; set_solver..]).
  assert (Hg' : col t' g = RED) by (rewrite C; by rewrite decide_True).
  destruct (recolour_shape (col t) (col t') l r s u z p g Hz Hp Hg Nz Ns Rs Nu ul y ur)
    with (P := P) as (N1 & N2 & B1 & B2); [done|done|..|done|].
  { rewrite C, decide_False by set_solver. rewrite decide_True; [done|by left]. }
  { rewrite C, decide_False by set_solver. rewrite decide_True; [done|by right]. }
  { done. }
  { apply (recoloured_same t p y g); [done|clear - Dz Dp Dg Dy; simpl; set_solver..]. }
  left. destruct HG as [-> | ->]; eexists _, _; (split; [|done]); split; try done;
    [by apply Hkeep|by apply (nored_ctx_same (col t))|by rewrite (ctx_root_same (col t))|
     by apply (bh_plug (col t) (col t') ctx (T P g u))|
     by apply Hkeep|by apply (nored_ctx_same (col t))|by rewrite (ctx_root_same (col t))|
     by apply (bh_plug (col t) (col t') ctx (T u g P))].
Qed.

(** A black uncle: the new top [x] is black and the subtree below it is fine. *)
Lemma stepped_black G N t' z' x :
  tree_is t' (plug ctx N) -> settled t z' t' x g -> x ∈ inorder N -> g ∈ inorder N -> x <> g ->
  rootcol (col t') N = col t' x -> inorder N = inorder G ->
  nored (col t') N -> (forall m, bh (col t) G m -> bh (col t') N m) ->
  bh (col t) (plug ctx G) n -> stepped ctx (inorder (plug ctx G)) n t' z'.
Proof.
  intros Ht' [Htu Hpar] Hx Hgn Hne Hroot' Hin HN HB Hh.
  pose proof Htu as (_ & Hnil' & C).
  assert (Hxb : col t' x = BLACK) by (rewrite C, decide_False, decide_True by done; done).
  pose proof (tree_is_NoDup _ _ Ht') as Hnd. rewrite plug_perm in Hnd. apply NoDup_app in Hnd as (_ & Hd & _).
  assert (Hctx : same_on (ctx_ids ctx) (col t) (col t'))
    by (apply (turned_same t x g); [done|intros ?; by apply (Hd x)|intros ?; by apply (Hd g)]).
  right. exists x, (plug ctx N). split; [done|]. split; [rewrite plug_perm; set_solver|].
  split; [done|]. split; [|by rewrite !inorder_plug, Hin]. split; [done|done|..].
  - apply nored_plug. split; [done|]. rewrite Hroot', Hxb. by apply (nored_ctx_same (col t)).
  - by apply (bh_plug (col t) (col t') ctx G).
Qed.

Lemma family_distinct G :
  G = T P g u \/ G = T u g P -> tree_is t (plug ctx G) ->
  NoDup (z :: p :: g :: (inorder l ++ inorder r ++ inorder s ++ inorder u ++ ctx_ids ctx)).
Proof. intros HG Hnd%tree_is_NoDup. by rewrite (family_perm ctx l z r p s g u P G HP HG) in Hnd. Qed.

Lemma stepped_black_left :
  tree_is t (plug ctx (T P g u)) -> rootcol (col t) u = BLACK -> bh (col t) (plug ctx (T P g u)) n ->
  exists t' z', insert_fixup_step ev t z = Ret (t', z') /\ kept_data t t' /\
    stepped ctx (inorder (plug ctx (T P g u))) n t' z'.
Proof.
  intros Ht Hub Hh. pose proof (family_distinct _ (or_introl eq_refl) Ht) as Hnd.
  apply NoDup_cons in Hnd as [Dz Hnd]. apply NoDup_cons in Hnd as [Dp Hnd].
  apply NoDup_cons in Hnd as [Dg _].
  destruct (step_black_left t ctx P g u z p l r s Ht Hnil Hub HP)
    as (t' & z' & x & a & b & cc & Hstep & Hset & Ht' & -> & Hcase).
  exists t', z'. split; [done|]. split; [by apply Hset|]. pose proof (proj1 Hset) as Htu.
  pose proof Htu as (_ & _ & C).
  assert (Hg' : col t' g = RED) by (rewrite C; by rewrite decide_True).
  assert (Hne : x <> g) by (destruct Hcase as [(_ & -> & _)|(_ & -> & _)]; set_solver).
  assert (Hx' : col t' x = BLACK) by (rewrite C, decide_False, decide_True by done; done).
  assert (Hfine : nored (col t') (T a x (T b g u)) /\
    forall m, bh (col t) (T P g u) m -> bh (col t') (T a x (T b g u)) m).
  { destruct Hcase as [(-> & -> & -> & ->)|(-> & -> & -> & ->)].
    - destruct (turn_outer (col t) (col t') l r s u z p g) as (? & ? & ? & ?); try done.
      apply (turned_same t p g); [done|clear - Dz Dp Dg; simpl; set_solver..].
    - destruct (turn_inner (col t) (col t') l r s u z p g) as (? & ? & ? & ?); try done.
      apply (turned_same t z g); [done|clear - Dz Dp Dg; simpl; set_solver..]. }
  apply (stepped_black _ _ t' z' x Ht' Hset); [clear; simpl; set_solver..|done|done| | | |done].
  - destruct Hcase as [(-> & -> & -> & ->)|(-> & -> & -> & ->)]; simpl;
      do 3 (rewrite <- ?app_assoc; simpl); done.
  - apply Hfine.
  - apply Hfine.
Qed.

Lemma stepped_black_right :
  tree_is t (plug ctx (T u g P)) -> rootcol (col t) u = BLACK -> bh (col t) (plug ctx (T u g P)) n ->
  exists t' z', insert_fixup_step ev t z = Ret (t', z') /\ kept_data t t' /\
    stepped ctx (inorder (plug ctx (T u g P))) n t' z'.
Proof.
  intros Ht Hub Hh. pose proof (family_distinct _ (or_intror eq_refl) Ht) as Hnd.
  apply NoDup_cons in Hnd as [Dz Hnd]. apply NoDup_cons in Hnd as [Dp Hnd].
  apply NoDup_cons in Hnd as [Dg _].
  destruct (step_black_right t ctx P g u z p l r s Ht Hnil Hub HP)
    as (t' & z' & x & a & b & cc & Hstep & Hset & Ht' & -> & Hcase).
  exists t', z'. split; [done|]. split; [by apply Hset|]. pose proof (proj1 Hset) as Htu.
  pose proof Htu as (_ & _ & C).
  assert (Hg' : col t' g = RED) by (rewrite C; by rewrite decide_True).
  assert (Hne : x <> g) by (destruct Hcase as [(_ & -> & _)|(_ & -> & _)]; set_solver).
  assert (Hx' : col t' x = BLACK) by (rewrite C, decide_False, decide_True by done; done).
  assert (Hfine : nored (col t') (T (T u g b) x a) /\
    forall m, bh (col t) (T u g P) m -> bh (col t') (T (T u g b) x a) m).
  { destruct Hcase as [(-> & -> & -> & ->)|(-> & -> & -> & ->)].
    - destruct (turn_outer (col t) (col t') l r s u z p g) as (? & ? & ? & ?); try done.
      apply (turned_same t p g); [done|clear - Dz Dp Dg; simpl; set_solver..].
    - destruct (turn_inner (col t) (col t') l r s u z p g) as (? & ? & ? & ?); try done.
      apply (turned_same t z g); [done|clear - Dz Dp Dg; simpl; set_solver..]. }
  apply (stepped_black _ _ t' z' x Ht' Hset); [clear; simpl; set_solver..|done|done| | | |done].
  - destruct Hcase as [(-> & -> & -> & ->)|(-> & -> & -> & ->)]; simpl;
      do 3 (rewrite <- ?app_assoc; simpl); done.
  - apply Hfine.
  - apply Hfine.
Qed.

(** One iteration, whatever the uncle. *)
Lemma step_ok G :
  G = T P g u \/ G = T u g P -> tree_is t (plug ctx G) -> bh (col t) (plug ctx G) n ->
  exists t' z', insert_fixup_step ev t z = Ret (t', z') /\ kept_data t t' /\
    stepped ctx (inorder (plug ctx G)) n t' z'.
Proof.
  intros HG Ht Hh. assert (Hc : child_of P z p) by (exists l, r, s; done).
  destruct (rootcol (col t) u) eqn:Hu.
  - assert (exists ul y ur, u = T ul y ur /\ col t y = RED) as (ul & y & ur & Eu & Hy)
      by (clear - Hu; destruct u; naive_solver).
    assert (exists t', insert_fixup_step ev t z = Ret (t', g) /\ recoloured t p y g t')
      as (t' & Hstep & Hre).
    { rewrite Eu in HG. destruct HG as [-> | ->];
        [by apply (step_red_left t ctx P g ul y ur z p)|by apply (step_red_right t ctx P g ul y ur z p)]. }
    exists t', g. split; [done|]. split; [by apply Hre|].
    by apply (stepped_red G ul y ur t').
  - destruct HG as [-> | ->]; [by apply stepped_black_left|by apply stepped_black_right].
Qed.

End step.

(** The loop stops below a black parent. *)
Lemma loop_exit t z x fuel :
  get_parent t z = Ret x -> is_color t x RED = Ret false ->
  insert_fixup_loop ev (S fuel) t z = Ret t.
Proof. intros Hp Hc. simpl. rewrite Hp. simpl. by rewrite Hc. Qed.

Lemma is_color_in t sh x d :
  tree_is t sh -> x ∈ inorder sh -> is_color t x d = Ret (bool_decide (col t x = d)).
Proof.
  intros Hr%tree_is_repr Hx. destruct (proj1 (elem_of_dom _ _) (repr_dom _ _ _ _ _ Hr x Hx)) as [n Hn].
  unfold is_color, get_color, col. by rewrite (rd_at _ _ _ Hn), Hn.
Qed.

(** The frames above a red parent. *)
Lemma ready_family t z f ctx l r n p :
  ready t z (f :: ctx) l r n -> (exists s, f = LeftOf p s \/ f = RightOf s p) -> col t p = RED ->
  exists P s u g ctx' G, plug (f :: ctx) (T l z r) = plug ctx' G /\
    (P = T (T l z r) p s \/ P = T s p (T l z r)) /\ (G = T P g u \/ G = T u g P) /\
    length (f :: ctx) = S (S (length ctx')) /\ col t g = BLACK /\
    nored (col t) s /\ rootcol (col t) s = BLACK /\ nored (col t) u /\
    nored_ctx (col t) ctx' BLACK /\ ctx_root (col t) ctx' <> Some RED.
Proof.
  intros [_ _ _ _ Ha Hr _] [s Hf] Hp.
  assert (Hs : nored (col t) s /\ rootcol (col t) s = BLACK /\ nored_ctx (col t) ctx RED)
    by (destruct Hf as [-> | ->]; simpl in Ha; rewrite Hp in Ha; naive_solver).
  destruct Hs as (Ns & Rs & Hc). destruct ctx as [|h ctx'].
  { exfalso. apply Hr. destruct Hf as [-> | ->]; simpl; by rewrite Hp. }
  assert (exists g u, h = LeftOf g u \/ h = RightOf u g) as (g & u & Hh) by (destruct h; eauto).
  assert (Hu : nored (col t) u /\ col t g = BLACK /\ nored_ctx (col t) ctx' BLACK)
    by (destruct Hh as [-> | ->]; simpl in Hc; destruct (col t g) eqn:Hg; naive_solver).
  destruct Hu as (Nu & Hg & Nc).
  assert (Hr' : ctx_root (col t) ctx' <> Some RED).
  { intros E. apply Hr. destruct Hf as [-> | ->], Hh as [-> | ->]; simpl; by rewrite E. }
  destruct Hf as [-> | ->], Hh as [-> | ->]; eexists _, s, u, g, ctx', _;
    (split; [reflexivity|]); (split; [by (left + right)|]); (split; [by (left + right)|]); done.
Qed.

Lemma loop_ok fuel : forall t z ctx l r n,
  ready t z ctx l r n -> (length ctx < fuel)%nat ->
  exists t' sh, insert_fixup_loop ev fuel t z = Ret t' /\ kept_data t t' /\
    balanced t' sh n /\ inorder sh = inorder (plug ctx (T l z r)).
Proof.
  induction fuel as [|fuel IH]; intros t z ctx l r n Hrd Hf; [lia|].
  destruct ctx as [|f ctx].
  - exists t, (T l z r). destruct Hrd as [Ht Hb Hz Nz _ _ Hh]. simpl in *.
    split; [|split; [apply kept_data_refl|split; [by split|done]]].
    destruct Ht as [[(_ & _ & m & Hm & Hpm & _) _] _]. apply (loop_exit t z (nil t)).
    + unfold get_parent. rewrite (rd_at _ _ _ Hm). simpl. by rewrite Hpm.
    + by rewrite (is_color_root t (nil t) (nil t) E).
  - assert (exists p s, f = LeftOf p s \/ f = RightOf s p) as (p & s & Hfr) by (destruct f; eauto).
    assert (Hpar : get_parent t z = Ret p /\ p ∈ inorder (plug (f :: ctx) (T l z r))).
    { pose proof (r_tree _ _ _ _ _ _ Hrd) as Ht. rewrite plug_perm. unfold ctx_ids.
      destruct Hfr as [-> | ->]; simpl in *; (split; [|set_solver]);
        [by apply (parent_left t ctx l z r p s)|by apply (parent_right t ctx l z r p s)]. }
    destruct Hpar as [Hpar Hin].
    pose proof (is_color_in _ _ p RED (r_tree _ _ _ _ _ _ Hrd) Hin) as Hred.
    destruct (col t p) eqn:Hcp.
    + destruct (ready_family t z f ctx l r n p Hrd) as
        (P & s' & u & g & ctx' & G & Eq & HP & HG & Hlen & Hg & Ns & Rs & Nu & Nc & Hr'); [by exists s|done|].
      destruct Hrd as [Ht Hb Hz Nz _ _ Hh]. rewrite Eq in *.
      destruct (step_ok t ctx' P l r s' u z p g n HP Hb Hz Hcp Hg Nz Ns Rs Nu Nc Hr' G HG Ht Hh)
        as (t1 & z1 & Hstep & K1 & Hst).
      simpl. rewrite Hpar. simpl. rewrite Hred. simpl. rewrite Hstep. simpl.
      destruct Hst as [(l1 & r1 & Hrd1 & Hin1)|(x & sh & Hx & Hxin & Hxc & Hbal & Hin1)].
      * destruct (IH t1 z1 ctx' l1 r1 n Hrd1) as (t' & sh & Hl & K' & Hbal & Hsh); [lia|].
        exists t', sh. split; [done|]. split; [by eapply kept_data_trans|]. split; [done|congruence].
      * exists t1, sh. destruct fuel as [|fuel]; [lia|]. split; [|done].
        apply (loop_exit t1 z1 x); [done|]. rewrite (is_color_in t1 sh x RED (b_tree _ _ _ Hbal) Hxin).
        by rewrite Hxc.
    + exists t, (plug (f :: ctx) (T l z r)). split; [by apply (loop_exit t z p)|].
      split; [apply kept_data_refl|]. destruct Hrd as [Ht Hb Hz Nz Ha _ Hh].
      split; [|done]. split; try done. apply nored_plug. split; [done|].
      destruct Hfr as [-> | ->]; simpl in *; rewrite Hcp in *; naive_solver.
Qed.

(** ** The whole repair *)

Lemma ctx_length ctx : (length ctx <= length (ctx_ids ctx))%nat.
Proof.
  unfold ctx_ids. induction ctx as [|[x r|l x] ctx IH]; simpl in *; rewrite ?length_app in *; simpl;
    rewrite ?length_app; simpl; lia.
Qed.

(** Painting the root black adds at most one to the black height. *)
Lemma blacken_root t sh n :
  balanced t sh n -> sh <> E ->
  exists t' m, wr t (root t) (put_color BLACK) = Ret t' /\ kept_data t t' /\ balanced t' sh m /\
    rootcol (col t') sh = BLACK /\ (m = n \/ m = S n).
Proof.
  intros [Ht Hb Hr Hh] Hne. destruct sh as [|l x r]; [done|]. pose proof Ht as [[(-> & _) Hnd] _].
  destruct (paint t _ x BLACK Ht Hb) as (t' & Hw & (K & C & _) & Ht' & Hb'); [simpl; set_solver|].
  assert (Hx' : col t' x = BLACK) by (rewrite C; by rewrite decide_True).
  simpl in Hnd. apply NoDup_app in Hnd as (_ & Hd & [Hdr _]%NoDup_cons).
  assert (Sl : same_on (inorder l) (col t) (col t')).
  { intros y Hy. rewrite C, decide_False; [done|]. intros ->. apply (Hd x Hy). set_solver. }
  assert (Sr : same_on (inorder r) (col t) (col t')).
  { intros y Hy. rewrite C, decide_False; [done|]. by intros ->. }
  destruct Hr as (_ & Hl & Hr).
  assert (N' : nored (col t') (T l x r)) by (apply nored_black; [done|by apply (nored_same (col t))..]).
  destruct (col t x) eqn:Hx.
  - apply bh_red in Hh as [H1 H2]; [|done]. exists t', (S n).
    split; [done|]. split; [done|]. split; [|split; [done|by right]]. split; try done.
    apply bh_black; [done|]. exists n. split; [done|]. split; by apply (bh_same (col t)).
  - apply bh_black in Hh as (m & -> & H1 & H2); [|done]. exists t', (S m).
    split; [done|]. split; [done|]. split; [|split; [done|by left]]. split; try done.
    apply bh_black; [done|]. exists m. split; [done|]. split; by apply (bh_same (col t)).
Qed.

Lemma insert_fixup_ok t z ctx l r n :
  ready t z ctx l r n ->
  exists t' sh m, insert_fixup ev t z = Ret t' /\ kept_data t t' /\ balanced t' sh m /\
    rootcol (col t') sh = BLACK /\ inorder sh = inorder (plug ctx (T l z r)) /\ (m = n \/ m = S n).
Proof.
  intros Hrd. unfold insert_fixup.
  destruct (loop_ok (walk_fuel t) t z ctx l r n Hrd) as (t1 & sh & -> & K1 & Hbal & Hin).
  { pose proof (tree_is_length _ _ (r_tree _ _ _ _ _ _ Hrd)) as Hlen. rewrite plug_perm, length_app in Hlen.
    pose proof (ctx_length ctx). unfold walk_fuel. lia. }
  destruct (blacken_root t1 sh n Hbal) as (t2 & m & Hw & K2 & Hbal' & Hroot & Hm).
  { intros ->. symmetry in Hin. rewrite inorder_plug in Hin. simpl in Hin.
    by apply app_eq_nil in Hin as [_ [[_ ?]%app_eq_nil _]%app_eq_nil]. }
  simpl. rewrite Hw. exists t2, sh, m. split; [done|]. split; [by eapply kept_data_trans|]. done.
Qed.
End rb.
