(* ===== verification/RbAdd.v ===== *)
(** * lib/rb_tree.c: insertion

    The invariant of a whole tree, links, colours, order and thread, and that
    rb_tree_insert keeps it: the search for the parent, the linking of the
    node, its place in the thread and the repair, one after the other. *)

From S2P Require Import Prelude.
From stdpp Require Import list gmap sorting.
From S2P Require Import RbTree RbEvents RbInsert.
Local Open Scope Z_scope.

(** ** The place of a key *)

(** The parent of the hole of a context. *)
Definition ctx_top (nl : nat) (ctx : list frame) : nat :=
  match ctx with [] => nl | (LeftOf x _ | RightOf _ x) :: _ => x end.

(** A key [k] goes into the hole of [ctx]. *)
Definition fits_at (t : rb_tree_t) (ctx : list frame) (k : Z) : Prop :=
  Forall (fun x => key_at t x <= k) (ctx_before ctx) /\ Forall (fun x => k < key_at t x) (ctx_after ctx).

Lemma key_at_Some t x n : store_of t !! x = Some n -> key_at t x = key n.
Proof. unfold key_at. by intros ->. Qed.

Lemma find_parent_ok t k sh : forall ctx h fuel,
  repr (store_of t) (nil t) (ctx_top (nil t) ctx) h sh -> ascending (store_of t) (inorder sh) ->
  (length (inorder sh) < fuel)%nat -> fits_at t ctx k ->
  exists ctx', plug ctx' E = plug ctx sh /\ fits_at t ctx' k /\
    find_parent fuel t h (ctx_top (nil t) ctx) k = Ret (ctx_top (nil t) ctx').
Proof.
  induction sh as [|l IHl y r IHr]; intros ctx h fuel Hr Hs Hf Hk;
    (destruct fuel as [|fuel]; [lia|]); simpl in Hr, Hs, Hf |- *.
  - subst h. rewrite Nat.eqb_refl. by exists ctx.
  - destruct Hr as (-> & Hy & n & Hn & _ & Hl & Hr). rewrite (proj2 (Nat.eqb_neq _ _)) by done.
    rewrite (rd_at _ _ _ Hn). simpl. rewrite length_app in Hf. simpl in Hf.
    apply StronglySorted_app in Hs as (Hlr & Hsl & Hsr).
    apply StronglySorted_cons in Hsr as [Hyr Hsr]. destruct Hk as [Hb Ha].
    pose proof (key_at_Some _ _ _ Hn) as Eky.
    destruct (Z.ltb_spec k (key n)) as [Hlt|Hge].
    + destruct (IHl (LeftOf y r :: ctx) (left n) fuel) as (ctx' & Hp & Hk' & Hfp); [done|done|lia|..].
      * split; [done|]. simpl. apply Forall_cons. split; [lia|]. apply Forall_app. split; [|done].
        rewrite Forall_forall in Hyr |- *. intros x Hx.
        destruct (proj1 (elem_of_dom _ _) (repr_dom _ _ _ _ _ Hr x Hx)) as [m Hm].
        rewrite (key_at_Some _ _ _ Hm). specialize (Hyr x Hx n m Hn Hm). lia.
      * by exists ctx'.
    + destruct (IHr (RightOf l y :: ctx) (right n) fuel) as (ctx' & Hp & Hk' & Hfp); [done|done|lia|..].
      * split; [|done]. simpl. rewrite !Forall_app, Forall_singleton. split; [done|].
        split; [|lia]. rewrite Forall_forall. intros x Hx.
        destruct (proj1 (elem_of_dom _ _) (repr_dom _ _ _ _ _ Hl x Hx)) as [m Hm].
        rewrite (key_at_Some _ _ _ Hm).
        assert (key m <= key n) by (apply (Hlr x y); set_solver || done). lia.
      * by exists ctx'.
Qed.

(** ** Linking the node *)

Lemma wr_at t x f n :
  store_of t !! x = Some n -> wr t x f = Ret (with_store t (<[x := f n]> (store_of t))).
Proof. intros Hn. unfold wr. by rewrite (rd_at _ _ _ Hn). Qed.

(** The new leaf: red, below [y], without children. *)
Definition leaf (t : rb_tree_t) (y : nat) (nz : rb_node_t) : rb_node_t :=
  put_right (nil t) (put_left (nil t) (put_color RED (put_parent y nz))).

(** The last three writes of link_child. *)
Lemma link_tail t z nz y n :
  store_of t !! z = Some n -> n = put_parent y nz ->
  (t ← wr t z (put_color RED); t ← wr t z (put_left (nil t)); wr t z (put_right (nil t))) =
  Ret (with_store t (<[z := leaf t y nz]> (store_of t))).
Proof.
  intros Hn ->. rewrite (wr_at _ _ _ _ Hn). simpl. erewrite wr_at by apply lookup_insert_eq. simpl.
  erewrite wr_at by apply lookup_insert_eq. unfold with_store. simpl. by rewrite !insert_insert_eq.
Qed.

(** What the node [y] above the leaf becomes. *)
Definition adopt (z : nat) (ctx : list frame) (n : rb_node_t) : rb_node_t :=
  match ctx with [] => n | LeftOf _ _ :: _ => put_left z n | RightOf _ _ :: _ => put_right z n end.

Definition linked (t : rb_tree_t) (z : nat) (nz : rb_node_t) (ctx : list frame) : rb_tree_t :=
  let y := ctx_top (nil t) ctx in
  with_root (with_store t (<[z := leaf t y nz]> (alter (adopt z ctx) y (store_of t))))
    (match ctx with [] => z | _ => root t end).

Lemma link_child_linked t z nz ctx :
  shaped t (plug ctx E) -> store_of t !! z = Some nz -> z <> nil t -> z ∉ ctx_ids ctx ->
  fits_at t ctx (key nz) -> link_child t z (ctx_top (nil t) ctx) = Ret (linked t z nz ctx).
Proof.
  intros Ht Hz Hzn Hzc [Hb Ha]. destruct ctx as [|f ctx].
  - unfold link_child. rewrite (wr_at _ _ _ _ Hz). simpl. rewrite Nat.eqb_refl. simpl.
    rewrite (link_tail (with_root (with_store t (<[z:=put_parent (nil t) nz]> (store_of t))) z) z nz
      (nil t) (put_parent (nil t) nz)); [|apply lookup_insert_eq|done].
    unfold linked, with_store, with_root. simpl. rewrite insert_insert_eq.
    by rewrite (alter_id (adopt z [])).
  - destruct Ht as [Hr _]. apply repr_plug in Hr as (h & p & Hc & _).
    assert (exists y ny, ctx_top (nil t) (f :: ctx) = y /\ y <> nil t /\ y <> z /\
      store_of t !! y = Some ny) as (y & ny & Ey & Hyn & Hyz & Hy).
    { unfold ctx_ids in Hzc. destruct f; simpl in *; destruct Hc as (_ & ? & ny & ? & _); eexists _, ny;
        (split; [done|]); (split; [done|]); (split; [set_solver|done]). }
    assert (Hlt : (key nz <? key ny) = match f with LeftOf _ _ => true | _ => false end).
    { rewrite <- (key_at_Some _ _ _ Hy). destruct f as [x r|l x]; simpl in *; subst x.
      - apply Z.ltb_lt. by apply Forall_cons in Ha as [? _].
      - apply Z.ltb_ge. rewrite !Forall_app, Forall_singleton in Hb. tauto. }
    unfold linked. rewrite Ey. unfold link_child. rewrite (wr_at _ _ _ _ Hz). cbn -[adopt].
    rewrite (proj2 (Nat.eqb_neq _ _)) by done. set (t1 := with_store t _).
    rewrite (rd_at t1 z (put_parent y nz)) by apply lookup_insert_eq.
    assert (Hy1 : store_of t1 !! y = Some ny) by (simpl; by rewrite lookup_insert_ne).
    rewrite (rd_at t1 y ny Hy1). simpl. rewrite Hlt.
    assert (Hf : (if match f with LeftOf _ _ => true | _ => false end
                  then wr t1 y (put_left z) else wr t1 y (put_right z)) =
                 Ret (with_store t1 (<[y := adopt z (f :: ctx) ny]> (store_of t1))))
      by (destruct f; by rewrite (wr_at _ _ _ _ Hy1)).
    rewrite Hf. simpl.
    rewrite (link_tail _ z nz y (put_parent y nz));
      [|simpl; rewrite lookup_insert_ne by congruence; apply lookup_insert_eq|done].
    unfold with_root, with_store, leaf. simpl.
    rewrite (insert_insert_ne _ z y), insert_insert_eq, (insert_insert_ne _ y z) by congruence.
    do 3 f_equal. apply map_eq. intros x. destruct (decide (x = y)) as [->|Hx].
    + by rewrite lookup_insert_eq, lookup_alter_eq, Hy.
    + by rewrite lookup_insert_ne, lookup_alter_ne by done.
Qed.

Lemma linked_kept t z nz ctx :
  store_of t !! z = Some nz -> kept_data t (linked t z nz ctx).
Proof.
  intros Hz. do 5 (split; [done|]). intros x. simpl. destruct (decide (x = z)) as [->|Hx].
  - by rewrite lookup_insert_eq, Hz.
  - rewrite lookup_insert_ne by congruence. destruct (decide (ctx_top (nil t) ctx = x)) as [<-|?];
      [rewrite lookup_alter_eq|by rewrite lookup_alter_ne].
    destruct (store_of t !! ctx_top (nil t) ctx) as [n|]; [|done]. by destruct ctx as [|[]].
Qed.

Lemma linked_col t z nz ctx x :
  col (linked t z nz ctx) x = if decide (x = z) then RED else col t x.
Proof.
  unfold col. simpl. case_decide as Hx; [subst; by rewrite lookup_insert_eq|].
  rewrite lookup_insert_ne by congruence. destruct (decide (ctx_top (nil t) ctx = x)) as [<-|?];
    [rewrite lookup_alter_eq|by rewrite lookup_alter_ne].
  destruct (store_of t !! ctx_top (nil t) ctx) as [n|]; [|done]. by destruct ctx as [|[]].
Qed.

Lemma linked_tree t z nz ctx :
  shaped t (plug ctx E) -> z <> nil t -> z ∉ ctx_ids ctx ->
  shaped (linked t z nz ctx) (plug ctx (T E z E)).
Proof.
  intros [Hr Hnd] Hzn Hzc. split.
  - apply repr_plug in Hr as (h & p & Hc & Hh). apply repr_plug. exists z, (ctx_top (nil t) ctx).
    split.
    + rewrite plug_perm in Hnd. apply NoDup_app in Hnd as (Hnd & _).
      destruct ctx as [|f ctx]; [done|]. unfold ctx_ids in *.
      destruct f as [y r|l y]; cbn [crepr ctx_top] in *; destruct Hc as (-> & Hy & n & Hn & _ & Hs & Hc);
        (split; [done|]); (split; [done|]).
      * exists (put_left z n). simpl in *. rewrite lookup_insert_ne, lookup_alter_eq, Hn by set_solver.
        split; [done|]. split; [done|].
        assert (Hd : y ∉ ctx_before ctx ++ inorder r ++ ctx_after ctx)
          by (rewrite <- Permutation_middle in Hnd; by apply NoDup_cons in Hnd as [? _]).
        split; [apply (repr_frame (store_of t))|apply (crepr_frame (store_of t))]; try done; intros x Hx;
          unfold same_links; rewrite lookup_insert_ne, lookup_alter_ne by (clear - Hd Hx Hzc; set_solver); done.
      * exists (put_right z n). simpl in *. rewrite lookup_insert_ne, lookup_alter_eq, Hn by set_solver.
        split; [done|]. split; [done|].
        assert (Hd : y ∉ ctx_before ctx ++ inorder l ++ ctx_after ctx).
        { assert (Hp : (ctx_before ctx ++ inorder l ++ [y]) ++ ctx_after ctx ≡ₚ
            y :: ctx_before ctx ++ inorder l ++ ctx_after ctx)
            by (rewrite <- !app_assoc; simpl; by rewrite <- !Permutation_middle).
          rewrite Hp in Hnd. by apply NoDup_cons in Hnd as [? _]. }
        split; [apply (repr_frame (store_of t))|apply (crepr_frame (store_of t))]; try done; intros x Hx;
          unfold same_links; rewrite lookup_insert_ne, lookup_alter_ne by (clear - Hd Hx Hzc; set_solver); done.
    + simpl. split; [done|]. split; [done|]. eexists. rewrite lookup_insert_eq. split; [done|]. done.
  - rewrite plug_perm in *. simpl. rewrite app_nil_r in Hnd. rewrite Permutation_app_comm. simpl.
    by apply NoDup_cons.
Qed.

(** ** The thread *)

Definition first_of (d : nat) (l : list nat) : nat := default d (head l).
Definition last_of (d : nat) (l : list nat) : nat := default d (last l).

(** The nodes [l] in a doubly linked segment from [p] to [q]. *)
Fixpoint chain (s : gmap nat rb_node_t) (p : nat) (l : list nat) (q : nat) : Prop :=
  match l with
  | [] => True
  | x :: l' => exists n, s !! x = Some n /\ prev n = p /\ next n = first_of q l' /\ chain s x l' q
  end.

Lemma last_of_cons d x l : last_of d (x :: l) = last_of x l.
Proof. unfold last_of. rewrite last_cons. by destruct (last l). Qed.

Lemma first_of_app d a b : first_of d (a ++ b) = first_of (first_of d b) a.
Proof. by destruct a. Qed.

Lemma first_of_in d l : l <> [] -> first_of d l ∈ l.
Proof. destruct l; [done|]. intros _. unfold first_of. simpl. set_solver. Qed.

Lemma last_of_in d l : l <> [] -> last_of d l ∈ l.
Proof.
  induction l as [|x l IH] in d |- *; [done|]. intros _. rewrite last_of_cons. destruct l; [|].
  - unfold last_of. simpl. set_solver.
  - apply list_elem_of_further. by apply IH.
Qed.

Lemma chain_app s a : forall p b q,
  chain s p (a ++ b) q <-> chain s p a (first_of q b) /\ chain s (last_of p a) b q.
Proof.
  induction a as [|x a IH]; intros p b q; simpl; [unfold last_of; simpl; tauto|].
  rewrite last_of_cons, first_of_app. setoid_rewrite IH. naive_solver.
Qed.

Lemma chain_Some s p l q x : chain s p l q -> x ∈ l -> exists n, s !! x = Some n.
Proof.
  induction l as [|y l IH] in p |- *; simpl; [set_solver|].
  intros (n & Hn & _ & _ & Hl) [->|Hx]%elem_of_cons; eauto.
Qed.

(** Only the thread pointers of the nodes in the segment matter. *)
Lemma chain_frame s s' l : forall p q,
  (forall x, x ∈ l -> (fun n => (next n, prev n)) <$> s' !! x = (fun n => (next n, prev n)) <$> s !! x) ->
  chain s p l q -> chain s' p l q.
Proof.
  induction l as [|x l IH]; intros p q Hs; simpl; [done|]. intros (n & Hn & <- & Hq & Hl).
  pose proof (Hs x ltac:(set_solver)) as Hx. rewrite Hn in Hx.
  destruct (s' !! x) as [n'|]; [|done]. injection Hx as En Ep. exists n'.
  rewrite En, Ep. split; [done|]. split; [done|]. split; [done|]. apply IH; [set_solver|done].
Qed.

(** The store after [z] went between [a] and [b]. *)
Record spliced (s s' : gmap nat rb_node_t) (nl : nat) (a : list nat) (z : nat) (b : list nat) : Prop :=
  mk_spliced {
  sp_z : exists n, s' !! z = Some n /\ next n = first_of nl b /\ prev n = last_of nl a;
  sp_next : forall x, x <> z -> next <$> s' !! x = (if decide (last a = Some x) then (fun _ => z) else next) <$> s !! x;
  sp_prev : forall x, x <> z -> prev <$> s' !! x = (if decide (head b = Some x) then (fun _ => z) else prev) <$> s !! x
}.

Lemma chain_retarget s s' z a : forall p q,
  (forall x, x ∈ a -> prev <$> s' !! x = prev <$> s !! x) ->
  (forall x, x ∈ a ->
    next <$> s' !! x = (if decide (last a = Some x) then (fun _ => z) else next) <$> s !! x) ->
  NoDup a -> chain s p a q -> chain s' p a z.
Proof.
  induction a as [|x a IH]; intros p q Hp Hn Hnd; simpl; [done|]. intros (n & Hx & <- & Hq & Ha).
  apply NoDup_cons in Hnd as [Hxa Hnd].
  pose proof (Hp x ltac:(set_solver)) as Epx. pose proof (Hn x ltac:(set_solver)) as Enx.
  rewrite Hx in Epx, Enx. destruct (s' !! x) as [n'|] eqn:Hx'; [|done].
  injection Epx as Epx. injection Enx as Enx. exists n'. split; [done|]. split; [done|].
  destruct a as [|y a].
  - rewrite decide_True in Enx by done. by split.
  - assert (Hlast : last (x :: y :: a) <> Some x).
    { rewrite last_cons_cons. intros E. apply Hxa. apply last_Some_elem_of in E. done. }
    rewrite decide_False in Enx by done. split; [by rewrite Enx|].
    apply (IH x q); [set_solver| |done|done]. intros w Hw. rewrite (Hn w) by set_solver.
    by rewrite last_cons_cons.
Qed.

Lemma chain_spliced s s' nl a z b :
  spliced s s' nl a z b -> NoDup (a ++ b) -> z ∉ a ++ b -> chain s nl (a ++ b) nl ->
  chain s' nl (a ++ z :: b) nl.
Proof.
  intros [(n & Hz & En & Ep) Hnext Hprev] (Hna & Hab & Hnb)%NoDup_app Hzn (Ha & Hb)%chain_app.
  apply chain_app. split.
  - apply (chain_retarget s s' z a nl (first_of nl b)); [|intros x Hx; apply Hnext; set_solver|done|done].
    intros x Hx. rewrite Hprev by set_solver. rewrite decide_False; [done|].
    intros E. apply (Hab x Hx). by apply head_Some_elem_of.
  - simpl. exists n. split; [done|]. split; [done|]. split; [done|].
    destruct b as [|y b]; simpl in *; [done|]. destruct Hb as (m & Hm & _ & Hq & Hb).
    apply NoDup_cons in Hnb as [Hyb _].
    pose proof (Hnext y ltac:(set_solver)) as En'. pose proof (Hprev y ltac:(set_solver)) as Ep'.
    rewrite Hm in En', Ep'. rewrite decide_True in Ep' by done.
    rewrite decide_False in En'; [|intros E; apply (Hab y); [by apply last_Some_elem_of|set_solver]].
    destruct (s' !! y) as [m'|]; [|done]. injection En' as En'. injection Ep' as Ep'.
    exists m'. rewrite En'. split; [done|]. split; [done|]. split; [done|].
    apply (chain_frame s); [|done]. intros x Hx.
    pose proof (Hnext x ltac:(set_solver)) as E1. pose proof (Hprev x ltac:(set_solver)) as E2.
    rewrite decide_False in E1; [|intros E; apply (Hab x); [by apply last_Some_elem_of|set_solver]].
    rewrite decide_False in E2 by congruence.
    destruct (s' !! x), (s !! x); simpl in *; congruence.
Qed.

(** The walk along the thread. *)
Lemma find_thread_ok t k b : forall a p fuel,
  chain (store_of t) p (a ++ b) (nil t) -> nil t ∉ a ++ b ->
  Forall (fun x => key_at t x < k) a -> (forall x, head b = Some x -> k <= key_at t x) ->
  (length a < fuel)%nat ->
  find_thread fuel t (first_of (nil t) (a ++ b)) k = Ret (first_of (nil t) b).
Proof.
  induction a as [|x a IH]; intros p fuel Hs Hnil Ha Hb Hf; (destruct fuel as [|fuel]; [simpl in *; lia|]).
  - simpl in *. destruct b as [|y b]; unfold first_of; simpl; [by rewrite Nat.eqb_refl|].
    rewrite (proj2 (Nat.eqb_neq _ _)) by set_solver. destruct Hs as (n & Hn & _).
    rewrite (rd_at _ _ _ Hn). simpl. specialize (Hb y eq_refl). rewrite (key_at_Some _ _ _ Hn) in Hb.
    by rewrite (proj2 (Z.ltb_ge _ _)).
  - simpl in Hs, Hf |- *. change (first_of (nil t) (x :: a ++ b)) with x.
    rewrite (proj2 (Nat.eqb_neq _ _)) by set_solver. destruct Hs as (n & Hn & _ & Hnx & Hs).
    apply Forall_cons in Ha as [Hx Ha]. rewrite (rd_at _ _ _ Hn). simpl.
    rewrite (key_at_Some _ _ _ Hn) in Hx. rewrite (proj2 (Z.ltb_lt _ _)) by done. rewrite Hnx.
    apply (IH x); [done|set_solver|done|done|lia].
Qed.

#[local] Arguments find_thread : simpl never.
#[local] Arguments find_parent : simpl never.

(** What threading keeps: everything but the thread pointers. *)
Definition kept_links (t t' : rb_tree_t) : Prop :=
  root t' = root t /\ nil t' = nil t /\ nodes t' = nodes t /\ fresh t' = fresh t /\ objs t' = objs t /\
  forall x, (fun n => (key n, data n, color n, left n, right n, parent n)) <$> store_of t' !! x =
            (fun n => (key n, data n, color n, left n, right n, parent n)) <$> store_of t !! x.

Lemma kept_links_refl t : kept_links t t.
Proof. by split_and!. Qed.

Lemma kept_links_trans a b c : kept_links a b -> kept_links b c -> kept_links a c.
Proof.
  intros (A1 & A2 & A3 & A4 & A5 & A6) (B1 & B2 & B3 & B4 & B5 & B6). split_and!; congruence.
Qed.

Lemma wr_thread t x f n :
  store_of t !! x = Some n -> (exists v, f = put_next v \/ f = put_prev v) ->
  exists t', wr t x f = Ret t' /\ kept_links t t' /\ min t' = min t /\ max t' = max t /\
    store_of t' = <[x := f n]> (store_of t).
Proof.
  intros Hn (v & Hf). rewrite (wr_at _ _ _ _ Hn). eexists. split; [done|]. split; [|done].
  do 5 (split; [done|]). intros y. simpl. destruct (decide (y = x)) as [->|Hy].
  - rewrite lookup_insert_eq, Hn. by destruct Hf as [-> | ->].
  - by rewrite lookup_insert_ne.
Qed.

(** The ends of the thread after [z] went between [a] and [b]. *)
Definition threads (t t' : rb_tree_t) (a : list nat) (z : nat) (b : list nat) : Prop :=
  kept_links t t' /\ spliced (store_of t) (store_of t') (nil t) a z b /\
  min t' = first_of (nil t) (a ++ z :: b) /\ max t' = last_of (nil t) (a ++ z :: b).

Section threading.
Context (t : rb_tree_t) (z : nat) (nz : rb_node_t) (Hz : store_of t !! z = Some nz).

Lemma thread_first :
  nodes t = 0 -> exists t', thread_node t z = Ret t' /\ threads t t' [] z [].
Proof.
  intros Hn. unfold thread_node. rewrite Hn. simpl.
  destruct (wr_thread t z (put_prev (nil t)) nz Hz) as (t1 & -> & K1 & _ & _ & S1); [eauto|]. simpl.
  destruct (wr_thread t1 z (put_next (nil t1)) (put_prev (nil t) nz)) as (t2 & -> & K2 & _ & _ & S2);
    [by rewrite S1, lookup_insert_eq|eauto|]. simpl.
  eexists. split; [done|]. split; [exact (kept_links_trans _ _ _ K1 K2)|]. split; [|done].
  simpl. rewrite S2, S1, insert_insert_eq. destruct K1 as (_ & -> & _). split.
  - eexists. rewrite lookup_insert_eq. by split.
  - intros x Hx. simpl. by rewrite lookup_insert_ne by congruence.
  - intros x Hx. simpl. by rewrite lookup_insert_ne by congruence.
Qed.

Context (a b : list nat) (Hseg : chain (store_of t) (nil t) (a ++ b) (nil t)).
Context (Hnil : nil t ∉ a ++ b) (Hza : z ∉ a ++ b) (Hnd : NoDup (a ++ b)).
Context (Hmin : min t = first_of (nil t) (a ++ b)) (Hmax : max t = last_of (nil t) (a ++ b)).
Context (Ha : Forall (fun x => key_at t x < key nz) a).
Context (Hb : forall x, head b = Some x -> key nz <= key_at t x).
Context (Hlen : (length (a ++ b) <= size (store_of t))%nat) (Hnodes : nodes t <> 0).

Lemma thread_find :
  find_thread (walk_fuel t) t (min t) (key nz) = Ret (first_of (nil t) b).
Proof.
  rewrite Hmin. rewrite length_app in Hlen. apply (find_thread_ok t (key nz) b a (nil t)); try done.
  unfold walk_fuel. lia.
Qed.

Lemma thread_end :
  b = [] -> a <> [] -> exists t', thread_node t z = Ret t' /\ threads t t' a z b.
Proof.
  intros Eb Hne. unfold thread_node. rewrite (proj2 (Z.eqb_neq _ _)) by done.
  rewrite (rd_at _ _ _ Hz). simpl. rewrite thread_find. simpl. rewrite Eb in *. rewrite app_nil_r in *.
  unfold first_of at 1. simpl. rewrite Nat.eqb_refl.
  assert (Hla : last a = Some (max t)) by (rewrite Hmax; unfold last_of; by destruct (last a) eqn:E;
    [|apply last_None in E]).
  assert (Hin : max t ∈ a) by (by apply last_Some_elem_of).
  destruct (chain_Some _ _ _ _ _ Hseg Hin) as [na Hna].
  assert (Hne' : max t <> z) by set_solver.
  destruct (wr_thread t z (put_prev (max t)) nz Hz) as (t1 & -> & K1 & N1 & M1 & S1); [eauto|]. simpl.
  destruct (wr_thread t1 z (put_next (nil t1)) (put_prev (max t) nz)) as (t2 & -> & K2 & N2 & M2 & S2);
    [by rewrite S1, lookup_insert_eq|eauto|]. simpl. rewrite M2, M1.
  destruct (wr_thread t2 (max t) (put_next z) na) as (t3 & -> & K3 & N3 & M3 & S3);
    [by rewrite S2, S1, !lookup_insert_ne by done|eauto|]. simpl.
  eexists. split; [done|]. split; [exact (kept_links_trans _ _ _ K1 (kept_links_trans _ _ _ K2 K3))|].
  split; [|split; simpl].
  - simpl. rewrite S3, S2, S1, insert_insert_eq. destruct K1 as (_ & -> & _). split.
    + eexists. rewrite lookup_insert_ne, lookup_insert_eq by done. split; [done|].
      split; [done|]. unfold last_of. by rewrite Hla.
    + intros x Hx. rewrite Hla. case_decide as Ex.
      * injection Ex as <-. by rewrite lookup_insert_eq, Hna.
      * by rewrite !lookup_insert_ne by congruence.
    + intros x Hx. rewrite decide_False by done. destruct (decide (x = max t)) as [->|Ex].
      * by rewrite lookup_insert_eq, Hna.
      * by rewrite !lookup_insert_ne by congruence.
  - rewrite N3, N2. rewrite first_of_app. destruct a; [done|]. unfold first_of in *. simpl in *. congruence.
  - unfold last_of. by rewrite last_snoc.
Qed.

Lemma thread_begin :
  b <> [] -> a = [] -> exists t', thread_node t z = Ret t' /\ threads t t' a z b.
Proof.
  intros Hne Ea. unfold thread_node. rewrite (proj2 (Z.eqb_neq _ _)) by done.
  rewrite (rd_at _ _ _ Hz). simpl. rewrite thread_find. simpl. rewrite Ea in *. simpl in *.
  pose proof (first_of_in (nil t) b Hne) as Hin.
  rewrite (proj2 (Nat.eqb_neq (first_of _ _) _)) by (intros E; by rewrite E in Hin).
  rewrite Hmin, Nat.eqb_refl. set (m := first_of (nil t) b) in *.
  assert (Hhd : head b = Some m) by (unfold m, first_of; by destruct b).
  destruct (chain_Some _ _ _ _ _ Hseg Hin) as [nb Hnb]. assert (Hne' : m <> z) by (by intros <-).
  destruct (wr_thread t z (put_next m) nz Hz) as (t1 & -> & K1 & N1 & M1 & S1); [eauto|]. simpl.
  destruct (wr_thread t1 z (put_prev (nil t1)) (put_next m nz)) as (t2 & -> & K2 & N2 & M2 & S2);
    [by rewrite S1, lookup_insert_eq|eauto|]. simpl. rewrite N2, N1, Hmin. fold m.
  destruct (wr_thread t2 m (put_prev z) nb) as (t3 & -> & K3 & N3 & M3 & S3);
    [by rewrite S2, S1, !lookup_insert_ne by done|eauto|]. simpl.
  eexists. split; [done|]. split; [exact (kept_links_trans _ _ _ K1 (kept_links_trans _ _ _ K2 K3))|].
  split; [|split; simpl].
  - simpl. rewrite S3, S2, S1, insert_insert_eq. destruct K1 as (_ & -> & _). split.
    + eexists. rewrite lookup_insert_ne, lookup_insert_eq by done. by split.
    + intros x Hx. rewrite decide_False by done. destruct (decide (x = m)) as [->|Ex].
      * by rewrite lookup_insert_eq, Hnb.
      * by rewrite !lookup_insert_ne by congruence.
    + intros x Hx. rewrite Hhd. case_decide as Ex.
      * injection Ex as <-. by rewrite lookup_insert_eq, Hnb.
      * by rewrite !lookup_insert_ne by congruence.
  - done.
  - rewrite M3, M2, M1, Hmax, last_of_cons. unfold last_of. destruct (last b) eqn:E; [done|].
    by apply last_None in E.
Qed.

(** The writes between two nodes. *)
Lemma write_between w m nw nb :
  store_of t !! w = Some nw -> store_of t !! m = Some nb -> prev nb = w ->
  w <> z -> m <> z -> w <> m ->
  exists t', (t ← wr t z (put_next m); nc ← rd t m; t ← wr t z (put_prev (prev nc)); nc ← rd t m;
              t ← wr t (prev nc) (put_next z); wr t m (put_prev z)) = Ret t' /\
    kept_links t t' /\ min t' = min t /\ max t' = max t /\
    store_of t' = <[m := put_prev z nb]> (<[w := put_next z nw]> (<[z := put_prev w (put_next m nz)]> (store_of t))).
Proof.
  intros Hnw Hnb Hpb Hwz Hmz Hwm.
  destruct (wr_thread t z (put_next m) nz Hz) as (t1 & -> & K1 & N1 & M1 & S1); [eauto|]. simpl.
  rewrite (rd_at t1 m nb) by (by rewrite S1, lookup_insert_ne). simpl. rewrite Hpb.
  destruct (wr_thread t1 z (put_prev w) (put_next m nz)) as (t2 & -> & K2 & N2 & M2 & S2);
    [by rewrite S1, lookup_insert_eq|eauto|]. simpl. rewrite S1, insert_insert_eq in S2.
  rewrite (rd_at t2 m nb) by (by rewrite S2, lookup_insert_ne). simpl. rewrite Hpb.
  destruct (wr_thread t2 w (put_next z) nw) as (t3 & -> & K3 & N3 & M3 & S3);
    [by rewrite S2, !lookup_insert_ne by done|eauto|]. simpl.
  destruct (wr_thread t3 m (put_prev z) nb) as (t4 & -> & K4 & N4 & M4 & S4);
    [by rewrite S3, S2, !lookup_insert_ne by done|eauto|].
  exists t4. split; [done|]. rewrite S4, S3, S2.
  split; [|split; [congruence|split; [congruence|done]]].
  eapply kept_links_trans; [done|]. eapply kept_links_trans; [done|]. by eapply kept_links_trans.
Qed.

(** The store after those writes. *)
Lemma spliced_between w m nw nb :
  store_of t !! w = Some nw -> store_of t !! m = Some nb -> w <> z -> m <> z -> w <> m ->
  last a = Some w -> head b = Some m ->
  spliced (store_of t)
    (<[m := put_prev z nb]> (<[w := put_next z nw]> (<[z := put_prev w (put_next m nz)]> (store_of t))))
    (nil t) a z b.
Proof.
  intros Hnw Hnb Hwz Hmz Hwm Hla Hhd. split.
  - eexists. rewrite !lookup_insert_ne, lookup_insert_eq by done. split; [done|].
    unfold first_of, last_of. by rewrite Hla, Hhd.
  - intros x Hx. rewrite Hla. destruct (decide (x = m)) as [->|Hxm].
    + rewrite lookup_insert_eq, Hnb, decide_False by congruence. done.
    + rewrite lookup_insert_ne by congruence. case_decide as Ex.
      * injection Ex as <-. by rewrite lookup_insert_eq, Hnw.
      * by rewrite !lookup_insert_ne by congruence.
  - intros x Hx. rewrite Hhd. case_decide as Ex.
    + injection Ex as <-. by rewrite lookup_insert_eq, Hnb.
    + rewrite lookup_insert_ne by congruence. destruct (decide (x = w)) as [->|Hxw].
      * by rewrite lookup_insert_eq, Hnw.
      * by rewrite !lookup_insert_ne by congruence.
Qed.

Lemma last_of_Some d l : l <> [] -> last l = Some (last_of d l).
Proof. intros Hne. unfold last_of. destruct (last l) eqn:E; [done|]. by apply last_None in E. Qed.

Lemma first_of_Some d l : l <> [] -> head l = Some (first_of d l).
Proof. by destruct l. Qed.

Lemma thread_middle :
  b <> [] -> a <> [] -> exists t', thread_node t z = Ret t' /\ threads t t' a z b.
Proof.
  intros Hne Hna. unfold thread_node. rewrite (proj2 (Z.eqb_neq _ _)) by done.
  rewrite (rd_at _ _ _ Hz). simpl. rewrite thread_find. simpl.
  pose proof (first_of_in (nil t) b Hne) as Hin. pose proof (last_of_in (nil t) a Hna) as Hia.
  pose proof Hnd as (_ & Hab & _)%NoDup_app.
  rewrite (proj2 (Nat.eqb_neq (first_of (nil t) b) (nil t))) by (intros E; rewrite E in Hin; set_solver).
  assert (Hmin' : min t = first_of (nil t) a) by (rewrite Hmin, first_of_app; by destruct a).
  rewrite (proj2 (Nat.eqb_neq (first_of (nil t) b) (min t)))
    by (rewrite Hmin'; intros E; apply (Hab (first_of (nil t) a)); [by apply first_of_in|by rewrite <- E]).
  pose proof (first_of_Some (nil t) b Hne) as Hhd. pose proof (last_of_Some (nil t) a Hna) as Hla.
  set (m := first_of (nil t) b) in *. set (w := last_of (nil t) a) in *.
  assert (Hwz : w <> z) by set_solver. assert (Hmz : m <> z) by set_solver.
  assert (Hwm : w <> m) by (intros E; rewrite E in Hia; by apply (Hab m)).
  assert (exists nb, store_of t !! m = Some nb /\ prev nb = w) as (nb & Hnb & Hpb).
  { apply chain_app in Hseg as [_ Hs]. unfold m. destruct b; [done|]. destruct Hs as (nb & ? & ? & _). eauto. }
  destruct (chain_Some _ _ _ _ _ Hseg (proj2 (elem_of_app _ _ _) (or_introl Hia))) as [nw Hnw].
  destruct (write_between w m nw nb) as (t' & -> & K & N & M & S); try done.
  exists t'. split; [done|]. split; [done|]. split; [rewrite S; by apply spliced_between|].
  rewrite N, M, Hmin', Hmax. split; [by destruct a|]. unfold last_of.
  by rewrite !last_app, last_cons, (last_of_Some (nil t) b Hne).
Qed.

End threading.

(** The thread of a tree: the nodes [l] from [min] to [max]. *)
Record threaded (t : rb_tree_t) (l : list nat) : Prop := mk_threaded {
  th_chain : chain (store_of t) (nil t) l (nil t);
  th_min : min t = first_of (nil t) l;
  th_max : max t = last_of (nil t) l
}.

Lemma thread_node_ok t z nz a b :
  threaded t (a ++ b) -> store_of t !! z = Some nz -> NoDup (a ++ b) -> nil t ∉ a ++ b -> z ∉ a ++ b ->
  (nodes t = 0 <-> a ++ b = []) -> (length (a ++ b) <= size (store_of t))%nat ->
  Forall (fun x => key_at t x < key nz) a -> Forall (fun x => key nz < key_at t x) b ->
  exists t', thread_node t z = Ret t' /\ kept_links t t' /\ threaded t' (a ++ z :: b).
Proof.
  intros [Hs Hmin Hmax] Hz Hnd Hnil Hzl Hc Hlen Ha Hb.
  assert (Hb' : forall x, head b = Some x -> key nz <= key_at t x).
  { intros x Hx. rewrite Forall_forall in Hb. apply Z.lt_le_incl, Hb. by apply head_Some_elem_of. }
  assert (exists t', thread_node t z = Ret t' /\ threads t t' a z b) as (t' & Ht' & K & Hsp & Hmin' & Hmax').
  { assert (Hne : a <> [] \/ b <> [] -> nodes t <> 0) by (intros ? [? ?]%Hc%app_eq_nil; tauto).
    destruct (decide (a = [])) as [Ea|Ea], (decide (b = [])) as [Eb|Eb].
    - subst. apply (thread_first t z nz Hz). by apply Hc.
    - apply (thread_begin t z nz Hz a b); try done. tauto.
    - apply (thread_end t z nz Hz a b); try done. tauto.
    - apply (thread_middle t z nz Hz a b); try done. tauto. }
  exists t'. split; [done|]. split; [done|]. pose proof (proj1 (proj2 K)) as Enil.
  split; rewrite Enil; [by apply (chain_spliced (store_of t))|done|done].
Qed.

Section rb.
Context {ev : events} {TI : tree_inv ev}.

(** ** The invariant of a tree *)

(** [t] is a red-black search tree of shape [sh] and black height [n], whose
    thread is its in-order walk and which holds the map [M]. *)
Record rb_ok (t : rb_tree_t) (sh : tr) (n : nat) (M : gmap Z Z) : Prop := mk_rb_ok {
  ok_bal : balanced t sh n;
  ok_root : rootcol (col t) sh = BLACK;
  ok_order : StronglySorted Z.lt (key_at t <$> inorder sh);
  ok_thread : threaded t (inorder sh);
  ok_count : nodes t = 0 <-> inorder sh = [];
  ok_fresh : forall x, x ∈ dom (store_of t) -> (x < fresh t)%nat;
  ok_nil : exists nn, store_of t !! nil t = Some nn /\ data nn = 0;
  ok_map : forall k d, M !! k = Some d <->
    exists x m, x ∈ inorder sh /\ store_of t !! x = Some m /\ key m = k /\ data m = d
}.

Lemma sorted_ascending t l : StronglySorted Z.lt (key_at t <$> l) -> ascending (store_of t) l.
Proof.
  induction l as [|x l IH]; simpl; [constructor|]. intros [Hx Hs]%StronglySorted_cons.
  apply StronglySorted_cons. split; [|by apply IH]. rewrite Forall_fmap in Hx.
  eapply Forall_impl; [done|]. simpl. intros y Hy m n Hm Hn.
  rewrite (key_at_Some _ _ _ Hm), (key_at_Some _ _ _ Hn) in Hy. lia.
Qed.

(** A lookup reads the map. *)
Lemma find_reads t sh n M k : rb_ok t sh n M -> rb_tree_find t k = Ret (default 0 (M !! k)).
Proof.
  intros [[Ht _ _ _] _ Ho _ _ _ (nn & Hnn & Hd) HM].
  destruct (find_node_found t sh k (proj1 Ht) (sorted_ascending _ _ Ho)) as (x & Hx & Hf).
  unfold rb_tree_find, rb_node_is_nil. rewrite Hx. simpl. destruct Hf as [(Hin & m & Hm & Hk)|[-> Hno]].
  - assert (M !! k = Some (data m)) as -> by (apply HM; by exists x, m). rewrite (rd_at _ _ _ Hm). simpl.
    destruct (Z.eqb_spec (data m) 0) as [Ed|Ed]; [|done]. rewrite Ed. simpl. by destruct (x =? _)%nat.
  - assert (M !! k = None) as ->.
    { destruct (M !! k) as [d|] eqn:E; [|done]. apply HM in E as (x & m & Hin & Hm & Hk & _).
      by apply (Hno x m Hin Hm) in Hk. }
    rewrite (rd_at _ _ _ Hnn). simpl. rewrite Hd. simpl. by destruct (_ =? _)%nat.
Qed.

(** ** What the steps keep *)

(** Keys and data are the same. *)
Definition same_entries (t t' : rb_tree_t) : Prop :=
  forall x, entry <$> store_of t' !! x = entry <$> store_of t !! x.

Lemma same_entries_trans a b c : same_entries a b -> same_entries b c -> same_entries a c.
Proof. intros H1 H2 x. by rewrite H2. Qed.

Lemma kept_data_entries t t' : kept_data t t' -> same_entries t t'.
Proof.
  intros (_ & _ & _ & _ & _ & H) x. specialize (H x). unfold entry.
  destruct (store_of t' !! x), (store_of t !! x); simpl in *; congruence.
Qed.

Lemma kept_links_entries t t' : kept_links t t' -> same_entries t t'.
Proof.
  intros (_ & _ & _ & _ & _ & H) x. specialize (H x). unfold entry.
  destruct (store_of t' !! x), (store_of t !! x); simpl in *; congruence.
Qed.

Lemma entries_Some t t' x n :
  same_entries t t' -> store_of t !! x = Some n ->
  exists n', store_of t' !! x = Some n' /\ key n' = key n /\ data n' = data n.
Proof.
  intros H Hn. specialize (H x). rewrite Hn in H. unfold entry in H.
  destruct (store_of t' !! x) as [n'|]; [|done]. exists n'. simpl in H. split; [done|]. split; congruence.
Qed.

Lemma entries_key t t' x : same_entries t t' -> key_at t' x = key_at t x.
Proof.
  intros H. specialize (H x). unfold entry, key_at in *.
  destruct (store_of t' !! x), (store_of t !! x); simpl in *; congruence.
Qed.

Lemma entries_dom t t' x : same_entries t t' -> x ∈ dom (store_of t') <-> x ∈ dom (store_of t).
Proof.
  intros H. specialize (H x). rewrite !elem_of_dom.
  destruct (store_of t' !! x), (store_of t !! x); simpl in *; try done; split; intros [? ?]; done.
Qed.

Lemma kept_data_threaded t t' l : kept_data t t' -> threaded t l -> threaded t' l.
Proof.
  intros (En & Emin & Emax & _ & _ & H) [Hs Hmin Hmax]. split; rewrite En; [|congruence..].
  apply (chain_frame (store_of t)); [|done]. intros x _. specialize (H x).
  destruct (store_of t' !! x), (store_of t !! x); simpl in *; congruence.
Qed.

Lemma kept_links_tree (TZ : tree_inv ev) t t' sh :
  kept_links t t' -> tree_is (TI := TZ) t sh -> tree_is (TI := TZ) t' sh.
Proof.
  intros K [[Hr Hnd] Hi]. pose proof K as (Er & En & _ & _ & Eo & H). split; [split; [|done]|].
  - rewrite Er, En. apply (repr_frame (store_of t)); [|done]. intros x _. specialize (H x). unfold same_links.
    destruct (store_of t' !! x), (store_of t !! x); simpl in *; congruence.
  - apply (ti_stable t); [|done]. split; [done|]. split; [done|]. intros x _. by apply kept_links_entries.
Qed.

Lemma kept_links_col t t' x : kept_links t t' -> col t' x = col t x.
Proof.
  intros (_ & _ & _ & _ & _ & H). specialize (H x). unfold col.
  destruct (store_of t' !! x), (store_of t !! x); simpl in *; congruence.
Qed.

(** The sentinel stays black while its colour and entry stay. *)
Lemma nil_black_same t t' :
  nil t' = nil t -> same_entries t t' -> col t' (nil t) = col t (nil t) -> nil_black t -> nil_black t'.
Proof.
  intros En He Hc (n & Hn & Hb). destruct (entries_Some _ _ _ _ He Hn) as (n' & Hn' & _).
  exists n'. rewrite En. split; [done|]. unfold col in Hc. rewrite Hn', Hn in Hc. congruence.
Qed.

(** ** insert_node *)

Lemma ctx_root_plug c ctx : forall sh, ctx <> [] -> ctx_root c ctx = Some (rootcol c (plug ctx sh)).
Proof.
  induction ctx as [|f ctx IH]; intros sh H; [done|]. clear H.
  destruct (decide (ctx = [])) as [->|Hne]; [by destruct f|].
  destruct f as [x r|l x]; simpl; [by rewrite (IH (T sh x r) Hne)|by rewrite (IH (T l x sh) Hne)].
Qed.

(** A red leaf below a tree whose colours are right is where the repair starts. *)
Lemma ready_leaf (TZ : tree_inv ev) t t' z ctx n :
  balanced (TI := TI) t (plug ctx E) n -> rootcol (col t) (plug ctx E) = BLACK -> z ∉ ctx_ids ctx ->
  tree_is (TI := TZ) t' (plug ctx (T E z E)) -> nil_black t' ->
  (forall x, col t' x = if decide (x = z) then RED else col t x) -> ready (TI := TZ) t' z ctx E E n.
Proof.
  intros [_ _ Hr Hh] Hroot Hz Ht' Hb' C.
  assert (Hsame : same_on (ctx_ids ctx) (col t) (col t')).
  { intros x Hx. rewrite C, decide_False; [done|]. by intros ->. }
  assert (Hcz : col t' z = RED) by (rewrite C; by rewrite decide_True).
  apply nored_plug in Hr as [_ Hr]. split; try done.
  - by apply (nored_ctx_same (col t)).
  - rewrite (ctx_root_same (col t)) by done. destruct (decide (ctx = [])) as [->|Hne]; [done|].
    rewrite (ctx_root_plug _ _ E Hne). congruence.
  - apply (bh_plug (col t) (col t') ctx E); try done. intros m. rewrite bh_red by done. simpl. by split.
Qed.

(** The keys around the hole are strictly on their sides. *)
Lemma fits_strict t ctx n M k :
  rb_ok t (plug ctx E) n M -> M !! k = None -> fits_at t ctx k ->
  Forall (fun x => key_at t x < k) (ctx_before ctx) /\ Forall (fun x => k < key_at t x) (ctx_after ctx).
Proof.
  intros Hok HM [Hb Ha]. split; [|done]. rewrite Forall_forall in Hb |- *. intros x Hx.
  assert (Hin : x ∈ inorder (plug ctx E)) by (rewrite inorder_plug; set_solver).
  pose proof (tree_is_repr _ _ (b_tree _ _ _ (ok_bal _ _ _ _ Hok))) as Hr.
  destruct (proj1 (elem_of_dom _ _) (repr_dom _ _ _ _ _ Hr x Hin)) as [m Hm].
  specialize (Hb x Hx). rewrite (key_at_Some _ _ _ Hm) in *.
  assert (key m <> k); [|lia]. intros Ek.
  assert (M !! k = Some (data m)) by (apply (ok_map _ _ _ _ Hok); by exists x, m). congruence.
Qed.

(** Adding an entry between the two sides. *)
Lemma sorted_between t a z b :
  StronglySorted Z.lt (key_at t <$> a ++ b) ->
  Forall (fun x => key_at t x < key_at t z) a -> Forall (fun x => key_at t z < key_at t x) b ->
  StronglySorted Z.lt (key_at t <$> a ++ z :: b).
Proof.
  intros Hs Ha Hb. rewrite fmap_app in *. apply StronglySorted_app in Hs as (Hab & Hsa & Hsb).
  apply StronglySorted_app. split; [|split; [done|]].
  - intros x1 x2 (y & -> & Hy)%list_elem_of_fmap. rewrite fmap_cons, elem_of_cons.
    intros [->|H2]; [by apply (proj1 (Forall_forall _ _) Ha)|]. apply Hab; [|done].
    by apply list_elem_of_fmap_2.
  - rewrite fmap_cons. apply StronglySorted_cons. split; [|done]. by rewrite Forall_fmap.
Qed.

Lemma sorted_entries t t' l :
  same_entries t t' -> StronglySorted Z.lt (key_at t <$> l) -> StronglySorted Z.lt (key_at t' <$> l).
Proof.
  intros He Hs. replace (key_at t' <$> l) with (key_at t <$> l); [done|].
  apply list_fmap_ext. intros i x _. by rewrite (entries_key t t').
Qed.

(** The search for the parent finds the hole for a new key. *)
Lemma find_hole t sh n M k :
  rb_ok t sh n M -> M !! k = None ->
  exists ctx, sh = plug ctx E /\ fits_at t ctx k /\
    find_parent (walk_fuel t) t (root t) (nil t) k = Ret (ctx_top (nil t) ctx).
Proof.
  intros Hok HM. pose proof (b_tree _ _ _ (ok_bal _ _ _ _ Hok)) as Ht. pose proof (tree_is_repr _ _ Ht) as Hr.
  destruct (find_parent_ok t k sh [] (root t) (walk_fuel t)) as (ctx & Hp & Hk & Hf);
    [done|apply sorted_ascending, Hok| |by split|by exists ctx].
  pose proof (tree_is_length _ _ Ht). unfold walk_fuel. lia.
Qed.

(** Linking and threading: the tree before the repair. *)
Lemma linked_and_threaded (TZ : tree_inv ev) t ctx n M z nz :
  rb_ok t (plug ctx E) n M -> store_of t !! z = Some nz -> z ∉ inorder (plug ctx E) -> z <> nil t ->
  M !! key nz = None -> fits_at t ctx (key nz) -> ti (tree_inv := TZ) t (plug ctx (T E z E)) ->
  exists t', (t ← link_child t z (ctx_top (nil t) ctx); thread_node t z) = Ret t' /\
    ready (TI := TZ) t' z ctx E E n /\ threaded t' (inorder (plug ctx (T E z E))) /\ same_entries t t' /\
    nil t' = nil t /\ nodes t' = nodes t /\ fresh t' = fresh t.
Proof.
  intros Hok Hz Hzi Hzn HM Hk Hi. pose proof (ok_bal _ _ _ _ Hok) as Hbal. pose proof (b_tree _ _ _ Hbal) as Ht.
  assert (Ein : inorder (plug ctx E) = ctx_before ctx ++ ctx_after ctx) by apply inorder_plug.
  assert (Hzc : z ∉ ctx_ids ctx) by (unfold ctx_ids; congruence).
  rewrite (link_child_linked t z nz ctx) by (done || apply Ht). simpl. set (t1 := linked t z nz ctx).
  pose proof (linked_kept t z nz ctx Hz) as K1. fold t1 in K1. pose proof (kept_data_entries _ _ K1) as S1.
  assert (Ht1 : tree_is (TI := TZ) t1 (plug ctx (T E z E))).
  { split; [by apply (linked_tree t z nz ctx (proj1 Ht))|]. apply (ti_stable t); [|done]. split; [done|].
    split; [apply K1|]. intros x _. apply S1. }
  pose proof (linked_col t z nz ctx) as C1. fold t1 in C1. clearbody t1.
  pose proof K1 as (En1 & _ & _ & Enodes1 & Efresh1 & _).
  destruct (entries_Some _ _ _ _ S1 Hz) as (nz1 & Hz1 & Ek & Ed).
  destruct (fits_strict t ctx n M (key nz) Hok HM Hk) as [Hlt Hgt].
  pose proof (repr_not_nil _ _ _ _ _ (tree_is_repr _ _ Ht)) as Hnil.
  pose proof (tree_is_NoDup _ _ Ht) as Hnd. pose proof (tree_is_length _ _ Ht1) as Hlen.
  rewrite inorder_plug, !length_app in Hlen. simpl in Hlen.
  destruct (thread_node_ok t1 z nz1 (ctx_before ctx) (ctx_after ctx)) as (t2 & Hth & K2 & Hthr).
  { rewrite <- Ein. apply (kept_data_threaded t); [done|apply Hok]. }
  { done. } { by rewrite <- Ein. } { by rewrite En1, <- Ein. } { by rewrite <- Ein. }
  { rewrite Enodes1, <- Ein. apply Hok. } { rewrite length_app. lia. }
  { eapply Forall_impl; [exact Hlt|]. intros x. simpl. by rewrite (entries_key t t1), Ek. }
  { eapply Forall_impl; [exact Hgt|]. intros x. simpl. by rewrite (entries_key t t1), Ek. }
  exists t2. split; [done|]. pose proof (kept_links_entries _ _ K2) as S2.
  assert (S12 : same_entries t t2) by (by eapply same_entries_trans).
  assert (C : forall x, col t2 x = if decide (x = z) then RED else col t x)
    by (intros x; rewrite (kept_links_col t1) by done; apply C1).
  assert (En : nil t2 = nil t /\ nodes t2 = nodes t /\ fresh t2 = fresh t)
    by (destruct K2 as (_ & ? & ? & ? & _ & _); split_and!; congruence).
  split; [|split; [by rewrite inorder_plug|by split]].
  apply (ready_leaf TZ t); try done; [apply Hok|by apply (kept_links_tree TZ t1)|].
  apply (nil_black_same t); [apply En|done| |apply Hbal]. rewrite C, decide_False; [done|congruence].
Qed.

(** The map of a tree with one more node. *)
Lemma map_add t t' l l' (M : gmap Z Z) z nz :
  same_entries t t' -> l' ≡ₚ z :: l -> store_of t !! z = Some nz -> M !! key nz = None ->
  (forall k d, M !! k = Some d <->
    exists x m, x ∈ l /\ store_of t !! x = Some m /\ key m = k /\ data m = d) ->
  forall k d, <[key nz := data nz]> M !! k = Some d <->
    exists x m, x ∈ l' /\ store_of t' !! x = Some m /\ key m = k /\ data m = d.
Proof.
  intros He Hl Hz HM Hmap k d. setoid_rewrite Hl. rewrite lookup_insert_Some. split.
  - intros [[<- <-]|[_ (x & m & Hx & Hm & <- & <-)%Hmap]].
    + destruct (entries_Some _ _ _ _ He Hz) as (n' & Hn' & Ek & Ed). exists z, n'. set_solver.
    + destruct (entries_Some _ _ _ _ He Hm) as (n' & Hn' & Ek & Ed). exists x, n'. set_solver.
  - intros (x & m' & Hx & Hm' & <- & <-). pose proof (He x) as Hex. rewrite Hm' in Hex.
    destruct (store_of t !! x) as [m|] eqn:Hm; [|done]. unfold entry in Hex. simpl in Hex.
    injection Hex as Ek Ed. rewrite Ek, Ed. apply elem_of_cons in Hx as [->|Hx].
    + left. split; congruence.
    + assert (Hkm : M !! key m = Some (data m)) by (apply Hmap; by exists x, m).
      right. split; [congruence|done].
Qed.

Context {II : insert_inv ev TI}.

Lemma insert_node_ok t sh n M z nz :
  rb_ok t sh n M -> store_of t !! z = Some nz -> z ∉ inorder sh -> z <> nil t ->
  M !! key nz = None -> ii_new t (inorder sh) z -> 0 <= nodes t -> nodes t + 1 < 2 ^ 64 ->
  exists t' sh' m, insert_node ev t z = Ret t' /\ rb_ok t' sh' m (<[key nz := data nz]> M) /\
    inorder sh' ≡ₚ z :: inorder sh /\ same_entries t t' /\ nodes t' = nodes t + 1.
Proof.
  intros Hok Hz Hzi Hzn HM Hnew Hn0 Hn1. destruct (find_hole t sh n M (key nz) Hok HM) as (ctx & -> & Hk & Hf).
  unfold insert_node. rewrite ii_pre. simpl. rewrite (rd_at _ _ _ Hz). simpl. rewrite Hf. simpl.
  destruct (fits_strict t ctx n M (key nz) Hok HM Hk) as [Ha Hb].
  assert (Hs : StronglySorted Z.lt (key_at t <$> ctx_before ctx ++ z :: ctx_after ctx)).
  { apply sorted_between; [|rewrite (key_at_Some _ _ _ Hz); done..].
    pose proof (ok_order _ _ _ _ Hok) as Ho. by rewrite inorder_plug in Ho. }
  assert (Hi : ti (tree_inv := ii z) t (plug ctx (T E z E)))
    by (apply ii_link; [apply (b_tree _ _ _ (ok_bal _ _ _ _ Hok))|done|done]).
  destruct (linked_and_threaded (ii z) t ctx n M z nz Hok Hz Hzi Hzn HM Hk Hi)
    as (t2 & Hlt & Hrd & Hth & S2 & Enil & Enodes & Efresh).
  destruct (link_child t z (ctx_top (nil t) ctx)) as [t1| | |] eqn:Hl; try done. simpl in Hlt |- *.
  rewrite Hlt. simpl.
  destruct (insert_fixup_ok t2 z ctx E E n Hrd) as (t3 & sh' & m & -> & K3 & Hbal & Hroot & Hin & _).
  simpl. pose proof (same_entries_trans _ _ _ S2 (kept_data_entries _ _ K3)) as S3.
  pose proof K3 as (Enil3 & _ & _ & Enodes3 & Efresh3 & _).
  assert (Hu : u64 (nodes t3 + 1) = nodes t + 1)
    by (rewrite Enodes3, Enodes; apply wrap_small; unfold fits; lia).
  rewrite !inorder_plug in *. simpl in Hin.
  destruct Hbal as [[Ht3 Hi3] Hb3 Hr3 Hh3]. set (t4 := with_nodes t3 (nodes t3 + 1)).
  destruct (ii_post t4 sh' z) as (o & Hpost & Hi4); [done|rewrite Hin; set_solver|by apply (ti_stable t3)|].
  exists (with_objs t4 o), sh', m. split; [done|].
  split; [|split; [rewrite Hin; symmetry; apply Permutation_middle|by split]]. split.
  - by split.
  - done.
  - apply (sorted_entries t); [done|]. by rewrite Hin.
  - pose proof (kept_data_threaded _ _ _ K3 Hth) as [H1 H2 H3]. rewrite Hin. by split.
  - simpl. rewrite Hu, Hin. split; [lia|]. intros E. by apply app_eq_nil in E as [_ ?].
  - intros x Hx. simpl. rewrite Efresh3, Efresh. apply (ok_fresh _ _ _ _ Hok). by apply (entries_dom t t3).
  - destruct (ok_nil _ _ _ _ Hok) as (nn & Hnn & Hd). destruct (entries_Some _ _ _ _ S3 Hnn) as (n' & Hn' & _ & Ed).
    exists n'. simpl. rewrite Enil3, Enil. split; [done|congruence].
  - apply (map_add t _ (inorder (plug ctx E)) _ M z nz); try done; [|apply Hok].
    rewrite Hin, inorder_plug. symmetry. apply Permutation_middle.
Qed.

(** ** rb_tree_insert *)

Lemma sorted_first (f : nat -> Z) d l z :
  StronglySorted Z.lt (f <$> l) -> z ∈ l -> f (first_of d l) <= f z.
Proof.
  destruct l as [|x l]; [set_solver|]. rewrite fmap_cons. intros [Hx _]%StronglySorted_cons. unfold first_of. simpl.
  rewrite Forall_fmap, Forall_forall in Hx. intros [->|Hz]%elem_of_cons; [lia|].
  apply Z.lt_le_incl. by apply Hx.
Qed.

Lemma sorted_last (f : nat -> Z) l z : forall d,
  StronglySorted Z.lt (f <$> l) -> z ∈ l -> f (last_of d l) <= f z -> last_of d l = z.
Proof.
  induction l as [|x l IH]; intros d; [set_solver|]. rewrite fmap_cons. intros [Hx Hs]%StronglySorted_cons.
  rewrite last_of_cons. intros [->|Hz]%elem_of_cons Hle; [|by apply IH].
  destruct (decide (l = [])) as [->|Hne]; [done|].
  rewrite Forall_fmap, Forall_forall in Hx. specialize (Hx _ (last_of_in x l Hne)). simpl in Hx. lia.
Qed.

(** After insert_node the updates of [min] and [max] change nothing. *)
Lemma ends_kept t sh n M z nz :
  rb_ok t sh n M -> z ∈ inorder sh -> store_of t !! z = Some nz ->
  (if nodes t =? 0 then Ret (with_max (with_min t z) z)
   else nmin ← rd t (min t);
        if key nz <? key nmin then Ret (with_min t z)
        else nmax ← rd t (max t); if key nmax <=? key nz then Ret (with_max t z) else Ret t) = Ret t.
Proof.
  intros Hok Hin Hz. assert (Hne : inorder sh <> []) by (intros E; rewrite E in Hin; set_solver).
  pose proof (ok_count _ _ _ _ Hok) as Hc. rewrite (proj2 (Z.eqb_neq _ _)) by tauto.
  pose proof (ok_order _ _ _ _ Hok) as Ho. destruct (ok_thread _ _ _ _ Hok) as [Hs Hmin Hmax].
  destruct (chain_Some _ _ _ _ _ Hs (first_of_in (nil t) _ Hne)) as [nm Hnm].
  destruct (chain_Some _ _ _ _ _ Hs (last_of_in (nil t) _ Hne)) as [nx Hnx].
  pose proof (sorted_first _ (nil t) _ z Ho Hin) as Hfirst.
  pose proof (sorted_last _ _ z (nil t) Ho Hin) as Hlast.
  rewrite <- Hmin in *. rewrite <- Hmax in *.
  rewrite (key_at_Some _ _ _ Hnm), (key_at_Some _ _ _ Hz) in Hfirst.
  rewrite (key_at_Some _ _ _ Hnx), (key_at_Some _ _ _ Hz) in Hlast.
  rewrite (rd_at _ _ _ Hnm). simpl. rewrite (proj2 (Z.ltb_ge _ _)) by done.
  rewrite (rd_at _ _ _ Hnx). simpl. destruct (Z.leb_spec (key nx) (key nz)) as [Hle|Hgt]; [|done].
  rewrite <- (Hlast Hle). by destruct t.
Qed.

(** A node allocated and not yet linked. *)
Definition alloc (t : rb_tree_t) (n : rb_node_t) : rb_tree_t :=
  mk_tree (root t) (nil t) (min t) (max t) (nodes t) (<[fresh t := n]> (store_of t)) (S (fresh t)) (objs t).

Lemma fresh_out t sh n M : rb_ok t sh n M -> fresh t ∉ inorder sh /\ fresh t <> nil t.
Proof.
  intros Hok. pose proof (ok_fresh _ _ _ _ Hok) as Hf. split.
  - intros Hin. pose proof (tree_is_repr _ _ (b_tree _ _ _ (ok_bal _ _ _ _ Hok))) as Hr.
    specialize (Hf _ (repr_dom _ _ _ _ _ Hr _ Hin)). lia.
  - intros E. destruct (ok_nil _ _ _ _ Hok) as (nn & Hnn & _).
    specialize (Hf (nil t) (elem_of_dom_2 _ _ _ Hnn)). lia.
Qed.

Lemma alloc_ok t sh n M nz : rb_ok t sh n M -> rb_ok (alloc t nz) sh n M.
Proof.
  intros Hok. destruct (fresh_out _ _ _ _ Hok) as [Hfi Hfn].
  assert (Hold : forall x, x <> fresh t -> store_of (alloc t nz) !! x = store_of t !! x)
    by (intros x Hx; simpl; by rewrite lookup_insert_ne).
  assert (Hin : forall x, x ∈ inorder sh -> store_of (alloc t nz) !! x = store_of t !! x)
    by (intros x Hx; apply Hold; by intros ->).
  assert (Hcol : same_on (inorder sh) (col t) (col (alloc t nz))) by (intros x Hx; unfold col; by rewrite Hin).
  destruct Hok as [[[[Hr Hnd] Hi] (nb & Hnb & Hbb) Hred Hh] Hroot Ho [Hs Hmin Hmax] Hc Hf (nn & Hnn & Hd) HM]. split.
  - split; [split; [split; [|done]|]| |by apply (nored_same (col t))|by apply (bh_same (col t))].
    + apply (repr_frame (store_of t)); [|done]. intros x Hx. unfold same_links. by rewrite Hin.
    + apply (ti_stable t); [|done]. split; [done|]. split; [done|]. intros x [->|Hx]%elem_of_cons; [|by rewrite Hin].
      by rewrite Hold.
    + exists nb. by rewrite Hold.
  - by rewrite (rootcol_same (col t)).
  - replace (key_at (alloc t nz) <$> inorder sh) with (key_at t <$> inorder sh); [done|].
    apply list_fmap_ext. intros i x Hx%list_elem_of_lookup_2. unfold key_at. by rewrite Hin.
  - split; [|done|done]. apply (chain_frame (store_of t)); [|done]. intros x Hx. by rewrite Hin.
  - done.
  - simpl. intros x Hx. rewrite dom_insert in Hx. apply elem_of_union in Hx as [Hx|Hx]; [set_solver by lia|].
    specialize (Hf x Hx). lia.
  - exists nn. by rewrite Hold.
  - intros k d. rewrite HM. split; intros (x & m & Hx & Hm & Hk); exists x, m;
      [rewrite Hin by done|rewrite Hin in Hm by done]; done.
Qed.

(** The node rb_tree_insert allocates. *)
Definition new_node (t : rb_tree_t) (k d : Z) : rb_node_t :=
  mk_node k d RED (nil t) (nil t) (nil t) (nil t) (nil t).

Lemma insert_step t sh n M k d :
  rb_ok t sh n M -> M !! k = None -> 0 <= nodes t -> nodes t + 2 < 2 ^ 64 ->
  ii_new (alloc t (new_node t k d)) (inorder sh) (fresh t) ->
  exists t' sh' m, rb_tree_insert ev t k d = Ret t' /\ rb_ok t' sh' m (<[k := d]> M) /\
    length (inorder sh') = S (length (inorder sh)) /\ nodes t' = nodes t + 2.
Proof.
  intros Hok HM Hn0 Hn2 Hnew. destruct (fresh_out _ _ _ _ Hok) as [Hfi Hfn].
  set (nz := new_node t k d) in *.
  destruct (insert_node_ok (alloc t nz) sh n M (fresh t) nz) as (t1 & sh1 & m & Hins & Hok1 & Hp & He & Hn);
    [by apply alloc_ok|apply lookup_insert_eq|done|done|done|done|done|simpl; lia|].
  destruct (entries_Some _ _ (fresh t) nz He (lookup_insert_eq _ _ _)) as (nz1 & Hz1 & Ek & Ed).
  assert (Hin : fresh t ∈ inorder sh1) by (rewrite Hp; set_solver).
  exists (with_nodes t1 (nodes t1 + 1)), sh1, m.
  assert (Hu : u64 (nodes t1 + 1) = nodes t + 2)
    by (rewrite Hn; simpl; etransitivity; [apply wrap_small; unfold fits; lia|lia]).
  split; [|split; [|by rewrite Hp]].
  - unfold rb_tree_insert, rb_tree_insert_node. fold (new_node t k d). fold nz. fold (alloc t nz). rewrite Hins. simpl.
    rewrite (rd_at _ _ _ Hz1). simpl. by rewrite (ends_kept t1 sh1 m _ (fresh t) nz1 Hok1 Hin Hz1).
  - destruct Hok1 as [[[]] ? ? [] Hc ? ? ?]. split; try done; [|simpl; rewrite Hu; split; [lia|]].
    + split; try done. split; [done|]. by apply (ti_stable t1).
    + intros E. rewrite E in Hin. set_solver.
Qed.

(** ** Height *)

Fixpoint depth (sh : tr) : nat :=
  match sh with E => 0 | T l _ r => S (depth l `max` depth r) end.

Lemma bh_size c sh : forall n, bh c sh n -> (2 ^ n <= S (length (inorder sh)))%nat.
Proof.
  induction sh as [|l IHl x r IHr]; intros n H; [simpl in *; subst; simpl; lia|].
  simpl inorder. rewrite length_app. simpl length. destruct (c x) eqn:Hx.
  - apply bh_red in H as [Hl _]; [|done]. specialize (IHl _ Hl). lia.
  - apply bh_black in H as (m & -> & Hl & Hr); [|done]. specialize (IHl _ Hl). specialize (IHr _ Hr).
    rewrite Nat.pow_succ_r'. lia.
Qed.

Lemma bh_depth c sh : forall n,
  nored c sh -> bh c sh n ->
  (depth sh <= 2 * n + match rootcol c sh with RED => 1 | BLACK => 0 end)%nat.
Proof.
  induction sh as [|l IHl x r IHr]; intros n Hr H; [simpl in *; lia|]. destruct Hr as (Hx & Nl & Nr).
  simpl rootcol. simpl depth. destruct (c x) eqn:Ex.
  - destruct (Hx eq_refl) as [El Er]. apply bh_red in H as [Hl Hr]; [|done].
    specialize (IHl _ Nl Hl). specialize (IHr _ Nr Hr). rewrite El in IHl. rewrite Er in IHr. lia.
  - apply bh_black in H as (m & -> & Hl & Hr); [|done].
    specialize (IHl _ Nl Hl). specialize (IHr _ Nr Hr).
    destruct (rootcol c l), (rootcol c r); lia.
Qed.

Lemma rb_depth t sh n M : rb_ok t sh n M -> (depth sh <= 2 * Nat.log2 (S (length (inorder sh))))%nat.
Proof.
  intros [[_ _ Hr Hh] Hroot _ _ _ _ _ _]. pose proof (bh_depth _ _ _ Hr Hh) as Hd. rewrite Hroot in Hd.
  pose proof (bh_size _ _ _ Hh) as Hs. apply Nat.log2_le_mono in Hs. rewrite Nat.log2_pow2 in Hs by lia. lia.
Qed.

(** A search needs no more steps than the depth. *)
Lemma find_loop_depth t k sh : forall p h f f',
  repr (store_of t) (nil t) p h sh -> (depth sh < f)%nat -> (depth sh < f')%nat ->
  find_loop f t h k = find_loop f' t h k.
Proof.
  induction sh as [|l IHl x r IHr]; intros p h f f' Hr Hf Hf';
    (destruct f as [|f]; [lia|]); (destruct f' as [|f']; [lia|]); simpl in *.
  - subst h. by rewrite Nat.eqb_refl.
  - destruct Hr as (-> & Hx & m & Hm & _ & Hl & Hr). rewrite (proj2 (Nat.eqb_neq _ _)) by done.
    rewrite (rd_at _ _ _ Hm). simpl. destruct (k =? key m); [done|].
    destruct (k <? key m); [apply (IHl x)|apply (IHr x)]; done || lia.
Qed.

Lemma depth_length sh : (depth sh <= length (inorder sh))%nat.
Proof. induction sh as [|l IHl x r IHr]; simpl; [lia|]. rewrite length_app. simpl. lia. Qed.

Lemma find_steps t sh n M k :
  rb_ok t sh n M ->
  rb_tree_find_node t k = find_loop (S (2 * Nat.log2 (S (length (inorder sh))))) t (root t) k.
Proof.
  intros Hok. pose proof (rb_depth _ _ _ _ Hok) as Hd. pose proof (depth_length sh).
  pose proof (b_tree _ _ _ (ok_bal _ _ _ _ Hok)) as Ht. pose proof (tree_is_length _ _ Ht).
  pose proof (tree_is_repr _ _ Ht) as Hr. apply (find_loop_depth t k sh (nil t)); [done|unfold walk_fuel; lia|lia].
Qed.

End rb.

(** ** Properties *)

(** Inserts the entries one after the other. *)
Fixpoint insert_all (t : rb_tree_t) (kvs : list (Z * Z)) : outcome rb_tree_t :=
  match kvs with
  | [] => Ret t
  | (k, d) :: kvs' => t ← rb_tree_insert no_events t k d; insert_all t kvs'
  end.

Lemma create_ok : rb_ok (ev := no_events) create_rb_tree E 0 ∅.
Proof.
  split; try done.
  - split; try done; [split; [split; [done|constructor]|done]|]. eexists. by split.
  - constructor.
  - intros x Hx. simpl in *. rewrite dom_singleton in Hx. apply elem_of_singleton in Hx. lia.
  - eexists. by split.
  - intros k d. rewrite lookup_empty. split; [done|]. intros (x & m & Hx & _). simpl in Hx. set_solver.
Qed.

Lemma insert_all_ok kvs : forall t sh n M,
  rb_ok (ev := no_events) t sh n M -> NoDup kvs.*1 -> (forall k, k ∈ kvs.*1 -> M !! k = None) ->
  0 <= nodes t -> nodes t + 2 * Z.of_nat (length kvs) < 2 ^ 64 ->
  exists t' sh' n', insert_all t kvs = Ret t' /\ rb_ok (ev := no_events) t' sh' n' (list_to_map kvs ∪ M) /\
    length (inorder sh') = (length kvs + length (inorder sh))%nat.
Proof.
  induction kvs as [|[k d] kvs IH]; intros t sh n M Hok Hnd HM Hn0 Hn.
  - exists t, sh, n. by rewrite list_to_map_nil, (left_id_L ∅ (∪)).
  - rewrite fmap_cons in Hnd, HM. apply NoDup_cons in Hnd as [Hk Hnd]. simpl in Hk, Hn.
    destruct (insert_step t sh n M k d Hok) as (t1 & sh1 & n1 & Hi & Hok1 & Hl1 & Hn1);
      [apply HM; set_solver|done|lia|done|].
    destruct (IH t1 sh1 n1 (<[k := d]> M) Hok1 Hnd) as (t' & sh' & n' & Hr & Hok' & Hl'); [|lia|lia|].
    { intros k' Hk'. rewrite lookup_insert_ne; [apply HM; set_solver|]. by intros ->. }
    exists t', sh', n'. simpl. rewrite Hi. simpl. split; [done|]. split; [|lia].
    rewrite <- insert_union_l, insert_union_r; [done|]. by apply not_elem_of_list_to_map_1.
Qed.

(** C3. Inserting a new key into a red-black search tree succeeds and gives
    such a tree again: no red node has a red child, black heights agree, the
    root is black, the nodes are in order and threaded in order from the
    minimum to the maximum.  The new tree holds the old map with the new
    entry, and lookups return it. *)
Theorem rb_tree_insert_refines (t : rb_tree_t) (sh : tr) (n : nat) (M : gmap Z Z) (k d : Z)
    (Hok : rb_ok (ev := no_events) t sh n M) (Hk : M !! k = None) (Hn0 : 0 <= nodes t) (Hn : nodes t + 2 < 2 ^ 64) :
  exists t' sh' m, rb_tree_insert no_events t k d = Ret t' /\ rb_ok (ev := no_events) t' sh' m (<[k := d]> M) /\
    rb_tree_find t' k = Ret d /\ (forall k', k' <> k -> rb_tree_find t' k' = rb_tree_find t k') /\
    nodes t' = nodes t + 2.
Proof.
  destruct (insert_step t sh n M k d Hok Hk Hn0 Hn) as (t' & sh' & m & Hi & Hok' & _ & Hn'); [done|].
  exists t', sh', m. split; [done|]. split; [done|]. split; [|split; [|done]].
  - rewrite (find_reads _ _ _ _ _ Hok'). by rewrite lookup_insert_eq.
  - intros k' Hne. rewrite (find_reads _ _ _ _ _ Hok'), (find_reads _ _ _ _ _ Hok).
    by rewrite lookup_insert_ne.
Qed.

Lemma rb_tree_insert_refines_witness :
  exists t' sh' m M, rb_tree_insert no_events tree_ex 7 107 = Ret t' /\ rb_ok (ev := no_events) t' sh' m M /\
    rb_tree_find t' 7 = Ret 107 /\ rb_tree_find t' 8 = rb_tree_find tree_ex 8.
Proof.
  destruct (insert_all_ok [(5, 105); (3, 103); (8, 108)] create_rb_tree E 0 ∅ create_ok)
    as (t & sh & n & Hi & Hok & _);
    [apply (bool_decide_unpack _); vm_compute; exact I|done|done|done|].
  assert (t = tree_ex) as -> by (change (insert_all create_rb_tree [(5, 105); (3, 103); (8, 108)]
    = Ret t) in Hi; vm_compute in Hi; injection Hi as <-; vm_compute; reflexivity).
  destruct (rb_tree_insert_refines tree_ex sh n _ 7 107 Hok) as (t' & sh' & m & H1 & H2 & H3 & H4 & _);
    [vm_compute; reflexivity|vm_compute; discriminate|vm_compute; reflexivity|].
  exists t', sh', m, (<[7 := 107]> (list_to_map [(5, 105); (3, 103); (8, 108)] ∪ ∅)).
  split; [exact H1|]. split; [exact H2|]. split; [exact H3|]. apply H4. discriminate.
Defined.

(** With equal keys the thread loses nodes: a second node with the largest
    key is threaded before the first one and still becomes the maximum, so a
    larger key inserted next overwrites its link, and the first node, still in
    the tree, is no longer in the thread. *)
Theorem rb_tree_insert_duplicate (d1 d2 d3 : Z) :
  exists t, insert_all create_rb_tree [(5, d1); (5, d2); (8, d3)] = Ret t /\
    shaped t (T (T E 1 E) 2 (T E 3 E)) /\ threaded t [2; 3]%nat.
Proof.
  eexists. split; [vm_compute; reflexivity|]. split.
  - split; [|apply (bool_decide_unpack (NoDup [1; 2; 3]%nat)); exact I].
    vm_compute. repeat (split; [done|]). eexists. repeat (split; [done|]).
    split; (split; [done|]); (split; [done|]); eexists; by repeat split.
  - split; [|done|done]. simpl. eexists. split; [vm_compute; reflexivity|]. do 2 (split; [done|]).
    eexists. split; [vm_compute; reflexivity|]. by repeat split.
Qed.
