(* ===== verification/RbDelete.v ===== *)
(** * lib/rb_tree.c: the repair after a deletion

    A deletion leaves a subtree whose black height is one too small for its
    place.  The repair loop of delete_fixup moves the deficiency up, or ends
    it by recolouring and rotating.  The subtree may be empty: then the loop
    starts at the sentinel, whose parent link is the place. *)

From S2P Require Import Prelude.
From stdpp Require Import list gmap sorting.
From S2P Require Import RbTree RbEvents RbInsert RbAdd.
Local Open Scope Z_scope.

(** ** Black heights of contexts *)

Section heights.
Implicit Types (c : nat -> rb_color) (sh l r : tr) (ctx : list frame).

(** The black height of a node over that of its children. *)
Definition up c (x : nat) (k : nat) : nat := match c x with RED => k | BLACK => S k end.

(** With black height [k] in the hole, the whole tree has black height [n]. *)
Fixpoint bh_ctx c ctx (k n : nat) : Prop :=
  match ctx with
  | [] => k = n
  | LeftOf x r :: ctx' => bh c r k /\ bh_ctx c ctx' (up c x k) n
  | RightOf l x :: ctx' => bh c l k /\ bh_ctx c ctx' (up c x k) n
  end.

Lemma bh_up c l x r k : bh c l k -> bh c r k -> bh c (T l x r) (up c x k).
Proof. intros. unfold up. simpl. by destruct (c x). Qed.

Lemma bh_inv c l x r n : bh c (T l x r) n -> exists k, n = up c x k /\ bh c l k /\ bh c r k.
Proof.
  unfold up. simpl. destruct (c x).
  - intros [? ?]. by exists n.
  - destruct n as [|n]; [done|]. intros [? ?]. by exists n.
Qed.

Lemma bh_plug_ctx c ctx : forall sh n, bh c (plug ctx sh) n <-> exists k, bh c sh k /\ bh_ctx c ctx k n.
Proof.
  induction ctx as [|[x r|l x] ctx IH]; intros sh n; simpl plug; simpl bh_ctx.
  - split; [by exists n|]. by intros (k & ? & ->).
  - rewrite IH. split.
    + intros (j & (k & -> & ? & ?)%bh_inv & ?). by exists k.
    + intros (k & ? & ? & ?). exists (up c x k). split; [by apply bh_up|done].
  - rewrite IH. split.
    + intros (j & (k & -> & ? & ?)%bh_inv & ?). by exists k.
    + intros (k & ? & ? & ?). exists (up c x k). split; [by apply bh_up|done].
Qed.

Lemma bh_ctx_same c c' ctx : forall k n, same_on (ctx_ids ctx) c c' -> bh_ctx c ctx k n -> bh_ctx c' ctx k n.
Proof.
  unfold ctx_ids. induction ctx as [|[x r|l x] ctx IH]; intros k n H; simpl in *; [done|..]; intros [Hr Hc];
    (split; [apply (bh_same c); [|done]; intros y Hy; apply H; set_solver|]);
    unfold up in *; (rewrite (H x) by set_solver); apply IH; try done; intros y Hy; apply H; set_solver.
Qed.

Lemma nored_ctx_black c ctx hc : nored_ctx c ctx hc -> nored_ctx c ctx BLACK.
Proof. destruct ctx as [|[x r|l x] ctx]; simpl; tauto. Qed.

(** The nodes below the root of a subtree are fine. *)
Definition below c sh : Prop := match sh with E => True | T l _ r => nored c l /\ nored c r end.

Lemma below_same c c' sh : same_on (inorder sh) c c' -> below c sh -> below c' sh.
Proof.
  destruct sh as [|l x r]; simpl; [done|]. intros H [Hl Hr].
  split; (apply (nored_same c); [|done]); intros y Hy; apply H; set_solver.
Qed.

Lemma below_black c sh : rootcol c sh = BLACK -> below c sh -> nored c sh.
Proof. destruct sh as [|l x r]; simpl; [done|]. intros -> [? ?]. done. Qed.

Lemma nored_below c sh : nored c sh -> below c sh.
Proof. destruct sh as [|l x r]; simpl; [done|]. tauto. Qed.
End heights.

(** The pointer to the root of a subtree. *)
Definition ptr (nl : nat) (sh : tr) : nat := match sh with E => nl | T _ x _ => x end.

Lemma repr_ptr s nl p h sh : repr s nl p h sh -> h = ptr nl sh.
Proof. destruct sh; simpl; [done|]. by intros [-> _]. Qed.

(** Two lists of the same parts in another order. *)
Ltac perm_count :=
  apply (Permutation_count_occ Nat.eq_dec); let x := fresh "x" in intros x; simpl;
  rewrite ?count_occ_app; simpl; rewrite ?count_occ_app; simpl; rewrite ?count_occ_app; simpl;
  repeat case_match; lia.

(** From [D], that a name is not in a list, that it is not in a part of it. *)
Ltac out_of D := clear - D; set_solver.

Section rb.
Context {ev : events} {TI : tree_inv ev}.

(** ** The place of the deficient subtree *)

(** The sentinel keeps its parent link. *)
Definition same_nil (t t' : rb_tree_t) : Prop :=
  nil t' = nil t /\ parent <$> store_of t' !! nil t = parent <$> store_of t !! nil t.

Lemma same_nil_trans a b c : same_nil a b -> same_nil b c -> same_nil a c.
Proof. intros [E1 H1] [E2 H2]. split; [congruence|]. rewrite <- H1, <- E1. exact H2. Qed.

(** The pointer to the subtree [X], whose parent is [p]. *)
Definition hangs (t : rb_tree_t) (h : nat) (X : tr) (p : nat) : Prop :=
  h = ptr (nil t) X /\ get_parent t h = Ret p.

Lemma get_parent_nil t t' p : same_nil t t' -> get_parent t (nil t) = Ret p -> get_parent t' (nil t') = Ret p.
Proof.
  intros [E H]. unfold get_parent, rd. rewrite E.
  destruct (store_of t !! nil t), (store_of t' !! nil t); simpl in *; congruence.
Qed.

Lemma hangs_left t t' ctx h X p r :
  hangs t h X p -> same_nil t t' -> tree_is t' (plug ctx (T X p r)) -> hangs t' h X p.
Proof.
  intros [-> H] Hn Ht. pose proof (proj1 Hn) as E. destruct X as [|a x b]; simpl in *.
  - split; [done|]. rewrite <- E. by apply (get_parent_nil t).
  - split; [done|]. by apply (parent_left t' ctx a x b p r).
Qed.

Lemma hangs_right t t' ctx h X p l :
  hangs t h X p -> same_nil t t' -> tree_is t' (plug ctx (T l p X)) -> hangs t' h X p.
Proof.
  intros [-> H] Hn Ht. pose proof (proj1 Hn) as E. destruct X as [|a x b]; simpl in *.
  - split; [done|]. rewrite <- E. by apply (get_parent_nil t).
  - split; [done|]. by apply (parent_right t' ctx a x b p l).
Qed.

(** ** Moves: what a step of the repair does to the tree *)

(** [t'] has the shape [sh] and the colours [c], and what deletion relies on
    is as before. *)
Record moved (t : rb_tree_t) (sh : tr) (c : nat -> rb_color) (t' : rb_tree_t) : Prop := mk_moved {
  mv_data : kept_data t t';
  mv_nilp : same_nil t t';
  mv_nil : nil_black t';
  mv_tree : tree_is t' sh;
  mv_col : forall x, col t' x = c x;
}.

Lemma wr_nil t x f t' :
  wr t x f = Ret t' -> (forall n, parent (f n) = parent n) -> nil t' = nil t -> same_nil t t'.
Proof.
  unfold wr, rd. destruct (store_of t !! x) as [n|] eqn:E; [|done]. simpl. intros [= <-] Hf _.
  split; [done|]. simpl. destruct (decide (x = nil t)) as [->|Hne].
  - rewrite lookup_insert_eq, E. simpl. by rewrite Hf.
  - by rewrite lookup_insert_ne.
Qed.

Lemma move_paint t sh x d :
  tree_is t sh -> nil_black t -> x ∈ inorder sh ->
  exists t', wr t x (put_color d) = Ret t' /\
    moved t sh (fun y => if decide (y = x) then d else col t y) t'.
Proof.
  intros Ht Hb Hx. destruct (paint t sh x d Ht Hb Hx) as (t' & W & (K & C & _) & Ht' & Hb').
  exists t'. split; [done|]. split; try done. apply (wr_nil t x (put_color d)); try done. apply K.
Qed.

(** A rotation does not write the sentinel. *)
Definition nil_as (t t' : rb_tree_t) : Prop := nil t' = nil t /\ store_of t' !! nil t = store_of t !! nil t.

Lemma nil_as_same t t' : nil_as t t' -> same_nil t t'.
Proof. intros [E H]. split; [done|]. by rewrite H. Qed.

Lemma nil_as_trans a b c : nil_as a b -> nil_as b c -> nil_as a c.
Proof. intros [E1 H1] [E2 H2]. split; [congruence|]. rewrite <- H1, <- E1. exact H2. Qed.

Lemma wr_nil_as t x f t' : wr t x f = Ret t' -> x <> nil t -> nil_as t t'.
Proof. unfold wr, rd. destruct (store_of t !! x); [|done]. simpl. intros [= <-] Hx. split; [done|]. simpl. by rewrite lookup_insert_ne. Qed.

Lemma relink_nil_as t x y t' : relink t x y = Ret t' -> nil_as t t'.
Proof.
  unfold relink. destruct (get_parent t x) as [p| | |]; try done. simpl.
  destruct (Nat.eqb_spec p (nil t)); [by intros [= <-]|]. destruct (get_left t p) as [l| | |]; try done. simpl.
  case_test; intros H; by apply wr_nil_as in H.
Qed.

(** The writes of a rotation in turn, each to a node. *)
Ltac nil_other := match goal with N : nil_as _ _ |- _ => pose proof (proj1 N); congruence end.
Ltac nil_next W :=
  match goal with N : nil_as _ _ |- _ => let M := fresh in pose proof (nil_as_trans _ _ _ N W) as M; clear N end.
Ltac rotation_nil :=
  intros H Hy Hx Hyn; rewrite Hy in H; simpl in H; rewrite Hy in H; simpl in H;
  match goal with |- same_nil ?t _ => assert (N0 : nil_as t t) by done end;
  repeat match type of H with
    | (get_left ?t ?y ≫= _) = _ => destruct (get_left t y) as [?| | |]; try done; simpl in H
    | (get_right ?t ?y ≫= _) = _ => destruct (get_right t y) as [?| | |]; try done; simpl in H
    | (get_parent ?t ?y ≫= _) = _ => destruct (get_parent t y) as [?| | |]; try done; simpl in H
    | (wr ?t ?z ?f ≫= _) = _ =>
        let W := fresh in destruct (wr t z f) as [?| | |] eqn:W; try done; simpl in H;
        nil_next (wr_nil_as _ _ _ _ W ltac:(nil_other))
    | ((if (?a =? ?b)%nat then Ret ?t else wr ?t ?z ?f) ≫= _) = _ =>
        destruct (Nat.eqb_spec a b); simpl in H
    | (relink ?t ?a ?b ≫= _) = _ =>
        let W := fresh in destruct (relink t a b) as [?| | |] eqn:W; try done; simpl in H;
        nil_next (relink_nil_as _ _ _ _ W)
    end; injection H as <-; by apply nil_as_same.

Lemma rotate_left_nil_plain t x y t' :
  rotate_left no_events t x = Ret t' -> get_right t x = Ret y -> x <> nil t -> y <> nil t -> same_nil t t'.
Proof. unfold rotate_left. rotation_nil. Qed.

Lemma rotate_right_nil_plain t x y t' :
  rotate_right no_events t x = Ret t' -> get_left t x = Ret y -> x <> nil t -> y <> nil t -> same_nil t t'.
Proof. unfold rotate_right. rotation_nil. Qed.

Lemma rotate_left_nil t x y t' :
  rotate_left ev t x = Ret t' -> get_right t x = Ret y -> x <> nil t -> y <> nil t -> same_nil t t'.
Proof.
  intros H Hy Hx Hyn. rewrite (rotate_left_ev t x y Hy) in H.
  destruct (rotate_left no_events t x) as [t1| | |] eqn:W; try done. simpl in H.
  apply ti_quiet in H as [o ->]. exact (rotate_left_nil_plain t x y t1 W Hy Hx Hyn).
Qed.

Lemma rotate_right_nil t x y t' :
  rotate_right ev t x = Ret t' -> get_left t x = Ret y -> x <> nil t -> y <> nil t -> same_nil t t'.
Proof.
  intros H Hy Hx Hyn. rewrite (rotate_right_ev t x y Hy) in H.
  destruct (rotate_right no_events t x) as [t1| | |] eqn:W; try done. simpl in H.
  apply ti_quiet in H as [o ->]. exact (rotate_right_nil_plain t x y t1 W Hy Hx Hyn).
Qed.

Lemma move_left t ctx a x b y d :
  tree_is t (plug ctx (T a x (T b y d))) -> nil_black t ->
  exists t', rotate_left ev t x = Ret t' /\ moved t (plug ctx (T (T a x b) y d)) (col t) t'.
Proof.
  intros Ht Hb. destruct (rotate_left_tree t ctx a x b y d Ht) as (t' & W & K & Ht'). exists t'. split; [done|].
  destruct (node_at t ctx a x _ Ht) as (nx & _ & Hx & _). destruct (node_at t (RightOf a x :: ctx) b y d Ht) as (ny & _ & Hy & _).
  split; [by apply kept_kept_data| |by apply (nil_black_kept t)|done|intros z; by apply kept_col].
  apply (rotate_left_nil t x y); try done. by apply (parent_right t ctx b y d x a).
Qed.

Lemma move_right t ctx a x b y d :
  tree_is t (plug ctx (T (T a x b) y d)) -> nil_black t ->
  exists t', rotate_right ev t y = Ret t' /\ moved t (plug ctx (T a x (T b y d))) (col t) t'.
Proof.
  intros Ht Hb. destruct (rotate_right_tree t ctx a x b y d Ht) as (t' & W & K & Ht'). exists t'. split; [done|].
  destruct (node_at t ctx _ y d Ht) as (ny & _ & Hy & _). destruct (node_at t (LeftOf y d :: ctx) a x b Ht) as (nx & _ & Hx & _).
  split; [by apply kept_kept_data| |by apply (nil_black_kept t)|done|intros z; by apply kept_col].
  apply (rotate_right_nil t y x); try done. by apply (parent_left t ctx a x b y d).
Qed.

Lemma moved_trans t sh c t1 sh' c' t2 : moved t sh c t1 -> moved t1 sh' c' t2 -> moved t sh' c' t2.
Proof.
  intros [K1 N1 B1 T1 C1] [K2 N2 B2 T2 C2]. split; try done; [by eapply kept_data_trans|by eapply same_nil_trans].
Qed.

Lemma moved_col t sh c c' t' : moved t sh c t' -> (forall x, c x = c' x) -> moved t sh c' t'.
Proof. intros [K N B Ht C] H. split; try done. intros x. by rewrite C. Qed.

(** ** A deficient subtree *)

(** The subtree [X] at [h] has black height [m] where [S m] is needed for the
    tree to have black height [n]; it counts as black for its parent. *)
Record deficient (t : rb_tree_t) (ctx : list frame) (h : nat) (X : tr) (m n : nat) : Prop := mk_deficient {
  df_tree : tree_is t (plug ctx X);
  df_nil : nil_black t;
  df_at : h = ptr (nil t) X;
  df_parent : ctx <> [] -> get_parent t h = Ret (ctx_top (nil t) ctx);
  df_below : below (col t) X;
  df_above : nored_ctx (col t) ctx BLACK;
  df_root : ctx_root (col t) ctx <> Some RED;
  df_height : bh (col t) X m;
  df_ctx : bh_ctx (col t) ctx (S m) n;
}.

(** A finished repair. *)
Definition repaired (t : rb_tree_t) (L : list nat) : Prop :=
  exists sh n, balanced t sh n /\ rootcol (col t) sh = BLACK /\ inorder sh = L.

Lemma parent_top t ctx l x r :
  tree_is t (plug ctx (T l x r)) -> ctx <> [] -> get_parent t x = Ret (ctx_top (nil t) ctx).
Proof.
  intros Ht Hne. destruct ctx as [|[p s|s p] ctx]; [done|..]; simpl in *.
  - by apply (parent_left t ctx l x r p s).
  - by apply (parent_right t ctx l x r p s).
Qed.

(** The child pointers of a node. *)
Lemma child_ptrs t ctx l x r :
  tree_is t (plug ctx (T l x r)) -> nil_black t ->
  exists hl hr, get_left t x = Ret hl /\ get_right t x = Ret hr /\ hl = ptr (nil t) l /\ hr = ptr (nil t) r /\
    forall d, is_color t hl d = Ret (bool_decide (rootcol (col t) l = d)) /\
      is_color t hr d = Ret (bool_decide (rootcol (col t) r = d)).
Proof.
  intros Ht Hb. destruct (node_at t ctx l x r Ht) as (nx & Hn & _ & Hl & Hr).
  exists (left nx), (right nx). unfold get_left, get_right. rewrite (rd_at _ _ _ Hn).
  split; [done|]. split; [done|]. split; [by apply (repr_ptr _ _ x _ _ Hl)|]. split; [by apply (repr_ptr _ _ x _ _ Hr)|].
  intros d. split; by eapply is_color_root.
Qed.

Lemma get_color_at t sh x : tree_is t sh -> x ∈ inorder sh -> get_color t x = Ret (col t x).
Proof.
  intros Hr%tree_is_repr Hx. pose proof (repr_dom _ _ _ _ _ Hr x Hx) as [n Hn]%elem_of_dom.
  unfold get_color, col. by rewrite (rd_at _ _ _ Hn), Hn.
Qed.

(** ** The sibling on the right *)

Section left_rest.
Context (t : rb_tree_t) (ctx : list frame) (h : nat) (X A B : tr) (p w m n : nat).
Context (Hd : deficient t (LeftOf p (T A w B) :: ctx) h X m n).
Context (Hw : col t w = BLACK) (HX : rootcol (col t) X = BLACK).

Lemma left_NoDup : NoDup (p :: w :: inorder X ++ inorder A ++ inorder B ++ ctx_ids ctx).
Proof.
  pose proof (tree_is_NoDup _ _ (df_tree _ _ _ _ _ _ Hd)) as Hnd. simpl in Hnd. rewrite plug_perm in Hnd. simpl in Hnd.
  eapply NoDup_Permutation_proper; [|exact Hnd]. perm_count.
Qed.

(** Case 2: the sibling turns red and the deficiency moves to the parent. *)
Lemma left_red :
  rootcol (col t) A = BLACK -> rootcol (col t) B = BLACK ->
  exists t', delete_rest_left ev t h w = Ret (t', p) /\ kept_data t t' /\
    deficient t' ctx p (T X p (T A w B)) (up (col t) p m) n /\ col t' p = col t p.
Proof.
  intros HA HB. destruct Hd as [Ht Hnil Hat Hpar Hbel Hab Hrt Hh Hc]. simpl in Ht.
  destruct (child_ptrs t (RightOf X p :: ctx) A w B Ht Hnil) as (hl & hr & Hl & Hr & _ & _ & Hcol).
  pose proof left_NoDup as Hnd. apply NoDup_cons in Hnd as [Dp Hnd]. apply NoDup_cons in Hnd as [Dw _].
  destruct (move_paint t _ w RED Ht Hnil) as (t' & W & [K Np Nb Ht' C]); [rewrite inorder_plug; clear; simpl; set_solver|].
  exists t'. split; [|split; [done|]].
  - unfold delete_rest_left. rewrite Hl. simpl. rewrite Hr. simpl. rewrite !(proj1 (Hcol _)), !(proj2 (Hcol _)).
    simpl. rewrite HA, HB. simpl. rewrite W. simpl.
    assert (Hg : hangs t' h X p).
    { apply (hangs_left t t' ctx h X p (T A w B)); try done. split; [done|]. by apply Hpar. }
    by rewrite (proj2 Hg).
  - assert (Hsame : forall L, w ∉ L -> same_on L (col t) (col t')).
    { intros L HL x Hx. rewrite C, decide_False; [done|]. by intros ->. }
    assert (Hpc : col t' p = col t p) by (apply (Hsame [p]); clear - Dp; set_solver).
    assert (Hwr : col t' w = RED) by (by rewrite C, decide_True).
    destruct Hab as (_ & NW & Hab). simpl in Hc. destruct Hc as [HW Hc].
    assert (Hab' : bh (col t) A m /\ bh (col t) B m) by (apply bh_black in HW as (k & [= <-] & ?); done).
    simpl in NW. destruct NW as (_ & NA & NB). split; [|done]. split; try done.
    + apply (parent_top t' ctx X p (T A w B) Ht').
    + simpl. split; [apply (nored_same (col t)); [apply Hsame; out_of Dw|by apply below_black]|].
      split; [|split; apply (nored_same (col t)); (done || apply Hsame; out_of Dw)].
      intros _. split; [rewrite <- HA|rewrite <- HB]; apply rootcol_same, Hsame; out_of Dw.
    + apply (nored_ctx_same (col t)); [apply Hsame; out_of Dw|]. by apply nored_ctx_black in Hab.
    + rewrite (ctx_root_same (col t)) by (apply Hsame; out_of Dw). simpl in Hrt. destruct (ctx_root (col t) ctx); done.
    + assert (Eu : up (col t) p m = up (col t') p m) by (unfold up; by rewrite Hpc). rewrite Eu.
      apply bh_up; [apply (bh_same (col t)); [apply Hsame; out_of Dw|done]|]. apply bh_red; [done|].
      split; (apply (bh_same (col t)); [apply Hsame; out_of Dw|apply Hab']).
    + apply (bh_ctx_same (col t)); [apply Hsame; out_of Dw|]. unfold up in *. by destruct (col t p).
Qed.
End left_rest.

(** The last assignments, with [v] the red child of the sibling. *)
Definition turned_colours (t : rb_tree_t) (p w v : nat) (x : nat) : rb_color :=
  if decide (x = v) then BLACK else if decide (x = p) then BLACK else if decide (x = w) then col t p else col t x.

Lemma left_turn_move t ctx h X A B1 B2 p w v :
  tree_is t (plug ctx (T X p (T A w (T B1 v B2)))) -> nil_black t -> hangs t h X p -> w <> p ->
  exists t', (p ← get_parent t h; pc ← get_color t p; t ← wr t w (put_color pc);
              t ← wr t p (put_color BLACK); wr' ← get_right t w; t ← wr t wr' (put_color BLACK);
              t ← rotate_left ev t p; Ret (t, root t)) = Ret (t', root t') /\
    moved t (plug ctx (T (T X p A) w (T B1 v B2))) (turned_colours t p w v) t'.
Proof.
  intros Ht Hb Hg Hne. rewrite (proj2 Hg). simpl.
  rewrite (get_color_at t _ p Ht) by (rewrite inorder_plug; clear; simpl; set_solver). simpl.
  destruct (move_paint t _ w (col t p) Ht Hb) as (t1 & -> & M1); [rewrite inorder_plug; clear; simpl; set_solver|]. simpl.
  pose proof M1 as [K1 N1 B1' Ht1 C1].
  destruct (move_paint t1 _ p BLACK Ht1 B1') as (t2 & -> & M2); [rewrite inorder_plug; clear; simpl; set_solver|]. simpl.
  pose proof M2 as [K2 N2 B2' Ht2 C2].
  destruct (parent_right t2 (RightOf X p :: ctx) B1 v B2 w A Ht2) as [_ ->]. simpl.
  destruct (move_paint t2 _ v BLACK Ht2 B2') as (t3 & -> & M3); [rewrite inorder_plug; clear; simpl; set_solver|]. simpl.
  pose proof M3 as [K3 N3 B3' Ht3 C3].
  destruct (move_left t3 ctx X p A w (T B1 v B2) Ht3 B3') as (t4 & -> & M4). simpl. exists t4. split; [done|].
  eapply moved_trans; [exact M1|]. eapply moved_trans; [exact M2|]. eapply moved_trans; [exact M3|].
  eapply moved_col; [exact M4|]. intros x. unfold turned_colours. by rewrite C3, C2, C1.
Qed.

Section turned.
Context (c c' : nat -> rb_color) (X A B1 B2 : tr) (p w v : nat) (m : nat) (ctx : list frame) (n : nat).
Context (Hw : c w = BLACK) (Hv : c v = RED) (NX : nored c X) (NA : nored c A) (Nv : nored c (T B1 v B2)).
Context (hX : bh c X m) (hA : bh c A m) (hv : bh c (T B1 v B2) m).
Context (Hpw : c' w = c p) (Hpp : c' p = BLACK) (Hpv : c' v = BLACK).
Context (Hsame : same_on (inorder X ++ inorder A ++ inorder B1 ++ inorder B2 ++ ctx_ids ctx) c c').
Context (Nc : nored_ctx c ctx (c p)) (Hc : bh_ctx c ctx (up c p (S m)) n).

Lemma part_same L : L ⊆ inorder X ++ inorder A ++ inorder B1 ++ inorder B2 ++ ctx_ids ctx -> same_on L c c'.
Proof. intros HL x Hx. by apply Hsame, HL. Qed.

(** The new top has the colour of the old one over two black nodes. *)
Lemma turned_left : nored c' (plug ctx (T (T X p A) w (T B1 v B2))) /\ bh c' (plug ctx (T (T X p A) w (T B1 v B2))) n.
Proof.
  destruct Nv as (_ & N1 & N2). apply bh_red in hv as [h1 h2]; [|done].
  assert (Sx : same_on (inorder X) c c') by (apply part_same; set_solver).
  assert (Sa : same_on (inorder A) c c') by (apply part_same; set_solver).
  assert (S1 : same_on (inorder B1) c c') by (apply part_same; set_solver).
  assert (S2 : same_on (inorder B2) c c') by (apply part_same; set_solver).
  assert (Sc : same_on (ctx_ids ctx) c c') by (apply part_same; set_solver). split.
  - apply nored_plug. split; [|simpl; rewrite Hpw; by apply (nored_ctx_same c)].
    split; [simpl; rewrite Hpp, Hpv; done|].
    split; apply nored_black; try done; by apply (nored_same c).
  - apply bh_plug_ctx. exists (up c' w (S m)). split.
    + apply bh_up; apply bh_black; try done; exists m; (split; [done|]); split; by apply (bh_same c).
    + unfold up. rewrite Hpw. by apply (bh_ctx_same c).
Qed.

Lemma turned_right : nored c' (plug ctx (T (T B1 v B2) w (T A p X))) /\ bh c' (plug ctx (T (T B1 v B2) w (T A p X))) n.
Proof.
  destruct Nv as (_ & N1 & N2). apply bh_red in hv as [h1 h2]; [|done].
  assert (Sx : same_on (inorder X) c c') by (apply part_same; set_solver).
  assert (Sa : same_on (inorder A) c c') by (apply part_same; set_solver).
  assert (S1 : same_on (inorder B1) c c') by (apply part_same; set_solver).
  assert (S2 : same_on (inorder B2) c c') by (apply part_same; set_solver).
  assert (Sc : same_on (ctx_ids ctx) c c') by (apply part_same; set_solver). split.
  - apply nored_plug. split; [|simpl; rewrite Hpw; by apply (nored_ctx_same c)].
    split; [simpl; rewrite Hpp, Hpv; done|].
    split; apply nored_black; try done; by apply (nored_same c).
  - apply bh_plug_ctx. exists (up c' w (S m)). split.
    + apply bh_up; apply bh_black; try done; exists m; (split; [done|]); split; by apply (bh_same c).
    + unfold up. rewrite Hpw. by apply (bh_ctx_same c).
Qed.
End turned.

(** The root is black when the colour of the parent went to the new top. *)
Lemma root_black c c' ctx N x :
  same_on (ctx_ids ctx) c c' -> ctx_root c ctx <> Some RED -> (ctx = [] -> c x = BLACK) ->
  rootcol c' N = c x -> rootcol c' (plug ctx N) = BLACK.
Proof.
  intros Hs Hr Hx HN. destruct (decide (ctx = [])) as [->|Hne]; [simpl; rewrite HN; auto|].
  rewrite <- (ctx_root_same c c' ctx Hs) in Hr. rewrite (ctx_root_plug c' ctx N Hne) in Hr.
  by destruct (rootcol c' (plug ctx N)).
Qed.

(** Case 4: the far child of the sibling is red. *)
Lemma left_turn t ctx h X A B1 B2 p w v m n :
  deficient t (LeftOf p (T A w (T B1 v B2)) :: ctx) h X m n ->
  col t w = BLACK -> rootcol (col t) X = BLACK -> col t v = RED ->
  exists t', (p ← get_parent t h; pc ← get_color t p; t ← wr t w (put_color pc);
              t ← wr t p (put_color BLACK); wr' ← get_right t w; t ← wr t wr' (put_color BLACK);
              t ← rotate_left ev t p; Ret (t, root t)) = Ret (t', root t') /\ kept_data t t' /\
    repaired t' (inorder (plug ctx (T X p (T A w (T B1 v B2))))).
Proof.
  intros Hd Hw HX Hv. pose proof (left_NoDup t ctx h X A _ p w m n Hd) as Hnd.
  apply NoDup_cons in Hnd as [Dp Hnd]. apply NoDup_cons in Hnd as [Dw Hnd].
  assert (Dv : v ∉ inorder X ++ inorder A ++ inorder B1 ++ inorder B2 ++ ctx_ids ctx).
  { assert (Hp : inorder X ++ inorder A ++ inorder (T B1 v B2) ++ ctx_ids ctx ≡ₚ
      v :: inorder X ++ inorder A ++ inorder B1 ++ inorder B2 ++ ctx_ids ctx) by perm_count.
    rewrite Hp in Hnd. by apply NoDup_cons in Hnd as [? _]. }
  destruct Hd as [Ht Hnil Hat Hpar Hbel Hab Hrt Hh Hc]. simpl in Ht.
  destruct (left_turn_move t ctx h X A B1 B2 p w v Ht Hnil) as (t' & -> & [K Np Nb Ht' C]).
  { split; [done|]. by apply Hpar. } { set_solver. }
  exists t'. split; [done|]. split; [done|].
  assert (Cw : col t' w = col t p).
  { rewrite C. unfold turned_colours. rewrite decide_False by set_solver. rewrite decide_False by set_solver.
    by rewrite decide_True. }
  assert (Cp : col t' p = BLACK) by (rewrite C; unfold turned_colours; repeat case_decide; congruence).
  assert (Cv : col t' v = BLACK) by (rewrite C; unfold turned_colours; by rewrite decide_True).
  assert (Hsame : same_on (inorder X ++ inorder A ++ inorder B1 ++ inorder B2 ++ ctx_ids ctx) (col t) (col t')).
  { intros x Hx. rewrite C. unfold turned_colours. rewrite !decide_False by set_solver. done. }
  cbn [bh_ctx nored_ctx] in Hc, Hab. destruct Hc as [HW Hc]. destruct Hab as (_ & (_ & NA & NB) & Hab).
  apply bh_black in HW as (k & [= <-] & HA & HB); [|done].
  destruct (turned_left (col t) (col t') X A B1 B2 p w v m ctx n) as [N1 H1]; try done; [by apply below_black|].
  exists (plug ctx (T (T X p A) w (T B1 v B2))), n. split; [by split|]. split; [|by rewrite <- inorder_rotate].
  assert (Hctx : same_on (ctx_ids ctx) (col t) (col t')) by (intros x Hx; apply Hsame; set_solver).
  simpl in Hrt. apply (root_black (col t) (col t') ctx _ p Hctx); try done.
  - destruct (ctx_root (col t) ctx); done.
  - intros ->. simpl in Hrt. by destruct (col t p).
Qed.

(** Case 3: the near child of the sibling is red; it becomes the sibling. *)
Lemma left_near t ctx h X A1 A2 B p w v m n :
  deficient t (LeftOf p (T (T A1 v A2) w B) :: ctx) h X m n ->
  col t w = BLACK -> rootcol (col t) X = BLACK -> col t v = RED -> rootcol (col t) B = BLACK ->
  exists t', (t ← wr t v (put_color BLACK); t ← wr t w (put_color RED); t ← rotate_right ev t w;
              p ← get_parent t h; w ← get_right t p; Ret (t, w)) = Ret (t', v) /\ kept_data t t' /\
    deficient t' (LeftOf p (T A1 v (T A2 w B)) :: ctx) h X m n /\
    col t' v = BLACK /\ rootcol (col t') X = BLACK /\ col t' w = RED.
Proof.
  intros Hd Hw HX Hv HB. pose proof (left_NoDup t ctx h X _ B p w m n Hd) as Hnd.
  assert (Hp : p :: w :: inorder X ++ inorder (T A1 v A2) ++ inorder B ++ ctx_ids ctx ≡ₚ
    w :: v :: p :: inorder X ++ inorder A1 ++ inorder A2 ++ inorder B ++ ctx_ids ctx) by perm_count.
  rewrite Hp in Hnd. apply NoDup_cons in Hnd as [Dw Hnd]. apply NoDup_cons in Hnd as [Dv _]. clear Hp.
  destruct Hd as [Ht Hnil Hat Hpar Hbel Hab Hrt Hh Hc]. simpl plug in Ht.
  destruct (move_paint t _ v BLACK Ht Hnil) as (t1 & -> & M1); [rewrite inorder_plug; clear; simpl; set_solver|]. simpl.
  pose proof M1 as [K1 N1 B1' Ht1 C1].
  destruct (move_paint t1 _ w RED Ht1 B1') as (t2 & -> & M2); [rewrite inorder_plug; clear; simpl; set_solver|]. simpl.
  pose proof M2 as [K2 N2 B2' Ht2 C2].
  destruct (move_right t2 (RightOf X p :: ctx) A1 v A2 w B Ht2 B2') as (t3 & -> & M3). simpl.
  pose proof (moved_trans _ _ _ _ _ _ _ (moved_trans _ _ _ _ _ _ _ M1 M2) M3) as [K Np Nb Ht' _].
  pose proof M3 as [_ _ _ _ C3]. simpl plug in Ht'.
  assert (Hg : hangs t3 h X p).
  { apply (hangs_left t t3 ctx h X p (T A1 v (T A2 w B))); try done. split; [done|]. by apply Hpar. }
  rewrite (proj2 Hg). simpl. destruct (parent_right t3 ctx A1 v (T A2 w B) p X Ht') as [_ ->]. simpl.
  exists t3. split; [done|]. split; [done|].
  assert (C : forall x, col t3 x = if decide (x = w) then RED else if decide (x = v) then BLACK else col t x)
    by (intros x; by rewrite C3, C2, C1).
  assert (Hsame : forall L, w ∉ L -> v ∉ L -> same_on L (col t) (col t3)).
  { intros L HLw HLv x Hx. rewrite C, !decide_False; [done|..]; congruence. }
  assert (Cw : col t3 w = RED) by (rewrite C; by rewrite decide_True).
  assert (Cv : col t3 v = BLACK).
  { rewrite C, decide_False, decide_True; [done|done|]. intros ->. apply Dw. clear. set_solver. }
  assert (Sx : same_on (inorder X) (col t) (col t3)) by (apply Hsame; [out_of Dw|out_of Dv]).
  assert (S1 : same_on (inorder A1) (col t) (col t3)) by (apply Hsame; [out_of Dw|out_of Dv]).
  assert (S2 : same_on (inorder A2) (col t) (col t3)) by (apply Hsame; [out_of Dw|out_of Dv]).
  assert (Sb : same_on (inorder B) (col t) (col t3)) by (apply Hsame; [out_of Dw|out_of Dv]).
  assert (Sc : same_on (p :: ctx_ids ctx) (col t) (col t3)) by (apply Hsame; [out_of Dw|out_of Dv]).
  assert (Sc' : same_on (ctx_ids ctx) (col t) (col t3)) by (intros x Hx; apply Sc; clear - Hx; set_solver).
  assert (Cp : col t3 p = col t p) by (apply Sc; clear; set_solver).
  cbn [bh_ctx nored_ctx] in Hc, Hab. destruct Hc as [HW Hc]. destruct Hab as (_ & (_ & NA & NB) & Hab).
  apply bh_black in HW as (k & [= <-] & HA & HBb); [|done]. apply bh_red in HA as [HA1 HA2]; [|done].
  destruct NA as (Hv' & NA1 & NA2). destruct (Hv' Hv) as [RA1 RA2].
  split; [|split; [done|split; [by rewrite (rootcol_same (col t))|done]]]. split; try done.
  - apply Hg.
  - intros _. apply Hg.
  - by apply (below_same (col t)).
  - simpl. rewrite Cv, Cp. split; [done|]. split; [|by apply (nored_ctx_same (col t))].
    split; [done|]. split; [by apply (nored_same (col t))|]. split.
    + intros _. by rewrite (rootcol_same (col t) (col t3) A2), (rootcol_same (col t) (col t3) B).
    + split; by apply (nored_same (col t)).
  - simpl in Hrt |- *. by rewrite (ctx_root_same (col t)), Cp.
  - by apply (bh_same (col t)).
  - cbn [bh_ctx]. unfold up in *. rewrite Cp. split; [|by apply (bh_ctx_same (col t))].
    apply bh_black; [done|]. exists m. split; [done|]. split; [by apply (bh_same (col t))|].
    apply bh_red; [done|]. split; by apply (bh_same (col t)).
Qed.

(** What an iteration leaves: a deficiency further up, or under a red node,
    or no deficiency and the root as the next node. *)
Definition advanced (len : nat) (L : list nat) (n : nat) (t : rb_tree_t) (x : nat) : Prop :=
  (exists ctx X m, deficient t ctx x X m n /\ inorder (plug ctx X) = L /\
    ((length ctx < len)%nat \/ rootcol (col t) X = RED)) \/
  (x = root t /\ repaired t L).

Lemma left_rest_ok t ctx h X A B p w m n :
  deficient t (LeftOf p (T A w B) :: ctx) h X m n -> col t w = BLACK -> rootcol (col t) X = BLACK ->
  exists t' x, delete_rest_left ev t h w = Ret (t', x) /\ kept_data t t' /\
    ((exists X' m', deficient t' ctx x X' m' n /\ inorder (plug ctx X') = inorder (plug ctx (T X p (T A w B))) /\
       rootcol (col t') X' = col t p) \/
     (x = root t' /\ repaired t' (inorder (plug ctx (T X p (T A w B)))))).
Proof.
  intros Hd Hw HX. pose proof Hd as [Ht Hnil _ _ _ _ _ _ _]. simpl plug in Ht.
  destruct (child_ptrs t (RightOf X p :: ctx) A w B Ht Hnil) as (hl & hr & Hl & Hr & El & Er & Hcol).
  destruct (rootcol (col t) B) eqn:HB.
  - destruct B as [|B1 v B2]; [done|]. simpl in HB.
    destruct (left_turn t ctx h X A B1 B2 p w v m n Hd Hw HX HB) as (t' & Hrun & K & Hrep).
    exists t', (root t'). split; [|split; [done|by right]].
    unfold delete_rest_left. rewrite Hl. simpl. rewrite Hr. simpl. rewrite (proj1 (Hcol _)), (proj2 (Hcol _)).
    simpl. rewrite andb_false_r. exact Hrun.
  - destruct (rootcol (col t) A) eqn:HA.
    + destruct A as [|A1 v A2]; [done|]. simpl in HA.
      destruct (left_near t ctx h X A1 A2 B p w v m n Hd Hw HX HA HB) as (t1 & Hrun1 & K1 & Hd1 & Hv1 & HX1 & Hw1).
      destruct (left_turn t1 ctx h X A1 A2 B p v w m n Hd1 Hv1 HX1 Hw1) as (t' & Hrun & K & Hrep).
      exists t', (root t'). split; [|split; [by eapply kept_data_trans|right; split; [done|]]].
      * unfold delete_rest_left. rewrite Hl. simpl. rewrite Hr. simpl. rewrite (proj1 (Hcol _)), (proj2 (Hcol _)).
        rewrite El. simpl.
        destruct (wr t v _) as [ta| | |]; try done. simpl in Hrun1 |- *.
        destruct (wr ta w _) as [tb| | |]; try done. simpl in Hrun1 |- *.
        destruct (rotate_right ev tb w) as [tc| | |]; try done. simpl in Hrun1 |- *.
        destruct (get_parent tc h) as [pc| | |]; try done. simpl in Hrun1 |- *.
        destruct (get_right tc pc) as [wc| | |]; try done. simpl in Hrun1 |- *. injection Hrun1 as -> ->. simpl.
        exact Hrun.
      * pose proof (inorder_rotate (RightOf X p :: ctx) A1 v A2 w B) as Ei. simpl plug in Ei. by rewrite <- Ei.
    + destruct (left_red t ctx h X A B p w m n Hd Hw HX HA HB) as (t' & Hrun & K & Hd' & Hp).
      exists t', p. split; [done|]. split; [done|]. left. by eexists _, _.
Qed.

(** Case 1: a red sibling is turned into a black one. *)
Lemma left_red_sibling t ctx h X A B p w m n :
  deficient t (LeftOf p (T A w B) :: ctx) h X m n -> col t w = RED -> rootcol (col t) X = BLACK ->
  exists t' A1 v A2, A = T A1 v A2 /\
    (t ← wr t w (put_color BLACK); t ← wr t p (put_color RED); t ← rotate_left ev t p;
     p ← get_parent t h; w ← get_right t p; Ret (t, w)) = Ret (t', v) /\ kept_data t t' /\
    deficient t' (LeftOf p (T A1 v A2) :: LeftOf w B :: ctx) h X m n /\
    col t' v = BLACK /\ rootcol (col t') X = BLACK /\ col t' p = RED.
Proof.
  intros Hd Hw HX. pose proof (left_NoDup t ctx h X A B p w m n Hd) as Hnd.
  apply NoDup_cons in Hnd as [Dp Hnd]. apply NoDup_cons in Hnd as [Dw _].
  destruct Hd as [Ht Hnil Hat Hpar Hbel Hab Hrt Hh Hc]. simpl plug in Ht.
  cbn [bh_ctx nored_ctx] in Hc, Hab. destruct Hc as [HW Hc]. destruct Hab as (Hpr & (Hwc & NA & NB) & Hab).
  apply bh_red in HW as [HA HB]; [|done]. destruct (Hwc Hw) as [RA RB].
  assert (Hpb : col t p = BLACK) by (destruct (col t p) eqn:E; [|done]; destruct (Hpr eq_refl) as [_ H]; simpl in H; congruence).
  destruct A as [|A1 v A2]; [done|]. simpl in RA.
  destruct (move_paint t _ w BLACK Ht Hnil) as (t1 & -> & M1); [rewrite inorder_plug; clear; simpl; set_solver|]. simpl.
  pose proof M1 as [K1 N1 B1' Ht1 C1].
  destruct (move_paint t1 _ p RED Ht1 B1') as (t2 & -> & M2); [rewrite inorder_plug; clear; simpl; set_solver|]. simpl.
  pose proof M2 as [K2 N2 B2' Ht2 C2].
  destruct (move_left t2 ctx X p (T A1 v A2) w B Ht2 B2') as (t3 & -> & M3). simpl.
  pose proof (moved_trans _ _ _ _ _ _ _ (moved_trans _ _ _ _ _ _ _ M1 M2) M3) as [K Np Nb Ht' _].
  pose proof M3 as [_ _ _ _ C3].
  assert (Hg : hangs t3 h X p).
  { apply (hangs_left t t3 (LeftOf w B :: ctx) h X p (T A1 v A2)); try done. split; [done|]. by apply Hpar. }
  rewrite (proj2 Hg). simpl. destruct (parent_right t3 (LeftOf w B :: ctx) A1 v A2 p X Ht') as [_ ->]. simpl.
  exists t3, A1, v, A2. split; [done|]. split; [done|]. split; [done|].
  assert (C : forall x, col t3 x = if decide (x = p) then RED else if decide (x = w) then BLACK else col t x)
    by (intros x; by rewrite C3, C2, C1).
  assert (Hsame : forall L, p ∉ L -> w ∉ L -> same_on L (col t) (col t3)).
  { intros L HLp HLw x Hx. rewrite C, !decide_False; [done|..]; congruence. }
  assert (Cp : col t3 p = RED) by (rewrite C; by rewrite decide_True).
  assert (Cw : col t3 w = BLACK).
  { rewrite C, decide_False, decide_True; [done|done|]. intros ->. apply Dp. clear. set_solver. }
  assert (Sx : same_on (inorder X) (col t) (col t3)) by (apply Hsame; [out_of Dp|out_of Dw]).
  assert (Sa : same_on (inorder (T A1 v A2)) (col t) (col t3)) by (apply Hsame; [out_of Dp|out_of Dw]).
  assert (Sb : same_on (inorder B) (col t) (col t3)) by (apply Hsame; [out_of Dp|out_of Dw]).
  assert (Sc : same_on (ctx_ids ctx) (col t) (col t3)) by (apply Hsame; [out_of Dp|out_of Dw]).
  split; [|split; [rewrite <- RA; apply Sa; clear; simpl; set_solver|split; [by rewrite (rootcol_same (col t))|done]]].
  split; try done.
  - apply Hg.
  - intros _. apply Hg.
  - by apply (below_same (col t)).
  - cbn [nored_ctx]. rewrite Cp, Cw. split; [intros _; split; [done|]|].
    { rewrite (rootcol_same (col t) (col t3)) by done. done. }
    split; [by apply (nored_same (col t))|]. split; [done|]. split; [by apply (nored_same (col t))|].
    rewrite Hpb in Hab. by apply (nored_ctx_same (col t)).
  - cbn [ctx_root]. rewrite (ctx_root_same (col t)), Cw by done. cbn [ctx_root] in Hrt.
    by destruct (ctx_root (col t) ctx).
  - by apply (bh_same (col t)).
  - cbn [bh_ctx]. unfold up in *. rewrite Cp, Cw. rewrite Hpb in Hc. split; [by apply (bh_same (col t))|].
    split; [by apply (bh_same (col t))|]. by apply (bh_ctx_same (col t)).
Qed.

(** The sibling of a deficient subtree is not empty. *)
Lemma left_sibling t ctx h X W p m n : deficient t (LeftOf p W :: ctx) h X m n -> exists A w B, W = T A w B.
Proof. intros Hd. destruct (df_ctx _ _ _ _ _ _ Hd) as [HW _]. destruct W as [|A w B]; [done|eauto]. Qed.

Lemma left_step t ctx h X W p m n :
  deficient t (LeftOf p W :: ctx) h X m n -> rootcol (col t) X = BLACK ->
  exists t' x, delete_fixup_step ev t h = Ret (t', x) /\ kept_data t t' /\
    advanced (S (length ctx)) (inorder (plug (LeftOf p W :: ctx) X)) n t' x.
Proof.
  intros Hd HX. destruct (left_sibling _ _ _ _ _ _ _ _ Hd) as (A & w & B & ->).
  pose proof Hd as [Ht Hnil Hat Hpar _ _ _ _ _]. simpl plug in Ht |- *.
  destruct (child_ptrs t ctx X p (T A w B) Ht Hnil) as (hl & hr & Hl & Hr & El & Er & Hcol).
  unfold delete_fixup_step. rewrite Hpar by done. simpl. rewrite Hl. simpl.
  rewrite (proj2 (Nat.eqb_eq h hl)) by congruence. rewrite Hr. simpl. rewrite (proj2 (Hcol _)). simpl.
  simpl in Er. subst hr. destruct (col t w) eqn:Hw; simpl.
  - destruct (left_red_sibling t ctx h X A B p w m n Hd Hw HX) as (t1 & A1 & v & A2 & -> & Hrun & K1 & Hd1 & Hv & HX1 & Hp1).
    destruct (left_rest_ok t1 (LeftOf w B :: ctx) h X A1 A2 p v m n Hd1 Hv HX1) as (t' & x & Hrest & K & Hout).
    exists t', x. split; [|split; [by eapply kept_data_trans|]].
    + destruct (wr t w _) as [ta| | |]; try done. simpl in Hrun |- *.
      destruct (wr ta p _) as [tb| | |]; try done. simpl in Hrun |- *.
      destruct (rotate_left ev tb p) as [tc| | |]; try done. simpl in Hrun |- *.
      destruct (get_parent tc h) as [pc| | |]; try done. simpl in Hrun |- *.
      destruct (get_right tc pc) as [wc| | |]; try done. simpl in Hrun |- *. injection Hrun as -> ->. exact Hrest.
    + pose proof (inorder_rotate ctx X p (T A1 v A2) w B) as Ei. simpl plug in Hout. rewrite <- Ei in Hout.
      destruct Hout as [(X' & m' & Hd' & Hin & Hc)|Hrep]; [left|by right].
      exists (LeftOf w B :: ctx), X', m'. split; [done|]. split; [done|]. right. by rewrite Hc.
  - destruct (left_rest_ok t ctx h X A B p w m n Hd Hw HX) as (t' & x & Hrest & K & Hout).
    exists t', x. split; [done|]. split; [done|].
    destruct Hout as [(X' & m' & Hd' & Hin & Hc)|Hrep]; [left|by right].
    exists ctx, X', m'. split; [done|]. split; [done|]. left. lia.
Qed.
End rb.
