(* ===== verification/RbFix.v ===== *)
(** * lib/rb_tree.c: the repair after a deletion, as a loop

    The half of delete_fixup for a subtree that is a right child, where left
    and right are exchanged, and the loop over both halves. *)

From S2P Require Import Prelude.
From stdpp Require Import list gmap sorting.
From S2P Require Import RbTree RbEvents RbInsert RbAdd RbDelete.
Local Open Scope Z_scope.

Section rb.
Context {ev : events} {TI : tree_inv ev}.

(** ** The sibling on the left *)

Section right_rest.
Context (t : rb_tree_t) (ctx : list frame) (h : nat) (X A B : tr) (p w m n : nat).
Context (Hd : deficient t (RightOf (T B w A) p :: ctx) h X m n).
Context (Hw : col t w = BLACK) (HX : rootcol (col t) X = BLACK).

Lemma right_NoDup : NoDup (p :: w :: inorder X ++ inorder A ++ inorder B ++ ctx_ids ctx).
Proof.
  pose proof (tree_is_NoDup _ _ (df_tree _ _ _ _ _ _ Hd)) as Hnd. simpl in Hnd. rewrite plug_perm in Hnd. simpl in Hnd.
  eapply NoDup_Permutation_proper; [|exact Hnd]. perm_count.
Qed.

(** Case 6: the sibling turns red and the deficiency moves to the parent. *)
Lemma right_red :
  rootcol (col t) A = BLACK -> rootcol (col t) B = BLACK ->
  exists t', delete_rest_right ev t h w = Ret (t', p) /\ kept_data t t' /\
    deficient t' ctx p (T (T B w A) p X) (up (col t) p m) n /\ col t' p = col t p.
Proof.
  intros HA HB. destruct Hd as [Ht Hnil Hat Hpar Hbel Hab Hrt Hh Hc]. simpl in Ht.
  destruct (child_ptrs t (LeftOf p X :: ctx) B w A Ht Hnil) as (hl & hr & Hl & Hr & _ & _ & Hcol).
  pose proof right_NoDup as Hnd. apply NoDup_cons in Hnd as [Dp Hnd]. apply NoDup_cons in Hnd as [Dw _].
  destruct (move_paint t _ w RED Ht Hnil) as (t' & W & [K Np Nb Ht' C]); [rewrite inorder_plug; clear; simpl; set_solver|].
  exists t'. split; [|split; [done|]].
  - unfold delete_rest_right. rewrite Hr. simpl. rewrite Hl. simpl. rewrite !(proj1 (Hcol _)), !(proj2 (Hcol _)).
    simpl. rewrite HA, HB. simpl. rewrite W. simpl.
    assert (Hg : hangs t' h X p).
    { apply (hangs_right t t' ctx h X p (T B w A)); try done. split; [done|]. by apply Hpar. }
    by rewrite (proj2 Hg).
  - assert (Hsame : forall L, w ∉ L -> same_on L (col t) (col t')).
    { intros L HL x Hx. rewrite C, decide_False; [done|]. by intros ->. }
    assert (Hpc : col t' p = col t p) by (apply (Hsame [p]); clear - Dp; set_solver).
    assert (Hwr : col t' w = RED) by (by rewrite C, decide_True).
    destruct Hab as (_ & NW & Hab). simpl in Hc. destruct Hc as [HW Hc].
    assert (Hab' : bh (col t) A m /\ bh (col t) B m) by (apply bh_black in HW as (k & [= <-] & ?); tauto).
    simpl in NW. destruct NW as (_ & NB & NA). split; [|done]. split; try done.
    + apply (parent_top t' ctx (T B w A) p X Ht').
    + simpl. split; [|apply (nored_same (col t)); [apply Hsame; out_of Dw|by apply below_black]].
      split; [|split; apply (nored_same (col t)); (done || apply Hsame; out_of Dw)].
      intros _. split; [rewrite <- HB|rewrite <- HA]; apply rootcol_same, Hsame; out_of Dw.
    + apply (nored_ctx_same (col t)); [apply Hsame; out_of Dw|]. by apply nored_ctx_black in Hab.
    + rewrite (ctx_root_same (col t)) by (apply Hsame; out_of Dw). simpl in Hrt. destruct (ctx_root (col t) ctx); done.
    + assert (Eu : up (col t) p m = up (col t') p m) by (unfold up; by rewrite Hpc). rewrite Eu.
      apply bh_up; [|apply (bh_same (col t)); [apply Hsame; out_of Dw|done]]. apply bh_red; [done|].
      split; (apply (bh_same (col t)); [apply Hsame; out_of Dw|apply Hab']).
    + apply (bh_ctx_same (col t)); [apply Hsame; out_of Dw|]. unfold up in *. by destruct (col t p).
Qed.
End right_rest.

Lemma right_turn_move t ctx h X A B1 B2 p w v :
  tree_is t (plug ctx (T (T (T B1 v B2) w A) p X)) -> nil_black t -> hangs t h X p -> w <> p ->
  exists t', (p ← get_parent t h; pc ← get_color t p; t ← wr t w (put_color pc);
              t ← wr t p (put_color BLACK); wr' ← get_left t w; t ← wr t wr' (put_color BLACK);
              t ← rotate_right ev t p; Ret (t, root t)) = Ret (t', root t') /\
    moved t (plug ctx (T (T B1 v B2) w (T A p X))) (turned_colours t p w v) t'.
Proof.
  intros Ht Hb Hg Hne. rewrite (proj2 Hg). simpl.
  rewrite (get_color_at t _ p Ht) by (rewrite inorder_plug; clear; simpl; set_solver). simpl.
  destruct (move_paint t _ w (col t p) Ht Hb) as (t1 & -> & M1); [rewrite inorder_plug; clear; simpl; set_solver|]. simpl.
  pose proof M1 as [K1 N1 B1' Ht1 C1].
  destruct (move_paint t1 _ p BLACK Ht1 B1') as (t2 & -> & M2); [rewrite inorder_plug; clear; simpl; set_solver|]. simpl.
  pose proof M2 as [K2 N2 B2' Ht2 C2].
  destruct (parent_left t2 (LeftOf p X :: ctx) B1 v B2 w A Ht2) as [_ ->]. simpl.
  destruct (move_paint t2 _ v BLACK Ht2 B2') as (t3 & -> & M3); [rewrite inorder_plug; clear; simpl; set_solver|]. simpl.
  pose proof M3 as [K3 N3 B3' Ht3 C3].
  destruct (move_right t3 ctx (T B1 v B2) w A p X Ht3 B3') as (t4 & -> & M4). simpl. exists t4. split; [done|].
  eapply moved_trans; [exact M1|]. eapply moved_trans; [exact M2|]. eapply moved_trans; [exact M3|].
  eapply moved_col; [exact M4|]. intros x. unfold turned_colours. by rewrite C3, C2, C1.
Qed.

(** Case 8: the far child of the sibling is red. *)
Lemma right_turn t ctx h X A B1 B2 p w v m n :
  deficient t (RightOf (T (T B1 v B2) w A) p :: ctx) h X m n ->
  col t w = BLACK -> rootcol (col t) X = BLACK -> col t v = RED ->
  exists t', (p ← get_parent t h; pc ← get_color t p; t ← wr t w (put_color pc);
              t ← wr t p (put_color BLACK); wr' ← get_left t w; t ← wr t wr' (put_color BLACK);
              t ← rotate_right ev t p; Ret (t, root t)) = Ret (t', root t') /\ kept_data t t' /\
    repaired t' (inorder (plug ctx (T (T (T B1 v B2) w A) p X))).
Proof.
  intros Hd Hw HX Hv. pose proof (right_NoDup t ctx h X A _ p w m n Hd) as Hnd.
  apply NoDup_cons in Hnd as [Dp Hnd]. apply NoDup_cons in Hnd as [Dw Hnd].
  assert (Dv : v ∉ inorder X ++ inorder A ++ inorder B1 ++ inorder B2 ++ ctx_ids ctx).
  { assert (Hp : inorder X ++ inorder A ++ inorder (T B1 v B2) ++ ctx_ids ctx ≡ₚ
      v :: inorder X ++ inorder A ++ inorder B1 ++ inorder B2 ++ ctx_ids ctx) by perm_count.
    rewrite Hp in Hnd. by apply NoDup_cons in Hnd as [? _]. }
  destruct Hd as [Ht Hnil Hat Hpar Hbel Hab Hrt Hh Hc]. simpl in Ht.
  destruct (right_turn_move t ctx h X A B1 B2 p w v Ht Hnil) as (t' & -> & [K Np Nb Ht' C]).
  { split; [done|]. by apply Hpar. } { set_solver. }
  exists t'. split; [done|]. split; [done|].
  assert (Cw : col t' w = col t p).
  { rewrite C. unfold turned_colours. rewrite decide_False by set_solver. rewrite decide_False by set_solver.
    by rewrite decide_True. }
  assert (Cp : col t' p = BLACK) by (rewrite C; unfold turned_colours; repeat case_decide; congruence).
  assert (Cv : col t' v = BLACK) by (rewrite C; unfold turned_colours; by rewrite decide_True).
  assert (Hsame : same_on (inorder X ++ inorder A ++ inorder B1 ++ inorder B2 ++ ctx_ids ctx) (col t) (col t')).
  { intros x Hx. rewrite C. unfold turned_colours. rewrite !decide_False by set_solver. done. }
  cbn [bh_ctx nored_ctx] in Hc, Hab. destruct Hc as [HW Hc]. destruct Hab as (_ & (_ & NB & NA) & Hab).
  apply bh_black in HW as (k & [= <-] & HB & HA); [|done].
  destruct (turned_right (col t) (col t') X A B1 B2 p w v m ctx n) as [N1 H1]; try done; [by apply below_black|].
  exists (plug ctx (T (T B1 v B2) w (T A p X))), n. split; [by split|]. split; [|by rewrite inorder_rotate].
  assert (Hctx : same_on (ctx_ids ctx) (col t) (col t')) by (intros x Hx; apply Hsame; set_solver).
  simpl in Hrt. apply (root_black (col t) (col t') ctx _ p Hctx); try done.
  - destruct (ctx_root (col t) ctx); done.
  - intros ->. simpl in Hrt. by destruct (col t p).
Qed.

(** Case 7: the near child of the sibling is red; it becomes the sibling. *)
Lemma right_near t ctx h X A1 A2 B p w v m n :
  deficient t (RightOf (T B w (T A1 v A2)) p :: ctx) h X m n ->
  col t w = BLACK -> rootcol (col t) X = BLACK -> col t v = RED -> rootcol (col t) B = BLACK ->
  exists t', (t ← wr t v (put_color BLACK); t ← wr t w (put_color RED); t ← rotate_left ev t w;
              p ← get_parent t h; w ← get_left t p; Ret (t, w)) = Ret (t', v) /\ kept_data t t' /\
    deficient t' (RightOf (T (T B w A1) v A2) p :: ctx) h X m n /\
    col t' v = BLACK /\ rootcol (col t') X = BLACK /\ col t' w = RED.
Proof.
  intros Hd Hw HX Hv HB. pose proof (right_NoDup t ctx h X _ B p w m n Hd) as Hnd.
  assert (Hp : p :: w :: inorder X ++ inorder (T A1 v A2) ++ inorder B ++ ctx_ids ctx ≡ₚ
    w :: v :: p :: inorder X ++ inorder A1 ++ inorder A2 ++ inorder B ++ ctx_ids ctx) by perm_count.
  rewrite Hp in Hnd. apply NoDup_cons in Hnd as [Dw Hnd]. apply NoDup_cons in Hnd as [Dv _]. clear Hp.
  destruct Hd as [Ht Hnil Hat Hpar Hbel Hab Hrt Hh Hc]. simpl plug in Ht.
  destruct (move_paint t _ v BLACK Ht Hnil) as (t1 & -> & M1); [rewrite inorder_plug; clear; simpl; set_solver|]. simpl.
  pose proof M1 as [K1 N1 B1' Ht1 C1].
  destruct (move_paint t1 _ w RED Ht1 B1') as (t2 & -> & M2); [rewrite inorder_plug; clear; simpl; set_solver|]. simpl.
  pose proof M2 as [K2 N2 B2' Ht2 C2].
  destruct (move_left t2 (LeftOf p X :: ctx) B w A1 v A2 Ht2 B2') as (t3 & -> & M3). simpl.
  pose proof (moved_trans _ _ _ _ _ _ _ (moved_trans _ _ _ _ _ _ _ M1 M2) M3) as [K Np Nb Ht' _].
  pose proof M3 as [_ _ _ _ C3]. simpl plug in Ht'.
  assert (Hg : hangs t3 h X p).
  { apply (hangs_right t t3 ctx h X p (T (T B w A1) v A2)); try done. split; [done|]. by apply Hpar. }
  rewrite (proj2 Hg). simpl. destruct (parent_left t3 ctx (T B w A1) v A2 p X Ht') as [_ ->]. simpl.
  exists t3. split; [done|]. split; [done|].
  assert (C : forall x, col t3 x = if decide (x = w) then RED else if decide (x = v) then BLACK else col t x)
    by (intros x; by rewrite C3, C2, C1).
  assert (Hsame : forall L, w ∉ L -> v ∉ L -> same_on L (col t) (col t3)).
  { intros L HLw HLv x Hx. rewrite C, !decide_False; [done|..]; congruence. }
  assert (Cw : col t3 w = RED) by (rewrite C; by rewrite decide_True).
  assert (Cv : col t3 v = BLACK).
  { rewrite C, decide_False, decide_True; [done|done|]. intros ->. apply Dw. clear. set_solver. }
  assert (Sx : same_on (inorder X) (col t) (col t3)) by (apply Hsame; [out_of Dw|out_of Dv]).
  assert (S1 : same_on (inorder A1) (col t) (col t3)) by (apply Hsame; [out_of Dw|out_of Dv]).
  assert (S2 : same_on (inorder A2) (col t) (col t3)) by (apply Hsame; [out_of Dw|out_of Dv]).
  assert (Sb : same_on (inorder B) (col t) (col t3)) by (apply Hsame; [out_of Dw|out_of Dv]).
  assert (Sc : same_on (p :: ctx_ids ctx) (col t) (col t3)) by (apply Hsame; [out_of Dw|out_of Dv]).
  assert (Sc' : same_on (ctx_ids ctx) (col t) (col t3)) by (intros x Hx; apply Sc; clear - Hx; set_solver).
  assert (Cp : col t3 p = col t p) by (apply Sc; clear; set_solver).
  cbn [bh_ctx nored_ctx] in Hc, Hab. destruct Hc as [HW Hc]. destruct Hab as (_ & (_ & NB & NA) & Hab).
  apply bh_black in HW as (k & [= <-] & HBb & HA); [|done]. apply bh_red in HA as [HA1 HA2]; [|done].
  destruct NA as (Hv' & NA1 & NA2). destruct (Hv' Hv) as [RA1 RA2].
  split; [|split; [done|split; [by rewrite (rootcol_same (col t))|done]]]. split; try done.
  - apply Hg.
  - intros _. apply Hg.
  - by apply (below_same (col t)).
  - simpl. rewrite Cv, Cp. split; [done|]. split; [|by apply (nored_ctx_same (col t))].
    split; [done|]. split; [|by apply (nored_same (col t))]. split.
    + intros _. by rewrite (rootcol_same (col t) (col t3) A1), (rootcol_same (col t) (col t3) B).
    + split; by apply (nored_same (col t)).
  - simpl in Hrt |- *. by rewrite (ctx_root_same (col t)), Cp.
  - by apply (bh_same (col t)).
  - cbn [bh_ctx]. unfold up in *. rewrite Cp. split; [|by apply (bh_ctx_same (col t))].
    apply bh_black; [done|]. exists m. split; [done|]. split; [|by apply (bh_same (col t))].
    apply bh_red; [done|]. split; by apply (bh_same (col t)).
Qed.

Lemma right_rest_ok t ctx h X A B p w m n :
  deficient t (RightOf (T B w A) p :: ctx) h X m n -> col t w = BLACK -> rootcol (col t) X = BLACK ->
  exists t' x, delete_rest_right ev t h w = Ret (t', x) /\ kept_data t t' /\
    ((exists X' m', deficient t' ctx x X' m' n /\ inorder (plug ctx X') = inorder (plug ctx (T (T B w A) p X)) /\
       rootcol (col t') X' = col t p) \/
     (x = root t' /\ repaired t' (inorder (plug ctx (T (T B w A) p X))))).
Proof.
  intros Hd Hw HX. pose proof Hd as [Ht Hnil _ _ _ _ _ _ _]. simpl plug in Ht.
  destruct (child_ptrs t (LeftOf p X :: ctx) B w A Ht Hnil) as (hl & hr & Hl & Hr & El & Er & Hcol).
  destruct (rootcol (col t) B) eqn:HB.
  - destruct B as [|B1 v B2]; [done|]. simpl in HB.
    destruct (right_turn t ctx h X A B1 B2 p w v m n Hd Hw HX HB) as (t' & Hrun & K & Hrep).
    exists t', (root t'). split; [|split; [done|by right]].
    unfold delete_rest_right. rewrite Hr. simpl. rewrite Hl. simpl. rewrite (proj1 (Hcol _)), (proj2 (Hcol _)).
    simpl. rewrite andb_false_r. exact Hrun.
  - destruct (rootcol (col t) A) eqn:HA.
    + destruct A as [|A1 v A2]; [done|]. simpl in HA.
      destruct (right_near t ctx h X A1 A2 B p w v m n Hd Hw HX HA HB) as (t1 & Hrun1 & K1 & Hd1 & Hv1 & HX1 & Hw1).
      destruct (right_turn t1 ctx h X A2 B A1 p v w m n Hd1 Hv1 HX1 Hw1) as (t' & Hrun & K & Hrep).
      exists t', (root t'). split; [|split; [by eapply kept_data_trans|right; split; [done|]]].
      * unfold delete_rest_right. rewrite Hr. simpl. rewrite Hl. simpl. rewrite (proj1 (Hcol _)), (proj2 (Hcol _)).
        rewrite Er. simpl.
        destruct (wr t v _) as [ta| | |]; try done. simpl in Hrun1 |- *.
        destruct (wr ta w _) as [tb| | |]; try done. simpl in Hrun1 |- *.
        destruct (rotate_left ev tb w) as [tc| | |]; try done. simpl in Hrun1 |- *.
        destruct (get_parent tc h) as [pc| | |]; try done. simpl in Hrun1 |- *.
        destruct (get_left tc pc) as [wc| | |]; try done. simpl in Hrun1 |- *. injection Hrun1 as -> ->. simpl.
        exact Hrun.
      * pose proof (inorder_rotate (LeftOf p X :: ctx) B w A1 v A2) as Ei. simpl plug in Ei. by rewrite Ei.
    + destruct (right_red t ctx h X A B p w m n Hd Hw HX HA HB) as (t' & Hrun & K & Hd' & Hp).
      exists t', p. split; [done|]. split; [done|]. left. by eexists _, _.
Qed.

(** Case 5: a red sibling is turned into a black one. *)
Lemma right_red_sibling t ctx h X A B p w m n :
  deficient t (RightOf (T B w A) p :: ctx) h X m n -> col t w = RED -> rootcol (col t) X = BLACK ->
  exists t' A1 v A2, A = T A1 v A2 /\
    (t ← wr t w (put_color BLACK); t ← wr t p (put_color RED); t ← rotate_right ev t p;
     p ← get_parent t h; w ← get_left t p; Ret (t, w)) = Ret (t', v) /\ kept_data t t' /\
    deficient t' (RightOf (T A1 v A2) p :: RightOf B w :: ctx) h X m n /\
    col t' v = BLACK /\ rootcol (col t') X = BLACK /\ col t' p = RED.
Proof.
  intros Hd Hw HX. pose proof (right_NoDup t ctx h X A B p w m n Hd) as Hnd.
  apply NoDup_cons in Hnd as [Dp Hnd]. apply NoDup_cons in Hnd as [Dw _].
  destruct Hd as [Ht Hnil Hat Hpar Hbel Hab Hrt Hh Hc]. simpl plug in Ht.
  cbn [bh_ctx nored_ctx] in Hc, Hab. destruct Hc as [HW Hc]. destruct Hab as (Hpr & (Hwc & NB & NA) & Hab).
  apply bh_red in HW as [HB HA]; [|done]. destruct (Hwc Hw) as [RB RA].
  assert (Hpb : col t p = BLACK) by (destruct (col t p) eqn:E; [|done]; destruct (Hpr eq_refl) as [H _]; simpl in H; congruence).
  destruct A as [|A1 v A2]; [done|]. simpl in RA.
  destruct (move_paint t _ w BLACK Ht Hnil) as (t1 & -> & M1); [rewrite inorder_plug; clear; simpl; set_solver|]. simpl.
  pose proof M1 as [K1 N1 B1' Ht1 C1].
  destruct (move_paint t1 _ p RED Ht1 B1') as (t2 & -> & M2); [rewrite inorder_plug; clear; simpl; set_solver|]. simpl.
  pose proof M2 as [K2 N2 B2' Ht2 C2].
  destruct (move_right t2 ctx B w (T A1 v A2) p X Ht2 B2') as (t3 & -> & M3). simpl.
  pose proof (moved_trans _ _ _ _ _ _ _ (moved_trans _ _ _ _ _ _ _ M1 M2) M3) as [K Np Nb Ht' _].
  pose proof M3 as [_ _ _ _ C3].
  assert (Hg : hangs t3 h X p).
  { apply (hangs_right t t3 (RightOf B w :: ctx) h X p (T A1 v A2)); try done. split; [done|]. by apply Hpar. }
  rewrite (proj2 Hg). simpl. destruct (parent_left t3 (RightOf B w :: ctx) A1 v A2 p X Ht') as [_ ->]. simpl.
  exists t3, A1, v, A2. split; [done|]. split; [done|]. split; [done|].
  assert (C : forall x, col t3 x = if decide (x = p) then RED else if decide (x = w) then BLACK else col t x)
    by (intros x; by rewrite C3, C2, C1).
  assert (Hsame : forall L, p ∉ L -> w ∉ L -> same_on L (col t) (col t3)).
  { intros L HLp HLw x Hx. rewrite C, !decide_False; [done|..]; congruence. }
  assert (Cp : col t3 p = RED) by (rewrite C; by rewrite decide_True).
  assert (Cw : col t3 w = BLACK).
  { rewrite C, decide_False, decide_True; [done|done|]. intros ->. apply Dp. clear. set_solver. }
  assert (Sx : same_on (inorder X) (col t) (col t3)) by (apply Hsame; [out_of Dp|out_of Dw]).
  assert (Sa : same_on (inorder (T A1 v A2)) (col t) (col t3)) by (apply Hsame; [out_of Dp|out_of Dw]).
  assert (Sb : same_on (inorder B) (col t) (col t3)) by (apply Hsame; [out_of Dp|out_of Dw]).
  assert (Sc : same_on (ctx_ids ctx) (col t) (col t3)) by (apply Hsame; [out_of Dp|out_of Dw]).
  split; [|split; [rewrite <- RA; apply Sa; clear; simpl; set_solver|split; [by rewrite (rootcol_same (col t))|done]]].
  split; try done.
  - apply Hg.
  - intros _. apply Hg.
  - by apply (below_same (col t)).
  - cbn [nored_ctx]. rewrite Cp, Cw. split; [intros _; split; [|done]|].
    { rewrite (rootcol_same (col t) (col t3)) by done. done. }
    split; [by apply (nored_same (col t))|]. split; [done|]. split; [by apply (nored_same (col t))|].
    rewrite Hpb in Hab. by apply (nored_ctx_same (col t)).
  - cbn [ctx_root]. rewrite (ctx_root_same (col t)), Cw by done. cbn [ctx_root] in Hrt.
    by destruct (ctx_root (col t) ctx).
  - by apply (bh_same (col t)).
  - cbn [bh_ctx]. unfold up in *. rewrite Cp, Cw. rewrite Hpb in Hc. split; [by apply (bh_same (col t))|].
    split; [by apply (bh_same (col t))|]. by apply (bh_ctx_same (col t)).
Qed.

(** The sibling of a deficient subtree is not empty. *)
Lemma right_sibling t ctx h X W p m n : deficient t (RightOf W p :: ctx) h X m n -> exists B w A, W = T B w A.
Proof. intros Hd. destruct (df_ctx _ _ _ _ _ _ Hd) as [HW _]. destruct W as [|A w B]; [done|eauto]. Qed.

Lemma right_step t ctx h X W p m n :
  deficient t (RightOf W p :: ctx) h X m n -> rootcol (col t) X = BLACK ->
  exists t' x, delete_fixup_step ev t h = Ret (t', x) /\ kept_data t t' /\
    advanced (S (length ctx)) (inorder (plug (RightOf W p :: ctx) X)) n t' x.
Proof.
  intros Hd HX. destruct (right_sibling _ _ _ _ _ _ _ _ Hd) as (B & w & A & ->).
  pose proof Hd as [Ht Hnil Hat Hpar _ _ _ _ _]. simpl plug in Ht |- *.
  destruct (child_ptrs t ctx (T B w A) p X Ht Hnil) as (hl & hr & Hl & Hr & El & Er & Hcol).
  unfold delete_fixup_step. rewrite Hpar by done. simpl. rewrite Hl. simpl.
  assert (Hne : h <> hl).
  { simpl in El. subst hl h. destruct (node_at t (LeftOf p X :: ctx) B w A Ht) as (nw & _ & Hwn & _).
    pose proof (right_NoDup t ctx _ X A B p w m n Hd) as Hnd. apply NoDup_cons in Hnd as [_ Hnd].
    apply NoDup_cons in Hnd as [Dw _]. destruct X as [|a y b]; simpl; [done|]. intros ->. apply Dw. simpl. set_solver. }
  rewrite (proj2 (Nat.eqb_neq h hl)) by done. rewrite (proj1 (Hcol _)). simpl.
  simpl in El. subst hl. destruct (col t w) eqn:Hw; simpl.
  - destruct (right_red_sibling t ctx h X A B p w m n Hd Hw HX) as (t1 & A1 & v & A2 & -> & Hrun & K1 & Hd1 & Hv & HX1 & Hp1).
    destruct (right_rest_ok t1 (RightOf B w :: ctx) h X A2 A1 p v m n Hd1 Hv HX1) as (t' & x & Hrest & K & Hout).
    exists t', x. split; [|split; [by eapply kept_data_trans|]].
    + destruct (wr t w _) as [ta| | |]; try done. simpl in Hrun |- *.
      destruct (wr ta p _) as [tb| | |]; try done. simpl in Hrun |- *.
      destruct (rotate_right ev tb p) as [tc| | |]; try done. simpl in Hrun |- *.
      destruct (get_parent tc h) as [pc| | |]; try done. simpl in Hrun |- *.
      destruct (get_left tc pc) as [wc| | |]; try done. simpl in Hrun |- *. injection Hrun as -> ->. exact Hrest.
    + pose proof (inorder_rotate ctx B w (T A1 v A2) p X) as Ei. simpl plug in Hout. rewrite Ei in Hout.
      destruct Hout as [(X' & m' & Hd' & Hin & Hc)|Hrep]; [left|by right].
      exists (RightOf B w :: ctx), X', m'. split; [done|]. split; [done|]. right. by rewrite Hc.
  - destruct (right_rest_ok t ctx h X A B p w m n Hd Hw HX) as (t' & x & Hrest & K & Hout).
    exists t', x. split; [done|]. split; [done|].
    destruct Hout as [(X' & m' & Hd' & Hin & Hc)|Hrep]; [left|by right].
    exists ctx, X', m'. split; [done|]. split; [done|]. left. lia.
Qed.

(** ** The loop *)

Lemma root_ptr t sh : tree_is t sh -> root t = ptr (nil t) sh.
Proof. intros Hr%tree_is_repr. by apply (repr_ptr _ _ _ _ _ Hr). Qed.

(** The pointer to a subtree below the root is not the root. *)
Lemma inner_not_root t ctx X : tree_is t (plug ctx X) -> ctx <> [] -> ptr (nil t) X <> root t.
Proof.
  intros Ht Hne E. pose proof (root_ptr _ _ Ht) as Er. pose proof Ht as [[Hr Hnd] _].
  assert (Hroot : forall ctx X, ctx <> [] -> exists l x r, plug ctx X = T l x r /\ x ∈ ctx_ids ctx).
  { clear. induction ctx as [|f ctx IH]; intros X H; [done|]. clear H. unfold ctx_ids.
    destruct (decide (ctx = [])) as [->|Hne]; [destruct f; simpl; eexists _, _, _; (split; [done|set_solver])|].
    destruct f as [x r|l x]; simpl; [destruct (IH (T X x r) Hne) as (a & y & b & -> & Hy)|
      destruct (IH (T l x X) Hne) as (a & y & b & -> & Hy)]; exists a, y, b; (split; [done|]); unfold ctx_ids in Hy; set_solver. }
  destruct (Hroot ctx X Hne) as (l & x & r & Ep & Hx). rewrite Ep in Er, Hr. simpl in Er.
  rewrite Er in E. destruct X as [|a y b]; simpl in E.
  - destruct Hr as (_ & Hn & _). congruence.
  - subst y. rewrite plug_perm in Hnd. apply NoDup_app in Hnd as (_ & Hd & _). apply (Hd x Hx). simpl. set_solver.
Qed.

(** Painting the node black ends the repair. *)
Lemma paint_deficient t ctx h X m n :
  deficient t ctx h X m n -> ctx = [] \/ rootcol (col t) X = RED ->
  exists t', wr t h (put_color BLACK) = Ret t' /\ kept_data t t' /\ repaired t' (inorder (plug ctx X)).
Proof.
  intros [Ht Hnil Hat _ Hbel Hab Hrt Hh Hc] Hend. destruct X as [|l x r].
  - destruct Hend as [->|?]; [|done]. simpl in Hat. subst h. destruct Hnil as (nn & Hnn & Hb).
    destruct (wr_color t (nil t) BLACK nn Hnn) as (t' & W & K & C & S). exists t'. split; [done|]. split; [done|].
    exists E, 0%nat. split; [|done]. split; try done; [by apply S|].
    destruct (kept_data_Some _ _ _ _ K Hnn) as (n' & Hn'). exists n'. rewrite (proj1 K). split; [done|].
    specialize (C (nil t)). unfold col in C. rewrite Hn', decide_True in C by done. done.
  - simpl in Hat. subst h. destruct (move_paint t _ x BLACK Ht Hnil) as (t' & W & [K _ Nb Ht' C]);
      [rewrite inorder_plug; simpl; set_solver|]. exists t'. split; [done|]. split; [done|].
    pose proof (tree_is_NoDup _ _ Ht) as Hnd. rewrite plug_perm in Hnd.
    assert (Hp : ctx_ids ctx ++ inorder (T l x r) ≡ₚ x :: inorder l ++ inorder r ++ ctx_ids ctx) by perm_count.
    rewrite Hp in Hnd. apply NoDup_cons in Hnd as [Dx _].
    assert (Hsame : forall L, x ∉ L -> same_on L (col t) (col t')).
    { intros L HL y Hy. rewrite C, decide_False; [done|]. by intros ->. }
    assert (Cx : col t' x = BLACK) by (by rewrite C, decide_True).
    assert (Sl : same_on (inorder l) (col t) (col t')) by (apply Hsame; out_of Dx).
    assert (Sr : same_on (inorder r) (col t) (col t')) by (apply Hsame; out_of Dx).
    assert (Sc : same_on (ctx_ids ctx) (col t) (col t')) by (apply Hsame; out_of Dx).
    destruct Hbel as [Nl Nr]. apply bh_inv in Hh as (k & -> & Hl & Hr).
    assert (NX : nored (col t') (T l x r)) by (apply nored_black; [done|..]; by apply (nored_same (col t))).
    assert (HX : bh (col t') (T l x r) (S k)).
    { apply bh_black; [done|]. exists k. split; [done|]. split; by apply (bh_same (col t)). }
    assert (Hn' : exists n', bh (col t') (plug ctx (T l x r)) n').
    { destruct Hend as [->|Hred]; [by exists (S k)|]. exists n. apply bh_plug_ctx. exists (S k). split; [done|].
      apply (bh_ctx_same (col t)); [done|]. unfold up in Hc. simpl in Hred. by rewrite Hred in Hc. }
    destruct Hn' as [n' Hn']. exists (plug ctx (T l x r)), n'. split; [split; try done|split; [|done]].
    + apply nored_plug. split; [done|]. simpl. rewrite Cx. by apply (nored_ctx_same (col t)).
    + destruct (decide (ctx = [])) as [->|Hne]; [done|].
      rewrite <- (ctx_root_same (col t) (col t')) in Hrt by done. rewrite (ctx_root_plug _ _ (T l x r) Hne) in Hrt.
      by destruct (rootcol (col t') (plug ctx (T l x r))).
Qed.

Lemma paint_root t L : repaired t L ->
  exists t', wr t (root t) (put_color BLACK) = Ret t' /\ kept_data t t' /\ repaired t' L.
Proof.
  intros (sh & n & [Ht Hnil Hr Hh] & Hroot & <-).
  assert (Hd : deficient t [] (root t) sh n (S n)).
  { split; try done; [by apply root_ptr|by apply nored_below]. }
  destruct (paint_deficient t [] (root t) sh n (S n) Hd (or_introl eq_refl)) as (t' & W & K & Hrep).
  exists t'. by split_and!.
Qed.

Lemma is_color_ptr t ctx X : tree_is t (plug ctx X) -> nil_black t ->
  is_color t (ptr (nil t) X) BLACK = Ret (bool_decide (rootcol (col t) X = BLACK)).
Proof.
  intros Ht Hb. destruct (sub_repr t ctx X Ht) as (q & h & Hr). rewrite <- (repr_ptr _ _ _ _ _ Hr).
  by apply (is_color_root t q).
Qed.

(** Any deficiency is repaired. *)
Lemma delete_loop_ok : forall fuel t ctx h X m n,
  deficient t ctx h X m n -> (S (length ctx) < fuel)%nat \/ ((0 < fuel)%nat /\ rootcol (col t) X = RED) ->
  exists t', ('(t, x) ← delete_fixup_loop ev fuel t h; wr t x (put_color BLACK)) = Ret t' /\ kept_data t t' /\
    repaired t' (inorder (plug ctx X)).
Proof.
  induction fuel as [|fuel IH]; intros t ctx h X m n Hd Hf; [lia|]. cbn [delete_fixup_loop].
  pose proof Hd as [Ht Hnil Hat _ _ _ _ _ _]. subst h. rewrite (is_color_ptr t ctx X Ht Hnil). simpl.
  destruct (rootcol (col t) X) eqn:HX.
  - simpl. rewrite andb_false_r. simpl. apply (paint_deficient t ctx _ X m n Hd). by right.
  - simpl. rewrite andb_true_r. destruct (decide (ctx = [])) as [->|Hne].
    + pose proof (root_ptr t X Ht) as Er. simpl plug. rewrite <- Er, Nat.eqb_refl. simpl. rewrite Er.
      apply (paint_deficient t [] _ X m n Hd). by left.
    + rewrite (proj2 (Nat.eqb_neq _ _)) by (by apply (inner_not_root t ctx)). simpl.
      assert (Hf' : (S (length ctx) < S fuel)%nat) by (destruct Hf as [?|[_ ?]]; [done|done]).
      assert (Hstep : exists t' x, delete_fixup_step ev t (ptr (nil t) X) = Ret (t', x) /\ kept_data t t' /\
        advanced (length ctx) (inorder (plug ctx X)) n t' x).
      { destruct ctx as [|[p W|W p] ctx]; [done|..]; simpl length;
          [by apply (left_step t ctx _ X W p m n)|by apply (right_step t ctx _ X W p m n)]. }
      destruct Hstep as (t1 & x & -> & K1 & [(ctx' & X' & m' & Hd' & Hin & Hlt)|[-> Hrep]]); simpl.
      * destruct (IH t1 ctx' x X' m' n Hd') as (t' & Hrun & K & Hrep).
        { destruct Hlt as [?|?]; [left; lia|right; split; [lia|done]]. }
        exists t'. split; [done|]. split; [by eapply kept_data_trans|]. by rewrite <- Hin.
      * destruct fuel as [|fuel]; [destruct ctx; [done|simpl in Hf'; lia]|]. cbn [delete_fixup_loop].
        pose proof Hrep as (sh & k & [Ht1 Hnil1 _ _] & _ & _).
        rewrite (root_ptr t1 sh Ht1), (is_color_ptr t1 [] sh Ht1 Hnil1). simpl. rewrite <- (root_ptr t1 sh Ht1), Nat.eqb_refl.
        simpl. destruct (paint_root t1 _ Hrep) as (t' & W & K & Hrep'). exists t'. split; [done|].
        split; [by eapply kept_data_trans|done].
Qed.

Lemma delete_fixup_ok t ctx h X m n :
  deficient t ctx h X m n ->
  exists t', delete_fixup ev t h = Ret t' /\ kept_data t t' /\ repaired t' (inorder (plug ctx X)).
Proof.
  intros Hd. apply (delete_loop_ok _ t ctx h X m n Hd). left.
  pose proof (tree_is_length _ _ (df_tree _ _ _ _ _ _ Hd)) as Hlen. pose proof (ctx_length ctx).
  rewrite plug_perm, length_app in Hlen. unfold walk_fuel. lia.
Qed.
End rb.
