(* ===== verification/RbRemove.v ===== *)
(** * lib/rb_tree.c: deletion

    Taking a node out of the thread and out of the tree, the repair, and that
    rb_tree_delete keeps the invariant of the tree and removes one entry of
    its map.  Insertions, deletions and lookups in any order then behave as
    on a finite map. *)

From S2P Require Import Prelude.
From stdpp Require Import list gmap sorting.
From S2P Require Import RbTree RbEvents RbInsert RbAdd RbDelete RbFix.
Local Open Scope Z_scope.

(** ** Contexts *)

Lemma plug_app c1 c2 sh : plug (c1 ++ c2) sh = plug c2 (plug c1 sh).
Proof. revert sh. induction c1 as [|[x r|l x] c1 IH]; intros sh; simpl; [done|apply IH..]. Qed.

Lemma crepr_top s nl rt h p ctx : crepr s nl rt h p ctx -> p = ctx_top nl ctx.
Proof. destruct ctx as [|[x r|l x] ctx]; simpl; by intros [-> _]. Qed.

Lemma crepr_not_nil s nl rt ctx : forall h p, crepr s nl rt h p ctx -> nl ∉ ctx_ids ctx.
Proof.
  unfold ctx_ids. induction ctx as [|[x r|l x] ctx IH]; intros h p; simpl; [set_solver|..];
    intros (_ & Hx & n & _ & _ & Hr%repr_not_nil & Hc%IH); set_solver.
Qed.

Section rename.
Context (c c' : nat -> rb_color) (l : tr) (z y : nat) (ctx : list frame) (Hy : c' y = c z).

Lemma rename_bh_ctx cy : same_on (ctx_ids cy ++ inorder l ++ ctx_ids ctx) c c' ->
  forall k n, bh_ctx c (cy ++ RightOf l z :: ctx) k n -> bh_ctx c' (cy ++ RightOf l y :: ctx) k n.
Proof.
  unfold ctx_ids. induction cy as [|[x r|a x] cy IH]; intros H k n; simpl in *.
  - unfold up. rewrite Hy. intros [Hl Hc]. split; [apply (bh_same c); [|done]|apply (bh_ctx_same c); [|done]];
      intros v Hv; apply H; unfold ctx_ids in *; set_solver.
  - intros [Hr Hc]. unfold up in *. rewrite (H x) by set_solver.
    split; [apply (bh_same c); [|done]|apply IH; [|done]]; intros v Hv; apply H; set_solver.
  - intros [Hr Hc]. unfold up in *. rewrite (H x) by set_solver.
    split; [apply (bh_same c); [|done]|apply IH; [|done]]; intros v Hv; apply H; set_solver.
Qed.

Lemma rename_nored_ctx cy : same_on (ctx_ids cy ++ inorder l ++ ctx_ids ctx) c c' ->
  forall hc, nored_ctx c (cy ++ RightOf l z :: ctx) hc -> nored_ctx c' (cy ++ RightOf l y :: ctx) hc.
Proof.
  unfold ctx_ids. induction cy as [|[x r|a x] cy IH]; intros H hc; simpl in *.
  - rewrite Hy, (rootcol_same c c' l) by (intros v Hv; apply H; set_solver).
    intros (H1 & H2 & H3). split; [done|]. split; [apply (nored_same c); [|done]|apply (nored_ctx_same c); [|done]];
      intros v Hv; apply H; unfold ctx_ids in *; set_solver.
  - rewrite (H x), (rootcol_same c c' r) by (set_solver || (intros v Hv; apply H; set_solver)).
    intros (H1 & H2 & H3). split; [done|]. split; [apply (nored_same c); [|done]|apply IH; [|done]];
      intros v Hv; apply H; set_solver.
  - rewrite (H x), (rootcol_same c c' a) by (set_solver || (intros v Hv; apply H; set_solver)).
    intros (H1 & H2 & H3). split; [done|]. split; [apply (nored_same c); [|done]|apply IH; [|done]];
      intros v Hv; apply H; set_solver.
Qed.

Lemma rename_root cy : same_on (ctx_ids ctx) c c' ->
  ctx_root c' (cy ++ RightOf l y :: ctx) = ctx_root c (cy ++ RightOf l z :: ctx).
Proof.
  intros H. assert (Hb : ctx_root c' (RightOf l y :: ctx) = ctx_root c (RightOf l z :: ctx))
    by (simpl; rewrite (ctx_root_same c c' ctx H); by rewrite Hy).
  assert (Hs : exists d, ctx_root c (RightOf l z :: ctx) = Some d) by (simpl; destruct (ctx_root c ctx); eauto).
  destruct Hs as [d Hd]. rewrite Hd in Hb.
  assert (Ha : forall cl v a, ctx_root cl (RightOf l v :: ctx) = Some d -> ctx_root cl (a ++ RightOf l v :: ctx) = Some d).
  { intros cl v a E. induction a as [|[x r|b x] a IH]; [done|..]; cbn [app ctx_root]; by rewrite IH. }
  by rewrite !Ha.
Qed.
End rename.

(** ** replace_node *)

Lemma replace_links t ctx u v nu nv :
  crepr (store_of t) (nil t) (root t) u (parent nu) ctx -> store_of t !! u = Some nu -> u <> nil t ->
  store_of t !! v = Some nv -> v ∉ ctx_ids ctx -> v <> u ->
  NoDup (ctx_ids ctx) -> u ∉ ctx_ids ctx ->
  exists t', replace_node no_events t u v = Ret t' /\ kept t t' /\ (v <> nil t -> nil_as t t') /\
    crepr (store_of t') (nil t) (root t') v (parent nu) ctx /\
    store_of t' !! v = Some (put_parent (parent nu) nv) /\
    forall x, x ∉ ctx_ids ctx -> x <> v -> agree t t' x.
Proof.
  intros Hc Hu Hun Hv Hvc Hvu Hnd Huc. unfold replace_node. simpl.
  destruct (relink_ctx t ctx u v nu Hc Hu Hun Hnd Huc) as (t1 & W1 & K1 & C1 & O1).
  rewrite W1. simpl. unfold get_parent. rewrite (rd_at t1 u nu) by (rewrite O1; done). simpl.
  destruct (wr_links t1 v (put_parent (parent nu)) nv) as (t2 & W2 & K2 & R2 & V2 & O2); [by rewrite O1|done|].
  exists t2. split; [done|]. split; [by eapply kept_trans|]. split; [|split; [|split; [done|]]].
  - intros Hvn. eapply nil_as_trans; [by eapply relink_nil_as|]. apply (wr_nil_as _ _ _ _ W2).
    by rewrite (proj1 K1).
  - rewrite R2. apply (crepr_frame (store_of t1)); [|done]. intros x Hx. apply agree_links, O2. by intros ->.
  - intros x Hx Hxv. eapply agree_trans; [by apply O1|by apply O2].
Qed.

(** A node with at most one subtree is replaced by it. *)
Lemma replace_shape t ctx l u r V :
  shaped t (plug ctx (T l u r)) -> (exists nn, store_of t !! nil t = Some nn) -> (V = r /\ l = E) \/ (V = l /\ r = E) ->
  exists t', replace_node no_events t u (ptr (nil t) V) = Ret t' /\ kept t t' /\ agree t t' u /\
    shaped t' (plug ctx V) /\ get_parent t' (ptr (nil t) V) = Ret (ctx_top (nil t) ctx).
Proof.
  intros [Hr Hnd] (nn & Hnn) HV. rewrite plug_perm in Hnd.
  assert (HndV : NoDup (u :: ctx_ids ctx ++ inorder V)).
  { eapply NoDup_Permutation_proper; [|exact Hnd]. destruct HV as [[-> ->]|[-> ->]]; perm_count. }
  clear Hnd. apply NoDup_cons in HndV as [Du HndV].
  apply repr_plug in Hr as (h & p & Hc & Ht). destruct Ht as (-> & Hun & nu & Hu & <- & Hl & Hrr).
  assert (HrV : repr (store_of t) (nil t) u (ptr (nil t) V) V).
  { destruct HV as [[-> _]|[-> _]]; [by rewrite <- (repr_ptr _ _ _ _ _ Hrr)|by rewrite <- (repr_ptr _ _ _ _ _ Hl)]. }
  assert (Hv : exists nv, store_of t !! ptr (nil t) V = Some nv).
  { destruct V; [by exists nn|]. destruct HrV as (_ & _ & nv & Hv & _). by exists nv. }
  destruct Hv as [nv Hv].
  pose proof (crepr_not_nil _ _ _ _ _ _ Hc) as Hcn.
  apply NoDup_app in HndV as (Hndc & Hdis & HndV).
  destruct (replace_links t ctx u (ptr (nil t) V) nu nv) as (t' & W & K & _ & C & V' & O); try done.
  { destruct V as [|a x b]; simpl; [done|]. intros Hx. apply (Hdis x Hx). simpl. set_solver. }
  { destruct V as [|a x b]; simpl; [done|]. intros ->. apply Du. simpl. set_solver. }
  { out_of Du. }
  pose proof (crepr_top _ _ _ _ _ _ Hc) as Etop. rewrite Etop in *. assert (En : nil t' = nil t) by apply K.
  exists t'. split; [done|]. split; [done|]. split; [|split].
  - apply O; [out_of Du|]. destruct V as [|a x b]; simpl; [done|]. intros ->. apply Du. simpl. set_solver.
  - split; [|rewrite plug_perm; by apply NoDup_app]. apply repr_plug. rewrite En.
    exists (ptr (nil t) V), (ctx_top (nil t) ctx). split; [done|].
    destruct V as [|a x b]; [done|]. simpl in *. destruct HrV as (_ & Hx & m & Hm & _ & Ha & Hb).
    assert (m = nv) as -> by congruence. split; [done|]. split; [done|]. exists (put_parent (ctx_top (nil t) ctx) nv).
    split; [done|]. split; [done|]. apply NoDup_app in HndV as (_ & D1 & [D2 _]%NoDup_cons).
    simpl. split; (apply (repr_frame (store_of t)); [|done]); intros v Hv'; apply agree_links, O.
    + intros Hin. apply (Hdis v Hin). set_solver.
    + intros ->. apply (D1 x Hv'). set_solver.
    + intros Hin. apply (Hdis v Hin). set_solver.
    + by intros ->.
  - unfold get_parent. by rewrite (rd_at _ _ _ V').
Qed.

Lemma get_left_node t x n : store_of t !! x = Some n -> get_left t x = Ret (left n).
Proof. intros H. unfold get_left. by rewrite (rd_at _ _ _ H). Qed.

Lemma get_right_node t x n : store_of t !! x = Some n -> get_right t x = Ret (right n).
Proof. intros H. unfold get_right. by rewrite (rd_at _ _ _ H). Qed.

Lemma replace_objs t u v t' : replace_node no_events t u v = Ret t' -> objs t' = objs t.
Proof.
  unfold replace_node. simpl. destruct (relink t u v) as [t1| | |] eqn:E1; try done. simpl.
  destruct (get_parent t1 u) as [p| | |]; try done. simpl. intros H.
  apply wr_objs in H. apply relink_objs in E1. congruence.
Qed.

Lemma replace_ev ev t u v o : evt_replace_node ev t u v = Ret (with_objs t o) ->
  replace_node ev t u v = replace_node no_events (with_objs t o) u v.
Proof. intros H. unfold replace_node. simpl. by rewrite H. Qed.

Section rb.
Context {ev : events} {TI : tree_inv ev}.

(** [y], with the subtree [R] on its right, takes the place of [z]. *)
Lemma take_place {A} t o ctx l z R y nz ny (k : rb_tree_t -> outcome A) :
  evt_replace_node ev t z y = Ret (with_objs t o) -> ti (with_objs t o) (plug ctx (T l y R)) ->
  store_of t !! z = Some nz -> store_of t !! y = Some ny -> y <> nil t -> z <> nil t ->
  crepr (store_of t) (nil t) (root t) z (parent nz) ctx ->
  repr (store_of t) (nil t) z (left nz) l -> l <> E -> repr (store_of t) (nil t) y (right ny) R ->
  NoDup (z :: y :: inorder l ++ inorder R ++ ctx_ids ctx) -> nil_black t ->
  exists t', (t ← replace_node ev t z y; zl ← get_left t z; t ← wr t y (put_left zl);
              yl ← get_left t y; t ← wr t yl (put_parent y); zc ← get_color t z;
              t ← wr t y (put_color zc); k t) = k t' /\
    moved t (plug ctx (T l y R)) (fun x => if decide (x = y) then col t z else col t x) t'.
Proof.
  intros Hev Hti Hz Hy Hyn Hzn Hc Hl Hle HR Hnd Hb. apply NoDup_cons in Hnd as [Dz Hnd]. pose proof Hnd as HndT.
  apply NoDup_cons in Hnd as [Dy Hnd]. apply NoDup_app in Hnd as (Hndl & Dl & Hnd).
  apply NoDup_app in Hnd as (HndR & DR & Hndc).
  rewrite (replace_ev ev t z y o Hev).
  destruct (replace_links (with_objs t o) ctx z y nz ny) as (t1 & W1 & K1 & Nl1 & C1 & Y1 & O1); try done.
  { out_of Dy. } { intros ->. apply Dz. set_solver. } { out_of Dz. }
  rewrite W1. change (kept t t1) in K1. change (y <> nil t -> nil_as t t1) in Nl1.
  change (crepr (store_of t1) (nil t) (root t1) y (parent nz) ctx) in C1.
  change (forall x, x ∉ ctx_ids ctx -> x <> y -> agree t t1 x) in O1.
  specialize (Nl1 Hyn). assert (E1 : nil t1 = nil t) by apply K1. simpl.
  assert (Hzy : z <> y) by (intros ->; apply Dz; set_solver).
  rewrite (get_left_node t1 z nz) by (rewrite O1; [done|out_of Dz|done]). simpl.
  destruct (wr_links t1 y (put_left (left nz)) _ Y1) as (t2 & W2 & K2 & R2 & Y2 & O2); [done|].
  assert (E2 : nil t2 = nil t) by (rewrite <- E1; apply K2).
  rewrite W2. simpl. rewrite (get_left_node _ _ _ Y2). simpl.
  assert (O12 : forall x, x ∉ ctx_ids ctx -> x <> y -> agree t t2 x)
    by (intros x ? ?; eapply agree_trans; [by apply O1|by apply O2]).
  assert (Hln : left nz <> nil t) by (destruct l; [done|]; by destruct Hl as (-> & ? & _)).
  destruct (reparent t2 z (left nz) l y) as (t3 & W3 & K3 & R3 & L3 & O3); [|done|].
  { rewrite E2. apply (repr_frame (store_of t)); [|done]. intros x Hx. apply agree_links, O12.
    - intros Hin. apply (Dl x Hx). set_solver.
    - intros ->. apply Dy. set_solver. }
  rewrite (proj2 (Nat.eqb_neq _ _)) in W3 by congruence. rewrite W3. simpl.
  assert (Z3 : store_of t3 !! z = Some nz) by (rewrite O3, O12; [done|out_of Dz|done|out_of Dz]).
  unfold get_color. rewrite (rd_at _ _ _ Z3). simpl.
  assert (Y3 : store_of t3 !! y = Some (put_left (left nz) (put_parent (parent nz) ny))) by (rewrite O3; [done|out_of Dy]).
  assert (Ht3 : tree_is t3 (plug ctx (T l y R))).
  { assert (E3 : nil t3 = nil t) by (rewrite <- E2; apply K3). split; [split|].
    - apply repr_plug. rewrite E3, R3, R2. exists y, (parent nz). split.
      + apply (crepr_frame (store_of t1)); [|done]. intros x Hx. apply agree_links.
        eapply agree_trans; [apply O2|apply O3]; [intros ->; apply Dy; unfold ctx_ids; set_solver|].
        intros Hin. apply (Dl x Hin). unfold ctx_ids. set_solver.
      + simpl. split; [done|]. split; [done|]. eexists. split; [done|]. simpl. split; [done|]. split; [by rewrite <- E2|].
        apply (repr_frame (store_of t)); [|done]. intros x Hx. apply agree_links.
        eapply agree_trans; [apply O12|apply O3]; [by apply DR|intros ->; apply Dy; set_solver|].
        intros Hin. apply (Dl x Hin). set_solver.
    - rewrite plug_perm. eapply NoDup_Permutation_proper; [|exact HndT]. perm_count.
    - apply (ti_stable (with_objs t o)); [|done]. apply kept_records; [by repeat (eapply kept_trans; [eassumption|])|].
      rewrite (wr_objs _ _ _ _ W3), (wr_objs _ _ _ _ W2). exact (replace_objs _ _ _ _ W1). }
  assert (K03 : kept t t3) by (by repeat (eapply kept_trans; [eassumption|])).
  assert (N03 : nil_as t t3).
  { eapply nil_as_trans; [done|]. eapply nil_as_trans; [eapply wr_nil_as; [done|congruence]|].
    eapply wr_nil_as; [done|congruence]. }
  destruct (move_paint t3 _ y (color nz) Ht3) as (t4 & -> & M4).
  { by apply (nil_black_kept t). } { rewrite inorder_plug. simpl. clear. set_solver. }
  exists t4. split; [done|]. destruct M4 as [K4 N4 B4 T4 C4]. split; try done.
  - eapply kept_data_trans; [by apply kept_kept_data|done].
  - eapply same_nil_trans; [by apply nil_as_same|done].
  - intros x. rewrite C4, (kept_col t t3) by done. case_decide; [|done]. unfold col. by rewrite Hz.
Qed.

(** ** unlink_node *)

(** One node of colour [d] less: the subtree [X] at [h] is where it was. *)
Record unlinked (t : rb_tree_t) (ctx : list frame) (h : nat) (X : tr) (d : rb_color) (n : nat) : Prop := mk_unlinked {
  ul_tree : tree_is t (plug ctx X);
  ul_nil : nil_black t;
  ul_at : h = ptr (nil t) X;
  ul_parent : get_parent t h = Ret (ctx_top (nil t) ctx);
  ul_below : nored (col t) X;
  ul_above : nored_ctx (col t) ctx d;
  ul_root : ctx_root (col t) ctx <> Some RED;
  ul_red : d = RED -> ctx <> [] /\ rootcol (col t) X = BLACK;
  ul_height : exists m, bh (col t) X m /\ bh_ctx (col t) ctx (match d with RED => m | BLACK => S m end) n;
}.

Lemma unlinked_red t ctx h X n : unlinked t ctx h X RED n -> repaired t (inorder (plug ctx X)).
Proof.
  intros [Ht Hnil _ _ Hbel Hab Hrt Hred (m & Hm & Hc)]. destruct (Hred eq_refl) as [Hne HX].
  exists (plug ctx X), n. split; [split; try done|split; [|done]].
  - apply nored_plug. rewrite HX. split; [done|]. by apply (nored_ctx_black _ _ RED).
  - apply bh_plug_ctx. by exists m.
  - rewrite (ctx_root_plug _ _ X Hne) in Hrt. by destruct (rootcol (col t) (plug ctx X)).
Qed.

Lemma unlinked_black t ctx h X n : unlinked t ctx h X BLACK n -> exists m, deficient t ctx h X m n.
Proof.
  intros [Ht Hnil Hat Hpar Hbel Hab Hrt _ (m & Hm & Hc)]. exists m. split; try done. by apply nored_below.
Qed.

(** The colours around a node [w] with at most one subtree. *)
Lemma colours_around c ctx l w r V n :
  nored c (plug ctx (T l w r)) -> bh c (plug ctx (T l w r)) n -> rootcol c (plug ctx (T l w r)) = BLACK ->
  (V = r /\ l = E) \/ (V = l /\ r = E) ->
  nored c V /\ nored_ctx c ctx (c w) /\ ctx_root c ctx <> Some RED /\
  (c w = RED -> ctx <> [] /\ rootcol c V = BLACK) /\
  exists m, bh c V m /\ bh_ctx c ctx (match c w with RED => m | BLACK => S m end) n.
Proof.
  intros [Hn Ha]%nored_plug (j & Hj & Hc)%bh_plug_ctx Hroot HV. apply bh_inv in Hj as (m & -> & Hl & Hr).
  destruct Hn as (Hw & Nl & Nr). simpl in Ha.
  assert (nored c V) by (by destruct HV as [[-> _]|[-> _]]). split; [done|]. split; [done|]. split; [|split].
  - destruct (decide (ctx = [])) as [->|Hne]; [done|]. rewrite (ctx_root_plug _ _ (T l w r) Hne). congruence.
  - intros Hred. split; [|destruct (Hw Hred); by destruct HV as [[-> _]|[-> _]]].
    intros ->. simpl in Hroot. congruence.
  - exists m. split; [by destruct HV as [[-> _]|[-> _]]|done].
Qed.

Context {DI : delete_inv ev TI}.

Lemma unlink_one t ctx l z r V n :
  balanced t (plug ctx (T l z r)) n -> rootcol (col t) (plug ctx (T l z r)) = BLACK ->
  (V = r /\ l = E) \/ (V = l /\ r = E) ->
  exists t', replace_node ev t z (ptr (nil t) V) = Ret t' /\ kept_data t t' /\
    unlinked t' ctx (ptr (nil t) V) V (col t z) n.
Proof.
  intros [[Ht Hi] Hnil Hn Hh] Hroot HV. destruct (di_one t ctx l z r V Ht Hi HV) as (o & Hev & Hi').
  destruct (replace_shape (with_objs t o) ctx l z r V Ht) as (t' & W & K & _ & Ht' & Hp); [|done|].
  { destruct Hnil as (nn & Hnn & _). by exists nn. }
  change (kept t t') in K. rewrite (replace_ev ev t z (ptr (nil t) V) o Hev).
  destruct (colours_around (col t) ctx l z r V n Hn Hh Hroot HV) as (NV & Hab & Hrt & Hred & m & Hm & Hc).
  assert (S : forall L, same_on L (col t) (col t')) by (intros L x _; by apply kept_col).
  assert (En : nil t' = nil t) by apply K.
  exists t'. split; [done|]. split; [by apply kept_kept_data|]. split; rewrite ?En; try done.
  - split; [done|]. apply (ti_stable (with_objs t o)); [|done]. apply kept_records; [done|].
    exact (replace_objs _ _ _ _ W).
  - by apply (nil_black_kept t).
  - by apply (nored_same (col t)).
  - by apply (nored_ctx_same (col t)).
  - by rewrite (ctx_root_same (col t)).
  - rewrite (rootcol_same (col t)) by done. done.
  - exists m. split; [by apply (bh_same (col t))|by apply (bh_ctx_same (col t))].
Qed.

(** The leftmost node of a subtree. *)
Lemma minimum_ok t : forall r l x p fuel,
  repr (store_of t) (nil t) p x (T l x r) -> (length (inorder l) < fuel)%nat ->
  exists cy y ry, T l x r = plug cy (T E y ry) /\ ctx_before cy = [] /\ minimum_loop fuel t x = Ret y.
Proof.
  intros r l. revert r. induction l as [|a IHa v b _]; intros r x p fuel Hr Hf;
    (destruct fuel as [|fuel]; [lia|]); cbn [minimum_loop]; destruct Hr as (_ & Hx & nx & Hnx & _ & Hl & Hr).
  - exists [], x, r. split; [done|]. split; [done|]. rewrite (get_left_node _ _ _ Hnx). simpl in *. rewrite Hl.
    by rewrite Nat.eqb_refl.
  - rewrite (get_left_node _ _ _ Hnx). simpl. pose proof Hl as (Ev & Hv & _). rewrite Ev in Hl |- *.
    rewrite (proj2 (Nat.eqb_neq _ _)) by done. simpl in Hf. rewrite length_app in Hf. simpl in Hf.
    destruct (IHa b v x fuel Hl) as (cy & y & ry & Ep & Hb & Hm); [lia|].
    exists (cy ++ [LeftOf x r]), y, ry. split; [by rewrite plug_app, <- Ep|]. split; [|done].
    clear - Hb. induction cy as [|[u s|s u] cy IH]; simpl in *; [done|by apply IH|].
    apply app_eq_nil in Hb as [_ H]. by destruct (inorder s).
Qed.

(** The successor [y], with the subtree [R] on its right, is free to take the
    place of [z], and the sentinel's parent is [p] if it stands for the
    subtree that moved up. *)
Record lifted (t : rb_tree_t) (ctx : list frame) (l : tr) (z y : nat) (R X : tr) (p : nat) (t2 : rb_tree_t) : Prop :=
  mk_lifted {
  lf_kept : kept t t2;
  lf_nodes : exists nz ny, store_of t2 !! z = Some nz /\ store_of t2 !! y = Some ny /\
    crepr (store_of t2) (nil t) (root t2) z (parent nz) ctx /\ repr (store_of t2) (nil t) z (left nz) l /\
    repr (store_of t2) (nil t) y (right ny) R;
  lf_nil : X = E -> get_parent t2 (nil t) = Ret p;
  lf_replace : exists o, evt_replace_node ev t2 z y = Ret (with_objs t2 o) /\ ti (with_objs t2 o) (plug ctx (T l y R));
}.

Lemma successor_NoDup ctx l z cy y ry :
  NoDup (inorder (plug ctx (T l z (plug cy (T E y ry))))) ->
  NoDup (z :: y :: inorder l ++ inorder (plug cy ry) ++ ctx_ids ctx).
Proof.
  rewrite plug_perm. simpl. intros Hnd. eapply NoDup_Permutation_proper; [|exact Hnd].
  rewrite !plug_perm. simpl. perm_count.
Qed.

Lemma lift_near t ctx l z y ry ny :
  tree_is t (plug ctx (T l z (T E y ry))) -> nil_black t -> store_of t !! y = Some ny ->
  exists t2, wr t (right ny) (put_parent y) = Ret t2 /\ lifted t ctx l z y ry ry y t2.
Proof.
  intros [[Hr Hnd] Hi] (nn & Hnn & _) Hy. pose proof Hr as Hr0. pose proof (successor_NoDup ctx l z [] y ry Hnd) as Hnd'. simpl in Hnd'.
  apply NoDup_cons in Hnd' as [Dz Hnd']. apply NoDup_cons in Hnd' as [Dy Hnd'].
  apply NoDup_app in Hnd' as (_ & Dl & Hnd'). apply NoDup_app in Hnd' as (Hndr & Dr & _).
  apply repr_plug in Hr as (h & p & Hc & Ht). destruct Ht as (-> & Hz & nz & Hnz & <- & Hl & Hyr).
  destruct Hyr as (Ey & Hyn & m & Hm & Hpy & Ee & Hry). assert (m = ny) as -> by congruence.
  pose proof (crepr_not_nil _ _ _ _ _ _ Hc) as Hcn. pose proof (repr_not_nil _ _ _ _ _ Hl) as Hln.
  assert (exists t2, wr t (right ny) (put_parent y) = Ret t2 /\ kept t t2 /\ root t2 = root t /\
    repr (store_of t2) (nil t) y (right ny) ry /\ (ry = E -> get_parent t2 (nil t) = Ret y) /\
    forall x, x <> nil t -> x ∉ inorder ry -> agree t t2 x) as (t2 & W & K & Rt & Hry2 & Hnil & O).
  { destruct ry as [|a v b].
    - simpl in Hry. rewrite Hry. destruct (wr_links t (nil t) (put_parent y) nn) as (t2 & W & K & Rt & Hn & O); [done..|].
      exists t2. split; [done|]. split; [done|]. split; [done|]. split; [done|]. split.
      + intros _. unfold get_parent. by rewrite (rd_at _ _ _ Hn).
      + intros x Hx _. by apply O.
    - destruct (reparent t y (right ny) (T a v b) y Hry Hndr) as (t2 & W & K & Rt & Hb & O).
      pose proof Hry as (Ev & Hv & _). rewrite (proj2 (Nat.eqb_neq _ _)) in W by congruence.
      exists t2. do 4 (split; [done|]). split; [done|]. intros x _. apply O. }
  exists t2. split; [done|]. split; [done| |done|].
  2:{ apply (di_near t ctx l z y ry t2); [by split|done|]. apply kept_records; [done|]. by apply wr_objs in W. }
  exists nz, ny. split; [rewrite O; [done|done|out_of Dz]|]. split; [rewrite O; [done|done|out_of Dy]|].
  split; [|split; [|done]].
  - rewrite Rt. apply (crepr_frame (store_of t)); [|done]. intros x Hx. apply agree_links, O.
    + intros ->. by apply Hcn.
    + intros Hin. by apply (Dr x Hin).
  - apply (repr_frame (store_of t)); [|done]. intros x Hx. apply agree_links, O.
    + by intros ->.
    + intros Hin. apply (Dl x Hx). set_solver.
Qed.

Lemma lift_far t ctx l z f cy y ry ny :
  ctx_before (f :: cy) = [] -> tree_is t (plug ctx (T l z (plug (f :: cy) (T E y ry)))) -> nil_black t -> store_of t !! y = Some ny ->
  exists t2, (t ← replace_node ev t y (right ny); zr ← get_right t z; t ← wr t y (put_right zr);
              yr ← get_right t y; wr t yr (put_parent y)) = Ret t2 /\
    lifted t ctx l z y (plug (f :: cy) ry) ry (ctx_top (nil t) (f :: cy)) t2.
Proof.
  intros Hcy Ht Hb Hy. set (R := plug (f :: cy) ry).
  pose proof (successor_NoDup ctx l z (f :: cy) y ry (tree_is_NoDup _ _ Ht)) as Hnd. fold R in Hnd.
  destruct (di_far t ctx l z f cy y ry Hcy (proj1 Ht) (proj2 Ht)) as (o & Hev & Hfar). fold R in Hfar.
  change (match ry with E => nil t | T _ x _ => x end) with (ptr (nil t) ry) in Hev.
  assert (Ht' : tree_is t (plug ((f :: cy) ++ RightOf l z :: ctx) (T E y ry))) by (by rewrite plug_app).
  destruct (replace_shape (with_objs t o) _ E y ry ry (proj1 Ht')) as (t1 & W1 & K1 & O1 & Ht1 & Hp);
    [destruct Hb as (nn & Hnn & _); by exists nn|by left|].
  change (kept t t1) in K1. change (agree t t1 y) in O1. change (nil (with_objs t o)) with (nil t) in W1, Hp.
  rewrite plug_app in Ht1. fold R in Ht1. cbn [plug] in Ht1.
  assert (Ex : right ny = ptr (nil t) ry).
  { destruct (node_at t _ E y ry Ht') as (m & Hm & _ & _ & Hr). assert (m = ny) as -> by congruence.
    by apply (repr_ptr _ _ _ _ _ Hr). }
  rewrite Ex, (replace_ev ev t y (ptr (nil t) ry) o Hev), W1. simpl. assert (E1 : nil t1 = nil t) by apply K1.
  pose proof (node_at t _ E y ry Ht') as (_ & _ & Hyn & _).
  destruct Ht1 as [Hr1 _]. apply repr_plug in Hr1 as (h & p & Hc & HT). rewrite E1 in *.
  destruct HT as (-> & Hz & nz & Hnz & <- & Hl & HR).
  pose proof (crepr_not_nil _ _ _ _ _ _ Hc) as Hcn. pose proof (repr_not_nil _ _ _ _ _ HR) as HRn.
  apply NoDup_cons in Hnd as [Dz Hnd]. apply NoDup_cons in Hnd as [Dy Hnd].
  apply NoDup_app in Hnd as (_ & Dl & Hnd). apply NoDup_app in Hnd as (HndR & DR & _).
  rewrite (get_right_node _ _ _ Hnz). simpl.
  destruct (wr_links t1 y (put_right (right nz)) ny) as (t2 & W2 & K2 & R2 & Y2 & O2); [by rewrite O1|done|].
  rewrite W2. simpl. rewrite (get_right_node _ _ _ Y2). simpl. assert (E2 : nil t2 = nil t) by (rewrite <- E1; apply K2).
  destruct (reparent t2 z (right nz) R y) as (t3 & W3 & K3 & R3 & HR3 & O3); [|done|].
  { rewrite E2. apply (repr_frame (store_of t1)); [|done]. intros x Hx. apply agree_links, O2. intros ->.
    apply Dy. clear - Hx. set_solver. }
  assert (HRne : R <> E).
  { intros E. assert (inorder R = []) as H by (by rewrite E). unfold R in H. rewrite inorder_plug in H.
    apply app_eq_nil in H as [H1 H]. apply app_eq_nil in H as [_ H2]. destruct f; simpl in *; [done|].
    apply app_eq_nil in H1 as [_ H1]. by apply app_eq_nil in H1 as [_ ?]. }
  assert (Hrn : right nz <> nil t) by (destruct R; [done|]; by destruct HR as (-> & ? & _)).
  rewrite (proj2 (Nat.eqb_neq _ _)) in W3 by congruence. exists t3. split; [done|].
  assert (O13 : forall x, x <> y -> x ∉ inorder R -> agree t1 t3 x)
    by (intros x ? ?; eapply agree_trans; [by apply O2|by apply O3]).
  split.
  - by repeat (eapply kept_trans; [eassumption|]).
  - exists nz, (put_right (right nz) ny). split; [rewrite O13; [done| |out_of Dz]|].
    { intros ->. apply Dz. clear. set_solver. }
    split; [rewrite O3; [done|out_of Dy]|]. split; [|split].
    + rewrite R3, R2. apply (crepr_frame (store_of t1)); [|done]. intros x Hx. apply agree_links, O13.
      * intros ->. apply Dy. unfold ctx_ids. clear - Hx. set_solver.
      * intros Hin. by apply (DR x Hin).
    + apply (repr_frame (store_of t1)); [|done]. intros x Hx. apply agree_links, O13.
      * intros ->. apply Dy. clear - Hx. set_solver.
      * intros Hin. apply (Dl x Hx). clear - Hin. set_solver.
    + by rewrite <- E2.
  - intros ->. unfold get_parent, rd in Hp |- *. simpl in Hp. rewrite (O13 (nil t)); [|congruence|done].
    rewrite Hp. by destruct f.
  - apply (Hfar t3). apply kept_records; [by repeat (eapply kept_trans; [eassumption|])|].
    rewrite (wr_objs _ _ _ _ W3), (wr_objs _ _ _ _ W2). exact (replace_objs _ _ _ _ W1).
Qed.

(** What taking [z] out gives. *)
Definition taken (t : rb_tree_t) (z : nat) (n : nat) (L : list nat) : Prop :=
  exists t' ctx h X d, unlink_node ev t z = Ret (t', h, d) /\ kept_data t t' /\
    unlinked t' ctx h X d n /\ inorder (plug ctx X) = L.

(** The colours once the successor [y] has the place and the colour of [z]. *)
Lemma successor_colours t t' ctx l z cy y ry n :
  balanced t (plug ctx (T l z (plug cy (T E y ry)))) n ->
  rootcol (col t) (plug ctx (T l z (plug cy (T E y ry)))) = BLACK ->
  (forall x, col t' x = if decide (x = y) then col t z else col t x) ->
  tree_is t' (plug (cy ++ RightOf l y :: ctx) ry) -> nil_black t' ->
  get_parent t' (ptr (nil t') ry) = Ret (ctx_top (nil t') (cy ++ RightOf l y :: ctx)) ->
  unlinked t' (cy ++ RightOf l y :: ctx) (ptr (nil t') ry) ry (col t y) n.
Proof.
  intros [Ht _ Hn Hh] Hroot C Ht' Hb' Hp. pose proof (successor_NoDup _ _ _ _ _ _ (tree_is_NoDup _ _ Ht)) as Hnd.
  apply NoDup_cons in Hnd as [_ Hnd]. apply NoDup_cons in Hnd as [Dy _].
  assert (Dy' : y ∉ ctx_ids cy ++ inorder ry ++ inorder l ++ ctx_ids ctx) by (revert Dy; rewrite plug_perm; set_solver).
  assert (S : forall L, y ∉ L -> same_on L (col t) (col t'))
    by (intros L HL x Hx; rewrite C, decide_False; [done|by intros ->]).
  assert (Cy : col t' y = col t z) by (by rewrite C, decide_True).
  assert (Sc : same_on (ctx_ids cy ++ inorder l ++ ctx_ids ctx) (col t) (col t')) by (apply S; out_of Dy').
  assert (Sr : same_on (inorder ry) (col t) (col t')) by (apply S; out_of Dy').
  pose proof (plug_app cy (RightOf l z :: ctx) (T E y ry)) as Ep. cbn [plug] in Ep. rewrite <- Ep in Hn, Hh, Hroot.
  destruct (colours_around (col t) (cy ++ RightOf l z :: ctx) E y ry ry n Hn Hh Hroot) as (NV & Hab & Hrt & Hred & m & Hm & Hc);
    [by left|]. split; try done.
  - by apply (nored_same (col t)).
  - by apply (rename_nored_ctx (col t) _ l z).
  - rewrite (rename_root (col t) (col t') l z y ctx Cy); [done|]. apply S. out_of Dy'.
  - intros Hy. destruct (Hred Hy) as [_ ?]. split; [by destruct cy|]. by rewrite (rootcol_same (col t)).
  - exists m. split; [by apply (bh_same (col t))|]. by apply (rename_bh_ctx (col t) _ l z).
Qed.

Lemma unlink_two t ctx l z r n :
  balanced t (plug ctx (T l z r)) n -> rootcol (col t) (plug ctx (T l z r)) = BLACK -> l <> E -> r <> E ->
  taken t z n (ctx_before ctx ++ inorder l ++ inorder r ++ ctx_after ctx).
Proof.
  intros Hbal Hroot Hl Hr. pose proof (b_tree _ _ _ Hbal) as Ht. pose proof (b_nil _ _ _ Hbal) as Hb.
  destruct (node_at t ctx l z r Ht) as (nz & Hnz & Hz & HL & HR).
  pose proof (repr_ptr _ _ _ _ _ HL) as El. pose proof (repr_ptr _ _ _ _ _ HR) as Er.
  assert (Hln : left nz <> nil t) by (destruct l; [done|]; destruct HL as (-> & ? & _); done).
  destruct r as [|rl x rr]; [done|]. simpl in Er.
  destruct (minimum_ok t rr rl x z (walk_fuel t)) as (cy & y & ry & Ep & Hcy & Hmin).
  { by rewrite Er in HR. }
  { pose proof (tree_is_length _ _ Ht) as H. rewrite plug_perm in H. simpl in H. unfold walk_fuel.
    repeat (rewrite length_app in H; simpl in H). lia. }
  assert (Hxn : x <> nil t) by (by destruct HR as (_ & ? & _)). clear HR. rewrite Ep in *.
  assert (Hty : tree_is t (plug (cy ++ RightOf l z :: ctx) (T E y ry))) by (by rewrite plug_app).
  destruct (node_at t _ E y ry Hty) as (ny & Hny & Hyn & _ & HRy). pose proof (repr_ptr _ _ _ _ _ HRy) as Ey.
  assert (Hpy : parent ny = ctx_top (nil t) (cy ++ RightOf l z :: ctx)).
  { pose proof (parent_top t _ E y ry Hty ltac:(by destruct cy)) as H. unfold get_parent in H.
    rewrite (rd_at _ _ _ Hny) in H. by injection H. }
  pose proof (successor_NoDup _ _ _ _ _ _ (tree_is_NoDup _ _ Ht)) as Hnd.
  assert (exists t2, (if (parent ny =? z)%nat then wr t (right ny) (put_parent y)
    else t ← replace_node ev t y (right ny); zr ← get_right t z; t ← wr t y (put_right zr);
         yr ← get_right t y; wr t yr (put_parent y)) = Ret t2 /\
    lifted t ctx l z y (plug cy ry) ry (ctx_top (nil t) (cy ++ RightOf l y :: ctx)) t2) as (t2 & W2 & [K2 Hnodes Hnil2 (o & Hev & Hti)]).
  { rewrite Hpy. destruct cy as [|f cy].
    - simpl. rewrite Nat.eqb_refl. by apply lift_near.
    - rewrite (proj2 (Nat.eqb_neq _ _)).
      + destruct (lift_far t ctx l z f cy y ry ny Hcy Ht Hb Hny) as (t2 & W & Hlf). exists t2. split; [done|]. by destruct f.
      + intros Ez. apply NoDup_cons in Hnd as [Dz _]. apply Dz. rewrite plug_perm. unfold ctx_ids.
        destruct f; simpl in Ez |- *; subst; clear; set_solver. }
  destruct Hnodes as (nz2 & ny2 & Hz2 & Hy2 & Hc2 & Hl2 & HR2). assert (E2 : nil t2 = nil t) by apply K2.
  rewrite <- E2 in Hc2, Hl2, HR2.
  destruct (take_place t2 o ctx l z (plug cy ry) y nz2 ny2 (fun t => Ret (t, right ny, color ny)))
    as (t' & W & [K N B Ht' C]); try done; [congruence|congruence|by apply (nil_black_kept t)|].
  assert (En : nil t' = nil t) by (rewrite <- E2; apply K).
  exists t', (cy ++ RightOf l y :: ctx), (right ny), ry, (color ny). split; [|split; [|split]].
  - unfold unlink_node. rewrite (rd_at _ _ _ Hnz). simpl. rewrite (proj2 (Nat.eqb_neq (left nz) _)) by done.
    rewrite Er, (proj2 (Nat.eqb_neq x _)) by done.
    unfold minimum. rewrite Hmin. simpl. rewrite (rd_at _ _ _ Hny). simpl. rewrite W2. simpl. exact W.
  - eapply kept_data_trans; [by apply kept_kept_data|done].
  - assert (Ecy : color ny = col t y) by (unfold col; by rewrite Hny). rewrite Ecy, Ey, <- En.
    assert (Htp : tree_is t' (plug (cy ++ RightOf l y :: ctx) ry)) by (by rewrite plug_app).
    apply (successor_colours t t' ctx l z); try done.
    + intros v. rewrite C, !(kept_col t t2) by done. done.
    + destruct ry as [|a v b]; [|apply (parent_top t' _ a v b Htp); by destruct cy].
      simpl. rewrite En, <- E2. destruct N as [N1 N2]. rewrite <- N1. apply (get_parent_nil t2); [done|].
      rewrite E2, N1, E2. by apply Hnil2.
  - rewrite plug_app. cbn [plug]. rewrite !inorder_plug. simpl. rewrite !inorder_plug, Hcy. simpl. rewrite <- !app_assoc. simpl. by rewrite <- ?app_assoc.
Qed.

Lemma unlink_node_ok t ctx l z r n :
  balanced t (plug ctx (T l z r)) n -> rootcol (col t) (plug ctx (T l z r)) = BLACK ->
  taken t z n (ctx_before ctx ++ inorder l ++ inorder r ++ ctx_after ctx).
Proof.
  intros Hbal Hroot. destruct (node_at t ctx l z r (b_tree _ _ _ Hbal)) as (nz & Hnz & Hz & HL & HR).
  pose proof (repr_ptr _ _ _ _ _ HL) as El. pose proof (repr_ptr _ _ _ _ _ HR) as Er.
  assert (Ec : color nz = col t z) by (unfold col; by rewrite Hnz).
  destruct (decide (left nz = nil t)) as [Hln|Hln].
  - assert (l = E) as ->.
    { destruct l as [|a v b]; [done|]. destruct HL as (? & ? & _). simpl in El. congruence. }
    destruct (unlink_one t ctx E z r r n Hbal Hroot) as (t' & W & K & U); [by left|].
    exists t', ctx, (right nz), r, (color nz). split; [|split; [done|split; [by rewrite Er, Ec|apply inorder_plug]]].
    unfold unlink_node. rewrite (rd_at _ _ _ Hnz). simpl. rewrite (proj2 (Nat.eqb_eq _ _) Hln), Er, W. done.
  - destruct (decide (right nz = nil t)) as [Hrn|Hrn].
    + assert (r = E) as ->.
      { destruct r as [|a v b]; [done|]. destruct HR as (? & ? & _). simpl in Er. congruence. }
      destruct (unlink_one t ctx l z E l n Hbal Hroot) as (t' & W & K & U); [by right|].
      exists t', ctx, (left nz), l, (color nz). split; [|split; [done|split; [by rewrite El, Ec|apply inorder_plug]]].
      unfold unlink_node. rewrite (rd_at _ _ _ Hnz). simpl. rewrite (proj2 (Nat.eqb_neq _ _) Hln), (proj2 (Nat.eqb_eq _ _) Hrn), El, W. done.
    + apply unlink_two; try done; intros ->; simpl in *; congruence.
Qed.

(** ** unthread_node *)

Section unthread.
Context (t : rb_tree_t) (z : nat) (a b : list nat) (nz : rb_node_t).
Context (Hth : threaded t (a ++ z :: b)) (Hnd : NoDup (a ++ z :: b)) (Hnil : nil t ∉ a ++ z :: b).
Context (Hz : store_of t !! z = Some nz).

Lemma thread_around : prev nz = last_of (nil t) a /\ next nz = first_of (nil t) b.
Proof.
  destruct Hth as [Hc _ _]. apply chain_app in Hc as [_ Hc]. destruct Hc as (n & Hn & Hp & Hx & _).
  assert (n = nz) as -> by congruence. done.
Qed.

Lemma unthread_prev :
  exists t1, (if (prev nz =? nil t)%nat then Ret (with_min t (next nz)) else wr t (prev nz) (put_next (next nz))) = Ret t1 /\
    kept_links t t1 /\ min t1 = first_of (nil t) (a ++ b) /\ max t1 = max t /\ store_of t1 !! z = Some nz /\
    forall x, prev <$> store_of t1 !! x = prev <$> store_of t !! x /\
      next <$> store_of t1 !! x = (if decide (last a = Some x) then (fun _ => first_of (nil t) b) else next) <$> store_of t !! x.
Proof.
  destruct thread_around as [-> ->]. pose proof Hth as [Hc Hmin _].
  destruct (decide (a = [])) as [Ea|Ha].
  - subst a. unfold last_of. simpl. rewrite Nat.eqb_refl. eexists. split; [done|]. by split_and!.
  - assert (Hin : last_of (nil t) a ∈ a) by (by apply last_of_in).
    rewrite (proj2 (Nat.eqb_neq _ _)) by (intros E; apply Hnil; rewrite <- E; set_solver).
    destruct (chain_Some _ _ _ _ (last_of (nil t) a) Hc) as [nl Hl]; [set_solver|].
    destruct (wr_thread t _ (put_next (first_of (nil t) b)) nl Hl) as (t1 & W & K & M1 & M2 & S);
      [eexists; by left|]. exists t1. split; [done|]. split; [done|].
    split; [rewrite M1, Hmin; by destruct a|]. split; [done|]. rewrite S. split.
    + rewrite lookup_insert_ne; [done|]. intros E. apply NoDup_app in Hnd as (_ & D & _). apply (D _ Hin).
      rewrite E. set_solver.
    + intros x. rewrite (last_of_Some (nil t) a Ha). destruct (decide (x = last_of (nil t) a)) as [->|Hx].
      * rewrite decide_True by done. rewrite lookup_insert_eq, Hl. done.
      * rewrite decide_False by congruence. by rewrite lookup_insert_ne.
Qed.

Lemma unthread_node_ok :
  exists t', unthread_node t z = Ret t' /\ kept_links t t' /\ threaded t' (a ++ b).
Proof.
  destruct thread_around as [Ep En]. destruct unthread_prev as (t1 & W1 & K1 & Min1 & Max1 & Z1 & S1).
  assert (E1 : nil t1 = nil t) by apply K1. pose proof Hth as [Hc _ Hmax].
  apply NoDup_app in Hnd as (Hnda & Dab & Hndb). apply NoDup_cons in Hndb as [Dzb Hndb].
  apply chain_app in Hc as [Ha Hc]. destruct Hc as (n & Hn & _ & _ & Hb). assert (n = nz) as -> by congruence.
  assert (exists t', (if (next nz =? nil t1)%nat then Ret (with_max t1 (prev nz)) else wr t1 (next nz) (put_prev (prev nz))) = Ret t' /\
    kept_links t1 t' /\ min t' = min t1 /\ max t' = last_of (nil t) (a ++ b) /\
    forall x, next <$> store_of t' !! x = next <$> store_of t1 !! x /\
      prev <$> store_of t' !! x = (if decide (head b = Some x) then (fun _ => last_of (nil t) a) else prev) <$> store_of t1 !! x)
    as (t' & W2 & K2 & Min2 & Max2 & S2).
  { rewrite Ep, En, E1. destruct b as [|y b'] eqn:Eb; simpl.
    - unfold first_of. simpl. rewrite Nat.eqb_refl. eexists. split; [done|]. rewrite app_nil_r. by split_and!.
    - change (first_of (nil t) (y :: b')) with y. rewrite (proj2 (Nat.eqb_neq _ _)) by set_solver.
      assert (Hy : exists m, store_of t1 !! y = Some m).
      { destruct Hb as (m & Hm & _). pose proof (proj1 (S1 y)) as Hy. rewrite Hm in Hy.
        destruct (store_of t1 !! y) as [m'|]; [by exists m'|done]. }
      destruct Hy as [m Hm]. destruct (wr_thread t1 y (put_prev (last_of (nil t) a)) m Hm) as (t' & W & K & M1 & M2 & S);
        [eexists; by right|]. exists t'. split; [done|]. split; [done|]. split; [done|]. rewrite S. split.
      + rewrite M2, Max1, Hmax. unfold last_of. by rewrite !last_app, last_cons_cons.
      + intros x. destruct (decide (x = y)) as [->|Hx].
        * rewrite decide_True by done. by rewrite lookup_insert_eq, Hm.
        * rewrite decide_False by congruence. by rewrite lookup_insert_ne. }
  exists t'. split; [|split; [by eapply kept_links_trans|]].
  { unfold unthread_node. rewrite (rd_at _ _ _ Hz). simpl. rewrite W1. simpl. rewrite (rd_at _ _ _ Z1). simpl. exact W2. }
  assert (En' : nil t' = nil t) by (rewrite <- E1; apply K2). split; rewrite En'; [|congruence|done].
  apply chain_app. split.
  - apply (chain_retarget (store_of t) (store_of t') _ a (nil t) z); [| |done|done].
    + intros x Hx. rewrite (proj2 (S2 x)), decide_False; [apply S1|]. intros E. apply (Dab x Hx).
      apply head_Some_elem_of in E. set_solver.
    + intros x Hx. rewrite (proj1 (S2 x)). apply S1.
  - destruct b as [|y b']; [done|]. destruct Hb as (m & Hm & _ & Hnx & Hb). apply NoDup_cons in Hndb as [Dy _].
    assert (Hk : forall x, x ∈ y :: b' -> next <$> store_of t' !! x = next <$> store_of t !! x).
    { intros x Hx. rewrite (proj1 (S2 x)), (proj2 (S1 x)), decide_False; [done|].
      intros E%last_Some_elem_of. apply (Dab x E). set_solver. }
    pose proof (Hk y ltac:(set_solver)) as Hky. pose proof (proj2 (S2 y)) as Hpy. rewrite decide_True in Hpy by done.
    rewrite Hm in Hky. simpl. destruct (store_of t' !! y) as [m'|]; [|done]. simpl in Hky, Hpy. injection Hky as Hky.
    destruct (store_of t1 !! y) as [m1|]; [|done]. simpl in Hpy. injection Hpy as Hpy. exists m'.
    split; [done|]. split; [done|]. split; [congruence|]. apply (chain_frame (store_of t)); [|done].
    intros x Hx. pose proof (Hk x ltac:(set_solver)) as E1x. pose proof (proj2 (S2 x)) as E2x.
    rewrite decide_False, (proj1 (S1 x)) in E2x by (simpl; congruence).
    destruct (store_of t' !! x), (store_of t !! x); simpl in *; congruence.
Qed.
End unthread.

(** ** delete_node *)

Lemma split_at sh z : z ∈ inorder sh -> exists ctx l r, sh = plug ctx (T l z r).
Proof.
  intros Hz. change (exists ctx l r, plug [] sh = plug ctx (T l z r)). generalize ([] : list frame).
  induction sh as [|l IHl x r IHr]; intros ctx; [set_solver|]. simpl in Hz.
  apply elem_of_app in Hz as [Hl|Hz]; [by apply (IHl Hl (LeftOf x r :: ctx))|].
  apply elem_of_cons in Hz as [->|Hr]; [by exists ctx, l, r|by apply (IHr Hr (RightOf l x :: ctx))].
Qed.

Lemma kept_links_balanced t t' sh n :
  kept_links t t' -> balanced t sh n -> balanced t' sh n /\ rootcol (col t') sh = rootcol (col t) sh.
Proof.
  intros K [Ht Hb Hn Hh]. assert (S : forall L, same_on L (col t) (col t')) by (intros L x _; by apply kept_links_col).
  split; [|by apply rootcol_same]. split; [by apply (kept_links_tree TI t)| |by apply (nored_same (col t))|by apply (bh_same (col t))].
  apply (nil_black_same t); [apply K|by apply kept_links_entries|by apply kept_links_col|done].
Qed.

(** The tree of shape [sh] once [z] is out of it, with [z]'s node still there. *)
Record removed (t : rb_tree_t) (L : list nat) (t' : rb_tree_t) : Prop := mk_removed {
  rm_tree : repaired t' L;
  rm_thread : threaded t' L;
  rm_entries : same_entries t t';
  rm_nodes : nodes t' = u64 (nodes t - 1);
  rm_nil : nil t' = nil t;
  rm_fresh : fresh t' = fresh t;
}.

Lemma tree_is_nodes t sh k : tree_is t sh -> tree_is (with_nodes t k) sh.
Proof. intros [? ?]. split; [done|]. by apply (ti_stable t). Qed.

Lemma delete_node_ok t ctx l z r n M :
  rb_ok t (plug ctx (T l z r)) n M ->
  exists t', delete_node ev t z = Ret t' /\
    removed t (ctx_before ctx ++ inorder l ++ inorder r ++ ctx_after ctx) t'.
Proof.
  intros [Hbal Hroot _ Hth _ _ _ _]. set (sh := plug ctx (T l z r)) in *.
  pose (a := ctx_before ctx ++ inorder l). pose (b := inorder r ++ ctx_after ctx).
  assert (EL : ctx_before ctx ++ inorder l ++ inorder r ++ ctx_after ctx = a ++ b) by (unfold a, b; by rewrite <- !app_assoc).
  assert (Esh : inorder sh = a ++ z :: b) by (unfold sh, a, b; rewrite inorder_plug; simpl; by rewrite <- !app_assoc).
  pose proof (b_tree _ _ _ Hbal) as Ht. destruct (node_at t ctx l z r Ht) as (nz & Hz & Hzn & _).
  destruct (unthread_node_ok t z a b nz) as (t1 & W1 & K1 & Hth1); rewrite <- ?Esh; try done;
    [apply Ht|apply (repr_not_nil _ _ _ _ _ (tree_is_repr _ _ Ht))|].
  destruct (kept_links_balanced t t1 sh n K1 Hbal) as [Hbal1 Er]. rewrite <- Er in Hroot.
  destruct (unlink_node_ok t1 ctx l z r n Hbal1 Hroot) as (t2 & ctx' & h & X & d & W2 & K2 & U & Ein).
  set (t3 := with_nodes t2 (nodes t2 - 1)). rewrite EL in Ein |- *.
  assert (Hf : exists t', (if bool_decide (d = BLACK) then delete_fixup ev t3 h else Ret t3) = Ret t' /\
    kept_data t3 t' /\ repaired t' (a ++ b)).
  { destruct d; simpl.
    - exists t3. split; [done|]. split; [apply kept_data_refl|]. rewrite <- Ein.
      apply unlinked_red in U as (sh' & m & [?%(tree_is_nodes _ _ (nodes t2 - 1))] & ? & ?). exists sh', m. by split_and!.
    - apply unlinked_black in U as [m [?%(tree_is_nodes _ _ (nodes t2 - 1)) ? ? ? ? ? ? ? ?]]. rewrite <- Ein.
      by apply (delete_fixup_ok t3 ctx' h X m n). }
  destruct Hf as (t' & W & K & Hrep). exists t'. split.
  { unfold delete_node. rewrite di_pre. simpl. rewrite W1. simpl. rewrite W2. simpl. rewrite di_post. exact W. }
  assert (S1 : same_entries t t1) by (by apply kept_links_entries).
  assert (S2 : same_entries t1 t3) by (apply (kept_data_entries _ _ K2)).
  destruct K1 as (_ & En1 & Eo1 & Ef1 & _). pose proof K2 as (En2 & _ & _ & Eo2 & Ef2 & _).
  pose proof K as (En & _ & _ & Eo & Ef & _). split; try done.
  - apply (kept_data_threaded t3); [done|]. pose proof (kept_data_threaded _ _ _ K2 Hth1) as []. by split.
  - eapply same_entries_trans; [done|]. eapply same_entries_trans; [done|by apply kept_data_entries].
  - rewrite Eo. simpl. by rewrite Eo2, Eo1.
  - rewrite En. simpl. congruence.
  - rewrite Ef. simpl. congruence.
Qed.

(** ** rb_tree_delete *)

Lemma sorted_around t a z b :
  StronglySorted Z.lt (key_at t <$> a ++ z :: b) ->
  (forall x, x ∈ a ++ b -> key_at t x <> key_at t z) /\ StronglySorted Z.lt (key_at t <$> a ++ b).
Proof.
  rewrite !fmap_app, fmap_cons. intros (Hab & Ha & Hb)%StronglySorted_app.
  apply StronglySorted_cons in Hb as [Hz Hb]. split.
  - intros x [Hx|Hx]%elem_of_app.
    + specialize (Hab (key_at t x) (key_at t z)). apply Z.lt_neq, Hab; [by apply list_elem_of_fmap_2|set_solver].
    + rewrite Forall_fmap, Forall_forall in Hz. specialize (Hz x Hx). simpl in Hz. lia.
  - apply StronglySorted_app. split; [|done]. intros u v Hu Hv. apply Hab; [done|set_solver].
Qed.

(** The map of a tree with one node less. *)
Lemma map_drop t t' a z b nz (M : gmap Z Z) :
  (forall x, x ∈ a ++ b -> entry <$> store_of t' !! x = entry <$> store_of t !! x) ->
  store_of t !! z = Some nz -> (forall x, x ∈ a ++ b -> key_at t x <> key nz) ->
  (forall k d, M !! k = Some d <->
    exists x m, x ∈ a ++ z :: b /\ store_of t !! x = Some m /\ key m = k /\ data m = d) ->
  forall k d, delete (key nz) M !! k = Some d <->
    exists x m, x ∈ a ++ b /\ store_of t' !! x = Some m /\ key m = k /\ data m = d.
Proof.
  intros He Hz Hkey Hmap k d. rewrite lookup_delete_Some. split.
  - intros [Hne (x & m & Hx & Hm & <- & <-)%Hmap].
    assert (Hx' : x ∈ a ++ b) by (assert (x <> z) by (intros ->; congruence); set_solver).
    specialize (He x Hx'). rewrite Hm in He. destruct (store_of t' !! x) as [m'|] eqn:E; [|done].
    unfold entry in He. simpl in He. injection He as Ek Ed. exists x, m'. by split_and!.
  - intros (x & m' & Hx & Hm' & <- & <-). specialize (He x Hx). rewrite Hm' in He.
    destruct (store_of t !! x) as [m|] eqn:Hm; [|done]. unfold entry in He. simpl in He. injection He as Ek Ed.
    specialize (Hkey x Hx). rewrite (key_at_Some _ _ _ Hm) in Hkey. rewrite Ek, Ed. split; [done|].
    apply Hmap. exists x, m. split; [set_solver|]. by split_and!.
Qed.

(** The node of [z] released. *)
Definition dropped (t : rb_tree_t) (z : nat) : rb_tree_t :=
  with_store (with_nodes t (nodes t - 1)) (delete z (store_of t)).

Lemma dropped_ok t z L : repaired t L -> threaded t L -> z ∉ L -> z <> nil t ->
  repaired (dropped t z) L /\ threaded (dropped t z) L.
Proof.
  intros (sh & n & [[[Hr Hnd] Hi] (nb & Hnb & Hbb) Hn Hh] & Hroot & <-) [Hs Hmin Hmax] Hz Hzn.
  assert (Hin : forall x, x ∈ inorder sh -> store_of (dropped t z) !! x = store_of t !! x)
    by (intros x Hx; simpl; rewrite lookup_delete_ne; [done|congruence]).
  assert (Hcol : same_on (inorder sh) (col t) (col (dropped t z))) by (intros x Hx; unfold col; by rewrite Hin).
  split.
  - exists sh, n. split; [split; [split; [split; [|done]|]| |by apply (nored_same (col t))|by apply (bh_same (col t))]|split; [|done]].
    + apply (repr_frame (store_of t)); [|done]. intros x Hx. unfold same_links. by rewrite Hin.
    + apply (ti_stable t); [|done]. split; [done|]. split; [done|]. intros x [->|Hx]%elem_of_cons; [|by rewrite Hin].
      simpl. by rewrite lookup_delete_ne.
    + exists nb. simpl. by rewrite lookup_delete_ne.
    + by rewrite (rootcol_same (col t)).
  - split; [|done|done]. apply (chain_frame (store_of t)); [|done]. intros x Hx. by rewrite Hin.
Qed.

(** The updates of [min] and [max] after delete_node change nothing. *)
Lemma ends_updated t z (L : list nat) p :
  threaded t L -> z ∉ L -> z <> nil t -> (nodes t = 1 -> L = []) ->
  (if nodes t =? 1 then with_max (with_min t (nil t)) (nil t)
   else if (z =? min t)%nat then if nodes t =? 2 then with_min t (max t) else with_min t p
   else if (z =? max t)%nat then with_max t p else t) = t.
Proof.
  intros [_ Hmin Hmax] Hz Hzn H1. destruct (Z.eqb_spec (nodes t) 1) as [E|E].
  - rewrite (H1 E) in *. unfold first_of, last_of in *. simpl in *. rewrite <- Hmin at 1. rewrite <- Hmax. by destruct t.
  - assert (forall x, x = nil t \/ x ∈ L -> z <> x) as Hne by (intros x [->|Hx]; [done|congruence]).
    rewrite (proj2 (Nat.eqb_neq z (min t))), (proj2 (Nat.eqb_neq z (max t))); [done|..]; apply Hne;
      [rewrite Hmax|rewrite Hmin]; (destruct (decide (L = [])) as [->|?]; [by left|right]);
      [by apply last_of_in|by apply first_of_in].
Qed.

Lemma node_not_nil t ctx l x r : tree_is t (plug ctx (T l x r)) -> rb_node_is_nil t x = Ret false.
Proof.
  intros [[Hr Hnd] _]. rewrite plug_perm in Hnd. apply repr_plug in Hr as (h & p & Hc & Ht).
  destruct Ht as (-> & Hx & n & Hn & <- & _). unfold rb_node_is_nil. rewrite (rd_at _ _ _ Hn). simpl.
  rewrite (proj2 (Nat.eqb_neq _ _)); [by rewrite andb_false_r|]. rewrite (crepr_top _ _ _ _ _ _ Hc).
  intros E. apply NoDup_app in Hnd as (_ & D & _). destruct ctx as [|[y s|s y] ctx]; simpl in E; [done|..]; subst y;
    (apply (D x); [unfold ctx_ids; simpl; clear; set_solver|simpl; clear; set_solver]).
Qed.

(** The count of a tree: insert_node and rb_tree_insert_node each add one. *)
Definition counted (t : rb_tree_t) (sh : tr) : Prop :=
  nodes t = 2 * Z.of_nat (length (inorder sh)) /\ nodes t < 2 ^ 64.

Lemma delete_step t sh n M k d :
  rb_ok t sh n M -> M !! k = Some d -> counted t sh ->
  exists t' sh' n', rb_tree_delete ev t k = Ret (d, t') /\ rb_ok t' sh' n' (delete k M) /\
    counted t' sh' /\ length (inorder sh) = S (length (inorder sh')).
Proof.
  intros Hok Hk [Hc Hc64]. pose proof Hok as [[Ht _ _ _] _ Ho _ _ Hfr Hnn HM].
  destruct (find_node_found t sh k (proj1 Ht) (sorted_ascending _ _ Ho)) as (z & Hf & [(Hin & nz & Hz & <-)|[_ Hno]]).
  2:{ apply HM in Hk as (x & m & Hx & Hm & Ek & _). by apply (Hno x m Hx Hm) in Ek. }
  assert (d = data nz) as ->.
  { assert (M !! key nz = Some (data nz)) by (apply HM; by exists z, nz). congruence. }
  destruct (split_at sh z Hin) as (ctx & l & r & ->).
  destruct (delete_node_ok t ctx l z r n M Hok) as (t1 & W & [Hrep Hth He Hn Enil Efr]).
  pose (a := ctx_before ctx ++ inorder l). pose (b := inorder r ++ ctx_after ctx).
  assert (EL : ctx_before ctx ++ inorder l ++ inorder r ++ ctx_after ctx = a ++ b) by (unfold a, b; by rewrite <- !app_assoc).
  assert (Esh : inorder (plug ctx (T l z r)) = a ++ z :: b) by (unfold a, b; rewrite inorder_plug; simpl; by rewrite <- !app_assoc).
  rewrite EL in *. pose proof (repr_not_nil _ _ _ _ _ (tree_is_repr _ _ Ht)) as Hnil. pose proof (tree_is_NoDup _ _ Ht) as Hnd.
  pose proof (node_not_nil t ctx l z r Ht) as Hzn. rewrite Esh in *.
  assert (Hzl : z ∉ a ++ b).
  { apply NoDup_app in Hnd as (_ & D1 & [D2 _]%NoDup_cons). intros [Hx|Hx]%elem_of_app; [apply (D1 z Hx); set_solver|done]. }
  assert (Hzne : z <> nil t1) by (rewrite Enil; intros ->; apply Hnil; set_solver).
  assert (Elen : length (a ++ z :: b) = S (length (a ++ b))) by (rewrite !length_app; simpl; lia).
  assert (Hn1 : nodes t1 = 2 * Z.of_nat (length (a ++ b)) + 1)
    by (rewrite Hn; etransitivity; [apply wrap_small; unfold fits; lia|lia]).
  assert (Hn2 : u64 (nodes t1 - 1) = 2 * Z.of_nat (length (a ++ b)))
    by (rewrite Hn1; etransitivity; [apply wrap_small; unfold fits; lia|lia]).
  destruct (entries_Some _ _ z nz He Hz) as (nz1 & Hz1 & _ & Ed).
  destruct (dropped_ok t1 z _ Hrep Hth Hzl Hzne) as [(sh' & n' & Hbal & Hroot & Ein) Hth'].
  assert (Hold : forall x, x <> z -> entry <$> store_of (dropped t1 z) !! x = entry <$> store_of t !! x)
    by (intros x Hx; simpl; rewrite lookup_delete_ne by done; apply He).
  destruct (sorted_around t a z b Ho) as [Hkeys Hs]. rewrite (key_at_Some _ _ _ Hz) in Hkeys.
  exists (dropped t1 z), sh', n'. split; [|split; [|split; [|by rewrite Ein]]].
  - unfold rb_tree_delete. rewrite Hf. simpl. rewrite Hzn. simpl. unfold rb_tree_delete_node. rewrite W. simpl.
    rewrite (rd_at _ _ _ Hz1). simpl. rewrite (ends_updated t1 z (a ++ b)); try done; [by rewrite Ed|].
    intros E. destruct (a ++ b); [done|]. simpl in Hn1. lia.
  - split; try done; rewrite ?Ein; try done.
    + replace (key_at (dropped t1 z) <$> a ++ b) with (key_at t <$> a ++ b); [done|].
      apply list_fmap_ext. intros i x Hx%list_elem_of_lookup_2. assert (Hxz : x <> z) by congruence.
      specialize (Hold x Hxz). unfold entry in Hold. unfold key_at.
      destruct (store_of t !! x), (store_of (dropped t1 z) !! x); simpl in *; congruence.
    + simpl. rewrite Hn2. destruct (a ++ b); simpl; [done|]. split; [lia|done].
    + intros x Hx. simpl in Hx |- *. rewrite Efr. apply Hfr. apply (entries_dom t t1 x He).
      rewrite dom_delete in Hx. set_solver.
    + destruct Hnn as (nn & Hnn & Hd). destruct (entries_Some _ _ _ _ He Hnn) as (n2 & Hn2' & _ & Ed2).
      exists n2. simpl. rewrite Enil in *. rewrite lookup_delete_ne by done. split; [done|congruence].
    + apply (map_drop t _ a z b nz M); try done. intros x Hx. apply Hold. congruence.
  - split; simpl; rewrite Hn2, ?Ein; [done|]. lia.
Qed.

End rb.

(** ** Properties *)

(** Calls of the interface, and what they do to a finite map; None where the
    tree is used outside its contract: a key inserted twice, or a key deleted
    that is not there. *)
Inductive rb_op := Insert (k d : Z) | Delete (k : Z) | Find (k : Z).

Definition step_op (t : rb_tree_t) (o : rb_op) : outcome (Z * rb_tree_t) :=
  match o with
  | Insert k d => t ← rb_tree_insert no_events t k d; Ret (0, t)
  | Delete k => rb_tree_delete no_events t k
  | Find k => d ← rb_tree_find t k; Ret (d, t)
  end.

Definition spec_op (M : gmap Z Z) (o : rb_op) : option (Z * gmap Z Z) :=
  match o with
  | Insert k d => match M !! k with None => Some (0, <[k := d]> M) | Some _ => None end
  | Delete k => match M !! k with Some d => Some (d, delete k M) | None => None end
  | Find k => Some (default 0 (M !! k), M)
  end.

Fixpoint run_ops (t : rb_tree_t) (ops : list rb_op) : outcome (list Z * rb_tree_t) :=
  match ops with
  | [] => Ret ([], t)
  | o :: ops' => '(r, t) ← step_op t o; '(rs, t) ← run_ops t ops'; Ret (r :: rs, t)
  end.

Fixpoint spec_ops (M : gmap Z Z) (ops : list rb_op) : option (list Z * gmap Z Z) :=
  match ops with
  | [] => Some ([], M)
  | o :: ops' =>
      match spec_op M o with
      | None => None
      | Some (r, M') => match spec_ops M' ops' with None => None | Some (rs, M'') => Some (r :: rs, M'') end
      end
  end.

(** The tree [t] holds the map [M]. *)
Definition rb_holds (t : rb_tree_t) (M : gmap Z Z) : Prop :=
  exists sh n, rb_ok (ev := no_events) t sh n M /\ nodes t = 2 * Z.of_nat (length (inorder sh)) /\ length (inorder sh) = size M.

Lemma step_op_ok t M o r M' :
  rb_holds t M -> nodes t + 2 < 2 ^ 64 -> spec_op M o = Some (r, M') ->
  exists t', step_op t o = Ret (r, t') /\ rb_holds t' M' /\ nodes t' <= nodes t + 2.
Proof.
  intros (sh & n & Hok & Hn & Hl) H64 Hs. destruct o as [k d|k|k]; simpl in *.
  - destruct (M !! k) eqn:Hk; [done|]. injection Hs as <- <-.
    destruct (insert_step t sh n M k d Hok Hk) as (t' & sh' & n' & -> & Hok' & Hl' & Hn'); [lia|done|done|].
    exists t'. split; [done|]. split; [|lia]. exists sh', n'. split; [done|].
    rewrite map_size_insert_None by done. split; lia.
  - destruct (M !! k) as [d|] eqn:Hk; [|done]. injection Hs as <- <-.
    destruct (delete_step t sh n M k d Hok Hk) as (t' & sh' & n' & -> & Hok' & [Hn' _] & Hl'); [split; lia|].
    exists t'. split; [done|]. split; [|lia]. exists sh', n'. split; [done|].
    rewrite map_size_delete_Some by done. split; lia.
  - injection Hs as <- <-. rewrite (find_reads _ _ _ _ _ Hok). exists t. split; [done|]. split; [|lia]. by exists sh, n.
Qed.

Lemma run_ops_ok ops : forall t M rs M',
  rb_holds t M -> nodes t + 2 * Z.of_nat (length ops) < 2 ^ 64 -> spec_ops M ops = Some (rs, M') ->
  exists t', run_ops t ops = Ret (rs, t') /\ rb_holds t' M'.
Proof.
  induction ops as [|o ops IH]; intros t M rs M' Hh Hn Hs; simpl in Hs, Hn |- *.
  - injection Hs as <- <-. by exists t.
  - destruct (spec_op M o) as [[r M1]|] eqn:Ho; [|done]. destruct (spec_ops M1 ops) as [[rs1 M2]|] eqn:Hops; [|done].
    injection Hs as <- <-. destruct (step_op_ok t M o r M1 Hh) as (t1 & -> & Hh1 & Hn1); [lia|done|].
    simpl. destruct (IH t1 M1 rs1 M2 Hh1) as (t' & -> & Hh'); [lia|done|]. by exists t'.
Qed.

Lemma create_holds : rb_holds create_rb_tree ∅.
Proof. exists E, 0%nat. split; [apply create_ok|]. by rewrite map_size_empty. Qed.

(** C4. Deleting a key of a red-black search tree succeeds, returns its data
    and gives such a tree again: no red node has a red child, black heights
    agree, the root is black, the nodes are in order and threaded in order
    from the minimum to the maximum.  The new tree holds the old map without
    the key; other lookups are as before. *)
Theorem rb_tree_delete_refines (t : rb_tree_t) (sh : tr) (n : nat) (M : gmap Z Z) (k d : Z)
    (Hok : rb_ok (ev := no_events) t sh n M) (Hk : M !! k = Some d) (Hc : counted t sh) :
  exists t' sh' m, rb_tree_delete no_events t k = Ret (d, t') /\ rb_ok (ev := no_events) t' sh' m (delete k M) /\
    rb_tree_find t' k = Ret 0 /\ (forall k', k' <> k -> rb_tree_find t' k' = rb_tree_find t k') /\
    counted t' sh'.
Proof.
  destruct (delete_step t sh n M k d Hok Hk Hc) as (t' & sh' & m & Hd & Hok' & Hc' & _).
  exists t', sh', m. split; [done|]. split; [done|]. split; [|split; [|done]].
  - rewrite (find_reads _ _ _ _ _ Hok'). by rewrite lookup_delete_eq.
  - intros k' Hne. rewrite (find_reads _ _ _ _ _ Hok'), (find_reads _ _ _ _ _ Hok). by rewrite lookup_delete_ne.
Qed.

Lemma rb_tree_delete_refines_witness :
  exists t' sh' m M, rb_tree_delete no_events tree_ex 5 = Ret (105, t') /\ rb_ok (ev := no_events) t' sh' m M /\
    rb_tree_find t' 5 = Ret 0 /\ rb_tree_find t' 8 = rb_tree_find tree_ex 8.
Proof.
  destruct (insert_all_ok [(5, 105); (3, 103); (8, 108)] create_rb_tree E 0 ∅ create_ok)
    as (t & sh & n & Hi & Hok & Hl);
    [apply (bool_decide_unpack _); vm_compute; exact I|done|done|done|].
  assert (t = tree_ex) as -> by (change (insert_all create_rb_tree [(5, 105); (3, 103); (8, 108)]
    = Ret t) in Hi; vm_compute in Hi; injection Hi as <-; vm_compute; reflexivity).
  destruct (rb_tree_delete_refines tree_ex sh n _ 5 105 Hok) as (t' & sh' & m & H1 & H2 & H3 & H4 & _);
    [vm_compute; reflexivity|split; [rewrite Hl; vm_compute; reflexivity|vm_compute; reflexivity]|].
  exists t', sh', m, (delete 5 (list_to_map [(5, 105); (3, 103); (8, 108)] ∪ ∅)).
  split; [exact H1|]. split; [exact H2|]. split; [exact H3|]. apply H4. discriminate.
Defined.

(** C5. Any sequence of insertions of new keys, deletions of present keys and
    lookups, from an empty tree, runs to its end and returns what a finite map
    returns.  The tree holds that map, and a lookup in it visits at most twice
    the binary logarithm of the number of entries plus one. *)
Theorem rb_tree_run_refines (ops : list rb_op) (rs : list Z) (M : gmap Z Z)
    (Hspec : spec_ops ∅ ops = Some (rs, M)) (Hlen : 2 * Z.of_nat (length ops) < 2 ^ 64) :
  exists t, run_ops create_rb_tree ops = Ret (rs, t) /\
    forall k, rb_tree_find t k = Ret (default 0 (M !! k)) /\
      rb_tree_find_node t k = find_loop (S (2 * Nat.log2 (S (size M)))) t (root t) k.
Proof.
  destruct (run_ops_ok ops create_rb_tree ∅ rs M create_holds) as (t & Hr & sh & n & Hok & _ & Hl); [simpl; lia|done|].
  exists t. split; [done|]. intros k. split; [by apply (find_reads _ _ _ _ _ Hok)|].
  rewrite (find_steps _ _ _ _ _ Hok). by rewrite Hl.
Qed.

Lemma rb_tree_run_refines_witness :
  exists t, run_ops create_rb_tree
      [Insert 5 105; Insert 3 103; Insert 8 108; Insert 9 109; Delete 3; Find 3; Delete 5; Find 8; Delete 9; Insert 3 203] =
    Ret ([0; 0; 0; 0; 103; 0; 105; 108; 109; 0], t) /\
    rb_tree_find t 3 = Ret 203 /\ rb_tree_find t 9 = Ret 0.
Proof.
  destruct (rb_tree_run_refines
    [Insert 5 105; Insert 3 103; Insert 8 108; Insert 9 109; Delete 3; Find 3; Delete 5; Find 8; Delete 9; Insert 3 203]
    [0; 0; 0; 0; 103; 0; 105; 108; 109; 0] (<[3 := 203]> {[8 := 108]})) as (t & Hr & Hf);
    [vm_compute; reflexivity|vm_compute; reflexivity|].
  exists t. split; [exact Hr|]. split; [exact (proj1 (Hf 3))|exact (proj1 (Hf 9))].
Defined.
