(* ===== verification/IntvlTree.v ===== *)
(** * lib/interval_tree.c: interval trees

    An interval tree is a red-black tree whose keys are the starts of
    intervals and whose data are interval records in [objs].  The callbacks
    keep in each record the largest end and the least start below its node.
    For the tree of RbTree this file gives the callbacks the contract of
    RbEvents: the stored maximum is at least every end of the subtree, and at
    most the start of the interval that follows the subtree.  It need not be
    the maximum itself, since a deletion leaves it as it was. *)

From S2P Require Import Prelude Interval.
From stdpp Require Import list gmap sorting.
From S2P Require Import RbTree RbEvents RbInsert RbAdd RbDelete RbFix RbRemove.
Local Open Scope Z_scope.

(** ** Records of nodes *)

Definition deref (t : rb_tree_t) (p : Z) : outcome intvl_node_t :=
  match objs t !! p with Some o => Ret o | None => Fault end.

Definition put_obj (t : rb_tree_t) (p : Z) (o : intvl_node_t) : rb_tree_t :=
  with_objs t (<[p := o]> (objs t)).

(** The record of a node, by a dereference of its data. *)
Definition obj_of (t : rb_tree_t) (x : nat) : outcome intvl_node_t := n ← rd t x; deref t (data n).

Definition get_interval (t : rb_tree_t) (x : nat) : outcome interval_t :=
  if (x =? nil t)%nat then Ret NULL_SET
  else n ← rd t x; if data n =? 0 then Ret NULL_SET else o ← deref t (data n); Ret (interval o).

Definition get_max (t : rb_tree_t) (x : nat) : outcome Z :=
  if (x =? nil t)%nat then Ret 0
  else n ← rd t x; if data n =? 0 then Ret 0 else o ← deref t (data n); Ret (imax o).

Definition get_min (t : rb_tree_t) (x : nat) : outcome Z :=
  if (x =? nil t)%nat then Ret UINT64_MAX
  else n ← rd t x; if data n =? 0 then Ret UINT64_MAX else o ← deref t (data n); Ret (imin o).

Definition set_max (v : Z) (o : intvl_node_t) : intvl_node_t :=
  mk_intvl_node (node o) (interval o) v (imin o) (idata o).
Definition set_min (v : Z) (o : intvl_node_t) : intvl_node_t :=
  mk_intvl_node (node o) (interval o) (imax o) v (idata o).
Definition set_node (v : nat) (o : intvl_node_t) : intvl_node_t :=
  mk_intvl_node v (interval o) (imax o) (imin o) (idata o).

(** ** Callbacks *)

(** Sets the bounds of [x] and of every node above it. *)
Fixpoint recalculate_min_max (fuel : nat) (t : rb_tree_t) (x : nat) : outcome rb_tree_t :=
  match fuel with
  | O => NoFuel
  | S f =>
      if (x =? nil t)%nat then Ret t
      else
        n ← rd t x;
        xd ← deref t (data n);
        ml ← get_max t (left n);
        mr ← get_max t (right n);
        let t := put_obj t (data n) (set_max (Z.max (end_ (interval xd)) (Z.max ml mr)) xd) in
        xd ← deref t (data n);
        ml ← get_min t (left n);
        mr ← get_min t (right n);
        let t := put_obj t (data n) (set_min (Z.min (start (interval xd)) (Z.min ml mr)) xd) in
        recalculate_min_max f t (parent n)
  end.

Definition post_rotate_callback (t : rb_tree_t) (x y : nat) : outcome rb_tree_t :=
  nx ← rd t x;
  ny ← rd t y;
  xd ← deref t (data nx);
  yd ← deref t (data ny);
  let t := put_obj t (data ny) (set_max (imax xd) yd) in
  xd ← deref t (data nx);
  yd ← deref t (data ny);
  let t := put_obj t (data ny) (set_min (imin xd) yd) in
  recalculate_min_max (S (walk_fuel t)) t x.

Definition post_insert_callback (t : rb_tree_t) (z : nat) : outcome rb_tree_t :=
  nz ← rd t z;
  zd ← deref t (data nz);
  recalculate_min_max (S (walk_fuel t)) (put_obj t (data nz) (set_node z zd)) z.

Definition replace_node_callback (t : rb_tree_t) (u v : nat) : outcome rb_tree_t :=
  nv ← rd t v;
  if data nv =? 0 then Ret t
  else
    nu ← rd t u;
    ud ← deref t (data nu);
    vd ← deref t (data nv);
    let t := put_obj t (data nv) (set_max (imax ud) vd) in
    ud ← deref t (data nu);
    vd ← deref t (data nv);
    Ret (put_obj t (data nv) (set_min (imin ud) vd)).

Definition intvl_events : events :=
  mk_events (fun t _ _ => Ret t) post_rotate_callback (fun t _ => Ret t) post_insert_callback
    (fun t _ => Ret t) (fun t _ _ => Ret t) replace_node_callback.

Definition create_intvl_tree : rb_tree_t := create_rb_tree.

(** ** Operations *)

(** The first node on the way down whose interval meets [i]. *)
Fixpoint overlap_loop (fuel : nat) (t : rb_tree_t) (x : nat) (i : interval_t) : outcome nat :=
  match fuel with
  | O => NoFuel
  | S f =>
      if (x =? nil t)%nat then Ret x
      else
        j ← get_interval t x;
        if overlaps i j then Ret x
        else
          n ← rd t x;
          m ← get_max t (left n);
          overlap_loop f t (if negb (left n =? nil t)%nat && (start i <? m) then left n else right n) i
  end.

Definition intvl_tree_find (t : rb_tree_t) (i : interval_t) : outcome Z :=
  x ← overlap_loop (walk_fuel t) t (root t) i;
  n ← rd t x;
  Ret (data n).

Definition intvl_tree_get_point (t : rb_tree_t) (point : Z) : outcome Z :=
  x ← overlap_loop (walk_fuel t) t (root t) (mk_intvl point (u64 (point + 1)));
  if (x =? nil t)%nat then Ret 0 else o ← obj_of t x; Ret (idata o).

Definition check_gap (gap_start gap_end size a : Z) : bool :=
  let aligned_start := align gap_start a in
  (aligned_start <? gap_end) && (size <=? u64 (gap_end - aligned_start)).

Definition make_aligned_interval (st size a : Z) : interval_t :=
  let aligned_start := align st a in mk_intvl aligned_start (u64 (aligned_start + size)).

(** The first node whose interval starts at or after [s]. *)
Fixpoint closest_greater (fuel : nat) (t : rb_tree_t) (current closest : nat) (s : Z) : outcome nat :=
  match fuel with
  | O => NoFuel
  | S f =>
      if (current =? nil t)%nat then Ret closest
      else
        n ← rd t current;
        o ← deref t (data n);
        if s <=? start (interval o) then closest_greater f t (left n) current s
        else closest_greater f t (right n) closest s
  end.

(** The gap between [prv] and [current]: the range in it and the record of
    [prv], NULL when there is none. *)
Definition gap_before (t : rb_tree_t) (prv current : nat) (current_start size a : Z)
  : outcome (option (interval_t * Z)) :=
  curr_data ← obj_of t current;
  if (prv =? nil t)%nat then
    if check_gap current_start (start (interval curr_data)) size a
    then Ret (Some (make_aligned_interval current_start size a, 0)) else Ret None
  else
    n ← rd t prv;
    prev_data ← deref t (data n);
    let gap_start := Z.max current_start (end_ (interval prev_data)) in
    if check_gap gap_start (start (interval curr_data)) size a
    then Ret (Some (make_aligned_interval gap_start size a, data n)) else Ret None.

(** The walk along the thread, and the space after the last interval. *)
Fixpoint gap_walk (fuel : nat) (t : rb_tree_t) (current prv : nat) (current_start size a : Z)
  : outcome (interval_t * Z) :=
  match fuel with
  | O => NoFuel
  | S f =>
      if (current =? nil t)%nat then
        if (prv =? nil t)%nat then Ret (make_aligned_interval current_start size a, 0)
        else
          n ← rd t prv;
          prev_data ← deref t (data n);
          Ret (make_aligned_interval (Z.max current_start (end_ (interval prev_data))) size a, data n)
      else
        r ← gap_before t prv current current_start size a;
        match r with
        | Some g => Ret g
        | None =>
            n ← rd t current;
            curr_data ← deref t (data n);
            gap_walk f t (next n) current (Z.max current_start (end_ (interval curr_data))) size a
        end
  end.

Definition intvl_tree_find_free_gap (t : rb_tree_t) (i : interval_t) (a : Z) : outcome (interval_t * Z) :=
  let size := u64 (end_ i - start i) in
  let a := if a =? 0 then 1 else a in
  if (root t =? nil t)%nat then Ret (i, 0)
  else
    greater ← closest_greater (walk_fuel t) t (root t) (nil t) (start i);
    lesser ← (if (greater =? nil t)%nat then Ret (max t) else n ← rd t greater; Ret (prev n));
    r ← (if (greater =? nil t)%nat then Ret None else gap_before t lesser greater (start i) size a);
    match r with
    | Some g => Ret g
    | None => gap_walk (walk_fuel t) t greater lesser (start i) size a
    end.

(** [p] is the block kmalloc returned and [o] what it held before. *)
Definition intvl_tree_insert (t : rb_tree_t) (p : Z) (o : intvl_node_t) (i : interval_t) (d : Z)
  : outcome rb_tree_t :=
  rb_tree_insert intvl_events (put_obj t p (mk_intvl_node (node o) i (imax o) (imin o) d)) (start i) p.

Definition intvl_tree_delete (t : rb_tree_t) (i : interval_t) : outcome rb_tree_t :=
  '(_, t) ← rb_tree_delete intvl_events t (start i); Ret t.

Definition intvl_tree_update_interval (t : rb_tree_t) (p : Z) (ds de : Z) : outcome rb_tree_t :=
  o ← deref t p;
  let i := mk_intvl (u64 (start (interval o) + ds)) (u64 (end_ (interval o) + de)) in
  let t := put_obj t p (mk_intvl_node (node o) i (Z.max (imax o) (end_ i)) (Z.min (imin o) (start i)) (idata o)) in
  recalculate_min_max (S (walk_fuel t)) t (node o).

(** ** The intervals of a tree *)

(** What a record says besides the bounds. *)
Definition view (o : intvl_node_t) : interval_t * Z := (interval o, idata o).
Definition views (t : rb_tree_t) : gmap Z (interval_t * Z) := view <$> objs t.

Definition data_at (t : rb_tree_t) (x : nat) : Z := default 0 (data <$> store_of t !! x).
Definition ival (t : rb_tree_t) (x : nat) : interval_t := default NULL_SET (fst <$> views t !! data_at t x).
Definition imax_at (t : rb_tree_t) (x : nat) : Z := default 0 (imax <$> objs t !! data_at t x).

(** The nodes [L] have records of their own, and their intervals follow each
    other without overlap. *)
Record listed (t : rb_tree_t) (L : list nat) : Prop := mk_listed {
  ls_nil : exists nn, store_of t !! nil t = Some nn /\ data nn = 0;
  ls_node : forall x, x ∈ L -> exists n i d, store_of t !! x = Some n /\ data n <> 0 /\
    views t !! data n = Some (i, d) /\ key n = start i /\ proper i /\ end_ i <= UINT64_MAX;
  ls_data : NoDup (data_at t <$> L);
  ls_order : StronglySorted (fun x y => end_ (ival t x) <= start (ival t y)) L;
}.

(** The stored maxima of the subtrees lie between the ends below and the start
    [hi] above; a subtree with the node [ex] is exempt. *)
Definition exempt (ex : option nat) (L : list nat) : Prop :=
  match ex with Some z => z ∈ L | None => False end.

#[local] Instance exempt_dec ex L : Decision (exempt ex L).
Proof. destruct ex; simpl; apply _. Defined.

Fixpoint bounds (ex : option nat) (t : rb_tree_t) (sh : tr) (hi : Z) : Prop :=
  match sh with
  | E => True
  | T l x r =>
      (exempt ex (inorder sh) \/ (forall u, u ∈ inorder sh -> end_ (ival t u) <= imax_at t x) /\ imax_at t x <= hi) /\
      bounds ex t l (start (ival t x)) /\ bounds ex t r hi
  end.

(** The start above the hole of a context. *)
Fixpoint above (t : rb_tree_t) (ctx : list frame) (hi : Z) : Z :=
  match ctx with
  | [] => hi
  | LeftOf x _ :: _ => start (ival t x)
  | RightOf _ _ :: ctx' => above t ctx' hi
  end.

(** The subtrees at the side of a context. *)
Fixpoint sides (ex : option nat) (t : rb_tree_t) (ctx : list frame) (hi : Z) : Prop :=
  match ctx with
  | [] => True
  | LeftOf x r :: ctx' => bounds ex t r (above t ctx' hi) /\ sides ex t ctx' hi
  | RightOf l x :: ctx' => bounds ex t l (start (ival t x)) /\ sides ex t ctx' hi
  end.

(** The nodes of a context, with the nodes [L] in its hole. *)
Fixpoint spine (ex : option nat) (t : rb_tree_t) (ctx : list frame) (L : list nat) (hi : Z) : Prop :=
  match ctx with
  | [] => True
  | LeftOf x r :: ctx' =>
      let L' := L ++ x :: inorder r in
      (exempt ex L' \/ (forall u, u ∈ L' -> end_ (ival t u) <= imax_at t x) /\ imax_at t x <= above t ctx' hi) /\
      spine ex t ctx' L' hi
  | RightOf l x :: ctx' =>
      let L' := inorder l ++ x :: L in
      (exempt ex L' \/ (forall u, u ∈ L' -> end_ (ival t u) <= imax_at t x) /\ imax_at t x <= above t ctx' hi) /\
      spine ex t ctx' L' hi
  end.

Lemma bounds_plug ex t ctx hi : forall sh,
  bounds ex t (plug ctx sh) hi <->
  bounds ex t sh (above t ctx hi) /\ sides ex t ctx hi /\ spine ex t ctx (inorder sh) hi.
Proof.
  induction ctx as [|[x r|l x] ctx IH]; intros sh; simpl; [tauto|..]; rewrite IH; simpl; tauto.
Qed.

(** Only the records of the nodes matter. *)
Definition same_objs (t t' : rb_tree_t) (L : list nat) : Prop :=
  forall x, x ∈ L -> ival t' x = ival t x /\ imax_at t' x = imax_at t x.

Lemma bounds_same ex t t' sh : forall hi, same_objs t t' (inorder sh) -> bounds ex t sh hi -> bounds ex t' sh hi.
Proof.
  induction sh as [|l IHl x r IHr]; intros hi H; simpl; [done|]. simpl in H.
  destruct (H x) as [Ex Em]; [set_solver|]. rewrite Ex, Em. intros (Hx & Hl & Hr). split; [|split].
  - destruct Hx as [Hx|[Hx Hhi]]; [by left|right]. split; [|done]. intros u Hu. rewrite (proj1 (H u Hu)). by apply Hx.
  - apply IHl; [|done]. intros y Hy. apply H. set_solver.
  - apply IHr; [|done]. intros y Hy. apply H. set_solver.
Qed.

Lemma above_same t t' ctx hi : same_objs t t' (ctx_ids ctx) -> above t' ctx hi = above t ctx hi.
Proof.
  unfold ctx_ids. induction ctx as [|[x r|l x] ctx IH]; intros H; simpl in *; [done|..].
  - by rewrite (proj1 (H x ltac:(set_solver))).
  - apply IH. intros y Hy. apply H. set_solver.
Qed.

Lemma sides_same ex t t' ctx hi : same_objs t t' (ctx_ids ctx) -> sides ex t ctx hi -> sides ex t' ctx hi.
Proof.
  unfold ctx_ids. induction ctx as [|[x r|l x] ctx IH]; intros H; simpl in *; [done|..]; intros [Hb Hs];
    (split; [|apply IH; [|done]; intros y Hy; apply H; set_solver]).
  - rewrite (above_same t t') by (intros y Hy; apply H; unfold ctx_ids in Hy; set_solver).
    apply (bounds_same _ t); [|done]. intros y Hy. apply H. set_solver.
  - rewrite (proj1 (H x ltac:(set_solver))). apply (bounds_same _ t); [|done]. intros y Hy. apply H. set_solver.
Qed.

Lemma spine_sub t ctx hi : forall L L',
  (forall u, u ∈ L' -> u ∈ L) -> spine None t ctx L hi -> spine None t ctx L' hi.
Proof.
  induction ctx as [|[x r|l x] ctx IH]; intros L L' HL; simpl; [done|..]; intros [Hx Hs];
    (split; [|eapply IH; [|done]; set_solver]); (destruct Hx as [[]|[Hx Hhi]]); right;
    (split; [|done]); intros u Hu; apply Hx; set_solver.
Qed.

Lemma bounds_mono t sh : forall hi hi', hi <= hi' -> bounds None t sh hi -> bounds None t sh hi'.
Proof.
  induction sh as [|l _ x r IHr]; intros hi hi' Hle; simpl; [done|]. intros (Hx & Hl & Hr).
  split; [|split; [done|by apply (IHr hi)]]. destruct Hx as [[]|[Hx Hhi]]. right. split; [done|lia].
Qed.

(** ** Writing records *)

Lemma listed_at t L x :
  listed t L -> x ∈ L -> exists n o, store_of t !! x = Some n /\ objs t !! data n = Some o /\ data n <> 0 /\
    data_at t x = data n /\ ival t x = interval o /\ imax_at t x = imax o /\ key n = start (interval o) /\
    proper (interval o) /\ end_ (interval o) <= UINT64_MAX.
Proof.
  intros Hl Hx. destruct (ls_node _ _ Hl x Hx) as (n & i & d & Hn & Hd & Hv & Hk & Hp & He).
  pose proof Hv as Hv'. unfold views in Hv. rewrite lookup_fmap in Hv. destruct (objs t !! data n) as [o|] eqn:Ho; [|done].
  injection Hv as Ei Ed. exists n, o. unfold data_at, ival, imax_at, data_at. rewrite Hn. simpl. rewrite Hv', Ho. simpl.
  subst i. by split_and!.
Qed.

Lemma deref_data t p o : objs t !! p = Some o -> deref t p = Ret o.
Proof. unfold deref. by intros ->. Qed.

Lemma views_put t p o o' : objs t !! p = Some o -> view o' = view o -> views (put_obj t p o') = views t.
Proof.
  intros Ho Hv. unfold views, put_obj. simpl. rewrite fmap_insert, Hv. apply insert_id. by rewrite lookup_fmap, Ho.
Qed.

Lemma owners_put t p o o' :
  objs t !! p = Some o -> node o' = node o -> node <$> objs (put_obj t p o') = node <$> objs t.
Proof.
  intros Ho Hv. unfold put_obj. simpl. rewrite fmap_insert, Hv. apply insert_id. by rewrite lookup_fmap, Ho.
Qed.

Lemma strongly_sorted_impl {A} (R S : A -> A -> Prop) l :
  (forall x y, x ∈ l -> y ∈ l -> R x y -> S x y) -> StronglySorted R l -> StronglySorted S l.
Proof.
  induction l as [|x l IH]; intros H; [constructor|]. intros [Hx Hs]%StronglySorted_cons.
  apply StronglySorted_cons. split; [|apply IH; [|done]; set_solver].
  rewrite Forall_forall in Hx |- *. intros y Hy. apply H; [set_solver..|by apply Hx].
Qed.

(** The node each record names. *)
Definition owners (t : rb_tree_t) : gmap Z nat := node <$> objs t.

(** Records change, but not what they say nor the nodes they name. *)
Definition revised (t t' : rb_tree_t) : Prop :=
  exists o, t' = with_objs t o /\ views t' = views t /\ owners t' = owners t.

Lemma revised_refl t : revised t t.
Proof. exists (objs t). split; [by destruct t|done]. Qed.

Lemma revised_trans a b c : revised a b -> revised b c -> revised a c.
Proof. intros (o & -> & H1 & O1) (o' & -> & H2 & O2). exists o'. split; [done|]. split; congruence. Qed.

Lemma views_ival t o x : views (with_objs t o) = views t -> ival (with_objs t o) x = ival t x.
Proof. intros H. unfold ival. by rewrite H. Qed.

Lemma views_listed t o L : views (with_objs t o) = views t -> listed t L -> listed (with_objs t o) L.
Proof.
  intros Hv [H1 H2 H3 H4]. split; try done.
  - intros x Hx. destruct (H2 x Hx) as (n & i & d & ?). exists n, i, d. by rewrite Hv.
  - eapply strongly_sorted_impl; [|exact H4]. intros x y _ _. simpl. by rewrite !views_ival.
Qed.

Lemma revised_ival t t' x : revised t t' -> ival t' x = ival t x.
Proof. intros (o & -> & H & _). by apply views_ival. Qed.

Lemma revised_listed t t' L : revised t t' -> listed t L -> listed t' L.
Proof. intros (o & -> & H & _). by apply views_listed. Qed.

(** Two nodes have two records. *)
Lemma listed_apart t L x y : listed t L -> x ∈ L -> y ∈ L -> x <> y -> data_at t x <> data_at t y.
Proof.
  intros Hl Hx Hy Hne E. pose proof (ls_data _ _ Hl) as Hnd. apply list_elem_of_lookup in Hx as [i Hi], Hy as [j Hj].
  assert (i = j); [|congruence]. eapply NoDup_lookup; [exact Hnd|..]; rewrite list_lookup_fmap; [by rewrite Hi|].
  rewrite Hj. simpl. by rewrite E.
Qed.

(** A write to the record of [x]. *)
Lemma put_at t L x n o o' :
  listed t L -> x ∈ L -> store_of t !! x = Some n -> objs t !! data n = Some o ->
  (view o' = view o -> node o' = node o -> revised t (put_obj t (data n) o')) /\ objs (put_obj t (data n) o') !! data n = Some o' /\
  imax_at (put_obj t (data n) o') x = imax o' /\
  forall y, y ∈ L -> y <> x -> imax_at (put_obj t (data n) o') y = imax_at t y.
Proof.
  intros Hl Hx Hn Ho. assert (Ed : data_at t x = data n) by (unfold data_at; by rewrite Hn).
  split; [intros Hv Hw; eexists; split; [reflexivity|split; [by eapply views_put|by eapply owners_put]]|].
  split; [simpl; by rewrite lookup_insert_eq|]. split.
  - unfold imax_at. change (data_at (put_obj t (data n) o') x) with (data_at t x). rewrite Ed. simpl. by rewrite lookup_insert_eq.
  - intros y Hy Hne. unfold imax_at. change (data_at (put_obj t (data n) o') y) with (data_at t y). simpl.
    rewrite lookup_insert_ne; [done|]. rewrite <- Ed. by apply (listed_apart t L x y); [..|by intros ->].
Qed.

(** The maximum stored for a subtree. *)
Definition top_max (t : rb_tree_t) (sh : tr) : Z := match sh with E => 0 | T _ x _ => imax_at t x end.

Lemma get_max_top t L p h sh :
  listed t L -> repr (store_of t) (nil t) p h sh -> (forall x, x ∈ inorder sh -> x ∈ L) ->
  get_max t h = Ret (top_max t sh) /\ exists v, get_min t h = Ret v.
Proof.
  intros Hl Hr HL. unfold get_max, get_min. destruct sh as [|l x r].
  - simpl in Hr. subst h. rewrite Nat.eqb_refl. split; [done|by eexists].
  - destruct Hr as (-> & Hx & _). rewrite (proj2 (Nat.eqb_neq _ _)) by done.
    destruct (listed_at t L x Hl) as (n & o & Hn & Ho & Hd & _ & _ & Em & _); [apply HL; simpl; set_solver|].
    rewrite (rd_at _ _ _ Hn). simpl. rewrite (proj2 (Z.eqb_neq _ _)) by done. unfold deref. rewrite Ho. simpl.
    split; [by rewrite Em|by eexists].
Qed.

(** ** Recalculation *)

Lemma listed_end t L x : listed t L -> x ∈ L -> proper (ival t x) /\ end_ (ival t x) <= UINT64_MAX.
Proof. intros Hl Hx. destruct (listed_at t L x Hl Hx) as (n & o & _ & _ & _ & _ & -> & _ & _ & Hp & He). done. Qed.

(** Every end in the hole of a context is at most the start above it. *)
Lemma listed_above t ctx L u :
  listed t (ctx_before ctx ++ L ++ ctx_after ctx) -> u ∈ L -> end_ (ival t u) <= above t ctx UINT64_MAX.
Proof.
  intros Hl Hu. destruct (listed_end t _ u Hl) as [_ He]; [set_solver|].
  pose proof (ls_order _ _ Hl) as Ho. apply StronglySorted_app in Ho as (_ & _ & Ho).
  apply StronglySorted_app in Ho as (Ho & _ & _). clear Hl.
  induction ctx as [|[x r|l x] ctx IH]; simpl in *; [done|..].
  - apply Ho; [done|set_solver].
  - by apply IH.
Qed.

Lemma recalc_one t ctx l x r f :
  shaped t (plug ctx (T l x r)) -> listed t (inorder (plug ctx (T l x r))) ->
  exists t', recalculate_min_max (S f) t x = recalculate_min_max f t' (ctx_top (nil t) ctx) /\ revised t t' /\
    imax_at t' x = Z.max (end_ (ival t x)) (Z.max (top_max t l) (top_max t r)) /\
    forall y, y ∈ inorder (plug ctx (T l x r)) -> y <> x -> imax_at t' y = imax_at t y.
Proof.
  intros [Hr Hnd] Hl. set (L := inorder (plug ctx (T l x r))) in *.
  assert (HL : forall y, y ∈ inorder (T l x r) -> y ∈ L) by (intros y Hy; unfold L; rewrite inorder_plug; set_solver).
  apply repr_plug in Hr as (h & p & Hc & HT). destruct HT as (-> & Hx & n & Hn & <- & Hle & Hre).
  pose proof (crepr_top _ _ _ _ _ _ Hc) as Ep. assert (HxL : x ∈ L) by (apply HL; simpl; set_solver).
  destruct (listed_at t L x Hl HxL) as (n' & o & Hn' & Ho & Hd & Ed & Ei & Em & _). assert (n' = n) as -> by congruence.
  destruct (get_max_top t L x (left n) l Hl Hle) as [Gl _]; [intros y Hy; apply HL; simpl; set_solver|].
  destruct (get_max_top t L x (right n) r Hl Hre) as [Gr _]; [intros y Hy; apply HL; simpl; set_solver|].
  cbn [recalculate_min_max]. rewrite (proj2 (Nat.eqb_neq _ _)) by done. rewrite (rd_at _ _ _ Hn). simpl.
  rewrite (deref_data _ _ _ Ho). simpl. rewrite Gl. simpl. rewrite Gr. simpl.
  set (m := Z.max (end_ (interval o)) (Z.max (top_max t l) (top_max t r))).
  destruct (put_at t L x n o (set_max m o) Hl HxL Hn Ho) as (R1 & Ho1 & M1 & K1).
  specialize (R1 eq_refl eq_refl). set (t1 := put_obj t (data n) (set_max m o)) in *. pose proof (revised_listed _ _ _ R1 Hl) as Hl1.
  destruct (get_max_top t1 L x (left n) l Hl1 Hle) as [_ [vl Gl1]]; [intros y Hy; apply HL; simpl; set_solver|].
  destruct (get_max_top t1 L x (right n) r Hl1 Hre) as [_ [vr Gr1]]; [intros y Hy; apply HL; simpl; set_solver|].
  rewrite (deref_data t1 _ _ Ho1). simpl. rewrite Gl1. simpl. rewrite Gr1. simpl.
  set (v := Z.min (start (interval o)) (Z.min vl vr)).
  destruct (put_at t1 L x n (set_max m o) (set_min v (set_max m o)) Hl1 HxL Hn Ho1) as (R2 & Ho2 & M2 & K2).
  specialize (R2 eq_refl eq_refl).
  eexists. split; [by rewrite Ep|]. split; [by eapply revised_trans|]. split; [by rewrite M2, Ei|].
  intros y Hy Hne. by rewrite K2, K1.
Qed.

Lemma same_objs_revised t t' x L :
  revised t t' -> (forall y, y ∈ L -> y <> x -> imax_at t' y = imax_at t y) -> x ∉ L -> same_objs t t' L.
Proof.
  intros Hr H Hx y Hy. split; [by apply revised_ival|]. apply H; [done|]. by intros ->.
Qed.

(** A node whose maximum is set from its subtrees. *)
Lemma bounds_node ex t t' ctx l x r :
  listed t (inorder (plug ctx (T l x r))) -> NoDup (inorder (plug ctx (T l x r))) -> revised t t' ->
  imax_at t' x = Z.max (end_ (ival t x)) (Z.max (top_max t l) (top_max t r)) ->
  (forall y, y ∈ inorder (plug ctx (T l x r)) -> y <> x -> imax_at t' y = imax_at t y) ->
  bounds ex t l (start (ival t x)) -> bounds ex t r (above t ctx UINT64_MAX) ->
  bounds ex t' (T l x r) (above t ctx UINT64_MAX).
Proof.
  intros Hl Hnd Hr Hm Ho Bl Br. rewrite plug_perm in Hnd. apply NoDup_app in Hnd as (_ & _ & Hnd). simpl in Hnd.
  apply NoDup_app in Hnd as (_ & Dl & Hnd). apply NoDup_cons in Hnd as [Dr _].
  assert (Hs : forall L, (forall y, y ∈ L -> y ∈ inorder (T l x r)) -> x ∉ L -> same_objs t t' L).
  { intros L HL Hx. apply (same_objs_revised t t' x); [done| |done]. intros y Hy. apply Ho. rewrite inorder_plug.
    specialize (HL y Hy). clear - HL. set_solver. }
  assert (Hab : forall u, u ∈ inorder (T l x r) -> end_ (ival t u) <= above t ctx UINT64_MAX).
  { intros u Hu. apply (listed_above t ctx (inorder (T l x r))); [by rewrite <- inorder_plug|done]. }
  destruct (listed_end t _ x Hl) as [[Hx0 Hx] _]; [rewrite inorder_plug; simpl; clear; set_solver|].
  cbn [bounds]. split; [|split].
  - destruct (decide (exempt ex (inorder (T l x r)))) as [Hex|Hex]; [by left|right].
    assert (Hl' : top_max t l <= start (ival t x) /\ forall u, u ∈ inorder l -> end_ (ival t u) <= top_max t l).
    { destruct l as [|a v b]; [split; [simpl; lia|set_solver]|]. destruct Bl as ([He|[He Hv]] & _); [|by split].
      destruct Hex. destruct ex as [z|]; [|done]. simpl in *. clear - He. set_solver. }
    assert (Hr' : top_max t r <= above t ctx UINT64_MAX /\ forall u, u ∈ inorder r -> end_ (ival t u) <= top_max t r).
    { pose proof (Hab x ltac:(simpl; clear; set_solver)).
      destruct r as [|a v b]; [split; [simpl; lia|set_solver]|]. destruct Br as ([He|[He Hv]] & _); [|by split].
      destruct Hex. destruct ex as [z|]; [|done]. simpl in *. clear - He. set_solver. }
    rewrite Hm. split; [|specialize (Hab x ltac:(simpl; clear; set_solver)); lia].
    intros u Hu. rewrite (revised_ival t t' u Hr). simpl in Hu. apply elem_of_app in Hu as [Hu|Hu].
    + apply Hl' in Hu. lia.
    + apply elem_of_cons in Hu as [->|Hu]; [lia|]. apply Hr' in Hu. lia.
  - rewrite (revised_ival t t' x Hr). apply (bounds_same _ t); [|done]. apply Hs; [clear; set_solver|].
    intros Hx'. apply (Dl x Hx'). clear. set_solver.
  - apply (bounds_same _ t); [|done]. apply Hs; [clear; set_solver|done].
Qed.

Lemma revised_shaped t t' sh : revised t t' -> shaped t sh -> shaped t' sh.
Proof. by intros (o & -> & _). Qed.

Lemma recalc_ok ex : forall ctx t l x r fuel,
  shaped t (plug ctx (T l x r)) -> listed t (inorder (plug ctx (T l x r))) ->
  bounds ex t l (start (ival t x)) -> bounds ex t r (above t ctx UINT64_MAX) -> sides ex t ctx UINT64_MAX ->
  (S (length ctx) < fuel)%nat ->
  exists t', recalculate_min_max fuel t x = Ret t' /\ revised t t' /\ bounds ex t' (plug ctx (T l x r)) UINT64_MAX.
Proof.
  induction ctx as [|f ctx IH]; intros t l x r fuel Hs Hl Bl Br Bs Hf; (destruct fuel as [|fuel]; [lia|]).
  - destruct (recalc_one t [] l x r fuel Hs Hl) as (t1 & -> & R1 & M1 & K1). exists t1.
    split; [|split; [done|exact (bounds_node ex t t1 [] l x r Hl (proj2 Hs) R1 M1 K1 Bl Br)]]. destruct fuel as [|fuel]; [simpl in Hf; lia|].
    destruct R1 as (o & -> & _). simpl. by rewrite Nat.eqb_refl.
  - destruct (recalc_one t (f :: ctx) l x r fuel Hs Hl) as (t1 & -> & R1 & M1 & K1).
    pose proof (bounds_node ex t t1 (f :: ctx) l x r Hl (proj2 Hs) R1 M1 K1 Bl Br) as Bx.
    pose proof (revised_listed _ _ _ R1 Hl) as Hl1. pose proof (revised_shaped _ _ _ R1 Hs) as Hs1.
    assert (Hx : x ∉ ctx_ids (f :: ctx)).
    { pose proof (proj2 Hs) as Hnd. rewrite plug_perm in Hnd. apply NoDup_app in Hnd as (_ & D & _).
      intros Hx. apply (D x Hx). simpl. clear. set_solver. }
    assert (Ho : same_objs t t1 (ctx_ids (f :: ctx))).
    { apply (same_objs_revised t t1 x); [done| |done]. intros y Hy. apply K1. rewrite plug_perm. clear - Hy. set_solver. }
    pose proof (sides_same ex t t1 (f :: ctx) _ Ho Bs) as Bs1. rewrite <- (above_same t t1 (f :: ctx) _ Ho) in Bx.
    simpl in Hf. destruct f as [p s|s p]; simpl in Hs1, Hl1, Bs1, Bx |- *; destruct Bs1 as [B1 B2].
    + destruct (IH t1 (T l x r) p s fuel Hs1 Hl1 Bx B1 B2) as (t' & Hrun & R2 & B'); [lia|].
      exists t'. split; [done|]. split; [by eapply revised_trans|done].
    + destruct (IH t1 s p (T l x r) fuel Hs1 Hl1 B1 Bx B2) as (t' & Hrun & R2 & B'); [lia|].
      exists t'. split; [done|]. split; [by eapply revised_trans|done].
Qed.

Lemma ctx_fuel t ctx l x r : shaped t (plug ctx (T l x r)) -> (length ctx < size (store_of t))%nat.
Proof.
  intros Hs. pose proof (shaped_length _ _ Hs) as Hlen. rewrite plug_perm, length_app in Hlen.
  pose proof (ctx_length ctx). simpl in Hlen. rewrite length_app in Hlen. simpl in Hlen. lia.
Qed.

(** ** The contract of the callbacks *)

(** Each record names its node, but for the node [ex]. *)
Definition owned (ex : option nat) (t : rb_tree_t) (L : list nat) : Prop :=
  forall x, x ∈ L -> ex = Some x \/ owners t !! data_at t x = Some x.

Lemma owned_sub ex t L L' : (forall x, x ∈ L' -> x ∈ L) -> owned ex t L -> owned ex t L'.
Proof. intros H Ho x Hx. by apply Ho, H. Qed.

Lemma owned_revised ex t t' L : revised t t' -> owned ex t L -> owned ex t' L.
Proof. intros (o & -> & _ & Hw) Ho x Hx. rewrite Hw. by apply Ho. Qed.

(** The records of a tree of shape [sh]: what they say is [A]. *)
Definition tracked (A : gmap Z (interval_t * Z)) (ex : option nat) (t : rb_tree_t) (sh : tr) : Prop :=
  listed t (inorder sh) /\ bounds ex t sh UINT64_MAX /\ views t = A /\ owned ex t (inorder sh).

Lemma records_same t t' L x :
  same_records L t t' -> x ∈ L -> data_at t' x = data_at t x /\ ival t' x = ival t x /\ imax_at t' x = imax_at t x.
Proof.
  intros (Eo & En & H) Hx. specialize (H x ltac:(set_solver)). unfold ival, imax_at, views. rewrite Eo.
  assert (E : data_at t' x = data_at t x); [|by rewrite E]. unfold data_at, entry in *.
  destruct (store_of t' !! x), (store_of t !! x); simpl in *; congruence.
Qed.

Lemma records_listed t t' L : same_records L t t' -> listed t L -> listed t' L.
Proof.
  intros Hs [H1 H2 H3 H4]. pose proof Hs as (Eo & En & H).
  assert (He : forall x n, x ∈ nil t :: L -> store_of t !! x = Some n ->
    exists n', store_of t' !! x = Some n' /\ key n' = key n /\ data n' = data n).
  { intros x n Hx Hn. specialize (H x Hx). rewrite Hn in H. unfold entry in H.
    destruct (store_of t' !! x) as [n'|]; [|done]. exists n'. simpl in H. injection H as ? ?. done. }
  split.
  - destruct H1 as (nn & Hnn & Hd). destruct (He (nil t) nn ltac:(set_solver) Hnn) as (n' & Hn' & _ & Ed).
    exists n'. rewrite En. split; [done|congruence].
  - intros x Hx. destruct (H2 x Hx) as (n & i & d & Hn & Hd & Hv & Hk & Hp).
    destruct (He x n ltac:(set_solver) Hn) as (n' & Hn' & Ek & Ed). exists n', i, d. unfold views. rewrite Eo, Ed, Ek.
    fold (views t). do 3 (split; [done|]). done.
  - replace (data_at t' <$> L) with (data_at t <$> L); [done|]. apply list_fmap_ext.
    intros j x Hx%list_elem_of_lookup_2. symmetry. by apply (records_same t t' L).
  - eapply strongly_sorted_impl; [|exact H4]. intros x y Hx Hy. simpl.
    by rewrite (proj1 (proj2 (records_same t t' L x Hs Hx))), (proj1 (proj2 (records_same t t' L y Hs Hy))).
Qed.

Lemma tracked_stable A ex t t' sh : same_records (inorder sh) t t' -> tracked A ex t sh -> tracked A ex t' sh.
Proof.
  intros Hs (Hl & Hb & Hv & Hw). split; [by apply (records_listed t)|]. split; [|split; [unfold views; by rewrite (proj1 Hs)|]].
  - apply (bounds_same _ t); [|done]. intros x Hx. destruct (records_same t t' _ x Hs Hx) as (_ & ? & ?). done.
  - intros x Hx. unfold owners. rewrite (proj1 Hs), (proj1 (records_same t t' _ x Hs Hx)). by apply Hw.
Qed.

(** Both bounds of [v]'s record are taken from [u]'s. *)
Lemma copy_bounds {B} t L u v nu nv ud vd (k : rb_tree_t -> outcome B) :
  listed t L -> u ∈ L -> v ∈ L -> u <> v -> store_of t !! u = Some nu -> store_of t !! v = Some nv ->
  objs t !! data nu = Some ud -> objs t !! data nv = Some vd ->
  exists t', (let t := put_obj t (data nv) (set_max (imax ud) vd) in
              ud ← deref t (data nu); vd ← deref t (data nv);
              k (put_obj t (data nv) (set_min (imin ud) vd))) = k t' /\
    revised t t' /\ imax_at t' v = imax_at t u /\ forall y, y ∈ L -> y <> v -> imax_at t' y = imax_at t y.
Proof.
  intros Hl Hu Hv Hne Hnu Hnv Hud Hvd. simpl.
  destruct (put_at t L v nv vd (set_max (imax ud) vd) Hl Hv Hnv Hvd) as (R1 & Ho1 & M1 & K1).
  specialize (R1 eq_refl eq_refl).
  set (t1 := put_obj t (data nv) (set_max (imax ud) vd)) in *. pose proof (revised_listed _ _ _ R1 Hl) as Hl1.
  assert (Hud1 : objs t1 !! data nu = Some ud).
  { simpl. rewrite lookup_insert_ne; [done|]. pose proof (listed_apart t L u v Hl Hu Hv Hne) as E.
    unfold data_at in E. rewrite Hnu, Hnv in E. simpl in E. congruence. }
  rewrite (deref_data _ _ _ Hud1). simpl. rewrite (deref_data _ _ _ Ho1). simpl.
  destruct (put_at t1 L v nv (set_max (imax ud) vd) (set_min (imin ud) (set_max (imax ud) vd)) Hl1 Hv Hnv Ho1)
    as (R2 & Ho2 & M2 & K2). specialize (R2 eq_refl eq_refl).
  eexists. split; [done|]. split; [by eapply revised_trans|]. split.
  - rewrite M2. simpl. unfold imax_at, data_at. rewrite Hnu. simpl. by rewrite Hud.
  - intros y Hy Hyv. by rewrite K2, K1.
Qed.

Lemma post_rotate_ok ex t f y s ctx l x r :
  f = LeftOf y s \/ f = RightOf s y -> shaped t (plug (f :: ctx) (T l x r)) ->
  listed t (inorder (plug (f :: ctx) (T l x r))) -> bounds ex t l (start (ival t x)) ->
  bounds ex t r (above t (f :: ctx) UINT64_MAX) -> sides ex t (f :: ctx) UINT64_MAX ->
  exists t', post_rotate_callback t x y = Ret t' /\ revised t t' /\
    bounds ex t' (plug (f :: ctx) (T l x r)) UINT64_MAX.
Proof.
  intros Hf Hs Hl Bl Br Bs. set (L := inorder (plug (f :: ctx) (T l x r))) in *.
  assert (Hnd : NoDup (y :: inorder s ++ ctx_ids ctx ++ inorder l ++ x :: inorder r)).
  { eapply NoDup_Permutation_proper; [|exact (proj2 Hs)]. rewrite plug_perm. unfold ctx_ids.
    destruct Hf as [-> | ->]; simpl; perm_count. }
  apply NoDup_cons in Hnd as [Dy _].
  assert (Hin : forall v, v ∈ y :: inorder s ++ ctx_ids ctx ++ inorder l ++ x :: inorder r -> v ∈ L).
  { intros v Hv. unfold L. rewrite plug_perm. unfold ctx_ids in *. destruct Hf as [-> | ->]; simpl; clear - Hv; set_solver. }
  assert (Hxy : x <> y) by (intros ->; apply Dy; clear; set_solver).
  destruct (listed_at t L x Hl) as (nx & xo & Hnx & Hxo & _); [apply Hin; clear; set_solver|].
  destruct (listed_at t L y Hl) as (ny & yo & Hny & Hyo & _); [apply Hin; clear; set_solver|].
  unfold post_rotate_callback. rewrite (rd_at _ _ _ Hnx). simpl. rewrite (rd_at _ _ _ Hny). simpl.
  rewrite (deref_data _ _ _ Hxo). simpl. rewrite (deref_data _ _ _ Hyo). simpl.
  destruct (copy_bounds t L x y nx ny xo yo (fun t => recalculate_min_max (S (walk_fuel t)) t x) Hl) as (t1 & W & R1 & M1 & K1);
    try done; [apply Hin; clear; set_solver..|]. simpl in W. rewrite W.
  assert (Ho : forall M, (forall v, v ∈ M -> v ∈ y :: inorder s ++ ctx_ids ctx ++ inorder l ++ x :: inorder r) -> y ∉ M ->
    same_objs t t1 M).
  { intros M HM HyM. apply (same_objs_revised t t1 y); [done| |done]. intros v Hv. apply K1, Hin. by apply HM. }
  assert (Ei : forall v, ival t1 v = ival t v) by (intros v; by apply revised_ival).
  assert (Ha : above t1 ctx UINT64_MAX = above t ctx UINT64_MAX) by (apply above_same, Ho; [clear; set_solver|out_of Dy]).
  destruct (recalc_ok ex (f :: ctx) t1 l x r (S (walk_fuel t1))) as (t2 & Hrun & R2 & B2).
  - by apply (revised_shaped t).
  - by apply (revised_listed t).
  - rewrite Ei. apply (bounds_same _ t); [apply Ho; [clear; set_solver|out_of Dy]|done].
  - assert (Ea : above t1 (f :: ctx) UINT64_MAX = above t (f :: ctx) UINT64_MAX)
      by (destruct Hf as [-> | ->]; simpl; [by rewrite Ei|done]). rewrite Ea.
    apply (bounds_same _ t); [apply Ho; [clear; set_solver|out_of Dy]|done].
  - assert (Hs' : sides ex t1 ctx UINT64_MAX).
    { apply (sides_same _ t); [apply Ho; [clear; set_solver|out_of Dy]|]. by destruct Hf as [-> | ->], Bs. }
    destruct Hf as [-> | ->]; simpl in *; (split; [|done]); rewrite ?Ha, ?Ei; destruct Bs as [Bs _];
      (apply (bounds_same _ t); [apply Ho; [clear; set_solver|out_of Dy]|done]).
  - pose proof (ctx_fuel t1 (f :: ctx) l x r (revised_shaped _ _ _ R1 Hs)) as H. unfold walk_fuel. lia.
  - exists t2. split; [done|]. split; [by eapply revised_trans|done].
Qed.

Lemma recalc_quiet : forall fuel t x t', recalculate_min_max fuel t x = Ret t' -> exists o, t' = with_objs t o.
Proof.
  induction fuel as [|fuel IH]; intros t x t'; [done|]. cbn [recalculate_min_max].
  destruct (x =? nil t)%nat; [intros [= <-]; exists (objs t); by destruct t|].
  destruct (rd t x) as [n| | |]; try done. cbn [mbind outcome_bind].
  intros H. inv_ret. apply IH in H as [o ->]. by exists o.
Qed.

Lemma post_rotate_quiet t x y t' : post_rotate_callback t x y = Ret t' -> exists o, t' = with_objs t o.
Proof.
  unfold post_rotate_callback. intros H. inv_ret. apply recalc_quiet in H as [o ->]. by exists o.
Qed.

(** What the bounds of a shape say of two linked nodes and their subtrees. *)
Lemma bounds_rotated ex t ctx a x b y c :
  bounds ex t (plug ctx (T a x (T b y c))) UINT64_MAX \/ bounds ex t (plug ctx (T (T a x b) y c)) UINT64_MAX ->
  bounds ex t a (start (ival t x)) /\ bounds ex t b (start (ival t y)) /\
  bounds ex t c (above t ctx UINT64_MAX) /\ sides ex t ctx UINT64_MAX.
Proof. rewrite !bounds_plug. simpl. tauto. Qed.

Definition intvl_inv (A : gmap Z (interval_t * Z)) (ex : option nat) : tree_inv intvl_events.
Proof.
  refine (mk_tree_inv intvl_events (tracked A ex) _ _ _ _ _).
  - apply tracked_stable.
  - done.
  - apply post_rotate_quiet.
  - intros t ctx a x b y c Hs (Hl & Hb & Hv & Hw). rewrite inorder_rotate in Hl, Hw.
    destruct (bounds_rotated ex t ctx a x b y c (or_introl Hb)) as (Ba & Bb & Bc & Bs).
    destruct (post_rotate_ok ex t (LeftOf y c) y c ctx a x b) as (t' & Hrun & R & B); try done; [by left|].
    pose proof R as (o & -> & Hv' & _). exists o. split; [done|]. split; [by apply (revised_listed t)|].
    split; [done|]. split; [congruence|by apply (owned_revised ex t)].
  - intros t ctx a x b y c Hs (Hl & Hb & Hv & Hw). rewrite <- inorder_rotate in Hl, Hw.
    destruct (bounds_rotated ex t ctx a x b y c (or_intror Hb)) as (Ba & Bb & Bc & Bs).
    destruct (post_rotate_ok ex t (RightOf a x) x a ctx b y c) as (t' & Hrun & R & B); try done; [by right|].
    pose proof R as (o & -> & Hv' & _). exists o. split; [done|]. split; [by apply (revised_listed t)|].
    split; [done|]. split; [congruence|by apply (owned_revised ex t)].
Defined.

(** *** Insertion *)

(** Subtrees without the exempt node. *)
Lemma bounds_unexempt t z sh : forall hi, z ∉ inorder sh -> bounds (Some z) t sh hi -> bounds None t sh hi.
Proof.
  induction sh as [|l IHl x r IHr]; intros hi Hz; simpl; [done|]. simpl in Hz. intros ([Hx|Hx] & Hl & Hr); [done|].
  split; [by right|]. split; [apply IHl|apply IHr]; (done || set_solver).
Qed.

Lemma bounds_exempt t z sh : forall hi, bounds None t sh hi -> bounds (Some z) t sh hi.
Proof.
  induction sh as [|l IHl x r IHr]; intros hi; simpl; [done|]. intros ([[]|Hx] & Hl & Hr). split; [by right|].
  split; [by apply IHl|by apply IHr].
Qed.

Lemma sides_exempt t z ctx hi : sides None t ctx hi -> sides (Some z) t ctx hi.
Proof.
  induction ctx as [|[x r|l x] ctx IH]; simpl; [done|..]; (intros [Hb Hs]; split; [by apply bounds_exempt|by apply IH]).
Qed.

Lemma sides_unexempt t z ctx hi : z ∉ ctx_ids ctx -> sides (Some z) t ctx hi -> sides None t ctx hi.
Proof.
  unfold ctx_ids. induction ctx as [|[x r|l x] ctx IH]; simpl; [done|..]; intros Hz [Hb Hs];
    (split; [apply (bounds_unexempt t z); [set_solver|done]|apply IH; [set_solver|done]]).
Qed.

Lemma spine_exempt t z ctx hi : forall L, z ∈ L -> spine (Some z) t ctx L hi.
Proof.
  induction ctx as [|[x r|l x] ctx IH]; intros L Hz; simpl; [done|..]; (split; [left; set_solver|apply IH; set_solver]).
Qed.

(** A new node: its record is its own and its interval meets no other. *)
Definition fresh_node (A : gmap Z (interval_t * Z)) (t : rb_tree_t) (L : list nat) (z : nat) : Prop :=
  exists n i d, store_of t !! z = Some n /\ data n <> 0 /\ views t !! data n = Some (i, d) /\ key n = start i /\
    proper i /\ end_ i <= UINT64_MAX /\ views t = A /\
    forall x, x ∈ L -> data_at t x <> data n /\ overlaps (ival t x) i = false.

Lemma key_start t L x : listed t L -> x ∈ L -> key_at t x = start (ival t x).
Proof.
  intros Hl Hx. destruct (listed_at t L x Hl Hx) as (n & o & Hn & _ & _ & _ & -> & _ & Hk & _).
  unfold key_at. by rewrite Hn.
Qed.

Lemma listed_add A t a z b :
  listed t (a ++ b) -> fresh_node A t (a ++ b) z ->
  StronglySorted Z.lt (key_at t <$> a ++ z :: b) -> listed t (a ++ z :: b).
Proof.
  intros Hl (n & i & d & Hn & Hd & Hv & Hk & Hp & He & _ & Hnew) Hs.
  assert (Ez : ival t z = i /\ data_at t z = data n) by (unfold ival, data_at; rewrite Hn; simpl; by rewrite Hv).
  destruct Ez as [Ei Edz]. rewrite fmap_app, fmap_cons in Hs. apply StronglySorted_app in Hs as (Haz & _ & Hs).
  apply StronglySorted_cons in Hs as [Hzb _].
  assert (Hkz : key_at t z = start i) by (unfold key_at; by rewrite Hn).
  assert (Hsep : forall x, x ∈ a ++ b -> start (ival t x) < start i -> end_ (ival t x) <= start i).
  { intros x Hx Hlt. destruct (Hnew x Hx) as [_ Ho]. destruct (listed_end t _ x Hl Hx) as [Hpx _].
    rewrite overlaps_proper in Ho by done. unfold proper in *. zcases. }
  assert (Hsep' : forall x, x ∈ a ++ b -> start i < start (ival t x) -> end_ i <= start (ival t x)).
  { intros x Hx Hlt. destruct (Hnew x Hx) as [_ Ho]. destruct (listed_end t _ x Hl Hx) as [Hpx _].
    rewrite overlaps_proper in Ho by done. unfold proper in *. zcases. }
  pose proof Hl as [H1 H2 H3 H4]. split; [done|..].
  - intros x Hx. destruct (decide (x = z)) as [->|Hxz]; [by exists n, i, d|]. apply H2. set_solver.
  - rewrite fmap_app, fmap_cons, <- Permutation_middle. apply NoDup_cons. rewrite <- fmap_app. split; [|done].
    intros (x & Ex & Hx)%list_elem_of_fmap. apply (Hnew x Hx). congruence.
  - apply StronglySorted_app in H4 as (Hab & Ha & Hb). apply StronglySorted_app. split; [|split; [done|]].
    + intros x y Hx [->|Hy]%elem_of_cons; [|by apply Hab]. rewrite Ei. apply Hsep; [set_solver|].
      rewrite <- (key_start t _ x Hl), <- Hkz by set_solver. apply Haz; [by apply list_elem_of_fmap_2|set_solver].
    + apply StronglySorted_cons. split; [|done]. rewrite Forall_forall. intros y Hy. rewrite Ei.
      apply Hsep'; [set_solver|]. rewrite <- (key_start t _ y Hl), <- Hkz by set_solver.
      rewrite Forall_fmap, Forall_forall in Hzb. by apply Hzb.
Qed.

Lemma post_insert_ok A t sh z :
  shaped t sh -> z ∈ inorder sh -> tracked A (Some z) t sh ->
  exists o, post_insert_callback t z = Ret (with_objs t o) /\ tracked A None (with_objs t o) sh.
Proof.
  intros Hs Hz (Hl & Hb & Hv & Hw). destruct (split_at sh z Hz) as (ctx & l & r & ->).
  pose proof (proj2 Hs) as Hnd. rewrite plug_perm in Hnd. apply NoDup_app in Hnd as (_ & Dc & Hnd). simpl in Hnd.
  apply NoDup_app in Hnd as (_ & Dl & Hnd). apply NoDup_cons in Hnd as [Dr _].
  rewrite bounds_plug in Hb. destruct Hb as ((_ & Bl & Br) & Bs & _).
  apply bounds_unexempt in Bl; [|intros H; apply (Dl z H); set_solver]. apply bounds_unexempt in Br; [|done].
  apply sides_unexempt in Bs; [|intros H; apply (Dc z H); simpl; set_solver].
  destruct (listed_at t _ z Hl Hz) as (n & o & Hn & Ho & _ & Ed & _ & Em & _).
  unfold post_insert_callback. rewrite (rd_at _ _ _ Hn). simpl. rewrite (deref_data _ _ _ Ho). simpl.
  destruct (put_at t _ z n o (set_node z o) Hl Hz Hn Ho) as (_ & Ho1 & M1 & K1).
  assert (V1 : views (put_obj t (data n) (set_node z o)) = views t) by (by apply (views_put t _ o)).
  set (t1 := put_obj t (data n) (set_node z o)) in *.
  assert (Same : forall L, (forall v, v ∈ L -> v ∈ inorder (plug ctx (T l z r))) -> same_objs t t1 L).
  { intros L HL v Hx. split; [by apply views_ival|]. destruct (decide (v = z)) as [->|Hne]; [by rewrite M1, Em|].
    apply K1; [by apply HL|done]. }
  assert (Hin : forall v, v ∈ ctx_ids ctx \/ v ∈ inorder l \/ v ∈ inorder r -> v ∈ inorder (plug ctx (T l z r)))
    by (intros v Hx; rewrite plug_perm; simpl; clear - Hx; set_solver).
  destruct (recalc_ok None ctx t1 l z r (S (walk_fuel t))) as (t2 & Hrun & R2 & B2).
  - done.
  - by apply views_listed.
  - unfold t1, put_obj. rewrite views_ival by done. apply (bounds_same _ t); [apply Same; naive_solver|done].
  - rewrite (above_same t t1) by (apply Same; naive_solver). apply (bounds_same _ t); [apply Same; naive_solver|done].
  - apply (sides_same _ t); [apply Same; naive_solver|done].
  - pose proof (ctx_fuel t ctx l z r Hs). unfold walk_fuel. lia.
  - pose proof R2 as (o' & -> & V2 & W2). assert (Et : with_objs t1 o' = with_objs t o') by done. rewrite Et in *. exists o'.
    split; [done|]. split; [apply (views_listed t o'); [congruence|done]|].
    split; [done|]. split; [congruence|]. intros x Hx. right.
    rewrite W2. change (data_at (with_objs t o') x) with (data_at t x). unfold owners, t1, put_obj. simpl. rewrite fmap_insert.
    destruct (decide (x = z)) as [->|Hne]; [rewrite Ed; apply lookup_insert_eq|].
    rewrite <- Ed, lookup_insert_ne by (by apply not_eq_sym, (listed_apart t _ x z Hl)).
    destruct (Hw x Hx) as [[= <-]|?]; done.
Qed.

#[export] Instance intvl_insert A : insert_inv intvl_events (intvl_inv A None).
Proof.
  refine (mk_insert_inv intvl_events (intvl_inv A None) (fun z => intvl_inv A (Some z)) (fresh_node A) _ _ _); [done|..].
  - intros t ctx z (Hl & Hb & Hv & Hw) Hnew Hs. rewrite inorder_plug in Hl, Hnew, Hw. simpl in Hl, Hnew, Hw.
    split; [rewrite inorder_plug; by apply (listed_add A)|].
    split; [|split; [done|]; intros x; rewrite inorder_plug; simpl; intros Hx; destruct (decide (x = z)) as [->|Hne];
      [by left|right]; destruct (Hw x) as [?|?]; [clear - Hx Hne; set_solver|done|done]].
    rewrite bounds_plug in Hb |- *. destruct Hb as (_ & Hsd & _). split; [|split].
    + split; [left; simpl; set_solver|done].
    + by apply sides_exempt.
    + apply spine_exempt. simpl. set_solver.
  - intros t sh z. apply post_insert_ok.
Defined.

(** *** Deletion *)

Lemma listed_drop t a u b : listed t (a ++ u :: b) -> listed t (a ++ b).
Proof.
  intros [H1 H2 H3 H4]. split; [done|..].
  - intros x Hx. apply H2. set_solver.
  - rewrite fmap_app in H3 |- *. rewrite fmap_cons, <- Permutation_middle in H3. by apply NoDup_cons in H3 as [_ ?].
  - apply StronglySorted_app in H4 as (Ho & Ha & Hb). apply StronglySorted_cons in Hb as [_ Hb].
    apply StronglySorted_app. split; [|done]. intros x y Hx Hy. apply Ho; [done|set_solver].
Qed.

Lemma listed_starts t L x y : listed t L -> (exists a b c, L = a ++ x :: b ++ y :: c) -> start (ival t x) <= start (ival t y).
Proof.
  intros Hl (a & b & c & ->). destruct (listed_end t _ x Hl) as [[_ Hp] _]; [set_solver|].
  pose proof (ls_order _ _ Hl) as H. apply StronglySorted_app in H as (_ & _ & H).
  apply StronglySorted_cons in H as [H _]. rewrite Forall_forall in H. specialize (H y ltac:(set_solver)). simpl in H. lia.
Qed.

Lemma spine_same t t' ctx hi : forall L,
  (forall x, x ∈ ctx_ids ctx ++ L -> ival t' x = ival t x) -> (forall x, x ∈ ctx_ids ctx -> imax_at t' x = imax_at t x) ->
  spine None t ctx L hi -> spine None t' ctx L hi.
Proof.
  unfold ctx_ids. induction ctx as [|[x r|l x] ctx IH]; intros L Hi Hm; simpl in *; [done|..]; intros [Hx Hs];
    (split; [|apply IH; [intros y Hy; apply Hi; clear - Hy; set_solver| |done]; intros y Hy; apply Hm; clear - Hy; set_solver]);
    (destruct Hx as [[]|[Hx Hhi]]); right;
    (rewrite (Hm x) by (clear; set_solver)); (split; [intros u Hu; rewrite Hi by (clear - Hu; set_solver); by apply Hx|]);
    (rewrite (above_same t t'); [done|]);
    (intros y Hy; unfold ctx_ids in Hy; split; [apply Hi; clear - Hy; set_solver|apply Hm; clear - Hy; set_solver]).
Qed.

(** [v] with the bounds of [u], in a place whose contents the latter bound. *)
Lemma replace_ok t L ctx l u v r :
  listed t L -> u ∈ L -> u <> v -> NoDup (inorder (plug ctx (T l v r))) ->
  (forall w, w ∈ inorder (plug ctx (T l v r)) -> w ∈ L) ->
  (forall w, w ∈ inorder (T l v r) -> end_ (ival t w) <= imax_at t u) -> imax_at t u <= above t ctx UINT64_MAX ->
  bounds None t l (start (ival t v)) -> bounds None t r (above t ctx UINT64_MAX) ->
  sides None t ctx UINT64_MAX -> spine None t ctx (inorder (T l v r)) UINT64_MAX ->
  exists t', replace_node_callback t u v = Ret t' /\ revised t t' /\
    (forall y, y ∈ L -> y <> v -> imax_at t' y = imax_at t y) /\
    bounds None t' (plug ctx (T l v r)) UINT64_MAX.
Proof.
  intros Hl Hu Hne Hnd HL Hw Hhi Bl Br Bs Bp. rewrite plug_perm in Hnd. apply NoDup_app in Hnd as (_ & Dc & Hnd). simpl in Hnd.
  apply NoDup_app in Hnd as (_ & Dl & Hnd). apply NoDup_cons in Hnd as [Dr _].
  assert (Hin : forall w, w ∈ ctx_ids ctx \/ w ∈ inorder (T l v r) -> w ∈ L)
    by (intros w Hx; apply HL; rewrite plug_perm; clear - Hx; set_solver).
  assert (HvL : v ∈ L) by (apply Hin; right; simpl; clear; set_solver).
  destruct (listed_at t L u Hl Hu) as (nu & uo & Hnu & Huo & _).
  destruct (listed_at t L v Hl HvL) as (nv & vo & Hnv & Hvo & Hd & _).
  unfold replace_node_callback. rewrite (rd_at _ _ _ Hnv). simpl. rewrite (proj2 (Z.eqb_neq _ _)) by done.
  rewrite (rd_at _ _ _ Hnu). simpl. rewrite (deref_data _ _ _ Huo). simpl. rewrite (deref_data _ _ _ Hvo). simpl.
  destruct (copy_bounds t L u v nu nv uo vo Ret Hl) as (t1 & W & R & M & K); try done. simpl in W. rewrite W.
  exists t1. split; [done|]. split; [done|]. split; [done|].
  assert (Same : forall M, (forall w, w ∈ M -> w ∈ L) -> v ∉ M -> same_objs t t1 M).
  { intros N HN Hv. apply (same_objs_revised t t1 v); [done| |done]. intros y Hy. apply K. by apply HN. }
  assert (Sc : same_objs t t1 (ctx_ids ctx)).
  { apply Same; [naive_solver|]. intros H. apply (Dc v H). simpl. clear. set_solver. }
  assert (Sl : same_objs t t1 (inorder l)).
  { apply Same; [|intros H; apply (Dl v H); clear; set_solver]. intros w H. apply Hin. right. simpl. clear - H. set_solver. }
  assert (Sr : same_objs t t1 (inorder r)).
  { apply Same; [|done]. intros w H. apply Hin. right. simpl. clear - H. set_solver. }
  rewrite bounds_plug, (above_same t t1 ctx _ Sc). split; [|split; [by apply (sides_same _ t)|]].
  - split; [right|split].
    + rewrite M. split; [|done]. intros w H. rewrite (revised_ival t t1 w R). by apply Hw.
    + rewrite (revised_ival t t1 v R). by apply (bounds_same _ t).
    + by apply (bounds_same _ t).
  - apply (spine_same t); [intros; by apply revised_ival| |done]. intros y Hy. by apply Sc.
Qed.

(** A node gives way to its only subtree. *)
Lemma replace_one_ok t ctx l u r V :
  shaped t (plug ctx (T l u r)) -> listed t (inorder (plug ctx (T l u r))) ->
  bounds None t (plug ctx (T l u r)) UINT64_MAX -> (V = r /\ l = E) \/ (V = l /\ r = E) ->
  exists t', replace_node_callback t u (match V with E => nil t | T _ x _ => x end) = Ret t' /\ revised t t' /\
    (forall y, y ∈ inorder (plug ctx (T l u r)) -> y ∉ inorder V -> imax_at t' y = imax_at t y) /\
    bounds None t' (plug ctx V) UINT64_MAX.
Proof.
  intros Hs Hl Hb HV. pose proof Hb as Hb'. rewrite bounds_plug in Hb. destruct Hb as ((Hu & Bl & Br) & Bs & Bp).
  assert (Hsub : forall w, w ∈ inorder V -> w ∈ inorder (T l u r))
    by (destruct HV as [[-> ->]|[-> ->]]; simpl; clear; set_solver).
  pose proof (spine_sub t ctx _ _ (inorder V) Hsub Bp) as Bp'.
  assert (Hup : start (ival t u) <= above t ctx UINT64_MAX).
  { destruct (listed_end t _ u Hl) as [[_ Hp] _]; [rewrite plug_perm; simpl; clear; set_solver|].
    assert (end_ (ival t u) <= above t ctx UINT64_MAX); [|lia]. rewrite inorder_plug in Hl.
    apply (listed_above t ctx (inorder (T l u r)) u Hl). simpl. clear. set_solver. }
  destruct V as [|a v b].
  - destruct (ls_nil _ _ Hl) as (nn & Hnn & Hd). exists t. unfold replace_node_callback. rewrite (rd_at _ _ _ Hnn). simpl.
    rewrite Hd. simpl. split; [done|]. split; [apply revised_refl|]. split; [done|]. by rewrite bounds_plug.
  - assert (Hab : bounds None t a (start (ival t v)) /\ bounds None t b (above t ctx UINT64_MAX)).
    { destruct HV as [[<- ->]|[<- ->]]; [by destruct Br as (_ & ? & ?)|]. destruct Bl as (_ & ? & ?).
      split; [done|]. by apply (bounds_mono t b (start (ival t u))). }
    destruct Hu as [[]|[Hu Hhi]]. assert (Hnd := proj2 Hs). rewrite plug_perm in Hnd.
    assert (Hnd' : NoDup (u :: inorder (plug ctx (T a v b)))).
    { eapply NoDup_Permutation_proper; [|exact Hnd]. rewrite plug_perm. destruct HV as [[<- ->]|[<- ->]]; simpl; perm_count. }
    apply NoDup_cons in Hnd' as [Du Hnd'].
    destruct (replace_ok t (inorder (plug ctx (T l u r))) ctx a u v b) as (t' & W & R & K & B); try done.
    + rewrite plug_perm. simpl. clear. set_solver.
    + intros ->. apply Du. rewrite plug_perm. simpl. clear. set_solver.
    + intros w. rewrite !plug_perm. specialize (Hsub w). clear - Hsub. set_solver.
    + intros w Hw. by apply Hu, Hsub.
    + apply Hab.
    + apply Hab.
    + exists t'. do 2 (split; [done|]). split; [|done]. intros y Hy Hv. apply K; [done|]. intros ->. apply Hv. simpl. clear. set_solver.
Qed.

(** The successor [y] of [z] leaves its place to its subtree, then takes the place of [z]. *)
Lemma replace_far_ok A t ctx l z cy y r :
  ctx_before cy = [] -> shaped t (plug ctx (T l z (plug cy (T E y r)))) ->
  tracked A None t (plug ctx (T l z (plug cy (T E y r)))) ->
  exists o, replace_node_callback t y (match r with E => nil t | T _ x _ => x end) = Ret (with_objs t o) /\
    forall t', same_records (inorder (plug ctx (T l z (plug cy (T E y r))))) (with_objs t o) t' ->
    exists o', replace_node_callback t' z y = Ret (with_objs t' o') /\
      tracked A None (with_objs t' o') (plug ctx (T l y (plug cy r))).
Proof.
  intros Hcy Hs (Hl & Hb & Hv & Hown). set (L := inorder (plug ctx (T l z (plug cy (T E y r))))) in *.
  pose proof (successor_NoDup ctx l z cy y r (proj2 Hs)) as Hnd. rewrite plug_perm in Hnd.
  apply NoDup_cons in Hnd as [Dz Hnd]. apply NoDup_cons in Hnd as [Dy Hnd].
  apply NoDup_app in Hnd as (_ & Dl & Hnd). apply NoDup_app in Hnd as (_ & Dr & _).
  assert (HL : forall w, w ∈ L <-> w = z \/ w = y \/ w ∈ inorder l \/ w ∈ ctx_ids cy \/ w ∈ inorder r \/ w ∈ ctx_ids ctx).
  { intros w. unfold L. rewrite plug_perm. simpl. rewrite !elem_of_app, !elem_of_cons, plug_perm. simpl. clear. set_solver. }
  assert (EL : L = (ctx_before ctx ++ inorder l) ++ z :: y :: inorder (plug cy r) ++ ctx_after ctx).
  { unfold L. rewrite inorder_plug. simpl. rewrite !inorder_plug, Hcy. simpl. rewrite <- !app_assoc. simpl. by rewrite <- ?app_assoc. }
  pose proof (plug_app cy (RightOf l z :: ctx)) as Ep. cbn [plug] in Ep.
  pose proof Hs as Hs1. pose proof Hb as Hb1. pose proof Hl as Hl1. unfold L in Hl1. rewrite <- Ep in Hs1, Hb1, Hl1.
  destruct (replace_one_ok t _ E y r r Hs1 Hl1 Hb1) as (t1 & W1 & R1 & K1 & B1); [by left|].
  rewrite Ep in K1, B1. fold L in K1. pose proof R1 as (o & -> & Hv1 & Hw1). exists o. split; [done|]. intros t' Hrec.
  set (t1 := with_objs t o) in *. pose proof (revised_listed _ _ _ R1 Hl) as Hl2.
  pose proof (records_listed _ _ _ Hrec Hl2) as Hl'.
  assert (Hi : forall x, x ∈ L -> ival t' x = ival t x).
  { intros x Hx. rewrite <- (revised_ival t t1 x R1). exact (proj1 (proj2 (records_same t1 t' L x Hrec Hx))). }
  assert (Same : forall M, (forall w, w ∈ M -> w ∈ L) -> (forall w, w ∈ M -> w ∉ inorder r) -> same_objs t t' M).
  { intros M HM Hr x Hx. split; [by apply Hi, HM|]. rewrite <- (K1 x) by (apply HM || apply Hr; done). exact (proj2 (proj2 (records_same t1 t' L x Hrec (HM x Hx)))). }
  assert (Sc : same_objs t t' (ctx_ids ctx)).
  { apply Same; [intros w Hw; apply HL; tauto|]. intros w Hw Hr. apply (Dr w); [clear - Hr; set_solver|done]. }
  rewrite bounds_plug in Hb, B1. destruct Hb as ((Hz & Bl & _) & Bs & Bp). destruct B1 as ((_ & _ & BR) & _ & _).
  destruct Hz as [[]|[Hz Hhi]].
  assert (HzL : z ∈ L) by (apply HL; tauto). assert (HyL : y ∈ L) by (apply HL; tauto).
  assert (Ez : imax_at t' z = imax_at t z).
  { apply (Same [z]); [set_solver| |set_solver]. intros w ->%list_elem_of_singleton Hr. apply Dz. clear - Hr. set_solver. }
  assert (Ea : above t' ctx UINT64_MAX = above t ctx UINT64_MAX) by (by apply above_same).
  assert (E1 : above t1 ctx UINT64_MAX = above t ctx UINT64_MAX).
  { apply above_same. intros x Hx. split; [by apply revised_ival|]. apply K1; [apply HL; tauto|].
    intros Hr. apply (Dr x); [clear - Hr; set_solver|done]. }
  assert (HR : forall w, w ∈ inorder (plug cy r) <-> w ∈ ctx_ids cy \/ w ∈ inorder r) by (intros w; rewrite plug_perm; set_solver).
  destruct (replace_ok t' L ctx l z y (plug cy r)) as (t2 & W2 & R2 & _ & B2); try done.
  - intros ->. apply Dz. clear. set_solver.
  - pose proof (successor_NoDup ctx l z cy y r (proj2 Hs)) as Hnd. apply NoDup_cons in Hnd as [_ Hnd].
    eapply NoDup_Permutation_proper; [|exact Hnd]. rewrite plug_perm. simpl. perm_count.
  - intros w. rewrite plug_perm, elem_of_app. simpl. rewrite elem_of_app, elem_of_cons, HR, HL. tauto.
  - intros w Hw. assert (w ∈ L). { apply HL. simpl in Hw. rewrite elem_of_app, elem_of_cons, HR in Hw. tauto. }
    rewrite Hi, Ez by done. apply Hz. simpl in Hw |- *. rewrite plug_perm. simpl.
    rewrite elem_of_app, elem_of_cons, HR in Hw. clear - Hw. set_solver.
  - rewrite Ez, Ea. done.
  - apply (bounds_mono t' l (start (ival t' z))).
    + apply (listed_starts t' L z y Hl'). exists (ctx_before ctx ++ inorder l), ([] : list nat). eexists. exact EL.
    + rewrite Hi by done. apply (bounds_same _ t); [|done]. apply Same; [intros w Hw; apply HL; tauto|].
      intros w Hw Hr. apply (Dl w Hw). clear - Hr. set_solver.
  - rewrite Ea, <- E1. apply (bounds_same _ t1); [|done]. intros w Hw.
    assert (w ∈ L) as Hw' by (apply HL; rewrite HR in Hw; tauto).
    exact (proj2 (records_same t1 t' L w Hrec Hw')).
  - by apply (sides_same _ t).
  - apply (spine_same t); [|intros x Hx; by apply Sc|].
    + intros x Hx. apply Hi, HL. simpl in Hx. rewrite !elem_of_app, elem_of_cons, HR in Hx. tauto.
    + eapply spine_sub; [|exact Bp]. intros w. simpl. rewrite !elem_of_app, !elem_of_cons, !HR, plug_perm. simpl. clear. set_solver.
  - pose proof R2 as (o' & -> & Hv2 & Hw2). exists o'. split; [done|]. split; [|split; [done|split]].
    + apply (revised_listed t'); [done|]. rewrite EL in Hl'. apply listed_drop in Hl'. rewrite <- app_assoc in Hl'.
      rewrite inorder_plug. simpl. by rewrite <- app_assoc.
    + rewrite Hv2. unfold views at 1. by rewrite (proj1 Hrec), <- Hv, <- Hv1.
    + intros x. rewrite plug_perm, elem_of_app. simpl. rewrite elem_of_app, elem_of_cons, HR. intros Hx.
      assert (HxL : x ∈ L) by (apply HL; tauto). right. rewrite Hw2. change (data_at (with_objs t' o') x) with (data_at t' x).
      rewrite (proj1 (records_same t1 t' L x Hrec HxL)). unfold owners. rewrite (proj1 Hrec). fold (owners t1). rewrite Hw1.
      by destruct (Hown x HxL).
Qed.

#[export] Instance intvl_delete A : delete_inv intvl_events (intvl_inv A None).
Proof.
  split; [done|done|..].
  - intros t ctx l u r V Hs (Hl & Hb & Hv & Hown) HV. destruct (replace_one_ok t ctx l u r V Hs Hl Hb HV) as (t' & W & R & _ & B).
    pose proof R as (o & -> & Hv' & _). exists o. split; [done|].
    split; [|split; [done|split; [congruence|apply (owned_sub _ _ (inorder (plug ctx (T l u r)))); [|by apply (owned_revised _ t)];
      intros x; rewrite !plug_perm; destruct HV as [[-> ->]|[-> ->]]; simpl; clear; set_solver]]].
    apply (revised_listed t); [done|]. rewrite inorder_plug in Hl |- *.
    destruct HV as [[-> ->]|[-> ->]]; simpl in Hl.
    + by apply listed_drop in Hl.
    + rewrite <- app_assoc, app_assoc in Hl. simpl in Hl. apply listed_drop in Hl. by rewrite <- app_assoc in Hl.
  - intros t ctx l z y r t' Hs Htr Hrec. apply (tracked_stable A None t t' _ Hrec) in Htr as (Hl & Hb & Hv & Hown).
    rewrite bounds_plug in Hb. destruct Hb as ((Hz & Bl & _ & _ & Br) & Bs & Bp). destruct Hz as [[]|[Hz Hhi]].
    assert (Hnd' : NoDup (z :: inorder (plug ctx (T l y r)))).
    { eapply NoDup_Permutation_proper; [|exact (proj2 Hs)]. rewrite !plug_perm. simpl. perm_count. }
    apply NoDup_cons in Hnd' as [Dz Hnd'].
    destruct (replace_ok t' (inorder (plug ctx (T l z (T E y r)))) ctx l z y r) as (t1 & W & R & _ & B); try done.
    + rewrite plug_perm. simpl. clear. set_solver.
    + intros ->. apply Dz. rewrite plug_perm. simpl. clear. set_solver.
    + intros w. rewrite !plug_perm. simpl. clear. set_solver.
    + intros w Hw. apply Hz. simpl in Hw |- *. clear - Hw. set_solver.
    + apply (bounds_mono t' l (start (ival t' z))); [|done]. apply (listed_starts t' (inorder (plug ctx (T l z (T E y r)))) z y Hl).
      exists (ctx_before ctx ++ inorder l), ([] : list nat), (inorder r ++ ctx_after ctx).
      rewrite inorder_plug. simpl. by rewrite <- !app_assoc.
    + eapply spine_sub; [|exact Bp]. intros w. simpl. clear. set_solver.
    + pose proof R as (o & -> & Hv' & _). exists o. split; [done|].
      split; [|split; [done|split; [congruence|apply (owned_sub _ _ (inorder (plug ctx (T l z (T E y r)))));
        [|by apply (owned_revised _ t')]; intros x; rewrite !plug_perm; simpl; clear; set_solver]]].
      apply (revised_listed t'); [done|]. rewrite inorder_plug in Hl |- *. simpl in Hl |- *.
      rewrite <- app_assoc, app_assoc in Hl. simpl in Hl. apply listed_drop in Hl. by rewrite <- !app_assoc in Hl |- *.
  - intros t ctx l z f cy y r. apply (replace_far_ok A t ctx l z (f :: cy)).
Defined.
