(* ===== verification/IntvlOps.v ===== *)
(** * lib/interval_tree.c: searches and the contract of the operations

    The lookups of IntvlTree on a tree that the callbacks maintain: the search
    for an overlap, the search for a point and the search for a free range.
    Then the operations as a whole, refined to a finite map from starts to
    records. *)

From S2P Require Import Prelude Interval.
From stdpp Require Import list gmap sorting.
From S2P Require Import RbTree RbEvents RbInsert RbAdd RbDelete RbFix RbRemove IntvlTree.
Local Open Scope Z_scope.

(** ** Overlaps *)

(** The invariant of a tree whose records say [A]. *)
Definition intvl_ok (t : rb_tree_t) (sh : tr) (n : nat) (M : gmap Z Z) : Prop :=
  rb_ok (TI := intvl_inv (views t) None) t sh n M.

Lemma intvl_ok_parts t sh n M : intvl_ok t sh n M ->
  shaped t sh /\ listed t (inorder sh) /\ bounds None t sh UINT64_MAX /\ threaded t (inorder sh).
Proof. intros [[[Hs (Hl & Hb & _)] _ _ _] _ _ Ht _ _ _ _]. done. Qed.

Lemma get_interval_at t L x n :
  listed t L -> x ∈ L -> x <> nil t -> store_of t !! x = Some n -> get_interval t x = Ret (ival t x).
Proof.
  intros Hl Hx Hne Hn. destruct (listed_at t L x Hl Hx) as (n' & o & Hn' & Ho & Hd & _ & -> & _).
  assert (n' = n) as -> by congruence. unfold get_interval. rewrite (proj2 (Nat.eqb_neq _ _)) by done.
  rewrite (rd_at _ _ _ Hn). simpl. rewrite (proj2 (Z.eqb_neq _ _)) by done. by rewrite (deref_data _ _ _ Ho).
Qed.

Lemma listed_mid t a x b : listed t (a ++ x :: b) ->
  (forall w, w ∈ a -> end_ (ival t w) <= start (ival t x)) /\ (forall w, w ∈ b -> end_ (ival t x) <= start (ival t w)).
Proof.
  intros Hl. pose proof (ls_order _ _ Hl) as H. apply StronglySorted_app in H as (Ha & _ & H).
  apply StronglySorted_cons in H as [Hb _]. rewrite Forall_forall in Hb.
  split; intros w Hw; [apply Ha; set_solver|by apply Hb].
Qed.

Lemma listed_part t a l b : listed t (a ++ l ++ b) -> listed t l.
Proof.
  intros [H1 H2 H3 H4]. split; [done|..].
  - intros x Hx. apply H2. set_solver.
  - rewrite !fmap_app in H3. by apply NoDup_app in H3 as (_ & _ & [? _]%NoDup_app).
  - by apply StronglySorted_app in H4 as (_ & _ & (_ & ? & _)%StronglySorted_app).
Qed.

(** What a search of the nodes [L] for an overlap with [i] may return. *)
Definition overlap_in (t : rb_tree_t) (L : list nat) (i : interval_t) (y : nat) : Prop :=
  (y ∈ L /\ overlaps i (ival t y) = true) \/ (y = nil t /\ forall w, w ∈ L -> overlaps i (ival t w) = false).

Lemma apart i j : proper i -> proper j -> end_ i <= start j \/ end_ j <= start i <-> overlaps i j = false.
Proof.
  intros Hi Hj. rewrite overlaps_proper by done. destruct (Z.ltb_spec (start i) (end_ j)), (Z.ltb_spec (start j) (end_ i));
    simpl; intuition lia.
Qed.

Lemma overlap_loop_ok t i sh : forall p h hi fuel, proper i ->
  repr (store_of t) (nil t) p h sh -> listed t (inorder sh) -> bounds None t sh hi -> (length (inorder sh) < fuel)%nat ->
  exists y, overlap_loop fuel t h i = Ret y /\ overlap_in t (inorder sh) i y.
Proof.
  induction sh as [|l IHl x r IHr]; intros p h hi fuel Hi Hr Hl Hb Hf; (destruct fuel as [|fuel]; [simpl in Hf; lia|]).
  - simpl in Hr. subst h. exists (nil t). simpl. rewrite Nat.eqb_refl. split; [done|]. right. set_solver.
  - destruct Hr as (-> & Hx & n & Hn & Hp & Hle & Hre). simpl in Hl, Hb, Hf. rewrite length_app in Hf. simpl in Hf.
    destruct Hb as (_ & Bl & Br). destruct (listed_mid _ _ _ _ Hl) as [Ha Hb'].
    pose proof (listed_part t [] _ _ Hl) as Hll. pose proof Hl as Hlr. rewrite cons_middle, app_assoc in Hlr.
    rewrite <- (app_nil_r (inorder r)) in Hlr. apply listed_part in Hlr.
    assert (HxL : x ∈ inorder l ++ x :: inorder r) by set_solver. destruct (listed_end t _ x Hl HxL) as [Px _].
    assert (Pw : forall w, w ∈ inorder l ++ x :: inorder r -> proper (ival t w)) by (intros w Hw; by apply (listed_end t _ w Hl)).
    cbn [overlap_loop]. rewrite (proj2 (Nat.eqb_neq _ _)) by done. rewrite (get_interval_at t _ x n Hl HxL Hx Hn). simpl.
    destruct (overlaps i (ival t x)) eqn:Ho; [exists x; split; [done|by left; split; [simpl; set_solver|]]|].
    rewrite (rd_at _ _ _ Hn). simpl. destruct (get_max_top t _ x (left n) l Hl Hle) as [-> _]; [set_solver|]. simpl.
    apply apart in Ho; [|done..].
    destruct (negb (left n =? nil t)%nat && (start i <? top_max t l)) eqn:Hgo.
    + apply andb_true_iff in Hgo as [Hnl Hlt%Z.ltb_lt]. destruct (IHl x (left n) (start (ival t x)) fuel) as (y & -> & Hy); try done; [lia|].
      exists y. split; [done|]. destruct Hy as [[Hy Hoy]|[-> Hno]]; [left; split; [simpl; set_solver|done]|right].
      split; [done|]. assert (Htop : top_max t l <= start (ival t x)).
      { destruct l as [|la lx lb]; simpl in *; [unfold proper in *; lia|]. by destruct Bl as ([[]|[_ ?]] & _). }
      simpl. intros w [Hw|[->|Hw]%elem_of_cons]%elem_of_app; [by apply Hno|by apply apart|].
      apply apart; [done|apply Pw; set_solver|]. specialize (Hb' w Hw). unfold proper in *. lia.
    + destruct (IHr x (right n) hi fuel) as (y & -> & Hy); try done; [lia|].
      exists y. split; [done|]. destruct Hy as [[Hy Hoy]|[-> Hno]]; [left; split; [simpl; set_solver|done]|right].
      split; [done|]. simpl. intros w [Hw|[->|Hw]%elem_of_cons]%elem_of_app; [|by apply apart|by apply Hno].
      apply apart; [done|apply Pw; set_solver|]. right. destruct l as [|la lx lb]; [simpl in Hw; set_solver|].
      destruct Hle as (El & Hln & _). rewrite El, (proj2 (Nat.eqb_neq _ _)) in Hgo by done. simpl in Hgo. apply Z.ltb_ge in Hgo.
      destruct Bl as ([[]|[Hall _]] & _). specialize (Hall w Hw). lia.
Qed.

Lemma overlap_root t sh n M i : intvl_ok t sh n M -> proper i ->
  exists y, overlap_loop (walk_fuel t) t (root t) i = Ret y /\ overlap_in t (inorder sh) i y.
Proof.
  intros (Hs & Hl & Hb & _)%intvl_ok_parts Hi. pose proof (shaped_length _ _ Hs) as Hlen.
  destruct Hs as [Hr _]. apply (overlap_loop_ok t i sh (nil t) (root t) UINT64_MAX); try done. unfold walk_fuel. lia.
Qed.

(** ** Free ranges *)

(** The same search on a list of intervals with their records; [q] is the
    record before the list. *)
Fixpoint scan (gap_start q size a : Z) (js : list (interval_t * Z)) : interval_t * Z :=
  match js with
  | [] => (make_aligned_interval gap_start size a, q)
  | (j, p) :: js' =>
      if check_gap gap_start (start j) size a then (make_aligned_interval gap_start size a, q)
      else scan (Z.max gap_start (end_ j)) p size a js'
  end.

(** The end of the last interval of [L], or [s] where it is less. *)
Definition after (t : rb_tree_t) (L : list nat) (s : Z) : Z :=
  match last L with Some x => Z.max s (end_ (ival t x)) | None => s end.

Lemma obj_of_at t L x : listed t L -> x ∈ L -> exists n o,
  store_of t !! x = Some n /\ obj_of t x = Ret o /\ deref t (data n) = Ret o /\ interval o = ival t x /\ data n = data_at t x.
Proof.
  intros Hl Hx. destruct (listed_at t L x Hl Hx) as (n & o & Hn & Ho & _ & Ed & Ei & _). exists n, o.
  unfold obj_of. rewrite (rd_at _ _ _ Hn). simpl. by rewrite (deref_data _ _ _ Ho).
Qed.

Definition before (t : rb_tree_t) (L : list nat) : Z :=
  match last L with Some x => data_at t x | None => 0 end.

Definition with_record (t : rb_tree_t) (x : nat) : interval_t * Z := (ival t x, data_at t x).

(** The first node at or after [s]. *)
Lemma closest_greater_ok t s sh : forall p h c fuel,
  repr (store_of t) (nil t) p h sh -> listed t (inorder sh) -> (length (inorder sh) < fuel)%nat ->
  exists xs ys, inorder sh = xs ++ ys /\ Forall (fun x => start (ival t x) < s) xs /\
    Forall (fun y => s <= start (ival t y)) ys /\ closest_greater fuel t h c s = Ret (first_of c ys).
Proof.
  induction sh as [|l IHl x r IHr]; intros p h c fuel Hr Hls Hf; (destruct fuel as [|fuel]; [simpl in Hf; lia|]).
  - simpl in Hr. subst h. exists [], []. simpl. by rewrite Nat.eqb_refl.
  - destruct Hr as (-> & Hx & n & Hn & Hp & Hle & Hre). simpl in Hls, Hf. rewrite length_app in Hf. simpl in Hf.
    destruct (listed_mid _ _ _ _ Hls) as [Ha Hb].
    pose proof (listed_part t [] _ _ Hls) as Hll. pose proof Hls as Hlr. rewrite cons_middle, app_assoc in Hlr.
    rewrite <- (app_nil_r (inorder r)) in Hlr. apply listed_part in Hlr.
    assert (Pw : forall w, w ∈ inorder l ++ x :: inorder r -> proper (ival t w)) by (intros w Hw; by apply (listed_end t _ w Hls)).
    pose proof (Pw x ltac:(set_solver)) as Px.
    destruct (obj_of_at t _ x Hls) as (n' & o & Hn' & _ & Hd & Ei & _); [set_solver|]. assert (n' = n) as -> by congruence.
    cbn [closest_greater]. rewrite (proj2 (Nat.eqb_neq _ _)) by done. rewrite (rd_at _ _ _ Hn). simpl. rewrite Hd. simpl.
    rewrite Ei. destruct (Z.leb_spec s (start (ival t x))) as [Hsx|Hsx].
    + destruct (IHl x (left n) x fuel Hle Hll) as (xs & ys & E & Hxs & Hys & ->); [lia|].
      exists xs, (ys ++ x :: inorder r). rewrite E, <- app_assoc. split; [done|]. split; [done|]. split.
      * apply Forall_app. split; [done|]. constructor; [done|]. rewrite Forall_forall. intros w Hw. specialize (Hb w Hw).
        unfold proper in *. lia.
      * by rewrite first_of_app.
    + destruct (IHr x (right n) c fuel Hre Hlr) as (xs & ys & E & Hxs & Hys & ->); [lia|].
      exists (inorder l ++ x :: xs), ys. rewrite E, <- app_assoc. split; [done|]. split; [|done].
      apply Forall_app. split; [|by constructor]. rewrite Forall_forall. intros w Hw. specialize (Ha w Hw).
      pose proof (Pw w ltac:(set_solver)). unfold proper in *. lia.
Qed.

Section walk.
Context (t : rb_tree_t) (L : list nat) (size a : Z).
Context (Hl : listed t L) (Hth : threaded t L) (Hnil : nil t ∉ L).

Lemma gap_before_ok xs x ys cs : L = xs ++ x :: ys ->
  gap_before t (last_of (nil t) xs) x cs size a =
  Ret (if check_gap (after t xs cs) (start (ival t x)) size a
       then Some (make_aligned_interval (after t xs cs) size a, before t xs) else None).
Proof.
  intros E. unfold gap_before, after, before, last_of.
  destruct (obj_of_at t L x Hl) as (n & o & Hn & -> & _ & Ei & _); [set_solver|]. simpl. rewrite Ei.
  destruct (last xs) as [p|] eqn:Hp; simpl.
  - assert (p ∈ L) as HpL by (subst L; apply last_Some_elem_of in Hp; set_solver).
    rewrite (proj2 (Nat.eqb_neq _ _)) by (intros ->; done).
    destruct (obj_of_at t L p Hl HpL) as (np & op & Hnp & _ & Hd & Ep & Ed).
    rewrite (rd_at _ _ _ Hnp). simpl. rewrite Hd. simpl. rewrite Ep, Ed. by destruct check_gap.
  - rewrite Nat.eqb_refl. by destruct check_gap.
Qed.

(** The start of the next gap once [y] is passed. *)
Lemma after_snoc xs y ys cs : L = xs ++ y :: ys ->
  after t (xs ++ [y]) (Z.max cs (end_ (ival t y))) = Z.max (after t xs cs) (end_ (ival t y)).
Proof.
  intros E. unfold after. rewrite last_snoc. destruct (last xs) as [p|] eqn:Hp; [|lia].
  rewrite E in Hl. destruct (listed_mid _ _ _ _ Hl) as [Ha _]. apply last_Some_elem_of in Hp. specialize (Ha p Hp).
  destruct (listed_end t _ y Hl) as [[_ ?] _]; [set_solver|]. lia.
Qed.

(** The walk is the scan of the intervals that follow. *)
Lemma gap_walk_ok ys : forall xs cs fuel, L = xs ++ ys -> (length ys < fuel)%nat ->
  gap_walk fuel t (first_of (nil t) ys) (last_of (nil t) xs) cs size a =
  Ret (scan (after t xs cs) (before t xs) size a (with_record t <$> ys)).
Proof.
  induction ys as [|y ys IH]; intros xs cs fuel E Hf; (destruct fuel as [|fuel]; [simpl in Hf; lia|]); cbn [gap_walk].
  - unfold first_of. simpl. rewrite Nat.eqb_refl. unfold after, before, last_of. destruct (last xs) as [p|] eqn:Hp; simpl.
    + assert (p ∈ L) as HpL by (subst L; apply last_Some_elem_of in Hp; set_solver).
      rewrite (proj2 (Nat.eqb_neq _ _)) by (intros ->; done).
      destruct (obj_of_at t L p Hl HpL) as (np & op & Hnp & _ & Hd & Ei & Ed).
      rewrite (rd_at _ _ _ Hnp). simpl. rewrite Hd. simpl. by rewrite Ei, Ed.
    + by rewrite Nat.eqb_refl.
  - change (first_of (nil t) (y :: ys)) with y. assert (y ∈ L) as Hy by set_solver.
    rewrite (proj2 (Nat.eqb_neq y _)) by (intros ->; done). rewrite (gap_before_ok xs y ys cs E). simpl.
    destruct (check_gap (after t xs cs) (start (ival t y)) size a) eqn:Hg; [done|].
    destruct (obj_of_at t L y Hl Hy) as (n & o & Hn & _ & Hd & Ei & _). rewrite (rd_at _ _ _ Hn). simpl.
    rewrite Hd. simpl. rewrite Ei. pose proof (th_chain _ _ Hth) as Hc. rewrite E in Hc. apply chain_app in Hc as [_ Hc].
    destruct Hc as (n' & Hn' & _ & Hnx & _). assert (n' = n) as -> by congruence. rewrite Hnx.
    pose proof (IH (xs ++ [y]) (Z.max cs (end_ (ival t y))) fuel) as Hw. unfold last_of at 1 in Hw.
    rewrite last_snoc in Hw. simpl in Hw. rewrite Hw by (rewrite <- ?app_assoc; simpl in Hf; done || lia).
    rewrite (after_snoc xs y ys cs E). unfold before at 1. by rewrite last_snoc.
Qed.

End walk.

Lemma free_gap_scan t sh n M i a :
  intvl_ok t sh n M -> inorder sh <> [] ->
  exists xs ys, inorder sh = xs ++ ys /\ Forall (fun x => start (ival t x) < start i) xs /\
    Forall (fun y => start i <= start (ival t y)) ys /\
    intvl_tree_find_free_gap t i a =
    Ret (scan (after t xs (start i)) (before t xs) (u64 (end_ i - start i)) (if a =? 0 then 1 else a) (with_record t <$> ys)).
Proof.
  intros Hok Hne. apply intvl_ok_parts in Hok as (Hs & Hl & _ & Hth). pose proof (shaped_length _ _ Hs) as Hlen.
  destruct Hs as [Hr _]. pose proof (repr_not_nil _ _ _ _ _ Hr) as Hnil.
  destruct (closest_greater_ok t (start i) sh (nil t) (root t) (nil t) (walk_fuel t) Hr Hl) as (xs & ys & E & Hxs & Hys & Hc);
    [unfold walk_fuel; lia|]. exists xs, ys. do 3 (split; [done|]).
  unfold intvl_tree_find_free_gap. destruct sh as [|l x r]; [done|]. destruct Hr as (Ex & Hx & _).
  rewrite Ex, (proj2 (Nat.eqb_neq x _)) by done. rewrite Ex in Hc. rewrite Hc. cbn [mbind outcome_bind].
  set (size := u64 (end_ i - start i)). set (a' := if a =? 0 then 1 else a).
  assert (Hw : gap_walk (walk_fuel t) t (first_of (nil t) ys) (last_of (nil t) xs) (start i) size a' =
    Ret (scan (after t xs (start i)) (before t xs) size a' (with_record t <$> ys))).
  { apply (gap_walk_ok t (inorder (T l x r))); try done. rewrite E, length_app in Hlen. unfold walk_fuel. lia. }
  destruct ys as [|y ys].
  - change (first_of (nil t) []) with (nil t) in Hw |- *. rewrite Nat.eqb_refl. cbn [mbind outcome_bind].
    rewrite (th_max _ _ Hth), E, app_nil_r. exact Hw.
  - change (first_of (nil t) (y :: ys)) with y in Hw |- *.
    rewrite (proj2 (Nat.eqb_neq y _)) by (intros ->; apply Hnil; rewrite E; set_solver).
    pose proof (th_chain _ _ Hth) as Hch. rewrite E in Hch. apply chain_app in Hch as [_ (n' & Hn' & Hp & _)].
    rewrite (rd_at _ _ _ Hn'). cbn [mbind outcome_bind]. rewrite Hp. rewrite (gap_before_ok t (inorder (T l x r)) size a' Hl Hth Hnil xs y ys _ E). cbn [mbind outcome_bind].
    destruct (check_gap (after t xs (start i)) (start (ival t y)) size a') eqn:Hg; [|exact Hw].
    cbn [scan fmap list_fmap with_record]. by rewrite Hg.
Qed.

(** *** The range found *)

(** A range at [c] that starts at or after [s], is aligned and meets no
    interval of [js]. *)
Definition free_at (js : list interval_t) (s size K c : Z) : Prop :=
  s <= c /\ c mod K = 0 /\ forall j, j ∈ js -> c + size <= start j \/ end_ j <= c.

Lemma align_least v k : 0 <= v -> 0 <= k < 64 -> v + 2 ^ k <= 2 ^ 64 ->
  v <= align v (2 ^ k) < v + 2 ^ k /\ align v (2 ^ k) mod 2 ^ k = 0 /\
  forall c, v <= c -> c mod 2 ^ k = 0 -> align v (2 ^ k) <= c.
Proof.
  intros Hv Hk Hb. rewrite align_pow2 by done. assert (0 < 2 ^ k) as HK by lia.
  pose proof (Z.mod_pos_bound (- v) _ HK). split; [lia|]. split.
  - rewrite Z.add_mod_idemp_r by lia. by rewrite Z.add_opp_diag_r.
  - intros c Hc Hm. assert ((- v) mod 2 ^ k = (c - v) mod 2 ^ k) as ->
      by (rewrite <- Z.add_opp_l, <- Z.add_mod_idemp_r, Hm, Z.add_0_r by lia; done).
    pose proof (Z.mod_le (c - v) (2 ^ k)). lia.
Qed.

Section scan.
Context (k size : Z) (Hk : 0 <= k < 64) (Hsize : 0 < size).

Lemma make_aligned v : 0 <= v -> v + 2 ^ k + size <= 2 ^ 64 ->
  make_aligned_interval v size (2 ^ k) = mk_intvl (align v (2 ^ k)) (align v (2 ^ k) + size).
Proof.
  intros Hv Hb. unfold make_aligned_interval. f_equal. destruct (align_least v k) as (? & _); [lia..|].
  apply wrap_small. unfold fits. lia.
Qed.

Lemma check_gap_spec v e : 0 <= v -> v + 2 ^ k + size <= 2 ^ 64 -> e < 2 ^ 64 ->
  check_gap v e size (2 ^ k) = (align v (2 ^ k) + size <=? e).
Proof.
  intros Hv Hb He. unfold check_gap. destruct (align_least v k) as (? & _); [lia..|].
  set (g := align v (2 ^ k)) in *. destruct (Z.ltb_spec g e) as [Hlt|Hge]; simpl; [|zcases].
  rewrite (wrap_small 64 (e - g)) by (unfold fits; lia). zcases.
Qed.

Lemma scan_ok js : forall gs q,
  0 <= gs -> gs + 2 ^ k + size <= 2 ^ 64 ->
  (forall j p, (j, p) ∈ js -> proper j /\ end_ j + 2 ^ k + size <= 2 ^ 64) ->
  StronglySorted (fun u v => end_ u.1 <= start v.1) js ->
  exists g q', scan gs q size (2 ^ k) js = (mk_intvl g (g + size), q') /\
    free_at js.*1 gs size (2 ^ k) g /\ (forall c, free_at js.*1 gs size (2 ^ k) c -> g <= c) /\ g + size < 2 ^ 64 /\
    ((q' = q /\ forall j, j ∈ js.*1 -> g + size <= start j) \/
     exists j, (j, q') ∈ js /\ end_ j <= g /\ forall j', j' ∈ js.*1 -> end_ j' <= end_ j \/ g + size <= start j').
Proof.
  induction js as [|[j p] js IH]; intros gs q H0 Hb Hjs Hs; cbn [scan].
  - destruct (align_least gs k) as (Ha & Hm & Hc); [lia..|]. rewrite make_aligned by done.
    eexists _, q. split; [done|]. split; [split; [lia|split; [done|set_solver]]|]. split; [|split; [lia|left; set_solver]].
    intros c (H1 & H2 & _). by apply Hc.
  - apply StronglySorted_cons in Hs as [Hj Hs]. rewrite Forall_forall in Hj.
    destruct (Hjs j p ltac:(set_solver)) as [Pj Bj]. destruct (align_least gs k) as (Ha & Hm & Hc); [lia..|].
    assert (Hlater : forall j', j' ∈ js.*1 -> end_ j <= start j').
    { intros j' ([j1 p1] & -> & Hin)%list_elem_of_fmap. by apply (Hj (j1, p1)). }
    rewrite check_gap_spec by (unfold proper in *; lia). destruct (Z.leb_spec (align gs (2 ^ k) + size) (start j)) as [Hg|Hg].
    + rewrite make_aligned by done. eexists _, q. split; [done|].
      assert (Hall : forall j', j' ∈ j :: js.*1 -> align gs (2 ^ k) + size <= start j').
      { intros j' [->|Hin]%elem_of_cons; [done|]. specialize (Hlater j' Hin). unfold proper in *. lia. }
      split; [split; [lia|split; [done|]]|]. { intros j' Hin. left. by apply Hall. }
      split; [|split; [lia|left; done]]. intros c (H1 & H2 & _). by apply Hc.
    + destruct (IH (Z.max gs (end_ j)) p) as (g & q' & -> & (F1 & F2 & F3) & Hleast & Hend & Hq);
        [lia|lia|intros j' p' Hin; apply (Hjs j' p'); set_solver|done|]. exists g, q'. split; [done|]. split; [|split; [|split; [done|]]].
      * split; [lia|]. split; [done|]. intros j' [->|Hin]%elem_of_cons; [right; simpl; lia|by apply F3].
      * intros c (C1 & C2 & C3). apply Hleast. split; [|split; [done|intros j' Hin; apply C3; set_solver]].
        destruct (C3 j ltac:(set_solver)) as [Hc'|Hc']; [|lia]. specialize (Hc c C1 C2). lia.
      * right. destruct Hq as [[-> Hq]|(j1 & Hin & Hle & Hq)].
        -- exists j. split; [set_solver|]. split; [lia|]. intros j' [->|Hin]%elem_of_cons; [left; simpl; lia|right; by apply Hq].
        -- exists j1. split; [set_solver|]. split; [done|]. intros j' [->|Hin']%elem_of_cons; [|by apply Hq].
           left. simpl. assert (end_ j <= start j1); [apply Hlater, list_elem_of_fmap; by exists (j1, q')|].
           destruct (Hjs j1 q' ltac:(set_solver)) as [[_ ?] _]. lia.
Qed.
End scan.

Lemma last_end t xs ys x : listed t (xs ++ ys) -> x ∈ xs -> end_ (ival t x) <= after t xs 0.
Proof.
  intros Hl Hx. unfold after. destruct (last xs) as [p|] eqn:Hp; [|apply last_None in Hp; subst; set_solver].
  apply last_Some in Hp as [xs' ->]. rewrite <- app_assoc in Hl. destruct (listed_mid _ _ _ _ Hl) as [Ha _].
  apply elem_of_app in Hx as [Hx| ->%list_elem_of_singleton]; [|lia]. specialize (Ha x Hx).
  destruct (listed_end t _ p Hl) as [[_ ?] _]; [set_solver|]. lia.
Qed.

(** The record [q] before a range at [g]: nothing lies between them. *)
Definition just_before (js : list (interval_t * Z)) (g size q : Z) : Prop :=
  (q = 0 /\ forall j, j ∈ js.*1 -> g + size <= start j) \/
  exists j, (j, q) ∈ js /\ end_ j <= g /\ forall j', j' ∈ js.*1 -> end_ j' <= end_ j \/ g + size <= start j'.

Lemma free_gap_ok t sh n M i k :
  intvl_ok t sh n M -> inorder sh <> [] -> proper i -> end_ i <= UINT64_MAX -> 0 <= k < 64 ->
  start i + 2 ^ k + (end_ i - start i) <= 2 ^ 64 ->
  (forall x, x ∈ inorder sh -> end_ (ival t x) + 2 ^ k + (end_ i - start i) <= 2 ^ 64) ->
  exists g q, let size := end_ i - start i in let js := with_record t <$> inorder sh in
    intvl_tree_find_free_gap t i (2 ^ k) = Ret (mk_intvl g (g + size), q) /\
    free_at js.*1 (start i) size (2 ^ k) g /\ (forall c, free_at js.*1 (start i) size (2 ^ k) c -> g <= c) /\
    g + size < 2 ^ 64 /\ just_before js g size q.
Proof.
  intros Hok Hne Hi Hie Hk Hroom HrL. pose proof (intvl_ok_parts _ _ _ _ Hok) as (_ & Hl & _ & _).
  destruct (free_gap_scan t sh n M i (2 ^ k) Hok Hne) as (xs & ys & E & Hxs & Hys & Hrun).
  rewrite (proj2 (Z.eqb_neq (2 ^ k) 0)) in Hrun by lia. unfold proper in Hi.
  rewrite (wrap_small 64 (end_ i - start i)) in Hrun by (unfold fits; lia). set (size := end_ i - start i) in *.
  rewrite Forall_forall in Hxs, Hys. rewrite E in *.
  assert (Hpw : forall w, w ∈ xs ++ ys -> proper (ival t w)) by (intros w Hw; by apply (listed_end t _ w Hl)).
  assert (Hlast : match last xs with Some p => p ∈ xs | None => xs = [] end)
    by (destruct (last xs) as [p|] eqn:Hp; [by apply last_Some_elem_of|by apply last_None]).
  assert (Haft : start i <= after t xs (start i) /\ after t xs (start i) + 2 ^ k + size <= 2 ^ 64).
  { unfold after. destruct (last xs) as [p|]; [|lia]. specialize (HrL p ltac:(set_solver)). lia. }
  assert (Hbelow : forall x, x ∈ xs -> end_ (ival t x) <= after t xs (start i)).
  { intros x Hx. pose proof (last_end t xs ys x Hl Hx) as H. unfold after in *. destruct (last xs); [lia|]. subst xs. set_solver. }
  assert (Ejs : forall l, (with_record t <$> l).*1 = ival t <$> l) by (intros l; rewrite <- list_fmap_compose; done).
  destruct (scan_ok k size Hk ltac:(lia) (with_record t <$> ys) (after t xs (start i)) (before t xs))
    as (g & q & Hscan & (F1 & F2 & F3) & Hleast & Hend & Hq); [lia|lia|..].
  { intros j p (y & [= -> ->] & Hy)%list_elem_of_fmap. split; [apply Hpw; set_solver|]. apply HrL. set_solver. }
  { pose proof (ls_order _ _ Hl) as Ho. apply StronglySorted_app in Ho as (_ & _ & Ho).
    eapply StronglySorted_fmap; [|exact Ho]. done. }
  exists g, q. rewrite Ejs in F3, Hleast, Hq. cbn zeta. rewrite Hrun, Hscan, Ejs. split; [done|]. split; [|split; [|split; [done|]]].
  - split; [lia|]. split; [done|]. intros j (x & -> & [Hx|Hx]%elem_of_app)%list_elem_of_fmap.
    + right. specialize (Hbelow x Hx). lia.
    + apply F3, list_elem_of_fmap. by exists x.
  - intros c (C1 & C2 & C3). apply Hleast. split; [|split; [done|]].
    + unfold after. destruct (last xs) as [p|]; [|done]. destruct (C3 (ival t p)) as [Hc|Hc]; [|..|lia].
      { apply list_elem_of_fmap. exists p. set_solver. }
      specialize (Hxs p Hlast). lia.
    + intros j (x & -> & Hx)%list_elem_of_fmap. apply C3, list_elem_of_fmap. exists x. set_solver.
  - unfold just_before. rewrite Ejs. destruct Hq as [[-> Hq]|(j & Hj & Hle & Hq)].
    + unfold before. destruct (last xs) as [p|] eqn:Hp.
      * right. exists (ival t p). split; [apply list_elem_of_fmap; exists p; split; [done|set_solver]|].
        pose proof (Hbelow p Hlast). split; [lia|]. intros j' (x & -> & [Hx|Hx]%elem_of_app)%list_elem_of_fmap.
        -- left. pose proof (last_end t xs ys x Hl Hx) as He. unfold after in He. rewrite Hp in He.
           specialize (Hpw p ltac:(set_solver)). unfold proper in Hpw. lia.
        -- right. apply Hq, list_elem_of_fmap. by exists x.
      * left. split; [done|]. subst xs. intros j Hj. apply Hq. done.
    + right. exists j. apply list_elem_of_fmap in Hj as (y & [= -> ->] & Hy). split; [apply list_elem_of_fmap; exists y; set_solver|].
      split; [done|]. intros j' (x & -> & [Hx|Hx]%elem_of_app)%list_elem_of_fmap.
      * left. pose proof (Hpw y ltac:(set_solver)) as Py. pose proof (ls_order _ _ Hl) as Ho.
        apply StronglySorted_app in Ho as (Ho & _). specialize (Ho x y Hx Hy). simpl in Ho. unfold proper in Py. lia.
      * apply Hq, list_elem_of_fmap. by exists x.
Qed.
