(* ===== verification/IntvlRun.v ===== *)
(** * lib/interval_tree.c: runs of operations

    The interval tree against an abstract specification: a finite map from
    starts to records with their intervals and data.  The operations are run
    in any order, where the callers keep the contract: intervals that are
    inserted are not empty and meet none that is there, and what is deleted is
    there. *)

From S2P Require Import Prelude Interval.
From stdpp Require Import list gmap sorting.
From S2P Require Import RbTree RbEvents RbInsert RbAdd RbDelete RbFix RbRemove IntvlTree IntvlOps.
Local Open Scope Z_scope.

(** ** The specification *)

(** A start with its record, the interval and the data. *)
Abbreviation intervals := (gmap Z (Z * (interval_t * Z))).

Inductive intvl_op :=
  | AddIntvl (p : Z) (o : intvl_node_t) (i : interval_t) (d : Z)
  | DelIntvl (i : interval_t)
  | ResizeIntvl (p s de : Z)
  | FindIntvl (i : interval_t)
  | GetPoint (x : Z)
  | FreeGap (i : interval_t) (k : Z).

Inductive intvl_res := RVoid | RPtr (p : Z) | RGap (i : interval_t) (prev : Z).

Definition step_intvl (t : rb_tree_t) (op : intvl_op) : outcome (intvl_res * rb_tree_t) :=
  match op with
  | AddIntvl p o i d => t ← intvl_tree_insert t p o i d; Ret (RVoid, t)
  | DelIntvl i => t ← intvl_tree_delete t i; Ret (RVoid, t)
  | ResizeIntvl p _ de => t ← intvl_tree_update_interval t p 0 de; Ret (RVoid, t)
  | FindIntvl i => p ← intvl_tree_find t i; Ret (RPtr p, t)
  | GetPoint x => p ← intvl_tree_get_point t x; Ret (RPtr p, t)
  | FreeGap i k => '(g, q) ← intvl_tree_find_free_gap t i (2 ^ k); Ret (RGap g q, t)
  end.

Fixpoint run_intvl (t : rb_tree_t) (ops : list intvl_op) : outcome (list intvl_res * rb_tree_t) :=
  match ops with
  | [] => Ret ([], t)
  | op :: ops' => '(r, t) ← step_intvl t op; '(rs, t) ← run_intvl t ops'; Ret (r :: rs, t)
  end.

#[export] Instance proper_dec i : Decision (proper i).
Proof. unfold proper. apply _. Defined.

Definition none_meets (S : intervals) (i : interval_t) : Prop :=
  map_Forall (fun _ v => overlaps v.2.1 i = false) S.

(** The room a search for a free range needs, so that no address wraps. *)
Definition has_room (S : intervals) (i : interval_t) (k : Z) : Prop :=
  start i + 2 ^ k + (end_ i - start i) <= 2 ^ 64 /\
  map_Forall (fun _ v => end_ v.2.1 + 2 ^ k + (end_ i - start i) <= 2 ^ 64) S.

(** [v] is the entry of the record [p], and can be resized by [de]. *)
Definition resizable (S : intervals) (p s de : Z) (v : Z * (interval_t * Z)) : Prop :=
  let i := mk_intvl (start v.2.1) (end_ v.2.1 + de) in
  v.1 = p /\ proper i /\ end_ i <= UINT64_MAX /\ none_meets (delete s S) i.

Definition resized (de : Z) (v : Z * (interval_t * Z)) : Z * (interval_t * Z) :=
  (v.1, (mk_intvl (start v.2.1) (end_ v.2.1 + de), v.2.2)).

(** What the callers keep to: [U] is the set of blocks in use as records.  A
    tree without intervals gives back the range it is asked for. *)
Definition legal (S : intervals) (U : gset Z) (op : intvl_op) : Prop :=
  match op with
  | AddIntvl p o i d => p <> 0 /\ (p ∉ U) /\ proper i /\ end_ i <= UINT64_MAX /\ none_meets S i
  | DelIntvl i => is_Some (S !! start i)
  | ResizeIntvl p s de => match S !! s with Some v => resizable S p s de v | None => False end
  | FindIntvl i => proper i
  | GetPoint x => 0 <= x < UINT64_MAX
  | FreeGap i k =>
      proper i /\ end_ i <= UINT64_MAX /\ 0 <= k < 64 /\ has_room S i k /\ (S <> ∅ \/ start i mod 2 ^ k = 0)
  end.

#[export] Instance none_meets_dec S i : Decision (none_meets S i).
Proof. unfold none_meets. apply _. Defined.
#[export] Instance has_room_dec S i k : Decision (has_room S i k).
Proof. unfold has_room. apply _. Defined.
#[export] Instance resizable_dec S p s de v : Decision (resizable S p s de v).
Proof. unfold resizable. simpl. apply _. Defined.
#[export] Instance legal_dec S U op : Decision (legal S U op).
Proof. destruct op as [p o i d|i|p s de|i|x|i k]; simpl; try apply _. destruct (S !! s); apply _. Defined.

Definition next_state (S : intervals) (U : gset Z) (op : intvl_op) : intervals * gset Z :=
  match op with
  | AddIntvl p _ i d => (<[start i := (p, (i, d))]> S, {[p]} ∪ U)
  | DelIntvl i => (delete (start i) S, U)
  | ResizeIntvl p s de => (alter (resized de) s S, U)
  | _ => (S, U)
  end.

(** The intervals with their records. *)
Definition entries_of (S : intervals) (js : list (interval_t * Z)) : Prop :=
  forall j p, (j, p) ∈ js <-> exists s d, S !! s = Some (p, (j, d)).

Definition answer (S : intervals) (op : intvl_op) (r : intvl_res) : Prop :=
  match op with
  | AddIntvl _ _ _ _ | DelIntvl _ | ResizeIntvl _ _ _ => r = RVoid
  | FindIntvl i =>
      (exists s p j d, S !! s = Some (p, (j, d)) /\ overlaps i j = true /\ r = RPtr p) \/
      ((forall s p j d, S !! s = Some (p, (j, d)) -> overlaps i j = false) /\ r = RPtr 0)
  | GetPoint x =>
      (exists s p j d, S !! s = Some (p, (j, d)) /\ contains_point j x = true /\ r = RPtr d) \/
      ((forall s p j d, S !! s = Some (p, (j, d)) -> contains_point j x = false) /\ r = RPtr 0)
  | FreeGap i k =>
      exists g q js, entries_of S js /\ r = RGap (mk_intvl g (g + (end_ i - start i))) q /\
        free_at js.*1 (start i) (end_ i - start i) (2 ^ k) g /\
        (forall c, free_at js.*1 (start i) (end_ i - start i) (2 ^ k) c -> g <= c) /\
        g + (end_ i - start i) < 2 ^ 64 /\ just_before js g (end_ i - start i) q
  end.

Fixpoint legal_run (S : intervals) (U : gset Z) (ops : list intvl_op) : Prop :=
  match ops with
  | [] => True
  | op :: ops' => legal S U op /\ legal_run (next_state S U op).1 (next_state S U op).2 ops'
  end.

Fixpoint final_state (S : intervals) (U : gset Z) (ops : list intvl_op) : intervals * gset Z :=
  match ops with
  | [] => (S, U)
  | op :: ops' => final_state (next_state S U op).1 (next_state S U op).2 ops'
  end.

#[export] Instance legal_run_dec S U ops : Decision (legal_run S U ops).
Proof. revert S U. induction ops; simpl; apply _. Defined.

Fixpoint answers (S : intervals) (U : gset Z) (ops : list intvl_op) (rs : list intvl_res) : Prop :=
  match ops, rs with
  | [], [] => True
  | op :: ops', r :: rs' => answer S op r /\ answers (next_state S U op).1 (next_state S U op).2 ops' rs'
  | _, _ => False
  end.

(** ** The tree and the map *)

(** The intervals of a tree whose nodes are [M]. *)
Definition stored (t : rb_tree_t) (M : gmap Z Z) : intervals := omap (fun p => (p,.) <$> views t !! p) M.

Definition intvl_holds (t : rb_tree_t) (S : intervals) (U : gset Z) : Prop :=
  exists sh n M, intvl_ok t sh n M /\ nodes t = 2 * Z.of_nat (length (inorder sh)) /\
    S = stored t M /\ U = dom (views t).

Lemma stored_in t sh n M s p j d : intvl_ok t sh n M ->
  stored t M !! s = Some (p, (j, d)) <->
  exists x, x ∈ inorder sh /\ data_at t x = p /\ ival t x = j /\ views t !! p = Some (j, d) /\ start j = s.
Proof.
  intros Hok. pose proof (ok_map _ _ _ _ Hok) as HM. apply intvl_ok_parts in Hok as (_ & Hl & _ & _).
  unfold stored. rewrite lookup_omap. split.
  - intros H. destruct (M !! s) as [p'|] eqn:Hs; [|done]. simpl in H.
    destruct (views t !! p') as [[j' d']|] eqn:Hv; [|done]. simpl in H. injection H as -> -> ->.
    apply HM in Hs as (x & m & Hx & Hm & <- & <-). exists x. split; [done|].
    destruct (ls_node _ _ Hl x Hx) as (m' & j' & d' & Hm' & _ & Hv' & Hk & _). assert (m' = m) as -> by congruence.
    assert ((j', d') = (j, d)) as [= -> ->] by congruence. unfold data_at, ival, data_at. rewrite Hm. simpl. by rewrite Hv.
  - intros (x & Hx & <- & Hi & Hv & <-). destruct (ls_node _ _ Hl x Hx) as (m & j' & d' & Hm & _ & Hv' & Hk & _).
    assert (Ed : data_at t x = data m) by (unfold data_at; by rewrite Hm). rewrite Ed in *.
    assert ((j', d') = (j, d)) as [= -> ->] by congruence.
    assert (M !! start j = Some (data m)) as -> by (apply HM; by exists x, m). simpl. by rewrite Hv.
Qed.

Lemma stored_entries t sh n M : intvl_ok t sh n M -> entries_of (stored t M) (with_record t <$> inorder sh).
Proof.
  intros Hok j p. setoid_rewrite (stored_in t sh n M _ _ _ _ Hok). rewrite list_elem_of_fmap. split.
  - intros (x & [= -> ->] & Hx). pose proof (intvl_ok_parts _ _ _ _ Hok) as (_ & Hl & _ & _).
    destruct (ls_node _ _ Hl x Hx) as (m & j & d & Hm & _ & Hv & _). exists (start j), d, x.
    unfold ival, data_at. rewrite Hm. simpl. by rewrite Hv.
  - intros (s & d & x & Hx & <- & <- & _). by exists x.
Qed.

(** What a tree says of its intervals. *)
Lemma holds_interval t S U s p j d : intvl_holds t S U -> S !! s = Some (p, (j, d)) ->
  start j = s /\ proper j /\ end_ j <= UINT64_MAX /\ p <> 0 /\ (p ∈ U) /\
  exists o, objs t !! p = Some o /\ interval o = j /\ idata o = d.
Proof.
  intros (sh & n & M & Hok & _ & -> & ->) (x & Hx & Hp & Hj & Hv & Hs)%(stored_in _ _ _ _ _ _ _ _ Hok).
  pose proof (intvl_ok_parts _ _ _ _ Hok) as (_ & Hl & _ & _). destruct (listed_end t _ x Hl Hx) as [Hpr He]. rewrite Hj in *.
  destruct (listed_at t _ x Hl Hx) as (m & o & Hm & Ho & Hd & Ed & Ei & _). rewrite Ed in Hp. subst p.
  do 4 (split; [done|]). split; [by apply elem_of_dom_2 in Hv|]. exists o. split; [done|]. split; [congruence|].
  unfold views in Hv. rewrite lookup_fmap, Ho in Hv. by injection Hv.
Qed.

Lemma holds_apart t S U s s' p p' j j' d d' : intvl_holds t S U ->
  S !! s = Some (p, (j, d)) -> S !! s' = Some (p', (j', d')) -> s <> s' -> overlaps j j' = false /\ p <> p'.
Proof.
  intros (sh & n & M & Hok & _ & -> & ->) (x & Hx & Hp & <- & Hv & Hs)%(stored_in _ _ _ _ _ _ _ _ Hok)
    (y & Hy & Hp' & <- & Hv' & Hs')%(stored_in _ _ _ _ _ _ _ _ Hok) Hne.
  pose proof (intvl_ok_parts _ _ _ _ Hok) as (_ & Hl & _ & _).
  assert (Hxy : x <> y) by (intros ->; congruence). split; [|rewrite <- Hp, <- Hp'; by apply (listed_apart t _ x y Hl)].
  destruct (listed_end t _ x Hl Hx) as [Px _]. destruct (listed_end t _ y Hl Hy) as [Py _]. apply apart; [done..|].
  apply list_elem_of_split in Hx as (a & b & E). rewrite E in Hl, Hy. destruct (listed_mid _ _ _ _ Hl) as [Ha Hb].
  apply elem_of_app in Hy as [Hy|[->|Hy]%elem_of_cons]; [right; by apply Ha|done|left; by apply Hb].
Qed.

(** ** The operations *)

Lemma rb_ok_records (T1 T2 : tree_inv intvl_events) t o sh n M :
  rb_ok (TI := T1) t sh n M -> @ti _ T2 (with_objs t o) sh -> rb_ok (TI := T2) (with_objs t o) sh n M.
Proof. intros [[[? _] ? ? ?] ? ? [] ? ? ? ?] H2. by repeat (split; try done). Qed.

Lemma create_intvl_ok : intvl_ok create_intvl_tree E 0 ∅.
Proof.
  destruct create_ok as [[[? _] ? ? ?] ? ? [] ? ? ? ?]. repeat (split; try done).
  - intros x Hx. simpl in Hx. set_solver.
  - simpl. apply NoDup_nil_2.
  - simpl. constructor.
  - intros x Hx. simpl in Hx. set_solver.
Qed.

(** A record that no node has. *)
Lemma put_new_ok t sh n M p o :
  intvl_ok t sh n M -> objs t !! p = None -> intvl_ok (put_obj t p o) sh n M.
Proof.
  intros Hok Hp. pose proof (intvl_ok_parts _ _ _ _ Hok) as (_ & Hl & Hb & _).
  assert (Hv : views (put_obj t p o) = <[p := view o]> (views t)) by (unfold views, put_obj; simpl; by rewrite fmap_insert).
  assert (Hnp : views t !! p = None) by (unfold views; by rewrite lookup_fmap, Hp).
  assert (Hd : forall x, x ∈ inorder sh -> data_at t x <> p).
  { intros x Hx. destruct (listed_at t _ x Hl Hx) as (m & o' & _ & Ho & _ & -> & _). congruence. }
  assert (Hi : forall x, x ∈ inorder sh -> ival (put_obj t p o) x = ival t x).
  { intros x Hx. unfold ival. rewrite Hv. change (data_at (put_obj t p o) x) with (data_at t x).
    by rewrite lookup_insert_ne by (symmetry; auto). }
  assert (Hown : owned None t (inorder sh)) by (by destruct Hok as [[[_ (_ & _ & _ & ?)] _ _ _]]).
  apply (rb_ok_records (intvl_inv (views t) None)); [done|]. fold (put_obj t p o). split; [|split; [|split; [done|]]].
  - destruct Hl as [H1 H2 H3 H4]. split; [done| |done|].
    + intros x Hx. destruct (H2 x Hx) as (m & j & d & Hm & Hz & Hj & Hrest). exists m, j, d. do 2 (split; [done|]). split; [|done].
      rewrite Hv, lookup_insert_ne; [done|]. specialize (Hd x Hx). unfold data_at in Hd. rewrite Hm in Hd. by intros ->.
    + eapply strongly_sorted_impl; [|exact H4]. intros x y Hx Hy. simpl. by rewrite !Hi.
  - apply (bounds_same _ t); [|done]. intros x Hx. split; [by apply Hi|]. unfold imax_at.
    change (data_at (put_obj t p o) x) with (data_at t x). simpl. by rewrite lookup_insert_ne by (symmetry; auto).
  - intros x Hx. unfold owners, put_obj. simpl. rewrite fmap_insert. change (data_at (with_objs _ _) x) with (data_at t x).
    rewrite lookup_insert_ne by (symmetry; auto). by apply Hown.
Qed.

Lemma insert_intvl t S U p o i d :
  intvl_holds t S U -> nodes t + 2 < 2 ^ 64 -> legal S U (AddIntvl p o i d) ->
  exists t', intvl_tree_insert t p o i d = Ret t' /\
    intvl_holds t' (<[start i := (p, (i, d))]> S) ({[p]} ∪ U) /\ nodes t' = nodes t + 2.
Proof.
  intros (sh & n & M & Hok & Hn & -> & ->) H64 (Hp0 & HpU & Hi & Hie & Hnone).
  apply not_elem_of_dom in HpU. assert (Ho : objs t !! p = None) by (unfold views in HpU; rewrite lookup_fmap in HpU; by destruct (objs t !! p)).
  set (ob := mk_intvl_node (node o) i (imax o) (imin o) d). set (t0 := put_obj t p ob).
  pose proof (put_new_ok t sh n M p ob Hok Ho) as Hok0. fold t0 in Hok0.
  assert (Hv : views t0 = <[p := (i, d)]> (views t)) by (unfold views, t0, put_obj; simpl; by rewrite fmap_insert).
  pose proof (intvl_ok_parts _ _ _ _ Hok) as (_ & Hl & _ & _).
  assert (Hnew : forall x, x ∈ inorder sh -> data_at t x <> p /\ ival t0 x = ival t x /\ overlaps (ival t x) i = false).
  { intros x Hx. destruct (listed_at t _ x Hl Hx) as (m & o' & Hm & Ho' & _ & Ed & _).
    assert (Hne : data_at t x <> p) by congruence. split; [done|]. split.
    - unfold ival. rewrite Hv. change (data_at t0 x) with (data_at t x). by rewrite lookup_insert_ne by done.
    - destruct (ls_node _ _ Hl x Hx) as (m' & j & dj & Hm' & _ & Hj & _). assert (m' = m) as -> by congruence.
      assert (ival t x = j) as Ej by (unfold ival; rewrite Ed, Hj; done). rewrite Ej.
      apply (Hnone (start j) (data m, (j, dj))). apply (stored_in t sh n M _ _ _ _ Hok). exists x. by rewrite Ej. }
  assert (HMi : M !! start i = None).
  { destruct (M !! start i) as [p'|] eqn:HM; [|done]. apply (ok_map _ _ _ _ Hok) in HM as (x & m & Hx & Hm & Hk & _).
    destruct (Hnew x Hx) as (_ & _ & Hov). destruct (listed_end t _ x Hl Hx) as [Hpx _].
    assert (start (ival t x) = start i) as Es by (rewrite <- (key_start t _ x Hl Hx); unfold key_at; by rewrite Hm).
    apply apart in Hov; [|done..]. unfold proper in *. lia. }
  destruct (insert_step (TI := intvl_inv (views t0) None) t0 sh n M (start i) p Hok0 HMi) as (t' & sh' & n' & Hrun & Hok' & Hlen & Hn');
    [simpl; lia|simpl; lia|..].
  { exists (new_node t0 (start i) p), i, d. split; [simpl; apply lookup_insert_eq|]. split; [done|].
    split; [change (views t0 !! p = Some (i, d)); rewrite Hv; apply lookup_insert_eq|]. do 4 (split; [done|]).
    intros x Hx. destruct (fresh_out _ _ _ _ Hok0) as [Hf _].
    assert (Hxd : data_at (alloc t0 (new_node t0 (start i) p)) x = data_at t x).
    { assert (fresh t0 <> x) by (intros <-; done). unfold data_at, alloc. cbn [store_of]. by rewrite lookup_insert_ne. }
    destruct (Hnew x Hx) as (H1 & H2 & H3). rewrite Hxd. split; [done|]. unfold ival. rewrite Hxd.
    unfold ival in H2. change (data_at t0 x) with (data_at t x) in H2.
    change (views (alloc t0 (new_node t0 (start i) p))) with (views t0). by rewrite H2. }
  assert (Ev : views t' = views t0) by (by destruct Hok' as [[[_ (_ & _ & ? & _)] _ _ _]]).
  exists t'. split; [done|]. split; [|done]. exists sh', n', (<[start i := p]> M). unfold intvl_ok. rewrite Ev.
  split; [done|]. split; [simpl in Hn'; lia|]. split; [|rewrite Hv; by rewrite dom_insert_L].
  apply map_eq. intros s. unfold stored. rewrite Ev, Hv. destruct (decide (s = start i)) as [->|Hs].
  - rewrite lookup_omap, !lookup_insert_eq. simpl. by rewrite lookup_insert_eq.
  - rewrite lookup_omap, !lookup_insert_ne, lookup_omap by done. destruct (M !! s) as [p'|] eqn:HM; [|done]. simpl.
    apply (ok_map _ _ _ _ Hok) in HM as (x & m & Hx & Hm & _ & <-). destruct (Hnew x Hx) as (H1 & _).
    unfold data_at in H1. rewrite Hm in H1. simpl in H1. by rewrite lookup_insert_ne by done.
Qed.

Lemma delete_intvl t S U i :
  intvl_holds t S U -> nodes t + 2 < 2 ^ 64 -> legal S U (DelIntvl i) ->
  exists t', intvl_tree_delete t i = Ret t' /\ intvl_holds t' (delete (start i) S) U /\ nodes t' = nodes t - 2.
Proof.
  intros (sh & n & M & Hok & Hn & -> & ->) H64 [v Hs]. unfold stored in Hs. rewrite lookup_omap in Hs.
  destruct (M !! start i) as [p|] eqn:HM; [|done]. clear Hs.
  destruct (delete_step (TI := intvl_inv (views t) None) t sh n M (start i) p Hok HM) as (t' & sh' & n' & Hrun & Hok' & [Hn' _] & Hlen);
    [by split; lia|].
  assert (Ev : views t' = views t) by (by destruct Hok' as [[[_ (_ & _ & ? & _)] _ _ _]]).
  exists t'. unfold intvl_tree_delete. rewrite Hrun. split; [done|]. split; [|lia].
  exists sh', n', (delete (start i) M). unfold intvl_ok, stored. rewrite Ev. split; [done|]. split; [done|]. split; [|done].
  by rewrite omap_delete.
Qed.

(** The record of [x] with another end that meets no other interval. *)
Lemma resize_listed t L x i p d :
  listed t L -> x ∈ L -> data_at t x = p -> start i = start (ival t x) -> proper i -> end_ i <= UINT64_MAX ->
  (forall y, y ∈ L -> y <> x -> overlaps (ival t y) i = false) ->
  forall t1, store_of t1 = store_of t -> nil t1 = nil t -> views t1 = <[p := (i, d)]> (views t) -> listed t1 L.
Proof.
  intros Hl Hx Hp Hs Hi Hie Hno t1 Est Enil Ev.
  assert (Hd : forall y, data_at t1 y = data_at t y) by (intros y; unfold data_at; by rewrite Est).
  assert (Ex : ival t1 x = i) by (unfold ival; rewrite Hd, Hp, Ev, lookup_insert_eq; done).
  assert (Ey : forall y, y ∈ L -> y <> x -> ival t1 y = ival t y).
  { intros y Hy Hne. unfold ival. rewrite Hd, Ev, lookup_insert_ne; [done|]. rewrite <- Hp. apply not_eq_sym. by apply (listed_apart t L). }
  pose proof Hl as [H1 H2 H3 H4]. split.
  - by rewrite Est, Enil.
  - intros y Hy. rewrite Est, Ev. destruct (H2 y Hy) as (n & j & dj & Hn & Hz & Hj & Hk & Hrest).
    destruct (decide (y = x)) as [->|Hne].
    + assert (Ed : data n = p) by (rewrite <- Hp; unfold data_at; by rewrite Hn). exists n, i, d. rewrite Ed in *.
      rewrite lookup_insert_eq. do 3 (split; [done|]). split; [|done]. rewrite Hk, Hs. unfold ival. by rewrite Hp, Hj.
    + exists n, j, dj. do 2 (split; [done|]). split; [|done]. rewrite lookup_insert_ne; [done|].
      pose proof (listed_apart t L y x Hl Hy Hx Hne) as E. rewrite Hp in E. unfold data_at in E. rewrite Hn in E. by apply not_eq_sym.
  - replace (data_at t1 <$> L) with (data_at t <$> L); [done|]. by apply list_fmap_ext.
  - apply list_elem_of_split in Hx as (a & b & ->). destruct (listed_mid _ _ _ _ Hl) as [Ha Hb].
    assert (Hnd : forall y, y ∈ a ++ b -> y <> x).
    { pose proof H3 as Hnd. rewrite fmap_app, fmap_cons, <- Permutation_middle, <- fmap_app in Hnd.
      apply NoDup_cons in Hnd as [Hnd _]. intros y Hy ->. apply Hnd. by apply list_elem_of_fmap_2. }
    apply StronglySorted_app in H4 as (Hab & Sa & Sb). apply StronglySorted_cons in Sb as [_ Sb].
    assert (E : forall y, y ∈ a ++ b -> ival t1 y = ival t y) by (intros y Hy; apply Ey; [set_solver|by apply Hnd]).
    apply StronglySorted_app. split; [|split].
    + intros y z Hy [->|Hz]%elem_of_cons; [rewrite Ex, Hs, E by set_solver; by apply Ha|].
      rewrite !E by set_solver. apply Hab; [done|set_solver].
    + eapply strongly_sorted_impl; [|exact Sa]. intros y z Hy Hz. simpl. by rewrite !E by set_solver.
    + apply StronglySorted_cons. split; [|eapply strongly_sorted_impl; [|exact Sb]; intros y z Hy Hz; simpl; by rewrite !E by set_solver].
      rewrite Forall_forall. intros y Hy. rewrite Ex, E by set_solver. specialize (Hb y Hy).
      pose proof (Hno y ltac:(set_solver) (Hnd y ltac:(set_solver))) as Hov.
      destruct (listed_end t _ y Hl) as [Py _]; [set_solver|]. destruct (listed_end t _ x Hl) as [Px _]; [set_solver|].
      apply apart in Hov; [|done..]. unfold proper in *. lia.
Qed.

(** Recalculation from [x], whose record alone was written. *)
Lemma recalc_written t sh n M x o :
  intvl_ok t sh n M -> x ∈ inorder sh -> listed (with_objs t o) (inorder sh) -> owners (with_objs t o) = owners t ->
  start (ival (with_objs t o) x) = start (ival t x) ->
  (forall L, (forall w, w ∈ L -> w ∈ inorder sh) -> x ∉ L -> same_objs t (with_objs t o) L) ->
  exists t', recalculate_min_max (S (walk_fuel (with_objs t o))) (with_objs t o) x = Ret t' /\
    views t' = views (with_objs t o) /\ nodes t' = nodes t /\ intvl_ok t' sh n M.
Proof.
  intros Hok Hx Hl1 Ho Hst Same. pose proof (intvl_ok_parts _ _ _ _ Hok) as (Hs & Hl & Hb & _).
  assert (Hown : owned None t (inorder sh)) by (by destruct Hok as [[[_ (_ & _ & _ & ?)] _ _ _]]).
  set (t1 := with_objs t o) in *. destruct (split_at sh x Hx) as (ctx & l & r & ->).
  pose proof (proj2 Hs) as Hnd. rewrite plug_perm in Hnd. apply NoDup_app in Hnd as (_ & Dc & Hnd). simpl in Hnd.
  apply NoDup_app in Hnd as (_ & Dl & Hnd). apply NoDup_cons in Hnd as [Dr _].
  assert (Hin : forall v, v ∈ ctx_ids ctx \/ v ∈ inorder l \/ v ∈ inorder r -> v ∈ inorder (plug ctx (T l x r)))
    by (intros v Hv; rewrite plug_perm; simpl; clear - Hv; set_solver).
  assert (Sc : same_objs t t1 (ctx_ids ctx))
    by (apply Same; [naive_solver|intros H; apply (Dc x H); simpl; clear; set_solver]).
  assert (Sl : same_objs t t1 (inorder l)) by (apply Same; [naive_solver|intros H; apply (Dl x H); clear; set_solver]).
  assert (Sr : same_objs t t1 (inorder r)) by (apply Same; [naive_solver|done]).
  rewrite bounds_plug in Hb. destruct Hb as ((_ & Bl & Br) & Bs & _).
  destruct (recalc_ok None ctx t1 l x r (S (walk_fuel t1))) as (t' & Hrun & R & B); try done.
  - rewrite Hst. by apply (bounds_same _ t).
  - rewrite (above_same t t1 ctx _ Sc). by apply (bounds_same _ t).
  - by apply (sides_same _ t).
  - pose proof (ctx_fuel t ctx l x r Hs). unfold walk_fuel, t1. simpl. lia.
  - exists t'. pose proof R as (o' & -> & Hv & Hw). split; [done|]. split; [done|]. split; [done|].
    change (intvl_ok (with_objs t o') (plug ctx (T l x r)) n M).
    apply (rb_ok_records (intvl_inv (views t) None) (intvl_inv (views (with_objs t o')) None)); [done|].
    split; [by apply (revised_listed t1)|]. split; [done|]. split; [done|].
    apply (owned_revised _ t1); [done|]. intros y Hy. rewrite Ho. by apply Hown.
Qed.

Lemma resize_intvl t S U p s de :
  intvl_holds t S U -> legal S U (ResizeIntvl p s de) ->
  exists t', intvl_tree_update_interval t p 0 de = Ret t' /\ intvl_holds t' (alter (resized de) s S) U /\ nodes t' = nodes t.
Proof.
  intros (sh & n & M & Hok & Hn & -> & ->) Hleg. simpl in Hleg.
  destruct (stored t M !! s) as [[p' [j d]]|] eqn:Hst; [|done]. destruct Hleg as (E & Hi & Hie & Hnone). simpl in *. subst p'.
  pose proof Hst as (x & Hx & Hp & Hj & Hv & <-)%(stored_in t sh n M _ _ _ _ Hok).
  pose proof (intvl_ok_parts _ _ _ _ Hok) as (Hs & Hl & Hb & _).
  assert (Hown : owned None t (inorder sh)) by (by destruct Hok as [[[_ (_ & _ & _ & ?)] _ _ _]]).
  destruct (listed_at t _ x Hl Hx) as (m & o & Hm & Ho & _ & Ed & Ei & _).
  rewrite Ed in Hp. subst p.
  assert (Hno : node o = x).
  { destruct (Hown x Hx) as [?|H]; [done|]. unfold owners in H. rewrite lookup_fmap, Ed, Ho in H. by injection H. }
  assert (Eo : idata o = d). { unfold views in Hv. rewrite lookup_fmap, Ho in Hv. by injection Hv. }
  pose proof Hi as Hi'. unfold proper in Hi'. simpl in Hi', Hie.
  set (i := mk_intvl (start j) (end_ j + de)) in *. unfold intvl_tree_update_interval.
  rewrite (deref_data _ _ _ Ho). cbn [mbind outcome_bind]. rewrite <- Ei, Hj.
  rewrite (wrap_small 64 (start j + 0)), (wrap_small 64 (end_ j + de)) by (unfold fits; lia).
  rewrite Z.add_0_r. fold i. rewrite Hno. set (o1 := mk_intvl_node _ _ _ _ _). set (t1 := put_obj t (data m) o1).
  assert (Ev : views t1 = <[data m := (i, d)]> (views t)).
  { unfold views, t1, put_obj. simpl. rewrite fmap_insert. unfold view at 1, o1. simpl. by rewrite Eo. }
  assert (Hapart : forall y, y ∈ inorder sh -> y <> x -> overlaps (ival t y) i = false).
  { intros y Hy Hne. destruct (ls_node _ _ Hl y Hy) as (my & jy & dy & Hmy & _ & Hvy & _).
    assert (Ey : ival t y = jy /\ data_at t y = data my) by (unfold ival, data_at; rewrite Hmy; simpl; by rewrite Hvy).
    destruct Ey as [Ey Edy]. rewrite Ey. apply (Hnone (start jy) (data my, (jy, dy))).
    rewrite lookup_delete_ne; [apply (stored_in t sh n M _ _ _ _ Hok); exists y; by rewrite Edy|].
    intros Eq. assert (H1 : stored t M !! start jy = Some (data my, (jy, dy)))
      by (apply (stored_in t sh n M _ _ _ _ Hok); exists y; by rewrite Edy).
    rewrite <- Eq, Hst in H1. injection H1 as H1 _ _. apply (listed_apart t _ y x Hl Hy Hx Hne). congruence. }
  pose proof (resize_listed t (inorder sh) x i (data m) d Hl Hx Ed ltac:(by rewrite Hj) Hi Hie Hapart t1 eq_refl eq_refl Ev) as Hl1.
  destruct (put_at t (inorder sh) x m o o1 Hl Hx Hm Ho) as (_ & _ & _ & K1). fold t1 in K1.
  assert (Ei1 : ival t1 x = i) by (unfold ival; change (data_at t1 x) with (data_at t x); rewrite Ed, Ev, lookup_insert_eq; done).
  assert (Same : forall L, (forall w, w ∈ L -> w ∈ inorder sh) -> x ∉ L -> same_objs t t1 L).
  { intros L HL HxL y Hy. assert (y <> x) by (by intros ->). split; [|by apply K1; [apply HL|]].
    unfold ival. change (data_at t1 y) with (data_at t y). rewrite Ev, lookup_insert_ne; [done|].
    rewrite <- Ed. apply not_eq_sym, (listed_apart t (inorder sh)); auto. }
  destruct (recalc_written t sh n M x _ Hok Hx Hl1) as (t' & Hrun & Hv' & Hn' & Hok');
    [by apply (owners_put t _ o)|by fold (put_obj t (data m) o1); fold t1; rewrite Ei1, Hj|done|].
  exists t'. split; [exact Hrun|]. split; [|done]. fold (put_obj t (data m) o1) in Hv'. fold t1 in Hv'.
  exists sh, n, M. split; [done|]. split; [lia|]. split; [|rewrite Hv', Ev, dom_insert_L; apply elem_of_dom_2 in Hv; set_solver].
  apply map_eq. intros s. destruct (decide (s = start j)) as [->|Hne].
  - rewrite lookup_alter_eq, Hst. symmetry. simpl. unfold resized. simpl. unfold stored in Hst |- *.
    rewrite lookup_omap in Hst |- *. destruct (M !! start j) as [p|] eqn:HM; [|done]. simpl in Hst |- *. rewrite Hv', Ev.
    assert (p = data m) as -> by (destruct (views t !! p); [by injection Hst|done]). by rewrite lookup_insert_eq.
  - rewrite lookup_alter_ne by done. unfold stored. rewrite !lookup_omap. destruct (M !! s) as [p|] eqn:HM; [|done]. simpl.
    rewrite Hv', Ev, lookup_insert_ne; [done|]. intros <-. apply (ok_map _ _ _ _ Hok) in HM as (y & my & Hy & Hmy & Hk & Ep).
    assert (y = x) as ->.
    { destruct (decide (y = x)) as [->|Hxy]; [done|]. destruct (listed_apart t _ y x Hl Hy Hx Hxy). unfold data_at. rewrite Hmy, Hm. simpl. congruence. }
    apply Hne. rewrite <- Hk, <- Hj, <- (key_start t _ x Hl Hx). unfold key_at. by rewrite Hmy.
Qed.

(** The record a search for an overlap ends at. *)
Lemma overlap_record t sh n M i y :
  intvl_ok t sh n M -> overlap_in t (inorder sh) i y ->
  (exists s p j d, stored t M !! s = Some (p, (j, d)) /\ overlaps i j = true /\ y <> nil t /\
     exists m o, store_of t !! y = Some m /\ data m = p /\ objs t !! p = Some o /\ idata o = d) \/
  (y = nil t /\ forall s p j d, stored t M !! s = Some (p, (j, d)) -> overlaps i j = false).
Proof.
  intros Hok Hy. pose proof (intvl_ok_parts _ _ _ _ Hok) as ([Hr _] & Hl & _ & _).
  pose proof (repr_not_nil _ _ _ _ _ Hr) as Hnil. destruct Hy as [[Hy Ho]|[-> Hno]]; [left|right; split; [done|]].
  - destruct (listed_at t _ y Hl Hy) as (m & o & Hm & Hob & _ & Ed & Ei & _).
    exists (start (ival t y)), (data m), (ival t y), (idata o). split; [|split; [done|split; [by intros ->|by exists m, o]]].
    apply (stored_in t sh n M _ _ _ _ Hok). exists y. do 3 (split; [done|]). split; [|done].
    unfold views. by rewrite lookup_fmap, Hob, Ei.
  - intros s p j d (x & Hx & _ & <- & _)%(stored_in t sh n M _ _ _ _ Hok). by apply Hno.
Qed.

Lemma find_intvl t S U i : intvl_holds t S U -> proper i ->
  exists p, intvl_tree_find t i = Ret p /\ answer S (FindIntvl i) (RPtr p).
Proof.
  intros (sh & n & M & Hok & _ & -> & _) Hi. destruct (overlap_root t sh n M i Hok Hi) as (y & Hrun & Hy).
  unfold intvl_tree_find. rewrite Hrun. simpl.
  destruct (overlap_record t sh n M i y Hok Hy) as [(s & p & j & d & Hs & Ho & _ & m & o & Hm & Hp & _)|[-> Hno]].
  - rewrite (rd_at _ _ _ Hm). exists p. split; [by rewrite <- Hp|]. left. by exists s, p, j, d.
  - destruct (ok_nil _ _ _ _ Hok) as (nn & Hnn & Hd). rewrite (rd_at _ _ _ Hnn). simpl. rewrite Hd. exists 0.
    split; [done|]. by right.
Qed.

Lemma point_overlaps x j : 0 <= x < UINT64_MAX -> proper j -> overlaps (mk_intvl x (x + 1)) j = contains_point j x.
Proof.
  intros Hx Hj. rewrite overlaps_proper; [|unfold proper; simpl; lia|done]. unfold contains_point. simpl. rewrite andb_comm. zcases.
Qed.

Lemma get_point_intvl t S U x : intvl_holds t S U -> 0 <= x < UINT64_MAX ->
  exists d, intvl_tree_get_point t x = Ret d /\ answer S (GetPoint x) (RPtr d).
Proof.
  intros (sh & n & M & Hok & _ & -> & _) Hx. unfold intvl_tree_get_point.
  rewrite (wrap_small 64 (x + 1)) by (unfold fits; lia). set (i := mk_intvl x (x + 1)).
  destruct (overlap_root t sh n M i Hok) as (y & Hrun & Hy); [unfold proper; simpl; lia|]. rewrite Hrun. simpl.
  assert (Hp : forall s p j d, stored t M !! s = Some (p, (j, d)) -> overlaps i j = contains_point j x).
  { intros s p j d (z & Hz & _ & <- & _)%(stored_in t sh n M _ _ _ _ Hok). apply point_overlaps; [done|].
    pose proof (intvl_ok_parts _ _ _ _ Hok) as (_ & Hl & _ & _). by apply (listed_end t _ z Hl). }
  destruct (overlap_record t sh n M i y Hok Hy) as [(s & p & j & d & Hs & Ho & Hne & m & o & Hm & Hpm & Hob & Hd)|[-> Hno]].
  - rewrite (proj2 (Nat.eqb_neq _ _)) by done. unfold obj_of. rewrite (rd_at _ _ _ Hm). simpl.
    rewrite Hpm, (deref_data _ _ _ Hob). simpl. rewrite Hd. exists d. split; [done|]. left. exists s, p, j, d.
    by rewrite <- (Hp _ _ _ _ Hs).
  - rewrite Nat.eqb_refl. exists 0. split; [done|]. right. split; [|done]. intros s p j d Hs. rewrite <- (Hp _ _ _ _ Hs). by apply (Hno s p j d).
Qed.

Lemma free_gap_intvl t S U i k : intvl_holds t S U -> legal S U (FreeGap i k) ->
  exists g q, intvl_tree_find_free_gap t i (2 ^ k) = Ret (g, q) /\ answer S (FreeGap i k) (RGap g q).
Proof.
  intros (sh & n & M & Hok & _ & -> & _) (Hi & Hie & Hk & [Hr HrS] & Hne).
  pose proof (stored_entries t sh n M Hok) as Hent. destruct sh as [|l x r].
  - assert (HE : stored t M = ∅).
    { apply map_eq. intros s. rewrite lookup_empty. destruct (stored t M !! s) as [[p [j d]]|] eqn:Hs; [|done].
      apply (stored_in t E n M _ _ _ _ Hok) in Hs as (y & Hy & _). simpl in Hy. set_solver. }
    destruct Hne as [Hne|Hal]; [done|]. pose proof (intvl_ok_parts _ _ _ _ Hok) as ([Hroot _] & _). simpl in Hroot.
    exists i, 0. unfold intvl_tree_find_free_gap. rewrite Hroot, Nat.eqb_refl. split; [done|].
    exists (start i), 0, []. split; [done|]. split; [f_equal; destruct i; simpl; f_equal; lia|]. unfold proper in *.
    split; [split; [lia|split; [done|set_solver]]|]. split; [by intros c (? & _)|]. split; [lia|]. left. split; [done|set_solver].
  - destruct (free_gap_ok t (T l x r) n M i k Hok) as (g & q & Hrun & Hf & Hleast & Hend & Hq); try done.
    + simpl. by destruct (inorder l).
    + intros y Hy. pose proof (intvl_ok_parts _ _ _ _ Hok) as (_ & Hl & _ & _).
      destruct (ls_node _ _ Hl y Hy) as (m & j & d & Hm & _ & Hv & _). 
      assert (Hst : stored t M !! start j = Some (data m, (j, d))).
      { apply (stored_in t _ n M _ _ _ _ Hok). exists y. unfold ival, data_at. rewrite Hm. simpl. by rewrite Hv. }
      specialize (HrS _ _ Hst). unfold ival, data_at. rewrite Hm. simpl. by rewrite Hv.
    + exists (mk_intvl g (g + (end_ i - start i))), q. split; [done|]. by exists g, q, (with_record t <$> inorder (T l x r)).
Qed.

Lemma step_intvl_ok t S U op :
  intvl_holds t S U -> nodes t + 2 < 2 ^ 64 -> legal S U op ->
  exists r t', step_intvl t op = Ret (r, t') /\ answer S op r /\
    intvl_holds t' (next_state S U op).1 (next_state S U op).2 /\ nodes t' <= nodes t + 2.
Proof.
  intros Hh H64 Hleg. destruct op as [p o i d|i|p s de|i|x|i k]; cbn [step_intvl next_state fst snd].
  - destruct (insert_intvl t S U p o i d Hh H64 Hleg) as (t' & -> & Hh' & Hn). exists RVoid, t'. do 3 (split; [done|]). lia.
  - destruct (delete_intvl t S U i Hh H64 Hleg) as (t' & -> & Hh' & Hn). exists RVoid, t'. do 3 (split; [done|]). lia.
  - destruct (resize_intvl t S U p s de Hh Hleg) as (t' & -> & Hh' & Hn). exists RVoid, t'. do 3 (split; [done|]). lia.
  - destruct (find_intvl t S U i Hh Hleg) as (p & -> & Ha). exists (RPtr p), t. do 3 (split; [done|]). lia.
  - destruct (get_point_intvl t S U x Hh Hleg) as (d & -> & Ha). exists (RPtr d), t. do 3 (split; [done|]). lia.
  - destruct (free_gap_intvl t S U i k Hh Hleg) as (g & q & -> & Ha). exists (RGap g q), t. do 3 (split; [done|]). lia.
Qed.

Lemma run_intvl_ok ops : forall t S U,
  intvl_holds t S U -> nodes t + 2 * Z.of_nat (length ops) < 2 ^ 64 -> legal_run S U ops ->
  exists rs t', run_intvl t ops = Ret (rs, t') /\ answers S U ops rs /\
    intvl_holds t' (final_state S U ops).1 (final_state S U ops).2.
Proof.
  induction ops as [|op ops IH]; intros t S U Hh Hn Hl; simpl in Hn, Hl |- *.
  - by exists [], t.
  - destruct Hl as [Hop Hops]. destruct (step_intvl_ok t S U op Hh) as (r & t1 & -> & Ha & Hh1 & Hn1); [lia|done|].
    simpl. destruct (IH t1 _ _ Hh1) as (rs & t' & -> & Hrs & Hf); [lia|done|]. exists (r :: rs), t'. by split_and!.
Qed.

Lemma create_intvl_holds : intvl_holds create_intvl_tree ∅ ∅.
Proof. exists E, 0%nat, ∅. split; [apply create_intvl_ok|]. done. Qed.

(** ** Properties *)

(** C6. Any sequence of operations of the interval tree that keeps the callers'
    contract, from an empty tree, runs to its end.  A search for an overlap
    gives a record whose interval overlaps, or NULL when none does; a search
    for a point gives the data of the interval with the point; a search for a
    free range gives the least aligned one at or after the requested start
    that meets no interval, with the record just before it. *)
Theorem intvl_tree_run_refines (ops : list intvl_op)
    (Hlegal : legal_run ∅ ∅ ops) (Hlen : 2 * Z.of_nat (length ops) < 2 ^ 64) :
  exists rs t, run_intvl create_intvl_tree ops = Ret (rs, t) /\ answers ∅ ∅ ops rs /\
    intvl_holds t (final_state ∅ ∅ ops).1 (final_state ∅ ∅ ops).2.
Proof. apply run_intvl_ok; [apply create_intvl_holds|simpl; lia|done]. Qed.

Definition run_example : list intvl_op :=
  let o := mk_intvl_node 0 NULL_SET 77 88 0 in
  [AddIntvl 1000 o (mk_intvl 4096 8192) 1; AddIntvl 1001 o (mk_intvl 12288 16384) 2;
   AddIntvl 1002 o (mk_intvl 8192 9000) 3; FindIntvl (mk_intvl 8500 8600); FindIntvl (mk_intvl 9000 12288);
   GetPoint 16383; GetPoint 16384; FreeGap (mk_intvl 4100 5124) 10; DelIntvl (mk_intvl 4096 8192);
   AddIntvl 1003 o (mk_intvl 20480 24576) 4; FreeGap (mk_intvl 4096 8192) 12; FindIntvl (mk_intvl 0 8192);
   ResizeIntvl 1001 12288 4096; GetPoint 20479; ResizeIntvl 1001 12288 (-4000); GetPoint 16383].

Lemma intvl_tree_run_refines_witness :
  legal_run ∅ ∅ run_example /\
  exists rs t, run_intvl create_intvl_tree run_example = Ret (rs, t) /\ answers ∅ ∅ run_example rs /\
    rs = [RVoid; RVoid; RVoid; RPtr 1002; RPtr 0; RPtr 2; RPtr 0; RGap (mk_intvl 9216 10240) 1002; RVoid;
          RVoid; RGap (mk_intvl 4096 8192) 0; RPtr 0; RVoid; RPtr 2; RVoid; RPtr 2].
Proof.
  assert (Hl : legal_run ∅ ∅ run_example) by (apply (bool_decide_unpack _); vm_compute; exact I).
  split; [exact Hl|].
  destruct (intvl_tree_run_refines run_example Hl) as (rs & t & Hr & Ha & _); [vm_compute; reflexivity|].
  exists rs, t. split; [exact Hr|]. split; [exact Ha|]. vm_compute in Hr. injection Hr as <- _. reflexivity.
Defined.

(** ** Deviations *)

Definition one_interval : outcome rb_tree_t :=
  intvl_tree_insert create_intvl_tree 1000 (mk_intvl_node 0 NULL_SET 0 0 0) (mk_intvl 8192 12288) 1.

(** A start that is moved down leaves the key of the node: the interval can
    be found, but a deletion of it finds no node and leaves it in the tree. *)
Lemma moved_start_not_deleted :
  (t ← one_interval; t ← intvl_tree_update_interval t 1000 (-4096) 0;
   p ← intvl_tree_find t (mk_intvl 4096 4097);
   t' ← intvl_tree_delete t (mk_intvl 4096 12288);
   q ← intvl_tree_find t' (mk_intvl 4096 4097); Ret (p, q)) = Ret (1000, 1000).
Proof. vm_compute. reflexivity. Qed.

(** A tree without intervals gives back the range as it is, aligned or not. *)
Lemma free_gap_of_empty i a : intvl_tree_find_free_gap create_intvl_tree i a = Ret (i, 0).
Proof. done. Qed.

(** The maximum of a subtree is not lowered when the interval that has it is
    deleted. *)
Lemma stale_maximum :
  (t ← one_interval; t ← intvl_tree_insert t 1001 (mk_intvl_node 0 NULL_SET 0 0 0) (mk_intvl 16384 20480) 2;
   t ← intvl_tree_delete t (mk_intvl 16384 20480); get_max t (root t)) = Ret 20480.
Proof. vm_compute. reflexivity. Qed.
