(* ===== verification/PgTable.v ===== *)
(** * kernel/mm/pgtable.c: page tables

    Physical memory is a map from page addresses to pages of 512 words.  The
    code reaches page tables through virtual addresses: the entry 510 of the
    top table refers to the table itself, and a window per processor maps one
    page temporarily.  Reads and writes here go through the machine's
    translation of such addresses, so that this scheme is part of the model.
    The translation cache and the access rights of entries are not modelled. *)

From S2P Require Import Prelude.
From stdpp Require Import list gmap.
From S2P Require Import Mm EarlyMem Kio.
Local Open Scope Z_scope.

(** ** Constants and index arithmetic *)

Abbreviation NUM_ENTRIES := (512).
Definition T_ENTRY : Z := 509.
Definition R_ENTRY : Z := 510.

Inductive pg_level_t := PG_LEVEL_PT | PG_LEVEL_PD | PG_LEVEL_PDP | PG_LEVEL_PML4.

Definition level_num (l : pg_level_t) : Z :=
  match l with PG_LEVEL_PT => 0 | PG_LEVEL_PD => 1 | PG_LEVEL_PDP => 2 | PG_LEVEL_PML4 => 3 end.

Definition pg_level_to_shift (level : Z) : Z := 12 + level * 9.
Definition index_for_pg_level (addr level : Z) : Z :=
  Z.land (Z.shiftr addr (pg_level_to_shift level)) 0x1FF.
Definition PT_INDEX (a : Z) : Z := Z.land (Z.shiftr a 12) 0x1FF.
Definition PDT_INDEX (a : Z) : Z := Z.land (Z.shiftr a 21) 0x1FF.
Definition PDPT_INDEX (a : Z) : Z := Z.land (Z.shiftr a 30) 0x1FF.
Definition PML4_INDEX (a : Z) : Z := Z.land (Z.shiftr a 39) 0x1FF.

Definition get_virt_addr (l4 l3 l2 l1 : Z) : Z :=
  Z.lor (Z.lor (Z.lor (Z.lor (Z.shiftl 0xFFFF 48) (u64 (Z.shiftl l4 39))) (u64 (Z.shiftl l3 30)))
    (u64 (Z.shiftl l2 21))) (u64 (Z.shiftl l1 12)).

Definition PE_PRESENT : Z := 0x1.
Definition PE_WRITE : Z := 0x2.
Abbreviation PE_USER := (0x4).
Abbreviation PE_WRITE_THROUGH := (0x8).
Abbreviation PE_CACHE_DISABLE := (0x10).
Abbreviation PE_DIRTY := (0x40).
Definition PE_SIZE : Z := 0x80.
Abbreviation PE_GLOBAL := (0x100).
Abbreviation PE_NO_EXECUTE := (Z.shiftl 1 63).
Abbreviation PE_FLAGS_MASK := (0xFFF).
Abbreviation PE_FRAME_MASK := (0xFFFFFFFFFFFFF000).

Abbreviation PML4_PTR := (get_virt_addr R_ENTRY R_ENTRY R_ENTRY R_ENTRY).
Abbreviation TEMP_PDPT := (get_virt_addr R_ENTRY R_ENTRY R_ENTRY T_ENTRY).
Definition TEMP_PDPTE (cpu : Z) : Z := u64 (TEMP_PDPT + 8 * cpu).
Definition TEMP_PTR (cpu : Z) : Z := get_virt_addr R_ENTRY R_ENTRY T_ENTRY cpu.

(** The shift is done on an [int]. *)
Definition get_child_pgtable_address (parent level index : Z) : outcome Z :=
  x ← shl 32 index (pg_level_to_shift level); Ret (Z.lor parent (u64 (sint 32 x))).

Definition get_pgtable_address (virt_addr : Z) (level : pg_level_t) : Z :=
  match level with
  | PG_LEVEL_PML4 => get_virt_addr R_ENTRY R_ENTRY R_ENTRY R_ENTRY
  | PG_LEVEL_PDP => get_virt_addr R_ENTRY R_ENTRY R_ENTRY (PML4_INDEX virt_addr)
  | PG_LEVEL_PD => get_virt_addr R_ENTRY R_ENTRY (PML4_INDEX virt_addr) (PDPT_INDEX virt_addr)
  | PG_LEVEL_PT =>
      get_virt_addr R_ENTRY (PML4_INDEX virt_addr) (PDPT_INDEX virt_addr) (PDT_INDEX virt_addr)
  end.

(** The result and the variable are 16 bits wide. *)
Definition vm_flags_to_pe_flags (vm_flags : Z) : Z :=
  let f := PE_PRESENT in
  let f := u16 (Z.lor f (if has_flag vm_flags VM_WRITE then PE_WRITE else 0)) in
  let f := u16 (Z.lor f (if has_flag vm_flags VM_USER then PE_USER else 0)) in
  let f := u16 (Z.lor f (if has_flag vm_flags VM_NOCACHE then PE_CACHE_DISABLE else 0)) in
  let f := u16 (Z.lor f (if has_flag vm_flags VM_WRITETHRU then PE_WRITE_THROUGH else 0)) in
  let f := u16 (Z.lor f (if has_flag vm_flags VM_EXEC then 0 else PE_NO_EXECUTE)) in
  let f := u16 (Z.lor f (if has_flag vm_flags VM_GLOBAL then PE_GLOBAL else 0)) in
  if has_flag vm_flags VM_HUGE_2MB || has_flag vm_flags VM_HUGE_1GB then u16 (Z.lor f PE_SIZE) else f.

Definition vm_flags_to_level (vm_flags : Z) : pg_level_t :=
  if has_flag vm_flags VM_HUGE_1GB then PG_LEVEL_PDP
  else if has_flag vm_flags VM_HUGE_2MB then PG_LEVEL_PD
  else PG_LEVEL_PT.

(** ** The machine

    [page] is 4096 bytes as little endian words.  [hw_walk] is the address
    translation of the processor: four levels, an entry's frame in its bits
    12 to 51, large pages at the two middle levels, and a fault on an absent
    entry or a size bit in the top table. *)

Abbreviation page := (list Z).
Abbreviation pmem := (gmap Z page).

Definition zero_page : page := replicate 512 0.

Definition hw_frame (e : Z) : Z := Z.land e 0x000FFFFFFFFFF000.
Definition hw_present (e : Z) : bool := has_flag e PE_PRESENT.

Definition entry_of (m : pmem) (table i : Z) : option Z := m !! table ≫= fun p => p !! Z.to_nat i.

Fixpoint hw_walk (n : nat) (m : pmem) (table va : Z) : option Z :=
  let level := Z.of_nat n in
  e ← entry_of m table (index_for_pg_level va level);
  if negb (hw_present e) then None
  else
    match n with
    | O => Some (hw_frame e + Z.land va 0xFFF)
    | S n' =>
        if has_flag e PE_SIZE then
          if (n =? 3)%nat then None
          else Some (Z.land (hw_frame e) (Z.lnot (Z.ones (pg_level_to_shift level)))
                     + Z.land va (Z.ones (pg_level_to_shift level)))
        else hw_walk n' m (hw_frame e) va
    end.

(** The page and the offset in it. *)
Definition page_of (a : Z) : Z := Z.land a PE_FRAME_MASK.
Definition page_off (a : Z) : Z := Z.land a 0xFFF.

(** ** Frames for new tables

    What the page tables need of the physical allocator: alloc_pages(1) gives
    the address of a page that was free and is free no more. *)

Class FrameSource (St : Type) := {
  src_alloc : St -> outcome (Z * St);
  src_free : St -> Z -> Prop;
  src_left : St -> nat;
  src_ok : St -> Prop;
  src_alloc_spec : forall s, src_ok s -> (0 < src_left s)%nat ->
    exists a s', src_alloc s = Ret (a, s') /\ src_ok s' /\ src_left s = S (src_left s') /\
      src_free s a /\ (forall b, src_free s' b -> src_free s b /\ b <> a);
  src_frame : forall s a, src_ok s -> src_free s a ->
    0 < a /\ hw_frame a = a /\ fits 64 a
}.

Record mach {St : Type} := mk_mach {
  m_mem : pmem;
  m_cr3 : Z;
  m_cpu : Z;
  m_src : St;
}.
Arguments mach St : clear implicits.
Arguments mk_mach {St}.

Section operations.
Context {St : Type} `{FrameSource St}.
Implicit Types s : mach St.

Definition with_mem s (m : pmem) : mach St := mk_mach m (m_cr3 s) (m_cpu s) (m_src s).

Definition alloc_page s : outcome (Z * mach St) :=
  '(a, src) ← src_alloc (m_src s); Ret (a, mk_mach (m_mem s) (m_cr3 s) (m_cpu s) src).

(** ** Physical and virtual accesses *)

Definition pload s (pa : Z) : outcome Z :=
  match entry_of (m_mem s) (page_of pa) (page_off pa / 8) with Some e => Ret e | None => Fault end.
Definition pstore s (pa v : Z) : outcome (mach St) :=
  match m_mem s !! page_of pa with
  | Some p => p' ← store p (page_off pa / 8) v; Ret (with_mem s (<[page_of pa := p']> (m_mem s)))
  | None => Fault
  end.
(** [memset(p, 0, PAGE_SIZE)] for a page aligned [p]. *)
Definition pclear s (pa : Z) : outcome (mach St) :=
  match m_mem s !! page_of pa with
  | Some _ => Ret (with_mem s (<[page_of pa := zero_page]> (m_mem s)))
  | None => Fault
  end.

Definition translate s (va : Z) : outcome Z :=
  match hw_walk 3 (m_mem s) (m_cr3 s) va with Some pa => Ret pa | None => Fault end.

Definition vload s (va : Z) : outcome Z := pa ← translate s va; pload s pa.
Definition vstore s (va v : Z) : outcome (mach St) := pa ← translate s va; pstore s pa v.
Definition vclear s (va : Z) : outcome (mach St) := pa ← translate s va; pclear s pa.

(** [table[index]] of a table pointer. *)
Definition slot (table index : Z) : Z := u64 (table + 8 * index).

(** ** The recursive interface *)

(** The levels from the top down to above [l]. *)
Definition levels_above (l : pg_level_t) : list pg_level_t :=
  match l with
  | PG_LEVEL_PT => [PG_LEVEL_PML4; PG_LEVEL_PDP; PG_LEVEL_PD]
  | PG_LEVEL_PD => [PG_LEVEL_PML4; PG_LEVEL_PDP]
  | PG_LEVEL_PDP => [PG_LEVEL_PML4]
  | PG_LEVEL_PML4 => []
  end.
Definition level_below (l : pg_level_t) : pg_level_t :=
  match l with
  | PG_LEVEL_PML4 => PG_LEVEL_PDP
  | PG_LEVEL_PDP => PG_LEVEL_PD
  | _ => PG_LEVEL_PT
  end.

(** One iteration: the entry of [vaddr] at [level] refers to a table after it. *)
Definition map_level_step s (vaddr flags : Z) (level : pg_level_t) (tables : list Z)
    : outcome (mach St * list Z) :=
  let table := get_pgtable_address vaddr level in
  let index := index_for_pg_level vaddr (level_num level) in
  e ← vload s (slot table index);
  let next_table := Z.land e PE_FRAME_MASK in
  if next_table =? 0 then
    '(a, s) ← alloc_page s;
    s ← vstore s (slot table index) (Z.lor a flags);
    s ← vclear s (get_pgtable_address vaddr (level_below level));
    Ret (s, tables ++ [a])
  else if negb (hw_present e) then
    s ← vstore s (slot table index) (Z.lor next_table flags);
    Ret (s, tables)
  else Ret (s, tables).

Fixpoint map_levels (levels : list pg_level_t) s (vaddr flags : Z) (tables : list Z)
    : outcome (mach St * list Z) :=
  match levels with
  | [] => Ret (s, tables)
  | l :: levels' =>
      '(s, tables) ← map_level_step s vaddr flags l tables;
      map_levels levels' s vaddr flags tables
  end.

(** The level of the flags' page size, in the order the mapping functions test
    the flags. *)
Definition map_level_of (vm_flags : Z) : pg_level_t :=
  if has_flag vm_flags VM_HUGE_2MB then PG_LEVEL_PD
  else if has_flag vm_flags VM_HUGE_1GB then PG_LEVEL_PDP
  else PG_LEVEL_PT.

Definition huge_align_ok (vaddr vm_flags : Z) : bool :=
  if has_flag vm_flags VM_HUGE_2MB then is_aligned vaddr PAGE_SIZE_2MB
  else if has_flag vm_flags VM_HUGE_1GB then is_aligned vaddr PAGE_SIZE_1GB
  else true.

Definition table_pg_flags (vaddr vm_flags : Z) : Z :=
  let f := Z.lor PE_WRITE PE_PRESENT in
  let f := if vaddr <? USER_SPACE_END then Z.lor f PE_USER else f in
  if has_flag vm_flags VM_HUGE_2MB || has_flag vm_flags VM_HUGE_1GB then Z.lor f PE_SIZE else f.

(** The address of the entry, the tables added, and the machine. *)
Definition recursive_map_entry s (vaddr paddr vm_flags : Z) : outcome (Z * list Z * mach St) :=
  let map_level := map_level_of vm_flags in
  _ ← kassert (huge_align_ok vaddr vm_flags);
  let entry_flags := vm_flags_to_pe_flags vm_flags in
  '(s, tables) ← map_levels (levels_above map_level) s vaddr (table_pg_flags vaddr vm_flags) [];
  let index := index_for_pg_level vaddr (level_num map_level) in
  let table := get_pgtable_address vaddr map_level in
  s ← vstore s (slot table index) (Z.lor paddr entry_flags);
  Ret (slot table index, tables, s).

Definition recursive_unmap_entry s (vaddr vm_flags : Z) : outcome (mach St) :=
  let level := map_level_of vm_flags in
  let index := index_for_pg_level vaddr (level_num level) in
  vstore s (slot (get_pgtable_address vaddr level) index) 0.

Definition recursive_update_entry s (vaddr vm_flags : Z) : outcome (mach St) :=
  let level := map_level_of vm_flags in
  let index := index_for_pg_level vaddr (level_num level) in
  let pt := get_pgtable_address vaddr level in
  e ← vload s (slot pt index);
  vstore s (slot pt index) (Z.lor (Z.land e PE_FRAME_MASK) (vm_flags_to_pe_flags vm_flags)).

(** [k] iterations are left at most; the end address may have wrapped. *)
Fixpoint update_range_loop (k : nat) s (vaddr end_addr pg_size vm_flags : Z) : outcome (mach St) :=
  if vaddr <? end_addr then
    match k with
    | O => NoFuel
    | S k' =>
        s ← recursive_update_entry s vaddr vm_flags;
        update_range_loop k' s (u64 (vaddr + pg_size)) end_addr pg_size vm_flags
    end
  else Ret s.

Definition recursive_update_range s (vaddr size vm_flags : Z) : outcome (mach St) :=
  let pg_size :=
    if has_flag vm_flags VM_HUGE_2MB then PAGE_SIZE_2MB
    else if has_flag vm_flags VM_HUGE_1GB then PAGE_SIZE_1GB
    else PAGE_SIZE in
  update_range_loop (S (Z.to_nat (size / pg_size))) s vaddr (u64 (vaddr + size)) pg_size vm_flags.

(** ** Entries by their address *)

Definition pgtable_update_entry_flags s (pte vm_flags : Z) : outcome (mach St) :=
  e ← vload s pte;
  vstore s pte (Z.lor (Z.land e PE_FRAME_MASK) (vm_flags_to_pe_flags vm_flags)).
Definition pgtable_get_entry_dirty s (pte : Z) : outcome bool :=
  e ← vload s pte; Ret (has_flag e PE_DIRTY).
Definition pgtable_clear_entry_dirty s (pte : Z) : outcome (mach St) :=
  e ← vload s pte; vstore s pte (Z.land e (not_w 64 PE_DIRTY)).

(** ** The temporary window *)

Definition set_temp s (v : Z) : outcome (mach St) := vstore s (TEMP_PDPTE (m_cpu s)) v.

Definition temp_map_user_pgtable s (pgtable : Z) : outcome (mach St) :=
  set_temp s (Z.lor (Z.lor (Z.lor pgtable PE_USER) PE_WRITE) PE_PRESENT).

(** The bytes of a page and back. *)
Fixpoint le_bytes (n : nat) (v : Z) : list Z :=
  match n with O => [] | S n' => u8 v :: le_bytes n' (Z.shiftr v 8) end.
Definition le_word (bs : list Z) : Z := foldr (fun b acc => b + 256 * acc) 0 bs.
Definition page_bytes (p : page) : list Z := p ≫= le_bytes 8.
Fixpoint page_words (k : nat) (bs : list Z) : page :=
  match k with O => [] | S k' => le_word (take 8 bs) :: page_words k' (drop 8 bs) end.

(** The page at the window, as bytes. *)
Definition temp_bytes s : outcome (Z * list Z) :=
  pa ← translate s (TEMP_PTR (m_cpu s));
  match m_mem s !! pa with Some p => Ret (pa, page_bytes p) | None => Fault end.
Definition temp_set_bytes s (pa : Z) (bs : list Z) : mach St :=
  with_mem s (<[pa := page_words 512 bs]> (m_mem s)).

Definition fill_unmapped_page s (address v off len : Z) : outcome (mach St) :=
  _ ← kassert (u64 (off + len) <=? PAGE_SIZE);
  s ← set_temp s (Z.lor (Z.lor address PE_WRITE) PE_PRESENT);
  '(pa, bs) ← temp_bytes s;
  bs ← write_at bs off (replicate (Z.to_nat len) (u8 v));
  set_temp (temp_set_bytes s pa bs) 0.

(** A page list: flags and count of its head, and the frames in order. *)
Record pages_t := mk_pages {
  pl_flags : Z;
  pl_count : Z;
  pl_contiguous : bool;
  pl_addrs : list Z;
}.

(** The page of an offset, and the offset in it. *)
Fixpoint skip_pages (addrs : list Z) (off pgsize : Z) : list Z * Z :=
  match addrs with
  | [] => ([], off)
  | _ :: addrs' => if pgsize <=? off then skip_pages addrs' (off - pgsize) pgsize else (addrs, off)
  end.

Fixpoint fill_loop s (addrs : list Z) (v off len pgsize : Z) : outcome (mach St) :=
  match addrs with
  | [] => Ret s
  | a :: addrs' =>
      if 0 <? len then
        let n := Z.min (pgsize - off) len in
        s ← fill_unmapped_page s a v off n;
        fill_loop s addrs' v 0 (len - n) pgsize
      else Ret s
  end.

Definition fill_unmapped_pages s (pages : pages_t) (v off len : Z) : outcome (mach St) :=
  let pgsize := pg_flags_to_size (pl_flags pages) in
  _ ← kassert (pgsize =? PAGE_SIZE);
  if has_flag (pl_flags pages) PG_HEAD then
    _ ← kassert (u64 (off + len) <=? PAGES_TO_SIZE (pl_count pages));
    let '(addrs, off) := skip_pages (pl_addrs pages) off pgsize in
    fill_loop s addrs v off len pgsize
  else
    _ ← kassert (u64 (off + len) <=? PAGE_SIZE);
    match pl_addrs pages with a :: _ => fill_unmapped_page s a v off len | [] => Fault end.

(** The number of bytes moved, the transfer, and the machine. *)
Definition rw_unmapped_page s (flags address off : Z) (kio : kio_t)
    : outcome (Z * kio_t * mach St) :=
  let pgsize := pg_flags_to_size flags in
  _ ← kassert (pgsize =? PAGE_SIZE);
  _ ← kassert (off <? pgsize);
  let len := Z.min (pgsize - off) (kio_remaining kio) in
  s ← set_temp s (Z.lor (Z.lor address PE_WRITE) PE_PRESENT);
  '(pa, bs) ← temp_bytes s;
  match dir kio with
  | KIO_WRITE =>
      '(n, kio) ← kio_nwrite_in kio (drop (Z.to_nat off) bs) len 0 0;
      s ← set_temp s 0;
      Ret (n, kio, s)
  | KIO_READ =>
      '(n, bs', kio) ← kio_nread_out (drop (Z.to_nat off) bs) len 0 0 kio;
      s ← set_temp (temp_set_bytes s pa (take (Z.to_nat off) bs ++ bs')) 0;
      Ret (n, kio, s)
  end.

Fixpoint rw_loop s (flags : Z) (addrs : list Z) (off n : Z) (kio : kio_t)
    : outcome (Z * kio_t * mach St) :=
  if 0 <? kio_remaining kio then
    match addrs with
    | [] => Ret (n, kio, s)
    | a :: addrs' =>
        '(m, kio, s) ← rw_unmapped_page s flags a off kio;
        rw_loop s flags addrs' 0 (u64 (n + m)) kio
    end
  else Ret (n, kio, s).

(** All pages of a list have the size of its head. *)
Definition rw_unmapped_pages s (pages : pages_t) (off : Z) (kio : kio_t)
    : outcome (Z * kio_t * mach St) :=
  let pgsize := pg_flags_to_size (pl_flags pages) in
  _ ← kassert (pgsize =? PAGE_SIZE);
  _ ← kassert (has_flag (pl_flags pages) PG_HEAD);
  let '(addrs, off) := skip_pages (pl_addrs pages) off PAGE_SIZE in
  rw_loop s (pl_flags pages) addrs off 0 kio.

(** ** The interface for other address spaces *)

Definition user_table_flags (a : Z) : Z := Z.lor (Z.lor (Z.lor a PE_USER) PE_WRITE) PE_PRESENT.

(** One level down in the window. *)
Definition window_step s (vaddr : Z) (level : pg_level_t) (tables : list Z)
    : outcome (mach St * list Z) :=
  let table := TEMP_PTR (m_cpu s) in
  let index := index_for_pg_level vaddr (level_num level) in
  e ← vload s (slot table index);
  let next_table := Z.land e PE_FRAME_MASK in
  if next_table =? 0 then
    '(a, s) ← alloc_page s;
    s ← vstore s (slot table index) (user_table_flags a);
    s ← temp_map_user_pgtable s a;
    s ← vclear s table;
    Ret (s, tables ++ [a])
  else if negb (hw_present e) then
    s ← vstore s (slot table index) (user_table_flags next_table);
    s ← temp_map_user_pgtable s next_table;
    Ret (s, tables)
  else
    s ← temp_map_user_pgtable s next_table;
    Ret (s, tables).

Fixpoint window_levels (levels : list pg_level_t) s (vaddr : Z) (tables : list Z)
    : outcome (mach St * list Z) :=
  match levels with
  | [] => Ret (s, tables)
  | l :: levels' =>
      '(s, tables) ← window_step s vaddr l tables;
      window_levels levels' s vaddr tables
  end.

(** [for (i = index; i < NUM_ENTRIES && count > 0; i++)], [k] the iterations
    up to the end of the table. *)
Fixpoint window_fill (k : nat) s (i vaddr paddr count pe_flags : Z)
    : outcome (mach St * Z * Z * Z) :=
  match k with
  | O => Ret (s, vaddr, paddr, count)
  | S k' =>
      if 0 <? count then
        s ← vstore s (slot (TEMP_PTR (m_cpu s)) i) (Z.lor paddr pe_flags);
        window_fill k' s (i + 1) (u64 (vaddr + PAGE_SIZE)) (u64 (paddr + PAGE_SIZE)) (count - 1) pe_flags
      else Ret (s, vaddr, paddr, count)
  end.

Fixpoint map_frames_loop (fuel : nat) s (pml4 vaddr paddr count : Z) (level : pg_level_t)
    (pe_flags : Z) (tables : list Z) : outcome (list Z * mach St) :=
  if 0 <? count then
    match fuel with
    | O => NoFuel
    | S f =>
        s ← temp_map_user_pgtable s pml4;
        '(s, tables) ← window_levels (levels_above level) s vaddr tables;
        let index := index_for_pg_level vaddr (level_num level) in
        '(s, vaddr, paddr, count) ←
          window_fill (Z.to_nat (NUM_ENTRIES - index)) s index vaddr paddr count pe_flags;
        map_frames_loop f s pml4 vaddr paddr count level pe_flags tables
    end
  else Ret (tables, s).

Definition nonrecursive_map_frames s (pml4 vaddr paddr count vm_flags : Z)
    : outcome (list Z * mach St) :=
  _ ← kassert (vaddr <? USER_SPACE_END);
  _ ← kassert (is_aligned vaddr PAGE_SIZE);
  _ ← kassert (is_aligned paddr PAGE_SIZE);
  map_frames_loop (Z.to_nat count) s pml4 vaddr paddr count (vm_flags_to_level vm_flags)
    (vm_flags_to_pe_flags vm_flags) [].

Fixpoint map_pages_loop (addrs : list Z) s (pml4 vaddr vm_flags : Z) (tables : list Z)
    : outcome (list Z * mach St) :=
  match addrs with
  | [] => Ret (tables, s)
  | a :: addrs' =>
      '(ts, s) ← nonrecursive_map_frames s pml4 vaddr a 1 vm_flags;
      map_pages_loop addrs' s pml4 (u64 (vaddr + vm_flags_to_size vm_flags)) vm_flags (tables ++ ts)
  end.

Definition nonrecursive_map_pages s (pml4 vaddr : Z) (pages : pages_t) (vm_flags : Z)
    : outcome (list Z * mach St) :=
  _ ← kassert (vaddr <? USER_SPACE_END);
  _ ← kassert (is_aligned vaddr PAGE_SIZE);
  _ ← kassert (has_flag (pl_flags pages) PG_HEAD);
  match pl_contiguous pages, pl_addrs pages with
  | true, a :: _ => nonrecursive_map_frames s pml4 vaddr a (pl_count pages) vm_flags
  | true, [] => Fault
  | false, addrs => map_pages_loop addrs s pml4 vaddr vm_flags []
  end.

(** ** New address spaces *)

(** The levels as numbers; the arguments of get_child_pgtable_address are in
    the order of its calls. *)
Fixpoint recursive_duplicate_pgtable (level : nat) s (dest_parent src_parent index : Z)
    : outcome (Z * list Z * mach St) :=
  e ← vload s (slot src_parent index);
  match level with
  | O => Ret (e, [], s)
  | S level' =>
      if negb (hw_present e) then Ret (0, [], s)
      else
        '(a, s) ← alloc_page s;
        s ← vstore s (slot dest_parent index) (Z.lor (Z.lor a PE_WRITE) PE_PRESENT);
        src_table ← get_child_pgtable_address src_parent index (Z.of_nat level);
        dest_table ← get_child_pgtable_address dest_parent index (Z.of_nat level);
        '(tables, s) ← for_each 512 0 (fun i '(tables, s) =>
          '(v, ts, s) ← recursive_duplicate_pgtable level' s dest_table src_table i;
          s ← vstore s (slot dest_table i) v;
          Ret (tables ++ ts, s)) ([a], s);
        e ← vload s (slot src_parent index);
        Ret (Z.lor a (Z.land e PE_FLAGS_MASK), tables, s)
  end.

(** The entries of the kernel half, from the current tables. *)
Definition copy_kernel_entries s (new_pml4 : Z) : outcome (mach St) :=
  let first := PML4_INDEX KERNEL_SPACE_START in
  let last := PML4_INDEX KERNEL_SPACE_END in
  for_each (Z.to_nat (last - first + 1)) first (fun i s =>
    let table_virt := TEMP_PTR (m_cpu s) in
    if i =? R_ENTRY then vstore s (slot table_virt i) (Z.lor (Z.lor new_pml4 PE_WRITE) PE_PRESENT)
    else e ← vload s (slot PML4_PTR i); vstore s (slot table_virt i) e) s.

(** A new top table, empty, in the window. *)
Definition new_table s : outcome (Z * mach St) :=
  '(a, s) ← alloc_page s;
  s ← set_temp s (Z.lor (Z.lor a PE_WRITE) PE_PRESENT);
  s ← vclear s (TEMP_PTR (m_cpu s));
  Ret (a, s).

(** A table for the entry 0 of the table in the window, which takes its place. *)
Definition push_low_table s : outcome (Z * mach St) :=
  '(a, s) ← alloc_page s;
  s ← vstore s (slot (TEMP_PTR (m_cpu s)) 0) (Z.lor (Z.lor a PE_WRITE) PE_PRESENT);
  s ← set_temp s (Z.lor (Z.lor a PE_WRITE) PE_PRESENT);
  s ← vclear s (TEMP_PTR (m_cpu s));
  Ret (a, s).

Definition create_new_ap_page_tables s : outcome (Z * list Z * mach St) :=
  '(pml4, s) ← new_table s;
  s ← copy_kernel_entries s pml4;
  '(pdpt, s) ← push_low_table s;
  '(pde, s) ← push_low_table s;
  s ← vstore s (slot (TEMP_PTR (m_cpu s)) 0) (Z.lor (Z.lor PE_SIZE PE_WRITE) PE_PRESENT);
  s ← set_temp s 0;
  Ret (pml4, [pml4; pdpt; pde], s).

Definition copy_user_entries s (tables : list Z) : outcome (list Z * mach St) :=
  let first := PML4_INDEX USER_SPACE_START in
  let last := PML4_INDEX USER_SPACE_END in
  for_each (Z.to_nat (last - first + 1)) first (fun i '(tables, s) =>
    let src_table := get_virt_addr R_ENTRY R_ENTRY R_ENTRY i in
    let dest_table := TEMP_PTR (m_cpu s) in
    '(v, ts, s) ← recursive_duplicate_pgtable 2 s src_table dest_table i;
    s ← vstore s (slot dest_table i) v;
    Ret (tables ++ ts, s)) (tables, s).

Definition fork_page_tables s (deepcopy_user : bool) : outcome (Z * list Z * mach St) :=
  '(pml4, s) ← new_table s;
  s ← copy_kernel_entries s pml4;
  '(tables, s) ← (if deepcopy_user then copy_user_entries s [pml4] else Ret ([pml4], s));
  s ← set_temp s 0;
  Ret (pml4, tables, s).

Definition get_current_pgtable s : Z := Z.land (m_cr3 s) PE_FRAME_MASK.
Definition set_current_pgtable s (table_phys : Z) : mach St :=
  mk_mach (m_mem s) table_phys (m_cpu s) (m_src s).

(** The low addresses still map to themselves here. *)
Definition init_recursive_pgtable s : outcome (Z * mach St) :=
  let pgtable := get_current_pgtable s in
  s ← pstore s (slot pgtable R_ENTRY) (Z.lor (Z.lor pgtable PE_WRITE) PE_PRESENT);
  '(a, s) ← alloc_page s;
  s ← pstore s (slot pgtable T_ENTRY) (Z.lor (Z.lor a PE_WRITE) PE_PRESENT);
  s ← vclear s TEMP_PDPT;
  Ret (a, s).

End operations.

(** ** Before the memory manager

    The boot tables are reached by their physical addresses and new tables
    come from the boot allocator. *)

Definition early_alloc_page (s : mach early_t) : outcome (Z * mach early_t) :=
  '(a, e) ← mm_early_alloc_pages (m_src s) 1;
  Ret (a, mk_mach (m_mem s) (m_cr3 s) (m_cpu s) e).

Definition early_step (s : mach early_t) (virt_addr : Z) (level : pg_level_t) (table : Z)
    : outcome (mach early_t * Z) :=
  let index := index_for_pg_level virt_addr (level_num level) in
  e ← pload s (slot table index);
  let next_table := Z.land e PE_FRAME_MASK in
  if next_table =? 0 then
    '(a, s) ← early_alloc_page s;
    s ← pclear s a;
    s ← pstore s (slot table index) (Z.lor (Z.lor a PE_WRITE) PE_PRESENT);
    Ret (s, a)
  else if negb (hw_present e) then
    s ← pstore s (slot table index) (Z.lor (Z.lor next_table PE_WRITE) PE_PRESENT);
    Ret (s, next_table)
  else Ret (s, next_table).

Fixpoint early_levels (levels : list pg_level_t) (s : mach early_t) (virt_addr table : Z)
    : outcome (mach early_t * Z) :=
  match levels with
  | [] => Ret (s, table)
  | l :: levels' =>
      '(s, table) ← early_step s virt_addr l table;
      early_levels levels' s virt_addr table
  end.

Definition early_align_ok (vaddr paddr vm_flags : Z) : bool :=
  (vaddr mod PAGE_SIZE =? 0) && (paddr mod PAGE_SIZE =? 0) &&
  huge_align_ok vaddr vm_flags && huge_align_ok paddr vm_flags.

(** The address of the entry; [pml4] is that of the boot information. *)
Definition early_map_entry (s : mach early_t) (pml4 virt_addr phys_addr vm_flags : Z)
    : outcome (Z * mach early_t) :=
  _ ← kassert (early_align_ok virt_addr phys_addr vm_flags);
  let level := map_level_of vm_flags in
  let entry_flags := vm_flags_to_pe_flags vm_flags in
  '(s, table) ← early_levels (levels_above level) s virt_addr pml4;
  let index := index_for_pg_level virt_addr (level_num level) in
  s ← pstore s (slot table index) (Z.lor phys_addr entry_flags);
  Ret (slot table index, s).

(** The entries that follow in the same table. *)
Fixpoint early_fill (k : nat) (s : mach early_t) (entry vaddr paddr count stride flags : Z)
    : outcome (mach early_t * Z * Z * Z) :=
  match k with
  | O => Ret (s, vaddr, paddr, count)
  | S k' =>
      if count =? 0 then Ret (s, vaddr, paddr, count)
      else
        s ← pstore s entry (Z.lor paddr flags);
        early_fill k' s (u64 (entry + 8)) (u64 (vaddr + stride)) (u64 (paddr + stride)) (count - 1)
          stride flags
  end.

Fixpoint early_map_loop (fuel : nat) (s : mach early_t) (pml4 vaddr paddr count stride vm_flags : Z)
    : outcome (mach early_t) :=
  if 0 <? count then
    match fuel with
    | O => NoFuel
    | S f =>
        let index := index_for_pg_level vaddr (level_num (map_level_of vm_flags)) in
        '(entry, s) ← early_map_entry s pml4 vaddr paddr vm_flags;
        '(s, vaddr, paddr, count) ←
          early_fill (Z.to_nat (NUM_ENTRIES - (index + 1))) s (u64 (entry + 8)) (u64 (vaddr + stride))
            (u64 (paddr + stride)) (count - 1) stride (vm_flags_to_pe_flags vm_flags);
        early_map_loop f s pml4 vaddr paddr count stride vm_flags
    end
  else Ret s.

Definition early_map_entries (s : mach early_t) (pml4 vaddr paddr count vm_flags : Z)
    : outcome (Z * mach early_t) :=
  _ ← kassert ((vaddr mod PAGE_SIZE =? 0) && (paddr mod PAGE_SIZE =? 0));
  _ ← kassert (0 <? count);
  _ ← kassert (early_align_ok vaddr paddr vm_flags);
  s ← early_map_loop (Z.to_nat count) s pml4 vaddr paddr count (vm_flags_to_size vm_flags) vm_flags;
  Ret (vaddr, s).
