(* ===== verification/PgWalk.v ===== *)
(** * kernel/mm/pgtable.c: what the page table operations do to translation

    A tree of tables under one root, the recursive entry that makes its
    tables addressable, and the effect of mapping, unmapping and updating an
    entry on the translation of every address. *)

From S2P Require Import Prelude.
From stdpp Require Import list gmap.
From S2P Require Import Mm PgTable.
Local Open Scope Z_scope.

(** Decides the comparisons of the goal that the context settles. *)
Ltac zsettle :=
  repeat match goal with
    | |- context [?x <=? ?y] =>
        first [rewrite (proj2 (Z.leb_le x y)) by lia | rewrite (proj2 (Z.leb_gt x y)) by lia]
    | |- context [?x <? ?y] =>
        first [rewrite (proj2 (Z.ltb_lt x y)) by lia | rewrite (proj2 (Z.ltb_ge x y)) by lia]
    end.

(** ** Addresses *)

Abbreviation idx := index_for_pg_level.

Lemma idx_range va n : 0 <= n -> 0 <= idx va n < 512.
Proof.
  intros Hn. unfold index_for_pg_level. change 0x1FF with (Z.ones 9). rewrite Z.land_ones by lia.
  change (2 ^ 9) with 512. apply Z.mod_pos_bound. lia.
Qed.

Lemma testbit_idx va n i :
  0 <= n -> 0 <= i -> Z.testbit (idx va n) i = (i <? 9) && Z.testbit va (i + (12 + n * 9)).
Proof.
  intros Hn Hi. unfold index_for_pg_level, pg_level_to_shift. change 0x1FF with (Z.ones 9).
  rewrite Z.land_spec, Z.shiftr_spec, Z.testbit_ones_nonneg by lia. apply andb_comm.
Qed.

Lemma testbit_small a i : 0 <= a < 512 -> 9 <= i -> Z.testbit a i = false.
Proof. intros Ha Hi. apply (fits_testbit 9); [lia|unfold fits; lia|lia]. Qed.

(** A field of nine bits in an address. *)
Lemma testbit_field a sh j :
  0 <= a < 512 -> 0 <= sh -> sh + 9 <= 64 -> 0 <= j ->
  Z.testbit (u64 (Z.shiftl a sh)) j = (sh <=? j) && (j <? sh + 9) && Z.testbit a (j - sh).
Proof.
  intros Ha Hs1 Hs2 Hj. rewrite testbit_wrap, Z.shiftl_spec by lia.
  destruct (Z.leb_spec sh j); simpl.
  - destruct (Z.ltb_spec j (sh + 9)); simpl.
    + by destruct (Z.ltb_spec j 64); [|lia].
    + rewrite (testbit_small a) by lia. apply andb_false_r.
  - rewrite Z.testbit_neg_r by lia. apply andb_false_r.
Qed.

Lemma testbit_top j : 0 <= j -> Z.testbit (Z.shiftl 0xFFFF 48) j = (48 <=? j) && (j <? 64).
Proof.
  intros Hj. change 0xFFFF with (Z.ones 16). change (Z.shiftl (Z.ones 16) 48) with (mask_at 48 16).
  by rewrite testbit_mask_at by lia.
Qed.

Section virt.
Context (a b c d : Z) (Ha : 0 <= a < 512) (Hb : 0 <= b < 512) (Hc : 0 <= c < 512) (Hd : 0 <= d < 512).

Lemma testbit_virt j :
  0 <= j ->
  Z.testbit (get_virt_addr a b c d) j =
  ((48 <=? j) && (j <? 64)) || ((39 <=? j) && (j <? 48) && Z.testbit a (j - 39))
  || ((30 <=? j) && (j <? 39) && Z.testbit b (j - 30))
  || ((21 <=? j) && (j <? 30) && Z.testbit c (j - 21))
  || ((12 <=? j) && (j <? 21) && Z.testbit d (j - 12)).
Proof.
  intros Hj. unfold get_virt_addr. rewrite !Z.lor_spec, !testbit_field, testbit_top by lia. done.
Qed.

Lemma idx_virt n : 0 <= n < 4 ->
  idx (get_virt_addr a b c d) n = if n =? 3 then a else if n =? 2 then b else if n =? 1 then c else d.
Proof.
  intros Hn. apply Z.bits_inj'. intros i Hi. rewrite testbit_idx, testbit_virt by lia.
  assert (n = 0 \/ n = 1 \/ n = 2 \/ n = 3) as Hcase by lia.
  destruct (Z.ltb_spec i 9); simpl.
  - destruct Hcase as [-> | [-> | [-> | ->]]]; zsettle; simpl;
      rewrite ?orb_false_r; f_equal; lia.
  - destruct Hcase as [-> | [-> | [-> | ->]]]; simpl; by rewrite testbit_small.
Qed.

Lemma virt_fits : fits 64 (get_virt_addr a b c d).
Proof.
  unfold get_virt_addr. repeat apply fits_lor; try lia; try (apply wrap_range; lia).
  unfold fits. vm_compute. split; congruence.
Qed.

Lemma virt_aligned : get_virt_addr a b c d mod 4096 = 0.
Proof.
  change 4096 with (2 ^ 12). rewrite <- Z.land_ones by lia. apply Z.bits_inj'. intros i Hi.
  rewrite Z.bits_0, Z.land_spec, testbit_virt, Z.testbit_ones_nonneg by lia.
  destruct (Z.ltb_spec i 12); zsettle; simpl; by rewrite ?andb_false_r.
Qed.
End virt.

Lemma idx_add x off n :
  x mod 4096 = 0 -> 0 <= off < 4096 -> 0 <= n -> idx (x + off) n = idx x n.
Proof.
  intros Hx Ho Hn. unfold index_for_pg_level, pg_level_to_shift. f_equal.
  rewrite !Z.shiftr_div_pow2, Z.pow_add_r by lia. change (2 ^ 12) with 4096.
  assert (0 < 2 ^ (n * 9)) by (apply Z.pow_pos_nonneg; lia).
  rewrite <- !Z.div_div by lia. f_equal.
  rewrite (Z_div_exact_full_2 x 4096) by lia.
  rewrite Z.mul_comm, Z.div_add_l by lia. rewrite (Z.div_small off) by lia.
  rewrite Z.div_mul by lia. lia.
Qed.

Lemma off_add x off : x mod 4096 = 0 -> 0 <= off < 4096 -> Z.land (x + off) 0xFFF = off.
Proof.
  intros Hx Ho. change 0xFFF with (Z.ones 12). rewrite Z.land_ones by lia. change (2 ^ 12) with 4096.
  symmetry. apply (Z.mod_unique_pos _ _ (x / 4096)); [done|]. pose proof (Z_div_exact_full_2 x 4096). lia.
Qed.

(** *** Frames and flags *)

Definition is_frame (t : Z) : Prop := hw_frame t = t.

Lemma frame_mask j : 0 <= j -> Z.testbit 0x000FFFFFFFFFF000 j = (12 <=? j) && (j <? 52).
Proof. intros Hj. change 0x000FFFFFFFFFF000 with (mask_at 12 40). by rewrite testbit_mask_at by lia. Qed.

Lemma pe_frame_mask j : 0 <= j -> Z.testbit PE_FRAME_MASK j = (12 <=? j) && (j <? 64).
Proof. intros Hj. change PE_FRAME_MASK with (mask_at 12 52). by rewrite testbit_mask_at by lia. Qed.

Lemma frame_bits t j : is_frame t -> 0 <= j -> Z.testbit t j = (12 <=? j) && (j <? 52) && Z.testbit t j.
Proof.
  intros Ht Hj. unfold is_frame in Ht. rewrite <- Ht at 1. unfold hw_frame. rewrite Z.land_spec, frame_mask by done. apply andb_comm.
Qed.

Lemma frame_of_aligned a : 0 <= a < 2 ^ 52 -> a mod 4096 = 0 -> is_frame a.
Proof.
  intros Ha Hm. unfold is_frame, hw_frame. apply Z.bits_inj'. intros j Hj. rewrite Z.land_spec, frame_mask by done.
  destruct (Z.ltb_spec j 12).
  - rewrite (proj2 (Z.leb_gt 12 j)), andb_false_r by lia. symmetry.
    change 4096 with (2 ^ 12) in Hm. rewrite <- (Z.mod_pow2_bits_low a 12 j), Hm by lia. apply Z.bits_0.
  - rewrite (proj2 (Z.leb_le 12 j)) by lia. destruct (Z.ltb_spec j 52); [by rewrite andb_true_r|].
    rewrite andb_false_r. symmetry. apply (fits_testbit 52); unfold fits; lia.
Qed.

Lemma hw_frame_is e : is_frame (hw_frame e).
Proof. unfold is_frame, hw_frame. by rewrite <- Z.land_assoc, Z.land_diag. Qed.

Lemma frame_nonneg t : is_frame t -> 0 <= t.
Proof. unfold is_frame. intros <-. unfold hw_frame. apply Z.land_nonneg. lia. Qed.

Lemma frame_fits t : is_frame t -> fits 52 t.
Proof.
  intros Ht. apply fits_of_testbit; [lia|by apply frame_nonneg|]. intros i Hi.
  rewrite frame_bits by (done || lia). zsettle. by rewrite andb_false_r.
Qed.

Lemma frame_aligned t : is_frame t -> t mod 4096 = 0.
Proof.
  intros Ht. change 4096 with (2 ^ 12). rewrite <- Z.land_ones by lia. apply Z.bits_inj'. intros i Hi.
  rewrite Z.bits_0, Z.land_spec, frame_bits, Z.testbit_ones_nonneg by (done || lia).
  destruct (Z.ltb_spec i 12); zsettle; simpl; by rewrite ?andb_false_r.
Qed.

(** An entry made of a frame and flags. *)
Section entry.
Context (t f : Z) (Ht : is_frame t) (Hf : fits 12 f).

Lemma entry_frame : hw_frame (Z.lor t f) = t.
Proof.
  apply Z.bits_inj'. intros i Hi. unfold hw_frame. rewrite Z.land_spec, Z.lor_spec, frame_mask by done.
  rewrite (frame_bits t) by done. destruct (Z.leb_spec 12 i); simpl; [|apply andb_false_r].
  rewrite (fits_testbit 12 f) by (done || lia). rewrite orb_false_r.
  by destruct (i <? 52); simpl; rewrite ?andb_true_r.
Qed.

Lemma entry_frame_mask : Z.land (Z.lor t f) PE_FRAME_MASK = t.
Proof.
  apply Z.bits_inj'. intros i Hi. rewrite Z.land_spec, Z.lor_spec, pe_frame_mask by done.
  rewrite (frame_bits t) by done. destruct (Z.leb_spec 12 i); simpl; [|apply andb_false_r].
  rewrite (fits_testbit 12 f) by (done || lia). rewrite orb_false_r.
  destruct (Z.ltb_spec i 52); zsettle; simpl; by rewrite ?andb_true_r.
Qed.

Lemma entry_flag k : 0 <= k < 12 -> has_flag (Z.lor t f) (2 ^ k) = has_flag f (2 ^ k).
Proof.
  intros Hk. rewrite !has_flag_bit by lia. rewrite Z.lor_spec, (frame_bits t) by (done || lia).
  by zsettle.
Qed.

Lemma entry_fits : fits 64 (Z.lor t f).
Proof.
  pose proof (frame_fits t Ht). apply fits_lor; [lia|unfold fits in *; lia..].
Qed.
End entry.

(** The word of a table in physical memory. *)
Lemma frame_word t i : is_frame t -> 0 <= i < 512 ->
  page_of (t + 8 * i) = t /\ page_off (t + 8 * i) / 8 = i.
Proof.
  intros Ht Hi. pose proof (frame_aligned t Ht) as Ha. split.
  - unfold page_of. replace (t + 8 * i) with (Z.lor t (8 * i)); [apply entry_frame_mask; [done|unfold fits; lia]|].
    assert (Hd : Z.land t (8 * i) = 0).
    { apply Z.bits_inj'. intros j Hj. rewrite Z.land_spec, Z.bits_0, (frame_bits t) by done.
      destruct (Z.leb_spec 12 j); [|done]. by rewrite (fits_testbit 12 (8 * i)), andb_false_r by (unfold fits; lia). }
    symmetry. rewrite <- Z.add_lor_land, Hd. lia.
  - unfold page_off. rewrite off_add by lia. rewrite Z.mul_comm, Z.div_mul by lia. done.
Qed.

(** ** Walks *)

(** The entry [i] of [t] refers to the table [t']. *)
Definition links (m : pmem) (t i t' : Z) : Prop :=
  exists e, entry_of m t i = Some e /\ hw_present e = true /\ has_flag e PE_SIZE = false /\ hw_frame e = t'.

(** The same at the last level, where the size bit has no meaning. *)
Definition points (m : pmem) (t i t' : Z) : Prop :=
  exists e, entry_of m t i = Some e /\ hw_present e = true /\ hw_frame e = t'.

Lemma links_points m t i t' : links m t i t' -> points m t i t'.
Proof. intros (e & He & Hp & _ & Hf). by exists e. Qed.

Lemma walk_link n m t va t' :
  links m t (idx va (Z.of_nat (S n))) t' -> hw_walk (S n) m t va = hw_walk n m t' va.
Proof. intros (e & He & Hp & Hs & <-). cbn [hw_walk]. rewrite He. simpl. by rewrite Hp, Hs. Qed.

Lemma walk_absent n m t va e :
  entry_of m t (idx va (Z.of_nat n)) = Some e -> hw_present e = false -> hw_walk n m t va = None.
Proof. intros He Hp. destruct n; cbn [hw_walk]; rewrite He; simpl; by rewrite Hp. Qed.

Lemma walk_last m t va e :
  entry_of m t (idx va 0) = Some e -> hw_present e = true ->
  hw_walk 0 m t va = Some (hw_frame e + Z.land va 0xFFF).
Proof. intros He Hp. cbn [hw_walk]. change (Z.of_nat 0) with 0. rewrite He. simpl. by rewrite Hp. Qed.

(** Words of the tables that a recursive address reaches. *)
Section recursive_addresses.
Context (m : pmem) (root : Z) (Hroot : links m root R_ENTRY root).

Lemma walk_virt a b c d i t3 t2 t1 t0 :
  0 <= a < 512 -> 0 <= b < 512 -> 0 <= c < 512 -> 0 <= d < 512 -> 0 <= i < 512 ->
  links m root a t3 -> links m t3 b t2 -> links m t2 c t1 -> points m t1 d t0 ->
  hw_walk 3 m root (slot (get_virt_addr a b c d) i) = Some (t0 + 8 * i).
Proof.
  intros Ha Hb Hc Hd Hi L3 L2 L1 (e & He & Hp & <-).
  pose proof (virt_aligned a b c d Ha Hb Hc Hd) as Hal. pose proof (virt_fits a b c d) as Hfit.
  set (v := get_virt_addr a b c d) in *.
  assert (Hv : v + 8 * i < 2 ^ 64).
  { unfold fits in Hfit. assert (v = 4096 * (v / 4096)) by (apply Z_div_exact_full_2; lia).
    change (2 ^ 64) with (4096 * 2 ^ 52) in *. lia. }
  assert (slot v i = v + 8 * i) as -> by (apply wrap_small; unfold fits in *; lia).
  assert (Hidx : forall n, 0 <= n < 4 ->
    idx (v + 8 * i) n = if n =? 3 then a else if n =? 2 then b else if n =? 1 then c else d)
    by (intros n Hn; rewrite idx_add by lia; by apply idx_virt).
  rewrite (walk_link 2 m root _ t3) by (by rewrite Hidx). rewrite (walk_link 1 m t3 _ t2) by (by rewrite Hidx).
  rewrite (walk_link 0 m t2 _ t1) by (by rewrite Hidx). rewrite (walk_last m t1 _ e) by (done || by rewrite Hidx).
  by rewrite off_add by lia.
Qed.
End recursive_addresses.

(** ** A tree of tables *)

(** The indices of an address from the top. *)
Definition path (va : Z) : list Z := [idx va 3; idx va 2; idx va 1; idx va 0].

(** [D] names the tables of a tree by their paths of at most three indices. *)
Record pt_ok (m : pmem) (root : Z) (D : gmap (list Z) Z) : Prop := mk_pt_ok {
  pt_root : D !! [] = Some root;
  pt_self : links m root R_ENTRY root;
  pt_table : forall p t, D !! p = Some t ->
    0 < t /\ is_frame t /\ exists pg, m !! t = Some pg /\ length pg = 512%nat;
  pt_inj : forall p q t, D !! p = Some t -> D !! q = Some t -> p = q;
  pt_child : forall p i t, D !! (p ++ [i]) = Some t ->
    (length p < 3)%nat /\ 0 <= i < 512 /\ (p = [] -> i <> R_ENTRY) /\
    exists t', D !! p = Some t' /\ links m t' i t /\
      exists e, entry_of m t' i = Some e /\ Z.land e PE_FRAME_MASK = t;
  pt_leaf : forall p i t e, D !! p = Some t -> (length p < 3)%nat -> 0 <= i < 512 ->
    (p = [] -> i <> R_ENTRY) -> D !! (p ++ [i]) = None -> entry_of m t i = Some e ->
    e = 0 \/ (hw_present e = true /\ has_flag e PE_SIZE = true)
}.

Lemma entry_exists m root D p t i :
  pt_ok m root D -> D !! p = Some t -> 0 <= i < 512 -> exists e, entry_of m t i = Some e.
Proof.
  intros Hok Hp Hi. destruct (pt_table _ _ _ Hok p t Hp) as (_ & _ & pg & Hpg & Hl).
  unfold entry_of. rewrite Hpg. simpl. apply lookup_lt_is_Some_2. lia.
Qed.

Lemma child_links m root D p i t t' :
  pt_ok m root D -> D !! p = Some t -> D !! (p ++ [i]) = Some t' -> links m t i t'.
Proof.
  intros Hok Hp Hi. destruct (pt_child _ _ _ Hok p i t' Hi) as (_ & _ & _ & t0 & H0 & Hl & _). congruence.
Qed.

(** The path of the table of [va] at a level. *)
Definition prefix (l : pg_level_t) (va : Z) : list Z :=
  match l with
  | PG_LEVEL_PML4 => []
  | PG_LEVEL_PDP => [idx va 3]
  | PG_LEVEL_PD => [idx va 3; idx va 2]
  | PG_LEVEL_PT => [idx va 3; idx va 2; idx va 1]
  end.

(** [t] is the table of [va] at a level, by links from the root. *)
Definition reach (m : pmem) (root : Z) (l : pg_level_t) (va t : Z) : Prop :=
  match l with
  | PG_LEVEL_PML4 => t = root
  | PG_LEVEL_PDP => links m root (idx va 3) t
  | PG_LEVEL_PD => exists t1, links m root (idx va 3) t1 /\ links m t1 (idx va 2) t
  | PG_LEVEL_PT => exists t1 t2, links m root (idx va 3) t1 /\ links m t1 (idx va 2) t2 /\
      links m t2 (idx va 1) t
  end.

(** The recursive address of a table's word translates to that word. *)
Lemma reach_word m root l va t i :
  links m root R_ENTRY root -> reach m root l va t -> 0 <= i < 512 ->
  hw_walk 3 m root (slot (get_pgtable_address va l) i) = Some (t + 8 * i).
Proof.
  intros Hself Hl Hi. pose proof (fun n => idx_range va n) as Hrange.
  assert (Hre : 0 <= R_ENTRY < 512) by (unfold R_ENTRY; lia).
  assert (H3 : PML4_INDEX va = idx va 3) by done. assert (H2 : PDPT_INDEX va = idx va 2) by done.
  assert (H1 : PDT_INDEX va = idx va 1) by done.
  destruct l; cbn [get_pgtable_address reach] in *; rewrite ?H3, ?H2, ?H1.
  - destruct Hl as (t1 & t2 & L1 & L2 & L3).
    apply (walk_virt m root _ _ _ _ i root t1 t2 t); try done; try (apply Hrange; lia). by apply links_points.
  - destruct Hl as (t1 & L1 & L2).
    apply (walk_virt m root _ _ _ _ i root root t1 t); try done; try (apply Hrange; lia). by apply links_points.
  - apply (walk_virt m root _ _ _ _ i root root root t); try done; try (apply Hrange; lia). by apply links_points.
  - subst t. by apply (walk_virt m root _ _ _ _ i root root root root), links_points.
Qed.

Lemma reach_prefix m root D l va t :
  pt_ok m root D -> D !! prefix l va = Some t -> reach m root l va t.
Proof.
  intros Hok Hl. pose proof (pt_root _ _ _ Hok) as Hr. destruct l; simpl in *.
  - destruct (pt_child _ _ _ Hok [idx va 3; idx va 2] _ _ Hl) as (_ & _ & _ & t2 & H2 & L2 & _).
    destruct (pt_child _ _ _ Hok [idx va 3] _ _ H2) as (_ & _ & _ & t1 & H1 & L1 & _).
    exists t1, t2. split; [by apply (child_links m root D [])|done].
  - destruct (pt_child _ _ _ Hok [idx va 3] _ _ Hl) as (_ & _ & _ & t1 & H1 & L1 & _).
    exists t1. split; [by apply (child_links m root D [])|done].
  - by apply (child_links m root D []).
  - congruence.
Qed.

(** ** Accesses through recursive addresses *)

(** The memory with one word of a table changed. *)
Definition set_word (m : pmem) (t i v : Z) : pmem := alter (fun pg => <[Z.to_nat i := v]> pg) t m.

Lemma set_word_insert m t i v pg : m !! t = Some pg -> set_word m t i v = <[t := <[Z.to_nat i := v]> pg]> m.
Proof.
  intros Hpg. unfold set_word. apply map_eq. intros x. destruct (decide (x = t)) as [->|Hx].
  - by rewrite lookup_insert_eq, lookup_alter_eq, Hpg.
  - by rewrite lookup_insert_ne, lookup_alter_ne by congruence.
Qed.

Section accesses.
Context {St : Type} (s : mach St) (Hself : links (m_mem s) (m_cr3 s) R_ENTRY (m_cr3 s)).
Context (va : Z) (l : pg_level_t) (t : Z) (Hl : reach (m_mem s) (m_cr3 s) l va t) (Hf : is_frame t).

Lemma vload_table i e :
  0 <= i < 512 -> entry_of (m_mem s) t i = Some e -> vload s (slot (get_pgtable_address va l) i) = Ret e.
Proof.
  intros Hi He. unfold vload, translate. rewrite (reach_word _ _ _ _ _ _ Hself Hl Hi). simpl.
  destruct (frame_word t i Hf Hi) as [Hp Hw]. unfold pload. by rewrite Hp, Hw, He.
Qed.

Lemma vstore_table i v pg :
  0 <= i < 512 -> m_mem s !! t = Some pg -> length pg = 512%nat ->
  vstore s (slot (get_pgtable_address va l) i) v = Ret (with_mem s (set_word (m_mem s) t i v)).
Proof.
  intros Hi Hpg Hlen. unfold vstore, translate. rewrite (reach_word _ _ _ _ _ _ Hself Hl Hi). simpl.
  destruct (frame_word t i Hf Hi) as [Hp Hw].
  unfold pstore. rewrite Hp, Hw, Hpg. rewrite store_in_range by lia. simpl. by rewrite (set_word_insert _ _ _ _ pg).
Qed.

Lemma vclear_table pg :
  m_mem s !! t = Some pg ->
  vclear s (get_pgtable_address va l) = Ret (with_mem s (<[t := zero_page]> (m_mem s))).
Proof.
  intros Hpg. unfold vclear, translate.
  assert (get_pgtable_address va l = slot (get_pgtable_address va l) 0) as ->.
  { unfold slot. rewrite Z.mul_0_r, Z.add_0_r. symmetry. apply wrap_small.
    destruct l; simpl; apply virt_fits. }
  rewrite (reach_word _ _ _ _ _ _ Hself Hl) by lia. simpl.
  destruct (frame_word t 0 Hf) as [Hp _]; [lia|]. unfold pclear. by rewrite Hp, Hpg.
Qed.
End accesses.

Lemma entry_set_word m t i v t' j :
  0 <= i -> 0 <= j -> (exists e, entry_of m t i = Some e) ->
  entry_of (set_word m t i v) t' j = if decide (t' = t /\ j = i) then Some v else entry_of m t' j.
Proof.
  intros Hi Hj (e & He). unfold entry_of, set_word in *. destruct (decide (t' = t)) as [->|Hne].
  - rewrite lookup_alter_eq. destruct (m !! t) as [pg|]; [|done]. simpl in *.
    destruct (decide (j = i)) as [->|Hj'].
    + rewrite decide_True by done. apply list_lookup_insert_eq. by apply lookup_lt_Some in He.
    + rewrite decide_False by tauto. apply list_lookup_insert_ne. lia.
  - rewrite decide_False by tauto. by rewrite lookup_alter_ne.
Qed.

(** ** Adding a table *)

Section grow.
Context (m : pmem) (root : Z) (D : gmap (list Z) Z) (Hok : pt_ok m root D).
Context (p : list Z) (t i : Z) (Hp : D !! p = Some t) (Hlen : (length p < 3)%nat) (Hi : 0 <= i < 512).
Context (Hpi : p = [] -> i <> R_ENTRY) (Hnone : D !! (p ++ [i]) = None).
Context (Hzero : entry_of m t i = Some 0).
Context (a f : Z) (Ha : is_frame a) (Hapos : 0 < a) (Hf : fits 12 f).
Context (Hfp : has_flag f PE_PRESENT = true) (Hfs : has_flag f PE_SIZE = false).
Context (Hout : forall q, D !! q <> Some a) (pga : page) (Hpga : m !! a = Some pga).

Definition grown : pmem := <[a := zero_page]> (set_word m t i (Z.lor a f)).

Lemma grown_zero j : 0 <= j < 512 -> entry_of grown a j = Some 0.
Proof.
  intros Hj. unfold entry_of, grown. rewrite lookup_insert_eq. simpl. unfold zero_page.
  apply lookup_replicate_2. lia.
Qed.

Lemma grown_entry t' j :
  t' <> a -> 0 <= j ->
  entry_of grown t' j = if decide (t' = t /\ j = i) then Some (Z.lor a f) else entry_of m t' j.
Proof.
  intros Hne Hj. rewrite <- (entry_set_word m t i (Z.lor a f) t' j) by (lia || eauto).
  unfold entry_of, grown. by rewrite lookup_insert_ne by congruence.
Qed.

Lemma in_tree_ne q t' : D !! q = Some t' -> t' <> a.
Proof. intros Hq ->. by apply (Hout q). Qed.

(** Entries of the tree other than the new one keep their values. *)
Lemma grown_same q t' j :
  D !! q = Some t' -> 0 <= j -> q ++ [j] <> p ++ [i] -> entry_of grown t' j = entry_of m t' j.
Proof.
  intros Hq Hj Hne. rewrite grown_entry by (done || by apply (in_tree_ne q)). rewrite decide_False; [done|].
  intros [-> ->]. apply Hne. by rewrite (pt_inj _ _ _ Hok q p t Hq Hp).
Qed.

Lemma grown_links q t' j x :
  D !! q = Some t' -> 0 <= j -> q ++ [j] <> p ++ [i] -> links m t' j x -> links grown t' j x.
Proof.
  intros Hq Hj Hne (e & He & Hr). exists e. by rewrite (grown_same q).
Qed.

Lemma new_links : links grown t i a.
Proof.
  exists (Z.lor a f). rewrite grown_entry, decide_True by (done || lia || by apply (in_tree_ne p)).
  change PE_PRESENT with (2 ^ 0) in *. change PE_SIZE with (2 ^ 7) in *.
  split; [done|]. unfold hw_present. change PE_PRESENT with (2 ^ 0).
  rewrite !(entry_flag a f Ha) by lia. rewrite entry_frame by done. done.
Qed.

Lemma grown_self : links grown root R_ENTRY root.
Proof.
  apply (grown_links []); [apply Hok|unfold R_ENTRY; lia| |apply Hok].
  intros E. destruct p as [|x p']; [injection E as E; by apply Hpi|].
  apply (f_equal length) in E. rewrite !length_app in E. simpl in E. lia.
Qed.

Lemma grown_page q x : x <> a -> D !! q = Some x -> exists pg, grown !! x = Some pg /\ length pg = 512%nat.
Proof.
  intros Hne Hq. destruct (pt_table _ _ _ Hok q x Hq) as (_ & _ & pg & Hpg & Hl).
  unfold grown, set_word. rewrite lookup_insert_ne by congruence. destruct (decide (x = t)) as [->|Hx].
  - rewrite lookup_alter_eq, Hpg. simpl. eexists. split; [done|]. by rewrite length_insert.
  - rewrite lookup_alter_ne by congruence. eauto.
Qed.

Lemma grown_ok : pt_ok grown root (<[p ++ [i] := a]> D).
Proof.
  split.
  - rewrite lookup_insert_ne by (by destruct p). apply Hok.
  - apply grown_self.
  - intros q x Hq. destruct (decide (q = p ++ [i])) as [->|Hne].
    + rewrite lookup_insert_eq in Hq. injection Hq as <-. split; [done|]. split; [done|].
      exists zero_page. unfold grown. rewrite lookup_insert_eq. split; [done|]. apply length_replicate.
    + rewrite lookup_insert_ne in Hq by congruence. destruct (pt_table _ _ _ Hok q x Hq) as (? & ? & _).
      split; [done|]. split; [done|]. apply (grown_page q); [by apply (in_tree_ne q)|done].
  - intros q q' x Hq Hq'. rewrite lookup_insert_Some in Hq, Hq'.
    destruct Hq as [[<- <-]|[_ Hq]], Hq' as [[<- E]|[_ Hq']]; try done.
    + by destruct (Hout q').
    + subst. by destruct (Hout q).
    + by apply (pt_inj _ _ _ Hok q q' x).
  - intros q j x Hq. rewrite lookup_insert_Some in Hq. destruct Hq as [[E <-]|[Hne Hq]].
    + apply app_inj_tail in E as [E1 E2]. subst q j. split; [done|]. split; [done|]. split; [done|].
      exists t. rewrite lookup_insert_ne by (intros E; apply (f_equal length) in E; rewrite length_app in E; simpl in E; lia).
      split; [done|]. split; [apply new_links|]. exists (Z.lor a f). rewrite grown_entry, decide_True by (done || lia || by apply (in_tree_ne p)).
      split; [done|]. by apply entry_frame_mask.
    + destruct (pt_child _ _ _ Hok q j x Hq) as (Hl & Hj & Hjr & t' & Ht' & Hlk & e & He & Hm).
      split; [done|]. split; [done|]. split; [done|]. exists t'. rewrite lookup_insert_ne by (intros <-; congruence).
      split; [done|]. split; [apply (grown_links q); [done|lia|congruence|done]|].
      exists e. rewrite (grown_same q) by (done || lia || congruence). done.
  - intros q j x e Hq Hl Hj Hjr Hn He. rewrite lookup_insert_None in Hn. destruct Hn as [Hn Hne].
    rewrite lookup_insert_Some in Hq. destruct Hq as [[<- <-]|[Hne' Hq]].
    + rewrite grown_zero in He by done. left. congruence.
    + rewrite (grown_same q) in He by (done || lia || congruence).
      by apply (pt_leaf _ _ _ Hok q j x e).
Qed.

(** Translations are as before: the new table is empty. *)
Lemma grown_walk n : forall q x va,
  D !! q = Some x -> (length q + n = 3)%nat -> (n = 3%nat -> idx va 3 <> R_ENTRY) ->
  hw_walk n grown x va = hw_walk n m x va.
Proof.
  induction n as [|n IH]; intros q x va Hq Hl Hr.
  - cbn [hw_walk]. rewrite (grown_same q); [done|done|apply idx_range; lia|].
    intros E. apply (f_equal length) in E. rewrite !length_app in E. simpl in E. lia.
  - pose proof (idx_range va (Z.of_nat (S n)) ltac:(lia)) as Hrange.
    set (j := idx va (Z.of_nat (S n))) in *.
    destruct (decide (q ++ [j] = p ++ [i])) as [E|Hne].
    + apply app_inj_tail in E as [E1 E2]. subst q. assert (x = t) as -> by congruence.
      rewrite (walk_absent (S n) m t va 0); [|fold j; by rewrite E2|done].
      rewrite (walk_link n grown t va a) by (fold j; rewrite E2; apply new_links).
      apply (walk_absent n grown a va 0); [|done]. apply grown_zero, idx_range. lia.
    + cbn [hw_walk]. fold j. rewrite (grown_same q) by (done || lia).
      destruct (entry_of m x j) as [e|] eqn:He; [|done]. simpl. destruct (hw_present e) eqn:Hpe; [|done].
      destruct (has_flag e PE_SIZE) eqn:Hse; [done|]. simpl.
      destruct (D !! (q ++ [j])) as [y|] eqn:Hy.
      * assert (Hlk : links m x j y) by (by apply (child_links m root D q)).
        destruct Hlk as (e' & He' & _ & _ & Hfr). assert (e' = e) as -> by congruence. rewrite Hfr.
        apply (IH (q ++ [j])); [done|rewrite length_app; simpl; lia|lia].
      * destruct (pt_leaf _ _ _ Hok q j x e) as [-> | [_ ?]]; try done; try congruence; [lia|].
        intros ->. simpl in Hl. assert (n = 2%nat) as -> by lia. by apply Hr.
Qed.
End grow.

(** ** Writing an entry of a last-level table *)

Section leaf.
Context (m : pmem) (root : Z) (D : gmap (list Z) Z) (Hok : pt_ok m root D).
Context (p : list Z) (t i v : Z) (Hp : D !! p = Some t) (Hlen : length p = 3%nat) (Hi : 0 <= i < 512).

Lemma leaf_same q x j :
  D !! q = Some x -> 0 <= j -> q ++ [j] <> p ++ [i] -> entry_of (set_word m t i v) x j = entry_of m x j.
Proof.
  intros Hq Hj Hne. rewrite entry_set_word by (lia || by apply (entry_exists m root D p)).
  rewrite decide_False; [done|]. intros [-> ->]. apply Hne. by rewrite (pt_inj _ _ _ Hok q p t Hq Hp).
Qed.

Lemma short_ne q j : (length q < 3)%nat -> q ++ [j] <> p ++ [i].
Proof. intros Hq E. apply (f_equal length) in E. rewrite !length_app in E. simpl in E. lia. Qed.

Lemma leaf_ok : pt_ok (set_word m t i v) root D.
Proof.
  assert (Hlk : forall q x j y, D !! q = Some x -> 0 <= j -> (length q < 3)%nat ->
    links m x j y -> links (set_word m t i v) x j y).
  { intros q x j y Hq Hj Hl (e & He & Hr). exists e. by rewrite (leaf_same q) by (done || by apply short_ne). }
  split.
  - apply Hok.
  - apply (Hlk []); [apply Hok|unfold R_ENTRY; lia|simpl; lia|apply Hok].
  - intros q x Hq. destruct (pt_table _ _ _ Hok q x Hq) as (? & ? & pg & Hpg & Hl).
    split; [done|]. split; [done|]. unfold set_word. destruct (decide (x = t)) as [->|Hx].
    + rewrite lookup_alter_eq, Hpg. simpl. eexists. split; [done|]. by rewrite length_insert.
    + rewrite lookup_alter_ne by congruence. eauto.
  - apply Hok.
  - intros q j x Hq. destruct (pt_child _ _ _ Hok q j x Hq) as (Hl & Hj & Hjr & t' & Ht' & Hlk' & e & He & Hm).
    split; [done|]. split; [done|]. split; [done|]. exists t'. split; [done|].
    split; [apply (Hlk q); [done|lia|done|done]|]. exists e.
    rewrite (leaf_same q) by (done || lia || by apply short_ne). done.
  - intros q j x e Hq Hl Hj Hjr Hn He. rewrite (leaf_same q) in He by (done || lia || by apply short_ne).
    by apply (pt_leaf _ _ _ Hok q j x e).
Qed.

(** Other addresses translate as before. *)
Lemma leaf_walk n : forall q x va,
  D !! q = Some x -> (length q + n = 3)%nat -> q = take (3 - n) (path va) ->
  idx va 3 <> R_ENTRY -> path va <> p ++ [i] ->
  hw_walk n (set_word m t i v) x va = hw_walk n m x va.
Proof.
  induction n as [|n IH]; intros q x va Hq Hl Eq Hr Hne.
  - cbn [hw_walk]. rewrite (leaf_same q); [done|done|apply idx_range; lia|].
    intros E. apply Hne. by rewrite <- E, Eq.
  - pose proof (idx_range va (Z.of_nat (S n)) ltac:(lia)) as Hrange.
    cbn [hw_walk]. set (j := idx va (Z.of_nat (S n))) in *.
    rewrite (leaf_same q) by (done || lia || (apply short_ne; lia)).
    destruct (entry_of m x j) as [e|] eqn:He; [|done]. simpl. destruct (hw_present e) eqn:Hpe; [|done].
    destruct (has_flag e PE_SIZE) eqn:Hse; [done|]. simpl.
    destruct (D !! (q ++ [j])) as [y|] eqn:Hy.
    + assert (Hlk : links m x j y) by (by apply (child_links m root D q)).
      destruct Hlk as (e' & He' & _ & _ & Hfr). assert (e' = e) as -> by congruence. rewrite Hfr.
      apply (IH (q ++ [j])); [done|rewrite length_app; simpl; lia| |done|done].
      rewrite Eq. unfold j. destruct n as [|[|[|]]]; [done|done|done|lia].
    + destruct (pt_leaf _ _ _ Hok q j x e) as [-> | [_ ?]]; try done; try congruence; [lia|].
      intros ->. simpl in Hl. assert (n = 2%nat) as -> by lia. done.
Qed.
End leaf.

(** ** recursive_map_entry *)

Section machine.
Context {St : Type} `{FrameSource St}.
Implicit Types s : mach St.

(** The tables form a tree, and free frames are memory outside of it. *)
Record mach_ok s (D : gmap (list Z) Z) : Prop := mk_mach_ok {
  mo_pt : pt_ok (m_mem s) (m_cr3 s) D;
  mo_src : src_ok (m_src s);
  mo_free : forall a, src_free (m_src s) a ->
    (forall q, D !! q <> Some a) /\ exists pg, m_mem s !! a = Some pg
}.

(** No large page covers [va]: a missing table has the entry 0. *)
Definition no_large s (D : gmap (list Z) Z) (va : Z) : Prop :=
  forall l t, l <> PG_LEVEL_PT -> D !! prefix l va = Some t -> D !! prefix (level_below l) va = None ->
    entry_of (m_mem s) t (idx va (level_num l)) = Some 0.

(** Addresses outside of the recursive region translate alike. *)
Definition same_view s s' : Prop :=
  m_cr3 s' = m_cr3 s /\
  forall va, idx va 3 <> R_ENTRY ->
    hw_walk 3 (m_mem s') (m_cr3 s) va = hw_walk 3 (m_mem s) (m_cr3 s) va.

Lemma prefix_below l va :
  l <> PG_LEVEL_PT -> prefix (level_below l) va = prefix l va ++ [idx va (level_num l)].
Proof. by destruct l. Qed.

Lemma prefix_length l va : l <> PG_LEVEL_PT -> (length (prefix l va) < 3)%nat.
Proof. destruct l; simpl; [done|lia..]. Qed.

Lemma level_num_range l : 0 <= level_num l < 4.
Proof. destruct l; simpl; lia. Qed.

Lemma prefix_root l va : idx va 3 <> R_ENTRY -> prefix l va = [] -> idx va (level_num l) <> R_ENTRY.
Proof. by destruct l. Qed.

Definition table_flags_ok (f : Z) : Prop :=
  fits 12 f /\ has_flag f PE_PRESENT = true /\ has_flag f PE_SIZE = false.

(** The table of [va] below [l] exists already. *)
Lemma step_present s D va f l t t' ts :
  mach_ok s D -> idx va 3 <> R_ENTRY -> l <> PG_LEVEL_PT -> D !! prefix l va = Some t ->
  D !! prefix (level_below l) va = Some t' -> map_level_step s va f l ts = Ret (s, ts).
Proof.
  intros [Hpt _ _] Hne Hl Ht Ht'. rewrite prefix_below in Ht' by done.
  destruct (pt_child _ _ _ Hpt _ _ _ Ht') as (_ & Hi & _ & t0 & H0 & Hlk & e & He & Hm).
  assert (t0 = t) as -> by congruence. unfold map_level_step.
  destruct (pt_table _ _ _ Hpt _ _ Ht) as (_ & Hf & _).
  rewrite (vload_table s (pt_self _ _ _ Hpt) va l t (reach_prefix _ _ _ _ _ _ Hpt Ht) Hf _ e Hi He).
  simpl. rewrite Hm. destruct (pt_table _ _ _ Hpt _ _ Ht') as (Hpos & _).
  rewrite (proj2 (Z.eqb_neq _ _)) by lia. destruct Hlk as (e' & He' & Hp & _).
  assert (e' = e) as -> by congruence. by rewrite Hp.
Qed.

Lemma reach_set m root D l va t t' v :
  pt_ok m root D -> idx va 3 <> R_ENTRY -> l <> PG_LEVEL_PT -> D !! prefix l va = Some t ->
  links (set_word m t (idx va (level_num l)) v) t (idx va (level_num l)) t' ->
  D !! prefix (level_below l) va = None ->
  links (set_word m t (idx va (level_num l)) v) root R_ENTRY root /\
  reach (set_word m t (idx va (level_num l)) v) root (level_below l) va t'.
Proof.
  intros Hok Hne Hl Ht Hlk Hnone. set (i := idx va (level_num l)) in *.
  assert (Hi : 0 <= i < 512) by (apply idx_range; apply level_num_range).
  assert (Hkeep : forall q x j y, D !! q = Some x -> 0 <= j -> q ++ [j] <> prefix l va ++ [i] ->
    links m x j y -> links (set_word m t i v) x j y).
  { intros q x j y Hq Hj Hd (e & He & Hr). exists e. split; [|done].
    rewrite entry_set_word by (lia || by apply (entry_exists m root D (prefix l va))).
    rewrite decide_False; [done|]. intros [-> ->]. apply Hd. by rewrite (pt_inj _ _ _ Hok q _ t Hq Ht). }
  pose proof (pt_root _ _ _ Hok) as Hr. split.
  - apply (Hkeep []); [done|unfold R_ENTRY; lia| |apply Hok]. intros E.
    destruct l; simpl in E; try done. unfold i in *. simpl in *. congruence.
  - destruct l; [done| | |]; simpl in *.
    + destruct (reach_prefix _ _ _ PG_LEVEL_PD va t Hok Ht) as (t1 & L1 & L2).
      destruct (pt_child _ _ _ Hok [idx va 3] _ _ Ht) as (_ & _ & _ & t1' & H1 & _ & _).
      assert (Hl1 : links m root (idx va 3) t1') by (by apply (child_links m root D [])).
      exists t1', t. split; [apply (Hkeep []); try done; apply idx_range; lia|]. split; [|done].
      apply (Hkeep [idx va 3]); try done; [apply idx_range; lia|]. by apply (child_links m root D [idx va 3]).
    + exists t. split; [|done]. apply (Hkeep []); try done; [apply idx_range; lia|].
      by apply (child_links m root D []).
    + assert (t = root) as -> by congruence. done.
Qed.

(** A table is allocated, linked and cleared. *)
Lemma step_absent s D va f l t ts :
  mach_ok s D -> idx va 3 <> R_ENTRY -> l <> PG_LEVEL_PT -> table_flags_ok f ->
  no_large s D va -> D !! prefix l va = Some t -> D !! prefix (level_below l) va = None ->
  (0 < src_left (m_src s))%nat ->
  exists s' a, map_level_step s va f l ts = Ret (s', ts ++ [a]) /\
    mach_ok s' (<[prefix (level_below l) va := a]> D) /\
    (forall va', no_large s D va' -> no_large s' (<[prefix (level_below l) va := a]> D) va') /\
    src_free (m_src s) a /\ src_left (m_src s) = S (src_left (m_src s')) /\ same_view s s'.
Proof.
  intros [Hpt Hsrc Hfree] Hne Hl (Hf & Hfp & Hfs) Hnl Ht Hnone Hleft.
  destruct (src_alloc_spec (m_src s) Hsrc Hleft) as (a & src' & Hal & Hsrc' & Hleft' & Hfa & Hrest).
  destruct (src_frame _ _ Hsrc Hfa) as (Hapos & Haf & _). destruct (Hfree a Hfa) as [Hout (pga & Hpga)].
  pose proof (level_num_range l) as Hln. pose proof (prefix_length l va Hl) as Hplen. set (i := idx va (level_num l)).
  assert (Hi : 0 <= i < 512) by (apply idx_range; lia).
  pose proof (Hnl l t Hl Ht Hnone) as Hz. fold i in Hz.
  destruct (pt_table _ _ _ Hpt _ _ Ht) as (_ & Htf & pg & Hpg & Hlen).
  assert (Hnone' : D !! (prefix l va ++ [i]) = None) by (by rewrite <- prefix_below).
  assert (Hta : t <> a) by (intros ->; by apply (Hout (prefix l va))).
  assert (Hlk : links (set_word (m_mem s) t i (Z.lor a f)) t i a).
  { destruct (new_links (m_mem s) D (prefix l va) t i Ht Hplen Hi Hz a f Haf Hf Hfp Hfs Hout) as (e & He & Hr).
    exists e. split; [|done]. unfold grown, entry_of in *. by rewrite lookup_insert_ne in He by done. }
  destruct (reach_set _ _ _ l va t a _ Hpt Hne Hl Ht Hlk Hnone) as [Hself Hreach]. fold i in Hself, Hreach.
  set (s1 := mk_mach (set_word (m_mem s) t i (Z.lor a f)) (m_cr3 s) (m_cpu s) src').
  set (s2 := mk_mach (grown (m_mem s) t i a f) (m_cr3 s) (m_cpu s) src').
  assert (Hstep : map_level_step s va f l ts = Ret (s2, ts ++ [a])).
  { unfold map_level_step. fold i.
    rewrite (vload_table s (pt_self _ _ _ Hpt) va l t (reach_prefix _ _ _ _ _ _ Hpt Ht) Htf i 0 Hi Hz). simpl.
    unfold alloc_page. rewrite Hal. simpl.
    rewrite (vstore_table (mk_mach (m_mem s) (m_cr3 s) (m_cpu s) src') (pt_self _ _ _ Hpt) va l t
      (reach_prefix _ _ _ _ _ _ Hpt Ht) Htf i _ pg Hi Hpg Hlen). unfold with_mem at 1. simpl. fold s1.
    rewrite (vclear_table s1 Hself va (level_below l) a Hreach Haf pga); [done|].
    simpl. unfold set_word. by rewrite lookup_alter_ne. }
  assert (Hpi : prefix l va = [] -> i <> R_ENTRY) by (by apply prefix_root).
  exists s2, a. split; [done|]. rewrite prefix_below by done. fold i.
  split; [|split; [|split; [done|split; [done|]]]].
  - split; [by apply (grown_ok (m_mem s) (m_cr3 s) D Hpt _ _ _ Ht) with pga|done|]. intros b Hb.
    destruct (Hrest b Hb) as [Hb' Hba]. destruct (Hfree b Hb') as [Hbo (pgb & Hpgb)]. split.
    + intros q Hq. rewrite lookup_insert_Some in Hq. destruct Hq as [[_ ?]|[_ Hq]]; [congruence|by apply (Hbo q)].
    + simpl. unfold grown, set_word. rewrite lookup_insert_ne by congruence. destruct (decide (b = t)) as [->|Hbt].
      * rewrite lookup_alter_eq, Hpg. by eexists.
      * rewrite lookup_alter_ne by congruence. eauto.
  - intros va' Hnl' l' t' Hl' Ht' Hn'. rewrite lookup_insert_None in Hn'. destruct Hn' as [Hn' Hd].
    rewrite lookup_insert_Some in Ht'. destruct Ht' as [[E <-]|[Hd' Ht']].
    + apply (grown_zero _ (prefix l va)); [done|]. apply idx_range, level_num_range.
    + pose proof (Hnl' l' t' Hl' Ht' Hn') as Hz'. simpl.
      rewrite (grown_same (m_mem s) (m_cr3 s) D Hpt (prefix l va) t i Ht Hplen Hi Hz a f Hout (prefix l' va'));
        [done|done|apply idx_range; apply level_num_range|]. rewrite <- prefix_below by done. congruence.
  - split; [done|]. intros va' Hne'. simpl.
    apply (grown_walk (m_mem s) (m_cr3 s) D Hpt (prefix l va) t i Ht Hplen Hi Hz a f Haf Hf Hfp Hfs Hout
      3 []); [apply Hpt|done|done].
Qed.

Lemma same_view_refl s : same_view s s.
Proof. by split. Qed.

Lemma same_view_trans s1 s2 s3 : same_view s1 s2 -> same_view s2 s3 -> same_view s1 s3.
Proof.
  intros [E1 H1] [E2 H2]. split; [congruence|]. intros va Hva. rewrite <- H1 by done. rewrite E1 in H2. by apply H2.
Qed.

(** After a step the table below exists. *)
Lemma level_step_ok s D va f l t ts :
  mach_ok s D -> no_large s D va -> idx va 3 <> R_ENTRY -> l <> PG_LEVEL_PT -> table_flags_ok f ->
  D !! prefix l va = Some t -> (0 < src_left (m_src s))%nat ->
  exists s' D' ts' t', map_level_step s va f l ts = Ret (s', ts') /\ mach_ok s' D' /\
    (forall va', no_large s D va' -> no_large s' D' va') /\ D ⊆ D' /\ D' !! prefix (level_below l) va = Some t' /\ same_view s s' /\
    (src_left (m_src s) <= S (src_left (m_src s')))%nat.
Proof.
  intros Hok Hnl Hne Hl Hf Ht Hleft. destruct (D !! prefix (level_below l) va) as [t'|] eqn:Hb.
  - exists s, D, ts, t'. rewrite (step_present s D va f l t t' ts Hok Hne Hl Ht Hb).
    split_and!; try done. lia.
  - destruct (step_absent s D va f l t ts Hok Hne Hl Hf Hnl Ht Hb Hleft)
      as (s' & a & Hs & Hok' & Hnl' & Hfree & Hleft' & Hv).
    exists s', (<[prefix (level_below l) va := a]> D), (ts ++ [a]), a. split; [done|]. split; [done|].
    split; [done|]. split; [by apply insert_subseteq|]. split; [apply lookup_insert_eq|]. split; [done|lia].
Qed.

(** All tables down to the last level. *)
Lemma levels_ok s D va f :
  mach_ok s D -> no_large s D va -> idx va 3 <> R_ENTRY -> table_flags_ok f ->
  (3 <= src_left (m_src s))%nat ->
  exists s' D' ts t, map_levels (levels_above PG_LEVEL_PT) s va f [] = Ret (s', ts) /\ mach_ok s' D' /\
    D ⊆ D' /\ D' !! prefix PG_LEVEL_PT va = Some t /\ same_view s s' /\
    (forall va', no_large s D va' -> no_large s' D' va') /\ (src_left (m_src s) <= 3 + src_left (m_src s'))%nat.
Proof.
  intros Hok Hnl Hne Hf Hleft. simpl.
  destruct (level_step_ok s D va f PG_LEVEL_PML4 (m_cr3 s) [] Hok Hnl Hne) as (s1 & D1 & ts1 & t1 & -> & Hok1 & Hnl1 & Hs1 & Ht1 & Hv1 & Hl1);
    [done|done|apply Hok|lia|]. simpl.
  destruct (level_step_ok s1 D1 va f PG_LEVEL_PDP t1 ts1 Hok1 (Hnl1 _ Hnl) Hne) as (s2 & D2 & ts2 & t2 & -> & Hok2 & Hnl2 & Hs2 & Ht2 & Hv2 & Hl2);
    [done|done|done|lia|]. simpl.
  destruct (level_step_ok s2 D2 va f PG_LEVEL_PD t2 ts2 Hok2 (Hnl2 _ (Hnl1 _ Hnl)) Hne) as (s3 & D3 & ts3 & t3 & -> & Hok3 & Hnl3 & Hs3 & Ht3 & Hv3 & Hl3);
    [done|done|done|lia|]. simpl.
  exists s3, D3, ts3, t3. split; [done|]. split; [done|]. split; [by etrans; [|etrans]|]. split; [done|].
  split; [by eapply same_view_trans; [|eapply same_view_trans]|]. split; [|lia]. intros va' H'. by apply Hnl3, Hnl2, Hnl1.
Qed.

(** The walk of an address whose last table exists. *)
Lemma walk_path m root D va t e :
  pt_ok m root D -> D !! prefix PG_LEVEL_PT va = Some t -> entry_of m t (idx va 0) = Some e ->
  hw_walk 3 m root va = if hw_present e then Some (hw_frame e + Z.land va 0xFFF) else None.
Proof.
  intros Hok Ht He. destruct (reach_prefix _ _ _ _ _ _ Hok Ht) as (t1 & t2 & L1 & L2 & L3).
  rewrite (walk_link 2 m root va t1 L1), (walk_link 1 m t1 va t2 L2), (walk_link 0 m t2 va t L3).
  cbn [hw_walk]. change (Z.of_nat 0) with 0. rewrite He. simpl. by destruct (hw_present e).
Qed.

(** Stores a word in the last table of [va]. *)
Definition put_entry s (t va v : Z) : mach St := with_mem s (set_word (m_mem s) t (idx va 0) v).

Lemma put_entry_ok s D va t v :
  mach_ok s D -> idx va 3 <> R_ENTRY -> D !! prefix PG_LEVEL_PT va = Some t ->
  vstore s (slot (get_pgtable_address va PG_LEVEL_PT) (idx va 0)) v = Ret (put_entry s t va v) /\
  mach_ok (put_entry s t va v) D /\
  (forall va', path va' = path va -> hw_walk 3 (m_mem (put_entry s t va v)) (m_cr3 s) va' =
    if hw_present v then Some (hw_frame v + Z.land va' 0xFFF) else None) /\
  (forall va', idx va' 3 <> R_ENTRY -> path va' <> path va ->
    hw_walk 3 (m_mem (put_entry s t va v)) (m_cr3 s) va' = hw_walk 3 (m_mem s) (m_cr3 s) va').
Proof.
  intros [Hpt Hsrc Hfree] Hne Ht. pose proof (idx_range va 0 ltac:(lia)) as Hi.
  destruct (pt_table _ _ _ Hpt _ _ Ht) as (_ & Hf & pg & Hpg & Hlen).
  pose proof (leaf_ok _ _ _ Hpt (prefix PG_LEVEL_PT va) t (idx va 0) v Ht eq_refl Hi) as Hpt'.
  split; [by apply (vstore_table s (pt_self _ _ _ Hpt) va PG_LEVEL_PT t (reach_prefix _ _ _ _ _ _ Hpt Ht) Hf _ v pg)|].
  split; [|split].
  - split; [done|done|]. intros a Ha. destruct (Hfree a Ha) as [Ho (pga & Hpga)]. split; [done|].
    simpl. unfold set_word. destruct (decide (a = t)) as [->|Hat].
    + rewrite lookup_alter_eq, Hpg. by eexists.
    + rewrite lookup_alter_ne by congruence. eauto.
  - intros va' E. assert (Ep : prefix PG_LEVEL_PT va' = prefix PG_LEVEL_PT va /\ idx va' 0 = idx va 0)
      by (unfold path in E; simpl; injection E as -> -> -> ->; done). destruct Ep as [Ep E0].
    apply (walk_path _ _ D va' t v); [done|by rewrite Ep|]. rewrite E0. simpl.
    rewrite entry_set_word, decide_True by (done || lia || by apply (entry_exists (m_mem s) (m_cr3 s) D (prefix PG_LEVEL_PT va))). done.
  - intros va' Hne' Hd. apply (leaf_walk _ _ _ Hpt (prefix PG_LEVEL_PT va) t _ v Ht eq_refl Hi 3 []); try done. apply Hpt.
Qed.

Lemma put_entry_small s D va t v va' :
  mach_ok s D -> D !! prefix PG_LEVEL_PT va = Some t -> no_large s D va' -> no_large (put_entry s t va v) D va'.
Proof.
  intros [Hpt _ _] Ht Hnl l t' Hl Ht' Hn. pose proof (idx_range va 0 ltac:(lia)) as Hi. pose proof (idx_range va' (level_num l) (proj1 (level_num_range l))) as Hi'. simpl.
  rewrite entry_set_word by (lia || by apply (entry_exists (m_mem s) (m_cr3 s) D (prefix PG_LEVEL_PT va))).
  rewrite decide_False; [by apply Hnl|]. intros [-> _]. pose proof (pt_inj _ _ _ Hpt _ _ _ Ht Ht') as E.
  by destruct l.
Qed.

Lemma pe_flags_ok vm_flags :
  fits 12 (vm_flags_to_pe_flags vm_flags) /\ has_flag (vm_flags_to_pe_flags vm_flags) PE_PRESENT = true.
Proof.
  unfold vm_flags_to_pe_flags. unfold fits.
  destruct (has_flag vm_flags VM_WRITE), (has_flag vm_flags VM_USER), (has_flag vm_flags VM_NOCACHE),
    (has_flag vm_flags VM_WRITETHRU), (has_flag vm_flags VM_EXEC), (has_flag vm_flags VM_GLOBAL),
    (has_flag vm_flags VM_HUGE_2MB), (has_flag vm_flags VM_HUGE_1GB); vm_compute; done.
Qed.

Definition small_page (vm_flags : Z) : Prop :=
  has_flag vm_flags VM_HUGE_2MB = false /\ has_flag vm_flags VM_HUGE_1GB = false.

Lemma table_pg_flags_ok va vm_flags : small_page vm_flags -> table_flags_ok (table_pg_flags va vm_flags).
Proof.
  intros [H1 H2]. unfold table_pg_flags, table_flags_ok. rewrite H1, H2. simpl.
  destruct (va <? USER_SPACE_END); (split; [unfold fits; vm_compute; by split|done]).
Qed.

End machine.

(** ** Sources of frames *)

(** A list of free frames, for concrete machines. *)
Section supply.
Definition supply_ok (l : list Z) : Prop :=
  NoDup l /\ Forall (fun a => 0 < a /\ hw_frame a = a /\ fits 64 a) l.

#[export] Program Instance list_source : FrameSource (list Z) := {
  src_alloc l := match l with [] => Panic | a :: l' => Ret (a, l') end;
  src_free l a := a ∈ l;
  src_left l := length l;
  src_ok := supply_ok
}.
Next Obligation.
  intros [|a l] [Hnd Hf] Hl; simpl in *; [lia|]. apply NoDup_cons in Hnd as [Ha Hnd].
  apply Forall_cons in Hf as [Hfa Hf]. exists a, l. split; [done|]. split; [done|]. split; [done|].
  split; [set_solver|]. intros b Hb. split; [set_solver|]. by intros ->.
Qed.
Next Obligation. intros l a [_ Hf] Ha. rewrite Forall_forall in Hf. by apply Hf. Qed.
End supply.

(** ** Properties *)

#[local] Arguments map_levels : simpl never.
#[local] Arguments levels_above : simpl never.
#[local] Arguments get_pgtable_address : simpl never.

Section claims.
Context {St : Type} `{FrameSource St}.
Implicit Types s : mach St.

(** A page is mapped, with at most three new tables. *)
Lemma map_entry_ok s (D : gmap (list Z) Z) (vaddr paddr vm_flags : Z) :
  mach_ok s D -> no_large s D vaddr -> idx vaddr 3 <> R_ENTRY -> small_page vm_flags -> is_frame paddr ->
  (3 <= src_left (m_src s))%nat ->
  exists s' D' tables,
    recursive_map_entry s vaddr paddr vm_flags =
      Ret (slot (get_pgtable_address vaddr PG_LEVEL_PT) (PT_INDEX vaddr), tables, s') /\
    mach_ok s' D' /\ D ⊆ D' /\
    (forall va, path va = path vaddr -> translate s' va = Ret (paddr + Z.land va 0xFFF)) /\
    (forall va, idx va 3 <> R_ENTRY -> path va <> path vaddr -> translate s' va = translate s va) /\
    (forall va, no_large s D va -> no_large s' D' va) /\ (src_left (m_src s) <= 3 + src_left (m_src s'))%nat.
Proof.
  intros Hok Hlarge Hva [H2 H1] Hpa Hleft.
  destruct (levels_ok s D vaddr (table_pg_flags vaddr vm_flags) Hok Hlarge Hva) as
    (s1 & D1 & ts & t & Hl & Hok1 & Hsub & Ht & [Ecr Hview] & Hsm & Hcnt); [by apply table_pg_flags_ok|done|].
  destruct (pe_flags_ok vm_flags) as [Hff Hfp]. set (v := Z.lor paddr (vm_flags_to_pe_flags vm_flags)).
  destruct (put_entry_ok s1 D1 vaddr t v Hok1 Hva Ht) as (Hst & Hok2 & Hin & Hother).
  exists (put_entry s1 t vaddr v), D1, ts. split; [|split; [done|split; [done|split; [|split]]]].
  - unfold recursive_map_entry, map_level_of, huge_align_ok. rewrite H2, H1. simpl.
    rewrite Hl. simpl. fold v. by rewrite Hst.
  - intros va E. unfold translate. simpl m_cr3. simpl m_mem in Hin. simpl m_mem. rewrite (Hin va E).
    assert (hw_present v = true) as ->
      by (unfold hw_present, v; change PE_PRESENT with (2 ^ 0) in *; by rewrite entry_flag).
    unfold v. by rewrite entry_frame.
  - intros va Hne Hd. unfold translate. simpl m_cr3. simpl m_mem in Hother. simpl m_mem.
    rewrite (Hother va Hne Hd), Ecr, (Hview va Hne). done.
  - split; [|done]. intros va Hnl. apply (put_entry_small s1 D1); [done|done|by apply Hsm].
Qed.

(** C12. recursive_map_entry maps exactly the page of [vaddr]: afterwards its
    addresses translate into the frame [paddr], every other address outside of
    the recursive region translates as before, and the tables still form a
    tree, with missing tables allocated, cleared and linked on the way. *)
Theorem recursive_map_entry_maps s (D : gmap (list Z) Z) (vaddr paddr vm_flags : Z)
    (Hok : mach_ok s D) (Hlarge : no_large s D vaddr) (Hva : idx vaddr 3 <> R_ENTRY)
    (Hsmall : small_page vm_flags) (Hpa : is_frame paddr) (Hleft : (3 <= src_left (m_src s))%nat) :
  exists s' D' tables,
    recursive_map_entry s vaddr paddr vm_flags =
      Ret (slot (get_pgtable_address vaddr PG_LEVEL_PT) (PT_INDEX vaddr), tables, s') /\
    mach_ok s' D' /\ D ⊆ D' /\
    (forall va, path va = path vaddr -> translate s' va = Ret (paddr + Z.land va 0xFFF)) /\
    (forall va, idx va 3 <> R_ENTRY -> path va <> path vaddr -> translate s' va = translate s va).
Proof.
  destruct (map_entry_ok s D vaddr paddr vm_flags Hok Hlarge Hva Hsmall Hpa Hleft) as (s' & D' & tables & H1 & H2 & H3 & H4 & H5 & _).
  by exists s', D', tables.
Qed.

Lemma hw_frame_masked e : hw_frame (Z.land e PE_FRAME_MASK) = hw_frame e.
Proof. unfold hw_frame. by rewrite <- Z.land_assoc. Qed.

(** C30. In the walk of the tables, recursive_unmap_entry takes exactly the
    page of [vaddr] out of the translation, whenever the page's last table
    exists.  recursive_update_entry replaces the flags of its entry: when the
    entry is present no address outside of the recursive region translates
    differently; when it is not, the page, which faulted, is mapped to the
    frame that the entry holds, since the new flags always contain
    PE_PRESENT. *)
Theorem recursive_unmap_update s (D : gmap (list Z) Z) (vaddr vm_flags t e : Z)
    (Hok : mach_ok s D) (Hva : idx vaddr 3 <> R_ENTRY) (Hsmall : small_page vm_flags)
    (Ht : D !! prefix PG_LEVEL_PT vaddr = Some t)
    (He : entry_of (m_mem s) t (PT_INDEX vaddr) = Some e) (Hfr : is_frame (Z.land e PE_FRAME_MASK)) :
  (exists s', recursive_unmap_entry s vaddr vm_flags = Ret s' /\ mach_ok s' D /\
    (forall va, path va = path vaddr -> translate s' va = Fault) /\
    (forall va, idx va 3 <> R_ENTRY -> path va <> path vaddr -> translate s' va = translate s va)) /\
  (exists s', recursive_update_entry s vaddr vm_flags = Ret s' /\ mach_ok s' D /\
    entry_of (m_mem s') t (PT_INDEX vaddr) =
      Some (Z.lor (Z.land e PE_FRAME_MASK) (vm_flags_to_pe_flags vm_flags)) /\
    (forall va, path va = path vaddr -> translate s' va = Ret (Z.land e PE_FRAME_MASK + Z.land va 0xFFF)) /\
    (forall va, path va = path vaddr -> translate s va = if hw_present e then translate s' va else Fault) /\
    (forall va, idx va 3 <> R_ENTRY -> path va <> path vaddr -> translate s' va = translate s va)).
Proof.
  destruct Hsmall as [H2 H1]. destruct (pe_flags_ok vm_flags) as [Hff Hfp].
  pose proof (mo_pt _ _ Hok) as Hpt. pose proof (idx_range vaddr 0 ltac:(lia)) as Hi.
  unfold recursive_unmap_entry, recursive_update_entry, map_level_of. rewrite H2, H1. cbn [level_num]. split.
  - destruct (put_entry_ok s D vaddr t 0 Hok Hva Ht) as (Hst & Hok' & Hin & Hother).
    exists (put_entry s t vaddr 0). split; [done|]. split; [done|].
    split; intros va; unfold translate; change (m_cr3 (put_entry s t vaddr _)) with (m_cr3 s);
      [intros E|intros Hne Hd].
    + by rewrite (Hin va E).
    + by rewrite (Hother va Hne Hd).
  - set (v := Z.lor (Z.land e PE_FRAME_MASK) (vm_flags_to_pe_flags vm_flags)).
    destruct (put_entry_ok s D vaddr t v Hok Hva Ht) as (Hst & Hok' & Hin & Hother).
    destruct (pt_table _ _ _ Hpt _ _ Ht) as (_ & Hf & _).
    rewrite (vload_table s (pt_self _ _ _ Hpt) vaddr PG_LEVEL_PT t (reach_prefix _ _ _ _ _ _ Hpt Ht) Hf _ e Hi He).
    exists (put_entry s t vaddr v). split; [done|]. split; [done|]. split.
    { change (PT_INDEX vaddr) with (idx vaddr 0). simpl.
      rewrite entry_set_word, decide_True by (done || lia || by apply (entry_exists (m_mem s) (m_cr3 s) D (prefix PG_LEVEL_PT vaddr))).
      done. }
    assert (Hnew : forall va, path va = path vaddr -> translate (put_entry s t vaddr v) va = Ret (Z.land e PE_FRAME_MASK + Z.land va 0xFFF)).
    { intros va E. unfold translate. change (m_cr3 (put_entry s t vaddr _)) with (m_cr3 s). rewrite (Hin va E).
      assert (hw_present v = true) as ->
        by (unfold hw_present, v; change PE_PRESENT with (2 ^ 0) in *; by rewrite entry_flag).
      unfold v. by rewrite entry_frame. }
    split; [done|]. split; intros va.
    + intros E. rewrite (Hnew va E). unfold translate. assert (Ep : prefix PG_LEVEL_PT va = prefix PG_LEVEL_PT vaddr /\ idx va 0 = idx vaddr 0)
        by (unfold path in E; simpl; injection E as -> -> -> ->; done). destruct Ep as [Ep E0].
      rewrite (walk_path _ _ D va t e Hpt) by (by rewrite ?Ep, ?E0). destruct (hw_present e); [|done]. by rewrite <- hw_frame_masked, Hfr.
    + intros Hne Hd. unfold translate. change (m_cr3 (put_entry s t vaddr _)) with (m_cr3 s). by rewrite (Hother va Hne Hd).
Qed.

Lemma huge_flags_ok va vm_flags :
  ~ small_page vm_flags ->
  fits 12 (table_pg_flags va vm_flags) /\ has_flag (table_pg_flags va vm_flags) PE_PRESENT = true /\
  has_flag (table_pg_flags va vm_flags) PE_SIZE = true.
Proof.
  intros Hs. unfold table_pg_flags. assert (has_flag vm_flags VM_HUGE_2MB || has_flag vm_flags VM_HUGE_1GB = true) as ->.
  { apply orb_true_iff. unfold small_page in Hs.
    destruct (has_flag vm_flags VM_HUGE_2MB), (has_flag vm_flags VM_HUGE_1GB); tauto. }
  destruct (va <? USER_SPACE_END); (split; [unfold fits; vm_compute; by split|done]).
Qed.

(** With a large page the tables above it get the size bit too: when the
    top entry of a 2 MB or 1 GB mapping is missing, linking it makes every
    address below that entry fault, whatever is mapped there later. *)
Theorem huge_mapping_breaks_top s (D : gmap (list Z) Z) (vaddr vm_flags : Z)
    (Hok : mach_ok s D) (Hlarge : no_large s D vaddr) (Hva : idx vaddr 3 <> R_ENTRY)
    (Hhuge : ~ small_page vm_flags) (Hnone : D !! [PML4_INDEX vaddr] = None)
    (Hleft : (0 < src_left (m_src s))%nat) :
  exists s' a, map_level_step s vaddr (table_pg_flags vaddr vm_flags) PG_LEVEL_PML4 [] = Ret (s', [a]) /\
    forall m va, entry_of m (m_cr3 s') (PML4_INDEX vaddr) = entry_of (m_mem s') (m_cr3 s') (PML4_INDEX vaddr) ->
      idx va 3 = PML4_INDEX vaddr -> hw_walk 3 m (m_cr3 s') va = None.
Proof.
  destruct Hok as [Hpt Hsrc Hfree]. pose proof (pt_root _ _ _ Hpt) as Hr.
  destruct (src_alloc_spec (m_src s) Hsrc Hleft) as (a & src' & Hal & _ & _ & Hfa & _).
  destruct (src_frame _ _ Hsrc Hfa) as (Hapos & Haf & _). destruct (Hfree a Hfa) as [Hout (pga & Hpga)].
  set (i := idx vaddr 3) in *. assert (Hi : 0 <= i < 512) by (apply idx_range; lia).
  pose proof (Hlarge PG_LEVEL_PML4 (m_cr3 s) ltac:(done) Hr Hnone) as Hz.
  destruct (pt_table _ _ _ Hpt [] _ Hr) as (_ & Htf & pg & Hpg & Hlen).
  destruct (huge_flags_ok vaddr vm_flags Hhuge) as (Hf & Hfp & Hfs).
  set (f := table_pg_flags vaddr vm_flags) in *.
  assert (Hra : m_cr3 s <> a) by (intros E; apply (Hout []); by rewrite Hr, E).
  assert (He : forall m, entry_of m (m_cr3 s) i = Some (Z.lor a f) -> forall va, idx va 3 = i -> hw_walk 3 m (m_cr3 s) va = None).
  { intros m Hm va Ei. cbn [hw_walk]. change (Z.of_nat 3) with 3. rewrite Ei, Hm. simpl.
    unfold hw_present. change PE_PRESENT with (2 ^ 0) in *. change PE_SIZE with (2 ^ 7) in *.
    by rewrite !(entry_flag a f Haf), Hfp, Hfs by lia. }
  set (s1 := mk_mach (set_word (m_mem s) (m_cr3 s) i (Z.lor a f)) (m_cr3 s) (m_cpu s) src').
  assert (Hex : exists e, entry_of (m_mem s) (m_cr3 s) i = Some e) by eauto.
  assert (Hcl : vclear s1 (get_pgtable_address vaddr PG_LEVEL_PDP) = Ret (with_mem s1 (<[a := zero_page]> (m_mem s1)))).
  { unfold vclear, translate.
    assert (get_pgtable_address vaddr PG_LEVEL_PDP = slot (get_virt_addr R_ENTRY R_ENTRY R_ENTRY i) 0) as ->.
    { unfold slot. rewrite Z.mul_0_r, Z.add_0_r. symmetry. apply wrap_small, virt_fits. }
    assert (Hself : links (m_mem s1) (m_cr3 s) R_ENTRY (m_cr3 s)).
    { destruct (pt_self _ _ _ Hpt) as (e & He1 & Hr1). exists e. split; [|done]. simpl.
      rewrite entry_set_word, decide_False by (done || (unfold R_ENTRY in *; lia) || tauto). done. }
    rewrite (walk_virt (m_mem s1) (m_cr3 s) _ _ _ _ 0 (m_cr3 s) (m_cr3 s) (m_cr3 s) a);
      try done; try (unfold R_ENTRY; lia).
    - simpl mbind. rewrite Z.mul_0_r, Z.add_0_r. unfold pclear.
      destruct (frame_word a 0 Haf) as [Hpo _]; [lia|]. rewrite Z.mul_0_r, Z.add_0_r in Hpo. rewrite Hpo.
      simpl m_mem at 1. unfold set_word at 1. rewrite lookup_alter_ne by done. by rewrite Hpga.
    - exists (Z.lor a f). simpl. rewrite entry_set_word, decide_True by (done || lia). split; [done|].
      unfold hw_present. change PE_PRESENT with (2 ^ 0) in *. rewrite (entry_flag a f Haf) by lia.
      by rewrite entry_frame. }
  exists (with_mem s1 (<[a := zero_page]> (m_mem s1))), a. split.
  - unfold map_level_step. cbn [level_num level_below]. fold i.
    rewrite (vload_table s (pt_self _ _ _ Hpt) vaddr PG_LEVEL_PML4 (m_cr3 s) eq_refl Htf i 0 Hi Hz). simpl.
    unfold alloc_page. rewrite Hal. simpl.
    rewrite (vstore_table (mk_mach (m_mem s) (m_cr3 s) (m_cpu s) src') (pt_self _ _ _ Hpt) vaddr PG_LEVEL_PML4
      (m_cr3 s) eq_refl Htf i _ pg Hi Hpg Hlen). unfold with_mem at 1. simpl. fold s1. by rewrite Hcl.
  - intros m va Hm Ei. apply He; [|done]. etrans; [exact Hm|]. simpl.
    unfold entry_of at 1. rewrite lookup_insert_ne by congruence. change (entry_of (set_word (m_mem s) (m_cr3 s) i (Z.lor a f)) (m_cr3 s) i = Some (Z.lor a f)).
    rewrite entry_set_word, decide_True by (done || lia). done.
Qed.
End claims.

(** ** A concrete machine *)

(** One table whose entry 510 names itself, and four more frames. *)
Definition demo_mem : pmem :=
  <[0x1000 := <[510%nat := 0x1003]> zero_page]> (<[0x2000 := zero_page]> (<[0x3000 := zero_page]>
    (<[0x4000 := zero_page]> (<[0x5000 := zero_page]> ∅)))).
Definition demo : mach (list Z) := mk_mach demo_mem 0x1000 0 [0x2000; 0x3000; 0x4000].
Definition demo_tree : gmap (list Z) Z := {[ [] := 0x1000 ]}.

Lemma demo_entry i e : 0 <= i < 512 -> entry_of demo_mem 0x1000 i = Some e -> i <> 510 -> e = 0.
Proof.
  intros Hi He Hne. unfold entry_of, demo_mem in He. rewrite lookup_insert_eq in He. cbn [mbind option_bind] in He.
  rewrite list_lookup_insert_ne in He by lia. unfold zero_page in He.
  apply lookup_replicate in He as [-> _]. done.
Qed.

Lemma demo_pt_ok : pt_ok demo_mem 0x1000 demo_tree.
Proof.
  unfold demo_tree. split.
  - apply lookup_singleton_eq.
  - exists 0x1003. by vm_compute.
  - intros p t [<- <-]%lookup_singleton_Some. split; [lia|]. split; [by vm_compute|]. eexists. by split.
  - intros p q t [<- _]%lookup_singleton_Some [<- _]%lookup_singleton_Some. done.
  - intros p i t [E _]%lookup_singleton_Some. by destruct p.
  - intros p i t e [<- <-]%lookup_singleton_Some _ Hi Hne _ He. left. apply (demo_entry i); [done..|]. by apply Hne.
Qed.

Lemma demo_free a : a ∈ [0x2000; 0x3000; 0x4000; 0x5000] ->
  (forall q, demo_tree !! q <> Some a) /\ exists pg, demo_mem !! a = Some pg.
Proof.
  intros Ha. split.
  - unfold demo_tree. intros q [_ <-]%lookup_singleton_Some. set_solver.
  - apply list_elem_of_In in Ha. simpl in Ha. destruct Ha as [<- | [<- | [<- | [<- | []]]]]; vm_compute; eauto.
Qed.

Lemma demo_ok : mach_ok demo demo_tree.
Proof.
  split; [apply demo_pt_ok| |intros a Ha; apply demo_free; set_solver].
  split; [by repeat constructor; set_solver|]. repeat constructor; by vm_compute.
Qed.

Lemma demo_no_large {St} (src : St) va :
  idx va 3 <> R_ENTRY -> no_large (mk_mach demo_mem 0x1000 0 src) demo_tree va.
Proof.
  intros Hva l t Hl. unfold demo_tree. intros [E <-]%lookup_singleton_Some _. destruct l; try done.
  pose proof (idx_range va 3 ltac:(lia)) as Hi. cbn [level_num m_mem]. unfold entry_of, demo_mem.
  rewrite lookup_insert_eq. cbn [mbind option_bind]. unfold R_ENTRY in Hva. rewrite list_lookup_insert_ne by lia. unfold zero_page. apply lookup_replicate_2. lia.
Qed.

Lemma demo_mapped :
  exists (s : mach (list Z)) D t, mach_ok s D /\ D !! prefix PG_LEVEL_PT 0x400000 = Some t /\
    entry_of (m_mem s) t (PT_INDEX 0x400000) = Some 0x5003.
Proof.
  destruct (levels_ok demo demo_tree 0x400000 3 demo_ok) as (s1 & D1 & ts & t & _ & Hok & _ & Ht & _ & _ & _);
    [by apply demo_no_large|done|by vm_compute|simpl; lia|].
  destruct (put_entry_ok s1 D1 0x400000 t 0x5003 Hok) as (_ & Hok' & _); [done..|].
  exists (put_entry s1 t 0x400000 0x5003), D1, t. split; [done|]. split; [done|]. simpl.
  rewrite entry_set_word; [by rewrite decide_True|by vm_compute|by vm_compute|].
  apply (entry_exists (m_mem s1) (m_cr3 s1) D1 (prefix PG_LEVEL_PT 0x400000)); [apply Hok|done|by vm_compute].
Qed.

Lemma recursive_unmap_update_witness :
  exists (s s' : mach (list Z)), recursive_unmap_entry s 0x400000 VM_WRITE = Ret s' /\ translate s' 0x400123 = Fault.
Proof.
  destruct demo_mapped as (s & D & t & Hok & Ht & He).
  destruct (recursive_unmap_update s D 0x400000 VM_WRITE t 0x5003 Hok) as [(s' & Hu & _ & Hin & _) _].
  - done.
  - by split.
  - exact Ht.
  - exact He.
  - by vm_compute.
  - exists s, s'. split; [exact Hu|]. by apply Hin.
Defined.

Lemma huge_mapping_breaks_top_witness :
  exists s' a, map_level_step demo 0x40000000 (table_pg_flags 0x40000000 VM_HUGE_2MB) PG_LEVEL_PML4 [] = Ret (s', [a]) /\
    translate s' 0x40000000 = Fault.
Proof.
  destruct (huge_mapping_breaks_top demo demo_tree 0x40000000 VM_HUGE_2MB) as (s' & a & Hs & Hf).
  - apply demo_ok.
  - by apply demo_no_large.
  - done.
  - intros [E _]. done.
  - done.
  - simpl; lia.
  - exists s', a. split; [exact Hs|]. unfold translate. by rewrite (Hf (m_mem s') 0x40000000).
Defined.
