(* ===== verification/PgFrames.v ===== *)
(** * Page tables built from the frame allocators

    The page table code takes its tables from [alloc_pages(1)] of
    kernel/mm/pmalloc.c.  Here the zones of frame allocators are a frame source
    of the page table model: an allocation gives a frame that was free, and
    leaves the others as they were. *)

From S2P Require Import Prelude Bitmap Mm EarlyMem FrameAlloc PgTable PgWalk.
From stdpp Require Import list gmap.
Local Open Scope Z_scope.

(** ** The zones as one supply *)

(** The allocators in the order in which alloc_pages asks them. *)
Definition zone_ids (s : pm_state) : list nat :=
  zone_list s ZONE_TYPE_HIGH ++ zone_list s ZONE_TYPE_NORMAL ++
  zone_list s ZONE_TYPE_DMA ++ zone_list s ZONE_TYPE_LOW.

Definition fa_frames (fa : frame_allocator_t) : Z := fa_size fa / 4096.

(** An allocator whose frames can be used in page tables: a frame at 0 would
    be taken for a failure, and entries hold addresses of 52 bits. *)
Record fa_usable (fa : frame_allocator_t) : Prop := mk_usable {
  us_ok : fa_ok fa (fa_frames fa);
  us_base : 0 < fa_base fa;
  us_end : fa_base fa + fa_size fa <= 2 ^ 52;
  us_bmp : bmp_free (fa_data fa) <> 0;
}.

Definition fa_apart (fa fa' : frame_allocator_t) : Prop :=
  fa_base fa + fa_size fa <= fa_base fa' \/ fa_base fa' + fa_size fa' <= fa_base fa.

Record pm_ok (s : pm_state) : Prop := mk_pm_ok {
  po_nodup : NoDup (zone_ids s);
  po_fa : forall id, id ∈ zone_ids s -> exists fa, pm_fas s !! id = Some fa /\ fa_usable fa;
  po_apart : forall id id' fa fa', id ∈ zone_ids s -> id' ∈ zone_ids s -> id <> id' ->
    pm_fas s !! id = Some fa -> pm_fas s !! id' = Some fa' -> fa_apart fa fa';
}.

Definition fa_left (fa : frame_allocator_t) : nat := Z.to_nat (fa_free fa / 4096).
Definition left_at (s : pm_state) (id : nat) : nat := from_option fa_left 0%nat (pm_fas s !! id).
Definition frames_left (s : pm_state) : nat := sum_list_with (left_at s) (zone_ids s).

(** The frame [i] of the allocator [id] is free. *)
Definition free_in (s : pm_state) (id : nat) (i a : Z) : Prop :=
  exists fa, pm_fas s !! id = Some fa /\ 0 <= i < fa_frames fa /\ a = fa_base fa + i * 4096 /\
    bit_at (bmp_map (fa_data fa)) i = false.

Definition frame_free (s : pm_state) (a : Z) : Prop :=
  exists id i, id ∈ zone_ids s /\ free_in s id i a.

(** The address of the page that [alloc_pages(1)] returns. *)
Definition alloc_frame (s : pm_state) : outcome (Z * pm_state) :=
  '(p, s') ← alloc_pages s 1;
  match p with
  | None => Fault
  | Some id => pg ← get_page s' id; Ret (pg_address pg, s')
  end.

(** The page struct of a frame that an allocator has given out. *)
Definition frame_page (id : nat) (a : Z) : page_t :=
  mk_page a (Z.lor PG_OWNING PG_HEAD) 1 true (Some id) None [] None 1.

(** [s'] is [s] after the allocator [id] has given out its frame at [a]. *)
Record took (s s' : pm_state) (id : nat) (i a : Z) : Prop := mk_took {
  tk_free : free_in s id i a;
  tk_fa : exists fa fa', pm_fas s !! id = Some fa /\ pm_fas s' = <[id := fa']> (pm_fas s) /\
    fa_usable fa' /\ fa_base fa' = fa_base fa /\ fa_size fa' = fa_size fa /\
    fa_free fa = fa_free fa' + 4096 /\ 0 <= fa_free fa' /\
    flips (bmp_map (fa_data fa)) (bmp_map (fa_data fa')) i true;
  tk_zones : pm_zones s' = pm_zones s;
  tk_page : pm_pages s' = <[pm_fresh s := frame_page id a]> (pm_pages s);
  tk_fresh : pm_fresh s' = S (pm_fresh s);
}.

Lemma took_ids s s' id i a : took s s' id i a -> zone_ids s' = zone_ids s.
Proof. intros Ht. unfold zone_ids, zone_list. by rewrite (tk_zones _ _ _ _ _ Ht). Qed.

Lemma single_page s id frame :
  exists s', alloc_page_structs s (Some id) frame 1 PAGE_SIZE = Ret (Some (pm_fresh s), s') /\
    pm_fas s' = pm_fas s /\ pm_zones s' = pm_zones s /\
    pm_pages s' = <[pm_fresh s := frame_page id frame]> (pm_pages s) /\ pm_fresh s' = S (pm_fresh s).
Proof.
  unfold alloc_page_structs. change (Z.to_nat 1) with 1%nat. simpl.
  unfold upd_page. simpl. rewrite lookup_insert_eq. simpl. eexists. split; [done|]. simpl.
  split; [done|]. split; [done|]. split; [by rewrite insert_insert_eq|done].
Qed.

Lemma fa_alloc_one s id fa :
  pm_fas s !! id = Some fa -> fa_usable fa -> 4096 <= fa_free fa ->
  exists i a s', fa_alloc_pages s id 1 PAGE_SIZE = Ret (Some (pm_fresh s), s') /\ took s s' id i a.
Proof.
  intros Hfa [Hok Hb He Hbmp] Hfree.
  destruct (fa_alloc_single_spec fa _ Hok) as (i & b' & E & Hi & Hwf & Hfl & Hl & Hf' & _); [lia|done|].
  pose proof (fa_ok_flip fa b' i true _ Hok Hi Hwf Hl Hfl) as Hok'.
  pose proof Hok as [_ [_ Hal] Hs [Hr1 Hr2] _ Hcc]. set (fa' := with_free fa (fa_free fa + -4096) b') in *.
  destruct (single_page (set_fa s id fa') id (fa_base fa + i * 4096)) as (s' & Hp & Hf & Hz & Hpg & Hfr).
  exists i, (fa_base fa + i * 4096), s'. split.
  - unfold fa_alloc_pages. change (valid_pg_size PAGE_SIZE) with true. simpl. unfold get_fa. rewrite Hfa. simpl.
    rewrite (proj2 (Z.eqb_neq (fa_free fa) 0)) by lia. simpl. rewrite E. simpl.
    rewrite wrap_small by (unfold fits; lia). rewrite (proj2 (Z.eqb_neq _ 0)) by lia.
    rewrite (Z.div_mod (fa_base fa) 4096), Hal, Z.add_0_r, <- Z.mul_comm, <- Z.mul_add_distr_r by lia.
    rewrite align_page_multiple. simpl.
    rewrite Z.mul_add_distr_r, (Z.mul_comm (_ / 4096)), <- (Z.add_0_r (4096 * _)), <- Hal, <- Z.div_mod by lia.
    exact Hp.
  - split; try done.
    + exists fa. split; [done|]. split; [done|]. split; [done|]. by apply (proj1 Hfl).
    + exists fa, fa'. split; [done|]. split; [done|]. split; [split; try done; simpl; by rewrite Hf'|].
      split; [done|]. split; [done|]. simpl. split; [lia|]. split; [lia|done].
Qed.

(** ** What an allocation keeps *)

Lemma took_lookup s s' id i a id' :
  took s s' id i a -> id' <> id -> pm_fas s' !! id' = pm_fas s !! id'.
Proof. intros [_ (fa & fa' & _ & -> & _) _ _ _] Hne. by rewrite list_lookup_insert_ne. Qed.

Lemma took_same s s' id i a :
  took s s' id i a -> exists fa fa', pm_fas s !! id = Some fa /\ pm_fas s' !! id = Some fa' /\ fa_usable fa' /\
    fa_base fa' = fa_base fa /\ fa_size fa' = fa_size fa /\ fa_free fa = fa_free fa' + 4096 /\ 0 <= fa_free fa' /\
    flips (bmp_map (fa_data fa)) (bmp_map (fa_data fa')) i true.
Proof.
  intros [_ (fa & fa' & Hfa & E & Hr) _ _ _]. exists fa, fa'. split; [done|]. split; [|done].
  rewrite E. apply list_lookup_insert_eq. by apply lookup_lt_Some in Hfa.
Qed.

(** Every allocator keeps its range. *)
Lemma took_range s s' id i a id' fa' :
  took s s' id i a -> pm_fas s' !! id' = Some fa' ->
  exists fa, pm_fas s !! id' = Some fa /\ fa_base fa' = fa_base fa /\ fa_size fa' = fa_size fa.
Proof.
  intros Ht Hfa'. destruct (decide (id' = id)) as [->|Hne].
  - destruct (took_same _ _ _ _ _ Ht) as (fa & fa2 & Hfa & E & _ & ? & ? & _). exists fa. by simplify_eq.
  - rewrite (took_lookup _ _ _ _ _ _ Ht Hne) in Hfa'. eauto.
Qed.

Lemma took_ok s s' id i a : pm_ok s -> took s s' id i a -> pm_ok s'.
Proof.
  intros [Hnd Hfa Hap] Ht. pose proof (took_ids _ _ _ _ _ Ht) as Ei. split; rewrite ?Ei; [done| |].
  - intros id' Hid'. destruct (decide (id' = id)) as [->|Hne].
    + destruct (took_same _ _ _ _ _ Ht) as (? & fa' & _ & ? & ? & _). eauto.
    + rewrite (took_lookup _ _ _ _ _ _ Ht Hne). by apply Hfa.
  - intros id1 id2 fa1 fa2 H1 H2 Hne E1 E2.
    destruct (took_range _ _ _ _ _ _ _ Ht E1) as (f1 & G1 & B1 & S1).
    destruct (took_range _ _ _ _ _ _ _ Ht E2) as (f2 & G2 & B2 & S2).
    unfold fa_apart. rewrite B1, B2, S1, S2. by apply (Hap id1 id2).
Qed.

Lemma took_left s s' id i a : pm_ok s -> id ∈ zone_ids s -> took s s' id i a -> frames_left s = S (frames_left s').
Proof.
  intros [Hnd _ _] Hid Ht. unfold frames_left. rewrite (took_ids _ _ _ _ _ Ht).
  assert (Hat : left_at s id = S (left_at s' id)).
  { destruct (took_same _ _ _ _ _ Ht) as (fa & fa' & Hfa & Hfa' & _ & _ & _ & Hf & H0 & _).
    unfold left_at. rewrite Hfa, Hfa'. simpl. unfold fa_left. rewrite Hf.
    replace (fa_free fa' + 4096) with (fa_free fa' + 1 * 4096) by lia. rewrite Z.div_add by lia.
    rewrite Z2Nat.inj_add by (lia || (apply Z.div_pos; lia)). lia. }
  assert (Hother : forall id', id' <> id -> left_at s' id' = left_at s id').
  { intros id' Hne. unfold left_at. by rewrite (took_lookup _ _ _ _ _ _ Ht Hne). }
  clear Ht. induction Hid as [x l|x y l Hl IH]; apply NoDup_cons in Hnd as [Hx Hnd]; simpl.
  - rewrite Hat. assert (sum_list_with (left_at s') l = sum_list_with (left_at s) l) as ->; [|lia].
    assert (Hall : forall y, y ∈ l -> left_at s' y = left_at s y) by (intros y Hy; apply Hother; by intros ->).
    clear -Hall. induction l as [|y l IH]; [done|]. simpl. rewrite Hall, IH by set_solver. done.
  - rewrite (Hother y) by (by intros ->). rewrite IH by done. lia.
Qed.

(** A free frame names its allocator and its index. *)
Lemma free_in_inj s id id' i i' a :
  pm_ok s -> id ∈ zone_ids s -> id' ∈ zone_ids s -> free_in s id i a -> free_in s id' i' a -> id = id' /\ i = i'.
Proof.
  intros [_ Hus Hap] Hid Hid' (fa & Hfa & Hi & Ea & _) (fa' & Hfa' & Hi' & Ea' & _).
  destruct (decide (id = id')) as [->|Hne]; [split; [done|]; simplify_eq; lia|]. exfalso.
  destruct (Hus id Hid) as (f & E & [Hok _ _ _]); simplify_eq. destruct (Hus id' Hid') as (f' & E' & [Hok' _ _ _]); simplify_eq.
  pose proof (ok_size _ _ Hok). pose proof (ok_size _ _ Hok').
  destruct (Hap id id' fa fa' Hid Hid' Hne Hfa Hfa'); lia.
Qed.

Lemma took_free s s' id i a b :
  pm_ok s -> id ∈ zone_ids s -> took s s' id i a -> frame_free s' b -> frame_free s b /\ b <> a.
Proof.
  intros Hok Hid Ht (id' & j & Hid' & fa' & Hfa' & Hj & Eb & Hbit). rewrite (took_ids _ _ _ _ _ Ht) in Hid'.
  destruct (decide (id' = id)) as [->|Hne].
  - destruct (took_same _ _ _ _ _ Ht) as (fa & fa2 & Hfa & Hfa2 & _ & B & S & _ & _ & Hold & Hnew).
    rewrite Hfa2 in Hfa'. injection Hfa' as ->. rewrite Hnew in Hbit by lia.
    destruct (Z.eqb_spec j i) as [->|Hji]; [done|].
    assert (Hb : free_in s id j b).
    { exists fa. unfold fa_frames in *. rewrite <- S, <- B. done. }
    split; [by exists id, j|]. intros ->.
    by destruct (free_in_inj _ _ _ _ _ _ Hok Hid Hid Hb (tk_free _ _ _ _ _ Ht)).
  - rewrite (took_lookup _ _ _ _ _ _ Ht Hne) in Hfa'. assert (Hb : free_in s id' j b) by by exists fa'.
    split; [by exists id', j|]. intros ->.
    by destruct (free_in_inj _ _ _ _ _ _ Hok Hid' Hid Hb (tk_free _ _ _ _ _ Ht)).
Qed.

(** ** The search through the zones *)

Lemma zone_loop_one s ids :
  pm_ok s -> (forall id, id ∈ ids -> id ∈ zone_ids s) ->
  (sum_list_with (left_at s) ids = 0%nat /\ zone_loop ids s 4096 1 PAGE_SIZE = Ret (None, s)) \/
  (exists id i a s', id ∈ zone_ids s /\ zone_loop ids s 4096 1 PAGE_SIZE = Ret (Some (pm_fresh s), s') /\
    took s s' id i a).
Proof.
  intros Hok. induction ids as [|id ids IH]; intros Hin; [by left|].
  destruct (po_fa _ Hok id) as (fa & Hfa & Hus); [set_solver|]. simpl. unfold get_fa. rewrite Hfa. simpl.
  destruct (Z.leb_spec 4096 (fa_free fa)) as [Hle|Hlt].
  - right. destruct (fa_alloc_one s id fa Hfa Hus Hle) as (i & a & s' & E & Ht).
    exists id, i, a, s'. split; [set_solver|]. by rewrite E.
  - destruct IH as [[Hs E]|Hex]; [set_solver| |by right]. left. split; [|done]. rewrite Hs.
    unfold left_at. rewrite Hfa. simpl. unfold fa_left.
    destruct (us_ok _ Hus) as [_ _ _ _ _ Hcc]. pose proof (clear_count_range (bmp_map (fa_data fa)) (Z.to_nat (fa_frames fa))).
    rewrite Z.div_small by lia. done.
Qed.

Lemma zone_one s z :
  pm_ok s -> (forall id, id ∈ zone_list s z -> id ∈ zone_ids s) ->
  (sum_list_with (left_at s) (zone_list s z) = 0%nat /\ alloc_pages_zone s z 1 PAGE_SIZE = Ret (None, s)) \/
  (exists id i a s', id ∈ zone_ids s /\ alloc_pages_zone s z 1 PAGE_SIZE = Ret (Some (pm_fresh s), s') /\
    took s s' id i a).
Proof. intros Hok Hin. apply zone_loop_one; done. Qed.

Lemma alloc_one s :
  pm_ok s -> (0 < frames_left s)%nat ->
  exists id i a s', id ∈ zone_ids s /\ alloc_pages s 1 = Ret (Some (pm_fresh s), s') /\ took s s' id i a.
Proof.
  intros Hok Hleft.
  unfold alloc_pages, alloc_pages_size. change (valid_pg_size PAGE_SIZE) with true. cbn [kassert mbind outcome_bind].
  unfold frames_left, zone_ids in Hleft. rewrite !sum_list_with_app in Hleft.
  cbn [alloc_pages_from zone_alloc_order].
  destruct (zone_one s ZONE_TYPE_HIGH Hok) as [[H1 ->]|(id & i & a & s' & Hid & -> & Ht)];
    [set_solver|cbn [mbind outcome_bind]|simpl; eauto 10].
  destruct (zone_one s ZONE_TYPE_NORMAL Hok) as [[H2 ->]|(id & i & a & s' & Hid & -> & Ht)];
    [set_solver|cbn [mbind outcome_bind]|simpl; eauto 10].
  destruct (zone_one s ZONE_TYPE_DMA Hok) as [[H3 ->]|(id & i & a & s' & Hid & -> & Ht)];
    [set_solver|cbn [mbind outcome_bind]|simpl; eauto 10].
  destruct (zone_one s ZONE_TYPE_LOW Hok) as [[H4 _]|(id & i & a & s' & Hid & -> & Ht)];
    [set_solver|lia|simpl; eauto 10].
Qed.

Lemma alloc_frame_spec s :
  pm_ok s -> (0 < frames_left s)%nat ->
  exists id i a s', id ∈ zone_ids s /\ alloc_frame s = Ret (a, s') /\ took s s' id i a.
Proof.
  intros Hok Hleft. destruct (alloc_one s Hok Hleft) as (id & i & a & s' & Hid & E & Ht).
  exists id, i, a, s'. split; [done|]. split; [|done]. unfold alloc_frame. rewrite E. cbn [mbind outcome_bind].
  unfold get_page. by rewrite (tk_page _ _ _ _ _ Ht), lookup_insert_eq.
Qed.

(** The zones are a frame source of the page table code. *)
#[export] Program Instance zone_source : FrameSource pm_state := {
  src_alloc := alloc_frame;
  src_free := frame_free;
  src_left := frames_left;
  src_ok := pm_ok
}.
Next Obligation.
  intros s Hok Hleft. destruct (alloc_frame_spec s Hok Hleft) as (id & i & a & s' & Hid & E & Ht).
  exists a, s'. split; [done|]. split; [by apply (took_ok s s' id i a)|].
  split; [by apply (took_left s s' id i a)|]. split; [exists id, i; split; [done|apply Ht]|].
  intros b. by apply (took_free s s' id i a b).
Qed.
Next Obligation.
  intros s a Hok (id & i & Hid & fa & Hfa & Hi & Ea & _). destruct (po_fa _ Hok id Hid) as (f & E & Hus). simplify_eq.
  destruct Hus as [[_ [_ Hal] Hs _ _ _] Hb He _].
  split; [lia|]. split; [|unfold fits; lia]. apply frame_of_aligned; [lia|].
  rewrite Z.mod_add by lia. done.
Qed.

(** The same source with an invariant of the page structs: taking a frame adds
    a struct and changes none. *)
Section kept.
Context (P : pm_state -> Prop) (Hkept : forall s s' id i a, took s s' id i a -> P s -> P s').

#[local] Program Instance kept_source : FrameSource pm_state := {
  src_alloc := alloc_frame;
  src_free := frame_free;
  src_left := frames_left;
  src_ok s := pm_ok s /\ P s
}.
Next Obligation.
  intros s [Hok Hp] Hleft. destruct (alloc_frame_spec s Hok Hleft) as (id & i & a & s' & Hid & E & Ht).
  exists a, s'. split; [done|]. split; [split; [by apply (took_ok s s' id i a)|by apply (Hkept s s' id i a)]|].
  split; [by apply (took_left s s' id i a)|]. split; [exists id, i; split; [done|apply Ht]|].
  intros b. by apply (took_free s s' id i a b).
Qed.
Next Obligation. intros s a [Hok _]. by apply (src_frame (FrameSource := zone_source)). Qed.

End kept.

(** Mapping a page with tables from a zone that holds one small allocator. *)
Definition demo_zones : pm_state :=
  mk_pm [mk_fa 0x2000 (4 * 4096) (4 * 4096) (mk_bitmap [0] 8 4 0)] [[0%nat]; []; []; []] [4; 0; 0; 0] 0
    (mk_early [] 0 0 0 0 0) ∅ 0%nat.

Lemma demo_zones_ok : pm_ok demo_zones.
Proof.
  split.
  - by repeat constructor; set_solver.
  - intros id ->%list_elem_of_singleton. eexists. split; [done|].
    split; [|done..]. split; try done; try (simpl; lia). split; [|done]. repeat constructor; simpl; lia.
  - intros id id' ? ? ->%list_elem_of_singleton ->%list_elem_of_singleton; done.
Qed.

Lemma demo_zones_mach : mach_ok (mk_mach demo_mem 0x1000 0 demo_zones) demo_tree.
Proof.
  split; [apply demo_pt_ok|apply demo_zones_ok|].
  intros a (id & i & ->%list_elem_of_singleton & fa & [= <-] & Hi & -> & _). apply demo_free.
  change (0 <= i < 4) in Hi. assert (i = 0 \/ i = 1 \/ i = 2 \/ i = 3) as [-> | [-> | [-> | ->]]] by lia; set_solver.
Qed.

Lemma recursive_map_entry_maps_witness :
  exists s' tables,
    recursive_map_entry (mk_mach demo_mem 0x1000 0 demo_zones) 0x400000 0x5000 VM_WRITE =
      Ret (slot (get_pgtable_address 0x400000 PG_LEVEL_PT) (PT_INDEX 0x400000), tables, s') /\
    translate s' 0x400123 = Ret 0x5123.
Proof.
  destruct (recursive_map_entry_maps (mk_mach demo_mem 0x1000 0 demo_zones) demo_tree 0x400000 0x5000 VM_WRITE)
    as (s' & D' & ts & He & _ & _ & Hin & _).
  - apply demo_zones_mach.
  - by apply demo_no_large.
  - done.
  - by split.
  - by vm_compute.
  - vm_compute. lia.
  - exists s', ts. split; [exact He|]. by rewrite Hin.
Defined.
