(* ===== verification/PgWindow.v ===== *)
(** * The temporary window of kernel/mm/pgtable.c

    Pages that are not mapped are reached through one entry per processor of
    the table at T_ENTRY of the current root.  The window functions change the
    bytes of the given pages, close the window again and touch nothing else. *)

From S2P Require Import Prelude Bitmap Mm Kio PgTable PgWalk.
From stdpp Require Import list gmap.
Local Open Scope Z_scope.

(** ** Pages as bytes *)

Definition page_ok (p : page) : Prop := length p = 512%nat /\ Forall (fits 64) p.

Lemma le_bytes_length n v : length (le_bytes n v) = n.
Proof. revert v. induction n as [|n IH]; intros v; [done|]. simpl. by rewrite IH. Qed.

Lemma le_bytes_fits n v : Forall (fits 8) (le_bytes n v).
Proof. revert v. induction n as [|n IH]; intros v; [constructor|]. simpl. constructor; [apply wrap_range; lia|apply IH]. Qed.

Lemma le_bytes_word bs : Forall (fits 8) bs -> le_bytes (length bs) (le_word bs) = bs.
Proof.
  induction 1 as [|b bs Hb Hbs IH]; [done|]. simpl. unfold fits in Hb.
  assert (u8 (b + 256 * le_word bs) = b) as ->.
  { unfold wrap. rewrite Z.mul_comm, Z.mod_add by lia. apply Z.mod_small. lia. }
  f_equal. rewrite Z.shiftr_div_pow2 by lia. change (2 ^ 8) with 256.
  rewrite Z.mul_comm, Z.div_add, Z.div_small by lia. exact IH.
Qed.

Lemma le_word_fits bs : Forall (fits 8) bs -> fits (8 * Z.of_nat (length bs)) (le_word bs).
Proof.
  induction 1 as [|b bs Hb Hbs IH]; [by vm_compute|]. unfold fits in *. cbn [length le_word foldr].
  change (foldr _ 0 bs) with (le_word bs). rewrite Nat2Z.inj_succ.
  replace (8 * Z.succ (Z.of_nat (length bs))) with (8 + 8 * Z.of_nat (length bs)) by lia.
  rewrite Z.pow_add_r by lia. lia.
Qed.

Lemma page_bytes_length p : length (page_bytes p) = (8 * length p)%nat.
Proof. unfold page_bytes. induction p as [|w p IH]; [done|]. rewrite bind_cons, length_app, IH, le_bytes_length. simpl. lia. Qed.

Lemma page_bytes_fits p : Forall (fits 8) (page_bytes p).
Proof.
  unfold page_bytes. induction p as [|w p IH]; [constructor|].
  rewrite bind_cons. apply Forall_app. split; [apply le_bytes_fits|exact IH].
Qed.

(** Writing bytes back as words loses none of them. *)
Lemma page_words_bytes k bs :
  Forall (fits 8) bs -> length bs = (8 * k)%nat ->
  page_bytes (page_words k bs) = bs /\ Forall (fits 64) (page_words k bs) /\ length (page_words k bs) = k.
Proof.
  revert bs. induction k as [|k IH]; intros bs Hbs Hl.
  - by destruct bs.
  - destruct (IH (drop 8 bs)) as (H1 & H2 & H3); [by apply Forall_drop|rewrite length_drop; lia|].
    cbn [page_words]. assert (Ht : Forall (fits 8) (take 8 bs)) by by apply Forall_take.
    assert (Hl8 : length (take 8 bs) = 8%nat) by (rewrite length_take; lia).
    split; [|split].
    + unfold page_bytes in *. rewrite bind_cons, H1. rewrite <- Hl8 at 1. rewrite le_bytes_word by done.
      apply take_drop.
    + constructor; [|done]. pose proof (le_word_fits _ Ht) as Hf. by rewrite Hl8 in Hf.
    + cbn [length]. by rewrite H3.
Qed.

(** ** The window entry *)

#[local] Arguments get_virt_addr : simpl never.
#[local] Arguments page_words : simpl never.
#[local] Arguments page_bytes : simpl never.

Section window.
Context {St : Type}.
Implicit Types s : mach St.

(** The table [tp] holds the window entries of the processors. *)
Record window_ok s (tp : Z) : Prop := mk_window_ok {
  wo_self : links (m_mem s) (m_cr3 s) R_ENTRY (m_cr3 s);
  wo_temp : links (m_mem s) (m_cr3 s) T_ENTRY tp;
  wo_frame : is_frame tp;
  wo_page : exists pg, m_mem s !! tp = Some pg /\ length pg = 512%nat;
  wo_cpu : 0 <= m_cpu s < 512;
  wo_root : tp <> m_cr3 s;
}.

Definition temp_set s (tp v : Z) : mach St := with_mem s (set_word (m_mem s) tp (m_cpu s) v).

Lemma set_temp_ok s tp v : window_ok s tp -> set_temp s v = Ret (temp_set s tp v).
Proof.
  intros [Hs Ht Hf (pg & Hpg & Hl) Hc Hr]. unfold set_temp, vstore, translate.
  change (TEMP_PDPTE (m_cpu s)) with (slot (get_virt_addr R_ENTRY R_ENTRY R_ENTRY T_ENTRY) (m_cpu s)).
  rewrite (walk_virt (m_mem s) (m_cr3 s) _ _ _ _ _ (m_cr3 s) (m_cr3 s) (m_cr3 s) tp);
    try done; try (unfold R_ENTRY, T_ENTRY; lia); [|by apply links_points].
  simpl. destruct (frame_word tp (m_cpu s) Hf Hc) as [Hp Hw].
  unfold pstore. rewrite Hp, Hw, Hpg. rewrite store_in_range by lia. simpl. unfold temp_set. do 2 f_equal.
  by rewrite (set_word_insert _ _ _ _ pg).
Qed.

(** A change of other pages keeps the window. *)
Lemma window_ok_mem s tp m :
  window_ok s tp -> m !! m_cr3 s = m_mem s !! m_cr3 s ->
  (exists pg, m !! tp = Some pg /\ length pg = 512%nat) -> window_ok (with_mem s m) tp.
Proof.
  intros [Hs Ht Hf _ Hc Hr] Hroot Hpg. unfold links, entry_of in *. split; simpl; try done;
    unfold links, entry_of; by rewrite Hroot.
Qed.

Lemma temp_set_ok s tp v : window_ok s tp -> window_ok (temp_set s tp v) tp.
Proof.
  intros Hw. pose proof Hw as [_ _ _ (pg & Hpg & Hl) _ Hr]. apply window_ok_mem; [done|..].
  - unfold set_word. by rewrite lookup_alter_ne by done.
  - unfold set_word. rewrite lookup_alter_eq, Hpg. simpl. eexists. split; [done|]. by rewrite length_insert.
Qed.

(** An open window translates to the page in its entry. *)
Lemma temp_translate s tp a f :
  window_ok s tp -> is_frame a -> fits 12 f -> has_flag f PE_PRESENT = true ->
  translate (temp_set s tp (Z.lor a f)) (TEMP_PTR (m_cpu s)) = Ret a.
Proof.
  intros Hw Ha Hf Hp. destruct (temp_set_ok s tp (Z.lor a f) Hw) as [Hs Ht _ _ Hc _]. change (0 <= m_cpu s < 512) in Hc.
  unfold translate, TEMP_PTR. replace (get_virt_addr R_ENTRY R_ENTRY T_ENTRY (m_cpu s))
    with (slot (get_virt_addr R_ENTRY R_ENTRY T_ENTRY (m_cpu s)) 0).
  2:{ unfold slot. rewrite Z.mul_0_r, Z.add_0_r. apply wrap_small, virt_fits. }
  rewrite (walk_virt _ _ _ _ _ _ _ (m_cr3 s) (m_cr3 s) tp a);
    try done; try (unfold R_ENTRY, T_ENTRY; lia); [by rewrite Z.mul_0_r, Z.add_0_r|].
  destruct Hw as [_ _ _ (pg & Hpg & Hl) _ _]. exists (Z.lor a f). split.
  - simpl. rewrite entry_set_word; [by rewrite decide_True|lia..|].
    unfold entry_of. rewrite Hpg. simpl. apply lookup_lt_is_Some_2. lia.
  - unfold hw_present. change PE_PRESENT with (2 ^ 0) in *. rewrite (entry_flag a f Ha) by lia.
    by rewrite entry_frame.
Qed.

(** ** Filling pages *)

(** A page whose bytes the window functions may change. *)
Definition data_page (s : mach St) (tp a : Z) : Prop :=
  is_frame a /\ a <> tp /\ a <> m_cr3 s /\ exists p, m_mem s !! a = Some p /\ page_ok p.

Definition bytes_at (m : pmem) (a : Z) : list Z := from_option page_bytes [] (m !! a).

(** The window is closed and only the page [a] may have changed. *)
Definition only_page s s' (tp a : Z) : Prop :=
  s' = with_mem s (m_mem s') /\ window_ok s' tp /\
  entry_of (m_mem s') tp (m_cpu s) = Some 0 /\
  (forall j, 0 <= j -> j <> m_cpu s -> entry_of (m_mem s') tp j = entry_of (m_mem s) tp j) /\
  (forall b, b <> a -> b <> tp -> m_mem s' !! b = m_mem s !! b).

Lemma put_page_only s tp a v q :
  window_ok s tp -> data_page s tp a ->
  only_page s (temp_set (with_mem (temp_set s tp v) (<[a := q]> (m_mem (temp_set s tp v)))) tp 0) tp a.
Proof.
  intros Hw (Ha & Htp & Hroot & _). pose proof Hw as [_ _ _ (pg & Hpg & Hl) Hc Hr].
  set (s1 := temp_set s tp v). assert (Hw1 : window_ok (with_mem s1 (<[a := q]> (m_mem s1))) tp).
  { apply window_ok_mem; [by apply temp_set_ok|by rewrite lookup_insert_ne|].
    rewrite lookup_insert_ne by done. simpl. unfold set_word. rewrite lookup_alter_eq, Hpg. eexists. split; [done|].
    by rewrite length_insert. }
  assert (Hex : exists e, entry_of (m_mem s) tp (m_cpu s) = Some e).
  { unfold entry_of. rewrite Hpg. simpl. apply lookup_lt_is_Some_2. lia. }
  assert (Heq : forall j, entry_of (<[a := q]> (m_mem s1)) tp j = entry_of (m_mem s1) tp j)
    by (intros j; unfold entry_of; by rewrite lookup_insert_ne).
  assert (Hex1 : exists e, entry_of (<[a := q]> (m_mem s1)) tp (m_cpu s) = Some e).
  { rewrite Heq. simpl. rewrite entry_set_word, decide_True by (done || lia). eauto. }
  split; [done|]. split; [by apply temp_set_ok|]. split; [|split].
  - simpl. rewrite entry_set_word by (done || lia). by rewrite decide_True.
  - intros j Hj Hne. simpl. rewrite entry_set_word, decide_False, Heq by (done || lia || tauto). simpl.
    by rewrite entry_set_word, decide_False by (done || lia || tauto).
  - intros b Hb Hbt. simpl. unfold set_word.
    by rewrite lookup_alter_ne, lookup_insert_ne, lookup_alter_ne by done.
Qed.

Lemma data_page_bytes s tp a : data_page s tp a -> zlen (bytes_at (m_mem s) a) = 4096.
Proof.
  intros (_ & _ & _ & p & Hp & Hl & _). unfold bytes_at, zlen. rewrite Hp. simpl.
  by rewrite page_bytes_length, Hl.
Qed.

Context `{FrameSource St}.

Lemma fill_unmapped_page_spec s tp a v off len :
  window_ok s tp -> data_page s tp a -> 0 <= off -> 0 <= len -> off + len <= 4096 ->
  exists s', fill_unmapped_page s a v off len = Ret s' /\ only_page s s' tp a /\ data_page s' tp a /\
    bytes_at (m_mem s') a = splice (bytes_at (m_mem s) a) off (replicate (Z.to_nat len) (u8 v)).
Proof.
  intros Hw Hd Ho Hn Hle. pose proof Hd as (Ha & Htp & Hroot & p & Hp & Hpo).
  assert (Hf : fits 12 (Z.lor PE_WRITE PE_PRESENT)) by by vm_compute.
  set (f := Z.lor PE_WRITE PE_PRESENT) in *.
  assert (Hpl : zlen (page_bytes p) = 4096) by (unfold zlen; rewrite page_bytes_length, (proj1 Hpo); done).
  set (bs := splice (page_bytes p) off (replicate (Z.to_nat len) (u8 v))).
  assert (Hbl : length bs = (8 * 512)%nat).
  { unfold bs, splice. unfold zlen in Hpl. rewrite !length_app, length_take, length_drop, length_replicate. lia. }
  assert (Hbf : Forall (fits 8) bs).
  { unfold bs, splice. pose proof (page_bytes_fits p) as Hpf.
    rewrite !Forall_app. split; [by apply Forall_take|]. split; [|by apply Forall_drop].
    apply Forall_replicate. by apply wrap_range. }
  destruct (page_words_bytes 512 bs Hbf Hbl) as (Hq & Hqf & Hql). set (q := page_words 512 bs) in *.
  eexists. split; [|split; [apply (put_page_only s tp a (Z.lor a f) q Hw Hd)|]].
  - unfold fill_unmapped_page. rewrite (wrap_small 64 (off + len)) by (unfold fits; lia).
    rewrite (proj2 (Z.leb_le _ PAGE_SIZE)) by (unfold PAGE_SIZE; lia). simpl.
    rewrite (set_temp_ok s tp) by done. simpl. rewrite <- Z.lor_assoc. fold f.
    unfold temp_bytes. change (m_cpu (temp_set s tp _)) with (m_cpu s).
    rewrite (temp_translate s tp a f Hw Ha Hf) by done. simpl. unfold set_word at 1. rewrite lookup_alter_ne, Hp by done. simpl.
    rewrite write_at_splice; [|done|unfold zlen in *; rewrite length_replicate; lia]. simpl. fold bs.
    apply (set_temp_ok (with_mem (temp_set s tp (Z.lor a f)) (<[a := q]> (m_mem (temp_set s tp (Z.lor a f)))))).
    apply window_ok_mem; [by apply temp_set_ok|by rewrite lookup_insert_ne|]. rewrite lookup_insert_ne by done.
    apply temp_set_ok, Hw.
  - assert (Hget : m_mem (temp_set (with_mem (temp_set s tp (Z.lor a f)) (<[a:=q]> (m_mem (temp_set s tp (Z.lor a f))))) tp 0)
      !! a = Some q) by (simpl; unfold set_word; by rewrite lookup_alter_ne, lookup_insert_eq).
    split.
    + split; [done|]. split; [done|]. split; [done|]. exists q. split; [exact Hget|by split].
    + unfold bytes_at. rewrite Hget, Hp. simpl. exact Hq.
Qed.

(** With the window closed before, the page is all that changes. *)
Definition closed s (tp : Z) : Prop := entry_of (m_mem s) tp (m_cpu s) = Some 0.

Lemma only_page_closed s s' tp a q :
  window_ok s tp -> closed s tp -> only_page s s' tp a -> a <> tp -> m_mem s' !! a = Some q ->
  s' = with_mem s (<[a := q]> (m_mem s)).
Proof.
  intros Hw Hc (Es & Hw' & Hcl & Hj & Hb) Hne Hq. rewrite Es. f_equal. apply map_eq. intros b.
  destruct (decide (b = a)) as [->|Hba]; [by rewrite lookup_insert_eq|]. rewrite lookup_insert_ne by done.
  destruct (decide (b = tp)) as [->|Hbt]; [|by apply Hb].
  destruct (wo_page _ _ Hw) as (pg & Hpg & _). destruct (wo_page _ _ Hw') as (pg' & Hpg' & _).
  rewrite Hpg, Hpg'. f_equal. apply list_eq. intros i. unfold closed, entry_of in *. rewrite Hpg, Hpg' in *. simpl in *.
  destruct (decide (Z.of_nat i = m_cpu s)) as [E|Hi].
  - rewrite <- E, Nat2Z.id in *. by rewrite Hc, Hcl.
  - specialize (Hj (Z.of_nat i) ltac:(lia) Hi). by rewrite Nat2Z.id in Hj.
Qed.

Lemma fill_closed s tp a v off len :
  window_ok s tp -> closed s tp -> data_page s tp a -> 0 <= off -> 0 <= len -> off + len <= 4096 ->
  exists q, fill_unmapped_page s a v off len = Ret (with_mem s (<[a := q]> (m_mem s))) /\ page_ok q /\
    page_bytes q = splice (bytes_at (m_mem s) a) off (replicate (Z.to_nat len) (u8 v)).
Proof.
  intros Hw Hc Hd Ho Hl Hle.
  destruct (fill_unmapped_page_spec s tp a v off len Hw Hd Ho Hl Hle) as (s' & E & Hon & (Ha & Ht & _ & q & Hq & Hqo) & Hb).
  exists q. rewrite E, (only_page_closed s s' tp a q) by done. split; [done|]. split; [done|].
  unfold bytes_at at 1 in Hb. by rewrite Hq in Hb.
Qed.

(** The bytes of a list of pages. *)
Definition bytes_of (m : pmem) (addrs : list Z) : list Z := addrs ≫= bytes_at m.

Lemma bytes_of_cons m a addrs : bytes_of m (a :: addrs) = bytes_at m a ++ bytes_of m addrs.
Proof. apply bind_cons. Qed.

Lemma bytes_of_app m l k : bytes_of m (l ++ k) = bytes_of m l ++ bytes_of m k.
Proof. apply bind_app. Qed.

Lemma bytes_of_same m m' addrs :
  (forall b, b ∈ addrs -> m' !! b = m !! b) -> bytes_of m' addrs = bytes_of m addrs.
Proof.
  unfold bytes_of. induction addrs as [|a addrs IH]; intros Heq; [done|]. rewrite !bind_cons. f_equal.
  - unfold bytes_at. by rewrite Heq by set_solver.
  - apply IH. set_solver.
Qed.

Lemma bytes_of_length s tp addrs :
  Forall (data_page s tp) addrs -> zlen (bytes_of (m_mem s) addrs) = 4096 * zlen addrs.
Proof.
  induction 1 as [|b bs Hb _ IH]; [done|]. pose proof (data_page_bytes _ _ _ Hb). unfold zlen in *.
  rewrite bytes_of_cons, length_app. cbn [length]. lia.
Qed.

(** A page changed, the window and the other pages are as before. *)
Lemma window_insert s tp a q :
  window_ok s tp -> closed s tp -> data_page s tp a ->
  window_ok (with_mem s (<[a := q]> (m_mem s))) tp /\ closed (with_mem s (<[a := q]> (m_mem s))) tp.
Proof.
  intros Hw Hc (_ & Ht & Hr & _). split.
  - apply window_ok_mem; [done|by rewrite lookup_insert_ne|]. rewrite lookup_insert_ne by done. apply Hw.
  - unfold closed, entry_of in *. simpl. by rewrite lookup_insert_ne.
Qed.

Lemma data_page_insert s tp a b q :
  data_page s tp b -> a <> b -> data_page (with_mem s (<[a := q]> (m_mem s))) tp b.
Proof. intros (Hf & Ht & Hr & p & Hp & Hpo) Hne. split_and!; try done. exists p. simpl. by rewrite lookup_insert_ne. Qed.

Lemma splice_app_l (l k r : list Z) off :
  0 <= off -> off + zlen r <= zlen l -> splice (l ++ k) off r = splice l off r ++ k.
Proof.
  intros Ho Hl. unfold splice, zlen in *. rewrite <- !app_assoc, take_app_le, drop_app_le by lia. done.
Qed.

(** Replacing the tail of the first list and the head of the second. *)
Lemma splice_app_over (l k : list Z) off (x : Z) n1 n2 :
  0 <= off -> off + Z.of_nat n1 = zlen l -> Z.of_nat n2 <= zlen k ->
  splice (l ++ k) off (replicate (n1 + n2) x) =
  splice l off (replicate n1 x) ++ splice k 0 (replicate n2 x).
Proof.
  intros Ho H1 H2. unfold splice, zlen in *. rewrite !length_replicate, take_app_le by lia.
  rewrite (drop_ge l) by lia. rewrite drop_app_ge by lia.
  replace (Z.to_nat off + (n1 + n2) - length l)%nat with n2 by lia.
  rewrite replicate_add, app_nil_r, <- !app_assoc. done.
Qed.

Lemma fill_loop_spec tp v addrs : forall s off len,
  window_ok s tp -> closed s tp -> NoDup addrs -> Forall (data_page s tp) addrs ->
  0 <= off < 4096 -> 0 <= len -> off + len <= 4096 * zlen addrs ->
  exists m', fill_loop s addrs v off len 4096 = Ret (with_mem s m') /\
    bytes_of m' addrs = splice (bytes_of (m_mem s) addrs) off (replicate (Z.to_nat len) (u8 v)) /\
    (forall b, b ∉ addrs -> m' !! b = m_mem s !! b).
Proof.
  induction addrs as [|a addrs IH]; intros s off len Hw Hc Hnd Hd Ho Hl Hle.
  { exists (m_mem s). unfold zlen in Hle. simpl in Hle. assert (len = 0) as -> by lia.
    simpl. split; [by destruct s|]. split; [by rewrite splice_nil|done]. }
  apply NoDup_cons in Hnd as [Hna Hnd]. apply Forall_cons in Hd as [Hda Hd].
  unfold zlen in Hle. cbn [length] in Hle. cbn [fill_loop]. destruct (Z.ltb_spec 0 len) as [Hpos|Hz].
  2:{ exists (m_mem s). assert (len = 0) as -> by lia. split; [by destruct s|]. split; [by rewrite splice_nil|done]. }
  set (n := Z.min (4096 - off) len).
  destruct (fill_closed s tp a v off n Hw Hc Hda) as (q & -> & Hqo & Hqb); [lia..|]. cbn [mbind outcome_bind].
  set (s1 := with_mem s (<[a := q]> (m_mem s))).
  destruct (window_insert s tp a q Hw Hc Hda) as [Hw1 Hc1]. fold s1 in Hw1, Hc1.
  assert (Hd1 : Forall (data_page s1 tp) addrs).
  { rewrite Forall_forall in *. intros b Hb. apply data_page_insert; [by apply Hd|]. by intros ->. }
  destruct (IH s1 0 (len - n) Hw1 Hc1 Hnd Hd1) as (m' & E & Hbs & Hoth); [lia..|unfold zlen; lia|].
  exists m'. split; [exact E|].
  assert (Ha : m' !! a = Some q) by (rewrite Hoth by done; simpl; by rewrite lookup_insert_eq).
  pose proof (data_page_bytes _ _ _ Hda) as Hlen.
  pose proof (bytes_of_length _ _ _ Hd) as Hrest.
  split.
  - rewrite !bytes_of_cons, Hbs. unfold bytes_at at 1. rewrite Ha. simpl from_option. rewrite Hqb.
    simpl m_mem. rewrite (bytes_of_same (m_mem s)) by (intros b Hb; rewrite lookup_insert_ne; [done|by intros ->]).
    destruct (Z.le_gt_cases len (4096 - off)) as [Hfit|Hover].
    + replace n with len by lia. replace (len - len) with 0 by lia. simpl. rewrite splice_nil.
      rewrite splice_app_l; [done|lia|]. rewrite Hlen. unfold zlen. rewrite length_replicate. lia.
    + replace (Z.to_nat len) with (Z.to_nat n + Z.to_nat (len - n))%nat by lia.
      rewrite splice_app_over; [done|lia|lia|]. rewrite Hrest. unfold zlen. lia.
  - intros b Hb. rewrite Hoth by set_solver. simpl. rewrite lookup_insert_ne by set_solver. done.
Qed.

Lemma skip_pages_spec addrs : forall off,
  0 <= off <= 4096 * zlen addrs ->
  exists k, skip_pages addrs off 4096 = (drop k addrs, off - 4096 * Z.of_nat k) /\ (k <= length addrs)%nat /\
    0 <= off - 4096 * Z.of_nat k /\ (off - 4096 * Z.of_nat k < 4096 \/ drop k addrs = []).
Proof.
  induction addrs as [|a addrs IH]; intros off Ho.
  - exists 0%nat. unfold zlen in Ho. simpl in Ho. replace (off - 4096 * Z.of_nat 0) with off by lia. split; [done|]. split; [lia|]. split; [lia|by right].
  - cbn [skip_pages]. destruct (Z.leb_spec 4096 off) as [Hle|Hlt].
    + destruct (IH (off - 4096)) as (k & -> & Hk & H0 & H1).
      { unfold zlen in *. cbn [length] in Ho. lia. }
      exists (S k). replace (off - 4096 * Z.of_nat (S k)) with (off - 4096 - 4096 * Z.of_nat k) by lia.
      split; [done|]. cbn [length]. split; [lia|]. split; [lia|done].
    + exists 0%nat. replace (off - 4096 * Z.of_nat 0) with off by lia. split; [done|]. split; [lia|]. split; [lia|by left].
Qed.
End window.

Lemma splice_app_r (l k r : list Z) off :
  0 <= off -> splice (l ++ k) (zlen l + off) r = l ++ splice k off r.
Proof.
  intros Ho. unfold splice, zlen. rewrite take_app_ge, drop_app_ge, <- app_assoc by lia.
  by replace (Z.to_nat (Z.of_nat (length l) + off) - length l)%nat with (Z.to_nat off) by lia;
    replace (Z.to_nat (Z.of_nat (length l) + off) + length r - length l)%nat with (Z.to_nat off + length r)%nat by lia.
Qed.

(** C29. fill_unmapped_pages changes exactly the [len] bytes from [off] on of
    the pages of a list, across page boundaries, through a window that is
    closed before and after; no other page of memory changes. *)
Theorem fill_unmapped_pages_bytes {St} `{FrameSource St} (s : mach St) (tp : Z) (pages : pages_t) (v off len : Z)
    (Hw : window_ok s tp) (Hc : closed s tp) (Hhead : has_flag (pl_flags pages) PG_HEAD = true)
    (Hsize : pg_flags_to_size (pl_flags pages) = 4096) (Hcount : pl_count pages = zlen (pl_addrs pages))
    (Hfits : 4096 * pl_count pages < 2 ^ 63) (Hnd : NoDup (pl_addrs pages))
    (Hd : Forall (data_page s tp) (pl_addrs pages)) (Hoff : 0 <= off) (Hlen : 0 <= len)
    (Hle : off + len <= 4096 * pl_count pages) :
  exists m', fill_unmapped_pages s pages v off len = Ret (with_mem s m') /\
    bytes_of m' (pl_addrs pages) =
      splice (bytes_of (m_mem s) (pl_addrs pages)) off (replicate (Z.to_nat len) (u8 v)) /\
    (forall b, b ∉ pl_addrs pages -> m' !! b = m_mem s !! b).
Proof.
  unfold fill_unmapped_pages. rewrite Hsize, Hhead. simpl.
  rewrite (wrap_small 64 (off + len)), PAGES_TO_SIZE_small by (unfold fits in *; unfold zlen in *; lia).
  rewrite (proj2 (Z.leb_le _ _)) by lia. simpl. rewrite Hcount in *. set (addrs := pl_addrs pages) in *.
  destruct (skip_pages_spec addrs off) as (k & -> & Hk & H0 & H1); [lia|]. set (o := off - 4096 * Z.of_nat k) in *.
  rewrite <- (take_drop k addrs) in Hnd, Hd. apply NoDup_app in Hnd as (_ & Hdis & Hnd). apply Forall_app in Hd as [Hd1 Hd2].
  assert (Ho : 0 <= o < 4096 \/ drop k addrs = []) by (destruct H1; [left; lia|by right]).
  destruct (fill_loop_spec tp v (drop k addrs) s (if bool_decide (drop k addrs = []) then 0 else o) len Hw Hc Hnd Hd2)
    as (m' & E & Hb & Hoth); [case_bool_decide; [lia|tauto]|done|unfold zlen in *; rewrite length_drop in *; case_bool_decide as E|].
  { apply (f_equal length) in E. rewrite length_drop in E. simpl in E. lia. }
  { lia. }
  exists m'. split; [|split].
  - rewrite <- E. case_bool_decide as En; [by rewrite En|done].
  - rewrite <- (take_drop k addrs) at 1 2. rewrite !bytes_of_app.
    assert (Hl : zlen (bytes_of (m_mem s) (take k addrs)) = 4096 * Z.of_nat k).
    { rewrite (bytes_of_length s tp _ Hd1). unfold zlen. rewrite length_take. lia. }
    replace off with (zlen (bytes_of (m_mem s) (take k addrs)) + o) by lia. rewrite splice_app_r by done.
    f_equal; [apply (bytes_of_same (m_mem s)); intros b Hbt; apply Hoth; by apply Hdis|].
    rewrite Hb. case_bool_decide as En; [|done]. rewrite En. simpl. unfold splice.
    assert (len = 0) as -> by (apply (f_equal length) in En; rewrite length_drop in En; unfold zlen in *; simpl in En; lia).
    simpl. by rewrite !take_nil, !drop_nil.
  - intros b Hbn. apply Hoth. intros Hin. apply Hbn. rewrite <- (take_drop k addrs). set_solver.
Qed.

(** A machine with the window's table at 0x2000 and two data pages. *)
Definition window_mem : pmem :=
  <[0x1000 := <[510%nat := 0x1003]> (<[509%nat := 0x2003]> zero_page)]> (<[0x2000 := zero_page]>
    (<[0x3000 := zero_page]> (<[0x4000 := zero_page]> ∅))).
Definition window_demo : mach (list Z) := mk_mach window_mem 0x1000 0 [].

Lemma zero_page_ok : page_ok zero_page.
Proof. split; [done|]. unfold zero_page. apply Forall_replicate. unfold fits. lia. Qed.

Lemma fill_unmapped_pages_bytes_witness :
  exists m', fill_unmapped_pages window_demo (mk_pages PG_HEAD 2 false [0x3000; 0x4000]) 0x7F 4090 10 =
      Ret (with_mem window_demo m') /\
    bytes_of m' [0x3000; 0x4000] = splice (bytes_of window_mem [0x3000; 0x4000]) 4090 (replicate 10 0x7F).
Proof.
  destruct (fill_unmapped_pages_bytes window_demo 0x2000 (mk_pages PG_HEAD 2 false [0x3000; 0x4000]) 0x7F 4090 10)
    as (m' & E & Hb & _).
  - split; try done; try (simpl; lia).
    + exists 0x1003. by vm_compute.
    + exists 0x2003. by vm_compute.
    + exists zero_page. by vm_compute.
  - by vm_compute.
  - done.
  - done.
  - done.
  - done.
  - repeat constructor; set_solver.
  - assert (Hz : forall a, a = 0x3000 \/ a = 0x4000 -> data_page window_demo 0x2000 a).
    { intros a Ha. split; [destruct Ha as [-> | ->]; by vm_compute|]. split; [lia|]. split; [simpl; lia|].
      exists zero_page. split; [destruct Ha as [-> | ->]; by vm_compute|apply zero_page_ok]. }
    repeat constructor; apply Hz; tauto.
  - lia.
  - lia.
  - simpl; lia.
  - exists m'. split; [exact E|exact Hb].
Defined.
