(* ===== verification/PgFork.v ===== *)
(** * New address spaces in kernel/mm/pgtable.c

    What fork_page_tables leaves in the root it makes. *)

From S2P Require Import Prelude Bitmap Mm Kio PgTable PgWalk PgWindow.
From stdpp Require Import list gmap.
Local Open Scope Z_scope.

#[local] Arguments get_virt_addr : simpl never.

Lemma entry_insert_ne m t a p i : a <> t -> entry_of (<[a := p]> m) t i = entry_of m t i.
Proof. intros Hne. unfold entry_of. by rewrite lookup_insert_ne. Qed.

Section fork.
Context {St : Type} `{FrameSource St}.
Implicit Types s : mach St.

(** The window shows the page [a], which is not a table of the window. *)
Record shows s (tp a : Z) : Prop := mk_shows {
  sh_window : window_ok s tp;
  sh_frame : is_frame a;
  sh_points : points (m_mem s) tp (m_cpu s) a;
  sh_page : exists pg, m_mem s !! a = Some pg /\ length pg = 512%nat;
  sh_tp : a <> tp;
  sh_root : a <> m_cr3 s;
}.

Lemma window_walk s tp a i :
  shows s tp a -> 0 <= i < 512 -> translate s (slot (TEMP_PTR (m_cpu s)) i) = Ret (a + 8 * i).
Proof.
  intros [[Hs Ht _ _ Hc _] Ha Hp _ _ _] Hi. unfold translate, TEMP_PTR.
  rewrite (walk_virt _ _ _ _ _ _ _ (m_cr3 s) (m_cr3 s) tp a); try done; unfold R_ENTRY, T_ENTRY; lia.
Qed.

Lemma window_load s tp a i e :
  shows s tp a -> 0 <= i < 512 -> entry_of (m_mem s) a i = Some e -> vload s (slot (TEMP_PTR (m_cpu s)) i) = Ret e.
Proof.
  intros Hsh Hi He. unfold vload. rewrite (window_walk s tp a i Hsh Hi). simpl. unfold pload.
  destruct (frame_word a i (sh_frame _ _ _ Hsh) Hi) as [-> ->]. by rewrite He.
Qed.

Lemma window_store s tp a i v :
  shows s tp a -> 0 <= i < 512 ->
  vstore s (slot (TEMP_PTR (m_cpu s)) i) v = Ret (with_mem s (set_word (m_mem s) a i v)) /\
  shows (with_mem s (set_word (m_mem s) a i v)) tp a.
Proof.
  intros Hsh Hi. pose proof Hsh as [Hw Ha Hp (pg & Hpg & Hl) Htp Hr]. split.
  - unfold vstore. rewrite (window_walk s tp a i Hsh Hi). simpl. unfold pstore.
    destruct (frame_word a i Ha Hi) as [-> ->]. rewrite Hpg, store_in_range by lia. simpl.
    by rewrite (set_word_insert _ _ _ _ pg).
  - split; simpl; try done.
    + apply window_ok_mem; [done|..]; unfold set_word; rewrite lookup_alter_ne by done; [done|]. apply Hw.
    + destruct Hp as (e & He & Hpf). exists e. split; [|done]. unfold entry_of, set_word in *.
      by rewrite lookup_alter_ne.
    + unfold set_word. rewrite lookup_alter_eq, Hpg. simpl. eexists. split; [done|]. by rewrite length_insert.
Qed.

Lemma root_load s tp i e :
  window_ok s tp -> 0 <= i < 512 -> is_frame (m_cr3 s) -> entry_of (m_mem s) (m_cr3 s) i = Some e ->
  vload s (slot PML4_PTR i) = Ret e.
Proof.
  intros [Hs _ _ _ _ _] Hi Hf He.
  exact (vload_table s Hs 0 PG_LEVEL_PML4 (m_cr3 s) eq_refl Hf i e Hi He).
Qed.

(** A table in the window, all zero. *)
Lemma window_open s tp a p f :
  window_ok s tp -> is_frame a -> a <> tp -> a <> m_cr3 s -> m_mem s !! a = Some p ->
  fits 12 f -> has_flag f PE_PRESENT = true ->
  let s1 := with_mem (temp_set s tp (Z.lor a f)) (<[a := zero_page]> (m_mem (temp_set s tp (Z.lor a f)))) in
  set_temp s (Z.lor a f) = Ret (temp_set s tp (Z.lor a f)) /\
  vclear (temp_set s tp (Z.lor a f)) (TEMP_PTR (m_cpu s)) = Ret s1 /\ shows s1 tp a.
Proof.
  intros Hw Ha Htp Hr Hp Hf Hfp s1. split; [by apply set_temp_ok|].
  assert (Hget : m_mem (temp_set s tp (Z.lor a f)) !! a = Some p)
    by (simpl; unfold set_word; by rewrite lookup_alter_ne).
  split.
  - unfold vclear. rewrite (temp_translate s tp a f) by done. simpl mbind. unfold pclear.
    destruct (frame_word a 0 Ha) as [Hpo _]; [lia|]. rewrite Z.mul_0_r, Z.add_0_r in Hpo. by rewrite Hpo, Hget.
  - pose proof Hw as [_ _ _ (pg & Hpg & Hl) Hc _]. split; try done.
    + apply window_ok_mem; [by apply temp_set_ok|by rewrite lookup_insert_ne|]. rewrite lookup_insert_ne by done.
      apply temp_set_ok, Hw.
    + exists (Z.lor a f). split.
      * simpl. rewrite entry_insert_ne by done. rewrite entry_set_word; [by rewrite decide_True|lia..|].
        unfold entry_of. rewrite Hpg. simpl. apply lookup_lt_is_Some_2. lia.
      * unfold hw_present. change PE_PRESENT with (2 ^ 0) in *. rewrite (entry_flag a f Ha) by lia.
        by rewrite entry_frame.
    + exists zero_page. simpl. by rewrite lookup_insert_eq.
Qed.

(** [s1] differs from [s0] in the page [a] only, which is in the window. *)
Definition beside s0 s1 (tp a : Z) : Prop :=
  shows s1 tp a /\ s1 = with_mem s0 (m_mem s1) /\ forall b, b <> a -> m_mem s1 !! b = m_mem s0 !! b.

Lemma beside_store s0 s1 tp a i v :
  beside s0 s1 tp a -> 0 <= i < 512 ->
  exists s2, vstore s1 (slot (TEMP_PTR (m_cpu s1)) i) v = Ret s2 /\ beside s0 s2 tp a /\
    forall j, 0 <= j < 512 -> entry_of (m_mem s2) a j = if decide (j = i) then Some v else entry_of (m_mem s1) a j.
Proof.
  intros (Hsh & Es & Hb) Hi. destruct (window_store s1 tp a i v Hsh Hi) as [E Hsh'].
  eexists. split; [exact E|]. split.
  - split; [done|]. split; [by rewrite Es|]. intros b Hne. simpl. unfold set_word.
    rewrite lookup_alter_ne by done. by apply Hb.
  - intros j Hj. simpl. destruct (sh_page _ _ _ Hsh) as (pg & Hpg & Hl).
    rewrite entry_set_word; [|lia..|unfold entry_of; rewrite Hpg; simpl; apply lookup_lt_is_Some_2; lia].
    destruct (decide (j = i)) as [->|Hne]; [by rewrite decide_True|by rewrite decide_False by tauto].
Qed.

(** The entries the copy of the kernel half gives the new root. *)
Definition kernel_entry s0 (a i : Z) : option Z :=
  if i =? R_ENTRY then Some (Z.lor (Z.lor a PE_WRITE) PE_PRESENT) else entry_of (m_mem s0) (m_cr3 s0) i.

Lemma copy_kernel_ok s0 s1 tp a pg :
  beside s0 s1 tp a -> is_frame (m_cr3 s0) -> m_mem s0 !! m_cr3 s0 = Some pg -> length pg = 512%nat ->
  exists s2, copy_kernel_entries s1 a = Ret s2 /\ beside s0 s2 tp a /\
    forall i, 0 <= i < 512 -> entry_of (m_mem s2) a i =
      if i <? 256 then entry_of (m_mem s1) a i else kernel_entry s0 a i.
Proof.
  intros Hbe Hf Hpg Hlen. unfold copy_kernel_entries.
  change (PML4_INDEX KERNEL_SPACE_START) with 256. change (PML4_INDEX KERNEL_SPACE_END) with 511.
  change (Z.to_nat (511 - 256 + 1)) with 256%nat.
  destruct (for_each_rule (fun j (t : mach St) => beside s0 t tp a /\ forall i, 0 <= i < 512 ->
      entry_of (m_mem t) a i = if (i <? 256) || (j <=? i) then entry_of (m_mem s1) a i else kernel_entry s0 a i)
    256 256 (fun i s => let table_virt := TEMP_PTR (m_cpu s) in
      if i =? R_ENTRY then vstore s (slot table_virt i) (Z.lor (Z.lor a PE_WRITE) PE_PRESENT)
      else e ← vload s (slot PML4_PTR i); vstore s (slot table_virt i) e) s1) as (s2 & E & Hbe2 & Hent).
  - split; [done|]. intros i Hi. by destruct (Z.ltb_spec i 256), (Z.leb_spec 256 i); try lia.
  - intros j t Hj [Ht Hent]. change (256 + Z.of_nat 256) with 512 in Hj.
    assert (Hst : exists v, kernel_entry s0 a j = Some v /\
      (if j =? R_ENTRY then vstore t (slot (TEMP_PTR (m_cpu t)) j) (Z.lor (Z.lor a PE_WRITE) PE_PRESENT)
       else e ← vload t (slot PML4_PTR j); vstore t (slot (TEMP_PTR (m_cpu t)) j) e) =
      vstore t (slot (TEMP_PTR (m_cpu t)) j) v).
    { unfold kernel_entry. destruct (j =? R_ENTRY); [eauto|].
      destruct Ht as (Hsh & Et & Hb).
      assert (He : exists e, entry_of (m_mem s0) (m_cr3 s0) j = Some e)
        by (unfold entry_of; rewrite Hpg; simpl; apply lookup_lt_is_Some_2; lia).
      destruct He as (e & He). exists e. split; [done|].
      assert (Ecr : m_cr3 t = m_cr3 s0) by by rewrite Et.
      rewrite (root_load t tp j e (sh_window _ _ _ Hsh)); [done|lia|by rewrite Ecr|].
      unfold entry_of in *. rewrite Ecr, Hb; [done|]. rewrite <- Ecr. apply not_eq_sym, Hsh. }
    destruct Hst as (v & Hv & E). cbn zeta. rewrite E.
    destruct (beside_store s0 t tp a j v Ht) as (t' & -> & Hbe' & Hent'); [lia|]. exists t'. split; [done|].
    split; [done|]. intros i Hi. rewrite Hent' by done. destruct (decide (i = j)) as [->|Hne].
    + destruct (Z.ltb_spec j 256), (Z.leb_spec (j + 1) j); try lia. by rewrite Hv.
    + rewrite Hent by done. destruct (Z.ltb_spec i 256), (Z.leb_spec j i), (Z.leb_spec (j + 1) i); done || lia.
  - exists s2. cbv zeta in E. cbv zeta. rewrite E. split; [done|]. split; [done|]. intros i Hi. rewrite Hent by done.
    change (256 + Z.of_nat 256) with 512. rewrite (proj2 (Z.leb_gt 512 i)) by lia. by rewrite orb_false_r.
Qed.

(** The copy of the user half reads the new root instead of the old one, finds
    it empty and stores zeros. *)
Lemma copy_user_ok s0 s1 tp a tables :
  beside s0 s1 tp a -> (forall i, 0 <= i < 256 -> entry_of (m_mem s1) a i = Some 0) ->
  exists s2, copy_user_entries s1 tables = Ret (tables, s2) /\ beside s0 s2 tp a /\
    forall i, 0 <= i < 512 -> entry_of (m_mem s2) a i = entry_of (m_mem s1) a i.
Proof.
  intros Hbe Hz. unfold copy_user_entries.
  change (PML4_INDEX USER_SPACE_START) with 0. change (PML4_INDEX USER_SPACE_END) with 255.
  destruct (for_each_rule (fun j (t : list Z * mach St) => t.1 = tables /\ beside s0 t.2 tp a /\
      forall i, 0 <= i < 512 -> entry_of (m_mem t.2) a i = entry_of (m_mem s1) a i)
    (Z.to_nat (255 - 0 + 1)) 0 (fun i '(tables, s) =>
      let src_table := get_virt_addr R_ENTRY R_ENTRY R_ENTRY i in
      let dest_table := TEMP_PTR (m_cpu s) in
      '(v, ts, s) ← recursive_duplicate_pgtable 2 s src_table dest_table i;
      s ← vstore s (slot dest_table i) v;
      Ret (tables ++ ts, s)) (tables, s1)) as ([ts s2] & E & Hts & Hbe2 & Hent).
  - done.
  - intros j [ts t] Hj (Hts & Ht & Hent). simpl in Hts, Ht, Hent. subst ts. cbn zeta.
    change (0 + Z.of_nat (Z.to_nat (255 - 0 + 1))) with 256 in Hj.
    assert (H0 : entry_of (m_mem t) a j = Some 0) by (rewrite Hent, Hz by lia; done).
    unfold recursive_duplicate_pgtable. rewrite (window_load t tp a j 0 (proj1 Ht)) by (done || lia). simpl.
    destruct (beside_store s0 t tp a j 0 Ht) as (t' & -> & Hbe' & Hent'); [lia|]. simpl.
    rewrite app_nil_r. exists (tables, t'). split; [done|]. split; [done|]. split; [done|].
    intros i Hi. simpl. rewrite Hent' by done. destruct (decide (i = j)) as [->|Hne]; [|by apply Hent].
    by rewrite Hz.
  - exists s2. simpl in Hts. subst ts. by split.
Qed.

(** Root and window: the machine of a fork. *)
Lemma mach_window s D tp :
  mach_ok s D -> D !! [T_ENTRY] = Some tp -> 0 <= m_cpu s < 512 -> window_ok s tp.
Proof.
  intros [Hpt _ _] Htp Hc. destruct (pt_table _ _ _ Hpt _ _ Htp) as (_ & Hf & Hpg).
  pose proof (pt_root _ _ _ Hpt) as Hr. split; try done.
  - apply Hpt.
  - by apply (child_links _ _ _ [] _ _ _ Hpt Hr).
  - intros ->. by pose proof (pt_inj _ _ _ Hpt _ _ _ Htp Hr).
Qed.

Lemma fork_memory s D tp deepcopy_user :
  mach_ok s D -> D !! [T_ENTRY] = Some tp -> closed s tp -> 0 <= m_cpu s < 512 -> (0 < src_left (m_src s))%nat ->
  exists a s', fork_page_tables s deepcopy_user = Ret (a, [a], s') /\ src_free (m_src s) a /\
    m_cr3 s' = m_cr3 s /\ (forall b, b <> a -> m_mem s' !! b = m_mem s !! b) /\
    forall i, 0 <= i < 512 -> entry_of (m_mem s') a i = if i <? 256 then Some 0 else kernel_entry s a i.
Proof.
  intros Hok Htp Hcl Hcpu Hleft. pose proof (mach_window s D tp Hok Htp Hcpu) as Hw.
  destruct Hok as [Hpt Hsrc Hfree]. pose proof (pt_root _ _ _ Hpt) as Hr.
  destruct (src_alloc_spec (m_src s) Hsrc Hleft) as (a & src' & Hal & _ & _ & Hfa & _).
  destruct (src_frame _ _ Hsrc Hfa) as (_ & Haf & _). destruct (Hfree a Hfa) as [Hout (p & Hp)].
  destruct (pt_table _ _ _ Hpt _ _ Hr) as (_ & Hrf & pg & Hpg & Hlen).
  assert (Hat : a <> tp) by (intros ->; by apply (Hout [T_ENTRY])).
  assert (Har : a <> m_cr3 s) by (intros ->; by apply (Hout [])).
  set (f := Z.lor PE_WRITE PE_PRESENT). set (s0 := mk_mach (m_mem s) (m_cr3 s) (m_cpu s) src').
  assert (Hw0 : window_ok s0 tp) by (by destruct Hw; split).
  destruct (window_open s0 tp a p f Hw0 Haf Hat Har Hp) as (Hst & Hvc & Hsh); [by vm_compute|done|].
  set (s1 := with_mem (temp_set s0 tp (Z.lor a f)) _) in *.
  set (sw := temp_set s0 tp (Z.lor a f)) in *.
  assert (Hbe : beside sw s1 tp a).
  { split; [done|]. split; [done|]. intros b Hb. unfold s1. simpl. by rewrite lookup_insert_ne. }
  assert (Hzero : forall i, 0 <= i < 512 -> entry_of (m_mem s1) a i = Some 0).
  { intros i Hi. unfold entry_of, s1. simpl m_mem. rewrite lookup_insert_eq. cbn [mbind option_bind].
    unfold zero_page. apply lookup_replicate_2. lia. }
  assert (Hroot : m_mem sw !! m_cr3 s = Some pg)
    by (simpl; unfold set_word; rewrite lookup_alter_ne by apply Hw; done).
  destruct (copy_kernel_ok sw s1 tp a pg Hbe Hrf Hroot Hlen) as (s2 & Hck & Hbe2 & Hent2).
  assert (Huser : exists s3, (if deepcopy_user then copy_user_entries s2 [a] else Ret ([a], s2)) = Ret ([a], s3) /\
    beside sw s3 tp a /\ forall i, 0 <= i < 512 -> entry_of (m_mem s3) a i = entry_of (m_mem s2) a i).
  { destruct deepcopy_user; [|by exists s2]. apply copy_user_ok; [done|]. intros i Hi.
    rewrite Hent2, (proj2 (Z.ltb_lt _ _)), Hzero by lia. done. }
  destruct Huser as (s3 & Hcu & (Hsh3 & Es3 & Hb3) & Hent3).
  exists a, (temp_set s3 tp 0). split.
  { unfold fork_page_tables, new_table, alloc_page. rewrite Hal. cbn [mbind outcome_bind]. fold s0.
    rewrite <- Z.lor_assoc. fold f. rewrite Hst. cbn [mbind outcome_bind].
    change (m_cpu sw) with (m_cpu s0). rewrite Hvc. cbn [mbind outcome_bind].
    rewrite Hck. cbn [mbind outcome_bind]. rewrite Hcu. cbn [mbind outcome_bind].
    by rewrite (set_temp_ok s3 tp) by apply Hsh3. }
  split; [done|]. split; [by rewrite Es3|]. assert (Ecpu : m_cpu s3 = m_cpu s) by by rewrite Es3. split.
  - intros b Hb. simpl. unfold set_word. destruct (decide (b = tp)) as [->|Hbt].
    + rewrite lookup_alter_eq, Hb3 by done. simpl. unfold set_word. rewrite lookup_alter_eq.
      destruct (wo_page _ _ Hw) as (pt & Hpt' & Hptl). rewrite Hpt'. simpl. f_equal.
      unfold closed, entry_of in Hcl. rewrite Hpt' in Hcl. simpl in Hcl.
      rewrite Ecpu, list_insert_insert_eq. by apply list_insert_id.
    + rewrite lookup_alter_ne, Hb3 by done. simpl. unfold set_word. by rewrite lookup_alter_ne.
  - intros i Hi. simpl. unfold entry_of at 1, set_word. rewrite lookup_alter_ne by done.
    change (entry_of (m_mem s3) a i = if i <? 256 then Some 0 else kernel_entry s a i).
    rewrite Hent3, Hent2 by done. case_test; [by apply Hzero|]. unfold kernel_entry. case_test; [done|].
    simpl. unfold entry_of, set_word. rewrite lookup_alter_ne by apply Hw. done.
Qed.
End fork.

(** ** Walks below shared tables *)

Section shared.
Context (m m' : pmem) (root : Z) (D : gmap (list Z) Z) (Hpt : pt_ok m root D) (va : Z).
Context (Hsame : forall p t, D !! p = Some t -> p <> [] -> m' !! t = m !! t).

(** A present entry of a table that is no large page refers to a table. *)
Lemma entry_child p t i e :
  D !! p = Some t -> (length p < 3)%nat -> 0 <= i < 512 -> (p = [] -> i <> R_ENTRY) ->
  entry_of m t i = Some e -> hw_present e = true -> has_flag e PE_SIZE = false ->
  D !! (p ++ [i]) = Some (hw_frame e).
Proof.
  intros Hp Hl Hi Hr He Hpr Hs. destruct (D !! (p ++ [i])) as [t'|] eqn:Hc.
  - destruct (child_links _ _ _ _ _ _ _ Hpt Hp Hc) as (e' & He' & _ & _ & <-). congruence.
  - destruct (pt_leaf _ _ _ Hpt p i t e Hp Hl Hi Hr Hc He) as [-> | [_ Hs']]; [done|congruence].
Qed.

Lemma walk_below n : forall p t,
  D !! p = Some t -> p <> [] -> (length p + n = 3)%nat -> hw_walk n m' t va = hw_walk n m t va.
Proof.
  induction n as [|n IH]; intros p t Hp Hne Hl; cbn [hw_walk]; unfold entry_of; rewrite (Hsame p t Hp Hne); [done|].
  fold (entry_of m t (idx va (Z.of_nat (S n)))). destruct (entry_of m t _) as [e|] eqn:He; [|done]. simpl mbind.
  destruct (hw_present e) eqn:Hpr; [|done]. destruct (has_flag e PE_SIZE) eqn:Hs; [done|]. simpl negb. cbv iota.
  pose proof (idx_range va (Z.of_nat (S n)) ltac:(lia)) as Hi.
  apply (IH (p ++ [idx va (Z.of_nat (S n))])).
  - by apply (entry_child p t _ e); [done|lia|done..|].
  - by destruct p.
  - rewrite length_app. simpl. lia.
Qed.

Lemma walk_shared a :
  entry_of m' a (idx va 3) = entry_of m root (idx va 3) -> idx va 3 <> R_ENTRY ->
  hw_walk 3 m' a va = hw_walk 3 m root va.
Proof.
  intros Heq Hr. cbn [hw_walk]. change (Z.of_nat 3) with 3. rewrite Heq.
  destruct (entry_of m root (idx va 3)) as [e|] eqn:He; [|done]. simpl mbind.
  destruct (hw_present e) eqn:Hpr; [|done]. destruct (has_flag e PE_SIZE) eqn:Hs; [done|]. simpl negb. cbv iota.
  pose proof (idx_range va 3 ltac:(lia)) as Hi.
  apply (walk_below 2 [idx va 3]); [|done..].
  apply (entry_child [] root _ e); [apply Hpt|simpl; lia|done..].
Qed.
End shared.

(** C13. fork_page_tables makes a root of its own: kernel addresses translate
    as in the current address space, the recursive entry refers to the new
    root, no other page changes, and no user address is mapped - also when a
    deep copy of the user half is asked for. *)
Theorem fork_page_tables_root {St} `{FrameSource St} (s : mach St) (D : gmap (list Z) Z) (tp : Z)
    (deepcopy_user : bool) (Hok : mach_ok s D) (Htp : D !! [T_ENTRY] = Some tp) (Hclosed : closed s tp)
    (Hcpu : 0 <= m_cpu s < 512) (Hleft : (0 < src_left (m_src s))%nat) :
  exists a s', fork_page_tables s deepcopy_user = Ret (a, [a], s') /\ m_cr3 s' = m_cr3 s /\
    links (m_mem s') a R_ENTRY a /\
    (forall va, 256 <= idx va 3 -> idx va 3 <> R_ENTRY ->
       hw_walk 3 (m_mem s') a va = hw_walk 3 (m_mem s) (m_cr3 s) va) /\
    (forall va, idx va 3 < 256 -> hw_walk 3 (m_mem s') a va = None) /\
    (forall b, b <> a -> m_mem s' !! b = m_mem s !! b).
Proof.
  destruct (fork_memory s D tp deepcopy_user Hok Htp Hclosed Hcpu Hleft) as (a & s' & E & Hfa & Hcr & Hb & Hent).
  destruct Hok as [Hpt Hsrc Hfree]. destruct (src_frame _ _ Hsrc Hfa) as (_ & Haf & _). destruct (Hfree a Hfa) as [Hout _].
  exists a, s'. split; [done|]. split; [done|]. split; [|split; [|split; [|done]]].
  - exists (Z.lor a (Z.lor PE_WRITE PE_PRESENT)). split; [|split; [|split]].
    + rewrite Hent by (unfold R_ENTRY; lia). unfold kernel_entry. rewrite Z.lor_assoc. done.
    + unfold hw_present. change PE_PRESENT with (2 ^ 0). by rewrite (entry_flag a _ Haf) by lia.
    + change PE_SIZE with (2 ^ 7). by rewrite (entry_flag a _ Haf) by lia.
    + rewrite entry_frame; [done|done|by vm_compute].
  - intros va Hk Hr. pose proof (idx_range va 3 ltac:(lia)) as Hi. apply (walk_shared _ _ _ D Hpt); [|..|done].
    + intros p t Hp _. apply Hb. intros ->. by apply (Hout p).
    + rewrite Hent, (proj2 (Z.ltb_ge _ _)) by lia. unfold kernel_entry. by rewrite (proj2 (Z.eqb_neq _ _)).
  - intros va Hu. pose proof (idx_range va 3 ltac:(lia)) as Hi.
    apply (walk_absent 3 _ _ _ 0); [|done]. change (Z.of_nat 3) with 3. rewrite Hent by lia.
    by rewrite (proj2 (Z.ltb_lt _ _)) by lia.
Qed.

(** The window's machine with a free frame. *)
Definition fork_mem : pmem :=
  <[0x1000 := <[510%nat := 0x1003]> (<[509%nat := 0x2003]> zero_page)]> (<[0x2000 := zero_page]>
    (<[0x3000 := zero_page]> ∅)).
Definition fork_demo : mach (list Z) := mk_mach fork_mem 0x1000 0 [0x3000].
Definition fork_tree : gmap (list Z) Z := <[ [T_ENTRY] := 0x2000]> {[ [] := 0x1000 ]}.

Lemma fork_tree_cases p t : fork_tree !! p = Some t -> (p = [] /\ t = 0x1000) \/ (p = [T_ENTRY] /\ t = 0x2000).
Proof.
  unfold fork_tree. intros [[<- <-] | [_ [<- <-]%lookup_singleton_Some]]%lookup_insert_Some; tauto.
Qed.

Lemma fork_demo_ok : mach_ok fork_demo fork_tree.
Proof.
  split; [split| |].
  - done.
  - exists 0x1003. by vm_compute.
  - intros p t [[-> ->] | [-> ->]]%fork_tree_cases; (split; [lia|]; split; [by vm_compute|]; eexists; by split).
  - intros p q t [[-> ->] | [-> ->]]%fork_tree_cases [[-> E] | [-> E]]%fork_tree_cases; done.
  - intros p i t [[E _] | [E ->]]%fork_tree_cases; [by destruct p|].
    apply (app_inj_tail p [] i T_ENTRY) in E as [-> ->]. simpl. split; [lia|]. split; [unfold T_ENTRY; lia|].
    split; [done|]. exists 0x1000. split; [done|]. split; exists 0x2003; by vm_compute.
  - intros p i t e [[-> ->] | [-> ->]]%fork_tree_cases _ Hi Hne Hnone He.
    + assert (i <> 509) by by intros ->. specialize (Hne eq_refl). unfold R_ENTRY in Hne. left.
      change (entry_of fork_mem 0x1000 i = Some e) in He. unfold entry_of, fork_mem in He. rewrite lookup_insert_eq in He.
      cbn [mbind option_bind] in He. rewrite !list_lookup_insert_ne in He by lia.
      apply lookup_replicate in He as [-> _]. done.
    + left. unfold entry_of in He. assert (Hm : m_mem fork_demo !! 0x2000 = Some zero_page) by by vm_compute.
      rewrite Hm in He. cbn [mbind option_bind] in He. apply lookup_replicate in He as [-> _]. done.
  - split; [repeat constructor; set_solver|]. repeat constructor; by vm_compute.
  - intros a ->%list_elem_of_singleton. split.
    + by intros q [[_ ?] | [_ ?]]%fork_tree_cases.
    + eexists. by vm_compute.
Qed.

Lemma fork_page_tables_root_witness :
  exists a s', fork_page_tables fork_demo true = Ret (a, [a], s') /\ hw_walk 3 (m_mem s') a 0x400000 = None.
Proof.
  destruct (fork_page_tables_root fork_demo fork_tree 0x2000 true) as (a & s' & E & _ & _ & _ & Hu & _).
  - apply fork_demo_ok.
  - done.
  - by vm_compute.
  - simpl; lia.
  - simpl; lia.
  - exists a, s'. split; [exact E|]. by apply Hu.
Defined.
