(* ===== verification/Vmalloc.v ===== *)
(** * kernel/mm/vmalloc.c: address spaces and their mappings

    An address space has a list of mappings and an interval tree of their
    virtual ranges.  The mappings are objects in a store, named by the blocks
    kmalloc returned; a node of the tree has the name of its mapping as data.
    The lists are given by their elements, which is what the list macros of
    Queue compute.  What a mapping does to the page tables and to the pages
    or the file behind it depends on its type: the class [vm_backend] is the
    interface of these functions. *)

From S2P Require Import Prelude Mm Interval.
From stdpp Require Import list gmap sorting.
From S2P Require Import RbTree RbEvents RbInsert RbAdd RbDelete RbFix RbRemove IntvlTree IntvlOps IntvlRun.
Local Open Scope Z_scope.

Inductive vm_type := VM_TYPE_RSVD | VM_TYPE_PHYS | VM_TYPE_PAGE | VM_TYPE_FILE.

#[export] Instance vm_type_eq_dec : EqDecision vm_type.
Proof. solve_decision. Defined.

(** The errors that calls return, negated in the source. *)
Inductive vm_error := EINVAL | ENOMEM | EADDRNOTAVAIL.

(** [vm_data] is the physical address, the page list or the file. *)
Record vm_mapping_t := mk_vm {
  vm_ty : vm_type;
  vm_flags : Z;
  vm_address : Z;
  vm_size : Z;
  vm_virt_size : Z;
  vm_space : Z;
  vm_data : Z;
}.

Record address_space_t := mk_space {
  min_addr : Z;
  max_addr : Z;
  lock_depth : Z;
  num_mappings : Z;
  mappings : list Z;
  new_tree : rb_tree_t;
  page_table : Z;
}.

Definition with_flags (vm : vm_mapping_t) (f : Z) : vm_mapping_t :=
  mk_vm (vm_ty vm) f (vm_address vm) (vm_size vm) (vm_virt_size vm) (vm_space vm) (vm_data vm).
Definition with_range (vm : vm_mapping_t) (a s v : Z) : vm_mapping_t :=
  mk_vm (vm_ty vm) (vm_flags vm) a s v (vm_space vm) (vm_data vm).
Definition with_data (vm : vm_mapping_t) (d : Z) : vm_mapping_t :=
  mk_vm (vm_ty vm) (vm_flags vm) (vm_address vm) (vm_size vm) (vm_virt_size vm) (vm_space vm) d.
Definition with_depth (s : address_space_t) (n : Z) : address_space_t :=
  mk_space (min_addr s) (max_addr s) n (num_mappings s) (mappings s) (new_tree s) (page_table s).
Definition with_mappings (s : address_space_t) (n : Z) (l : list Z) : address_space_t :=
  mk_space (min_addr s) (max_addr s) (lock_depth s) n l (new_tree s) (page_table s).
Definition with_tree (s : address_space_t) (t : rb_tree_t) : address_space_t :=
  mk_space (min_addr s) (max_addr s) (lock_depth s) (num_mappings s) (mappings s) t (page_table s).

(** ** The functions of the mapping types *)

(** The functions by type of mapping, on the state [M] of the page tables,
    the frame allocator and the files.  [fork_page_tables] also puts the pages
    of the tables on the list of the space it gets. *)
Class vm_backend (M : Type) := {
  phys_type_map_internal : vm_mapping_t -> Z -> Z -> Z -> M -> outcome M;
  phys_type_unmap_internal : vm_mapping_t -> Z -> Z -> M -> outcome M;
  page_type_map_internal : vm_mapping_t -> Z -> Z -> Z -> M -> outcome M;
  page_type_unmap_internal : vm_mapping_t -> Z -> Z -> M -> outcome M;
  file_visit_update : vm_mapping_t -> Z -> Z -> bool -> M -> outcome M;
  page_type_split_internal : Z -> Z -> M -> outcome (Z * Z * M);
  page_type_join_internal : Z -> Z -> M -> outcome (Z * M);
  file_type_split_internal : vm_mapping_t -> Z -> M -> outcome (Z * M);
  file_type_join_internal : vm_mapping_t -> Z -> M -> outcome M;
  alloc_pages : Z -> M -> outcome (Z * M);
  drop_pages : Z -> M -> outcome M;
  vm_file_free : Z -> M -> outcome M;
  alloc_cow_pages : Z -> M -> outcome (Z * M);
  vm_file_fork : Z -> M -> outcome (Z * M);
  vm_file_alloc_anon : Z -> Z -> M -> outcome (Z * M);
  page_head : Z -> M -> outcome (Z * Z);
  file_size : Z -> M -> outcome Z;
  fork_page_tables : bool -> Z -> M -> outcome (Z * M);
  get_current_pgtable : M -> Z;
}.

Section vmalloc.
Context {M : Type} {B : vm_backend M} (garbage : Z -> intvl_node_t).

(** [blocks] is the next block of the heap; [garbage] is what blocks hold. *)
Record vm_state := mk_state {
  spaces : gmap Z address_space_t;
  vms : gmap Z vm_mapping_t;
  kernel_space : Z;
  curspace : Z;
  blocks : Z;
  mem : M;
}.

Definition set_spaces (st : vm_state) (x : gmap Z address_space_t) : vm_state :=
  mk_state x (vms st) (kernel_space st) (curspace st) (blocks st) (mem st).
Definition set_vms (st : vm_state) (x : gmap Z vm_mapping_t) : vm_state :=
  mk_state (spaces st) x (kernel_space st) (curspace st) (blocks st) (mem st).
Definition set_blocks (st : vm_state) (x : Z) : vm_state :=
  mk_state (spaces st) (vms st) (kernel_space st) (curspace st) x (mem st).
Definition set_mem (st : vm_state) (x : M) : vm_state :=
  mk_state (spaces st) (vms st) (kernel_space st) (curspace st) (blocks st) x.

Definition get_vm (st : vm_state) (d : Z) : outcome vm_mapping_t :=
  match vms st !! d with Some vm => Ret vm | None => Fault end.
Definition put_vm (st : vm_state) (d : Z) (vm : vm_mapping_t) : vm_state := set_vms st (<[d := vm]> (vms st)).
Definition get_space (st : vm_state) (sp : Z) : outcome address_space_t :=
  match spaces st !! sp with Some s => Ret s | None => Fault end.
Definition put_space (st : vm_state) (sp : Z) (s : address_space_t) : vm_state :=
  set_spaces st (<[sp := s]> (spaces st)).

(** The mutex of a space is recursive. *)
Definition space_lock (st : vm_state) (sp : Z) : outcome vm_state :=
  s ← get_space st sp; Ret (put_space st sp (with_depth s (lock_depth s + 1))).
Definition space_unlock (st : vm_state) (sp : Z) : outcome vm_state :=
  s ← get_space st sp; Ret (put_space st sp (with_depth s (lock_depth s - 1))).
Definition space_lock_assert (st : vm_state) (sp : Z) : outcome () :=
  s ← get_space st sp; kassert (0 <? lock_depth s).

(** ** Ranges *)

Definition is_valid_pointer (ptr : Z) : bool :=
  ((USER_SPACE_START <=? ptr) && (ptr <? USER_SPACE_END)) ||
  ((KERNEL_SPACE_START <=? ptr) && (ptr <? KERNEL_SPACE_END)).

Definition is_valid_range (st len : Z) : bool :=
  if KERNEL_SPACE_START <=? st then u64 (st + len) <=? KERNEL_SPACE_END
  else u64 (st + len) <=? USER_SPACE_END.

Definition select_space (st : vm_state) (user_space addr : Z) : Z :=
  if KERNEL_SPACE_START <=? addr then kernel_space st else user_space.

(** The mapping at an address; 0 when there is none. *)
Definition space_get_mapping (st : vm_state) (sp vaddr : Z) : outcome Z :=
  space_lock_assert st sp;; s ← get_space st sp; intvl_tree_get_point (new_tree s) vaddr.

Definition vm_virtual_start (vm : vm_mapping_t) : Z :=
  if has_flag (vm_flags vm) VM_STACK then u64 (vm_address vm - u64 (vm_virt_size vm - vm_size vm)) else vm_address vm.

Definition vm_virt_interval (vm : vm_mapping_t) : interval_t :=
  mk_intvl (vm_virtual_start vm) (u64 (vm_virtual_start vm + vm_virt_size vm)).

Definition vm_real_interval (vm : vm_mapping_t) : interval_t :=
  mk_intvl (vm_address vm) (u64 (vm_address vm + vm_size vm)).

Definition vm_empty_space (vm : vm_mapping_t) : Z :=
  let size := u64 (vm_virt_size vm - vm_size vm) in
  if has_flag (vm_flags vm) VM_STACK then u64 (size - PAGE_SIZE) else size.

Definition choose_best_hint (hint flags : Z) : Z :=
  if has_flag flags VM_USER then
    if (0 <? hint) && (hint <? USER_SPACE_END) then hint
    else if has_flag flags VM_STACK then 0x0000800000000000
    else if has_flag flags VM_MALLOC then 0x0000050000000000
    else 0x0000000050000000
  else
    if (KERNEL_SPACE_START <? hint) && (hint <? KERNEL_SPACE_END) then hint
    else if has_flag flags VM_STACK then 0xFFFFFF8040000000
    else if has_flag flags VM_MALLOC then 0xFFFFC01000000000
    else 0xFFFFC00000000000.

(** ** The list of mappings *)

(** The elements that follow the first occurrence of [d]. *)
Fixpoint after_in (d : Z) (l : list Z) : list Z :=
  match l with [] => [] | x :: l' => if x =? d then l' else after_in d l' end.

(** LIST_NEXT and LIST_PREV, 0 at the ends. *)
Definition next_in (d : Z) (l : list Z) : Z := default 0 (head (after_in d l)).
Definition prev_in (d : Z) (l : list Z) : Z := next_in d (rev l).

(** LIST_INSERT after an element of the list, and LIST_REMOVE. *)
Fixpoint insert_after (d after : Z) (l : list Z) : outcome (list Z) :=
  match l with
  | [] => Fault
  | x :: l' => if x =? after then Ret (x :: d :: l') else l' ← insert_after d after l'; Ret (x :: l')
  end.
Definition remove_from (d : Z) (l : list Z) : list Z := filter (fun x => x <> d) l.

Definition vm_are_siblings (st : vm_state) (a b : Z) : outcome bool :=
  va ← get_vm st a;
  vb ← get_vm st b;
  let '(a, va, b, vb) := if vm_address vb <? vm_address va then (b, vb, a, va) else (a, va, b, vb) in
  if (a =? b) || negb (bool_decide (vm_ty va = vm_ty vb)) || negb (has_flag (vm_flags vb) VM_SPLIT) then Ret false
  else
    s ← get_space st (vm_space va);
    Ret (bool_decide (b ∈ after_in a (mappings s))).

(** ** Dispatch on the type of a mapping *)

Definition file_type_map_internal (vm : vm_mapping_t) (size off : Z) (m : M) : outcome M :=
  file_visit_update vm off (vm_size vm) false m.

Definition file_type_unmap_internal (vm : vm_mapping_t) (size off : Z) (m : M) : outcome M :=
  file_visit_update vm off (vm_size vm) true m.

(** The memory behind a mapping, for the same mapping of a new space. *)
Definition vm_fork_internal (vm : vm_mapping_t) (m : M) : outcome (Z * M) :=
  match vm_ty vm with
  | VM_TYPE_RSVD => Ret (0, m)
  | VM_TYPE_PHYS => Ret (vm_data vm, m)
  | VM_TYPE_PAGE => alloc_cow_pages (vm_data vm) m
  | VM_TYPE_FILE => vm_file_fork (vm_data vm) m
  end.

Definition vm_update_internal (st : vm_state) (d prot : Z) : outcome vm_state :=
  vm ← get_vm st d;
  space_lock_assert st (vm_space vm);;
  let prot := Z.land prot VM_PROT_MASK in
  let vm := with_flags vm (Z.lor (Z.land (vm_flags vm) (not_w 32 VM_PROT_MASK)) prot) in
  if negb (prot =? 0) then
    let vm := with_flags vm (Z.lor (vm_flags vm) VM_MAPPED) in
    let st := put_vm st d vm in
    match vm_ty vm with
    | VM_TYPE_PHYS => m ← phys_type_map_internal vm (vm_data vm) (vm_size vm) 0 (mem st); Ret (set_mem st m)
    | VM_TYPE_PAGE => m ← page_type_map_internal vm (vm_data vm) (vm_size vm) 0 (mem st); Ret (set_mem st m)
    | VM_TYPE_FILE => m ← file_type_map_internal vm (vm_size vm) 0 (mem st); Ret (set_mem st m)
    | VM_TYPE_RSVD => Panic
    end
  else
    let vm := with_flags vm (Z.land (vm_flags vm) (not_w 32 VM_MAPPED)) in
    let st := put_vm st d vm in
    match vm_ty vm with
    | VM_TYPE_PHYS => m ← phys_type_unmap_internal vm (vm_size vm) 0 (mem st); Ret (set_mem st m)
    | VM_TYPE_PAGE => m ← page_type_unmap_internal vm (vm_size vm) 0 (mem st); Ret (set_mem st m)
    | VM_TYPE_FILE => m ← file_type_unmap_internal vm (vm_size vm) 0 (mem st); Ret (set_mem st m)
    | VM_TYPE_RSVD => Panic
    end.

Definition vm_split_internal (st : vm_state) (d off sibling : Z) : outcome vm_state :=
  vm ← get_vm st d;
  space_lock_assert st (vm_space vm);;
  match vm_ty vm with
  | VM_TYPE_PHYS => Ret st
  | VM_TYPE_PAGE =>
      '(pages, tail, m) ← page_type_split_internal (vm_data vm) off (mem st);
      sib ← get_vm st sibling;
      Ret (set_mem (put_vm (put_vm st sibling (with_data sib tail)) d (with_data vm pages)) m)
  | VM_TYPE_FILE =>
      '(file, m) ← file_type_split_internal vm off (mem st);
      sib ← get_vm st sibling;
      Ret (set_mem (put_vm st sibling (with_data sib file)) m)
  | VM_TYPE_RSVD => Panic
  end.

Definition vm_join_internal (st : vm_state) (d other : Z) : outcome vm_state :=
  vm ← get_vm st d;
  space_lock_assert st (vm_space vm);;
  o ← get_vm st other;
  match vm_ty vm with
  | VM_TYPE_PHYS => Ret st
  | VM_TYPE_PAGE =>
      '(pages, m) ← page_type_join_internal (vm_data vm) (vm_data o) (mem st);
      Ret (set_mem (put_vm st d (with_data vm pages)) m)
  | VM_TYPE_FILE => m ← file_type_join_internal vm (vm_data o) (mem st); Ret (set_mem st m)
  | VM_TYPE_RSVD => Panic
  end.

Definition vm_free_internal (st : vm_state) (d : Z) : outcome vm_state :=
  vm ← get_vm st d;
  space_lock_assert st (vm_space vm);;
  match vm_ty vm with
  | VM_TYPE_PHYS => m ← phys_type_unmap_internal vm (vm_size vm) 0 (mem st); Ret (set_mem st m)
  | VM_TYPE_PAGE =>
      m ← page_type_unmap_internal vm (vm_size vm) 0 (mem st); m ← drop_pages (vm_data vm) m; Ret (set_mem st m)
  | VM_TYPE_FILE =>
      m ← file_type_unmap_internal vm (vm_size vm) 0 (mem st); m ← vm_file_free (vm_data vm) m; Ret (set_mem st m)
  | VM_TYPE_RSVD => Panic
  end.

(** ** Virtual space *)

(** A new mapping, in a block of its own. *)
Definition vm_struct_alloc (st : vm_state) (vm : vm_mapping_t) : Z * vm_state :=
  (blocks st, set_blocks (put_vm st (blocks st) vm) (blocks st + 1)).

(** intvl_tree_insert on the tree of a space; the record is a new block. *)
Definition tree_insert (st : vm_state) (sp : Z) (i : interval_t) (d : Z) : outcome vm_state :=
  s ← get_space st sp;
  t ← intvl_tree_insert (new_tree s) (blocks st) (garbage (blocks st)) i d;
  Ret (put_space (set_blocks st (blocks st + 1)) sp (with_tree s t)).

Definition tree_delete (st : vm_state) (sp : Z) (i : interval_t) : outcome vm_state :=
  s ← get_space st sp; t ← intvl_tree_delete (new_tree s) i; Ret (put_space st sp (with_tree s t)).

Definition tree_update (st : vm_state) (sp node ds de : Z) : outcome vm_state :=
  s ← get_space st sp; t ← intvl_tree_update_interval (new_tree s) node ds de; Ret (put_space st sp (with_tree s t)).

Definition do_align (x a : Z) : Z := if 0 <? a then align x a else x.

(** A free range at or after [base]: its start and the mapping before it. *)
Definition get_free_region (st : vm_state) (sp base size a : Z) : outcome (Z * Z) :=
  let base := do_align base a in
  let size := do_align size a in
  space_lock_assert st sp;;
  s ← get_space st sp;
  if (UINT64_MAX - base <? size) || (max_addr s <? u64 (base + size)) then Panic
  else
    '(range, node) ← intvl_tree_find_free_gap (new_tree s) (mk_intvl base (u64 (base + size))) a;
    if node =? 0 then Ret (base, 0) else o ← deref (new_tree s) node; Ret (start range, idata o).

Definition check_range_free (st : vm_state) (sp base size : Z) : outcome (bool * Z) :=
  space_lock_assert st sp;;
  s ← get_space st sp;
  let i := mk_intvl base (u64 (base + size)) in
  '(result, node) ← intvl_tree_find_free_gap (new_tree s) i 0;
  if negb (intvl_eq i result) then Ret (false, 0)
  else if node =? 0 then Ret (true, 0)
  else o ← deref (new_tree s) node; Ret (true, idata o).

(** [diff] on unsigned operands never negates; the result is read as signed. *)
Definition size_delta (a b : Z) : Z := sint 64 (u64 (a - b)).

Definition resize_mapping_inplace (st : vm_state) (d new_size : Z) : outcome (bool * vm_state) :=
  vm ← get_vm st d;
  let sp := vm_space vm in
  space_lock_assert st sp;;
  let i := vm_virt_interval vm in
  s ← get_space st sp;
  node ← intvl_tree_find (new_tree s) i;
  o ← deref (new_tree s) node;
  kassert (idata o =? d);;
  let delta := size_delta new_size (vm_size vm) in
  let stack := has_flag (vm_flags vm) VM_STACK in
  if new_size <? vm_size vm then
    Ret (true, put_vm st d (with_range vm (if stack then u64 (vm_address vm + delta) else vm_address vm) new_size (vm_virt_size vm)))
  else if (vm_size vm <? new_size) && (new_size <=? vm_empty_space vm) then
    Ret (true, put_vm st d (with_range vm (if stack then u64 (vm_address vm - delta) else vm_address vm) new_size (vm_virt_size vm)))
  else if stack then
    prev ← get_vm st (prev_in d (mappings s));
    pnode ← intvl_tree_find (new_tree s) (vm_virt_interval prev);
    po ← deref (new_tree s) pnode;
    if u64 (u64 (start i - end_ (interval po)) + vm_empty_space vm) <? u64 delta then Ret (false, st)
    else
      st ← tree_update st sp node (- delta) 0;
      Ret (true, put_vm st d (with_range vm (u64 (vm_address vm - (new_size - vm_size vm))) new_size (vm_virt_size vm)))
  else
    next ← get_vm st (next_in d (mappings s));
    nnode ← intvl_tree_find (new_tree s) (vm_virt_interval next);
    no ← deref (new_tree s) nnode;
    if u64 (u64 (start (interval no) - end_ i) + vm_empty_space vm) <? u64 delta then Ret (false, st)
    else
      st ← tree_update st sp node 0 delta;
      Ret (true, put_vm st d (with_range vm (vm_address vm) new_size (vm_virt_size vm))).

Definition split_mapping (st : vm_state) (d off : Z) : outcome (Z * vm_state) :=
  vm ← get_vm st d;
  let sp := vm_space vm in
  space_lock_assert st sp;;
  kassert (off mod vm_flags_to_size (vm_flags vm) =? 0);;
  let i := vm_virt_interval vm in
  let '(n, st) := vm_struct_alloc st (mk_vm (vm_ty vm) (Z.lor (vm_flags vm) VM_SPLIT) (u64 (vm_address vm + off))
    (u64 (vm_size vm - off)) 0 sp 0) in
  st ← vm_split_internal st d off n;
  vm ← get_vm st d;
  nvm ← get_vm st n;
  let vm := with_flags vm (Z.lor (vm_flags vm) VM_LINKED) in
  let '(vm, nvm) :=
    if has_flag (vm_flags vm) VM_STACK then
      (with_range vm (vm_address vm) off (vm_virt_size vm), with_range nvm (vm_address nvm) (vm_size nvm) (vm_size nvm))
    else
      (with_range vm (vm_address vm) off off,
       with_range nvm (vm_address nvm) (vm_size nvm) (u64 (vm_virt_size vm - off))) in
  let st := put_vm (put_vm st d vm) n nvm in
  s ← get_space st sp;
  node ← intvl_tree_find (new_tree s) i;
  st ← tree_update st sp node 0 (- (u64 (end_ i - start i) - off));
  st ← tree_insert st sp (vm_virt_interval nvm) n;
  kassert (contiguous (vm_virt_interval vm) (vm_virt_interval nvm));;
  s ← get_space st sp;
  l ← insert_after n d (mappings s);
  Ret (n, put_space st sp (with_mappings s (u64 (num_mappings s + 1)) l)).

Definition join_mappings (st : vm_state) (a b : Z) : outcome vm_state :=
  va ← get_vm st a;
  let sp := vm_space va in
  space_lock_assert st sp;;
  vb ← get_vm st b;
  kassert (has_flag (vm_flags va) VM_LINKED);;
  kassert (has_flag (vm_flags vb) VM_SPLIT);;
  let ia := vm_virt_interval va in
  let ib := vm_virt_interval vb in
  s ← get_space st sp;
  node ← intvl_tree_find (new_tree s) ia;
  st ← tree_delete st sp ib;
  st ← tree_update st sp node 0 (u64 (end_ ib - start ib));
  s ← get_space st sp;
  let st := put_space st sp (with_mappings s (u64 (num_mappings s - 1)) (remove_from b (mappings s))) in
  st ← vm_join_internal st a b;
  va ← get_vm st a;
  vb ← get_vm st b;
  let va := with_flags va (Z.land (vm_flags va) (not_w 32 VM_LINKED)) in
  let va := with_range va (vm_address va) (u64 (vm_size va + vm_size vb)) (u64 (vm_virt_size va + vm_virt_size vb)) in
  let st := put_vm st a va in
  Ret (set_vms st (delete b (vms st))).

Definition move_mapping (st : vm_state) (d newsize : Z) : outcome (bool * vm_state) :=
  vm ← get_vm st d;
  let sp := vm_space vm in
  space_lock_assert st sp;;
  let stack := has_flag (vm_flags vm) VM_STACK in
  let virt_size := if stack then u64 (newsize + PAGE_SIZE) else newsize in
  let off := if stack then PAGE_SIZE else 0 in
  let base := if stack then u64 (vm_address vm - virt_size) else vm_address vm in
  '(virt_addr, closest) ← get_free_region st sp base virt_size (vm_flags_to_size (vm_flags vm));
  if virt_addr =? 0 then Ret (false, st)
  else
    st ← tree_delete st sp (vm_virt_interval vm);
    st ← tree_insert st sp (mk_intvl virt_addr (u64 (virt_addr + virt_size))) d;
    s ← get_space st sp;
    let l := remove_from d (mappings s) in
    cvm ← get_vm st closest;
    let closest := if virt_addr <? vm_address cvm then prev_in closest l else closest in
    l ← insert_after d closest l;
    let st := put_space st sp (with_mappings s (num_mappings s) l) in
    Ret (true, put_vm st d (with_range vm (u64 (virt_addr + off)) newsize virt_size)).

Definition free_mapping (st : vm_state) (d : Z) : outcome vm_state :=
  vm ← get_vm st d;
  let sp := vm_space vm in
  space_lock_assert st sp;;
  s ← get_space st sp;
  let st := put_space st sp (with_mappings s (num_mappings s) (remove_from d (mappings s))) in
  st ← tree_delete st sp (vm_virt_interval vm);
  s ← get_space st sp;
  let st := put_space st sp (with_mappings s (u64 (num_mappings s - 1)) (mappings s)) in
  st ← (if has_flag (vm_flags vm) VM_MAPPED then vm_free_internal st d else Ret st);
  Ret (set_vms st (delete d (vms st))).

(** ** vmap_internal *)

Definition are_valid_vmap_args (st : vm_state) (type : vm_type) (hint size vmsize flags data : Z) : outcome bool :=
  if negb (vmsize =? 0) && (vmsize <? size) then Ret false
  else if has_flag flags VM_HUGE_2MB && has_flag flags VM_HUGE_1GB then Ret false
  else
    let pg_size := if has_flag flags VM_HUGE_2MB then PAGE_SIZE_2MB else if has_flag flags VM_HUGE_1GB then PAGE_SIZE_1GB else PAGE_SIZE in
    if negb (pg_size =? PAGE_SIZE) && has_flag flags VM_STACK then Ret false
    else if has_flag flags VM_FIXED && has_flag flags VM_USER && negb ((USER_SPACE_START <=? hint) && (hint <? USER_SPACE_END)) then Ret false
    else if has_flag flags VM_FIXED && negb (has_flag flags VM_USER) && negb ((KERNEL_SPACE_START <=? hint) && (hint <? KERNEL_SPACE_END))
    then Ret false
    else if negb (is_aligned size pg_size) then Ret false
    else if negb (is_aligned vmsize pg_size) then Ret false
    else
      match type with
      | VM_TYPE_RSVD | VM_TYPE_PHYS => Ret true
      | VM_TYPE_PAGE =>
          '(pflags, count) ← page_head data (mem st);
          Ret (has_flag pflags PG_HEAD && (size =? u64 (count * pg_size)))
      | VM_TYPE_FILE => n ← file_size data (mem st); Ret (size =? n)
      end.

(** The start, the size and the offset of the mapped part of a request; None
    for a fixed stack too low for its guard page. *)
Definition vmap_layout (hint size vmsize flags : Z) : option (Z * Z * Z) :=
  let virt_size := Z.max vmsize size in
  if has_flag flags VM_FIXED then
    if has_flag flags VM_STACK then
      let virt_size := u64 (virt_size + PAGE_SIZE) in
      let virt_off := u64 (virt_size - size) in
      if hint <? virt_off then None else Some (hint - virt_off, virt_size, virt_off)
    else Some (hint, virt_size, 0)
  else
    let hint := choose_best_hint hint flags in
    if has_flag flags VM_STACK then
      let virt_size := u64 (virt_size + PAGE_SIZE) in Some (Z.max hint virt_size, virt_size, PAGE_SIZE)
    else Some (hint, virt_size, 0).

(** The struct of a new mapping. *)
Definition new_mapping (type : vm_type) (sp vaddr size virt_size flags data : Z) : vm_mapping_t :=
  match type with
  | VM_TYPE_RSVD => mk_vm type (Z.land flags (not_w 32 VM_PROT_MASK)) vaddr size virt_size sp 0
  | _ => mk_vm type flags vaddr size virt_size sp data
  end.

(** The new mapping in its space: the tree, the list and the page tables. *)
Definition vmap_add (st : vm_state) (vm : vm_mapping_t) (closest : Z) : outcome vm_state :=
  let sp := vm_space vm in
  let flags := vm_flags vm in
  let '(d, st) := vm_struct_alloc st vm in
  st ← tree_insert st sp (vm_virt_interval vm) d;
  s ← get_space st sp;
  l ← (if closest =? 0 then Ret (mappings s ++ [d]) else insert_after d closest (mappings s));
  let st := put_space st sp (with_mappings s (u64 (num_mappings s + 1)) l) in
  if has_flag flags VM_PROT_MASK then
    if has_flag flags VM_NOMAP then Ret (put_vm st d (with_flags vm (Z.lor (Z.lxor flags VM_NOMAP) VM_MAPPED)))
    else vm_update_internal st d flags
  else Ret st.

(** What can be written or executed can be read. *)
Definition readable (flags : Z) : Z :=
  if has_flag flags VM_WRITE || has_flag flags VM_EXEC then Z.lor flags VM_READ else flags.

(** The address of the new mapping, or an error. *)
Definition vmap_internal (st : vm_state) (user_space : Z) (type : vm_type) (hint size vmsize flags data : Z)
  : outcome ((vm_error + Z) * vm_state) :=
  ok ← are_valid_vmap_args st type hint size vmsize flags data;
  if negb ok then Ret (inl EINVAL, st)
  else
    let flags := readable flags in
    match vmap_layout hint size vmsize flags with
    | None => Ret (inl EINVAL, st)
    | Some (virt_base, virt_size, virt_off) =>
        let sp := select_space st user_space virt_base in
        st ← space_lock st sp;
        r ← (if has_flag flags VM_FIXED then
               c ← check_range_free st sp virt_base virt_size;
               Ret (if (c.1 : bool) then inr (virt_base, c.2) else inl EADDRNOTAVAIL : vm_error + Z * Z)
             else
               c ← get_free_region st sp virt_base virt_size (vm_flags_to_size flags);
               Ret (if c.1 =? 0 then inl ENOMEM else inr c : vm_error + Z * Z));
        match r with
        | inl e => st ← space_unlock st sp; Ret (inl e, st)
        | inr (virt_base, closest) =>
            let vaddr := u64 (virt_base + virt_off) in
            st ← vmap_add st (new_mapping type sp vaddr size virt_size flags data) closest;
            st ← space_unlock st sp;
            Ret (inr vaddr, st)
        end
    end.

(** ** Address spaces *)

Definition empty_space (min max pgtable : Z) : address_space_t :=
  mk_space min max 0 0 [] create_intvl_tree pgtable.

Definition vm_new_space (st : vm_state) (min max pgtable : Z) : Z * vm_state :=
  (blocks st, set_blocks (put_space st (blocks st) (empty_space min max pgtable)) (blocks st + 1)).

Fixpoint fork_mappings (st : vm_state) (new : Z) (l : list Z) : outcome vm_state :=
  match l with
  | [] => Ret st
  | d :: l' =>
      vm ← get_vm st d;
      '(data, m) ← vm_fork_internal vm (mem st);
      let nvm := mk_vm (vm_ty vm) (vm_flags vm) (vm_address vm) (vm_size vm) (vm_virt_size vm) new data in
      let '(n, st) := vm_struct_alloc (set_mem st m) nvm in
      st ← tree_insert st new (vm_virt_interval nvm) n;
      s ← get_space st new;
      fork_mappings (put_space st new (with_mappings s (u64 (num_mappings s + 1)) (mappings s ++ [n]))) new l'
  end.

Definition vm_fork_space (st : vm_state) (sp : Z) (deepcopy_user : bool) : outcome (Z * vm_state) :=
  space_lock_assert st sp;;
  s ← get_space st sp;
  let '(new, st) := vm_new_space st (min_addr s) (max_addr s) 0 in
  ns ← get_space st new;
  let st := put_space st new (with_mappings ns (num_mappings s) (mappings ns)) in
  kassert (page_table s =? get_current_pgtable (mem st));;
  st ← space_lock st (kernel_space st);
  '(pgtable, m) ← fork_page_tables deepcopy_user new (mem st);
  st ← space_unlock (set_mem st m) (kernel_space st);
  ns ← get_space st new;
  let st := put_space st new (mk_space (min_addr ns) (max_addr ns) (lock_depth ns) (num_mappings ns)
    (mappings ns) (new_tree ns) pgtable) in
  st ← fork_mappings st new (mappings s);
  Ret (new, st).

(** ** The interface *)

(** The callers of vmap_internal panic when it fails. *)
Definition or_panic (r : (vm_error + Z) * vm_state) : outcome (Z * vm_state) :=
  match r with (inl _, _) => Panic | (inr vaddr, st) => Ret (vaddr, st) end.

Definition vmap_rsvd (st : vm_state) (hint size flags : Z) : outcome (Z * vm_state) :=
  r ← vmap_internal st (curspace st) VM_TYPE_RSVD hint size size flags 0; or_panic r.

Definition vmap_phys (st : vm_state) (phys hint size flags : Z) : outcome (Z * vm_state) :=
  r ← vmap_internal st (curspace st) VM_TYPE_PHYS hint size size flags phys; or_panic r.

Definition vmap_pages (st : vm_state) (pages hint size flags : Z) : outcome (Z * vm_state) :=
  r ← vmap_internal st (curspace st) VM_TYPE_PAGE hint size size flags pages; or_panic r.

Definition vmap_file (st : vm_state) (file hint vmsize flags : Z) : outcome (Z * vm_state) :=
  size ← file_size file (mem st);
  r ← vmap_internal st (curspace st) VM_TYPE_FILE hint size vmsize flags file; or_panic r.

Definition vmap_anon (st : vm_state) (vmsize hint size flags : Z) : outcome (Z * vm_state) :=
  '(file, m) ← vm_file_alloc_anon size (vm_flags_to_size flags) (mem st);
  r ← vmap_internal (set_mem st m) (curspace st) VM_TYPE_FILE hint size vmsize flags file; or_panic r.

(** Whether a mapping from [d] up to [stop] is reserved. *)
Fixpoint any_reserved (fuel : nat) (st : vm_state) (l : list Z) (d stop : Z) : outcome bool :=
  match fuel with
  | O => NoFuel
  | S f =>
      if d =? stop then Ret false
      else
        vm ← get_vm st d;
        if bool_decide (vm_ty vm = VM_TYPE_RSVD) then Ret true else any_reserved f st l (next_in d l) stop
  end.

Fixpoint free_up_to (fuel : nat) (st : vm_state) (l : list Z) (d stop : Z) : outcome vm_state :=
  match fuel with
  | O => NoFuel
  | S f =>
      if d =? stop then Ret st
      else st ← free_mapping st d; free_up_to f st l (next_in d l) stop
  end.

(** None is success.  Two of the error returns leave the space locked. *)
Definition vmap_free (st : vm_state) (vaddr size : Z) : outcome (option vm_error * vm_state) :=
  if negb (is_valid_range vaddr size) || negb (is_aligned size PAGE_SIZE) then Ret (Some EINVAL, st)
  else
    let sp := select_space st (curspace st) vaddr in
    st ← space_lock st sp;
    d ← space_get_mapping st sp vaddr;
    dend ← space_get_mapping st sp (u64 (vaddr + size - 1));
    if (d =? 0) || (dend =? 0) then st ← space_unlock st sp; Ret (Some ENOMEM, st)
    else
      vm ← get_vm st d;
      ve ← get_vm st dend;
      let i := mk_intvl vaddr (u64 (vaddr + size)) in
      let i_start := vm_real_interval vm in
      let i_end := vm_real_interval ve in
      if (start i <? start i_start) || (end_ i_end <? end_ i) then st ← space_unlock st sp; Ret (Some ENOMEM, st)
      else if negb (intvl_eq i (mk_intvl (start i_start) (end_ i_end))) then Ret (Some EINVAL, st)
      else
        s ← get_space st sp;
        let l := mappings s in
        reserved ← any_reserved (S (length l)) st l d (next_in dend l);
        if (reserved : bool) then Ret (Some EINVAL, st)
        else
          st ← free_up_to (S (length l)) st l d dend;
          st ← free_mapping st dend;
          st ← space_unlock st sp;
          Ret (None, st).

(** Joins every mapping of [l] to [d]. *)
Fixpoint join_all (st : vm_state) (d : Z) (l : list Z) : outcome vm_state :=
  match l with [] => Ret st | x :: l' => st ← join_mappings st d x; join_all st d l' end.

(** PROT_READ, PROT_WRITE and PROT_EXEC as mapping flags. *)
Definition prot_flags (prot : Z) : Z :=
  let f := if has_flag prot 1 then VM_READ else 0 in
  let f := if has_flag prot 2 then Z.lor f VM_WRITE else f in
  if has_flag prot 4 then Z.lor f VM_EXEC else f.

Definition vmap_protect (st : vm_state) (vaddr len prot : Z) : outcome (option vm_error * vm_state) :=
  if negb (is_valid_range vaddr len) || negb (is_aligned len PAGE_SIZE) then Ret (Some EINVAL, st)
  else
    let vm_prot := prot_flags prot in
    let sp := select_space st (curspace st) vaddr in
    st ← space_lock st sp;
    d ← space_get_mapping st sp vaddr;
    dend ← space_get_mapping st sp (u64 (vaddr + len - 1));
    if (d =? 0) || (dend =? 0) then st ← space_unlock st sp; Ret (Some ENOMEM, st)
    else
      vm ← get_vm st d;
      ve ← get_vm st dend;
      if bool_decide (vm_ty vm = VM_TYPE_RSVD) || bool_decide (vm_ty ve = VM_TYPE_RSVD)
      then st ← space_unlock st sp; Ret (Some ENOMEM, st)
      else
        let i_start := vm_real_interval vm in
        let i_end := vm_real_interval ve in
        let i := mk_intvl vaddr (u64 (vaddr + len)) in
        let is_single := d =? dend in
        siblings ← vm_are_siblings st d dend;
        r ←
          (if negb (contains_point i_start (start i)) || negb (contains_point i_end (u64 (end_ i - 1))) then Ret (Some ENOMEM, st)
           else if is_single && intvl_eq i i_start then st ← vm_update_internal st d vm_prot; Ret (None, st)
           else if is_single && (start i =? start i_start) then
             '(_, st) ← split_mapping st d len; st ← vm_update_internal st d vm_prot; Ret (None, st)
           else if is_single && (end_ i =? end_ i_end) then
             '(n, st) ← split_mapping st d (start i - start i_start); st ← vm_update_internal st n vm_prot; Ret (None, st)
           else if is_single then
             '(a, st) ← split_mapping st d (start i - start i_start);
             '(_, st) ← split_mapping st a len;
             st ← vm_update_internal st a vm_prot; Ret (None, st)
           else if (siblings : bool) && (start i =? start i_start) && (end_ i =? end_ i_end) then
             s ← get_space st sp;
             st ← join_all st d (after_in d (mappings s));
             st ← vm_update_internal st d vm_prot; Ret (None, st)
           else Ret (Some ENOMEM, st) : outcome (option vm_error * vm_state));
        st ← space_unlock r.2 sp;
        Ret (r.1, st).

(** The address of the mapping, when it moved. *)
Definition vmap_resize (st : vm_state) (vaddr old_size new_size : Z) (allow_move : bool)
  : outcome (option vm_error * option Z * vm_state) :=
  if negb (is_valid_range vaddr old_size) || negb (is_aligned old_size PAGE_SIZE) || negb (is_aligned new_size PAGE_SIZE)
  then Ret (Some EINVAL, None, st)
  else
    let sp := select_space st (curspace st) vaddr in
    st ← space_lock st sp;
    d ← space_get_mapping st sp vaddr;
    let fail st e := st ← space_unlock st sp; Ret (Some e, None, st) in
    if d =? 0 then fail st ENOMEM
    else
      vm ← get_vm st d;
      if bool_decide (vm_ty vm = VM_TYPE_RSVD) then fail st ENOMEM
      else if negb (bool_decide (vm_ty vm = VM_TYPE_PAGE) || bool_decide (vm_ty vm = VM_TYPE_FILE)) ||
              negb (vm_size vm =? old_size) then fail st EINVAL
      else if has_flag (vm_flags vm) VM_LINKED || has_flag (vm_flags vm) VM_SPLIT then fail st EINVAL
      else if vm_size vm =? new_size then st ← space_unlock st sp; Ret (None, None, st)
      else
        r ← resize_mapping_inplace st d new_size;
        let '(in_place, st) := (r : bool * vm_state) in
        r ← (if in_place then Ret (false, st) else if allow_move then move_mapping st d new_size else Ret (false, st));
        let '(moved, st) := (r : bool * vm_state) in
        if negb in_place && negb moved then fail st ENOMEM
        else
          vm ← get_vm st d;
          st ← (if new_size <? old_size then
                  if bool_decide (vm_ty vm = VM_TYPE_PAGE) then
                    m ← page_type_unmap_internal vm (old_size - new_size) new_size (mem st); Ret (set_mem st m)
                  else m ← file_visit_update vm new_size old_size false (mem st); Ret (set_mem st m)
                else Ret st);
          st ← space_unlock st sp;
          Ret (None, if moved then Some (vm_address vm) else None, st).

Definition vmalloc (st : vm_state) (size flags : Z) : outcome (Z * vm_state) :=
  kassert (negb (has_flag flags VM_HUGE_2MB) && negb (has_flag flags VM_HUGE_1GB));;
  if size =? 0 then Ret (0, st)
  else
    let size := align size PAGE_SIZE in
    let flags := Z.lor (Z.land flags VM_FLAGS_MASK) VM_MALLOC in
    if negb (has_flag flags VM_PROT_MASK) then Ret (0, st)
    else if size <=? SIZE_TO_PAGES 4 then
      '(pages, m) ← alloc_pages (SIZE_TO_PAGES size) (mem st);
      if pages =? 0 then Panic else vmap_pages (set_mem st m) pages 0 PAGE_SIZE flags
    else vmap_anon st size 0 size flags.

Definition vfree (st : vm_state) (ptr : Z) : outcome vm_state :=
  if (ptr =? 0) || negb (is_valid_pointer ptr) then Ret st
  else
    let sp := select_space st (curspace st) ptr in
    st ← space_lock st sp;
    d ← space_get_mapping st sp ptr;
    if d =? 0 then Panic
    else
      vm ← get_vm st d;
      if negb ((bool_decide (vm_ty vm = VM_TYPE_PAGE) || bool_decide (vm_ty vm = VM_TYPE_FILE)) && has_flag (vm_flags vm) VM_MALLOC)
      then Panic
      else if negb (ptr =? vm_address vm) then Panic
      else
        st ← free_mapping st d;
        space_unlock st sp.

End vmalloc.
