(* ===== verification/VmSpace.v ===== *)
(** * kernel/mm/vmalloc.c: the invariant of address spaces

    In a well-formed state the tree of a space has exactly the virtual ranges
    of the mappings in its list.  The ranges do not wrap and do not overlap,
    and a mapping belongs to one space.  This file has the invariant and what
    the steps of the operations of Vmalloc do to it; the properties of the
    operations are in VmMap. *)

From S2P Require Import Prelude Mm Interval.
From stdpp Require Import list gmap sorting.
From S2P Require Import RbTree RbEvents RbInsert RbAdd RbDelete RbFix RbRemove IntvlTree IntvlOps IntvlRun Vmalloc.
Local Open Scope Z_scope.

(** ** Flags *)

Lemma has_bit f k : 0 <= k -> has_flag f (Z.shiftl 1 k) = Z.testbit f k.
Proof. intros Hk. rewrite Z.shiftl_1_l. by apply has_flag_bit. Qed.

(** ** Places *)

(** The first address of the range of a mapping. *)
Definition vm_lo (vm : vm_mapping_t) : Z :=
  if has_flag (vm_flags vm) VM_STACK then vm_address vm - (vm_virt_size vm - vm_size vm) else vm_address vm.

(** A mapping whose range is not empty and does not wrap. *)
Definition vm_fits (vm : vm_mapping_t) : Prop :=
  0 <= vm_size vm <= vm_virt_size vm /\ 0 < vm_virt_size vm /\ 0 <= vm_lo vm /\
  vm_lo vm + vm_virt_size vm <= UINT64_MAX.

Lemma vm_fits_interval vm : vm_fits vm ->
  vm_virt_interval vm = mk_intvl (vm_lo vm) (vm_lo vm + vm_virt_size vm).
Proof.
  intros (Hs & Hv & Hlo & Hhi). assert (E : vm_virtual_start vm = vm_lo vm).
  { unfold vm_virtual_start, vm_lo in *. destruct (has_flag (vm_flags vm) VM_STACK); [|done].
    rewrite (wrap_small 64 (vm_virt_size vm - vm_size vm)) by (unfold fits; lia). apply wrap_small. unfold fits. lia. }
  unfold vm_virt_interval. rewrite E. f_equal. apply wrap_small. unfold fits. lia.
Qed.

Lemma vm_fits_start vm : vm_fits vm -> start (vm_virt_interval vm) = vm_lo vm.
Proof. intros H. by rewrite vm_fits_interval. Qed.

Lemma vm_fits_proper vm : vm_fits vm -> proper (vm_virt_interval vm) /\ end_ (vm_virt_interval vm) <= UINT64_MAX.
Proof. intros H. rewrite vm_fits_interval by done. destruct H as (? & ? & ? & ?). split; [split; simpl; lia|simpl; lia]. Qed.

(** The same range, in the same space. *)
Definition same_place (vm vm' : vm_mapping_t) : Prop :=
  vm_address vm' = vm_address vm /\ vm_size vm' = vm_size vm /\ vm_virt_size vm' = vm_virt_size vm /\
  vm_space vm' = vm_space vm /\ has_flag (vm_flags vm') VM_STACK = has_flag (vm_flags vm) VM_STACK.

Lemma same_place_lo vm vm' : same_place vm vm' -> vm_lo vm' = vm_lo vm.
Proof. intros (Ha & Hs & Hv & _ & Hf). unfold vm_lo. by rewrite Ha, Hs, Hv, Hf. Qed.

Lemma same_place_fits vm vm' : same_place vm vm' -> vm_fits vm -> vm_fits vm'.
Proof.
  intros H. pose proof (same_place_lo _ _ H) as E. destruct H as (Ha & Hs & Hv & _ & Hf). unfold vm_fits. by rewrite E, Hs, Hv.
Qed.

Lemma same_place_interval vm vm' : same_place vm vm' -> vm_virt_interval vm' = vm_virt_interval vm.
Proof. intros (Ha & Hs & Hv & _ & Hf). unfold vm_virt_interval, vm_virtual_start. by rewrite Ha, Hs, Hv, Hf. Qed.

(** ** Lists *)

Lemma insert_after_ok d a l : a ∈ l -> exists x y, l = x ++ a :: y /\ insert_after d a l = Ret (x ++ a :: d :: y).
Proof.
  induction l as [|z l IH]; intros Ha; [set_solver|]. simpl. destruct (Z.eqb_spec z a) as [->|Hne]; [by exists [], l|].
  destruct IH as (x & y & -> & ->); [set_solver|]. by exists (z :: x), y.
Qed.

Lemma remove_from_none d l : (d ∉ l) -> remove_from d l = l.
Proof.
  unfold remove_from. induction l as [|z l IH]; intros Hd; [done|]. rewrite filter_cons_True by set_solver.
  f_equal. apply IH. set_solver.
Qed.

Lemma remove_from_ok d x y : NoDup (x ++ d :: y) -> remove_from d (x ++ d :: y) = x ++ y.
Proof.
  intros (_ & Dx & [Dy _]%NoDup_cons)%NoDup_app. unfold remove_from. rewrite filter_app, filter_cons_False by naive_solver.
  f_equal; apply remove_from_none; [|done]. intros Hx. apply (Dx d Hx). set_solver.
Qed.

Section spaces.
Context {M : Type} {B : vm_backend M} (garbage : Z -> intvl_node_t).
Implicit Types st : vm_state (M := M).

(** ** The invariant *)

(** The space [s] of [st]: its tree holds [S] with the records [U]. *)
Record space_ok st (sp : Z) (s : address_space_t) (S : intervals) (U : gset Z) : Prop := mk_space_ok {
  so_tree : intvl_holds (new_tree s) S U;
  so_nodes : nodes (new_tree s) = 2 * Z.of_nat (length (mappings s));
  so_nodup : NoDup (mappings s);
  so_count : num_mappings s = Z.of_nat (length (mappings s));
  so_records : forall p, p ∈ U -> 0 < p < blocks st;
  so_in : forall d, d ∈ mappings s -> exists vm p, vms st !! d = Some vm /\ vm_space vm = sp /\ vm_fits vm /\
    S !! vm_lo vm = Some (p, (vm_virt_interval vm, d));
  so_out : forall x p j d, S !! x = Some (p, (j, d)) ->
    (d ∈ mappings s) /\ exists vm, vms st !! d = Some vm /\ j = vm_virt_interval vm;
}.

Record vm_wf st : Prop := mk_wf {
  wf_blocks : 0 < blocks st;
  wf_vms : forall d vm, vms st !! d = Some vm -> 0 < d < blocks st;
  wf_names : forall sp s, spaces st !! sp = Some s -> 0 < sp < blocks st;
  wf_spaces : forall sp s, spaces st !! sp = Some s -> exists S U, space_ok st sp s S U;
}.

(** What a step on the space [sp] leaves alone. *)
Record elsewhere (sp : Z) st st' : Prop := mk_elsewhere {
  el_kernel : kernel_space st' = kernel_space st;
  el_cur : curspace st' = curspace st;
  el_spaces : forall sp', sp' <> sp -> spaces st' !! sp' = spaces st !! sp';
  el_blocks : blocks st <= blocks st';
  el_vms : forall d vm, vms st !! d = Some vm -> vm_space vm <> sp -> vms st' !! d = Some vm;
}.

Lemma elsewhere_refl sp st : elsewhere sp st st.
Proof. by split. Qed.

Lemma elsewhere_trans sp a b c : elsewhere sp a b -> elsewhere sp b c -> elsewhere sp a c.
Proof. intros [K1 C1 S1 B1 V1] [K2 C2 S2 B2 V2]. split; [congruence|congruence| |lia|auto]. intros sp' H. rewrite S2, S1; done. Qed.

Lemma space_ok_elsewhere sp sp' st st' s S U :
  sp' <> sp -> elsewhere sp st st' -> space_ok st sp' s S U -> space_ok st' sp' s S U.
Proof.
  intros Hne [_ _ _ Hb Hv] [H1 H2 H3 H4 H5 H6 H7]. split; try done.
  - intros p Hp. specialize (H5 p Hp). lia.
  - intros d Hd. destruct (H6 d Hd) as (vm & p & Hvm & Hsp & Hrest). exists vm, p. split; [|done]. apply Hv; [done|congruence].
  - intros x p j d Hx. destruct (H7 x p j d Hx) as (Hd & vm & Hvm & Hj). split; [done|]. exists vm. split; [|done].
    destruct (H6 d Hd) as (vm' & _ & Hvm' & Hsp & _). apply Hv; [done|congruence].
Qed.

(** A step on one space, for the whole state. *)
Lemma wf_step sp st st' s' S' U' :
  vm_wf st -> elsewhere sp st st' -> (forall d vm, vms st' !! d = Some vm -> 0 < d < blocks st') ->
  0 < sp < blocks st' -> spaces st' !! sp = Some s' -> space_ok st' sp s' S' U' -> vm_wf st'.
Proof.
  intros [W1 W2 W3 W4] El Hv Hsp Hs' Hok. pose proof El as [_ _ Es Eb _]. split; [lia|done|..].
  - intros x s Hx. destruct (decide (x = sp)) as [->|Hne]; [done|]. rewrite Es in Hx by done. specialize (W3 x s Hx). lia.
  - intros x s Hx. destruct (decide (x = sp)) as [->|Hne].
    + assert (s = s') as -> by congruence. by exists S', U'.
    + rewrite Es in Hx by done. destruct (W4 x s Hx) as (S & U & H). exists S, U. by apply (space_ok_elsewhere sp x st).
Qed.

(** Changes of a mapping that leave its place. *)
Lemma space_ok_put_vm st sp s S U d vm vm' :
  space_ok st sp s S U -> vms st !! d = Some vm -> same_place vm vm' -> space_ok (put_vm st d vm') sp s S U.
Proof.
  intros [H1 H2 H3 H4 H5 H6 H7] Hd Hp. pose proof (same_place_lo _ _ Hp) as El. pose proof (same_place_interval _ _ Hp) as Ei.
  split; try done.
  - intros x Hx. destruct (H6 x Hx) as (v & p & Hv & Hs & Hf & HS). unfold put_vm, set_vms. simpl.
    destruct (decide (x = d)) as [->|Hne].
    + assert (v = vm) as -> by congruence. exists vm', p. rewrite lookup_insert_eq, El, Ei. split; [done|].
      split; [by rewrite <- Hs; apply Hp|]. split; [by apply (same_place_fits vm)|done].
    + exists v, p. by rewrite lookup_insert_ne.
  - intros x p j y Hx. destruct (H7 x p j y Hx) as (Hy & v & Hv & Hj). split; [done|]. unfold put_vm, set_vms. simpl.
    destruct (decide (y = d)) as [->|Hne].
    + assert (v = vm) as -> by congruence. exists vm'. rewrite lookup_insert_eq. split; [done|congruence].
    + exists v. by rewrite lookup_insert_ne.
Qed.

Lemma space_ok_same st st' sp s S U :
  vms st' = vms st -> blocks st' = blocks st -> space_ok st sp s S U -> space_ok st' sp s S U.
Proof. intros Ev Eb [H1 H2 H3 H4 H5 H6 H7]. split; try done; by rewrite ?Ev, ?Eb. Qed.

Lemma space_ok_depth st sp s S U n : space_ok st sp s S U -> space_ok st sp (with_depth s n) S U.
Proof. by intros [H1 H2 H3 H4 H5 H6 H7]. Qed.

Lemma get_put_space st sp s : get_space (put_space st sp s) sp = Ret s.
Proof. unfold get_space. simpl. by rewrite lookup_insert_eq. Qed.

(** ** Free ranges *)

Lemma entries_free t S U js size K g s :
  intvl_holds t S U -> entries_of S js -> 0 < size -> 0 <= g ->
  free_at js.*1 s size K g <-> s <= g /\ g mod K = 0 /\ none_meets S (mk_intvl g (g + size)).
Proof.
  intros Hh Hjs Hs Hg. assert (Hi : proper (mk_intvl g (g + size))) by (split; simpl; lia).
  unfold free_at, none_meets. split; intros (H1 & H2 & H3); (split; [done|]; split; [done|]).
  - intros x [p [j d]] Hx. destruct (holds_interval _ _ _ _ _ _ _ Hh Hx) as (_ & Hj & _). simpl.
    apply apart; [done..|]. destruct (H3 j); [|simpl; lia..].
    apply list_elem_of_fmap. exists (j, p). split; [done|]. apply Hjs. by exists x, d.
  - intros j ([j' p] & -> & Hin)%list_elem_of_fmap. apply Hjs in Hin as (x & d & Hx).
    destruct (holds_interval _ _ _ _ _ _ _ Hh Hx) as (_ & Hj & _). specialize (H3 _ _ Hx). simpl in H3.
    apply apart in H3; [|done..]. simpl in *. lia.
Qed.

Lemma align_self v k : 0 <= v -> 0 <= k < 64 -> v + 2 ^ k <= 2 ^ 64 -> v mod 2 ^ k = 0 -> align v (2 ^ k) = v.
Proof.
  intros Hv Hk Hb Hm. rewrite align_pow2 by done. rewrite Z.mod_opp_l_z by lia. lia.
Qed.

Lemma do_align_pow2 v k : 0 <= k -> do_align v (2 ^ k) = align v (2 ^ k).
Proof. intros Hk. unfold do_align. by rewrite (proj2 (Z.ltb_lt 0 (2 ^ k))) by lia. Qed.

Section space.
Context st sp s S U (Hs : spaces st !! sp = Some s) (Hok : space_ok st sp s S U) (Hlock : 0 < lock_depth s).

Lemma get_space_at : get_space st sp = Ret s.
Proof. unfold get_space. by rewrite Hs. Qed.

Lemma lock_held : space_lock_assert st sp = Ret tt.
Proof. unfold space_lock_assert. rewrite get_space_at. simpl. by rewrite (proj2 (Z.ltb_lt _ _)). Qed.

(** The mapping of a record. *)
Lemma record_mapping js j q : entries_of S js -> (j, q) ∈ js ->
  exists o, q <> 0 /\ deref (new_tree s) q = Ret o /\ idata o ∈ mappings s.
Proof.
  intros Hjs Hin. apply Hjs in Hin as (x & d & Hx).
  destruct (holds_interval _ _ _ _ _ _ _ (so_tree _ _ _ _ _ Hok) Hx) as (_ & _ & _ & Hq & _ & o & Ho & _ & Hd).
  exists o. split; [done|]. split; [by apply deref_data|]. rewrite Hd. by apply (so_out _ _ _ _ _ Hok x q j).
Qed.

(** A free range, for a page size and a start that is a multiple of it. *)
Lemma free_region_ok base size k :
  0 <= k < 64 -> 0 < size -> 0 <= base -> base mod 2 ^ k = 0 -> size mod 2 ^ k = 0 -> base + size <= max_addr s ->
  max_addr s <= UINT64_MAX -> has_room S (mk_intvl base (base + size)) k ->
  exists g c, get_free_region st sp base size (2 ^ k) = Ret (g, c) /\ base <= g /\ g mod 2 ^ k = 0 /\
    g + size <= UINT64_MAX /\ none_meets S (mk_intvl g (g + size)) /\ (c = 0 \/ c ∈ mappings s) /\
    forall b, base <= b -> b mod 2 ^ k = 0 -> none_meets S (mk_intvl b (b + size)) -> g <= b.
Proof.
  intros Hk Hsz Hb Hbm Hsm Hmax Hmu Hroom. assert (Hsz' : size + 2 ^ k <= 2 ^ 64) by (destruct Hroom as [H _]; simpl in H; lia).
  assert (Hba : base + 2 ^ k <= 2 ^ 64) by (destruct Hroom as [H _]; simpl in H; lia).
  set (i := mk_intvl base (base + size)) in *. pose proof (so_tree _ _ _ _ _ Hok) as Hh.
  destruct (free_gap_intvl (new_tree s) S U i k Hh) as (gi & q & Hrun & g & q' & js & Hjs & [= -> <-] & Hf & Hleast & Hend & Hq).
  { split; [split; simpl; lia|]. split; [simpl; lia|]. split; [done|]. split; [done|]. right. done. }
  unfold i in Hf, Hleast, Hend, Hq. simpl in Hf, Hleast, Hend, Hq.
  replace (base + size - base) with size in * by lia.
  assert (Hg : 0 <= g) by (destruct Hf; lia). pose proof Hf as Hf'.
  apply (entries_free _ _ _ _ _ _ _ _ Hh Hjs Hsz Hg) in Hf' as (F1 & F2 & F3).
  unfold get_free_region. rewrite !do_align_pow2, !align_self by lia. rewrite lock_held. cbn [mbind outcome_bind].
  rewrite get_space_at. cbn [mbind outcome_bind]. rewrite (wrap_small 64 (base + size)) by (unfold fits; lia).
  rewrite (proj2 (Z.ltb_ge _ _)) by lia. rewrite (proj2 (Z.ltb_ge _ _)) by lia. cbn [orb]. fold i. rewrite Hrun.
  cbn [mbind outcome_bind]. assert (Hlow : forall b, base <= b -> b mod 2 ^ k = 0 -> none_meets S (mk_intvl b (b + size)) -> g <= b).
  { intros b B1 B2 B3. apply Hleast. apply (entries_free _ _ _ _ _ _ _ _ Hh Hjs Hsz); [lia|done]. }
  destruct Hq as [[-> Hq]|(j & Hin & Hle & _)].
  - assert (g <= base) as Hgb.
    { apply Hleast. split; [lia|]. split; [done|]. intros j Hj. left. specialize (Hq j Hj). lia. }
    assert (g = base) as -> by lia. exists base, 0. cbn [Z.eqb]. do 3 (split; [done|]). split; [lia|]. split; [done|]. split; [by left|done].
  - destruct (record_mapping js j q Hjs Hin) as (o & Hq0 & Ho & Hd). rewrite (proj2 (Z.eqb_neq _ _)) by done.
    rewrite Ho. exists g, (idata o). split; [done|]. do 2 (split; [done|]). split; [lia|]. split; [done|]. split; [by right|done].
Qed.

Lemma check_range_ok base size :
  0 < size -> 0 <= base -> base + size <= UINT64_MAX -> has_room S (mk_intvl base (base + size)) 0 ->
  (exists c, check_range_free st sp base size = Ret (true, c) /\ none_meets S (mk_intvl base (base + size)) /\
     (c = 0 \/ c ∈ mappings s)) \/
  (check_range_free st sp base size = Ret (false, 0) /\ ~ none_meets S (mk_intvl base (base + size))).
Proof.
  intros Hsz Hb Hend Hroom. set (i := mk_intvl base (base + size)) in *. pose proof (so_tree _ _ _ _ _ Hok) as Hh.
  destruct (free_gap_intvl (new_tree s) S U i 0 Hh) as (gi & q & Hrun & g & q' & js & Hjs & [= -> <-] & Hf & Hleast & _ & Hq).
  { split; [split; simpl; lia|]. split; [simpl; lia|]. split; [done|]. split; [done|]. right. apply Z.mod_1_r. }
  change (intvl_tree_find_free_gap (new_tree s) i (2 ^ 0)) with (intvl_tree_find_free_gap (new_tree s) i 0) in Hrun.
  unfold i in Hf, Hleast, Hq. simpl in Hf, Hleast, Hq. replace (base + size - base) with size in * by lia.
  assert (Hg : 0 <= g) by (destruct Hf; lia). pose proof Hf as Hf'.
  apply (entries_free _ _ _ _ _ _ _ _ Hh Hjs Hsz Hg) in Hf' as (F1 & F2 & F3).
  assert (Ei : mk_intvl g (g + (end_ i - start i)) = mk_intvl g (g + size)) by (unfold i; simpl; f_equal; lia).
  unfold check_range_free. rewrite lock_held. cbn [mbind outcome_bind]. rewrite get_space_at. cbn [mbind outcome_bind].
  rewrite (wrap_small 64 (base + size)) by (unfold fits; lia). fold i. rewrite Hrun. cbn [mbind outcome_bind]. rewrite ?Ei.
  destruct (decide (g = base)) as [->|Hne].
  - left. assert (intvl_eq i (mk_intvl base (base + size)) = true) as ->.
    { unfold intvl_eq, i. simpl. by rewrite !Z.eqb_refl. }
    cbn [negb]. destruct Hq as [[-> Hq]|(j & Hin & Hle & _)].
    + exists 0. split; [done|]. split; [done|by left].
    + destruct (record_mapping js j q Hjs Hin) as (o & Hq0 & Ho & Hd). rewrite (proj2 (Z.eqb_neq _ _)) by done.
      rewrite Ho. exists (idata o). split; [done|]. split; [done|by right].
  - right. assert (intvl_eq i (mk_intvl g (g + size)) = false) as ->.
    { unfold intvl_eq, i. simpl. by rewrite (proj2 (Z.eqb_neq base g)) by lia. }
    split; [done|]. intros Hn. assert (g <= base); [|lia].
    apply Hleast. apply (entries_free _ _ _ _ _ _ _ _ Hh Hjs Hsz Hb). split; [lia|]. split; [apply Z.mod_1_r|done].
Qed.

(** *** The page tables *)

(** What the type of a mapping does to map and to unmap it. *)
Definition type_map (vm : vm_mapping_t) (m : M) : outcome M :=
  match vm_ty vm with
  | VM_TYPE_PHYS => phys_type_map_internal vm (vm_data vm) (vm_size vm) 0 m
  | VM_TYPE_PAGE => page_type_map_internal vm (vm_data vm) (vm_size vm) 0 m
  | VM_TYPE_FILE => file_type_map_internal vm (vm_size vm) 0 m
  | VM_TYPE_RSVD => Panic
  end.

Definition type_unmap (vm : vm_mapping_t) (m : M) : outcome M :=
  match vm_ty vm with
  | VM_TYPE_PHYS => phys_type_unmap_internal vm (vm_size vm) 0 m
  | VM_TYPE_PAGE => page_type_unmap_internal vm (vm_size vm) 0 m
  | VM_TYPE_FILE => file_type_unmap_internal vm (vm_size vm) 0 m
  | VM_TYPE_RSVD => Panic
  end.

(** A mapping with the protection [prot], mapped when there is any. *)
Definition protected (vm : vm_mapping_t) (prot : Z) : vm_mapping_t :=
  let prot := Z.land prot VM_PROT_MASK in
  let f := Z.lor (Z.land (vm_flags vm) (not_w 32 VM_PROT_MASK)) prot in
  with_flags vm (if prot =? 0 then Z.land f (not_w 32 VM_MAPPED) else Z.lor f VM_MAPPED).

(** Other flags are kept. *)
Lemma protected_bit vm prot k : 0 <= k < 32 -> Z.testbit VM_PROT_MASK k = false -> Z.testbit VM_MAPPED k = false ->
  has_flag (vm_flags (protected vm prot)) (Z.shiftl 1 k) = has_flag (vm_flags vm) (Z.shiftl 1 k).
Proof.
  intros Hk Hp Hm. unfold protected, with_flags. simpl. rewrite !has_bit by lia.
  destruct (Z.land prot VM_PROT_MASK =? 0); rewrite ?Z.lor_spec, ?Z.land_spec, ?Z.lor_spec, ?Z.land_spec, ?testbit_not_w, ?Hp, ?Hm by lia.
  all: rewrite (proj2 (Z.ltb_lt k 32)) by lia; simpl; by rewrite ?andb_false_r, ?orb_false_r, ?andb_true_r.
Qed.

Lemma protected_mapped vm prot : has_flag prot VM_PROT_MASK = true -> has_flag (vm_flags (protected vm prot)) VM_MAPPED = true.
Proof.
  unfold has_flag at 1, protected. intros ->%negb_true_iff. simpl. rewrite has_bit, Z.lor_spec by done.
  change (Z.testbit VM_MAPPED 17) with true. apply orb_true_r.
Qed.

Lemma protected_place vm prot : same_place vm (protected vm prot).
Proof. unfold same_place. do 4 (split; [done|]). by apply protected_bit. Qed.

Lemma update_internal_eq d vm prot :
  vms st !! d = Some vm -> vm_space vm = sp ->
  vm_update_internal st d prot =
  (m ← (if Z.land prot VM_PROT_MASK =? 0 then type_unmap else type_map) (protected vm prot) (mem st);
   Ret (set_mem (put_vm st d (protected vm prot)) m)).
Proof.
  intros Hd Hsp. unfold vm_update_internal, get_vm. rewrite Hd. cbn [mbind outcome_bind]. rewrite Hsp, lock_held.
  cbn [mbind outcome_bind]. unfold protected. destruct (Z.land prot VM_PROT_MASK =? 0); cbn [negb];
    unfold type_map, type_unmap; simpl; by destruct (vm_ty vm).
Qed.

End space.

(** *** Steps on the tree *)

Lemma tree_insert_ok st sp s S U i d :
  spaces st !! sp = Some s -> intvl_holds (new_tree s) S U -> (forall p, p ∈ U -> p < blocks st) ->
  nodes (new_tree s) + 2 < 2 ^ 64 -> 0 < blocks st -> proper i -> end_ i <= UINT64_MAX -> none_meets S i ->
  exists t, tree_insert garbage st sp i d = Ret (put_space (set_blocks st (blocks st + 1)) sp (with_tree s t)) /\
    intvl_holds t (<[start i := (blocks st, (i, d))]> S) ({[blocks st]} ∪ U) /\ nodes t = nodes (new_tree s) + 2.
Proof.
  intros Hs Hh HU Hn Hb Hi He Hno.
  destruct (insert_intvl (new_tree s) S U (blocks st) (garbage (blocks st)) i d Hh Hn) as (t & Hrun & Hh' & Hnt).
  { split; [lia|]. split; [|done]. intros Hin. specialize (HU _ Hin). lia. }
  exists t. unfold tree_insert. rewrite (get_space_at st sp s Hs). cbn [mbind outcome_bind]. by rewrite Hrun.
Qed.

Lemma tree_delete_ok st sp s S U i :
  spaces st !! sp = Some s -> intvl_holds (new_tree s) S U -> nodes (new_tree s) + 2 < 2 ^ 64 -> is_Some (S !! start i) ->
  exists t, tree_delete st sp i = Ret (put_space st sp (with_tree s t)) /\
    intvl_holds t (delete (start i) S) U /\ nodes t = nodes (new_tree s) - 2.
Proof.
  intros Hs Hh Hn Hi. destruct (delete_intvl (new_tree s) S U i Hh Hn Hi) as (t & Hrun & Hh' & Hn').
  exists t. unfold tree_delete. rewrite (get_space_at st sp s Hs). cbn [mbind outcome_bind]. by rewrite Hrun.
Qed.

(** The end of an interval moves, by way of its record. *)
Lemma tree_update_ok st sp s S U p x j d de :
  spaces st !! sp = Some s -> intvl_holds (new_tree s) S U -> S !! x = Some (p, (j, d)) ->
  proper (mk_intvl (start j) (end_ j + de)) -> end_ j + de <= UINT64_MAX ->
  none_meets (delete x S) (mk_intvl (start j) (end_ j + de)) ->
  exists t, tree_update st sp p 0 de = Ret (put_space st sp (with_tree s t)) /\
    intvl_holds t (alter (resized de) x S) U /\ nodes t = nodes (new_tree s).
Proof.
  intros Hs Hh Hx Hp He Hno. destruct (resize_intvl (new_tree s) S U p x de Hh) as (t & Hrun & Hh' & Hn).
  { simpl. rewrite Hx. done. }
  exists t. unfold tree_update. rewrite (get_space_at st sp s Hs). cbn [mbind outcome_bind]. by rewrite Hrun.
Qed.

End spaces.
