(* ===== verification/VmMap.v ===== *)
(** * kernel/mm/vmalloc.c: creating and releasing mappings

    What vmap_internal, free_mapping and split_mapping do to a well-formed
    state: a new mapping has a range that met none of its space, a released
    one leaves nothing behind, and the halves of a split share its range. *)

From S2P Require Import Prelude Mm Interval.
From stdpp Require Import list gmap sorting.
From S2P Require Import RbTree RbEvents RbInsert RbAdd RbDelete RbFix RbRemove IntvlTree IntvlOps IntvlRun Vmalloc VmSpace.
Local Open Scope Z_scope.

Section mappings.
Context {M : Type} {B : vm_backend M} (garbage : Z -> intvl_node_t).
Implicit Types st : vm_state (M := M).

(** ** A new mapping *)

Lemma space_ok_more st st' sp s S U :
  (forall d vm, vms st !! d = Some vm -> vms st' !! d = Some vm) -> blocks st <= blocks st' ->
  space_ok st sp s S U -> space_ok st' sp s S U.
Proof.
  intros Hv Hb [H1 H2 H3 H4 H5 H6 H7]. split; try done.
  - intros p Hp. specialize (H5 p Hp). lia.
  - intros d Hd. destruct (H6 d Hd) as (vm & p & Hvm & Hrest). exists vm, p. split; [by apply Hv|done].
  - intros x p j d Hx. destruct (H7 x p j d Hx) as (Hd & vm & Hvm & Hj). split; [done|]. exists vm. split; [by apply Hv|done].
Qed.

(** No mapping that is there starts where a range that meets none does. *)
Lemma none_meets_start t S U i x p j d :
  intvl_holds t S U -> none_meets S i -> proper i -> S !! x = Some (p, (j, d)) -> x <> start i.
Proof.
  intros Hh Hn Hi Hx E. destruct (holds_interval _ _ _ _ _ _ _ Hh Hx) as (Hs & Hj & _).
  specialize (Hn _ _ Hx). simpl in Hn. apply apart in Hn; [|done..]. unfold proper in *. lia.
Qed.

Lemma space_ok_add st st' sp s S U vm p t l :
  space_ok st sp s S U -> (forall d v, vms st !! d = Some v -> 0 < d < blocks st) ->
  vms st' = <[blocks st := vm]> (vms st) -> blocks st <= p < blocks st' ->
  vm_fits vm -> vm_space vm = sp -> none_meets S (vm_virt_interval vm) -> 0 < blocks st ->
  intvl_holds t (<[vm_lo vm := (p, (vm_virt_interval vm, blocks st))]> S) ({[p]} ∪ U) ->
  nodes t = nodes (new_tree s) + 2 -> l ≡ₚ blocks st :: mappings s ->
  space_ok st' sp (mk_space (min_addr s) (max_addr s) (lock_depth s) (num_mappings s + 1) l t (page_table s))
    (<[vm_lo vm := (p, (vm_virt_interval vm, blocks st))]> S) ({[p]} ∪ U).
Proof.
  intros [H1 H2 H3 H4 H5 H6 H7] Hdom Ev Hp Hf Hsp Hno Hb0 Ht Hn Hl.
  destruct (vm_fits_proper vm Hf) as [Hpr _]. pose proof (vm_fits_start vm Hf) as Est.
  assert (Hd : blocks st ∉ mappings s).
  { intros Hin. destruct (H6 _ Hin) as (v & q & Hv & _). specialize (Hdom _ _ Hv). lia. }
  assert (Hlen : Z.of_nat (length l) = Z.of_nat (length (mappings s)) + 1) by (rewrite Hl; simpl; lia). split; simpl.
  - done.
  - rewrite Hn, H2, Hlen. lia.
  - rewrite Hl. by constructor.
  - rewrite H4, Hlen. lia.
  - intros q [->%elem_of_singleton|Hq]%elem_of_union; [lia|]. specialize (H5 q Hq). lia.
  - intros d. rewrite Hl. intros [->|Hin]%elem_of_cons.
    + exists vm, p. rewrite Ev, !lookup_insert_eq. done.
    + destruct (H6 d Hin) as (v & q & Hv & Hvs & Hvf & HS). exists v, q.
      rewrite Ev, lookup_insert_ne by (specialize (Hdom _ _ Hv); lia). do 3 (split; [done|]).
      rewrite lookup_insert_ne; [done|]. rewrite <- Est. apply not_eq_sym. by apply (none_meets_start _ S U _ _ _ _ _ H1 Hno Hpr HS).
  - intros x q j d. destruct (decide (x = vm_lo vm)) as [->|Hne].
    + rewrite lookup_insert_eq. intros [= <- <- <-]. split; [rewrite Hl; set_solver|]. exists vm. by rewrite Ev, lookup_insert_eq.
    + rewrite lookup_insert_ne by done. intros Hx. destruct (H7 _ _ _ _ Hx) as (Hin & v & Hv & Hj).
      split; [rewrite Hl; set_solver|]. exists v. rewrite Ev, lookup_insert_ne by (specialize (Hdom _ _ Hv); lia). done.
Qed.

(** The struct of a new mapping once it is mapped, or marked as mapped. *)
Definition settled (vm : vm_mapping_t) : vm_mapping_t :=
  if has_flag (vm_flags vm) VM_PROT_MASK then
    if has_flag (vm_flags vm) VM_NOMAP then with_flags vm (Z.lor (Z.lxor (vm_flags vm) VM_NOMAP) VM_MAPPED)
    else protected vm (vm_flags vm)
  else vm.

(** What a new mapping does to the page tables. *)
Definition maps (vm : vm_mapping_t) (m : M) : outcome M :=
  if has_flag (vm_flags vm) VM_PROT_MASK && negb (has_flag (vm_flags vm) VM_NOMAP)
  then type_map (protected vm (vm_flags vm)) m else Ret m.

Definition mappable (vm : vm_mapping_t) (m : M) : Prop := exists m', maps vm m = Ret m'.

(** [st'] is [st] with the mapping [vm] in the space [sp]. *)
Record added st st' (sp : Z) (s : address_space_t) (vm : vm_mapping_t) : Prop := mk_added {
  ad_wf : vm_wf st';
  ad_else : elsewhere sp st st';
  ad_space : exists s', spaces st' !! sp = Some s' /\ (exists x y, mappings s = x ++ y /\ mappings s' = x ++ blocks st :: y) /\
    min_addr s' = min_addr s /\ max_addr s' = max_addr s /\ lock_depth s' = lock_depth s;
  ad_vms : vms st' = <[blocks st := settled vm]> (vms st);
  ad_mem : maps vm (mem st) = Ret (mem st');
}.

Lemma nomap_place vm : same_place vm (with_flags vm (Z.lor (Z.lxor (vm_flags vm) VM_NOMAP) VM_MAPPED)).
Proof.
  unfold same_place, with_flags. simpl. do 4 (split; [done|]). rewrite !has_bit by done. rewrite Z.lor_spec, Z.lxor_spec.
  change (Z.testbit VM_NOMAP 13) with false. change (Z.testbit VM_MAPPED 13) with false. by rewrite xorb_false_r, orb_false_r.
Qed.

Lemma settled_place vm : same_place vm (settled vm) /\ vm_ty (settled vm) = vm_ty vm /\ vm_data (settled vm) = vm_data vm.
Proof.
  unfold settled. destruct (has_flag (vm_flags vm) VM_PROT_MASK); [|by split_and!]. destruct (has_flag _ _).
  - split; [apply nomap_place|done].
  - split; [apply protected_place|done].
Qed.

Lemma added_ok st st' sp s s' S' U' vm :
  vm_wf st -> spaces st !! sp = Some s -> space_ok st' sp s' S' U' ->
  spaces st' = <[sp := s']> (spaces st) -> vms st' = <[blocks st := settled vm]> (vms st) -> blocks st < blocks st' ->
  kernel_space st' = kernel_space st -> curspace st' = curspace st ->
  (exists x y, mappings s = x ++ y /\ mappings s' = x ++ blocks st :: y) ->
  min_addr s' = min_addr s -> max_addr s' = max_addr s -> lock_depth s' = lock_depth s ->
  maps vm (mem st) = Ret (mem st') -> added st st' sp s vm.
Proof.
  intros Hwf Hs Hok Es Ev Eb Ek Ec Hm Hmin Hmax Hdep Hmem. pose proof Hwf as [W1 W2 W3 W4].
  assert (El : elsewhere sp st st').
  { split; try done; [|lia|].
    - intros x Hx. by rewrite Es, lookup_insert_ne.
    - intros x u Hx _. rewrite Ev, lookup_insert_ne; [done|]. specialize (W2 _ _ Hx). lia. }
  split; [|done|..].
  - apply (wf_step sp st st' s' S' U'); try done.
    + intros x u. rewrite Ev. destruct (decide (x = blocks st)) as [->|Hne]; [lia|]. rewrite lookup_insert_ne by done.
      intros Hx. specialize (W2 _ _ Hx). lia.
    + specialize (W3 _ _ Hs). lia.
    + by rewrite Es, lookup_insert_eq.
  - exists s'. by rewrite Es, lookup_insert_eq.
  - done.
  - done.
Qed.

Lemma vmap_add_ok st sp s S U vm c :
  vm_wf st -> spaces st !! sp = Some s -> space_ok st sp s S U -> 0 < lock_depth s ->
  vm_fits vm -> vm_space vm = sp -> none_meets S (vm_virt_interval vm) -> (c = 0 \/ c ∈ mappings s) ->
  2 * Z.of_nat (length (mappings s)) + 2 < 2 ^ 64 -> mappable vm (mem st) ->
  exists st', vmap_add garbage st vm c = Ret st' /\ added st st' sp s vm.
Proof.
  intros Hwf Hs Hok Hlock Hf Hsp Hno Hc Hlen Hmap. pose proof Hwf as [W1 W2 W3 W4].
  set (d := blocks st). set (st1 := set_blocks (put_vm st d vm) (d + 1)).
  assert (Hfresh : vms st !! d = None).
  { destruct (vms st !! d) eqn:E; [|done]. specialize (W2 _ _ E). unfold d in *. lia. }
  assert (Hok1 : space_ok st1 sp s S U).
  { apply (space_ok_more st); [|simpl; unfold d; lia|done]. intros x v Hx. simpl. rewrite lookup_insert_ne; [done|congruence]. }
  destruct (vm_fits_proper vm Hf) as [Hpr Hend].
  destruct (tree_insert_ok garbage st1 sp s S U (vm_virt_interval vm) d Hs (so_tree _ _ _ _ _ Hok1)) as (t & Htree & Hh & Hn);
    [intros p Hp; by apply (so_records _ _ _ _ _ Hok1)|rewrite (so_nodes _ _ _ _ _ Hok); lia|simpl; lia|done|done|done|].
  rewrite (vm_fits_start vm Hf) in Hh. change (blocks st1) with (d + 1) in Htree, Hh.
  set (st2 := put_space (set_blocks st1 (d + 1 + 1)) sp (with_tree s t)) in *.
  unfold vmap_add, vm_struct_alloc. fold d. fold st1. rewrite Hsp, Htree. cbn [mbind outcome_bind].
  assert (Hs2 : get_space st2 sp = Ret (with_tree s t)) by (unfold get_space, st2; simpl; by rewrite lookup_insert_eq).
  rewrite Hs2. cbn [mbind outcome_bind].
  assert (exists l, (if c =? 0 then Ret (mappings s ++ [d]) else insert_after d c (mappings s)) = Ret l /\
    exists x y, mappings s = x ++ y /\ l = x ++ d :: y) as (l & Hl & Hxy).
  { destruct (Z.eqb_spec c 0) as [->|Hc0]; [eexists; split; [done|]; exists (mappings s), []; by rewrite app_nil_r|].
    destruct Hc as [|Hc]; [done|]. destruct (insert_after_ok d c _ Hc) as (x & y & -> & ->). eexists. split; [done|].
    exists (x ++ [c]), y. by rewrite <- !(assoc_L (++)). }
  assert (Hperm : l ≡ₚ d :: mappings s) by (destruct Hxy as (x & y & -> & ->); by rewrite <- Permutation_middle).
  change (mappings (with_tree s t)) with (mappings s). rewrite Hl. cbn [mbind outcome_bind].
  change (num_mappings (with_tree s t)) with (num_mappings s). rewrite (so_count _ _ _ _ _ Hok).
  rewrite (wrap_small 64 (Z.of_nat (length (mappings s)) + 1)) by (unfold fits; lia).
  rewrite <- (so_count _ _ _ _ _ Hok). set (s3 := with_mappings (with_tree s t) (num_mappings s + 1) l).
  set (st3 := put_space st2 sp s3).
  assert (Hok3 : space_ok st3 sp s3 (<[vm_lo vm := (d + 1, (vm_virt_interval vm, d))]> S) ({[d + 1]} ∪ U)).
  { apply (space_ok_add st st3 sp s S U vm (d + 1) t l); try done. simpl. unfold d. lia. }
  assert (Es3 : spaces st3 = <[sp := s3]> (spaces st)) by (unfold st3, st2; simpl; by rewrite insert_insert_eq).
  assert (Hd3 : vms st3 !! d = Some vm) by (simpl; apply lookup_insert_eq).
  assert (Hb3 : blocks st < blocks st3) by (simpl; unfold d; lia).
  assert (Hfin : forall st', spaces st' = spaces st3 -> vms st' = <[d := settled vm]> (vms st3) -> blocks st' = blocks st3 ->
    kernel_space st' = kernel_space st3 -> curspace st' = curspace st3 -> maps vm (mem st) = Ret (mem st') -> added st st' sp s vm).
  { intros st' E1 E2 E3 E4 E5 E6. apply (added_ok st st' sp s s3 (<[vm_lo vm := (d + 1, (vm_virt_interval vm, d))]> S) ({[d + 1]} ∪ U) vm);
      try done; [|by rewrite E1|by rewrite E2; simpl; rewrite insert_insert_eq|by rewrite E3].
    apply (space_ok_same (put_vm st3 d (settled vm))); [by rewrite E2|by rewrite E3|].
    apply (space_ok_put_vm st3 sp s3 _ _ d vm); [done|done|apply settled_place]. }
  unfold settled, maps in Hfin. destruct Hmap as (m' & Hm'). unfold maps in Hm'.
  destruct (has_flag (vm_flags vm) VM_PROT_MASK) eqn:Hprot; [destruct (has_flag (vm_flags vm) VM_NOMAP) eqn:Hnm|]; cbn [andb negb] in Hfin, Hm'.
  - eexists. split; [done|]. by apply Hfin.
  - rewrite (update_internal_eq st3 sp s3 ltac:(by rewrite Es3, lookup_insert_eq) Hlock d vm (vm_flags vm) Hd3 Hsp).
    unfold has_flag in Hprot. apply negb_true_iff in Hprot. rewrite Hprot. change (mem st3) with (mem st). rewrite Hm'.
    eexists. split; [done|]. by apply Hfin.
  - eexists. split; [done|]. apply Hfin; try done. symmetry. apply insert_id, Hd3.
Qed.

(** ** Ranges in terms of the mappings *)

(** No mapping of the space meets [i]. *)
Definition free_in st (s : address_space_t) (i : interval_t) : Prop :=
  forall d vm, d ∈ mappings s -> vms st !! d = Some vm -> overlaps (vm_virt_interval vm) i = false.

(** No search for a range of the size of [i], aligned to [2 ^ k], wraps. *)
Definition room_in st (s : address_space_t) (i : interval_t) (k : Z) : Prop :=
  start i + 2 ^ k + (end_ i - start i) <= 2 ^ 64 /\
  forall d vm, d ∈ mappings s -> vms st !! d = Some vm ->
    end_ (vm_virt_interval vm) + 2 ^ k + (end_ i - start i) <= 2 ^ 64.

Lemma free_in_meets st sp s S U i : space_ok st sp s S U -> none_meets S i <-> free_in st s i.
Proof.
  intros Hok. split.
  - intros H d vm Hd Hv. destruct (so_in _ _ _ _ _ Hok d Hd) as (v & p & Hv' & _ & _ & HS).
    assert (v = vm) as -> by congruence. apply (H _ _ HS).
  - intros H x [p [j d]] Hx. destruct (so_out _ _ _ _ _ Hok x p j d Hx) as (Hd & vm & Hv & ->). by apply (H d).
Qed.

Lemma room_in_has st sp s S U i k : space_ok st sp s S U -> room_in st s i k -> has_room S i k.
Proof.
  intros Hok [H1 H2]. split; [done|]. intros x [p [j d]] Hx.
  destruct (so_out _ _ _ _ _ Hok x p j d Hx) as (Hd & vm & Hv & ->). by apply (H2 d).
Qed.

(** ** vmap_internal *)

Lemma page_size_pow2 flags : exists k, 12 <= k <= 30 /\ vm_flags_to_size flags = 2 ^ k.
Proof.
  unfold vm_flags_to_size. destruct (has_flag flags VM_HUGE_2MB); [by exists 21|].
  destruct (has_flag flags VM_HUGE_1GB); [by exists 30|by exists 12].
Qed.

Lemma new_mapping_stack type sp vaddr size vs fl data :
  has_flag (vm_flags (new_mapping type sp vaddr size vs fl data)) VM_STACK = has_flag fl VM_STACK.
Proof.
  destruct type; try done. simpl. rewrite !has_bit by done. rewrite Z.land_spec, testbit_not_w by done.
  change (Z.testbit VM_PROT_MASK 13) with false. by rewrite andb_true_r.
Qed.

Lemma new_mapping_range type sp vaddr size vs fl data : let vm := new_mapping type sp vaddr size vs fl data in
  vm_address vm = vaddr /\ vm_size vm = size /\ vm_virt_size vm = vs /\ vm_space vm = sp /\ vm_ty vm = type.
Proof. by destruct type. Qed.

(** The lock is taken and released again. *)
Lemma with_depth_back s n : with_depth (with_depth s (lock_depth s + n)) (lock_depth s + n - n) = s.
Proof. destruct s. unfold with_depth. simpl. f_equal. lia. Qed.

Lemma lock_unlock st sp s : spaces st !! sp = Some s ->
  space_lock st sp = Ret (put_space st sp (with_depth s (lock_depth s + 1))) /\
  space_unlock (put_space st sp (with_depth s (lock_depth s + 1))) sp = Ret st.
Proof.
  intros Hs. unfold space_lock, space_unlock, get_space. rewrite Hs. simpl. rewrite lookup_insert_eq. simpl. split; [done|].
  rewrite with_depth_back. f_equal. unfold put_space, set_spaces. destruct st. simpl in *. f_equal.
  rewrite insert_insert_eq. by apply insert_id.
Qed.

Lemma wf_depth st sp s n : vm_wf st -> spaces st !! sp = Some s -> vm_wf (put_space st sp (with_depth s n)).
Proof.
  intros [W1 W2 W3 W4] Hs. split; try done.
  - intros x u. simpl. destruct (decide (x = sp)) as [->|Hne]; [intros _; by apply (W3 sp s)|].
    rewrite lookup_insert_ne by done. apply W3.
  - intros x u. simpl. destruct (decide (x = sp)) as [->|Hne].
    + rewrite lookup_insert_eq. intros [= <-]. destruct (W4 sp s Hs) as (S & U & H). exists S, U.
      by apply space_ok_depth, (space_ok_same st).
    + rewrite lookup_insert_ne by done. intros Hx. destruct (W4 x u Hx) as (S & U & H). exists S, U. by apply (space_ok_same st).
Qed.

Lemma added_unlock st st' sp s vm : spaces st !! sp = Some s ->
  added (put_space st sp (with_depth s (lock_depth s + 1))) st' sp (with_depth s (lock_depth s + 1)) vm ->
  exists st'', space_unlock st' sp = Ret st'' /\ added st st'' sp s vm.
Proof.
  intros Hs [Wf [E1 E2 E3 E4 E5] (s' & Hs' & Hm & Hmin & Hmax & Hdep) Hvs Hmem]. unfold space_unlock, get_space. rewrite Hs'. simpl.
  eexists. split; [done|]. split; try done.
  - by apply wf_depth.
  - split; try done. intros x Hx. simpl. rewrite lookup_insert_ne by done. rewrite E3 by done. simpl. by rewrite lookup_insert_ne.
  - eexists. split; [simpl; apply lookup_insert_eq|]. do 3 (split; [done|]). simpl in *. lia.
Qed.

Lemma aligned_eq v k : 0 <= k < 64 -> is_aligned v (2 ^ k) = (v mod 2 ^ k =? 0).
Proof.
  intros Hk. unfold is_aligned. assert (1 <= 2 ^ k < 2 ^ 64) by (split; [lia|apply Z.pow_lt_mono_r; lia]).
  rewrite (wrap_small 64 (2 ^ k - 1)) by (unfold fits; lia). rewrite <- Z.land_ones, Z.ones_equiv by lia. by rewrite <- Z.sub_1_r.
Qed.

Lemma aligned_mod v k : 0 <= k < 64 -> is_aligned v (2 ^ k) = true -> v mod 2 ^ k = 0.
Proof. intros Hk. rewrite aligned_eq by done. apply Z.eqb_eq. Qed.

Lemma readable_flag flags k : 1 <= k -> has_flag (readable flags) (Z.shiftl 1 k) = has_flag flags (Z.shiftl 1 k).
Proof.
  intros Hk. unfold readable. destruct (_ || _); [|done]. rewrite !has_bit, Z.lor_spec by lia.
  rewrite (Z.shiftl_1_l 0), Z.pow2_bits_false by lia. by rewrite orb_false_r.
Qed.

Lemma readable_size flags : vm_flags_to_size (readable flags) = vm_flags_to_size flags.
Proof. unfold vm_flags_to_size. by rewrite !readable_flag. Qed.

(** Valid sizes are multiples of the page size, and stacks have small pages. *)
Lemma valid_args_aligned st type hint size vmsize flags data k :
  are_valid_vmap_args st type hint size vmsize flags data = Ret true -> 0 <= size -> 0 <= vmsize ->
  vm_flags_to_size flags = 2 ^ k -> 0 <= k < 64 ->
  size mod 2 ^ k = 0 /\ vmsize mod 2 ^ k = 0 /\ (has_flag flags VM_STACK = true -> 2 ^ k = PAGE_SIZE).
Proof.
  intros H Hs Hv Hk Hk64. unfold are_valid_vmap_args in H. fold (vm_flags_to_size flags) in H. rewrite Hk in H.
  repeat match type of H with (if ?b then Ret false else _) = _ => destruct b eqn:?; [done|] end.
  repeat match goal with Hn : negb _ = false |- _ => apply negb_false_iff in Hn end.
  split; [by apply aligned_mod|]. split; [by apply aligned_mod|]. intros Hst. rewrite Hst, andb_true_r in *.
  by apply Z.eqb_eq, negb_false_iff.
Qed.

Lemma layout_ok hint size vmsize fl vb vs off :
  vmap_layout hint size vmsize fl = Some (vb, vs, off) -> 0 < size -> 0 <= vmsize -> 0 <= hint ->
  Z.max vmsize size + PAGE_SIZE < 2 ^ 64 ->
  vs = Z.max vmsize size + (if has_flag fl VM_STACK then PAGE_SIZE else 0) /\ 0 <= vb /\ 0 <= off /\
  (has_flag fl VM_FIXED = false -> 0 < vb) /\
  ((has_flag fl VM_FIXED = false -> has_flag fl VM_STACK = true -> vmsize <= size) ->
   off = if has_flag fl VM_STACK then vs - size else 0).
Proof.
  unfold vmap_layout, PAGE_SIZE. intros H Hs Hv Hh Hsum.
  assert (Hbest : 0 < choose_best_hint hint fl).
  { unfold choose_best_hint. repeat case_test; try done; zbool; lia. }
  rewrite !(wrap_small 64 (Z.max vmsize size + 4096)) in H by (unfold fits; lia).
  rewrite (wrap_small 64 (Z.max vmsize size + 4096 - size)) in H by (unfold fits; lia).
  destruct (has_flag fl VM_FIXED), (has_flag fl VM_STACK).
  - destruct (Z.ltb_spec hint (Z.max vmsize size + 4096 - size)); [done|]. injection H as <- <- <-. split_and!; lia || done.
  - injection H as <- <- <-. split_and!; lia || done.
  - injection H as <- <- <-. split_and!; lia || done.
  - injection H as <- <- <-. split_and!; lia || done.
Qed.

(** ** Properties *)

(** The range a request starts its search at, and the alignment of the result. *)
Definition request_base (fl vb k : Z) : Z := if has_flag fl VM_FIXED then vb else align vb (2 ^ k).
Definition request_order (fl k : Z) : Z := if has_flag fl VM_FIXED then 0 else k.

Lemma free_region_aligned st sp s S U base size k :
  spaces st !! sp = Some s -> space_ok st sp s S U -> 0 < lock_depth s ->
  0 <= k < 64 -> 0 < size -> 0 <= base -> base + 2 ^ k <= 2 ^ 64 -> size mod 2 ^ k = 0 ->
  align base (2 ^ k) + size <= max_addr s -> max_addr s <= UINT64_MAX ->
  has_room S (mk_intvl (align base (2 ^ k)) (align base (2 ^ k) + size)) k ->
  exists g c, get_free_region st sp base size (2 ^ k) = Ret (g, c) /\ align base (2 ^ k) <= g /\ g mod 2 ^ k = 0 /\
    g + size <= UINT64_MAX /\ none_meets S (mk_intvl g (g + size)) /\ (c = 0 \/ c ∈ mappings s) /\
    forall b, align base (2 ^ k) <= b -> b mod 2 ^ k = 0 -> none_meets S (mk_intvl b (b + size)) -> g <= b.
Proof.
  intros Hs Hok Hlock Hk Hsz Hb Hb64 Hsm Hmax Hmu Hroom. destruct (align_least base k Hb Hk Hb64) as (Ha & Hm & _).
  assert (E : get_free_region st sp base size (2 ^ k) = get_free_region st sp (align base (2 ^ k)) size (2 ^ k)).
  { unfold get_free_region. rewrite !do_align_pow2 by lia. rewrite (align_self (align base (2 ^ k)) k); try done; [lia|].
    destruct Hroom as [H _]. simpl in H. lia. }
  rewrite E. apply (free_region_ok st sp s S U); try done. lia.
Qed.

Lemma new_mapping_fits type sp g off size vs fl data :
  0 <= g -> g + vs <= UINT64_MAX -> 0 < size <= vs -> off = (if has_flag fl VM_STACK then vs - size else 0) ->
  let vm := new_mapping type sp (g + off) size vs fl data in
  vm_fits vm /\ vm_virt_interval vm = mk_intvl g (g + vs).
Proof.
  intros Hg Hend Hsz Hoff vm. destruct (new_mapping_range type sp (g + off) size vs fl data) as (Ea & Es & Ev & _ & _).
  fold vm in Ea, Es, Ev. assert (Elo : vm_lo vm = g).
  { unfold vm_lo. unfold vm at 1. rewrite new_mapping_stack, Ea, Es, Ev, Hoff. destruct (has_flag fl VM_STACK); lia. }
  assert (Hf : vm_fits vm) by (unfold vm_fits; rewrite Elo, Es, Ev; lia). split; [done|]. by rewrite vm_fits_interval, Elo, Ev.
Qed.

(** From the range to the new mapping, and the lock released. *)
Lemma vmap_finish st sp s type g off size vs fl data c :
  let s1 := with_depth s (lock_depth s + 1) in
  let st1 := put_space st sp s1 in
  vm_wf st -> spaces st !! sp = Some s -> 0 <= lock_depth s -> 2 * Z.of_nat (length (mappings s)) + 2 < 2 ^ 64 ->
  0 <= g -> g + vs <= UINT64_MAX -> 0 < size <= vs -> off = (if has_flag fl VM_STACK then vs - size else 0) ->
  free_in st s (mk_intvl g (g + vs)) -> (c = 0 \/ c ∈ mappings s) ->
  mappable (new_mapping type sp (g + off) size vs fl data) (mem st) ->
  exists st2 st', vmap_add garbage st1 (new_mapping type sp (u64 (g + off)) size vs fl data) c = Ret st2 /\
    space_unlock st2 sp = Ret st' /\ added st st' sp s (new_mapping type sp (g + off) size vs fl data).
Proof.
  intros s1 st1 Hwf Hs Hdep Hlen Hg Hend Hsz Hoff Hfree Hc Hmap.
  rewrite (wrap_small 64 (g + off)) by (unfold fits; subst off; destruct (has_flag fl VM_STACK); lia).
  destruct (new_mapping_fits type sp g off size vs fl data Hg Hend Hsz Hoff) as [Hf Hi].
  set (vm := new_mapping type sp (g + off) size vs fl data) in *.
  destruct (wf_spaces _ Hwf sp s Hs) as (S & U & Hok).
  destruct (vmap_add_ok st1 sp s1 S U vm c) as (st2 & Hrun & Had); try done.
  - by apply wf_depth.
  - simpl. apply lookup_insert_eq.
  - by apply space_ok_depth, (space_ok_same st).
  - simpl. lia.
  - unfold vm. by destruct (new_mapping_range type sp (g + off) size vs fl data) as (_ & _ & _ & ? & _).
  - rewrite Hi. by apply (free_in_meets st sp s S U).
  - destruct (added_unlock st st2 sp s vm Hs Had) as (st' & Hun & Had'). by exists st2, st'.
Qed.

(** What a request for a mapping does once its arguments are valid. *)
Lemma vmap_internal_ok st user type hint size vmsize flags data vb vs off s k :
  let fl := readable flags in
  let sp := select_space st user vb in
  let base := request_base fl vb k in
  vm_wf st -> are_valid_vmap_args st type hint size vmsize flags data = Ret true ->
  vmap_layout hint size vmsize fl = Some (vb, vs, off) -> spaces st !! sp = Some s -> 0 <= lock_depth s ->
  2 * Z.of_nat (length (mappings s)) + 2 < 2 ^ 64 -> 0 < size -> 0 <= vmsize -> 0 <= hint ->
  Z.max vmsize size + PAGE_SIZE < 2 ^ 64 -> vm_flags_to_size flags = 2 ^ k -> vb + 2 ^ k <= 2 ^ 64 ->
  (has_flag fl VM_FIXED = false -> has_flag fl VM_STACK = true -> vmsize <= size) ->
  base + vs <= (if has_flag fl VM_FIXED then UINT64_MAX else max_addr s) -> max_addr s <= UINT64_MAX ->
  room_in st s (mk_intvl base (base + vs)) (request_order fl k) ->
  (forall g, base <= g -> g mod 2 ^ request_order fl k = 0 -> g + vs <= UINT64_MAX -> free_in st s (mk_intvl g (g + vs)) ->
   (forall b, base <= b -> b mod 2 ^ request_order fl k = 0 -> free_in st s (mk_intvl b (b + vs)) -> g <= b) ->
   mappable (new_mapping type sp (g + off) size vs fl data) (mem st)) ->
  (has_flag fl VM_FIXED = true /\ ~ free_in st s (mk_intvl vb (vb + vs)) /\
   vmap_internal garbage st user type hint size vmsize flags data = Ret (inl EADDRNOTAVAIL, st)) \/
  exists g st', vmap_internal garbage st user type hint size vmsize flags data = Ret (inr (g + off), st') /\
    free_in st s (mk_intvl g (g + vs)) /\ base <= g /\ g mod 2 ^ request_order fl k = 0 /\
    (forall b, base <= b -> b mod 2 ^ request_order fl k = 0 -> free_in st s (mk_intvl b (b + vs)) -> g <= b) /\
    (has_flag fl VM_FIXED = true -> g = vb) /\
    vm_virt_interval (new_mapping type sp (g + off) size vs fl data) = mk_intvl g (g + vs) /\
    added st st' sp s (new_mapping type sp (g + off) size vs fl data).
Proof.
  intros fl sp base Hwf Hargs Hlay Hs Hdep Hlen Hsz Hvm Hhint Hsum Hk Hvb Hstack Hrange Hmu Hroom Hmap.
  assert (0 <= k < 64) as Hk64.
  { destruct (page_size_pow2 flags) as (k' & Hk' & E). rewrite E in Hk. destruct (Z.lt_ge_cases k 0) as [Hneg|Hpos].
    - rewrite (Z.pow_neg_r 2 k) in Hk by done. pose proof (Z.pow_pos_nonneg 2 k'). lia.
    - assert (k' = k) by (apply (Z.pow_inj_r 2); lia). lia. }
  destruct (layout_ok hint size vmsize fl vb vs off Hlay Hsz Hvm Hhint Hsum) as (Evs & Hvb0 & Hoff0 & Hpos & Hoff).
  specialize (Hoff Hstack).
  destruct (valid_args_aligned _ _ _ _ _ _ _ k Hargs ltac:(lia) Hvm Hk Hk64) as (As & Av & Apg).
  assert (Hst : has_flag fl VM_STACK = has_flag flags VM_STACK) by (by apply readable_flag).
  assert (Avs : vs mod 2 ^ k = 0).
  { rewrite Evs, Hst. destruct (has_flag flags VM_STACK); [rewrite <- (Apg eq_refl)|rewrite Z.add_0_r].
    - rewrite <- Z.add_mod_idemp_r, Z_mod_same_full, Z.add_0_r by lia. by destruct (Z.max_spec vmsize size) as [[_ ->]|[_ ->]].
    - by destruct (Z.max_spec vmsize size) as [[_ ->]|[_ ->]]. }
  assert (Hsz' : 0 < size <= vs) by (rewrite Evs; unfold PAGE_SIZE; destruct (has_flag fl VM_STACK); lia).
  destruct (wf_spaces _ Hwf sp s Hs) as (S & U & Hok). set (s1 := with_depth s (lock_depth s + 1)). set (st1 := put_space st sp s1).
  assert (Hs1 : spaces st1 !! sp = Some s1) by (simpl; apply lookup_insert_eq).
  assert (Hok1 : space_ok st1 sp s1 S U) by (by apply space_ok_depth, (space_ok_same st)).
  destruct (lock_unlock st sp s Hs) as [HL HU]. pose proof (room_in_has _ _ _ _ _ _ _ Hok Hroom) as HroomS.
  unfold vmap_internal. rewrite Hargs. cbn [mbind outcome_bind negb]. fold fl. rewrite Hlay. fold sp. rewrite HL. cbn [mbind outcome_bind].
  fold s1. fold st1. unfold base, request_base, request_order in *. destruct (has_flag fl VM_FIXED) eqn:Hfix.
  - destruct (check_range_ok st1 sp s1 S U Hs1 Hok1 ltac:(simpl; lia) vb vs) as [(c & Hc & Hno & Hcm)|[Hc Hno]]; try done; [lia|..].
    + rewrite Hc. cbn [mbind outcome_bind fst snd].
      destruct (vmap_finish st sp s type vb off size vs fl data c) as (st2 & st' & Hadd & Hun & Had); try done;
        [by apply (free_in_meets st sp s S U)|apply Hmap; [lia|apply Z.mod_1_r|done|by apply (free_in_meets st sp s S U)|done]|].
      fold s1 in Hadd. fold st1 in Hadd. rewrite Hadd. cbn [mbind outcome_bind]. rewrite Hun. right. exists vb, st'.
      split; [cbn; do 3 f_equal; apply wrap_small; unfold fits; rewrite Hoff; destruct (has_flag fl VM_STACK); lia|].
      split; [by apply (free_in_meets st sp s S U)|]. split; [lia|]. split; [apply Z.mod_1_r|]. split; [done|]. split; [done|].
      split; [|done]. by apply new_mapping_fits.
    + left. split; [done|]. split; [by rewrite <- (free_in_meets st sp s S U)|]. rewrite Hc. cbn [mbind outcome_bind fst].
      unfold st1, s1. by rewrite HU.
  - fold fl in Hk. rewrite <- readable_size in Hk. fold fl in Hk. rewrite Hk.
    destruct (free_region_aligned st1 sp s1 S U vb vs k) as (g & c & Hg & Hbg & Hgm & Hge & Hno & Hcm & Hlow); try done; [simpl; lia|lia|].
    pose proof (align_least vb k Hvb0 Hk64 Hvb) as (Hal & _). rewrite Hg. cbn [mbind outcome_bind fst snd].
    specialize (Hpos eq_refl). rewrite (proj2 (Z.eqb_neq g 0)) by lia.
    assert (Hleast : forall b, align vb (2 ^ k) <= b -> b mod 2 ^ k = 0 -> free_in st s (mk_intvl b (b + vs)) -> g <= b).
    { intros b B1 B2 B3. apply Hlow; [done..|]. by apply (free_in_meets st sp s S U). }
    destruct (vmap_finish st sp s type g off size vs fl data c) as (st2 & st' & Hadd & Hun & Had); try done;
      [lia|by apply (free_in_meets st sp s S U)|apply Hmap; [done..|by apply (free_in_meets st sp s S U)|done]|].
    fold s1 in Hadd. fold st1 in Hadd. rewrite Hadd. cbn [mbind outcome_bind]. rewrite Hun. right. exists g, st'.
    split; [cbn; do 3 f_equal; apply wrap_small; unfold fits; rewrite Hoff; destruct (has_flag fl VM_STACK); lia|].
    split; [by apply (free_in_meets st sp s S U)|]. split; [lia|]. split; [done|].
    split; [done|]. split; [done|].
    split; [|done]. apply new_mapping_fits; try done. lia.
Qed.

End mappings.

(** ** Releasing a mapping *)

Section release.
Context {M : Type} {B : vm_backend M}.
Implicit Types st : vm_state (M := M).

Lemma get_mapping_ok st sp s S U addr :
  spaces st !! sp = Some s -> space_ok st sp s S U -> 0 < lock_depth s -> 0 <= addr < UINT64_MAX ->
  exists d, space_get_mapping st sp addr = Ret d /\
    ((exists vm, d ∈ mappings s /\ vms st !! d = Some vm /\ contains_point (vm_virt_interval vm) addr = true) \/
     (d = 0 /\ forall d' vm, d' ∈ mappings s -> vms st !! d' = Some vm -> contains_point (vm_virt_interval vm) addr = false)).
Proof.
  intros Hs Hok Hlock Ha. destruct (get_point_intvl (new_tree s) S U addr (so_tree _ _ _ _ _ Hok) Ha) as (d & Hrun & Hans).
  exists d. unfold space_get_mapping. rewrite (lock_held st sp s Hs Hlock). cbn [mbind outcome_bind].
  rewrite (get_space_at st sp s Hs). split; [done|]. destruct Hans as [(x & p & j & d' & Hx & Hc & [= ->])|[Hno [= ->]]].
  - left. destruct (so_out _ _ _ _ _ Hok _ _ _ _ Hx) as (Hd & vm & Hv & ->). by exists vm.
  - right. split; [done|]. intros d' vm Hd Hv. destruct (so_in _ _ _ _ _ Hok d' Hd) as (v & p & Hv' & _ & _ & HS).
    assert (v = vm) as -> by congruence. by apply (Hno _ _ _ _ HS).
Qed.

Lemma space_ok_del st st' sp s S U d vm t l :
  space_ok st sp s S U -> d ∈ mappings s -> vms st !! d = Some vm -> vms st' = delete d (vms st) -> blocks st' = blocks st ->
  intvl_holds t (delete (vm_lo vm) S) U -> nodes t = nodes (new_tree s) - 2 -> mappings s ≡ₚ d :: l ->
  space_ok st' sp (mk_space (min_addr s) (max_addr s) (lock_depth s) (num_mappings s - 1) l t (page_table s))
    (delete (vm_lo vm) S) U.
Proof.
  intros [H1 H2 H3 H4 H5 H6 H7] Hd Hvm Ev Eb Ht Hn Hl.
  assert (Hlen : Z.of_nat (length (mappings s)) = Z.of_nat (length l) + 1) by (rewrite Hl; simpl; lia).
  rewrite Hl in H3. apply NoDup_cons in H3 as [Hdl Hnd].
  destruct (H6 d Hd) as (v & pd & Hv & _ & Hf & HS). assert (v = vm) as -> by congruence. split; simpl.
  - done.
  - rewrite Hn, H2. lia.
  - done.
  - rewrite H4. lia.
  - intros p Hp. rewrite Eb. by apply H5.
  - intros x Hx. destruct (H6 x) as (u & q & Hu & Hsp & Huf & HSu); [rewrite Hl; set_solver|]. exists u, q.
    assert (x <> d) by congruence. rewrite Ev, lookup_delete_ne by done. do 3 (split; [done|]).
    rewrite lookup_delete_ne; [done|]. intros E. rewrite <- E, HS in HSu. by injection HSu.
  - intros x q j y. rewrite lookup_delete_Some. intros [Hne Hx]. destruct (H7 _ _ _ _ Hx) as (Hy & u & Hu & Hj).
    assert (y <> d).
    { intros ->. assert (u = vm) as -> by congruence. destruct (holds_interval _ _ _ _ _ _ _ H1 Hx) as (Hst & _).
      apply Hne. rewrite <- Hst, Hj. by rewrite vm_fits_start. }
    split; [rewrite Hl in Hy; set_solver|]. exists u. by rewrite Ev, lookup_delete_ne.
Qed.

(** [st'] is [st] without the mapping [d] of the space [sp]. *)
Record removed st st' (sp : Z) (s : address_space_t) (d : Z) : Prop := mk_removed {
  rm_wf : vm_wf st';
  rm_else : elsewhere sp st st';
  rm_space : exists s', spaces st' !! sp = Some s' /\ mappings s' = remove_from d (mappings s) /\
    min_addr s' = min_addr s /\ max_addr s' = max_addr s /\ lock_depth s' = lock_depth s;
  rm_vms : vms st' = delete d (vms st);
}.

(** The memory behind a mapping can be released when it is mapped. *)
Definition type_free (vm : vm_mapping_t) (m : M) : outcome M :=
  match vm_ty vm with
  | VM_TYPE_PHYS => phys_type_unmap_internal vm (vm_size vm) 0 m
  | VM_TYPE_PAGE => m ← page_type_unmap_internal vm (vm_size vm) 0 m; drop_pages (vm_data vm) m
  | VM_TYPE_FILE => m ← file_type_unmap_internal vm (vm_size vm) 0 m; vm_file_free (vm_data vm) m
  | VM_TYPE_RSVD => Panic
  end.

Definition type_release (vm : vm_mapping_t) (m : M) : outcome M :=
  if has_flag (vm_flags vm) VM_MAPPED then type_free vm m else Ret m.

Lemma free_mapping_ok st sp s d vm m' :
  vm_wf st -> spaces st !! sp = Some s -> 0 < lock_depth s -> d ∈ mappings s -> vms st !! d = Some vm ->
  2 * Z.of_nat (length (mappings s)) + 2 < 2 ^ 64 -> type_release vm (mem st) = Ret m' ->
  exists st', free_mapping st d = Ret st' /\ removed st st' sp s d /\ mem st' = m'.
Proof.
  intros Hwf Hs Hlock Hd Hvm Hlen Hrel. destruct (wf_spaces _ Hwf sp s Hs) as (S & U & Hok).
  destruct (so_in _ _ _ _ _ Hok d Hd) as (v & p & Hv & Hsp & Hf & HS). assert (v = vm) as -> by congruence.
  pose proof (so_nodup _ _ _ _ _ Hok) as Hnd. pose proof Hd as (x & y & El)%list_elem_of_split.
  assert (Erm : remove_from d (mappings s) = x ++ y) by (rewrite El in Hnd |- *; by apply remove_from_ok).
  set (s1 := with_mappings s (num_mappings s) (x ++ y)). set (st1 := put_space st sp s1).
  assert (Hs1 : spaces st1 !! sp = Some s1) by (simpl; apply lookup_insert_eq).
  pose proof (so_count _ _ _ _ _ Hok) as Hcnt. assert (0 < Z.of_nat (length (mappings s))) by (rewrite El, length_app; simpl; lia).
  destruct (tree_delete_ok st1 sp s1 S U (vm_virt_interval vm)) as (t & Htree & Hh & Hn);
    [done|apply (so_tree _ _ _ _ _ Hok)|change (nodes (new_tree s1)) with (nodes (new_tree s)); rewrite (so_nodes _ _ _ _ _ Hok); lia|
     rewrite vm_fits_start by done; by eexists|]. rewrite (vm_fits_start vm Hf) in Hh.
  set (st2 := put_space st1 sp (with_tree s1 t)) in *.
  set (s3 := with_mappings (with_tree s1 t) (num_mappings s - 1) (x ++ y)). set (st3 := put_space st2 sp s3).
  assert (Hs3 : spaces st3 !! sp = Some s3) by (simpl; apply lookup_insert_eq).
  assert (Hrun : free_mapping st d = Ret (set_mem (set_vms st3 (delete d (vms st3))) m')).
  { unfold free_mapping. unfold get_vm at 1. rewrite Hvm. cbn [mbind outcome_bind]. rewrite Hsp, (lock_held st sp s Hs Hlock).
    cbn [mbind outcome_bind]. rewrite (get_space_at st sp s Hs). cbn [mbind outcome_bind]. rewrite Erm. fold s1. fold st1.
    rewrite Htree. cbn [mbind outcome_bind]. unfold st2. rewrite get_put_space. fold st2. cbn [mbind outcome_bind].
    change (num_mappings (with_tree s1 t)) with (num_mappings s). rewrite (wrap_small 64 (num_mappings s - 1)) by (unfold fits; lia).
    change (mappings (with_tree s1 t)) with (x ++ y). fold s3. fold st3.
    unfold type_release in Hrel. destruct (has_flag (vm_flags vm) VM_MAPPED); [|by injection Hrel as <-].
    unfold vm_free_internal, get_vm. change (vms st3) with (vms st). rewrite Hvm.
    cbn [mbind outcome_bind]. rewrite Hsp, (lock_held st3 sp s3 Hs3 Hlock). cbn [mbind outcome_bind].
    change (mem st3) with (mem st). unfold type_free in Hrel. destruct (vm_ty vm); try done.
    - by rewrite Hrel.
    - apply bind_Ret in Hrel as (m1 & -> & H1). simpl. by rewrite H1.
    - apply bind_Ret in Hrel as (m1 & -> & H1). simpl. by rewrite H1. }
  rewrite Hrun. eexists. split; [done|]. split; [|done]. set (st' := set_mem _ _).
  assert (Hperm : mappings s ≡ₚ d :: x ++ y) by (rewrite El; by rewrite <- Permutation_middle).
  assert (Hok' : space_ok st' sp s3 (delete (vm_lo vm) S) U) by (by apply (space_ok_del st st' sp s S U d vm t (x ++ y))).
  assert (El' : elsewhere sp st st').
  { split; try done.
    - intros z Hz. unfold st', st3, st2, st1. simpl. by rewrite !lookup_insert_ne by done.
    - intros z u Hz Hne. simpl. rewrite lookup_delete_ne; [done|]. intros ->. congruence. }
  split; [|done|exists s3; by rewrite Erm|done]. apply (wf_step sp st st' s3 (delete (vm_lo vm) S) U); try done.
  - intros z u. simpl. rewrite lookup_delete_Some. intros [_ Hz]. by apply (wf_vms _ Hwf z u).
  - by apply (wf_names _ Hwf sp s).
Qed.

End release.
