(* ===== verification/VmSplit.v ===== *)
(** * kernel/mm/vmalloc.c: splitting and joining mappings

    A mapping that is split becomes two mappings of the same space whose
    ranges are next to each other; joining them gives back one mapping with
    the whole range.  The state stays well-formed throughout. *)

From S2P Require Import Prelude Mm Interval.
From stdpp Require Import list gmap sorting.
From S2P Require Import RbTree RbEvents RbInsert RbAdd RbDelete RbFix RbRemove IntvlTree IntvlOps IntvlRun Vmalloc VmSpace VmMap.
Local Open Scope Z_scope.

(** The record of an interval is what a search for the interval finds. *)
Lemma find_own t S U x p j d : intvl_holds t S U -> S !! x = Some (p, (j, d)) -> intvl_tree_find t j = Ret p.
Proof.
  intros Hh Hx. destruct (holds_interval _ _ _ _ _ _ _ Hh Hx) as (Hst & Hj & _).
  destruct (find_intvl t S U j Hh Hj) as (q & -> & [(x' & p' & j' & d' & Hx' & Ho & [= ->])|[Hno _]]).
  - destruct (decide (x = x')) as [->|Hne]; [congruence|].
    destruct (holds_apart _ _ _ _ _ _ _ _ _ _ _ Hh Hx Hx' Hne) as [Ha _]. congruence.
  - specialize (Hno _ _ _ _ Hx). rewrite overlaps_proper in Hno by done. unfold proper in Hj. exfalso.
    rewrite (proj2 (Z.ltb_lt _ _)) in Hno by lia. done.
Qed.

(** A range inside another meets what the other meets. *)
Lemma none_meets_sub S i j : proper i -> proper j -> start j <= start i -> end_ i <= end_ j ->
  map_Forall (fun _ v => proper v.2.1) S -> none_meets S j -> none_meets S i.
Proof.
  intros Hi Hj H1 H2 Hp H x v Hx. specialize (H x v Hx). specialize (Hp x v Hx). simpl in *.
  apply apart in H; [|done..]. apply apart; [done..|]. lia.
Qed.

Lemma others_apart t S U x p j d : intvl_holds t S U -> S !! x = Some (p, (j, d)) -> none_meets (delete x S) j.
Proof.
  intros Hh Hx y [q [k e]] [Hne Hy]%lookup_delete_Some. simpl.
  by destruct (holds_apart _ _ _ _ _ _ _ _ _ _ _ Hh Hy Hx) as [Ha _].
Qed.

Lemma all_proper t S U x : intvl_holds t S U -> map_Forall (fun _ v => proper v.2.1) (delete x S).
Proof.
  intros Hh y [q [k e]] [_ Hy]%lookup_delete_Some. by destruct (holds_interval _ _ _ _ _ _ _ Hh Hy) as (_ & ? & _).
Qed.

Section split.
Context {M : Type} {B : vm_backend M} (garbage : Z -> intvl_node_t).
Implicit Types st : vm_state (M := M).

(** The memory behind a mapping can be split at [off]. *)
Definition type_split (vm : vm_mapping_t) (off : Z) (m : M) : outcome (Z * Z * M) :=
  match vm_ty vm with
  | VM_TYPE_PHYS => Ret (vm_data vm, 0, m)
  | VM_TYPE_PAGE => page_type_split_internal (vm_data vm) off m
  | VM_TYPE_FILE => '(f, m) ← file_type_split_internal vm off m; Ret (vm_data vm, f, m)
  | VM_TYPE_RSVD => Panic
  end.

Lemma split_internal_eq st sp s d vm n nvm off a b m :
  spaces st !! sp = Some s -> 0 < lock_depth s -> vms st !! d = Some vm -> vm_space vm = sp -> vms st !! n = Some nvm ->
  n <> d -> vm_data nvm = 0 -> type_split vm off (mem st) = Ret (a, b, m) ->
  exists st', vm_split_internal st d off n = Ret st' /\ spaces st' = spaces st /\ blocks st' = blocks st /\
    kernel_space st' = kernel_space st /\ curspace st' = curspace st /\ mem st' = m /\
    vms st' = <[d := with_data vm a]> (<[n := with_data nvm b]> (vms st)).
Proof.
  intros Hs Hlock Hd Hsp Hn Hne Hdata H. unfold vm_split_internal, get_vm. rewrite Hd. cbn [mbind outcome_bind].
  rewrite Hsp, (lock_held st sp s Hs Hlock). cbn [mbind outcome_bind]. unfold type_split in H. destruct (vm_ty vm) eqn:Ety; [done|..].
  - injection H as <- <- <-. exists st. do 6 (split; [done|]). symmetry. rewrite insert_insert_ne by done.
    rewrite (insert_id _ d) by (rewrite Hd; by destruct vm). apply insert_id. rewrite Hn. destruct nvm. simpl in *. by subst.
  - rewrite H. cbn [mbind outcome_bind]. rewrite Hn. cbn [mbind outcome_bind]. eexists. by split_and!.
  - apply bind_Ret in H as ([f m1] & -> & [= <- <- <-]). cbn [mbind outcome_bind]. rewrite Hn. cbn [mbind outcome_bind].
    eexists. split; [done|]. do 5 (split; [done|]). simpl. symmetry. rewrite insert_insert_ne by done.
    rewrite (insert_id (vms st) d); [done|]. rewrite Hd. by destruct vm.
Qed.

(** The two mappings a split at [off] makes. *)
Definition lower_half (vm : vm_mapping_t) (off data : Z) : vm_mapping_t :=
  mk_vm (vm_ty vm) (Z.lor (vm_flags vm) VM_LINKED) (vm_address vm) off off (vm_space vm) data.
Definition upper_half (vm : vm_mapping_t) (off data : Z) : vm_mapping_t :=
  mk_vm (vm_ty vm) (Z.lor (vm_flags vm) VM_SPLIT) (vm_address vm + off) (vm_size vm - off) (vm_virt_size vm - off)
    (vm_space vm) data.

Lemma lor_stack f g : Z.testbit g 13 = false -> has_flag (Z.lor f g) VM_STACK = has_flag f VM_STACK.
Proof. intros H. rewrite !has_bit, Z.lor_spec, H by done. by rewrite orb_false_r. Qed.

Lemma halves_fit vm off a b : vm_fits vm -> has_flag (vm_flags vm) VM_STACK = false -> 0 < off < vm_size vm ->
  vm_fits (lower_half vm off a) /\ vm_fits (upper_half vm off b) /\
  vm_lo (lower_half vm off a) = vm_lo vm /\ vm_lo (upper_half vm off b) = vm_lo vm + off.
Proof.
  intros Hf Hst Hoff. unfold vm_fits, vm_lo, lower_half, upper_half in *. simpl. rewrite !lor_stack by done. rewrite Hst in *. lia.
Qed.

(** What a split leaves. *)
Record split st st' (sp : Z) (s : address_space_t) (d : Z) (vm : vm_mapping_t) (off a b : Z) : Prop := mk_split {
  sl_wf : vm_wf st';
  sl_else : elsewhere sp st st';
  sl_space : exists s' x y, spaces st' !! sp = Some s' /\ mappings s = x ++ d :: y /\ mappings s' = x ++ d :: blocks st :: y /\
    min_addr s' = min_addr s /\ max_addr s' = max_addr s /\ lock_depth s' = lock_depth s;
  sl_vms : vms st' = <[blocks st := upper_half vm off b]> (<[d := lower_half vm off a]> (vms st));
}.

Lemma space_ok_split st st' sp s S U d vm off a b p t x y :
  space_ok st sp s S U -> (forall z v, vms st !! z = Some v -> 0 < z < blocks st) -> mappings s = x ++ d :: y ->
  vms st !! d = Some vm -> has_flag (vm_flags vm) VM_STACK = false -> 0 < off < vm_size vm ->
  blocks st < p < blocks st' ->
  vms st' = <[blocks st := upper_half vm off b]> (<[d := lower_half vm off a]> (vms st)) ->
  intvl_holds t (<[vm_lo vm + off := (p, (vm_virt_interval (upper_half vm off b), blocks st))]>
    (alter (resized (off - vm_virt_size vm)) (vm_lo vm) S)) ({[p]} ∪ U) ->
  nodes t = nodes (new_tree s) + 2 -> 0 < blocks st ->
  space_ok st' sp (mk_space (min_addr s) (max_addr s) (lock_depth s) (num_mappings s + 1) (x ++ d :: blocks st :: y) t (page_table s))
    (<[vm_lo vm + off := (p, (vm_virt_interval (upper_half vm off b), blocks st))]>
      (alter (resized (off - vm_virt_size vm)) (vm_lo vm) S)) ({[p]} ∪ U).
Proof.
  intros [H1 H2 H3 H4 H5 H6 H7] Hdom El Hd Hst Hoff Hp Ev Ht Hn Hb0.
  destruct (H6 d) as (v & q & Hv & Hsp & Hf & HS); [rewrite El; set_solver|]. assert (v = vm) as -> by congruence.
  destruct (halves_fit vm off a b Hf Hst Hoff) as (F1 & F2 & L1 & L2).
  assert (Hdb : d <> blocks st) by (specialize (Hdom _ _ Hd); lia).
  assert (Hbl : blocks st ∉ mappings s).
  { intros Hin. destruct (H6 _ Hin) as (u & r & Hu & _). specialize (Hdom _ _ Hu). lia. }
  assert (Hkey : forall z r j e, S !! z = Some (r, (j, e)) -> z <> vm_lo vm + off).
  { intros z r j e Hz ->. assert (vm_lo vm + off <> vm_lo vm) by lia. destruct (holds_apart _ _ _ _ _ _ _ _ _ _ _ H1 Hz HS) as [Ha _]; [done|].
    destruct (holds_interval _ _ _ _ _ _ _ H1 Hz) as (Hst' & Hj & _). destruct (vm_fits_proper vm Hf) as [Hpr _].
    apply apart in Ha; [|done..]. rewrite (vm_fits_interval vm Hf) in Ha. destruct Hf as (? & ? & _). unfold proper in *. simpl in *. lia. }
  assert (Hd_only : forall z r j, S !! z = Some (r, (j, d)) -> z = vm_lo vm).
  { intros z r j Hz. destruct (H7 _ _ _ _ Hz) as (_ & u & Hu & ->). assert (u = vm) as -> by congruence.
    destruct (holds_interval _ _ _ _ _ _ _ H1 Hz) as (<- & _). by apply vm_fits_start. }
  assert (Hother : forall z v, z <> d -> vms st !! z = Some v -> vms st' !! z = Some v).
  { intros z u Hz Hu. rewrite Ev, !lookup_insert_ne; [done|done|]. specialize (Hdom _ _ Hu). lia. }
  assert (Hlow : (alter (resized (off - vm_virt_size vm)) (vm_lo vm) S) !! vm_lo vm =
    Some (q, (vm_virt_interval (lower_half vm off a), d))).
  { rewrite lookup_alter_eq, HS, (vm_fits_interval _ F1), L1, (vm_fits_interval vm Hf). unfold resized. simpl.
    do 4 f_equal. lia. }
  split; simpl.
  - done.
  - rewrite Hn, H2, El, !length_app. simpl. lia.
  - assert (x ++ d :: blocks st :: y ≡ₚ blocks st :: x ++ d :: y) as ->
      by (rewrite <- !Permutation_middle; apply Permutation_swap).
    rewrite El in H3, Hbl. by apply NoDup_cons.
  - rewrite H4, El, !length_app. simpl. lia.
  - intros r [->%elem_of_singleton|Hr]%elem_of_union; [lia|]. specialize (H5 r Hr). lia.
  - intros z Hz. destruct (decide (z = blocks st)) as [->|Hzb]; [|destruct (decide (z = d)) as [->|Hzd]].
    + exists (upper_half vm off b), p. rewrite Ev, lookup_insert_eq, L2, lookup_insert_eq. done.
    + exists (lower_half vm off a), q. rewrite Ev, lookup_insert_ne, lookup_insert_eq by done.
      rewrite L1, lookup_insert_ne by lia. done.
    + destruct (H6 z) as (u & r & Hu & Hus & Huf & HSu); [rewrite El; clear - Hz Hzb; set_solver|].
      exists u, r. split; [by apply Hother|]. do 2 (split; [done|]). rewrite lookup_insert_ne by (by apply not_eq_sym, (Hkey _ _ _ _ HSu)).
      rewrite lookup_alter_ne; [done|]. intros E. rewrite <- E, HS in HSu. by injection HSu.
  - intros z r j e. destruct (decide (z = vm_lo vm + off)) as [->|Hz1]; [|destruct (decide (z = vm_lo vm)) as [->|Hz2]].
    + rewrite lookup_insert_eq. intros [= <- <- <-]. split; [clear; set_solver|]. exists (upper_half vm off b).
      by rewrite Ev, lookup_insert_eq.
    + rewrite lookup_insert_ne by done. rewrite Hlow. intros [= <- <- <-]. split; [clear; set_solver|]. exists (lower_half vm off a).
      by rewrite Ev, lookup_insert_ne, lookup_insert_eq by done.
    + rewrite lookup_insert_ne, lookup_alter_ne by done. intros Hz. destruct (H7 _ _ _ _ Hz) as (He & u & Hu & Hj).
      split; [rewrite El in He; clear - He; set_solver|]. exists u. split; [|done]. apply Hother; [|done].
      intros ->. by apply Hz2, (Hd_only _ r j).
Qed.

(** The range of the lower half, and the range of the upper half. *)
Lemma halves_interval vm off a b : vm_fits vm -> has_flag (vm_flags vm) VM_STACK = false -> 0 < off < vm_size vm ->
  vm_virt_interval (lower_half vm off a) = mk_intvl (vm_lo vm) (vm_lo vm + off) /\
  vm_virt_interval (upper_half vm off b) = mk_intvl (vm_lo vm + off) (vm_lo vm + vm_virt_size vm).
Proof.
  intros Hf Hst Hoff. destruct (halves_fit vm off a b Hf Hst Hoff) as (F1 & F2 & L1 & L2).
  rewrite (vm_fits_interval _ F1), (vm_fits_interval _ F2), L1, L2. simpl. split; f_equal; lia.
Qed.

(** The tree of the space: the interval shrinks and a second one is added. *)
Lemma split_tree st st3 sp s S U d vm off b p :
  spaces st3 !! sp = Some s -> intvl_holds (new_tree s) S U -> (forall q, q ∈ U -> q < blocks st3) ->
  nodes (new_tree s) + 2 < 2 ^ 64 -> 0 < blocks st3 -> vm_fits vm -> has_flag (vm_flags vm) VM_STACK = false ->
  0 < off < vm_size vm -> S !! vm_lo vm = Some (p, (vm_virt_interval vm, d)) ->
  let n := blocks st in
  let up := upper_half vm off b in
  exists t1 t, tree_update st3 sp p 0 (off - vm_virt_size vm) = Ret (put_space st3 sp (with_tree s t1)) /\
    tree_insert garbage (put_space st3 sp (with_tree s t1)) sp (vm_virt_interval up) n =
      Ret (put_space (set_blocks (put_space st3 sp (with_tree s t1)) (blocks st3 + 1)) sp (with_tree s t)) /\
    intvl_holds t (<[vm_lo vm + off := (blocks st3, (vm_virt_interval up, n))]>
      (alter (resized (off - vm_virt_size vm)) (vm_lo vm) S)) ({[blocks st3]} ∪ U) /\ nodes t = nodes (new_tree s) + 2.
Proof.
  intros Hs Hh HU Hn Hb Hf Hst Hoff HS n up. destruct (halves_interval vm off 0 b Hf Hst Hoff) as [E1 E2].
  pose proof (vm_fits_interval vm Hf) as E0. pose proof Hf as (F1 & F2 & F3 & F4).
  pose proof (others_apart _ _ _ _ _ _ _ Hh HS) as Hap. pose proof (all_proper _ _ _ (vm_lo vm) Hh) as Hap'.
  assert (P0 : proper (vm_virt_interval vm)) by (rewrite E0; split; simpl; lia).
  destruct (tree_update_ok st3 sp s S U p (vm_lo vm) (vm_virt_interval vm) d (off - vm_virt_size vm) Hs Hh HS) as (t1 & Hup & Hh1 & Hn1).
  { rewrite E0. split; simpl; lia. }
  { rewrite E0. simpl. lia. }
  { apply (none_meets_sub _ _ (vm_virt_interval vm)); [rewrite E0; split; simpl; lia|done|rewrite E0; simpl; lia..|done|done]. }
  exists t1. assert (Pup : proper (vm_virt_interval up)) by (unfold up; rewrite E2; split; simpl; lia).
  destruct (tree_insert_ok garbage (put_space st3 sp (with_tree s t1)) sp (with_tree s t1)
    (alter (resized (off - vm_virt_size vm)) (vm_lo vm) S) U (vm_virt_interval up) n) as (t & Hin & Hh2 & Hn2).
  - simpl. by rewrite lookup_insert_eq.
  - done.
  - done.
  - simpl. lia.
  - done.
  - done.
  - unfold up. rewrite E2. simpl. lia.
  - intros x [q [j e]] Hx. simpl. destruct (decide (x = vm_lo vm)) as [->|Hne].
    + rewrite lookup_alter_eq, HS, E0 in Hx. injection Hx as _ <- _. apply apart; [split; simpl; lia|done|].
      unfold up. rewrite E2. simpl. lia.
    + rewrite lookup_alter_ne in Hx by done.
      assert (Hn' : none_meets (delete (vm_lo vm) S) (vm_virt_interval up)).
      { apply (none_meets_sub _ _ (vm_virt_interval vm)); [done|done|unfold up; rewrite E0, E2; simpl; lia..|done|done]. }
      apply (Hn' x (q, (j, e))). by apply lookup_delete_Some.
  - exists t. split; [done|]. split; [exact Hin|]. simpl in Hn2. split; [|lia].
    assert (start (vm_virt_interval up) = vm_lo vm + off) as <- by (unfold up; by rewrite E2). exact Hh2.
Qed.

(** The state a split ends in. *)
Lemma split_done st st3 sp s S U d vm off a b t1 t x y :
  let n := blocks st in
  vm_wf st -> spaces st !! sp = Some s -> space_ok st sp s S U -> mappings s = x ++ d :: y -> vms st !! d = Some vm ->
  vm_space vm = sp -> has_flag (vm_flags vm) VM_STACK = false -> 0 < off < vm_size vm ->
  2 * Z.of_nat (length (mappings s)) + 2 < 2 ^ 64 -> spaces st3 = spaces st -> blocks st3 = n + 1 ->
  kernel_space st3 = kernel_space st -> curspace st3 = curspace st ->
  vms st3 = <[n := upper_half vm off b]> (<[d := lower_half vm off a]> (vms st)) ->
  intvl_holds t (<[vm_lo vm + off := (blocks st3, (vm_virt_interval (upper_half vm off b), n))]>
    (alter (resized (off - vm_virt_size vm)) (vm_lo vm) S)) ({[blocks st3]} ∪ U) ->
  nodes t = nodes (new_tree s) + 2 ->
  let st4 := put_space (set_blocks (put_space st3 sp (with_tree s t1)) (blocks st3 + 1)) sp (with_tree s t) in
  split st (put_space st4 sp (with_mappings (with_tree s t) (u64 (num_mappings s + 1)) (x ++ d :: n :: y))) sp s d vm off a b.
Proof.
  intros n Hwf Hs Hok El Hvm Hsp Hst Hoff Hlen G1 G2 G3 G4 Ev Hh Hn st4. pose proof Hwf as [W1 W2 W3 W4].
  set (s' := with_mappings _ _ _). set (st' := put_space st4 sp s'). assert (Hs' : spaces st' !! sp = Some s') by apply lookup_insert_eq.
  assert (Es' : s' = mk_space (min_addr s) (max_addr s) (lock_depth s) (num_mappings s + 1) (x ++ d :: n :: y) t (page_table s)).
  { unfold s', with_mappings, with_tree. simpl. rewrite (wrap_small 64); [done|]. rewrite (so_count _ _ _ _ _ Hok). unfold fits. lia. }
  assert (Hel : elsewhere sp st st').
  { split; simpl; rewrite ?G3, ?G4; try done; [|rewrite G2; unfold n; lia|].
    - intros z Hz. by rewrite !lookup_insert_ne, G1.
    - intros z v Hz Hv. rewrite Ev, !lookup_insert_ne; [done| |].
      + intros <-. congruence.
      + intros <-. specialize (W2 _ _ Hz). unfold n in W2. lia. }
  split; [|done|exists s', x, y; by rewrite Es' at 2|exact Ev].
  eapply (wf_step sp st); [done|done| |simpl; rewrite G2; specialize (W3 _ _ Hs); unfold n; lia|exact Hs'|].
  - intros z v. simpl. rewrite Ev, G2. unfold n in *.
    intros [[<- _]|[Hz [[<- _]|[Hz' Hv]]%lookup_insert_Some]]%lookup_insert_Some; [lia| |specialize (W2 _ _ Hv); lia].
    specialize (W2 _ _ Hvm). lia.
  - rewrite Es'. apply (space_ok_split st st' sp s S U d vm off a b (blocks st3)); try done. simpl. rewrite G2. unfold n. lia.
Qed.

Lemma split_mapping_ok st sp s d vm off a b m :
  vm_wf st -> spaces st !! sp = Some s -> 0 < lock_depth s -> d ∈ mappings s -> vms st !! d = Some vm ->
  has_flag (vm_flags vm) VM_STACK = false -> 0 < off < vm_size vm -> off mod vm_flags_to_size (vm_flags vm) = 0 ->
  2 * Z.of_nat (length (mappings s)) + 2 < 2 ^ 64 -> type_split vm off (mem st) = Ret (a, b, m) ->
  exists st', split_mapping garbage st d off = Ret (blocks st, st') /\ split st st' sp s d vm off a b /\ mem st' = m.
Proof.
  intros Hwf Hs Hlock Hd Hvm Hst Hoff Hal Hlen Hsplit. pose proof Hwf as [W1 W2 W3 W4].
  destruct (W4 sp s Hs) as (S & U & Hok). destruct (so_in _ _ _ _ _ Hok d Hd) as (v & p & Hv & Hsp & Hf & HS).
  assert (v = vm) as -> by congruence. clear Hv. pose proof Hf as (F1 & F2 & F3 & F4).
  assert (Elo : vm_lo vm = vm_address vm) by (unfold vm_lo; by rewrite Hst). pose proof (vm_fits_interval vm Hf) as E0.
  set (n := blocks st). assert (Hnd : n <> d) by (specialize (W2 _ _ Hvm); unfold n; lia).
  set (nvm0 := mk_vm (vm_ty vm) (Z.lor (vm_flags vm) VM_SPLIT) (vm_address vm + off) (vm_size vm - off) 0 sp 0).
  set (st1 := set_blocks (put_vm st n nvm0) (n + 1)).
  destruct (split_internal_eq st1 sp s d vm n nvm0 off a b m) as (st2 & Hsp2 & G1 & G2 & G3 & G4 & G5 & G6); try done.
  { simpl. by rewrite lookup_insert_ne. }
  { simpl. by rewrite lookup_insert_eq. }
  set (st3 := put_vm (put_vm st2 d (lower_half vm off a)) n (upper_half vm off b)).
  assert (Hs3 : spaces st3 !! sp = Some s) by (simpl; by rewrite G1).
  destruct (split_tree st st3 sp s S U d vm off b p Hs3 (so_tree _ _ _ _ _ Hok)) as (t1 & t & Hup & Hin & Hh & Hn); try done.
  { intros q Hq. simpl. rewrite G2. simpl. unfold n. pose proof (so_records _ _ _ _ _ Hok q Hq). lia. }
  { rewrite (so_nodes _ _ _ _ _ Hok). lia. }
  { simpl. rewrite G2. simpl. unfold n. lia. }
  destruct (insert_after_ok n d (mappings s) Hd) as (x & y & El & Hl).
  unfold split_mapping, get_vm. rewrite Hvm. cbn [mbind outcome_bind]. rewrite Hsp, (lock_held st sp s Hs Hlock). cbn [mbind outcome_bind].
  rewrite Hal. cbn [kassert mbind outcome_bind Z.eqb].
  rewrite (wrap_small 64 (vm_address vm + off)) by (unfold fits; lia). rewrite (wrap_small 64 (vm_size vm - off)) by (unfold fits; lia).
  unfold vm_struct_alloc. fold n nvm0 st1. rewrite Hsp2. cbn [mbind outcome_bind].
  rewrite G6, lookup_insert_eq. cbn [mbind outcome_bind]. rewrite lookup_insert_ne, lookup_insert_eq by done. cbn [mbind outcome_bind].
  assert (Ef : has_flag (Z.lor (vm_flags vm) VM_LINKED) VM_STACK = false) by (by rewrite lor_stack).
  change (vm_flags (with_flags _ ?f)) with f. change (vm_flags (with_data vm a)) with (vm_flags vm). rewrite Ef.
  assert (E3 : with_range (with_data nvm0 b) (vm_address nvm0) (vm_size nvm0) (u64 (vm_virt_size vm - off)) = upper_half vm off b).
  { unfold upper_half, with_range, with_data, nvm0. simpl. rewrite Hsp, (wrap_small 64) by (unfold fits; lia). done. }
  change (with_range (with_data nvm0 b) _ _ _) with
    (with_range (with_data nvm0 b) (vm_address nvm0) (vm_size nvm0) (u64 (vm_virt_size vm - off))). rewrite E3.
  change (with_range (with_flags _ _) _ off off) with (lower_half vm off a). cbv zeta iota beta. fold st3.
  rewrite (get_space_at st3 sp s Hs3). cbn [mbind outcome_bind]. rewrite (find_own _ _ _ _ _ _ _ (so_tree _ _ _ _ _ Hok) HS). cbn [mbind outcome_bind].
  assert (- (u64 (end_ (vm_virt_interval vm) - start (vm_virt_interval vm)) - off) = off - vm_virt_size vm) as ->.
  { rewrite E0. simpl. rewrite (wrap_small 64) by (unfold fits; lia). lia. }
  fold n in Hin, Hh. rewrite Hup. cbn [mbind outcome_bind]. rewrite Hin. cbn [mbind outcome_bind].
  destruct (halves_interval vm off a b Hf Hst Hoff) as [E1 E2].
  assert (contiguous (vm_virt_interval (lower_half vm off a)) (vm_virt_interval (upper_half vm off b)) = true) as ->.
  { rewrite E1, E2. unfold contiguous. apply andb_true_intro. split; [|simpl; by rewrite Z.eqb_refl].
    apply negb_true_iff, apart; [split; simpl; lia..|simpl; lia]. }
  cbn [kassert mbind outcome_bind]. unfold get_space at 1. simpl. rewrite lookup_insert_eq. cbn [mbind outcome_bind mappings with_tree].
  rewrite Hl. cbn [mbind outcome_bind]. eexists. split; [done|]. split; [|by simpl].
  apply (split_done st st3 sp s S U d vm off a b t1 t x y Hwf Hs Hok El); try done.
  simpl. rewrite G6. simpl. rewrite insert_insert_eq. apply map_eq. intros z.
  destruct (decide (z = n)) as [->|H1]; [by rewrite !lookup_insert_eq|]. rewrite !(lookup_insert_ne _ n) by done.
  destruct (decide (z = d)) as [->|H2]; [by rewrite !lookup_insert_eq|]. by rewrite !lookup_insert_ne.
Qed.

(** ** Joining *)

(** The memory behind a mapping, with the memory [other] after it. *)
Definition type_join (vm : vm_mapping_t) (other : Z) (m : M) : outcome (Z * M) :=
  match vm_ty vm with
  | VM_TYPE_PHYS => Ret (vm_data vm, m)
  | VM_TYPE_PAGE => page_type_join_internal (vm_data vm) other m
  | VM_TYPE_FILE => m ← file_type_join_internal vm other m; Ret (vm_data vm, m)
  | VM_TYPE_RSVD => Panic
  end.

Lemma join_internal_eq st sp s d vm n nvm a m :
  spaces st !! sp = Some s -> 0 < lock_depth s -> vms st !! d = Some vm -> vm_space vm = sp -> vms st !! n = Some nvm ->
  type_join vm (vm_data nvm) (mem st) = Ret (a, m) ->
  vm_join_internal st d n = Ret (set_mem (put_vm st d (with_data vm a)) m).
Proof.
  intros Hs Hlock Hd Hsp Hn H. unfold vm_join_internal, get_vm. rewrite Hd. cbn [mbind outcome_bind].
  rewrite Hsp, (lock_held st sp s Hs Hlock). cbn [mbind outcome_bind]. rewrite Hn. cbn [mbind outcome_bind].
  assert (Eid : put_vm st d (with_data vm (vm_data vm)) = st).
  { unfold put_vm, set_vms. rewrite insert_id; [by destruct st|]. rewrite Hd. by destruct vm. }
  unfold type_join in H. destruct (vm_ty vm); [done|..].
  - injection H as <- <-. rewrite Eid. by destruct st.
  - by rewrite H.
  - apply bind_Ret in H as (m1 & -> & [= <- <-]). simpl. by rewrite Eid.
Qed.

(** The mapping that two neighbours become. *)
Definition joined_mapping (va vb : vm_mapping_t) (data : Z) : vm_mapping_t :=
  mk_vm (vm_ty va) (Z.land (vm_flags va) (not_w 32 VM_LINKED)) (vm_address va) (vm_size va + vm_size vb)
    (vm_virt_size va + vm_virt_size vb) (vm_space va) data.

(** What a join leaves. *)
Record joined st st' (sp : Z) (s : address_space_t) (d n : Z) (va vb : vm_mapping_t) (data : Z) : Prop := mk_joined {
  jn_wf : vm_wf st';
  jn_else : elsewhere sp st st';
  jn_space : exists s', spaces st' !! sp = Some s' /\ mappings s' = remove_from n (mappings s) /\
    min_addr s' = min_addr s /\ max_addr s' = max_addr s /\ lock_depth s' = lock_depth s;
  jn_vms : vms st' = delete n (<[d := joined_mapping va vb data]> (vms st));
}.

(** Two mappings of a space of which the second begins where the first ends. *)
Record neighbours (va vb : vm_mapping_t) : Prop := mk_neighbours {
  nb_stack : has_flag (vm_flags va) VM_STACK = false;
  nb_fits : vm_fits va /\ vm_fits vb;
  nb_meet : vm_lo va + vm_virt_size va = vm_lo vb;
}.

Lemma joined_fits va vb data : neighbours va vb ->
  vm_fits (joined_mapping va vb data) /\ vm_lo (joined_mapping va vb data) = vm_lo va /\
  vm_virt_interval (joined_mapping va vb data) = mk_intvl (vm_lo va) (vm_lo vb + vm_virt_size vb).
Proof.
  intros [Hst [Ha Hb] Hm]. assert (Hlo : vm_lo (joined_mapping va vb data) = vm_lo va).
  { unfold vm_lo, joined_mapping. simpl. rewrite Hst. rewrite has_bit, Z.land_spec, testbit_not_w by done.
    rewrite has_bit in Hst by done. by rewrite Hst. }
  assert (Hf : vm_fits (joined_mapping va vb data)).
  { unfold vm_fits in *. rewrite Hlo. simpl. lia. }
  split; [done|]. split; [done|]. rewrite (vm_fits_interval _ Hf), Hlo. simpl. f_equal. lia.
Qed.

(** What is apart from two neighbours is apart from both together. *)
Lemma apart_both j lo mid hi : proper j -> 0 <= lo < mid -> mid < hi ->
  overlaps j (mk_intvl lo mid) = false -> overlaps j (mk_intvl mid hi) = false -> overlaps j (mk_intvl lo hi) = false.
Proof.
  intros Hj Hl Hm H1 H2. apply apart in H1; [|done|split; simpl; lia]. apply apart in H2; [|done|split; simpl; lia].
  apply apart; [done|split; simpl; lia|]. unfold proper in Hj. simpl in *. lia.
Qed.

(** The tree of the space: the second interval goes and the first one grows. *)
Lemma join_tree st sp s S U d n va vb p q :
  spaces st !! sp = Some s -> intvl_holds (new_tree s) S U -> nodes (new_tree s) + 2 < 2 ^ 64 -> neighbours va vb ->
  S !! vm_lo va = Some (p, (vm_virt_interval va, d)) -> S !! vm_lo vb = Some (q, (vm_virt_interval vb, n)) ->
  exists t1 t, tree_delete st sp (vm_virt_interval vb) = Ret (put_space st sp (with_tree s t1)) /\
    tree_update (put_space st sp (with_tree s t1)) sp p 0 (vm_virt_size vb) =
      Ret (put_space (put_space st sp (with_tree s t1)) sp (with_tree s t)) /\
    intvl_holds t (alter (resized (vm_virt_size vb)) (vm_lo va) (delete (vm_lo vb) S)) U /\ nodes t = nodes (new_tree s) - 2.
Proof.
  intros Hs Hh Hn [Hst [Ha Hb] Hm] HSa HSb. pose proof (vm_fits_interval va Ha) as Ea. pose proof (vm_fits_interval vb Hb) as Eb.
  pose proof Ha as (A1 & A2 & A3 & A4). pose proof Hb as (B1 & B2 & B3 & B4).
  destruct (tree_delete_ok st sp s S U (vm_virt_interval vb) Hs Hh Hn) as (t1 & Hdel & Hh1 & Hn1).
  { by rewrite (vm_fits_start vb Hb), HSb. }
  rewrite (vm_fits_start vb Hb) in Hh1.
  destruct (tree_update_ok (put_space st sp (with_tree s t1)) sp (with_tree s t1) (delete (vm_lo vb) S) U p (vm_lo va)
    (vm_virt_interval va) d (vm_virt_size vb)) as (t & Hup & Hh2 & Hn2).
  - simpl. by rewrite lookup_insert_eq.
  - done.
  - rewrite lookup_delete_ne by lia. done.
  - rewrite Ea. split; simpl; lia.
  - rewrite Ea. simpl. lia.
  - intros x [r [j e]] [Hx1 [Hx2 Hx]%lookup_delete_Some]%lookup_delete_Some. rewrite Ea. cbn [start end_ snd fst].
    destruct (holds_interval _ _ _ _ _ _ _ Hh Hx) as (_ & Hj & _).
    destruct (holds_apart _ _ _ _ _ _ _ _ _ _ _ Hh Hx HSa (not_eq_sym Hx1)) as [Ha1 _].
    destruct (holds_apart _ _ _ _ _ _ _ _ _ _ _ Hh Hx HSb (not_eq_sym Hx2)) as [Hb1 _].
    rewrite Ea in Ha1. rewrite Eb in Hb1. rewrite Hm in *. apply (apart_both j _ (vm_lo vb)); [done|lia|lia|done|done].
  - exists t1, t. split; [done|]. split; [done|]. split; [done|]. simpl in Hn2. lia.
Qed.

Lemma space_ok_join st st' sp s S U d n va vb p q data t :
  space_ok st sp s S U -> d ∈ mappings s -> n ∈ mappings s -> d <> n -> vms st !! d = Some va -> vms st !! n = Some vb ->
  neighbours va vb -> vms st' = delete n (<[d := joined_mapping va vb data]> (vms st)) -> blocks st' = blocks st ->
  S !! vm_lo va = Some (p, (vm_virt_interval va, d)) -> S !! vm_lo vb = Some (q, (vm_virt_interval vb, n)) ->
  intvl_holds t (alter (resized (vm_virt_size vb)) (vm_lo va) (delete (vm_lo vb) S)) U -> nodes t = nodes (new_tree s) - 2 ->
  space_ok st' sp (mk_space (min_addr s) (max_addr s) (lock_depth s) (num_mappings s - 1) (remove_from n (mappings s)) t (page_table s))
    (alter (resized (vm_virt_size vb)) (vm_lo va) (delete (vm_lo vb) S)) U.
Proof.
  intros [H1 H2 H3 H4 H5 H6 H7] Hd Hn Hne Hva Hvb Hnb Ev Eb HSa HSb Ht Hnt.
  destruct (joined_fits va vb data Hnb) as (Hf & Hlo & Hi). pose proof Hnb as [_ [Ha Hb] Hm].
  assert (Hmem : forall z, z ∈ remove_from n (mappings s) <-> (z ∈ mappings s) /\ z <> n) by (intros z; unfold remove_from; rewrite list_elem_of_filter; tauto).
  assert (Hlen : Z.of_nat (length (remove_from n (mappings s))) = Z.of_nat (length (mappings s)) - 1).
  { pose proof Hn as (x & y & El)%list_elem_of_split. rewrite El in *. rewrite remove_from_ok by done. rewrite !length_app. simpl. lia. }
  assert (Hkey : forall z r j e, S !! z = Some (r, (j, e)) -> exists v, vms st !! e = Some v /\ j = vm_virt_interval v /\ z = vm_lo v).
  { intros z r j e Hz. destruct (H7 _ _ _ _ Hz) as (He & v & Hv & ->). exists v. split; [done|]. split; [done|].
    destruct (H6 _ He) as (v' & _ & Hv' & _ & Hf' & _). assert (v' = v) as -> by congruence.
    destruct (holds_interval _ _ _ _ _ _ _ H1 Hz) as (<- & _). by apply vm_fits_start. }
  assert (Hnew : alter (resized (vm_virt_size vb)) (vm_lo va) (delete (vm_lo vb) S) !! vm_lo va =
    Some (p, (vm_virt_interval (joined_mapping va vb data), d))).
  { rewrite lookup_alter_eq, lookup_delete_ne by (destruct Ha as (_ & ? & _); lia). rewrite HSa, Hi, (vm_fits_interval va Ha).
    unfold resized. simpl. do 4 f_equal. lia. }
  split; simpl; rewrite ?Hlen.
  - done.
  - lia.
  - by apply NoDup_filter.
  - lia.
  - by rewrite Eb.
  - intros z [Hz Hzn]%Hmem. destruct (decide (z = d)) as [->|Hzd].
    + exists (joined_mapping va vb data), p. rewrite Ev, lookup_delete_ne, lookup_insert_eq, Hlo by done.
      split; [done|]. split; [|done]. destruct (H6 d Hd) as (v & _ & Hv & Hs & _). simpl. congruence.
    + destruct (H6 z Hz) as (v & r & Hv & Hs & Hvf & HSv). exists v, r. rewrite Ev, lookup_delete_ne, lookup_insert_ne by done.
      do 3 (split; [done|]). rewrite lookup_alter_ne; [rewrite lookup_delete_ne; [done|]|]; intros E; rewrite <- E in HSv; congruence.
  - intros z r j e Hz. destruct (decide (z = vm_lo va)) as [->|Hza].
    + rewrite Hnew in Hz. injection Hz as <- <- <-. split; [by apply Hmem|]. exists (joined_mapping va vb data).
      by rewrite Ev, lookup_delete_ne, lookup_insert_eq.
    + rewrite lookup_alter_ne in Hz by done. apply lookup_delete_Some in Hz as [Hzb Hz].
      destruct (Hkey _ _ _ _ Hz) as (v & Hv & -> & ->). assert (e <> d) by congruence. assert (e <> n) by congruence.
      split; [apply Hmem; split; [by apply (H7 _ _ _ _ Hz)|done]|]. exists v. by rewrite Ev, lookup_delete_ne, lookup_insert_ne.
Qed.

(** The state a join ends in. *)
Lemma join_done st st' sp s S U d n va vb p q data t :
  vm_wf st -> spaces st !! sp = Some s -> space_ok st sp s S U -> d ∈ mappings s -> n ∈ mappings s -> d <> n ->
  vms st !! d = Some va -> vms st !! n = Some vb -> vm_space va = sp -> vm_space vb = sp -> neighbours va vb ->
  S !! vm_lo va = Some (p, (vm_virt_interval va, d)) -> S !! vm_lo vb = Some (q, (vm_virt_interval vb, n)) ->
  intvl_holds t (alter (resized (vm_virt_size vb)) (vm_lo va) (delete (vm_lo vb) S)) U -> nodes t = nodes (new_tree s) - 2 ->
  kernel_space st' = kernel_space st -> curspace st' = curspace st -> blocks st' = blocks st ->
  (forall z, z <> sp -> spaces st' !! z = spaces st !! z) ->
  spaces st' !! sp = Some (mk_space (min_addr s) (max_addr s) (lock_depth s) (num_mappings s - 1) (remove_from n (mappings s)) t (page_table s)) ->
  vms st' = delete n (<[d := joined_mapping va vb data]> (vms st)) -> joined st st' sp s d n va vb data.
Proof.
  intros Hwf Hs Hok Hd Hn Hne Hva Hvb Hsa Hsb Hnb HSa HSb Hh Hnt Hk Hc Hb Hz Hs' Ev. pose proof Hwf as [W1 W2 W3 W4].
  assert (Hel : elsewhere sp st st').
  { split; [done|done|done|lia|]. intros z v Hv Hvs. rewrite Ev, lookup_delete_ne, lookup_insert_ne; [done|congruence..]. }
  split; [|done|by eexists|done]. eapply (wf_step sp st); [done|done| |rewrite Hb; by apply (W3 sp s)|exact Hs'|].
  - intros z v. rewrite Ev, Hb. intros [_ [[<- _]|[_ Hv]]%lookup_insert_Some]%lookup_delete_Some; [by apply (W2 _ va)|by apply (W2 _ v)].
  - by apply (space_ok_join st st' sp s S U d n va vb p q data t).
Qed.

Lemma join_mappings_ok st sp s d n va vb data m :
  vm_wf st -> spaces st !! sp = Some s -> 0 < lock_depth s -> d ∈ mappings s -> n ∈ mappings s -> d <> n ->
  vms st !! d = Some va -> vms st !! n = Some vb -> neighbours va vb ->
  has_flag (vm_flags va) VM_LINKED = true -> has_flag (vm_flags vb) VM_SPLIT = true ->
  2 * Z.of_nat (length (mappings s)) + 2 < 2 ^ 64 -> type_join va (vm_data vb) (mem st) = Ret (data, m) ->
  exists st', join_mappings st d n = Ret st' /\ joined st st' sp s d n va vb data /\ mem st' = m.
Proof.
  intros Hwf Hs Hlock Hd Hn Hne Hva Hvb Hnb Hlk Hspl Hlen Hj. pose proof Hwf as [W1 W2 W3 W4].
  destruct (W4 sp s Hs) as (S & U & Hok). destruct (so_in _ _ _ _ _ Hok d Hd) as (v & p & Hv & Hsp & _ & HSa).
  assert (v = va) as -> by congruence. clear Hv. destruct (so_in _ _ _ _ _ Hok n Hn) as (v & q & Hv & Hsp' & _ & HSb).
  assert (v = vb) as -> by congruence. clear Hv. pose proof Hnb as [Hst [Ha Hb] Hm].
  destruct (join_tree st sp s S U d n va vb p q Hs (so_tree _ _ _ _ _ Hok)) as (t1 & t & Hdel & Hup & Hh & Hnt); try done.
  { rewrite (so_nodes _ _ _ _ _ Hok). lia. }
  unfold join_mappings, get_vm. rewrite Hva. cbn [mbind outcome_bind]. rewrite Hsp, (lock_held st sp s Hs Hlock). cbn [mbind outcome_bind].
  rewrite Hvb. cbn [mbind outcome_bind]. rewrite Hlk, Hspl. cbn [kassert mbind outcome_bind].
  rewrite (get_space_at st sp s Hs). cbn [mbind outcome_bind]. rewrite (find_own _ _ _ _ _ _ _ (so_tree _ _ _ _ _ Hok) HSa). cbn [mbind outcome_bind].
  rewrite Hdel. cbn [mbind outcome_bind].
  assert (u64 (end_ (vm_virt_interval vb) - start (vm_virt_interval vb)) = vm_virt_size vb) as ->.
  { rewrite (vm_fits_interval vb Hb). simpl. destruct Hb as (? & ? & ? & ?). rewrite (wrap_small 64) by (unfold fits; lia). lia. }
  rewrite Hup. cbn [mbind outcome_bind]. rewrite get_put_space. cbn [mbind outcome_bind].
  set (s' := with_mappings _ _ _). set (st3 := put_space (M := M) _ sp s').
  assert (Hs3 : spaces st3 !! sp = Some s') by apply lookup_insert_eq.
  rewrite (join_internal_eq st3 sp s' d va n vb data m Hs3 Hlock Hva Hsp Hvb Hj). cbn [mbind outcome_bind].
  unfold get_vm. simpl. rewrite lookup_insert_eq. cbn [mbind outcome_bind]. rewrite lookup_insert_ne by done. rewrite Hvb. cbn [mbind outcome_bind].
  assert (Ej : with_range (with_flags (with_data va data) (Z.land (vm_flags va) (not_w 32 VM_LINKED))) (vm_address va)
      (u64 (vm_size va + vm_size vb)) (u64 (vm_virt_size va + vm_virt_size vb)) = joined_mapping va vb data).
  { destruct Ha as (? & ? & ? & ?), Hb as (? & ? & ? & ?). rewrite !(wrap_small 64) by (unfold fits; lia). done. }
  change (vm_flags (with_data va data)) with (vm_flags va). change (vm_address (with_data va data)) with (vm_address va).
  change (vm_size (with_data va data)) with (vm_size va). change (vm_virt_size (with_data va data)) with (vm_virt_size va). rewrite Ej.
  eexists. split; [done|]. split; [|done]. apply (join_done st _ sp s S U d n va vb p q data t); try done.
  - intros z Hz. simpl. by rewrite !lookup_insert_ne.
  - simpl. rewrite lookup_insert_eq. unfold s', with_mappings, with_tree. simpl. do 2 f_equal. rewrite (wrap_small 64); [done|].
    pose proof (so_count _ _ _ _ _ Hok). assert (0 < length (mappings s))%nat by (destruct (mappings s); [by apply not_elem_of_nil in Hd|simpl; lia]). unfold fits. lia.
  - simpl. by rewrite insert_insert_eq.
Qed.

(** ** Round trip *)

Lemma linked_back f : 0 <= f < 2 ^ 32 -> has_flag f VM_LINKED = false -> Z.land (Z.lor f VM_LINKED) (not_w 32 VM_LINKED) = f.
Proof.
  intros Hf Hl. rewrite has_bit in Hl by done. apply Z.bits_inj'. intros i Hi. rewrite Z.land_spec, Z.lor_spec, testbit_not_w by lia.
  rewrite Z.shiftl_1_l, Z.pow2_bits_eqb by lia. destruct (Z.eqb_spec 18 i) as [<-|Hne]; [by rewrite Hl|].
  rewrite orb_false_r, andb_true_r. destruct (Z.ltb_spec i 32); [by rewrite andb_true_r|]. by rewrite (fits_testbit 32 f i).
Qed.

(** Splitting a mapping and joining the halves gives the mapping back. *)
Lemma split_join_ok st sp s d vm off a b m data m' :
  vm_wf st -> spaces st !! sp = Some s -> 0 < lock_depth s -> d ∈ mappings s -> vms st !! d = Some vm ->
  has_flag (vm_flags vm) VM_STACK = false -> 0 < off < vm_size vm -> off mod vm_flags_to_size (vm_flags vm) = 0 ->
  2 * Z.of_nat (length (mappings s)) + 4 < 2 ^ 64 -> 0 <= vm_flags vm < 2 ^ 32 -> has_flag (vm_flags vm) VM_LINKED = false ->
  type_split vm off (mem st) = Ret (a, b, m) -> type_join (lower_half vm off a) b m = Ret (data, m') ->
  exists st1 st2 s2, split_mapping garbage st d off = Ret (blocks st, st1) /\ join_mappings st1 d (blocks st) = Ret st2 /\
    vm_wf st2 /\ elsewhere sp st st2 /\ spaces st2 !! sp = Some s2 /\ mappings s2 = mappings s /\
    vms st2 = <[d := with_data vm data]> (vms st) /\ mem st2 = m'.
Proof.
  intros Hwf Hs Hlock Hd Hvm Hst Hoff Hal Hlen Hfl Hlk Hsplit Hjoin. pose proof Hwf as [W1 W2 W3 W4].
  destruct (W4 sp s Hs) as (S & U & Hok). destruct (so_in _ _ _ _ _ Hok d Hd) as (v & p & Hv & Hsp & Hf & HS).
  assert (v = vm) as -> by congruence. pose proof (so_nodup _ _ _ _ _ Hok) as Hnd. set (n := blocks st).
  assert (Hbl : n ∉ mappings s).
  { intros Hin. destruct (so_in _ _ _ _ _ Hok _ Hin) as (u & r & Hu & _). specialize (W2 _ _ Hu). unfold n in W2. lia. }
  destruct (split_mapping_ok st sp s d vm off a b m) as (st1 & Hrun & [Wf1 El1 (s1 & x & y & Hs1 & Ex & Ey & Emin & Emax & Edep) Ev1] & Hm1); try done; [lia|].
  destruct (halves_fit vm off a b Hf Hst Hoff) as (F1 & F2 & L1 & L2). fold n in Ev1, Ey.
  assert (Hne : d <> n) by (intros ->; done).
  destruct (join_mappings_ok st1 sp s1 d n (lower_half vm off a) (upper_half vm off b) data m') as (st2 & Hrun2 & [Wf2 El2 (s2 & Hs2 & Em2 & _) Ev2] & Hm2).
  - done.
  - done.
  - lia.
  - rewrite Ey. set_solver.
  - rewrite Ey. set_solver.
  - done.
  - by rewrite Ev1, lookup_insert_ne, lookup_insert_eq.
  - by rewrite Ev1, lookup_insert_eq.
  - split; [unfold lower_half; simpl; by rewrite lor_stack|done|rewrite L1, L2; done].
  - simpl. rewrite has_bit, Z.lor_spec by done. by rewrite orb_true_r.
  - simpl. rewrite has_bit, Z.lor_spec by done. by rewrite orb_true_r.
  - rewrite Ey. rewrite Ex in Hlen. rewrite !length_app in *. simpl in *. lia.
  - by rewrite Hm1.
  - exists st1, st2, s2. do 2 (split; [done|]). split; [done|]. split; [by apply (elsewhere_trans sp st st1)|]. split; [done|]. split; [|split; [|done]].
    + rewrite Em2, Ey, Ex in *. change (x ++ d :: n :: y) with (x ++ [d] ++ n :: y). rewrite (assoc_L (++)), remove_from_ok; [by rewrite <- (assoc_L (++))|].
      rewrite <- Permutation_middle, <- (assoc_L (++)). by apply NoDup_cons.
    + rewrite Ev2, Ev1. apply map_eq. intros z. destruct (decide (z = n)) as [->|Hz].
      * rewrite lookup_delete_eq, lookup_insert_ne by done. symmetry. apply eq_None_not_Some. intros [u Hu]. specialize (W2 _ _ Hu). unfold n in W2. lia.
      * rewrite lookup_delete_ne by done. destruct (decide (z = d)) as [->|Hz2]; [|by rewrite !lookup_insert_ne].
        rewrite !lookup_insert_eq. unfold joined_mapping, with_data. simpl. rewrite linked_back by done. f_equal. f_equal; lia.
Qed.

End split.
