(* ===== verification/VmFree.v ===== *)
(** * kernel/mm/vmalloc.c: vmap_free

    vmap_free releases the mappings of a range, which starts and ends at
    mapping boundaries.  It undoes vmap_internal. *)

From S2P Require Import Prelude Mm Interval.
From stdpp Require Import list gmap sorting.
From S2P Require Import RbTree RbEvents RbInsert RbAdd RbDelete RbFix RbRemove IntvlTree IntvlOps IntvlRun Vmalloc VmSpace VmMap.
Local Open Scope Z_scope.

(** ** Following the list *)

Lemma after_in_mid d x y : (d ∉ x) -> after_in d (x ++ d :: y) = y.
Proof.
  induction x as [|z x IH]; intros Hd; simpl; [by rewrite Z.eqb_refl|].
  rewrite (proj2 (Z.eqb_neq z d)) by set_solver. apply IH. set_solver.
Qed.

Lemma next_in_mid d x y : (d ∉ x) -> next_in d (x ++ d :: y) = default 0 (head y).
Proof. intros Hd. unfold next_in. by rewrite after_in_mid. Qed.

(** What [remove_from] leaves when a whole segment goes. *)
Lemma remove_first d x l y : NoDup (x ++ (d :: l) ++ y) -> remove_from d (x ++ (d :: l) ++ y) = x ++ l ++ y.
Proof. intros H. by apply remove_from_ok. Qed.

Section free.
Context {M : Type} {B : vm_backend M}.
Implicit Types st : vm_state (M := M).

(** The mapping that has an address in its range is the one found there. *)
Lemma mapping_at st sp s S U d vm addr :
  spaces st !! sp = Some s -> space_ok st sp s S U -> 0 < lock_depth s -> d ∈ mappings s -> vms st !! d = Some vm ->
  vm_lo vm <= addr < vm_lo vm + vm_virt_size vm -> space_get_mapping st sp addr = Ret d.
Proof.
  intros Hs Hok Hlock Hd Hvm Ha. destruct (so_in _ _ _ _ _ Hok d Hd) as (v & p & Hv & _ & Hf & HS). assert (v = vm) as -> by congruence.
  pose proof Hf as (F1 & F2 & F3 & F4). pose proof (vm_fits_interval vm Hf) as E.
  destruct (get_mapping_ok st sp s S U addr Hs Hok Hlock) as (d' & Hrun & [(v' & Hd' & Hv' & Hc)|[_ Hno]]); [lia|..].
  - rewrite Hrun. f_equal. destruct (so_in _ _ _ _ _ Hok d' Hd') as (w & q & Hw & _ & Hf' & HS'). assert (w = v') as -> by congruence.
    destruct (decide (vm_lo vm = vm_lo v')) as [Elo|Hne]; [rewrite Elo in HS; congruence|].
    destruct (holds_apart _ _ _ _ _ _ _ _ _ _ _ (so_tree _ _ _ _ _ Hok) HS HS' Hne) as [Hap _].
    apply apart in Hap; [|by apply vm_fits_proper..]. rewrite E, (vm_fits_interval v' Hf') in *. unfold contains_point in Hc. simpl in *. zbool. lia.
  - specialize (Hno d vm Hd Hvm). rewrite E in Hno. unfold contains_point in Hno. simpl in Hno. zbool; lia.
Qed.

(** A mapped part, and the range around it. *)
Lemma mapped_part vm : vm_fits vm -> 0 < vm_size vm ->
  vm_lo vm <= vm_address vm /\ vm_address vm + vm_size vm <= vm_lo vm + vm_virt_size vm /\
  vm_real_interval vm = mk_intvl (vm_address vm) (vm_address vm + vm_size vm).
Proof.
  intros (F1 & F2 & F3 & F4) Hs. unfold vm_lo in *. split; [destruct (has_flag _ _); lia|].
  split; [destruct (has_flag _ _); lia|]. unfold vm_real_interval. f_equal. apply wrap_small. unfold fits. destruct (has_flag _ _); lia.
Qed.

(** No mapping of a segment is reserved. *)
Lemma any_reserved_ok st l0 x seg y stop fuel :
  NoDup l0 -> l0 = x ++ seg ++ y -> stop = default 0 (head y) -> (0 ∉ l0) -> (length seg < fuel)%nat ->
  (forall z, z ∈ seg -> exists v, vms st !! z = Some v /\ vm_ty v <> VM_TYPE_RSVD) ->
  any_reserved fuel st l0 (default 0 (head (seg ++ y))) stop = Ret false.
Proof.
  intros Hnd. revert x seg. induction fuel as [|fuel IH]; intros x seg El Estop H0 Hf Hseg; [lia|]. simpl.
  destruct seg as [|z seg].
  - simpl. by rewrite Estop, Z.eqb_refl.
  - simpl. assert (Hne : z <> stop).
    { intros ->. rewrite El in Hnd, H0. destruct y as [|w y]; simpl in Estop; subst; [set_solver|].
      apply NoDup_app in Hnd as (_ & _ & Hnd). simpl in Hnd. apply NoDup_cons in Hnd as [Hw _]. set_solver. }
    rewrite (proj2 (Z.eqb_neq _ _) Hne). destruct (Hseg z) as (v & Hv & Hty); [set_solver|]. unfold get_vm. rewrite Hv.
    cbn [mbind outcome_bind]. rewrite bool_decide_false by done.
    assert (next_in z l0 = default 0 (head (seg ++ y))) as ->.
    { rewrite El. simpl. apply next_in_mid. rewrite El in Hnd. apply NoDup_app in Hnd as (_ & Hd & _). intros Hz. apply (Hd z Hz). set_solver. }
    apply (IH (x ++ [z])); [by rewrite El, <- (assoc_L (++))|done|done|simpl in Hf; lia|]. intros u Hu. apply Hseg. set_solver.
Qed.

(** [st'] is [st] without the segment [seg] of the list of the space [sp]. *)
Record cleared st st' (sp : Z) (s : address_space_t) (x seg y : list Z) : Prop := mk_cleared {
  cl_wf : vm_wf st';
  cl_else : elsewhere sp st st';
  cl_space : exists s', spaces st' !! sp = Some s' /\ mappings s' = x ++ y /\
    min_addr s' = min_addr s /\ max_addr s' = max_addr s /\ lock_depth s' = lock_depth s;
  cl_vms : forall z, vms st' !! z = if decide (z ∈ seg) then None else vms st !! z;
}.

(** The mappings [seg] are not reserved, and releasing the memory behind them
    one after the other turns [m] into [m']. *)
Inductive releases (vs : gmap Z vm_mapping_t) : list Z -> M -> M -> Prop :=
| releases_nil m : releases vs [] m m
| releases_cons z v seg m m1 m' : vs !! z = Some v -> vm_ty v <> VM_TYPE_RSVD -> type_release v m = Ret m1 ->
    releases vs seg m1 m' -> releases vs (z :: seg) m m'.

Lemma releases_app vs a b m m' : releases vs (a ++ b) m m' <-> exists m1, releases vs a m m1 /\ releases vs b m1 m'.
Proof.
  revert m. induction a as [|z a IH]; intros m; simpl.
  - split; [intros H; exists m; split; [constructor|done]|]. intros (m1 & H & Hb). by inversion H; subst.
  - split.
    + intros H. inversion H as [|? v ? ? m1 ? Hz Hty Hr Hab]; subst. apply IH in Hab as (m2 & Ha & Hb). exists m2. split; [by econstructor|done].
    + intros (m1 & H & Hb). inversion H as [|? v ? ? m2 ? Hz Hty Hr Ha]; subst. econstructor; [done..|]. apply IH. by exists m1.
Qed.

Lemma releases_agree vs vs' seg m m' : (forall z, z ∈ seg -> vs' !! z = vs !! z) -> releases vs seg m m' -> releases vs' seg m m'.
Proof.
  intros Hag H. induction H as [|z v seg m m1 m' Hz Hty Hr _ IH]; [constructor|].
  econstructor; [rewrite Hag; [done|set_solver]|done|done|]. apply IH. intros u Hu. apply Hag. set_solver.
Qed.

Lemma releases_backed vs seg m m' z : releases vs seg m m' -> z ∈ seg -> exists v, vs !! z = Some v /\ vm_ty v <> VM_TYPE_RSVD.
Proof. induction 1 as [|z' v seg m m1 m' Hz Hty Hr _ IH]; [by intros ?%not_elem_of_nil|]. intros [->|Hz']%elem_of_cons; [by exists v|by apply IH]. Qed.

Lemma free_first st sp s d x l m' :
  vm_wf st -> spaces st !! sp = Some s -> 0 < lock_depth s -> mappings s = x ++ d :: l -> releases (vms st) [d] (mem st) m' ->
  2 * Z.of_nat (length (mappings s)) + 2 < 2 ^ 64 ->
  exists st', free_mapping st d = Ret st' /\ cleared st st' sp s x [d] l /\ mem st' = m'.
Proof.
  intros Hwf Hs Hlock El Hrel Hlen. inversion Hrel as [|? v ? ? m1 ? Hv Hty Hr Hnil]; subst. inversion Hnil; subst.
  destruct (wf_spaces _ Hwf sp s Hs) as (S & U & Hok).
  destruct (free_mapping_ok st sp s d v m') as (st' & Hrun & [Wf El' (s' & Hs' & Em & Hrest) Ev] & Hm'); try done.
  { rewrite El. set_solver. }
  exists st'. split; [done|]. split; [|done]. split; [done|done| |].
  - exists s'. split; [done|]. split; [|done]. rewrite Em, El. apply remove_from_ok. rewrite <- El. apply (so_nodup _ _ _ _ _ Hok).
  - intros z. rewrite Ev. destruct (decide (z ∈ [d])) as [->%list_elem_of_singleton|Hz]; [by rewrite lookup_delete_eq|].
    rewrite lookup_delete_ne; [done|set_solver].
Qed.

Lemma cleared_trans a b c sp s sb x u v y :
  spaces b !! sp = Some sb -> cleared a b sp s x u (v ++ y) -> cleared b c sp sb x v y -> cleared a c sp s x (u ++ v) y.
Proof.
  intros Hb [W1 E1 (s1 & Hs1 & M1 & A1 & B1 & C1) V1] [W2 E2 (s2 & Hs2 & M2 & A2 & B2 & C2) V2].
  assert (s1 = sb) as -> by congruence. split; [done|by apply (elsewhere_trans sp a b)|exists s2; split_and!; congruence|].
  intros z. rewrite V2, V1. destruct (decide (z ∈ v)), (decide (z ∈ u)), (decide (z ∈ u ++ v)); set_solver.
Qed.

(** The mappings from the first of a segment up to the mapping [e]. *)
Lemma free_up_to_ok l0 sp seg : forall fuel st s x0 x e y m',
  NoDup l0 -> l0 = x0 ++ seg ++ e :: y -> vm_wf st -> spaces st !! sp = Some s -> 0 < lock_depth s ->
  mappings s = x ++ seg ++ e :: y -> releases (vms st) seg (mem st) m' ->
  2 * Z.of_nat (length (mappings s)) + 2 < 2 ^ 64 -> (length seg < fuel)%nat ->
  exists st', free_up_to fuel st l0 (default 0 (head (seg ++ [e]))) e = Ret st' /\ cleared st st' sp s x seg (e :: y) /\ mem st' = m'.
Proof.
  induction seg as [|d seg IH]; intros fuel st s x0 x e y m' Hnd El0 Hwf Hs Hlock El Hb Hlen Hfuel; (destruct fuel as [|fuel]; [simpl in Hfuel; lia|]).
  - simpl. rewrite Z.eqb_refl. exists st. inversion Hb; subst. split; [done|]. split; [|done]. split; [done|apply elsewhere_refl|by exists s|].
    intros z. by destruct (decide (z ∈ [])) as [Hz%not_elem_of_nil|].
  - simpl. rewrite El0 in Hnd. apply NoDup_app in Hnd as HH. destruct HH as (_ & Hx & Hnd'). simpl in Hnd'. apply NoDup_cons in Hnd' as [Hd Hnd'].
    rewrite (proj2 (Z.eqb_neq d e)) by set_solver. change (d :: seg) with ([d] ++ seg) in Hb. apply releases_app in Hb as (m1 & Hb1 & Hb2).
    destruct (free_first st sp s d x (seg ++ e :: y) m1) as (st1 & Hrun & Hcl & Hm1); [done..|].
    rewrite Hrun. cbn [mbind outcome_bind]. pose proof Hcl as [W1 E1 (s1 & Hs1 & M1 & A1 & B1 & C1) V1].
    assert (next_in d l0 = default 0 (head (seg ++ [e]))) as ->.
    { rewrite El0. simpl. rewrite next_in_mid by (intros Hz; apply (Hx d Hz); set_solver). by destruct seg. }
    destruct (IH fuel st1 s1 (x0 ++ [d]) x e y m') as (st' & Hrun' & Hcl' & Hm').
    + by rewrite El0.
    + by rewrite El0, <- (assoc_L (++)).
    + done.
    + done.
    + lia.
    + done.
    + rewrite Hm1. apply (releases_agree (vms st)); [|done]. intros z Hz. rewrite V1, decide_False; [done|]. set_solver.
    + rewrite M1. rewrite El in Hlen. rewrite !length_app in *. simpl in *. lia.
    + simpl in Hfuel. lia.
    + exists st'. split; [done|]. split; [|done]. apply (cleared_trans st st1 st' sp s s1 x [d] seg (e :: y) Hs1 Hcl Hcl').
Qed.

Lemma cleared_unlock st st' sp s x seg y : spaces st !! sp = Some s ->
  cleared (put_space st sp (with_depth s (lock_depth s + 1))) st' sp (with_depth s (lock_depth s + 1)) x seg y ->
  exists st'', space_unlock st' sp = Ret st'' /\ cleared st st'' sp s x seg y /\ mem st'' = mem st'.
Proof.
  intros Hs [Wf [E1 E2 E3 E4 E5] (s' & Hs' & Hm & Hmin & Hmax & Hdep) Hv]. unfold space_unlock, get_space. rewrite Hs'. simpl.
  eexists. split; [done|]. split; [|done]. split; try done.
  - by apply wf_depth.
  - split; try done. intros z Hz. simpl. rewrite lookup_insert_ne by done. rewrite E3 by done. simpl. by rewrite lookup_insert_ne.
  - eexists. simpl. rewrite lookup_insert_eq. split; [done|]. simpl in *. split_and!; try done. lia.
Qed.

(** The loops of vmap_free, for a segment that ends with the mapping [e]. *)
Lemma segment_free st sp s x seg e y m' :
  vm_wf st -> spaces st !! sp = Some s -> 0 < lock_depth s -> mappings s = x ++ seg ++ e :: y ->
  releases (vms st) (seg ++ [e]) (mem st) m' -> 2 * Z.of_nat (length (mappings s)) + 2 < 2 ^ 64 ->
  let l := mappings s in
  let d := default 0 (head (seg ++ [e])) in
  exists st', any_reserved (S (length l)) st l d (next_in e l) = Ret false /\
    exists st1, free_up_to (S (length l)) st l d e = Ret st1 /\ free_mapping st1 e = Ret st' /\
      cleared st st' sp s x (seg ++ [e]) y /\ mem st' = m'.
Proof.
  intros Hwf Hs Hlock El Hb Hlen l d. destruct (wf_spaces _ Hwf sp s Hs) as (S & U & Hok). pose proof (so_nodup _ _ _ _ _ Hok) as Hnd.
  assert (H0 : 0 ∉ mappings s).
  { intros Hin. destruct (so_in _ _ _ _ _ Hok 0 Hin) as (v & _ & Hv & _). pose proof (wf_vms _ Hwf _ _ Hv). lia. }
  pose proof Hb as (m1 & Hb1 & Hb2)%releases_app.
  destruct (free_up_to_ok l sp seg (Datatypes.S (length l)) st s x x e y m1) as (st1 & Hrun & Hcl & Hm1); try done.
  { unfold l. rewrite El, !length_app. simpl. lia. }
  pose proof Hcl as [W1 E1 (s1 & Hs1 & M1 & A1 & B1 & C1) V1].
  destruct (free_first st1 sp s1 e x y m') as (st' & Hrun' & Hcl' & Hm'); try done.
  { lia. }
  { rewrite Hm1. apply (releases_agree (vms st)); [|done]. intros z ->%list_elem_of_singleton. rewrite V1, decide_False; [done|].
    rewrite El in Hnd. apply NoDup_app in Hnd as (_ & _ & Hnd). apply NoDup_app in Hnd as (_ & Hd & _). intros Hz. apply (Hd e Hz). set_solver. }
  { rewrite M1. rewrite El in Hlen. rewrite !length_app in *. simpl in *. lia. }
  exists st'. split.
  - assert (d = default 0 (head ((seg ++ [e]) ++ y))) as -> by (unfold d; by destruct seg).
    apply (any_reserved_ok st l x (seg ++ [e]) y); try done.
    + unfold l. by rewrite El, <- !(assoc_L (++)).
    + unfold l. rewrite El, (assoc_L (++)). apply next_in_mid. rewrite El, (assoc_L (++)) in Hnd. apply NoDup_app in Hnd as (_ & Hd & _).
      intros Hz. apply (Hd e Hz). set_solver.
    + unfold l. rewrite El, !length_app. simpl. lia.
    + intros z Hz. by apply (releases_backed _ _ _ _ _ Hb).
  - exists st1. split; [done|]. split; [done|]. split; [|done]. by apply (cleared_trans st st1 st' sp s s1 x seg [e] y).
Qed.

(** vmap_free of the mappings from [d] to [e]. *)
Lemma vmap_free_ok st vaddr size s x seg e y d vd ve m' :
  let sp := select_space st (curspace st) vaddr in
  vm_wf st -> spaces st !! sp = Some s -> 0 <= lock_depth s -> mappings s = x ++ seg ++ e :: y ->
  d = default 0 (head (seg ++ [e])) -> vms st !! d = Some vd -> vms st !! e = Some ve -> vaddr = vm_address vd ->
  vaddr + size = vm_address ve + vm_size ve -> 0 < vm_size vd -> 0 < vm_size ve -> 0 < size ->
  is_valid_range vaddr size = true -> is_aligned size PAGE_SIZE = true -> releases (vms st) (seg ++ [e]) (mem st) m' ->
  2 * Z.of_nat (length (mappings s)) + 2 < 2 ^ 64 ->
  exists st', vmap_free st vaddr size = Ret (None, st') /\ cleared st st' sp s x (seg ++ [e]) y /\ mem st' = m'.
Proof.
  intros sp Hwf Hs Hdep El Ed Hvd Hve Ea Ez Hsd Hse Hsz Hrange Hal Hb Hlen. destruct (wf_spaces _ Hwf sp s Hs) as (S & U & Hok).
  pose proof (so_nodup _ _ _ _ _ Hok) as Hnd. assert (Hde : (d ∈ mappings s) /\ (e ∈ mappings s)).
  { rewrite El, Ed. destruct seg; set_solver. }
  destruct Hde as [Hd He]. assert (H0 : 0 ∉ mappings s).
  { intros Hin. destruct (so_in _ _ _ _ _ Hok 0 Hin) as (v & _ & Hv & _). pose proof (wf_vms _ Hwf _ _ Hv). lia. }
  assert (d <> 0 /\ e <> 0) as [Hd0 He0] by (split; congruence).
  destruct (so_in _ _ _ _ _ Hok d Hd) as (v & _ & Hv & _ & Hfd & _). assert (v = vd) as -> by congruence.
  destruct (so_in _ _ _ _ _ Hok e He) as (v & _ & Hv' & _ & Hfe & _). assert (v = ve) as -> by congruence.
  destruct (mapped_part vd Hfd Hsd) as (A1 & A2 & A3), (mapped_part ve Hfe Hse) as (B1 & B2 & B3).
  pose proof Hfd as (D1 & D2 & D3 & D4). pose proof Hfe as (E1 & E2 & E3 & E4).
  destruct (lock_unlock st sp s Hs) as [HL _]. set (s1 := with_depth s (lock_depth s + 1)) in *. set (st1 := put_space st sp s1) in *.
  assert (Hs1 : spaces st1 !! sp = Some s1) by (simpl; apply lookup_insert_eq). assert (Hl1 : 0 < lock_depth s1) by (simpl; lia).
  assert (Hok1 : space_ok st1 sp s1 S U) by (by apply space_ok_depth, (space_ok_same st)).
  unfold vmap_free. rewrite Hrange, Hal. cbn [negb orb]. fold sp. rewrite HL. cbn [mbind outcome_bind].
  rewrite (mapping_at st1 sp s1 S U d vd vaddr) by (done || lia). cbn [mbind outcome_bind].
  rewrite (wrap_small 64 (vaddr + size - 1)), (wrap_small 64 (vaddr + size)) by (unfold fits; lia).
  rewrite (mapping_at st1 sp s1 S U e ve (vaddr + size - 1)) by (done || lia). cbn [mbind outcome_bind].
  rewrite (proj2 (Z.eqb_neq _ _) Hd0), (proj2 (Z.eqb_neq _ _) He0). cbn [orb]. unfold get_vm. change (vms st1) with (vms st).
  rewrite Hvd, Hve. cbn [mbind outcome_bind]. rewrite A3, B3. cbn [start end_]. rewrite (proj2 (Z.ltb_ge _ _)), (proj2 (Z.ltb_ge _ _)) by lia.
  cbn [orb]. unfold intvl_eq. cbn [start end_]. rewrite <- Ez, <- Ea, !Z.eqb_refl. cbn [andb negb].
  rewrite (get_space_at st1 sp s1 Hs1). cbn [mbind outcome_bind].
  destruct (segment_free st1 sp s1 x seg e y m') as (st2 & Hres & st3 & Hup & Hlast & Hcl & Hm2); try done.
  { by apply wf_depth. }
  rewrite Ed, Hres. cbn [mbind outcome_bind]. rewrite Hup. cbn [mbind outcome_bind]. rewrite Hlast. cbn [mbind outcome_bind].
  destruct (cleared_unlock st st2 sp s x (seg ++ [e]) y Hs Hcl) as (st' & Hun & Hcl' & Hm3).
  rewrite Hun. exists st'. split; [done|]. split; [done|congruence].
Qed.

(** vfree of the start of a mapping made by vmalloc. *)
Lemma vfree_ok st ptr s x d y vm m' :
  let sp := select_space st (curspace st) ptr in
  vm_wf st -> spaces st !! sp = Some s -> 0 <= lock_depth s -> mappings s = x ++ d :: y -> vms st !! d = Some vm ->
  ptr <> 0 -> is_valid_pointer ptr = true -> ptr = vm_address vm -> 0 < vm_size vm ->
  (vm_ty vm = VM_TYPE_PAGE \/ vm_ty vm = VM_TYPE_FILE) -> has_flag (vm_flags vm) VM_MALLOC = true ->
  2 * Z.of_nat (length (mappings s)) + 2 < 2 ^ 64 -> type_release vm (mem st) = Ret m' ->
  exists st', vfree st ptr = Ret st' /\ cleared st st' sp s x [d] y /\ mem st' = m'.
Proof.
  intros sp Hwf Hs Hdep El Hvm Hp0 Hpv Hpa Hsz Hty Hmal Hlen Hrel. destruct (wf_spaces _ Hwf sp s Hs) as (S & U & Hok).
  assert (Hd : d ∈ mappings s) by (rewrite El; set_solver). pose proof (wf_vms _ Hwf _ _ Hvm) as Hd0.
  destruct (so_in _ _ _ _ _ Hok d Hd) as (v & _ & Hv & _ & Hf & _). assert (v = vm) as -> by congruence.
  destruct (mapped_part vm Hf Hsz) as (A1 & A2 & _). destruct (lock_unlock st sp s Hs) as [HL _].
  set (s1 := with_depth s (lock_depth s + 1)) in *. set (st1 := put_space st sp s1) in *.
  assert (Hs1 : spaces st1 !! sp = Some s1) by (simpl; apply lookup_insert_eq). assert (Hl1 : 0 < lock_depth s1) by (simpl; lia).
  assert (Hok1 : space_ok st1 sp s1 S U) by (by apply space_ok_depth, (space_ok_same st)).
  unfold vfree. rewrite (proj2 (Z.eqb_neq _ 0) Hp0), Hpv. cbn [orb negb]. fold sp. rewrite HL. cbn [mbind outcome_bind].
  rewrite (mapping_at st1 sp s1 S U d vm ptr) by (done || lia). cbn [mbind outcome_bind]. rewrite (proj2 (Z.eqb_neq d 0)) by lia.
  unfold get_vm. change (vms st1) with (vms st). rewrite Hvm. cbn [mbind outcome_bind]. rewrite Hmal, andb_true_r.
  assert (bool_decide (vm_ty vm = VM_TYPE_PAGE) || bool_decide (vm_ty vm = VM_TYPE_FILE) = true) as ->.
  { destruct Hty as [-> | ->]; [done|]. by rewrite orb_true_r. }
  cbn [negb]. rewrite <- Hpa, Z.eqb_refl. cbn [negb].
  destruct (free_first st1 sp s1 d x y m') as (st2 & Hrun & Hcl & Hm); try done.
  { by apply wf_depth. }
  { econstructor; [done|destruct Hty as [-> | ->]; done|done|constructor]. }
  rewrite Hrun. cbn [mbind outcome_bind]. destruct (cleared_unlock st st2 sp s x [d] y Hs Hcl) as (st' & Hun & Hcl' & Hm').
  rewrite Hun. exists st'. split; [done|]. split; [done|congruence].
Qed.

End free.
