(* ===== verification/VmFile.v ===== *)
(** * kernel/mm/file.c: files that are mapped into memory

    A mapped file is a window of a page cache (PgCache) that takes pages from
    the frame allocator (FrameAlloc), or from a vnode, when they are missing.
    The state is the machine of PgTable with the frame allocator as its source
    of frames, and the files and caches of the heap. *)

From stdpp Require Import list gmap.
From S2P Require Import Prelude Mm FrameAlloc PgCache PgVisit PgTable PgFrames.
Local Open Scope Z_scope.

(** ** State *)

(** A file; [f_vnode] and [f_pgcache] are pointers, and a file without a vnode
    is anonymous. *)
Record vm_file_t := mk_file {
  f_size : Z;
  f_off : Z;
  f_pg_size : Z;
  f_vnode : Z;
  f_pgcache : Z;
}.

(** [k_next] is the next block of the heap, [k_tables] the list of table pages
    of each address space. *)
Record kmem := mk_kmem {
  k_mach : mach pm_state;
  k_files : gmap Z vm_file_t;
  k_caches : gmap Z pgcache;
  k_next : Z;
  k_tables : gmap Z (list Z);
}.

Definition k_frames (m : kmem) : pm_state := m_src (k_mach m).
Definition with_mach (m : kmem) (s : mach pm_state) : kmem := mk_kmem s (k_files m) (k_caches m) (k_next m) (k_tables m).
Definition with_frames (m : kmem) (f : pm_state) : kmem :=
  with_mach m (mk_mach (m_mem (k_mach m)) (m_cr3 (k_mach m)) (m_cpu (k_mach m)) f).
Definition with_files (m : kmem) (fs : gmap Z vm_file_t) : kmem := mk_kmem (k_mach m) fs (k_caches m) (k_next m) (k_tables m).
Definition with_caches (m : kmem) (cs : gmap Z pgcache) : kmem := mk_kmem (k_mach m) (k_files m) cs (k_next m) (k_tables m).
Definition with_k_next (m : kmem) (n : Z) : kmem := mk_kmem (k_mach m) (k_files m) (k_caches m) n (k_tables m).

Definition get_file (m : kmem) (f : Z) : outcome vm_file_t :=
  match k_files m !! f with Some x => Ret x | None => Fault end.
Definition get_cache (m : kmem) (c : Z) : outcome pgcache :=
  match k_caches m !! c with Some x => Ret x | None => Fault end.

(** Page structs as pointers: 0 is NULL. *)
Definition page_ptr (p : option nat) : Z := match p with None => 0 | Some n => Z.of_nat n + 1 end.
Definition ptr_page (z : Z) : option nat := if z =? 0 then None else Some (Z.to_nat (z - 1)).

Definition get_ref (m : kmem) (p : option nat) : outcome kmem :=
  match p with None => Ret m | Some n => s ← upd_page (k_frames m) n add_ref; Ret (with_frames m s) end.
Definition put_pages (m : kmem) (p : option nat) : outcome kmem := s ← drop_pages (k_frames m) p; Ret (with_frames m s).
Fixpoint put_all (m : kmem) (l : list Z) : outcome kmem :=
  match l with [] => Ret m | p :: l => m ← put_pages m (ptr_page p); put_all m l end.

Definition cache_ref (m : kmem) (c : Z) : outcome kmem :=
  if c =? 0 then Ret m
  else
    x ← get_cache m c;
    Ret (with_caches m (<[c := mk_pgcache (order x) (bits_per_lvl x) (pg_size x) (max_capacity x) (refcount x + 1) (root x) (leaf_nodes x)]> (k_caches m))).

(** ** Vnodes *)

(** What mapped files need of vnodes, which are pointers here: the page of a
    file at an offset, a lock that fails on a dead vnode, the page cache, and
    the reference count. *)
Class vnode_ops := {
  vn_getpage : Z -> Z -> kmem -> outcome (option nat * kmem);
  vn_lock : Z -> kmem -> outcome bool;
  vn_get_pgcache : Z -> kmem -> outcome Z;
  vn_getref : Z -> kmem -> outcome kmem;
  vn_release : Z -> kmem -> outcome kmem;
}.

Section files.
Context {V : vnode_ops}.

(** ** Operations *)

(** The block of a new file. *)
Definition new_file (m : kmem) (f : vm_file_t) : Z * kmem :=
  (k_next m, with_k_next (with_files m (<[k_next m := f]> (k_files m))) (k_next m + 1)).

Definition vm_file_alloc_vnode (vn off size : Z) (m : kmem) : outcome (Z * kmem) :=
  kassert (negb (vn =? 0));;
  alive ← vn_lock vn m;
  if negb alive then Panic
  else c ← vn_get_pgcache vn m; Ret (new_file m (mk_file size off PAGE_SIZE vn c)).

Definition vm_file_alloc_anon (size pg_sz : Z) (m : kmem) : outcome (Z * kmem) :=
  ord ← pgcache_size_to_order size pg_sz;
  c ← pgcache_alloc (u16 ord) (u32 pg_sz);
  let '(f, m) := new_file m (mk_file size 0 pg_sz 0 (k_next m + 1)) in
  Ret (f, with_k_next (with_caches m (<[k_next m := c]> (k_caches m))) (k_next m + 1)).

Definition vm_file_fork (f : Z) (m : kmem) : outcome (Z * kmem) :=
  x ← get_file m f;
  m ← (if f_vnode x =? 0 then Ret m else vn_getref (f_vnode x) m);
  m ← cache_ref m (f_pgcache x);
  Ret (new_file m x).

(** The struct of the file is never given back. *)
Definition vm_file_free (f : Z) (m : kmem) : outcome kmem :=
  x ← get_file m f;
  if negb (f_vnode x =? 0) then
    m ← vn_release (f_vnode x) m;
    Ret (with_files m (<[f := mk_file (f_size x) (f_off x) (f_pg_size x) 0 0]> (k_files m)))
  else
    let m := with_files m (<[f := mk_file (f_size x) (f_off x) (f_pg_size x) 0 0]> (k_files m)) in
    if f_pgcache x =? 0 then Ret m
    else
      c ← get_cache m (f_pgcache x);
      '(c', _, m) ← pgcache_free c (fun p m => put_pages m (ptr_page p)) m;
      Ret (with_caches m (match c' with
                          | None => delete (f_pgcache x) (k_caches m)
                          | Some c' => <[f_pgcache x := c']> (k_caches m)
                          end)).

(** The page that the file's callback gives for an offset. *)
Definition missing_page (x : vm_file_t) (off : Z) (m : kmem) : outcome (option nat * kmem) :=
  if f_vnode x =? 0 then '(p, s) ← alloc_pages_size (k_frames m) 1 (f_pg_size x); Ret (p, with_frames m s)
  else vn_getpage (f_vnode x) off m.

Definition vm_file_getpage (f off : Z) (m : kmem) : outcome (option nat * kmem) :=
  x ← get_file m f;
  if f_size x <=? off then Ret (None, m)
  else
    let off := u64 (off + f_off x) in
    c ← get_cache m (f_pgcache x);
    hit ← pgcache_lookup c off;
    match hit with
    | Some p => m ← get_ref m (ptr_page p); Ret (ptr_page p, m)
    | None =>
        '(p, m) ← missing_page x off m;
        match p with
        | None => Ret (None, m)
        | Some n =>
            m ← get_ref m (Some n);
            c ← get_cache m (f_pgcache x);
            '(c, _, dropped) ← pgcache_insert c off (page_ptr (Some n)) false;
            m ← put_all (with_caches m (<[f_pgcache x := c]> (k_caches m))) dropped;
            Ret (Some n, m)
        end
    end.

Definition vm_file_getpage_phys (f off : Z) (m : kmem) : outcome (Z * kmem) :=
  '(p, m) ← vm_file_getpage f off m;
  match p with
  | None => Panic
  | Some n => pg ← get_page (k_frames m) n; m ← put_pages m p; Ret (pg_address pg, m)
  end.

Definition vm_file_visit_pages {A} (f start_off end_off : Z) (fn : Z -> Z -> A -> outcome A) (m : kmem) (a : A) : outcome A :=
  x ← get_file m f; c ← get_cache m (f_pgcache x); pgcache_visit_pages c start_off end_off fn a.

(** The file with the part from [off] on, or 0. *)
Definition vm_file_split (f off : Z) (m : kmem) : outcome (Z * kmem) :=
  x ← get_file m f;
  kassert (off mod f_pg_size x =? 0);;
  if f_size x <=? off then Ret (0, m)
  else
    m ← (if f_vnode x =? 0 then Ret m else vn_getref (f_vnode x) m);
    m ← cache_ref m (f_pgcache x);
    let '(n, m) := new_file m (mk_file (f_size x - off) (u64 (f_off x + off)) (f_pg_size x) (f_vnode x) (f_pgcache x)) in
    Ret (n, with_files m (<[f := mk_file off (f_off x) (f_pg_size x) (f_vnode x) (f_pgcache x)]> (k_files m))).

Definition vm_file_merge (f other : Z) (m : kmem) : outcome kmem :=
  x ← get_file m f;
  o ← get_file m other;
  kassert (f_pg_size x =? f_pg_size o);;
  kassert (f_vnode x =? f_vnode o);;
  kassert (f_pgcache x =? f_pgcache o);;
  vm_file_free other (with_files m (<[f := mk_file (u64 (f_size x + f_size o)) (f_off x) (f_pg_size x) (f_vnode x) (f_pgcache x)]> (k_files m))).

End files.

(** ** Anonymous files *)

Lemma size_to_order_ok fuel total j : total <= 2 ^ 36 -> 0 <= j <= 6 -> 6 - j < Z.of_nat fuel ->
  exists ord, size_to_order fuel total (4096 * 16 ^ j) j = Ret ord /\ 0 <= ord <= 6 /\ total <= 4096 * 16 ^ ord.
Proof.
  intros Ht. revert j. induction fuel as [|fuel IH]; intros j Hj Hf; [lia|]. simpl.
  assert (Hp : 1 <= 16 ^ j <= 16 ^ 6) by (split; [change 1 with (16 ^ 0)|]; apply Z.pow_le_mono_r; lia).
  destruct (Z.ltb_spec (4096 * 16 ^ j) total) as [Hlt|Hge]; [|by exists j].
  assert (j <> 6) by (intros ->; lia). rewrite (wrap_small 64) by (unfold fits; change (16 ^ 6) with 16777216 in Hp; lia).
  replace (4096 * 16 ^ j * 16) with (4096 * 16 ^ (j + 1)) by (rewrite Z.pow_add_r by lia; lia). apply IH; lia.
Qed.

(** The cache of a new file of at most 64 GB. *)
Lemma anon_cache size : 0 < size <= 2 ^ 36 ->
  exists ord c, pgcache_size_to_order size PAGE_SIZE = Ret ord /\ pgcache_alloc (u16 ord) (u32 PAGE_SIZE) = Ret c /\
    wf c /\ order c <= 6 /\ root c = zero_node /\ refcount c = 1 /\ size <= max_capacity c.
Proof.
  intros Hs. unfold pgcache_size_to_order.
  destruct (size_to_order_ok 17 size 0) as (ord & Hrun & Ho & Hc); [lia..|]. change (4096 * 16 ^ 0) with PAGE_SIZE in Hrun. rewrite Hrun.
  exists ord. exists (mk_pgcache ord 4 4096 (16 ^ (ord + 1) * 4096) 1 zero_node (if ord =? 0 then [[]] else [])). split; [done|].
  assert (Hp : 1 <= 16 ^ (ord + 1) <= 16 ^ 7) by (split; [change 1 with (16 ^ 0)|]; apply Z.pow_le_mono_r; lia).
  change (16 ^ 7) with 268435456 in Hp. split.
  - unfold pgcache_alloc. rewrite (wrap_small 16 ord) by (unfold fits; lia). change (log2 16) with (Ret 4). cbn [mbind outcome_bind].
    unfold shl. rewrite (proj2 (Z.leb_le 0 _)), (proj2 (Z.ltb_lt _ 64)) by lia. cbn [andb mbind outcome_bind].
    rewrite Z.shiftl_1_l. replace ((ord + 1) * 4) with (4 * (ord + 1)) by lia. rewrite Z.pow_mul_r by lia. change (2 ^ 4) with 16.
    change (u32 PAGE_SIZE) with 4096.
    rewrite (wrap_small 64 (16 ^ (ord + 1))), (wrap_small 64 (16 ^ (ord + 1) * 4096)) by (unfold fits; lia). done.
  - split; [|simpl; split; [lia|]; split; [done|]; split; [done|]; rewrite Z.pow_add_r by lia; lia].
    split; cbn [order bits_per_lvl pg_size max_capacity root]; [lia|done|by exists 12|done|apply zero_node_wf].
Qed.

(** A file whose cache has no pages yet. *)
Definition blank_file (m : kmem) (f q : Z) (x : vm_file_t) (c : pgcache) : Prop :=
  k_files m !! f = Some x /\ f_pgcache x = q /\ f_vnode x = 0 /\ k_caches m !! q = Some c /\
  wf c /\ order c <= 6 /\ root c = zero_node /\ refcount c = 1.

(** ** Properties *)

Section properties.
Context {V : vnode_ops}.

Lemma blank_free m f q x c : blank_file m f q x c -> q <> 0 ->
  vm_file_free f m = Ret (with_caches (with_files m (<[f := mk_file (f_size x) (f_off x) (f_pg_size x) 0 0]> (k_files m)))
    (delete q (k_caches m))).
Proof.
  intros (Hf & Hq & Hv & Hc & Hwf & Ho & Hr & Href) Hq0. unfold vm_file_free, get_file. rewrite Hf. cbn [mbind outcome_bind]. rewrite Hv, Hq.
  cbn [Z.eqb negb]. rewrite (proj2 (Z.eqb_neq q 0) Hq0). unfold get_cache. simpl k_caches. rewrite Hc. cbn [mbind outcome_bind].
  unfold pgcache_free. rewrite Href. cbn [Z.eqb]. rewrite Hr.
  match goal with |- context [internal_visit_pages_iter ?c' _ _ _ _ _ ?fn ?a] =>
    destruct (visit_zero c' 0 (max_capacity c) true fn a) as (fr & Hz) end.
  - destruct Hwf. split; simpl; try done. apply zero_node_wf.
  - done.
  - done.
  - unfold mbind in Hz |- *. rewrite Hz. done.
Qed.

(** *** The halves of a file *)

Definition more_ref (c : pgcache) : pgcache :=
  mk_pgcache (order c) (bits_per_lvl c) (pg_size c) (max_capacity c) (refcount c + 1) (root c) (leaf_nodes c).

Lemma leaf_more_ref {R} ins (act : node -> Z -> outcome (node * R)) c off :
  internal_lookup_leaf ins act (more_ref c) off = x ← internal_lookup_leaf ins act c off; Ret (match x with Some (c, r) => Some (more_ref c, r) | None => None end).
Proof.
  unfold internal_lookup_leaf. cbn [more_ref max_capacity pg_size bits_per_lvl order root]. destruct (kassert (off <? max_capacity c)); cbn [mbind outcome_bind]; [|done..].
  destruct (log2 (pg_size c)) as [sh| | |]; cbn [mbind outcome_bind]; [|done..]. by destruct (walk _ _ _ _ _ _ _) as [[[[n l] r]|]| | |].
Qed.

Lemma lookup_more_ref c off : pgcache_lookup (more_ref c) off = pgcache_lookup c off.
Proof.
  unfold pgcache_lookup. cbn [more_ref max_capacity]. destruct (max_capacity c <=? off); [done|]. rewrite leaf_more_ref.
  by destruct (internal_lookup_leaf false act_get c off) as [[[c' r]|]| | |].
Qed.

Lemma insert_more_ref c off p w :
  pgcache_insert (more_ref c) off p w = '(c, old, dropped) ← pgcache_insert c off p w; Ret (more_ref c, old, dropped).
Proof.
  unfold pgcache_insert. cbn [more_ref max_capacity]. destruct (max_capacity c <=? off); [done|]. rewrite leaf_more_ref.
  destruct (internal_lookup_leaf true (act_put p) c off) as [[[c' r]|]| | |]; [by destruct w|done..].
Qed.

(** The memory after [f], which is [x], was split at [off]. *)
Definition lower_file (x : vm_file_t) (off : Z) : vm_file_t := mk_file off (f_off x) (f_pg_size x) (f_vnode x) (f_pgcache x).
Definition upper_file (x : vm_file_t) (off : Z) : vm_file_t :=
  mk_file (f_size x - off) (u64 (f_off x + off)) (f_pg_size x) (f_vnode x) (f_pgcache x).
Definition split_state (f off : Z) (x : vm_file_t) (m : kmem) : kmem :=
  mk_kmem (k_mach m) (<[f := lower_file x off]> (<[k_next m := upper_file x off]> (k_files m)))
    (alter more_ref (f_pgcache x) (k_caches m)) (k_next m + 1) (k_tables m).

Section halves.
Context (f off : Z) (x : vm_file_t).
Abbreviation halves := (split_state f off x).

Lemma halves_frames m s : with_frames (halves m) s = halves (with_frames m s).
Proof. done. Qed.

Lemma halves_ref m p : get_ref (halves m) p = m ← get_ref m p; Ret (halves m).
Proof. destruct p as [n|]; [|done]. simpl. change (k_frames (halves m)) with (k_frames m). by destruct (upd_page (k_frames m) n add_ref). Qed.

Lemma halves_put m l : put_all (halves m) l = m ← put_all m l; Ret (halves m).
Proof.
  revert m. induction l as [|p l IH]; intros m; [done|]. simpl. unfold put_pages. change (k_frames (halves m)) with (k_frames m).
  destruct (drop_pages (k_frames m) (ptr_page p)) as [s| | |]; simpl; [apply (IH (with_frames m s))|done..].
Qed.

Lemma halves_cache m c :
  with_caches (halves m) (<[f_pgcache x := more_ref c]> (k_caches (halves m))) = halves (with_caches m (<[f_pgcache x := c]> (k_caches m))).
Proof.
  unfold split_state, with_caches. simpl. f_equal. apply map_eq. intros z. destruct (decide (z = f_pgcache x)) as [->|Hz].
  - by rewrite lookup_insert_eq, lookup_alter_eq, lookup_insert_eq.
  - by rewrite lookup_insert_ne, !lookup_alter_ne, lookup_insert_ne by done.
Qed.

(** A file [y] of the split memory that sees the page at [o] that [f] saw at [o']. *)
Lemma halves_getpage m g y o o' :
  k_files m !! f = Some x -> f_vnode x = 0 -> k_files (halves m) !! g = Some y ->
  f_vnode y = 0 -> f_pgcache y = f_pgcache x -> f_pg_size y = f_pg_size x ->
  (f_size y <=? o) = (f_size x <=? o') -> u64 (o + f_off y) = u64 (o' + f_off x) ->
  vm_file_getpage g o (halves m) = '(p, m) ← vm_file_getpage f o' m; Ret (p, halves m).
Proof.
  intros Hf Hv Hg Hvy Hq Hp Hs Ho. unfold vm_file_getpage, get_file. rewrite Hf, Hg. cbn [mbind outcome_bind]. rewrite Hs. destruct (f_size x <=? o'); [done|].
  rewrite Ho, Hq. unfold get_cache. simpl k_caches. rewrite lookup_alter_eq. destruct (k_caches m !! f_pgcache x) as [c|] eqn:Ec; [|done]. cbn [fmap option_fmap option_map mbind outcome_bind]. rewrite lookup_more_ref.
  destruct (pgcache_lookup c _) as [[hit|]| | |]; cbn [mbind outcome_bind]; [| |done..].
  - rewrite halves_ref. by destruct (get_ref m (ptr_page hit)).
  - unfold missing_page. rewrite Hv, Hvy, Hp. cbn [Z.eqb]. change (k_frames (halves m)) with (k_frames m).
    destruct (alloc_pages_size (k_frames m) 1 (f_pg_size x)) as [[[n|] fr]| | |]; cbn [mbind outcome_bind]; [|done..]. rewrite halves_frames, halves_ref.
    assert (Hk : forall m', get_ref (with_frames m fr) (Some n) = Ret m' -> k_caches m' = k_caches m).
    { unfold get_ref. intros m' H. by destruct (upd_page _ _ _); inversion H. }
    destruct (get_ref (with_frames m fr) (Some n)) as [m'| | |]; cbn [mbind outcome_bind]; [|done..]. specialize (Hk m' eq_refl).
    simpl k_caches. rewrite lookup_alter_eq, Hk, Ec. simpl. rewrite insert_more_ref. destruct (pgcache_insert c _ _ _) as [[[c' old] dropped]| | |]; simpl; [|done..].
    pose proof (halves_cache m' c') as Hc. simpl k_caches in Hc. rewrite Hk in Hc. rewrite Hc, halves_put. by destruct (put_all _ dropped).
Qed.

Lemma halves_visit {A} m g y start_off end_off (fn : Z -> Z -> A -> outcome A) a :
  k_files m !! f = Some x -> k_files (halves m) !! g = Some y -> f_pgcache y = f_pgcache x ->
  vm_file_visit_pages g start_off end_off fn (halves m) a = vm_file_visit_pages f start_off end_off fn m a.
Proof.
  intros Hf Hg Hq. unfold vm_file_visit_pages, get_file. rewrite Hf, Hg. cbn [mbind outcome_bind]. unfold get_cache. rewrite Hq. simpl k_caches. rewrite lookup_alter_eq.
  by destruct (k_caches m !! f_pgcache x).
Qed.
End halves.

(** C23. Splitting an anonymous file at an offset inside it that is a multiple
    of its page size gives two files that see its pages, and merging them gives
    the file back.  Asking the lower half for a page below the offset, or the
    upper half for a page, is asking the whole file for the page there: the
    same page comes back, from the cache or newly allocated, and the memory
    after it is that of the whole file, split; the lower half has no page from
    the offset on.  After the merge the file, the cache with its reference
    count, the page tables and the frames are as before; the block of the
    second file stays allocated. *)
Theorem file_split_merge (m : kmem) (f off : Z) (x : vm_file_t) (c : pgcache)
    (Hfile : k_files m !! f = Some x) (Hanon : f_vnode x = 0) (Hcache : k_caches m !! f_pgcache x = Some c)
    (Hptr : f_pgcache x <> 0) (Hrefs : 1 <= refcount c) (Hfresh : f < k_next m) (Hsize : f_size x < 2 ^ 64)
    (Hoff : 0 <= off < f_size x) (Hal : off mod f_pg_size x = 0) :
  let n := k_next m in
  let m1 := split_state f off x m in
  vm_file_split f off m = Ret (n, m1) /\
  (forall o, 0 <= o < off -> vm_file_getpage f o m1 = '(p, m') ← vm_file_getpage f o m; Ret (p, split_state f off x m')) /\
  (forall o, off <= o -> vm_file_getpage f o m1 = Ret (None, m1)) /\
  (forall o, 0 <= o -> vm_file_getpage n o m1 = '(p, m') ← vm_file_getpage f (off + o) m; Ret (p, split_state f off x m')) /\
  exists m2, vm_file_merge f n m1 = Ret m2 /\
    k_files m2 = <[n := mk_file (f_size x - off) (u64 (f_off x + off)) (f_pg_size x) 0 0]> (k_files m) /\
    k_caches m2 = k_caches m /\ k_mach m2 = k_mach m.
Proof.
  intros n m1. assert (Hnf : n <> f) by (unfold n; lia).
  assert (F1 : k_files m1 !! f = Some (lower_file x off)) by (simpl; by rewrite lookup_insert_eq).
  assert (F2 : k_files m1 !! n = Some (upper_file x off)) by (simpl; by rewrite lookup_insert_ne, lookup_insert_eq by done).
  assert (C1 : k_caches m1 !! f_pgcache x = Some (more_ref c)) by (simpl; by rewrite lookup_alter_eq, Hcache).
  split; [|split; [|split; [|split]]].
  - unfold vm_file_split, get_file. rewrite Hfile. cbn [mbind outcome_bind].
    rewrite Hal. cbn [kassert mbind outcome_bind Z.eqb]. rewrite (proj2 (Z.leb_gt _ off)) by lia. rewrite Hanon. cbn [Z.eqb mbind outcome_bind].
    unfold cache_ref, get_cache. rewrite (proj2 (Z.eqb_neq _ 0) Hptr), Hcache. cbn [mbind outcome_bind new_file].
    unfold m1, split_state, lower_file, upper_file. rewrite Hanon. unfold with_files, with_k_next, with_caches. simpl. do 3 f_equal. apply map_eq. intros z.
    destruct (decide (z = f_pgcache x)) as [->|Hz]; [by rewrite lookup_insert_eq, lookup_alter_eq, Hcache|by rewrite lookup_insert_ne, lookup_alter_ne by done].
  - intros o Ho. eapply halves_getpage; [done|done|exact F1|done..| |done]. simpl. by rewrite !(proj2 (Z.leb_gt _ _)) by lia.
  - intros o Ho. unfold vm_file_getpage, get_file. rewrite F1. cbn [mbind outcome_bind]. simpl. by rewrite (proj2 (Z.leb_le _ _)) by lia.
  - intros o Ho. eapply halves_getpage; [done|done|exact F2|done..| |]; simpl.
    + destruct (Z.leb_spec (f_size x - off) o), (Z.leb_spec (f_size x) (off + o)); done || lia.
    + unfold wrap. rewrite Zplus_mod_idemp_r. f_equal. lia.
  - unfold vm_file_merge, get_file. rewrite F1. cbn [mbind outcome_bind]. rewrite F2. cbn [mbind outcome_bind lower_file upper_file f_pg_size f_vnode f_pgcache].
    rewrite !Z.eqb_refl. cbn [kassert mbind outcome_bind]. unfold vm_file_free, get_file. simpl k_files.
    rewrite lookup_insert_ne, lookup_insert_ne, lookup_insert_eq by done. cbn [mbind outcome_bind upper_file f_vnode f_pgcache f_size f_off f_pg_size]. rewrite Hanon. cbn [Z.eqb negb].
    rewrite (proj2 (Z.eqb_neq _ 0) Hptr). unfold get_cache. simpl k_caches. rewrite lookup_alter_eq, Hcache. cbn [mbind outcome_bind fmap option_fmap option_map].
    unfold pgcache_free. cbn [refcount more_ref]. rewrite (proj2 (Z.eqb_neq _ 1)) by lia. cbn [mbind outcome_bind].
    eexists. split; [done|]. split; [|split; [|done]]; simpl; apply map_eq; intros z.
    + destruct (decide (z = n)) as [->|Hz]; [by rewrite !lookup_insert_eq|]. rewrite !(lookup_insert_ne _ n) by done.
      destruct (decide (z = f)) as [->|Hz2]; [|by rewrite !lookup_insert_ne by done]. rewrite lookup_insert_eq, Hfile. f_equal.
      destruct x as [sz o pg vn q]. simpl in *. subst vn. f_equal. rewrite (wrap_small 64) by (unfold fits; lia). lia.
    + destruct (decide (z = f_pgcache x)) as [->|Hz]; [|by rewrite lookup_insert_ne, lookup_alter_ne by done].
      rewrite lookup_insert_eq, Hcache. destruct c. unfold more_ref. simpl. do 2 f_equal. lia.
Qed.

(** Visiting pages ignores where a file starts: the upper half of a split file
    visits the pages that the whole file has at the same offsets. *)
Theorem visit_ignores_offset {A} (m : kmem) (f off : Z) (x : vm_file_t) start_off end_off (fn : Z -> Z -> A -> outcome A) a :
  k_files m !! f = Some x -> f <> k_next m ->
  vm_file_visit_pages (k_next m) start_off end_off fn (split_state f off x m) a = vm_file_visit_pages f start_off end_off fn m a.
Proof. intros Hf Hn. apply (halves_visit f off x m _ (upper_file x off)); [done| |done]. simpl. by rewrite lookup_insert_ne, lookup_insert_eq. Qed.

(** C22. A page of an anonymous file that is not in the cache is allocated and
    stays the file's page: the next request for an offset on it returns the
    same page with one more reference, and the other pages of the cache are
    untouched. *)
Theorem file_getpage_keeps (m : kmem) (f off : Z) (x : vm_file_t) (c : pgcache) (n : nat) (s : pm_state) (p : page_t)
    (Hfile : k_files m !! f = Some x) (Hanon : f_vnode x = 0) (Hcache : k_caches m !! f_pgcache x = Some c) (Hwf : wf c)
    (Hoff : 0 <= off < f_size x) (Hfoff : 0 <= f_off x) (Hcap : off + f_off x < max_capacity c) (Hcap64 : max_capacity c <= 2 ^ 64)
    (Hmiss : pgcache_lookup c (off + f_off x) = Ret None)
    (Halloc : alloc_pages_size (k_frames m) 1 (f_pg_size x) = Ret (Some n, s)) (Hpage : pm_pages s !! n = Some p) :
  exists m1 c1, vm_file_getpage f off m = Ret (Some n, m1) /\
    k_caches m1 = <[f_pgcache x := c1]> (k_caches m) /\ wf c1 /\
    pm_pages (k_frames m1) = <[n := add_ref p]> (pm_pages s) /\
    (forall o, 0 <= o -> o / pg_size c <> (off + f_off x) / pg_size c -> pgcache_lookup c1 o = pgcache_lookup c o) /\
    forall o, 0 <= o < f_size x -> o + f_off x < max_capacity c -> (o + f_off x) / pg_size c = (off + f_off x) / pg_size c ->
      exists m2, vm_file_getpage f o m1 = Ret (Some n, m2) /\
        pm_pages (k_frames m2) = <[n := add_ref (add_ref p)]> (pm_pages s) /\ k_caches m2 = k_caches m1.
Proof.
  assert (Hlt : forall o, 0 <= o < f_size x -> o + f_off x < max_capacity c -> u64 (o + f_off x) = o + f_off x)
    by (intros o Ho Hc; apply wrap_small; unfold fits; lia).
  destruct (insert_lookup c (off + f_off x) (page_ptr (Some n)) false Hwf) as (c1 & old & Hl & Hins & Hwf1 & _ & _ & Hget); [lia|].
  rewrite Hmiss in Hl. injection Hl as <-. cbn [option_list] in Hins.
  unfold vm_file_getpage at 1, get_file. rewrite Hfile. cbn [mbind outcome_bind]. rewrite (proj2 (Z.leb_gt _ off)) by lia.
  rewrite (Hlt off Hoff Hcap). unfold get_cache. rewrite Hcache. cbn [mbind outcome_bind]. rewrite Hmiss. cbn [mbind outcome_bind].
  unfold missing_page. rewrite Hanon. cbn [Z.eqb]. rewrite Halloc. cbn [mbind outcome_bind]. unfold get_ref at 1.
  assert (Hupd : upd_page s n add_ref = Ret (with_pages s (<[n := add_ref p]> (pm_pages s)))) by (unfold upd_page; by rewrite Hpage).
  change (k_frames (with_frames m s)) with s. rewrite Hupd. cbn [mbind outcome_bind]. simpl k_caches. rewrite Hcache.
  cbn [mbind outcome_bind]. rewrite Hins. cbn [mbind outcome_bind put_all]. eexists _, c1. split; [done|]. split; [done|]. split; [done|].
  split; [done|]. split; [intros o Ho Hne; rewrite Hget by done; by rewrite decide_False|].
  intros o Ho Hoc Hsame. unfold vm_file_getpage, get_file. simpl k_files. rewrite Hfile. cbn [mbind outcome_bind].
  rewrite (proj2 (Z.leb_gt _ o)) by lia. rewrite (Hlt o Ho Hoc). unfold get_cache. simpl k_caches. rewrite lookup_insert_eq. cbn [mbind outcome_bind].
  rewrite Hget by lia. rewrite decide_True by done. cbn [mbind outcome_bind].
  assert (ptr_page (page_ptr (Some n)) = Some n) as ->.
  { unfold ptr_page, page_ptr. rewrite (proj2 (Z.eqb_neq _ 0)) by lia. f_equal. lia. }
  unfold get_ref, upd_page. simpl. rewrite lookup_insert_eq. simpl. eexists. split; [done|]. split; [|done]. simpl. by rewrite insert_insert_eq.
Qed.

End properties.

(** A kernel without vnodes that has one anonymous file. *)
Definition no_vnodes : vnode_ops := {|
  vn_getpage _ _ _ := Fault;
  vn_lock _ _ := Fault;
  vn_get_pgcache _ _ := Fault;
  vn_getref _ _ := Fault;
  vn_release _ _ := Fault;
|}.
Definition file_ex : vm_file_t := mk_file 0x8000 0 0x1000 0 2.
Definition file_mem : kmem := mk_kmem (mk_mach ∅ 0x1000 0 demo_zones) {[1 := file_ex]} {[2 := cache_ex]} 3 ∅.

Lemma file_split_merge_witness :
  exists m1 m2, vm_file_split (V := no_vnodes) 1 0x3000 file_mem = Ret (3, m1) /\ vm_file_merge (V := no_vnodes) 1 3 m1 = Ret m2 /\
    k_files m2 !! 1 = Some file_ex /\ k_caches m2 = {[2 := cache_ex]} /\
    vm_file_getpage (V := no_vnodes) 3 0x1000 m1 = '(p, m') ← vm_file_getpage (V := no_vnodes) 1 0x4000 file_mem; Ret (p, split_state 1 0x3000 file_ex m').
Proof.
  destruct (file_split_merge (V := no_vnodes) file_mem 1 0x3000 file_ex cache_ex) as (Hs & _ & _ & Hp & m2 & Hm & Hf & Hc & _); try done.
  exists (split_state 1 0x3000 file_ex file_mem), m2. split; [exact Hs|]. split; [exact Hm|]. split; [by rewrite Hf|]. split; [by rewrite Hc|by apply (Hp 0x1000)].
Defined.

Lemma file_getpage_keeps_witness :
  exists m1 m2 n, vm_file_getpage (V := no_vnodes) 1 0x2345 file_mem = Ret (Some n, m1) /\
    vm_file_getpage (V := no_vnodes) 1 0x2001 m1 = Ret (Some n, m2).
Proof.
  destruct (alloc_pages_size (k_frames file_mem) 1 0x1000) as [[[n|] s]| | |] eqn:E; vm_compute in E; try done.
  destruct (pm_pages s !! n) as [p|] eqn:Ep.
  - destruct (file_getpage_keeps (V := no_vnodes) file_mem 1 0x2345 file_ex cache_ex n s p) as (m1 & c1 & H1 & _ & _ & _ & _ & H2); try done.
    + apply cache_ex_wf.
    + destruct (H2 0x2001) as (m2 & H3 & _); [done..|]. by exists m1, m2, n.
  - injection E as <- <-. vm_compute in Ep. done.
Defined.
