(* ===== verification/VmBack.v ===== *)
(** * kernel/mm/vmalloc.c: the memory behind mappings

    The functions by type of mapping, which Vmalloc uses through the class
    [vm_backend], on the page tables of PgTable, the page structs of
    FrameAlloc and the files of VmFile. *)

From stdpp Require Import list gmap.
From S2P Require Import Prelude Mm FrameAlloc PgCache PgVisit PgTable PgFrames VmFile.
From S2P Require Import Interval RbTree IntvlTree Vmalloc.
Local Open Scope Z_scope.

(** ** Physical memory *)

(** New tables go to the end of the list of a space. *)
Definition add_tables (sp : Z) (tables : list Z) (m : kmem) : kmem :=
  mk_kmem (k_mach m) (k_files m) (k_caches m) (k_next m)
    (if bool_decide (tables = []) then k_tables m else <[sp := default [] (k_tables m !! sp) ++ tables]> (k_tables m)).

(** recursive_map_entry for a mapping: the address of the entry. *)
Definition map_page (vm : vm_mapping_t) (ptr phys : Z) (m : kmem) : outcome (Z * kmem) :=
  '(entry, tables, s) ← recursive_map_entry (k_mach m) ptr phys (vm_flags vm);
  Ret (entry, add_tables (vm_space vm) tables (with_mach m s)).

Fixpoint phys_map_loop (count : nat) (vm : vm_mapping_t) (ptr phys_ptr stride : Z) (m : kmem) : outcome kmem :=
  match count with
  | O => Ret m
  | S c =>
      '(_, m) ← map_page vm ptr phys_ptr m;
      phys_map_loop c vm (u64 (ptr + stride)) (u64 (phys_ptr + stride)) stride m
  end.

Definition phys_map (vm : vm_mapping_t) (phys size off : Z) (m : kmem) : outcome kmem :=
  let stride := vm_flags_to_size (vm_flags vm) in
  kassert (off mod stride =? 0);;
  kassert (u64 (off + size) <=? vm_size vm);;
  phys_map_loop (Z.to_nat (size / stride)) vm (u64 (vm_address vm + off)) (u64 (phys + off)) stride m.

Fixpoint phys_unmap_loop (count : nat) (vm : vm_mapping_t) (ptr stride : Z) (m : kmem) : outcome kmem :=
  match count with
  | O => Ret m
  | S c => s ← recursive_unmap_entry (k_mach m) ptr (vm_flags vm); phys_unmap_loop c vm (u64 (ptr + stride)) stride (with_mach m s)
  end.

Definition phys_unmap (vm : vm_mapping_t) (size off : Z) (m : kmem) : outcome kmem :=
  let stride := vm_flags_to_size (vm_flags vm) in
  kassert (off mod stride =? 0);;
  kassert (u64 (off + size) <=? vm_size vm);;
  phys_unmap_loop (Z.to_nat (size / stride)) vm (u64 (vm_address vm + off)) stride m.

(** ** Page lists *)

Definition update_entry (pte vm_flags : Z) (m : kmem) : outcome kmem :=
  s ← pgtable_update_entry_flags (k_mach m) pte vm_flags; Ret (with_mach m s).

(** A page at an address: its entry is updated, or made. *)
Definition map_or_update (vm : vm_mapping_t) (n : nat) (ptr : Z) (m : kmem) : outcome kmem :=
  p ← get_page (k_frames m) n;
  match page_get_mapping p (vm_address vm) with
  | Some e => update_entry (pte_entry e) (vm_flags vm) m
  | None =>
      '(entry, m) ← map_page vm ptr (pg_address p) m;
      '(e, f) ← pte_struct_alloc (k_frames m) n entry (vm_address vm);
      f ← upd_page f n (fun p => page_add_mapping p e);
      Ret (with_frames m f)
  end.

(** The entry of a page for the mapping, when it has one, gets no flags. *)
Definition unmap_page (vm : vm_mapping_t) (n : nat) (m : kmem) : outcome kmem :=
  p ← get_page (k_frames m) n;
  let '(e, p') := page_remove_mapping p (vm_address vm) in
  f ← upd_page (k_frames m) n (fun _ => p');
  let m := with_frames m f in
  match e with
  | None => Ret m
  | Some e => m ← update_entry (pte_entry e) 0 m; f ← pte_struct_free (k_frames m) e; Ret (with_frames m f)
  end.

Fixpoint page_map_loop (count : nat) (vm : vm_mapping_t) (curr : option nat) (ptr stride : Z) (m : kmem) : outcome kmem :=
  match count with
  | O => Ret m
  | S c =>
      match curr with
      | None => Panic
      | Some n =>
          m ← map_or_update vm n ptr m;
          p ← get_page (k_frames m) n;
          page_map_loop c vm (pg_next p) (u64 (ptr + stride)) stride m
      end
  end.

Definition page_map (vm : vm_mapping_t) (pages size off : Z) (m : kmem) : outcome kmem :=
  let stride := vm_flags_to_size (vm_flags vm) in
  kassert (off mod stride =? 0);;
  kassert (u64 (off + size) <=? vm_size vm);;
  page_map_loop (Z.to_nat (size / stride)) vm (ptr_page pages) (u64 (vm_address vm + off)) stride m.

(** [k] pages of the list are passed over. *)
Fixpoint skip_list (k : nat) (m : kmem) (curr : option nat) : outcome (option nat) :=
  match k with
  | O => Ret curr
  | S k => match curr with None => Panic | Some n => p ← get_page (k_frames m) n; skip_list k m (pg_next p) end
  end.

Fixpoint page_unmap_loop (fuel : nat) (vm : vm_mapping_t) (curr : option nat) (ptr max_ptr stride : Z) (m : kmem) : outcome kmem :=
  match fuel with
  | O => NoFuel
  | S f =>
      if ptr <? max_ptr then
        match curr with
        | None => Ret m
        | Some n =>
            m ← unmap_page vm n m;
            p ← get_page (k_frames m) n;
            page_unmap_loop f vm (pg_next p) (u64 (ptr + stride)) max_ptr stride m
        end
      else Ret m
  end.

Definition page_unmap (vm : vm_mapping_t) (size off : Z) (m : kmem) : outcome kmem :=
  let stride := vm_flags_to_size (vm_flags vm) in
  kassert (off mod stride =? 0);;
  kassert (u64 (off + size) <=? vm_size vm);;
  curr ← skip_list (Z.to_nat (off / stride)) m (ptr_page (vm_data vm));
  let ptr := u64 (vm_address vm + off) in
  page_unmap_loop (S (Z.to_nat (size / stride))) vm curr ptr (u64 (ptr + size)) stride m.

(** [*tailref] keeps the 0 of the new mapping when the split does not set it. *)
Definition page_split (pages off : Z) (m : kmem) : outcome (Z * Z * kmem) :=
  match ptr_page pages with
  | None => Fault
  | Some n =>
      p ← get_page (k_frames m) n;
      kassert (has_flag (pg_flags p) PG_HEAD);;
      '(h, tail, f) ← page_list_split (k_frames m) (Some n) (off / pg_flags_to_size (pg_flags p));
      Ret (page_ptr h, page_ptr (default None tail), with_frames m f)
  end.

Definition page_join (pages other : Z) (m : kmem) : outcome (Z * kmem) :=
  match ptr_page pages with
  | None => Ret (other, m)
  | Some n =>
      p ← get_page (k_frames m) n;
      kassert (has_flag (pg_flags p) PG_HEAD);;
      match ptr_page other with
      | None => Fault
      | Some o =>
          q ← get_page (k_frames m) o;
          kassert (has_flag (pg_flags q) PG_HEAD);;
          '(h, f) ← page_list_join (k_frames m) (Some n) (Some o);
          Ret (page_ptr h, with_frames m f)
      end
  end.

(** ** Files *)

Section files.
Context {V : vnode_ops}.

(** file_map_update_cb: the address counts the pages visited. *)
Definition file_map_update_cb (vm : vm_mapping_t) (unmap : bool) (page off : Z) (a : Z * kmem) : outcome (Z * kmem) :=
  let '(cb_off, m) := a in
  match ptr_page page with
  | None => Fault
  | Some n =>
      p ← get_page (k_frames m) n;
      m ← (if unmap then unmap_page vm n m else map_or_update vm n (u64 (vm_address vm + cb_off)) m);
      Ret (u64 (cb_off + pg_flags_to_size (pg_flags p)), m)
  end.

Definition file_update (vm : vm_mapping_t) (off end_off : Z) (unmap : bool) (m : kmem) : outcome kmem :=
  '(_, m) ← vm_file_visit_pages (vm_data vm) off end_off (file_map_update_cb vm unmap) m (off, m); Ret m.

Definition file_type_mappage_internal (vm : vm_mapping_t) (file off : Z) (page : nat) (m : kmem) : outcome kmem :=
  p ← get_page (k_frames m) page;
  kassert (has_flag (pg_flags p) PG_HEAD && (pg_count p =? 1));;
  x ← get_file m file;
  kassert (pg_flags_to_size (pg_flags p) =? f_pg_size x);;
  '(entry, m) ← map_page vm (u64 (vm_address vm + off)) (pg_address p) m;
  '(e, f) ← pte_struct_alloc (k_frames m) page entry (vm_address vm);
  f ← upd_page f page (fun p => page_add_mapping p e);
  put_pages (with_frames m f) (Some page).

(** ** The backend *)

#[export] Instance kernel_backend : vm_backend kmem := {|
  phys_type_map_internal := phys_map;
  phys_type_unmap_internal := phys_unmap;
  page_type_map_internal := page_map;
  page_type_unmap_internal := page_unmap;
  file_visit_update := file_update;
  page_type_split_internal := page_split;
  page_type_join_internal := page_join;
  file_type_split_internal vm := vm_file_split (vm_data vm);
  file_type_join_internal vm := vm_file_merge (vm_data vm);
  Vmalloc.alloc_pages count m := '(p, f) ← FrameAlloc.alloc_pages (k_frames m) count; Ret (page_ptr p, with_frames m f);
  Vmalloc.drop_pages p m := put_pages m (ptr_page p);
  Vmalloc.vm_file_free := VmFile.vm_file_free;
  Vmalloc.alloc_cow_pages p m :=
    match ptr_page p with
    | None => Fault
    | Some n => '(q, f) ← FrameAlloc.alloc_cow_pages (k_frames m) n; Ret (page_ptr q, with_frames m f)
    end;
  Vmalloc.vm_file_fork := VmFile.vm_file_fork;
  Vmalloc.vm_file_alloc_anon := VmFile.vm_file_alloc_anon;
  page_head p m :=
    match ptr_page p with None => Fault | Some n => q ← get_page (k_frames m) n; Ret (pg_flags q, pg_count q) end;
  file_size f m := x ← get_file m f; Ret (f_size x);
  Vmalloc.fork_page_tables deep sp m :=
    '(pml4, tables, s) ← PgTable.fork_page_tables (k_mach m) deep; Ret (pml4, add_tables sp tables (with_mach m s));
  Vmalloc.get_current_pgtable m := PgTable.get_current_pgtable (k_mach m);
|}.

(** Nothing is mapped or unmapped for a file without pages. *)
Lemma blank_update m f q x c vm off end_off unmap :
  blank_file m f q x c -> vm_data vm = f -> file_update vm off end_off unmap m = Ret m.
Proof.
  intros (Hf & Hq & _ & Hc & Hwf & Ho & Hr & _) Hd. unfold file_update, vm_file_visit_pages, get_file. rewrite Hd, Hf. cbn [mbind outcome_bind].
  unfold get_cache. rewrite Hq, Hc. cbn [mbind outcome_bind]. unfold pgcache_visit_pages. rewrite Hr.
  destruct (visit_zero c off end_off false (file_map_update_cb vm unmap) (off, m) Hwf Ho Hr) as (fr & ->). done.
Qed.

End files.
