(* ===== verification/VmPhys.v ===== *)
(** * kernel/mm/vmalloc.c: mappings of physical memory

    The backend of VmBack maps a physical range page by page: afterwards the
    addresses of the mapping translate into the range, and no other address
    translates differently. *)

From stdpp Require Import list gmap.
From S2P Require Import Prelude Mm FrameAlloc PgTable PgWalk PgFrames VmFile.
From S2P Require Import Interval RbTree IntvlTree Vmalloc VmBack.
Local Open Scope Z_scope.

(** ** Pages and paths *)

Lemma path_page va va' : va / 4096 = va' / 4096 -> path va = path va'.
Proof.
  intros E. assert (forall n, 0 <= n -> idx va n = idx va' n) as H.
  { intros n Hn. unfold index_for_pg_level, pg_level_to_shift. f_equal. rewrite !Z.shiftr_div_pow2, Z.pow_add_r by lia.
    assert (0 < 2 ^ (n * 9)) by (apply Z.pow_pos_nonneg; lia). rewrite <- !Z.div_div by lia. change (2 ^ 12) with 4096. by rewrite E. }
  unfold path. by rewrite !H by lia.
Qed.

Lemma path_inj va va' : path va = path va' -> (va / 4096) mod 2 ^ 36 = (va' / 4096) mod 2 ^ 36.
Proof.
  intros E. unfold path in E. injection E as E3 E2 E1 E0. rewrite <- !Z.land_ones by lia. change 4096 with (2 ^ 12).
  rewrite <- !Z.shiftr_div_pow2 by lia. apply Z.bits_inj'. intros i Hi.
  rewrite !Z.land_spec, !Z.shiftr_spec, Z.testbit_ones_nonneg by lia. destruct (Z.ltb_spec i 36); [|by rewrite !andb_false_r].
  rewrite !andb_true_r.
  assert (Hbit : forall n, 0 <= n -> idx va n = idx va' n -> 9 * n <= i < 9 * n + 9 -> Z.testbit va (i + 12) = Z.testbit va' (i + 12)).
  { intros n Hn En Hin. pose proof (testbit_idx va n (i - 9 * n) Hn ltac:(lia)) as T. pose proof (testbit_idx va' n (i - 9 * n) Hn ltac:(lia)) as T'.
    rewrite En, T' in T. rewrite (proj2 (Z.ltb_lt _ 9)) in T by lia. simpl in T.
    replace (i - 9 * n + (12 + n * 9)) with (i + 12) in T by lia. done. }
  assert (0 <= i < 9 \/ 9 <= i < 18 \/ 18 <= i < 27 \/ 27 <= i < 36) as [?|[?|[?|?]]] by lia;
    [apply (Hbit 0)|apply (Hbit 1)|apply (Hbit 2)|apply (Hbit 3)]; (done || lia).
Qed.

(** Pages of one range have paths of their own. *)
Lemma path_range va i j : va mod 4096 = 0 -> 0 <= i -> 0 <= j -> i < 2 ^ 36 -> j < 2 ^ 36 ->
  path (va + 4096 * i) = path (va + 4096 * j) -> i = j.
Proof.
  intros Ha Hi Hj Hi' Hj' E%path_inj.
  rewrite (Z.mul_comm 4096 i), (Z.mul_comm 4096 j), !Z.div_add in E by lia.
  assert ((i - j) mod 2 ^ 36 = 0) as Hm.
  { replace (i - j) with ((va / 4096 + i) - (va / 4096 + j)) by lia. rewrite Zminus_mod, E, Z.sub_diag. done. }
  apply Z.mod_divide in Hm as [q Hq]; [|lia]. destruct (Z.eq_dec q 0) as [->|]; nia.
Qed.

(** ** One page *)

Definition large_free (m : kmem) (D : gmap (list Z) Z) (va : Z) : Prop := no_large (k_mach m) D va.

(** What mapping leaves alone in the kernel's memory. *)
Definition same_heap (m m' : kmem) : Prop :=
  k_files m' = k_files m /\ k_caches m' = k_caches m /\ k_next m' = k_next m.

(** Mapping a page; an invariant of the page structs is kept while tables are
    allocated. *)
Lemma map_page_keeps (P : pm_state -> Prop) vm ptr phys m D :
  (forall s s' id i a, took s s' id i a -> P s -> P s') -> P (k_frames m) ->
  mach_ok (k_mach m) D -> large_free m D ptr -> idx ptr 3 <> R_ENTRY -> small_page (vm_flags vm) -> is_frame phys ->
  (3 <= frames_left (k_frames m))%nat ->
  exists m' D', map_page vm ptr phys m = Ret (slot (get_pgtable_address ptr PG_LEVEL_PT) (PT_INDEX ptr), m') /\
    mach_ok (k_mach m') D' /\ D ⊆ D' /\ same_heap m m' /\
    (forall va, path va = path ptr -> translate (k_mach m') va = Ret (phys + Z.land va 0xFFF)) /\
    (forall va, idx va 3 <> R_ENTRY -> path va <> path ptr -> translate (k_mach m') va = translate (k_mach m) va) /\
    (forall va, large_free m D va -> large_free m' D' va) /\
    (frames_left (k_frames m) <= 3 + frames_left (k_frames m'))%nat /\ P (k_frames m').
Proof.
  intros Hk HP [Hpt Hsrc Hfree] Hl Hr Hs Hf Hn.
  destruct (map_entry_ok (H := kept_source P Hk) (k_mach m) D ptr phys (vm_flags vm))
    as (s' & D' & ts & Hrun & [Hpt' [Hsrc' HP'] Hfree'] & Hsub & Hin & Hout & Hsm & Hcnt); try done.
  exists (add_tables (vm_space vm) ts (with_mach m s')), D'. split; [|by split_and!].
  unfold map_page. change (recursive_map_entry (H := zone_source)) with (recursive_map_entry (H := kept_source P Hk)). by rewrite Hrun.
Qed.

Lemma map_page_ok vm ptr phys m D :
  mach_ok (k_mach m) D -> large_free m D ptr -> idx ptr 3 <> R_ENTRY -> small_page (vm_flags vm) -> is_frame phys ->
  (3 <= frames_left (k_frames m))%nat ->
  exists m' D', map_page vm ptr phys m = Ret (slot (get_pgtable_address ptr PG_LEVEL_PT) (PT_INDEX ptr), m') /\
    mach_ok (k_mach m') D' /\ D ⊆ D' /\ same_heap m m' /\
    (forall va, path va = path ptr -> translate (k_mach m') va = Ret (phys + Z.land va 0xFFF)) /\
    (forall va, idx va 3 <> R_ENTRY -> path va <> path ptr -> translate (k_mach m') va = translate (k_mach m) va) /\
    (forall va, large_free m D va -> large_free m' D' va) /\
    (frames_left (k_frames m) <= 3 + frames_left (k_frames m'))%nat.
Proof.
  intros Hok Hl Hr Hs Hf Hn. destruct (map_page_keeps (fun _ => True) vm ptr phys m D) as (m' & D' & Hrun & Hok' & Hsub & Hh & Hin & Hout & Hsm & Hcnt & _);
    try done. by exists m', D'.
Qed.

(** ** A range *)

Lemma same_heap_trans a b c : same_heap a b -> same_heap b c -> same_heap a c.
Proof. intros (? & ? & ?) (? & ? & ?). split_and!; congruence. Qed.

Lemma phys_map_loop_ok vm count : forall m D ptr phys,
  mach_ok (k_mach m) D -> ptr mod 4096 = 0 -> 0 <= ptr -> ptr + 4096 * Z.of_nat count < 2 ^ 64 ->
  0 <= phys -> phys + 4096 * Z.of_nat count < 2 ^ 64 -> Z.of_nat count < 2 ^ 36 -> small_page (vm_flags vm) ->
  (forall i, 0 <= i < Z.of_nat count -> large_free m D (ptr + 4096 * i) /\ idx (ptr + 4096 * i) 3 <> R_ENTRY /\ is_frame (phys + 4096 * i)) ->
  (3 * count <= frames_left (k_frames m))%nat ->
  exists m' D', phys_map_loop count vm ptr phys 4096 m = Ret m' /\ mach_ok (k_mach m') D' /\ D ⊆ D' /\ same_heap m m' /\
    (forall va, ptr <= va < ptr + 4096 * Z.of_nat count -> translate (k_mach m') va = Ret (phys + (va - ptr))) /\
    (forall va, idx va 3 <> R_ENTRY -> (forall i, 0 <= i < Z.of_nat count -> path va <> path (ptr + 4096 * i)) ->
      translate (k_mach m') va = translate (k_mach m) va) /\
    (forall va, large_free m D va -> large_free m' D' va).
Proof.
  induction count as [|count IH]; intros m D ptr phys Hok Hal Hp0 Hp1 Hf0 Hf1 Hc Hs Hall Hn.
  - exists m, D. split; [done|]. split; [done|]. split; [done|]. split; [by split_and!|]. split; [intros va Hva; lia|]. by split.
  - destruct (Hall 0) as (L0 & R0 & F0); [lia|]. rewrite Z.mul_0_r, Z.add_0_r in *.
    destruct (map_page_ok vm ptr phys m D Hok L0 R0 Hs F0) as (m1 & D1 & Hrun & Hok1 & Hsub1 & Hh1 & Hin1 & Hout1 & Hsm1 & Hcnt1); [lia|].
    destruct (IH m1 D1 (ptr + 4096) (phys + 4096)) as (m2 & D2 & Hrun2 & Hok2 & Hsub2 & Hh2 & Hin2 & Hout2 & Hsm2); try done; try lia.
    { rewrite Z.add_mod, Hal by lia. done. }
    { intros i Hi. destruct (Hall (i + 1)) as (Li & Ri & Fi); [lia|].
      replace (ptr + 4096 * (i + 1)) with (ptr + 4096 + 4096 * i) in * by lia.
      replace (phys + 4096 * (i + 1)) with (phys + 4096 + 4096 * i) in * by lia. split; [by apply Hsm1|done]. }
    assert (Hpath0 : path ptr = path (ptr + 4096 * 0)) by (f_equal; lia).
    exists m2, D2. split.
    { cbn [phys_map_loop]. rewrite Hrun. cbn [mbind outcome_bind]. rewrite !(wrap_small 64) by (unfold fits; lia). done. }
    split; [done|]. split; [by etrans|]. split; [by apply (same_heap_trans m m1)|]. split; [|split].
    + intros va Hva. destruct (Z.lt_ge_cases va (ptr + 4096)) as [Hlt|Hge]; [|rewrite Hin2 by lia; f_equal; lia].
      assert (Epg : path va = path ptr).
      { apply path_page. replace va with (ptr + (va - ptr)) by lia. rewrite (Z_div_exact_full_2 ptr 4096) at 1 by lia.
        rewrite Z.mul_comm, Z.div_add_l by lia. rewrite (Z.div_small (va - ptr)) by lia. lia. }
      rewrite Hout2.
      * rewrite (Hin1 va Epg). f_equal. f_equal. replace va with (ptr + (va - ptr)) at 1 by lia. apply off_add; [done|lia].
      * assert (E3 : idx va 3 = idx ptr 3) by (unfold path in Epg; by injection Epg). by rewrite E3.
      * intros i Hi E. rewrite Epg, Hpath0 in E. replace (ptr + 4096 + 4096 * i) with (ptr + 4096 * (i + 1)) in E by lia.
        apply path_range in E; (done || lia).
    + intros va Hva Hd. rewrite Hout2.
      * apply Hout1; [done|]. intros E. apply (Hd 0); [lia|]. by rewrite <- Hpath0.
      * done.
      * intros i Hi E. apply (Hd (i + 1)); [lia|]. by replace (ptr + 4096 * (i + 1)) with (ptr + 4096 + 4096 * i) by lia.
    + intros va Hva. by apply Hsm2, Hsm1.
Qed.

(** ** Mappings *)

(** Addresses whose upper bits repeat bit 47. *)
Definition canonical (va : Z) : Prop := 0 <= va < 2 ^ 47 \/ 2 ^ 64 - 2 ^ 47 <= va < 2 ^ 64.

Lemma canonical_path va va' : canonical va -> canonical va' -> path va = path va' -> va / 4096 = va' / 4096.
Proof.
  intros Hv Hv' E%path_inj. change (2 ^ 36) with 68719476736 in E.
  assert (Hd : forall x, canonical x -> 0 <= x / 4096 < 34359738368 \/ 4503565267632128 <= x / 4096 < 4503599627370496).
  { intros x [Hx|Hx]; [left|right]; (split; [apply Z.div_le_lower_bound; lia|apply Z.div_lt_upper_bound; lia]). }
  pose proof (Hd va Hv) as H1. pose proof (Hd va' Hv') as H2. clear Hd Hv Hv'. set (a := va / 4096) in *. set (b := va' / 4096) in *.
  pose proof (Z.div_mod a 68719476736 ltac:(lia)). pose proof (Z.div_mod b 68719476736 ltac:(lia)).
  assert (Hq : forall x, 0 <= x < 34359738368 -> x / 68719476736 = 0) by (intros x Hx; apply Z.div_small; lia).
  assert (Hq' : forall x, 4503565267632128 <= x < 4503599627370496 -> x / 68719476736 = 65535).
  { intros x Hx. symmetry. apply (Z.div_unique_pos _ _ _ (x - 68719476736 * 65535)); lia. }
  assert (Hm : forall x, 4503565267632128 <= x < 4503599627370496 -> x mod 68719476736 = x - 68719476736 * 65535).
  { intros x Hx. pose proof (Z.div_mod x 68719476736 ltac:(lia)). rewrite (Hq' x Hx) in *. lia. }
  destruct H1 as [H1|H1], H2 as [H2|H2].
  - rewrite (Hq a H1), (Hq b H2) in *. lia.
  - rewrite (Z.mod_small a), (Hm b H2) in E by lia. lia.
  - rewrite (Z.mod_small b), (Hm a H1) in E by lia. lia.
  - rewrite (Hq' a H1), (Hq' b H2) in *. lia.
Qed.

(** The machine of [m'] has [vm], at its address, translated to [phys] and is
    the machine of [m] elsewhere. *)
Definition phys_mapped (m m' : kmem) (va size phys : Z) : Prop :=
  (forall a, va <= a < va + size -> translate (k_mach m') a = Ret (phys + (a - va))) /\
  (forall a, canonical a -> idx a 3 <> R_ENTRY -> (a < va \/ va + size <= a) ->
    translate (k_mach m') a = translate (k_mach m) a).

Lemma phys_frame phys i : phys mod 4096 = 0 -> 0 <= phys -> 0 <= i -> phys + 4096 * i < 2 ^ 52 -> is_frame (phys + 4096 * i).
Proof. intros Ha Hp Hi Hb. apply frame_of_aligned; [lia|]. by rewrite (Z.mul_comm 4096 i), Z.mod_add. Qed.

Lemma phys_map_ok vm phys m D :
  let size := vm_size vm in
  mach_ok (k_mach m) D -> vm_address vm mod 4096 = 0 -> 0 <= vm_address vm -> vm_address vm + size < 2 ^ 64 -> 0 < size < 2 ^ 47 ->
  size mod 4096 = 0 -> phys mod 4096 = 0 -> 0 <= phys -> phys + size <= 2 ^ 52 -> small_page (vm_flags vm) ->
  (forall a, vm_address vm <= a < vm_address vm + size -> canonical a /\ idx a 3 <> R_ENTRY /\ large_free m D a) ->
  3 * (size / 4096) <= Z.of_nat (frames_left (k_frames m)) ->
  exists m' D', phys_map vm phys size 0 m = Ret m' /\ mach_ok (k_mach m') D' /\ D ⊆ D' /\ same_heap m m' /\
    phys_mapped m m' (vm_address vm) size phys /\ (forall a, large_free m D a -> large_free m' D' a).
Proof.
  intros size Hok Hal Hva Hend Hsz Hsal Hpal Hp Hpend [S1 S2] Hrange Hframes. set (va := vm_address vm) in *.
  assert (Esz : size = 4096 * (size / 4096)) by (apply Z_div_exact_full_2; lia). set (c := size / 4096) in *.
  destruct (phys_map_loop_ok vm (Z.to_nat c) m D va phys) as (m' & D' & Hrun & Hok' & Hsub & Hh & Hin & Hout & Hsm);
    rewrite ?Z2Nat.id by lia; try done; try lia.
  { intros i Hi. destruct (Hrange (va + 4096 * i)) as (_ & Hr & Hl); [lia|]. split; [done|]. split; [done|]. apply phys_frame; lia. }
  rewrite Z2Nat.id in Hin, Hout by lia. rewrite <- Esz in Hin. exists m', D'. split; [|split; [done|split; [done|split; [done|split; [|done]]]]].
  - unfold phys_map, vm_flags_to_size. rewrite S1, S2. cbn [kassert mbind outcome_bind Z.modulo Z.eqb].
    rewrite Z.add_0_l, Z.add_0_r, Z.add_0_r. fold va. rewrite !(wrap_small 64) by (unfold fits; lia).
    rewrite (proj2 (Z.leb_le _ _)) by (unfold size; lia). exact Hrun.
  - split; [done|]. intros a Ha Hr Hout'. apply Hout; [done|]. intros i Hi E.
    destruct (Hrange (va + 4096 * i)) as (Hc & _ & _); [lia|]. apply (canonical_path _ _ Ha Hc) in E.
    rewrite (Z.mul_comm 4096 i), Z.div_add in E by lia. pose proof (Z.div_mod a 4096 ltac:(lia)). pose proof (Z.div_mod va 4096 ltac:(lia)).
    pose proof (Z.mod_pos_bound a 4096 ltac:(lia)). lia.
Qed.
