(* ===== verification/VmRun.v ===== *)
(** * kernel/mm/vmalloc.c: the interface, end to end

    The properties of mapping, splitting and releasing memory, and what they
    mean for the page tables when the memory behind the mappings is that of
    VmBack. *)

From S2P Require Import Prelude Mm Interval.
From stdpp Require Import list gmap sorting.
From S2P Require Import FrameAlloc PgTable PgWalk PgFrames VmFile.
From S2P Require Import RbTree RbEvents RbInsert RbAdd RbDelete RbFix RbRemove IntvlTree IntvlOps IntvlRun.
From S2P Require Import Vmalloc VmSpace VmMap VmSplit VmFree VmBack VmPhys.
Local Open Scope Z_scope.

(** ** Plain requests *)

(** Flags of a mapping of small pages anywhere, which is mapped at once. *)
Record plain_flags (flags : Z) : Prop := mk_plain {
  pf_small : small_page flags;
  pf_fixed : has_flag flags VM_FIXED = false;
  pf_stack : has_flag flags VM_STACK = false;
  pf_nomap : has_flag flags VM_NOMAP = false;
  pf_prot : has_flag flags VM_PROT_MASK = true;
}.

Lemma plain_readable flags : plain_flags flags -> plain_flags (readable flags).
Proof.
  intros [[S1 S2] F1 F2 F3 F4]. split; [split|..]; rewrite ?readable_flag by lia; try done.
  unfold readable. destruct (_ || _); [|done]. unfold has_flag in *. apply negb_true_iff, Z.eqb_neq. apply negb_true_iff, Z.eqb_neq in F4.
  rewrite Z.land_lor_distr_l. intros E. apply Z.lor_eq_0_iff in E. tauto.
Qed.

Lemma plain_args {M} {B : vm_backend M} (st : vm_state (M := M)) flags hint size phys :
  plain_flags flags -> is_aligned size PAGE_SIZE = true ->
  are_valid_vmap_args st VM_TYPE_PHYS hint size size flags phys = Ret true.
Proof.
  intros [[S1 S2] F1 F2 F3 F4] Ha. unfold are_valid_vmap_args. rewrite S1, S2, F1, Z.ltb_irrefl, andb_false_r. simpl. by rewrite Ha.
Qed.

Lemma plain_layout fl hint size : plain_flags fl -> vmap_layout hint size size fl = Some (choose_best_hint hint fl, size, 0).
Proof. intros [_ F1 F2 _ _]. unfold vmap_layout. by rewrite F1, F2, Z.max_id. Qed.

(** ** Mappings of any type *)

Section interface.
Context {M : Type} {B : vm_backend M} (garbage : Z -> intvl_node_t).
Implicit Types st : vm_state (M := M).

(** C9. vmap_internal keeps the address spaces well-formed and gives out the
    lowest free range.  For valid arguments, with the range [vs] long that
    they ask for from [base] on, it either returns the start of the mapped
    part of a new mapping whose range met no mapping of its space and is the
    lowest aligned one that did not, or it reports that a fixed range is not
    free and changes nothing.  Other spaces are untouched.  This is stated of
    requests whose size is not zero and whose range lies, from [base] on, in
    the bounds of the space, when a search finds room there without wrapping
    around the end of memory and the memory behind the range can be mapped.
    A stack without a fixed address must not ask for a virtual size above its
    size: the code computes its place from a start it has not chosen yet. *)
Theorem vmap_internal_maps st user type hint size vmsize flags data vb vs off s k
    (Hwf : vm_wf st) (Hargs : are_valid_vmap_args st type hint size vmsize flags data = Ret true)
    (Hlayout : vmap_layout hint size vmsize (readable flags) = Some (vb, vs, off))
    (Hspace : spaces st !! select_space st user vb = Some s) (Hdepth : 0 <= lock_depth s)
    (Hlen : 2 * Z.of_nat (length (mappings s)) + 2 < 2 ^ 64) (Hsize : 0 < size) (Hvmsize : 0 <= vmsize) (Hhint : 0 <= hint)
    (Hsum : Z.max vmsize size + PAGE_SIZE < 2 ^ 64) (Hk : vm_flags_to_size flags = 2 ^ k) (Hvb : vb + 2 ^ k <= 2 ^ 64)
    (Hstack : has_flag (readable flags) VM_FIXED = false -> has_flag (readable flags) VM_STACK = true -> vmsize <= size)
    (Hrange : request_base (readable flags) vb k + vs <= (if has_flag (readable flags) VM_FIXED then UINT64_MAX else max_addr s))
    (Hmax : max_addr s <= UINT64_MAX)
    (Hroom : let base := request_base (readable flags) vb k in
             room_in st s (mk_intvl base (base + vs)) (request_order (readable flags) k))
    (Hmap : forall g, free_in st s (mk_intvl g (g + vs)) ->
       mappable (new_mapping type (select_space st user vb) (g + off) size vs (readable flags) data) (mem st)) :
  let fl := readable flags in
  let sp := select_space st user vb in
  let base := request_base fl vb k in
  (has_flag fl VM_FIXED = true /\ ~ free_in st s (mk_intvl vb (vb + vs)) /\
   vmap_internal garbage st user type hint size vmsize flags data = Ret (inl EADDRNOTAVAIL, st)) \/
  exists g st', vmap_internal garbage st user type hint size vmsize flags data = Ret (inr (g + off), st') /\
    free_in st s (mk_intvl g (g + vs)) /\ base <= g /\ g mod 2 ^ request_order fl k = 0 /\
    (forall b, base <= b -> b mod 2 ^ request_order fl k = 0 -> free_in st s (mk_intvl b (b + vs)) -> g <= b) /\
    (has_flag fl VM_FIXED = true -> g = vb) /\
    vm_virt_interval (new_mapping type sp (g + off) size vs fl data) = mk_intvl g (g + vs) /\
    added st st' sp s (new_mapping type sp (g + off) size vs fl data).
Proof. apply vmap_internal_ok; try done. intros g _ _ _ Hf _. by apply Hmap. Qed.

(** The mappings of a list stand in it in the order of their ranges.  This is
    no part of [vm_wf]: the code adds a mapping that lies below all others at
    the end of the list. *)
Definition in_order st (l : list Z) : Prop :=
  StronglySorted (fun c c' => forall v v', vms st !! c = Some v -> vms st !! c' = Some v' -> vm_lo v <= vm_lo v') l.

Lemma order_apart st sp s S U c c' v v' :
  space_ok st sp s S U -> c ∈ mappings s -> c' ∈ mappings s -> vms st !! c = Some v -> vms st !! c' = Some v' -> c <> c' ->
  vm_lo v <= vm_lo v' -> vm_lo v + vm_virt_size v <= vm_lo v'.
Proof.
  intros Hok Hc Hc' Hv Hv' Hne Hle. destruct (so_in _ _ _ _ _ Hok c Hc) as (w & p & Hw & _ & Hf & HS). assert (w = v) as -> by congruence.
  destruct (so_in _ _ _ _ _ Hok c' Hc') as (w & q & Hw' & _ & Hf' & HS'). assert (w = v') as -> by congruence.
  destruct (decide (vm_lo v = vm_lo v')) as [Elo|Hlo]; [rewrite Elo in HS; congruence|].
  destruct (holds_apart _ _ _ _ _ _ _ _ _ _ _ (so_tree _ _ _ _ _ Hok) HS HS' Hlo) as [Hap _].
  apply apart in Hap; [|by apply vm_fits_proper..]. pose proof (vm_fits_interval v Hf) as E. pose proof (vm_fits_interval v' Hf') as E'.
  pose proof (vm_fits_proper v Hf) as P. pose proof (vm_fits_proper v' Hf') as P'. rewrite E, E' in *. unfold proper in *. simpl in *. lia.
Qed.

(** In a list in order, the mappings from [d] to [e] are those that meet the
    range from the start of the one to the end of the other. *)
Lemma segment_meets st sp s S U x seg e y d vd ve c vc :
  space_ok st sp s S U -> in_order st (mappings s) -> mappings s = x ++ seg ++ e :: y -> d = default 0 (head (seg ++ [e])) ->
  vms st !! d = Some vd -> vms st !! e = Some ve -> 0 < vm_size vd -> 0 < vm_size ve ->
  c ∈ mappings s -> vms st !! c = Some vc -> 0 < vm_size vc ->
  (c ∈ seg ++ [e] <-> vm_address vc < vm_address ve + vm_size ve /\ vm_address vd < vm_address vc + vm_size vc).
Proof.
  intros Hok Hord El Ed Hd He Sd Se Hc Hvc Sc.
  assert (Hdin : d ∈ seg ++ [e]) by (rewrite Ed; destruct seg; apply list_elem_of_here).
  assert (Hein : e ∈ seg ++ [e]) by (apply elem_of_app; right; apply list_elem_of_here).
  assert (El' : mappings s = x ++ (seg ++ [e]) ++ y) by (by rewrite El, <- !(assoc_L (++))).
  assert (Hin : forall z, z ∈ seg ++ [e] -> z ∈ mappings s) by (intros z Hz; rewrite El'; apply elem_of_app; right; apply elem_of_app; by left).
  assert (Hpart : forall z v, z ∈ mappings s -> vms st !! z = Some v -> 0 < vm_size v ->
    vm_lo v <= vm_address v /\ vm_address v + vm_size v <= vm_lo v + vm_virt_size v).
  { intros z v Hz Hv Hs. destruct (so_in _ _ _ _ _ Hok z Hz) as (w & q & Hw & _ & Hf & _). assert (w = v) as -> by congruence.
    by destruct (mapped_part v Hf Hs) as (H1 & H2 & _). }
  destruct (Hpart d vd (Hin d Hdin) Hd Sd), (Hpart e ve (Hin e Hein) He Se), (Hpart c vc Hc Hvc Sc).
  assert (Hbelow : forall z z' v v', z ∈ mappings s -> z' ∈ mappings s -> vms st !! z = Some v -> vms st !! z' = Some v' -> z <> z' -> vm_lo v <= vm_lo v' ->
    vm_lo v + vm_virt_size v <= vm_lo v') by (intros; by apply (order_apart st sp s S U z z')).
  unfold in_order in Hord. rewrite El' in Hord. apply StronglySorted_app in Hord as (Hx & _ & (Hy & Hseg & _)%StronglySorted_app).
  split.
  - intros Hcs. split.
    + destruct (decide (c = e)) as [->|Hne]; [assert (vc = ve) as -> by congruence; lia|].
      apply StronglySorted_app in Hseg as (Hlast & _ & _). apply elem_of_app in Hcs as [Hcs|Hcs%list_elem_of_singleton]; [|done].
      pose proof (Hlast c e Hcs (list_elem_of_here _ _) vc ve Hvc He) as Hle. pose proof (Hbelow c e vc ve Hc (Hin e Hein) Hvc He Hne Hle). lia.
    + destruct (decide (d = c)) as [->|Hne]; [assert (vc = vd) as -> by congruence; lia|].
      destruct (seg ++ [e]) as [|h l] eqn:Es; [by apply app_nil in Es as [_ ?]|]. simpl in Ed. subst h. apply StronglySorted_cons in Hseg as [Hh _].
      apply elem_of_cons in Hcs as [->|Hcl]; [done|]. rewrite Forall_forall in Hh. pose proof (Hh c Hcl vd vc Hd Hvc) as Hle.
      pose proof (Hbelow d c vd vc (Hin d (list_elem_of_here _ _)) Hc Hd Hvc Hne Hle). lia.
  - intros [Hlo Hhi]. destruct (decide (c ∈ seg ++ [e])) as [|Hno]; [done|]. exfalso. pose proof Hc as Hcl. rewrite El' in Hcl.
    apply elem_of_app in Hcl as [Hcx|[?|Hcy]%elem_of_app]; [|done|].
    + assert (Hle : vm_lo vc <= vm_lo vd) by (apply (Hx c d); [done|apply elem_of_app; by left|done|done]).
      assert (Hne : c <> d) by (by intros ->). pose proof (Hbelow c d vc vd Hc (Hin d Hdin) Hvc Hd Hne Hle). lia.
    + assert (Hle : vm_lo ve <= vm_lo vc) by (by apply (Hy e c)).
      assert (Hne : e <> c) by (by intros ->). pose proof (Hbelow e c ve vc (Hin e Hein) Hc He Hvc Hne Hle). lia.
Qed.

(** C10. vmap_free releases a whole run of mappings: when the range starts
    and ends exactly with the mapped parts of two mappings of the list, none
    from the first to the last is reserved and their memory can be released,
    all of them leave the list, the tree and the heap, the memory is released
    in order, and every other mapping, space and bound stays.  The lock is
    released.  When the list is in the order of the ranges, the mappings that
    leave are exactly those whose mapped part meets the range. *)
Theorem vmap_free_releases st vaddr size s x seg e y d vd ve m'
    (Hwf : vm_wf st) (Hspace : spaces st !! select_space st (curspace st) vaddr = Some s) (Hdepth : 0 <= lock_depth s)
    (Hlist : mappings s = x ++ seg ++ e :: y) (Hfirst : d = default 0 (head (seg ++ [e])))
    (Hd : vms st !! d = Some vd) (He : vms st !! e = Some ve)
    (Hstart : vaddr = vm_address vd) (Hend : vaddr + size = vm_address ve + vm_size ve)
    (Hsizes : 0 < vm_size vd /\ 0 < vm_size ve /\ 0 < size)
    (Hvalid : is_valid_range vaddr size = true) (Halign : is_aligned size PAGE_SIZE = true)
    (Hrel : releases (vms st) (seg ++ [e]) (mem st) m') (Hlen : 2 * Z.of_nat (length (mappings s)) + 2 < 2 ^ 64) :
  exists st', vmap_free st vaddr size = Ret (None, st') /\
    cleared st st' (select_space st (curspace st) vaddr) s x (seg ++ [e]) y /\ mem st' = m' /\
    (in_order st (mappings s) -> forall c vc, c ∈ mappings s -> vms st !! c = Some vc -> 0 < vm_size vc ->
      (c ∈ seg ++ [e] <-> vm_address vc < vaddr + size /\ vaddr < vm_address vc + vm_size vc)).
Proof.
  destruct Hsizes as (H1 & H2 & H3). destruct (vmap_free_ok st vaddr size s x seg e y d vd ve m') as (st' & Hrun & Hcl & Hm); try done.
  exists st'. split; [done|]. split; [done|]. split; [done|]. intros Hord c vc Hc Hvc Hsc. destruct (wf_spaces _ Hwf _ s Hspace) as (S & U & Hok).
  rewrite Hend, Hstart. by apply (segment_meets st (select_space st (curspace st) vaddr) s S U x seg e y d vd ve).
Qed.

(** C21. join_mappings undoes split_mapping: for a mapping that is neither a
    stack nor linked to another one, and whose memory can be split and joined,
    splitting it at a page boundary inside it makes two neighbours that share
    its range, and joining them gives the mapping, its flags and the list back,
    with the memory that joining the memory gives.  The states on the way are
    well-formed. *)
Theorem split_join_back st sp s d vm off a b m data m'
    (Hwf : vm_wf st) (Hspace : spaces st !! sp = Some s) (Hlock : 0 < lock_depth s) (Hd : d ∈ mappings s) (Hvm : vms st !! d = Some vm)
    (Hstack : has_flag (vm_flags vm) VM_STACK = false) (Hoff : 0 < off < vm_size vm)
    (Halign : off mod vm_flags_to_size (vm_flags vm) = 0) (Hlen : 2 * Z.of_nat (length (mappings s)) + 4 < 2 ^ 64)
    (Hflags : 0 <= vm_flags vm < 2 ^ 32) (Hlinked : has_flag (vm_flags vm) VM_LINKED = false)
    (Hsplit : type_split vm off (mem st) = Ret (a, b, m)) (Hjoin : type_join (lower_half vm off a) b m = Ret (data, m')) :
  exists st1 st2 s2, split_mapping garbage st d off = Ret (blocks st, st1) /\
    split st st1 sp s d vm off a b /\ join_mappings st1 d (blocks st) = Ret st2 /\
    vm_wf st2 /\ elsewhere sp st st2 /\ spaces st2 !! sp = Some s2 /\ mappings s2 = mappings s /\
    vms st2 = <[d := with_data vm data]> (vms st) /\ mem st2 = m'.
Proof.
  destruct (split_join_ok garbage st sp s d vm off a b m data m') as (st1 & st2 & s2 & H1 & H2 & H3); try done.
  destruct (split_mapping_ok garbage st sp s d vm off a b m) as (st1' & H1' & Hsp & _); try done; [lia|].
  assert (st1' = st1) as -> by congruence. by exists st1, st2, s2.
Qed.

End interface.

(** ** Physical memory *)

Section phys.
Context {V : vnode_ops} (garbage : Z -> intvl_node_t).
Implicit Types st : vm_state (M := kmem).

(** Mapping the new mapping maps its physical range. *)
Lemma plain_maps fl sp g size phys m D :
  plain_flags fl -> mach_ok (k_mach m) D -> g mod 4096 = 0 -> 0 <= g -> g + size < 2 ^ 64 -> 0 < size < 2 ^ 47 ->
  size mod 4096 = 0 -> phys mod 4096 = 0 -> 0 <= phys -> phys + size <= 2 ^ 52 ->
  (forall a, g <= a < g + size -> canonical a /\ idx a 3 <> R_ENTRY /\ large_free m D a) ->
  3 * (size / 4096) <= Z.of_nat (frames_left (k_frames m)) ->
  exists m' D', maps (new_mapping VM_TYPE_PHYS sp g size size fl phys) m = Ret m' /\ mach_ok (k_mach m') D' /\ D ⊆ D' /\
    same_heap m m' /\ phys_mapped m m' g size phys /\ (forall a, large_free m D a -> large_free m' D' a).
Proof.
  intros [[S1 S2] F1 F2 F3 F4] Hok Hg Hg0 Hge Hsz Hsal Hpal Hp0 Hpe Hr Hfr. unfold maps. cbn [new_mapping vm_flags]. rewrite F3, F4. cbn [andb negb].
  set (vm := protected _ fl). destruct (phys_map_ok vm phys m D) as (m' & D' & H); try done.
  - split; unfold vm; by rewrite protected_bit.
  - exists m', D'. exact H.
Qed.

(** C8. vmap_phys makes physical memory visible: it returns the lowest page
    aligned range of its space that is free, not below its hint, and
    afterwards exactly the addresses of that range translate differently,
    namely into the physical range.  The state stays well-formed.  The space
    has a free place [b] before the recursive region, and there are frames for
    the tables. *)
Theorem vmap_phys_translates st D s phys hint size flags b
    (Hwf : vm_wf st) (Hmach : mach_ok (k_mach (mem st)) D)
    (Hlarge : forall a, idx a 3 <> R_ENTRY -> large_free (mem st) D a)
    (Hflags : plain_flags flags) (Hsize : 0 < size < 2 ^ 47) (Halign : is_aligned size PAGE_SIZE = true)
    (Hphys : 0 <= phys /\ phys + size <= 2 ^ 52 /\ phys mod PAGE_SIZE = 0) (Hhint : 0 <= hint)
    (Hspace : spaces st !! select_space st (curspace st) (choose_best_hint hint (readable flags)) = Some s)
    (Hdepth : 0 <= lock_depth s) (Hlen : 2 * Z.of_nat (length (mappings s)) + 2 < 2 ^ 64)
    (Hvb : choose_best_hint hint (readable flags) + PAGE_SIZE <= 2 ^ 64)
    (Hroom : let base := align (choose_best_hint hint (readable flags)) PAGE_SIZE in room_in st s (mk_intvl base (base + size)) 12)
    (Hb : align (choose_best_hint hint (readable flags)) PAGE_SIZE <= b /\ b mod PAGE_SIZE = 0 /\
          free_in st s (mk_intvl b (b + size)) /\ b + size <= max_addr s) (Hmax : max_addr s <= UINT64_MAX)
    (Hrange : forall a, align (choose_best_hint hint (readable flags)) PAGE_SIZE <= a < b + size -> canonical a /\ idx a 3 <> R_ENTRY)
    (Hframes : 3 * (size / PAGE_SIZE) <= Z.of_nat (frames_left (k_frames (mem st)))) :
  let fl := readable flags in
  let sp := select_space st (curspace st) (choose_best_hint hint fl) in
  exists g st', vmap_phys garbage st phys hint size flags = Ret (g, st') /\
    align (choose_best_hint hint fl) PAGE_SIZE <= g <= b /\ g mod PAGE_SIZE = 0 /\
    free_in st s (mk_intvl g (g + size)) /\
    added st st' sp s (new_mapping VM_TYPE_PHYS sp g size size fl phys) /\
    phys_mapped (mem st) (mem st') g size phys /\ exists D', mach_ok (k_mach (mem st')) D'.
Proof.
  intros fl sp. pose proof (plain_readable _ Hflags) as Hfl. fold fl in Hfl, Hspace, Hvb, Hroom, Hb, Hrange. pose proof Hflags as [[S1 S2] F1 F2 F3 F4].
  pose proof Hfl as [_ F1' F2' _ _]. set (vb := choose_best_hint hint fl) in *. set (base := align vb PAGE_SIZE) in *. fold sp in Hspace.
  assert (Hsal : size mod 4096 = 0) by (apply (aligned_mod size 12); [lia|done]). destruct Hb as (Hb1 & Hb2 & Hb3 & Hb4).
  assert (Hvb0 : 0 <= vb) by (unfold vb, choose_best_hint; repeat case_match; lia).
  assert (Hbase : 0 <= base) by (destruct (align_least vb 12 Hvb0 ltac:(lia) Hvb) as (? & _); unfold base; change PAGE_SIZE with (2 ^ 12); lia).
  assert (Hmaps : forall g, base <= g -> g mod 2 ^ 12 = 0 -> g <= b ->
    exists m' D', maps (new_mapping VM_TYPE_PHYS sp g size size fl phys) (mem st) = Ret m' /\ mach_ok (k_mach m') D' /\ D ⊆ D' /\
      same_heap (mem st) m' /\ phys_mapped (mem st) m' g size phys /\ (forall a, large_free (mem st) D a -> large_free m' D' a)).
  { intros g G1 G2 G3. destruct Hphys as (P1 & P2 & P3). apply plain_maps; try done; try (unfold UINT64_MAX in *; lia).
    intros a Ha. destruct (Hrange a) as [Hc Hr]; [lia|]. split; [done|]. split; [done|]. by apply Hlarge. }
  destruct (vmap_internal_ok garbage st (curspace st) VM_TYPE_PHYS hint size size flags phys vb size 0 s 12) as [(Hfix & _)|Hmain].
  - done.
  - by apply plain_args.
  - by apply plain_layout.
  - done.
  - done.
  - done.
  - lia.
  - lia.
  - done.
  - unfold PAGE_SIZE. lia.
  - unfold vm_flags_to_size. by rewrite S1, S2.
  - done.
  - done.
  - fold fl. unfold request_base. rewrite F1'. fold base. change (align vb (2 ^ 12)) with base. lia.
  - done.
  - fold fl. unfold request_base, request_order. rewrite F1'. apply Hroom.
  - fold fl. unfold request_base, request_order. rewrite F1'. change (align vb (2 ^ 12)) with base. intros g G1 G2 G3 G4 G5.
    rewrite Z.add_0_r. destruct (Hmaps g) as (m' & D' & Hm & _); [done|done|by apply G5|]. by exists m'.
  - fold fl in Hfix. congruence.
  - fold fl in Hmain. unfold request_base, request_order in Hmain. rewrite F1' in Hmain. change (align vb (2 ^ 12)) with base in Hmain.
    destruct Hmain as (g & st' & Hrun & Hfree & G1 & G2 & Gleast & _ & _ & Hadd). rewrite Z.add_0_r in *. fold sp in Hadd.
    assert (Hgb : g <= b) by (by apply Gleast). destruct (Hmaps g G1 G2 Hgb) as (m' & D' & Hm & Hok' & _ & _ & Hpm & _).
    pose proof (ad_mem _ _ _ _ _ Hadd) as Hmem. assert (m' = mem st') as -> by congruence.
    exists g, st'. split; [unfold vmap_phys; by rewrite Hrun|]. split; [done|]. split; [done|]. split; [done|]. split; [done|].
    split; [done|]. by exists D'.
Qed.

End phys.

(** ** Heap memory *)

Lemma wf_set_mem {M} {B : vm_backend M} (st : vm_state (M := M)) m : vm_wf st -> vm_wf (set_mem st m).
Proof.
  intros [W1 W2 W3 W4]. split; try done. intros sp s Hs. destruct (W4 sp s Hs) as (S & U & Hok). exists S, U. by apply (space_ok_same st).
Qed.

(** The flags vmalloc maps with. *)
Definition malloc_flags (flags : Z) : Z := Z.lor (Z.land flags VM_FLAGS_MASK) VM_MALLOC.

Lemma malloc_flag flags k : 0 <= k < 16 -> has_flag (malloc_flags flags) (Z.shiftl 1 k) = has_flag flags (Z.shiftl 1 k).
Proof.
  intros Hk. unfold malloc_flags. rewrite !has_bit, Z.lor_spec, Z.land_spec, Z.shiftl_1_l, Z.pow2_bits_false by lia.
  change VM_FLAGS_MASK with (Z.ones 16). rewrite Z.testbit_ones_nonneg, (proj2 (Z.ltb_lt k 16)) by lia. by rewrite andb_true_r, orb_false_r.
Qed.

Lemma malloc_plain flags : plain_flags flags ->
  plain_flags (malloc_flags flags) /\ has_flag (malloc_flags flags) VM_MALLOC = true.
Proof.
  intros [[S1 S2] F1 F2 F3 F4]. split.
  - split; [split|..]; rewrite ?malloc_flag by lia; try done. unfold has_flag in *. apply negb_true_iff, Z.eqb_neq. apply negb_true_iff, Z.eqb_neq in F4.
    unfold malloc_flags. rewrite Z.land_lor_distr_l, <- Z.land_assoc. change (Z.land VM_FLAGS_MASK VM_PROT_MASK) with VM_PROT_MASK.
    intros E. apply Z.lor_eq_0_iff in E. tauto.
  - unfold malloc_flags. rewrite has_bit, Z.lor_spec by done. change (Z.testbit VM_MALLOC 16) with true. apply orb_true_r.
Qed.

Lemma malloc_hint fl : plain_flags fl -> has_flag fl VM_USER = false -> has_flag fl VM_MALLOC = true ->
  choose_best_hint 0 fl = 0xFFFFC01000000000.
Proof. intros [_ _ F2 _ _] Hu Hm. unfold choose_best_hint. by rewrite Hu, F2, Hm. Qed.

Section heap.
Context {V : vnode_ops} (garbage : Z -> intvl_node_t).
Implicit Types st : vm_state (M := kmem).

(** The memory after vm_file_alloc_anon. *)
Lemma anon_file m size : 0 < size <= 2 ^ 36 -> let f := k_next m in
  exists c x, VmFile.vm_file_alloc_anon size PAGE_SIZE m =
      Ret (f, mk_kmem (k_mach m) (<[f := x]> (k_files m)) (<[f + 1 := c]> (k_caches m)) (f + 1 + 1) (k_tables m)) /\
    f_size x = size /\
    forall m', k_files m' !! f = Some x -> k_caches m' !! (f + 1) = Some c -> blank_file m' f (f + 1) x c.
Proof.
  intros Hs f. destruct (anon_cache size Hs) as (ord & c & Ho & Hc & Hwf & H6 & Hr & Href & _).
  exists c, (mk_file size 0 PAGE_SIZE 0 (f + 1)). unfold VmFile.vm_file_alloc_anon. rewrite Ho. cbn [mbind outcome_bind]. rewrite Hc. cbn [mbind outcome_bind].
  split; [done|]. split; [done|]. intros m' H1 H2. by split_and!.
Qed.

(** The state vmalloc leaves, and the memory behind the new mapping. *)
Lemma vmalloc_ok st s size flags :
  let len := align size PAGE_SIZE in
  let fl := readable (malloc_flags flags) in
  let sp := kernel_space st in
  let f := k_next (mem st) in
  let base := 0xFFFFC01000000000 in
  vm_wf st -> plain_flags flags -> has_flag flags VM_USER = false -> 0 < size <= 2 ^ 35 -> spaces st !! sp = Some s ->
  0 <= lock_depth s -> 2 * Z.of_nat (length (mappings s)) + 2 < 2 ^ 64 -> base + len <= max_addr s -> max_addr s <= UINT64_MAX ->
  room_in st s (mk_intvl base (base + len)) 12 ->
  exists g st1 m1 c x, vmalloc garbage st size flags = Ret (g, st1) /\ base <= g /\ g + len <= UINT64_MAX /\ g mod PAGE_SIZE = 0 /\
    free_in st s (mk_intvl g (g + len)) /\
    m1 = mk_kmem (k_mach (mem st)) (<[f := x]> (k_files (mem st))) (<[f + 1 := c]> (k_caches (mem st))) (f + 1 + 1) (k_tables (mem st)) /\
    f_size x = len /\ blank_file m1 f (f + 1) x c /\
    added (set_mem st m1) st1 sp s (new_mapping VM_TYPE_FILE sp g len len fl f) /\ mem st1 = m1.
Proof.
  intros len fl sp f base Hwf Hflags Huser Hsize Hs Hdep Hlen Hmax Hmu Hroom. destruct (malloc_plain flags Hflags) as [Hpm Hmm].
  pose proof (plain_readable _ Hpm) as Hpf. fold fl in Hpf. pose proof Hpf as [[S1 S2] F1 F2 F3 F4]. pose proof Hpm as [[S1' S2'] F1' F2' F3' F4'].
  destruct (align_least size 12) as (L1 & L2 & L3); [lia..|]. change (align size (2 ^ 12)) with len in *.
  assert (Hl4 : 4096 <= len) by (pose proof (Z.div_mod len (2 ^ 12) ltac:(lia)) as E; rewrite L2 in E; lia).
  assert (Hvb : choose_best_hint 0 fl = base).
  { apply malloc_hint; [done|unfold fl; rewrite readable_flag by lia; by rewrite malloc_flag|unfold fl; by rewrite readable_flag]. }
  assert (Hbase : align base (2 ^ 12) = base) by done. assert (Hsel : select_space st (curspace st) base = sp) by done.
  destruct (anon_file (mem st) len) as (c & x & Hanon & Hx & Hblank); [lia|]. fold f in Hanon, Hblank. set (m1 := mk_kmem _ _ _ _ _) in Hanon.
  specialize (Hblank m1 ltac:(apply lookup_insert_eq) ltac:(apply lookup_insert_eq)).
  assert (Hmaps : forall g, maps (new_mapping VM_TYPE_FILE sp g len len fl f) m1 = Ret m1).
  { intros g. unfold maps. cbn [new_mapping vm_flags]. rewrite F3, F4. cbn [andb negb]. apply (blank_update m1 f (f + 1) x c); [done|done]. }
  destruct (vmap_internal_ok garbage (set_mem st m1) (curspace st) VM_TYPE_FILE 0 len len (malloc_flags flags) f base len 0 s 12) as [(Hfix & _)|Hmain].
  - by apply wf_set_mem.
  - unfold are_valid_vmap_args. rewrite S1', S2', F1', Z.ltb_irrefl, andb_false_r. cbn [negb andb].
    change (is_aligned len PAGE_SIZE) with (is_aligned len (2 ^ 12)). rewrite (aligned_eq len 12), L2 by lia. cbn [Z.eqb negb].
    change (file_size f (mem (set_mem st m1))) with (y ← get_file m1 f; Ret (f_size y)).
    unfold get_file. destruct Hblank as (-> & _). cbn [mbind outcome_bind]. by rewrite Hx, !Z.eqb_refl.
  - fold fl. rewrite <- Hvb. by apply plain_layout.
  - done.
  - done.
  - done.
  - lia.
  - lia.
  - lia.
  - unfold PAGE_SIZE. lia.
  - unfold vm_flags_to_size. by rewrite S1', S2'.
  - done.
  - done.
  - fold fl. unfold request_base. rewrite F1. lia.
  - done.
  - fold fl. unfold request_base, request_order. rewrite F1. apply Hroom.
  - fold fl. intros g _ _ _ _ _. rewrite Z.add_0_r. exists m1. apply Hmaps.
  - fold fl in Hfix. congruence.
  - fold fl in Hmain. unfold request_base, request_order in Hmain. rewrite F1, Hbase in Hmain. change (select_space (set_mem st m1) (curspace st) base) with sp in Hmain.
    destruct Hmain as (g & st1 & Hrun & Hfree & G1 & G2 & _ & _ & Hi & Hadd). rewrite Z.add_0_r in *.
    assert (Hge : g + len <= UINT64_MAX).
    { pose proof (f_equal end_ Hi) as Hend. unfold vm_virt_interval in Hend. cbn [end_] in Hend. rewrite <- Hend.
      match goal with |- ?a <= _ => assert (fits 64 a) as Hw by (apply wrap_range; lia) end. unfold fits in Hw. unfold UINT64_MAX. lia. }
    exists g, st1, m1, c, x. split; [|split_and!; try done; pose proof (ad_mem _ _ _ _ _ Hadd) as Hmem; specialize (Hmaps g); cbn [mem set_mem] in Hmem; congruence].
    unfold vmalloc. destruct Hflags as [[U1 U2] _ _ _ U5]. rewrite U1, U2. cbn [negb andb kassert mbind outcome_bind].
    rewrite (proj2 (Z.eqb_neq size 0)) by lia. fold len. fold (malloc_flags flags). rewrite F4'. cbn [negb].
    rewrite (proj2 (Z.leb_gt len _)) by (change (SIZE_TO_PAGES 4) with 1; lia).
    unfold vmap_anon. unfold vm_flags_to_size. rewrite S1', S2'.
    change (vm_file_alloc_anon len PAGE_SIZE (mem st)) with (VmFile.vm_file_alloc_anon len PAGE_SIZE (mem st)). rewrite Hanon.
    cbn [mbind outcome_bind]. by rewrite Hrun.
Qed.

(** Releasing the memory of a mapping made by vmalloc. *)
Lemma malloc_release m f q x c sp p len fl :
  plain_flags fl -> blank_file m f q x c -> q <> 0 ->
  type_release (settled (new_mapping VM_TYPE_FILE sp p len len fl f)) m =
  Ret (with_caches (with_files m (<[f := mk_file (f_size x) (f_off x) (f_pg_size x) 0 0]> (k_files m))) (delete q (k_caches m))).
Proof.
  intros [_ _ _ F3 F4] Hb Hq. set (vm := new_mapping _ _ _ _ _ _ _).
  assert (settled vm = protected vm fl) as -> by (unfold settled; cbn [vm new_mapping vm_flags]; by rewrite F4, F3).
  unfold type_release. rewrite protected_mapped by done. unfold type_free. cbn [protected with_flags vm_ty vm new_mapping vm_data vm_size].
  unfold file_type_unmap_internal. cbn [file_visit_update kernel_backend]. rewrite (blank_update m f q x c) by done. cbn [mbind outcome_bind].
  by apply blank_free with c.
Qed.

(** C11. vfree undoes vmalloc.  A request for kernel memory returns a page
    aligned pointer to a range of the rounded size that met no mapping of the
    kernel's space.  Giving the pointer back leaves the mappings, the other
    spaces, the page tables, the frames and the page caches as they were
    before the request; only the struct of the file behind the mapping is
    left over. *)
Theorem vmalloc_vfree_back st s size flags
    (Hwf : vm_wf st) (Hflags : plain_flags flags) (Huser : has_flag flags VM_USER = false) (Hsize : 0 < size <= 2 ^ 35)
    (Hspace : spaces st !! kernel_space st = Some s) (Hdepth : 0 <= lock_depth s)
    (Hlen : 2 * Z.of_nat (length (mappings s)) + 4 < 2 ^ 64) (Hmax : 0xFFFFC01000000000 + align size PAGE_SIZE <= max_addr s)
    (Hmu : max_addr s <= UINT64_MAX)
    (Hroom : room_in st s (mk_intvl 0xFFFFC01000000000 (0xFFFFC01000000000 + align size PAGE_SIZE)) 12)
    (Hheap : k_caches (mem st) !! (k_next (mem st) + 1) = None) (Hnext : 0 < k_next (mem st)) :
  let len := align size PAGE_SIZE in
  exists p st1 st2 s2 file, vmalloc garbage st size flags = Ret (p, st1) /\ vfree st1 p = Ret st2 /\
    vm_wf st1 /\ vm_wf st2 /\ p mod PAGE_SIZE = 0 /\ 0xFFFFC01000000000 <= p /\ free_in st s (mk_intvl p (p + len)) /\
    vms st2 = vms st /\ spaces st2 !! kernel_space st = Some s2 /\ mappings s2 = mappings s /\ lock_depth s2 = lock_depth s /\
    (forall sp, sp <> kernel_space st -> spaces st2 !! sp = spaces st !! sp) /\
    k_mach (mem st2) = k_mach (mem st) /\ k_caches (mem st2) = k_caches (mem st) /\
    k_files (mem st2) = <[k_next (mem st) := file]> (k_files (mem st)).
Proof.
  intros len. destruct (vmalloc_ok st s size flags) as (p & st1 & m1 & c & x & Hrun & P1 & P2 & P3 & Hfree & Em1 & Hx & Hblank & Hadd & Hm1); try done; [lia|].
  fold len in P2, Hfree, Hx, Hadd. set (f := k_next (mem st)) in *. set (vm := new_mapping _ _ _ _ _ _ _) in Hadd. set (d := blocks st).
  pose proof Hadd as [Wf1 [K1 K2 K3 K4 K5] (s1 & Hs1 & (l & r & El & El1) & Hmin & Hmx & Hdep) Hvms Hmem]. simpl in *. fold d in El1, Hvms.
  destruct (malloc_plain flags Hflags) as [Hpm Hmm]. pose proof (plain_readable _ Hpm) as Hpf. pose proof Hpf as [_ _ _ F3 F4].
  destruct (align_least size 12) as (L1 & L2 & _); [lia..|]. change (align size (2 ^ 12)) with len in *.
  assert (Eset : settled vm = protected vm (vm_flags vm)) by (unfold settled; cbn [vm new_mapping vm_flags]; by rewrite F4, F3).
  assert (Hdv : vms st1 !! d = Some (settled vm)) by (rewrite Hvms; apply lookup_insert_eq).
  assert (Hsel : select_space st1 (curspace st1) p = kernel_space st) by (unfold select_space; by rewrite (proj2 (Z.leb_le _ p)), K1 by lia).
  destruct (vfree_ok st1 p s1 l d r (settled vm)
    (with_caches (with_files m1 (<[f := mk_file (f_size x) (f_off x) (f_pg_size x) 0 0]> (k_files m1))) (delete (f + 1) (k_caches m1))))
    as (st2 & Hrun2 & [Wf2 [J1 J2 J3 J4 J5] (s2 & Hs2 & M2 & A2 & B2 & C2) V2] & Hm2).
  all: rewrite ?Hsel; try done.
  - lia.
  - lia.
  - unfold is_valid_pointer. apply orb_true_iff. right. apply andb_true_iff. unfold UINT64_MAX in P2. split; [apply Z.leb_le|apply Z.ltb_lt]; lia.
  - by rewrite Eset.
  - rewrite Eset. simpl. lia.
  - rewrite Eset. by right.
  - rewrite Eset, protected_bit by done. simpl. by rewrite readable_flag.
  - rewrite El1. rewrite El in Hlen. rewrite !length_app in *. simpl in *. lia.
  - rewrite Hm1. apply (malloc_release m1 f (f + 1) x c); [done|done|lia].
  - exists p, st1, st2, s2. eexists. split_and!; try done; try lia.
    + apply map_eq. intros z. rewrite V2, Hvms. destruct (decide (z ∈ [d])) as [->%list_elem_of_singleton|Hz].
      * symmetry. apply eq_None_not_Some. intros [v Hv]. pose proof (wf_vms _ Hwf _ _ Hv). unfold d in *. lia.
      * rewrite lookup_insert_ne; [done|set_solver].
    + by rewrite Hsel in Hs2.
    + by rewrite M2, El.
    + intros sp Hsp. rewrite J3 by (by rewrite Hsel). by apply K3.
    + by rewrite Hm2, Em1.
    + rewrite Hm2, Em1. simpl. by rewrite delete_insert_id.
    + rewrite Hm2, Em1. simpl. by rewrite insert_insert_eq.
Qed.

End heap.

(** ** A concrete machine *)

Section start.
Context {M : Type} {B : vm_backend M}.

Lemma nothing_wf kernel cur (m : M) : vm_wf (mk_state ∅ ∅ kernel cur 1 m).
Proof. by split. Qed.

(** A new space is empty. *)
Lemma new_space_wf (st : vm_state (M := M)) min max pgtable : vm_wf st -> vm_wf (vm_new_space st min max pgtable).2.
Proof.
  intros Hwf. pose proof Hwf as [W1 W2 W3 W4]. simpl. split; simpl.
  - lia.
  - intros d vm Hd. specialize (W2 d vm Hd). lia.
  - intros x s [[<- _]|[_ Hx]]%lookup_insert_Some; [lia|]. specialize (W3 x s Hx). lia.
  - intros x s [[<- <-]|[_ Hx]]%lookup_insert_Some.
    + exists ∅, ∅. split; try done; [apply create_intvl_holds|constructor|by intros d ?%not_elem_of_nil].
    + destruct (W4 x s Hx) as (S & U & [H1 H2 H3 H4 H5 H6 H7]). exists S, U. split; try done. intros p Hp. specialize (H5 p Hp). simpl. lia.
Qed.

End start.

#[local] Existing Instance no_vnodes.

(** The machine of PgFrames, with four free frames. *)
Definition start_mem : kmem := mk_kmem (mk_mach demo_mem 0x1000 0 demo_zones) ∅ ∅ 1 ∅.

(** The kernel's space and one for the user. *)
Definition start_state : vm_state (M := kmem) :=
  (vm_new_space (vm_new_space (mk_state ∅ ∅ 1 2 1 start_mem) KERNEL_SPACE_START KERNEL_SPACE_END 0x1000).2
    0x400000 USER_SPACE_END 0x1000).2.

Definition no_garbage (p : Z) : intvl_node_t := mk_intvl_node 0 NULL_SET 0 0 0.

Lemma start_wf : vm_wf start_state.
Proof. apply new_space_wf, new_space_wf, nothing_wf. Qed.

Lemma start_page a : 0xFFFFC00000000000 <= a < 0xFFFFC00000001000 -> canonical a /\ idx a 3 = 384.
Proof.
  intros Ha. split; [right; lia|]. replace a with (0xFFFFC00000000000 + (a - 0xFFFFC00000000000)) by lia. by rewrite idx_add by (done || lia).
Qed.

Lemma vmap_phys_translates_witness :
  exists st', vmap_phys no_garbage start_state 0x5000 0 0x1000 VM_WRITE = Ret (0xFFFFC00000000000, st') /\
    translate (k_mach (mem st')) 0xFFFFC00000000123 = Ret 0x5123.
Proof.
  destruct (vmap_phys_translates no_garbage start_state demo_tree (empty_space KERNEL_SPACE_START KERNEL_SPACE_END 0x1000)
    0x5000 0 0x1000 VM_WRITE 0xFFFFC00000000000) as (g & st' & Hrun & Hg & _ & _ & _ & [Hin _] & _).
  - apply start_wf.
  - apply demo_zones_mach.
  - intros a Ha. by apply demo_no_large.
  - by split.
  - lia.
  - done.
  - by vm_compute.
  - lia.
  - by vm_compute.
  - done.
  - done.
  - vm_compute. done.
  - split; [by vm_compute|]. by intros d vm ?%not_elem_of_nil.
  - split; [by vm_compute|]. split; [by vm_compute|]. split; [by intros d vm ?%not_elem_of_nil|by vm_compute].
  - done.
  - intros a Ha. change (0xFFFFC00000000000 <= a < 0xFFFFC00000001000) in Ha. destruct (start_page a Ha) as [Hc ->]. by split.
  - by vm_compute.
  - change (0xFFFFC00000000000 <= g <= 0xFFFFC00000000000) in Hg. assert (g = 0xFFFFC00000000000) as -> by lia.
    exists st'. split; [exact Hrun|]. rewrite Hin by lia. done.
Defined.

Lemma write_plain : plain_flags VM_WRITE.
Proof. by split. Qed.

(** The kernel's space of the start. *)
Definition start_space : address_space_t := empty_space KERNEL_SPACE_START KERNEL_SPACE_END 0x1000.

Lemma start_room base size k : base + 2 ^ k + (base + size - base) <= 2 ^ 64 -> room_in start_state start_space (mk_intvl base (base + size)) k.
Proof. intros H. split; [done|]. by intros d vm ?%not_elem_of_nil. Qed.

Lemma vmalloc_vfree_back_witness :
  exists p st1 st2, vmalloc no_garbage start_state 5000 VM_WRITE = Ret (p, st1) /\ vfree st1 p = Ret st2 /\ vms st2 = ∅.
Proof.
  destruct (vmalloc_vfree_back no_garbage start_state start_space 5000 VM_WRITE)
    as (p & st1 & st2 & s2 & file & H1 & H2 & _ & _ & _ & _ & _ & H3 & _).
  - apply start_wf.
  - by split.
  - done.
  - lia.
  - done.
  - done.
  - done.
  - by vm_compute.
  - done.
  - by apply start_room; vm_compute.
  - done.
  - done.
  - exists p, st1, st2. split; [exact H1|]. split; [exact H2|exact H3].
Defined.

(** A reserved range of two pages at a fixed address. *)
Lemma vmap_internal_maps_witness :
  exists st', vmap_internal no_garbage start_state 2 VM_TYPE_RSVD 0xFFFFC01000000000 0x2000 0x2000 (Z.lor VM_FIXED VM_WRITE) 0 =
    Ret (inr 0xFFFFC01000000000, st') /\ vm_wf st'.
Proof.
  destruct (vmap_internal_maps no_garbage start_state 2 VM_TYPE_RSVD 0xFFFFC01000000000 0x2000 0x2000 (Z.lor VM_FIXED VM_WRITE) 0
    0xFFFFC01000000000 0x2000 0 start_space 12) as [(_ & Hno & _)|(g & st' & Hrun & _ & _ & _ & _ & Hg & _ & Hadd)].
  - apply start_wf.
  - by vm_compute.
  - by vm_compute.
  - done.
  - done.
  - done.
  - lia.
  - lia.
  - lia.
  - by vm_compute.
  - by vm_compute.
  - by vm_compute.
  - done.
  - by vm_compute.
  - done.
  - by apply start_room; vm_compute.
  - intros g _. by exists start_mem.
  - exfalso. apply Hno. by intros d vm ?%not_elem_of_nil.
  - rewrite Hg in Hrun by done. exists st'. split; [exact Hrun|]. apply Hadd.
Defined.

(** The mapping of a vmalloc, released with vmap_free. *)
Lemma vmap_free_releases_witness :
  exists p st1 st2, vmalloc no_garbage start_state 5000 VM_WRITE = Ret (p, st1) /\ vmap_free st1 p 0x2000 = Ret (None, st2) /\ vms st2 = ∅.
Proof.
  destruct (vmalloc_ok no_garbage start_state start_space 5000 VM_WRITE) as (p & st1 & m1 & c & x & Hrun & P1 & P2 & P3 & _ & Em1 & _ & Hb & Hadd & Hm1).
  { apply start_wf. }
  { by split. }
  { done. }
  { lia. }
  { done. }
  { done. }
  { done. }
  { by vm_compute. }
  { done. }
  { by apply start_room; vm_compute. }
  change (align 5000 PAGE_SIZE) with 0x2000 in *. pose proof Hadd as [Wf1 [K1 K2 _ _ _] (s1 & Hs1 & (l & r & El & El1) & _ & _ & Hdep) Hvms _].
  symmetry in El. apply app_nil in El as [-> ->]. simpl in El1, Hvms, Hdep.
  assert (Hsel : select_space st1 (curspace st1) p = 1) by (unfold select_space; by rewrite (proj2 (Z.leb_le _ p)), K1 by lia).
  pose proof (plain_readable _ (proj1 (malloc_plain VM_WRITE write_plain))) as Hpf.
  unfold UINT64_MAX in P2.
  set (vm := new_mapping VM_TYPE_FILE 1 p 0x2000 0x2000 (readable (malloc_flags VM_WRITE)) 1). change (new_mapping _ _ _ _ _ _ _) with vm in Hadd. change (settled _) with (settled vm) in Hvms.
  destruct (settled_place vm) as ((A1 & A2 & _) & A3 & _). change (vm_address vm) with p in A1. change (vm_size vm) with 0x2000 in A2.
  change (vm_ty vm) with VM_TYPE_FILE in A3.
  assert (exists m2, type_release (settled vm) m1 = Ret m2) as [m2 Hrel].
  { eexists. exact (malloc_release m1 1 2 x c 1 p 0x2000 _ Hpf Hb ltac:(lia)). }
  destruct (vmap_free_releases st1 p 0x2000 s1 [] [] 3 [] 3 (settled vm) (settled vm) m2) as (st2 & Hfree & [_ _ _ Hv] & _ & _).
  - done.
  - by rewrite Hsel.
  - by rewrite Hdep.
  - done.
  - done.
  - rewrite Hvms. apply lookup_insert_eq.
  - rewrite Hvms. apply lookup_insert_eq.
  - by rewrite A1.
  - by rewrite A1, A2.
  - rewrite A2. lia.
  - unfold is_valid_range. rewrite (proj2 (Z.leb_le _ p)) by lia. apply Z.leb_le. rewrite (wrap_small 64) by (unfold fits; lia). lia.
  - done.
  - rewrite Hm1. econstructor; [rewrite Hvms; apply lookup_insert_eq|by rewrite A3|exact Hrel|constructor].
  - by rewrite El1.
  - exists p, st1, st2. split; [exact Hrun|]. split; [exact Hfree|]. apply map_eq. intros z. rewrite Hv, Hvms. destruct (decide (z ∈ _)) as [|Hz]; [done|].
    rewrite lookup_insert_ne; [done|]. intros <-. apply Hz. apply list_elem_of_here.
Defined.

(** A mapping of two pages, made with VM_NOMAP, split in the middle and joined again. *)
Definition halves_flags : Z := Z.lor (Z.lor VM_FIXED VM_WRITE) VM_NOMAP.
Definition halves_vm : vm_mapping_t :=
  settled (new_mapping VM_TYPE_PHYS 1 0xFFFFC01000000000 0x2000 0x2000 (readable halves_flags) 0x5000).

Lemma halves_ok :
  exists (st : vm_state (M := kmem)) s, vm_wf st /\ spaces st !! 1 = Some s /\ 0 < lock_depth s /\ mappings s = [3] /\ vms st = <[3 := halves_vm]> ∅.
Proof.
  destruct (vmap_internal_ok no_garbage start_state 2 VM_TYPE_PHYS 0xFFFFC01000000000 0x2000 0x2000 halves_flags 0x5000
    0xFFFFC01000000000 0x2000 0 start_space 12) as [(_ & Hno & _)|(g & st' & _ & _ & _ & _ & _ & Hg & _ & Hadd)].
  - apply start_wf.
  - by vm_compute.
  - by vm_compute.
  - done.
  - done.
  - done.
  - lia.
  - lia.
  - lia.
  - by vm_compute.
  - by vm_compute.
  - by vm_compute.
  - done.
  - by vm_compute.
  - done.
  - by apply start_room; vm_compute.
  - intros g _. by exists start_mem.
  - exfalso. apply Hno. by intros d vm ?%not_elem_of_nil.
  - rewrite Hg in Hadd by done. destruct Hadd as [Wf _ (s1 & Hs1 & (l & r & El & El1) & _ & _ & Hdep) Hvms _].
    symmetry in El. apply app_nil in El as [-> ->]. exists (put_space st' 1 (with_depth s1 1)), (with_depth s1 1).
    split; [by apply wf_depth|]. split; [apply lookup_insert_eq|]. split; [apply Z.lt_0_1|]. split; [exact El1|exact Hvms].
Qed.

Lemma split_join_back_witness :
  exists st st1 st2, vms st !! 3 = Some halves_vm /\ split_mapping no_garbage st 3 0x1000 = Ret (blocks st, st1) /\
    join_mappings st1 3 (blocks st) = Ret st2 /\ vms st2 !! 3 = Some halves_vm.
Proof.
  destruct halves_ok as (st & s & Wf & Hs & Hlock & Hl & Hv).
  assert (Hvm : vms st !! 3 = Some halves_vm) by (rewrite Hv; apply lookup_insert_eq).
  destruct (split_join_back no_garbage st 1 s 3 halves_vm 0x1000 0x5000 0 (mem st) 0x5000 (mem st))
    as (st1 & st2 & s2 & Hsplit & _ & Hjoin & _ & _ & _ & _ & Hv2 & _).
  - exact Wf.
  - exact Hs.
  - exact Hlock.
  - rewrite Hl. apply list_elem_of_here.
  - exact Hvm.
  - by vm_compute.
  - by vm_compute.
  - by vm_compute.
  - by rewrite Hl.
  - by vm_compute.
  - by vm_compute.
  - reflexivity.
  - reflexivity.
  - exists st, st1, st2. split; [exact Hvm|]. split; [exact Hsplit|]. split; [exact Hjoin|]. rewrite Hv2. apply lookup_insert_eq.
Defined.
