(* ===== verification/VmUser.v ===== *)
(** * kernel/mm/vmalloc.c: page faults, single pages and other spaces

    The operations that need the page tables and the frames behind mappings:
    the handler of page faults, which maps the pages of a file when they are
    touched, the page and the physical address at an address, and the mappings
    that a program loader makes in the space of another process. *)

From stdpp Require Import list gmap.
From S2P Require Import Prelude Mm FrameAlloc PgTable PgFrames VmFile.
From S2P Require Import Interval RbTree IntvlTree Vmalloc VmBack.
Local Open Scope Z_scope.

Abbreviation CPU_PF_P := 0x1.
Abbreviation CPU_PF_W := 0x2.

(** The end of a page fault: the access is repeated, or the processor prints
    its registers and stops. *)
Inductive fault_result := Recovered | Exception.

(** A mapping that a program is to get. *)
Record vm_desc_t := mk_desc {
  desc_type : vm_type;
  desc_address : Z;
  desc_size : Z;
  desc_vm_size : Z;
  desc_vm_flags : Z;
  desc_data : Z;
  desc_mapped : bool;
}.

Section user.
Context {V : vnode_ops} (garbage : Z -> intvl_node_t).
Implicit Types st : vm_state (M := kmem).

(** ** Page faults *)

Definition can_handle_fault (vm : vm_mapping_t) (error_code : Z) : bool :=
  if negb (bool_decide (vm_ty vm = VM_TYPE_FILE)) || negb (has_flag (vm_flags vm) VM_MAPPED) then false
  else
    let prot := Z.land (vm_flags vm) VM_PROT_MASK in
    if has_flag error_code CPU_PF_W then negb (prot =? 0) && has_flag (vm_flags vm) VM_WRITE
    else negb (prot =? 0).

(** [fault_addr] is cr2 and [error] the error code on the stack. *)
Definition page_fault_handler st (fault_addr error : Z) : outcome (fault_result * vm_state (M := kmem)) :=
  if (fault_addr =? 0) || (curspace st =? 0) then Ret (Exception, st)
  else
    let sp := select_space st (curspace st) fault_addr in
    st ← space_lock st sp;
    if has_flag error CPU_PF_P then Ret (Exception, st)
    else
      d ← space_get_mapping st sp fault_addr;
      ok ← (if d =? 0 then Ret false else vm ← get_vm st d; Ret (can_handle_fault vm error));
      if negb ok then st ← space_unlock st sp; Ret (Exception, st)
      else
        vm ← get_vm st d;
        let off := align_down (u64 (fault_addr - vm_address vm)) PAGE_SIZE in
        '(page, m) ← vm_file_getpage (vm_data vm) off (mem st);
        match page with
        | None => st ← space_unlock (set_mem st m) sp; Ret (Exception, st)
        | Some n =>
            m ← file_type_mappage_internal vm (vm_data vm) off n m;
            st ← space_unlock (set_mem st m) sp;
            Ret (Recovered, st)
        end.

(** ** Single pages *)

(** The offset stays the same while the list is walked. *)
Fixpoint getpage_walk (fuel : nat) (curr : option nat) (off : Z) (m : kmem) : outcome (option nat) :=
  if 0 <? off then
    match curr with
    | None => Ret None
    | Some n =>
        p ← get_page (k_frames m) n;
        if off <? pg_flags_to_size (pg_flags p) then Ret curr
        else match fuel with O => NoFuel | S f => getpage_walk f (pg_next p) off m end
    end
  else Ret curr.

Definition page_type_getpage_internal (vm : vm_mapping_t) (off : Z) (m : kmem) : outcome (option nat * kmem) :=
  curr ← getpage_walk (FrameAlloc.walk_fuel (k_frames m)) (ptr_page (vm_data vm)) off m; m ← get_ref m curr; Ret (curr, m).

Definition vm_getpage st (vaddr : Z) : outcome (option nat * vm_state (M := kmem)) :=
  if negb (is_valid_pointer vaddr) then Ret (None, st)
  else
    let sp := select_space st (curspace st) vaddr in
    st ← space_lock st sp;
    d ← space_get_mapping st sp vaddr;
    '(page, m) ←
      (if d =? 0 then Ret (None, mem st)
       else
         vm ← get_vm st d;
         let off := u64 (vaddr - vm_address vm) in
         match vm_ty vm with
         | VM_TYPE_RSVD => Ret (None, mem st)
         | VM_TYPE_PHYS =>
             '(p, f) ← alloc_nonowned_pages_at (k_frames (mem st)) (u64 (vm_data vm + off)) 1 PAGE_SIZE;
             Ret (p, with_frames (mem st) f)
         | VM_TYPE_PAGE => page_type_getpage_internal vm off (mem st)
         | VM_TYPE_FILE => vm_file_getpage (vm_data vm) off (mem st)
         end);
    st ← space_unlock (set_mem st m) sp;
    Ret (page, st).

Definition vm_getpage_cow st (vaddr : Z) : outcome (option nat * vm_state (M := kmem)) :=
  '(page, st) ← vm_getpage st vaddr;
  match page with
  | None => Ret (None, st)
  | Some n =>
      p ← get_page (k_frames (mem st)) n;
      kassert (negb (has_flag (pg_flags p) PG_COW));;
      '(cow, f) ← FrameAlloc.alloc_cow_pages (k_frames (mem st)) n;
      m ← put_pages (with_frames (mem st) f) page;
      Ret (cow, set_mem st m)
  end.

(** ** Physical addresses *)

(** The page of a list that holds [vaddr]; 0 at the start of a page. *)
Fixpoint phys_walk (fuel : nat) (curr : option nat) (curr_vaddr vaddr stride : Z) (m : kmem) : outcome Z :=
  if curr_vaddr <? vaddr then
    match curr with
    | None => Fault
    | Some n =>
        p ← get_page (k_frames m) n;
        if vaddr <? u64 (curr_vaddr + stride) then Ret (u64 (pg_address p + (vaddr - curr_vaddr)))
        else match fuel with O => NoFuel | S f => phys_walk f (pg_next p) (u64 (curr_vaddr + stride)) vaddr stride m end
    end
  else Ret 0.

Definition vm_virt_to_phys st (vaddr : Z) : outcome (Z * vm_state (M := kmem)) :=
  if negb (is_valid_pointer vaddr) then Ret (0, st)
  else
    let sp := select_space st (curspace st) vaddr in
    st ← space_lock st sp;
    d ← space_get_mapping st sp vaddr;
    '(paddr, m) ←
      (if d =? 0 then Ret (0, mem st)
       else
         vm ← get_vm st d;
         let off := u64 (vaddr - vm_address vm) in
         match vm_ty vm with
         | VM_TYPE_RSVD => Ret (0, mem st)
         | VM_TYPE_PHYS => Ret (u64 (vm_data vm + off), mem st)
         | VM_TYPE_PAGE =>
             match ptr_page (vm_data vm) with
             | None => Fault
             | Some n =>
                 p ← get_page (k_frames (mem st)) n;
                 kassert (has_flag (pg_flags p) PG_HEAD);;
                 if pg_contiguous p then Ret (u64 (pg_address p + off), mem st)
                 else
                   a ← phys_walk (FrameAlloc.walk_fuel (k_frames (mem st))) (Some n) (vm_address vm) vaddr
                         (vm_flags_to_size (vm_flags vm)) (mem st);
                   Ret (a, mem st)
             end
         | VM_TYPE_FILE => vm_file_getpage_phys (vm_data vm) off (mem st)
         end);
    st ← space_unlock (set_mem st m) sp;
    Ret (paddr, st).

(** ** The space of a new process *)

Definition vm_new_uspace st : outcome (Z * vm_state (M := kmem)) :=
  st ← space_lock st (kernel_space st);
  '(pml4, tables, s) ← PgTable.fork_page_tables (k_mach (mem st)) false;
  st ← space_unlock (set_mem st (with_mach (mem st) s)) (kernel_space st);
  let '(sp, st) := vm_new_space st USER_SPACE_START USER_SPACE_END pml4 in
  Ret (sp, set_mem st (add_tables sp tables (mem st))).

(** ** Mappings in other spaces *)

Definition other_flags (flags : Z) : Z := Z.lor flags (Z.lor (Z.lor VM_USER VM_NOMAP) VM_FIXED).

Definition vmap_other_rsvd st (uspace vaddr size flags : Z) : outcome (Z * vm_state (M := kmem)) :=
  kassert (negb (uspace =? kernel_space st));;
  r ← vmap_internal garbage st uspace VM_TYPE_RSVD vaddr size size (other_flags flags) 0;
  '(_, st) ← or_panic r;
  Ret (vaddr, st).

(** Tables of another space, entered through the temporary window. *)
Definition map_other st (uspace : Z) (f : mach pm_state -> Z -> outcome (list Z * mach pm_state)) : outcome (vm_state (M := kmem)) :=
  s ← get_space st uspace;
  '(tables, k) ← f (k_mach (mem st)) (page_table s);
  Ret (set_mem st (add_tables uspace tables (with_mach (mem st) k))).

Definition vmap_other_phys st (uspace paddr vaddr size flags : Z) : outcome (Z * vm_state (M := kmem)) :=
  let pg_size := vm_flags_to_size flags in
  kassert (negb (uspace =? kernel_space st));;
  kassert (is_aligned size pg_size);;
  st ← space_lock st uspace;
  let flags := other_flags flags in
  r ← vmap_internal garbage st uspace VM_TYPE_PHYS vaddr size size flags paddr;
  '(_, st) ← or_panic r;
  st ← map_other st uspace (fun k pml4 => nonrecursive_map_frames k pml4 vaddr paddr (size / pg_size) flags);
  st ← space_unlock st uspace;
  Ret (vaddr, st).

(** The addresses of the pages of a list. *)
Fixpoint page_addrs (fuel : nat) (curr : option nat) (m : kmem) : outcome (list Z) :=
  match curr with
  | None => Ret []
  | Some n =>
      match fuel with
      | O => NoFuel
      | S f => p ← get_page (k_frames m) n; l ← page_addrs f (pg_next p) m; Ret (pg_address p :: l)
      end
  end.

Definition vmap_other_pages st (uspace pages hint size flags : Z) : outcome (Z * vm_state (M := kmem)) :=
  kassert (negb (uspace =? kernel_space st));;
  st ← space_lock st uspace;
  let flags := other_flags flags in
  r ← vmap_internal garbage st uspace VM_TYPE_PAGE hint size size flags pages;
  '(vaddr, st) ← or_panic r;
  match ptr_page pages with
  | None => Fault
  | Some n =>
      p ← get_page (k_frames (mem st)) n;
      l ← page_addrs (FrameAlloc.walk_fuel (k_frames (mem st))) (Some n) (mem st);
      st ← map_other st uspace (fun k pml4 =>
        nonrecursive_map_pages k pml4 vaddr (mk_pages (pg_flags p) (pg_count p) (pg_contiguous p) l) flags);
      st ← space_unlock st uspace;
      Ret (vaddr, st)
  end.

Definition vmap_other_file st (uspace file vaddr vmsize flags : Z) : outcome (Z * vm_state (M := kmem)) :=
  kassert (negb (uspace =? kernel_space st));;
  x ← get_file (mem st) file;
  r ← vmap_internal garbage st uspace VM_TYPE_FILE vaddr (f_size x) vmsize (other_flags flags) file;
  '(_, st) ← or_panic r;
  Ret (vaddr, st).

Definition vmap_other_anon st (uspace vmsize vaddr size flags : Z) : outcome (Z * vm_state (M := kmem)) :=
  kassert (negb (uspace =? kernel_space st));;
  let flags := other_flags flags in
  '(file, m) ← VmFile.vm_file_alloc_anon size (vm_flags_to_size flags) (mem st);
  r ← vmap_internal garbage (set_mem st m) uspace VM_TYPE_FILE vaddr size vmsize flags file;
  '(_, st) ← or_panic r;
  Ret (vaddr, st).

(** ** Descriptors *)

Definition vm_desc_alloc (type : vm_type) (address size flags data : Z) : vm_desc_t :=
  mk_desc type address size size flags data false.

Definition desc_done (d : vm_desc_t) (data : Z) (mapped : bool) : vm_desc_t :=
  mk_desc (desc_type d) (desc_address d) (desc_size d) (desc_vm_size d) (desc_vm_flags d) data mapped.

(** The result, the descriptors as they are left and the state.  The pages and
    the file of a descriptor move to the mapping; a mapping at 0 is taken for
    a failure. *)
Fixpoint vm_desc_map_space st (uspace : Z) (descs : list vm_desc_t) : outcome (Z * list vm_desc_t * vm_state (M := kmem)) :=
  match descs with
  | [] => Ret (0, [], st)
  | d :: descs' =>
      let flags := Z.lor (desc_vm_flags d) VM_FIXED in
      '(res, st) ←
        match desc_type d with
        | VM_TYPE_RSVD => vmap_other_rsvd st uspace (desc_address d) (desc_size d) flags
        | VM_TYPE_PHYS => vmap_other_phys st uspace (desc_data d) (desc_address d) (desc_size d) flags
        | VM_TYPE_PAGE => vmap_other_pages st uspace (desc_data d) (desc_address d) (desc_size d) flags
        | VM_TYPE_FILE => vmap_other_file st uspace (desc_data d) (desc_address d) (desc_vm_size d) flags
        end;
      let data := match desc_type d with VM_TYPE_PAGE | VM_TYPE_FILE => 0 | _ => desc_data d end in
      if res =? 0 then st ← space_unlock st uspace; Ret (-1, desc_done d data (desc_mapped d) :: descs', st)
      else
        '(r, rest, st) ← vm_desc_map_space st uspace descs';
        Ret (r, desc_done d data true :: rest, st)
  end.

Fixpoint vm_desc_free_all (descs : list vm_desc_t) (m : kmem) : outcome kmem :=
  match descs with
  | [] => Ret m
  | d :: descs' =>
      m ← (match desc_type d with
           | VM_TYPE_PAGE => put_pages m (ptr_page (desc_data d))
           | VM_TYPE_FILE => if desc_mapped d then Ret m else VmFile.vm_file_free (desc_data d) m
           | _ => Ret m
           end);
      vm_desc_free_all descs' m
  end.

End user.
