(* ===== verification/VmFault.v ===== *)
(** * kernel/mm/vmalloc.c: pages that are mapped when they are touched

    The page fault handler of VmUser on an anonymous file: the page of the file
    at the faulting address is taken from the cache or allocated, and mapped.
    The access that faulted then finds its page; nothing else is translated
    differently, and the mappings and the files stay what they are.  A fault
    that no mapping answers for leaves the state as it is. *)

From stdpp Require Import list gmap.
From S2P Require Import Prelude Mm FrameAlloc PgCache PgTable PgWalk PgFrames VmFile.
From S2P Require Import Interval RbTree IntvlTree Vmalloc VmSpace VmMap VmFree VmBack VmPhys VmRun VmUser.
Local Open Scope Z_scope.

(** ** Files whose pages can be mapped *)

(** A page struct of one small page that is in use. *)
Definition good_page (p : page_t) : Prop :=
  has_flag (pg_flags p) PG_HEAD = true /\ pg_count p = 1 /\ pg_flags_to_size (pg_flags p) = PAGE_SIZE /\
  is_frame (pg_address p) /\ 1 <= pg_refcount p.

Record paged_file (m : kmem) (f : Z) (x : vm_file_t) (c : pgcache) : Prop := mk_paged_file {
  pf_file : k_files m !! f = Some x;
  pf_anon : f_vnode x = 0;
  pf_pg : f_pg_size x = PAGE_SIZE;
  pf_off : 0 <= f_off x;
  pf_aligned : f_off x mod PAGE_SIZE = 0;
  pf_cache : k_caches m !! f_pgcache x = Some c;
  pf_wf : PgCache.wf c;
  pf_cpg : pg_size c = PAGE_SIZE;
  pf_cap : f_off x + f_size x <= max_capacity c <= 2 ^ 64;
  pf_pages : forall o q, 0 <= o -> pgcache_lookup c o = Ret (Some q) ->
    exists n p, q = page_ptr (Some n) /\ pm_pages (k_frames m) !! n = Some p /\ good_page p;
}.

(** Page structs have numbers below the next one. *)
Definition numbered (s : pm_state) : Prop := forall n p, pm_pages s !! n = Some p -> (n < pm_fresh s)%nat.

(** Pages in use stay in use, at their frames. *)
Definition good_kept (s s' : pm_state) : Prop :=
  forall n p, pm_pages s !! n = Some p -> good_page p ->
    exists p', pm_pages s' !! n = Some p' /\ good_page p' /\ pg_address p' = pg_address p.

Lemma good_kept_trans a b c : good_kept a b -> good_kept b c -> good_kept a c.
Proof.
  intros H1 H2 n p Hn Hp. destruct (H1 n p Hn Hp) as (p1 & Hn1 & Hp1 & E1). destruct (H2 n p1 Hn1 Hp1) as (p2 & Hn2 & Hp2 & E2).
  exists p2. split; [done|]. split; [done|congruence].
Qed.

Lemma took_pages s s' id i a n p : numbered s -> took s s' id i a -> pm_pages s !! n = Some p -> pm_pages s' !! n = Some p.
Proof.
  intros Hnum Ht Hn. rewrite (tk_page _ _ _ _ _ Ht), lookup_insert_ne; [done|]. specialize (Hnum n p Hn). lia.
Qed.

Lemma took_numbered s s' id i a : numbered s -> took s s' id i a -> numbered s'.
Proof.
  intros Hnum Ht n p. rewrite (tk_page _ _ _ _ _ Ht), (tk_fresh _ _ _ _ _ Ht). destruct (decide (n = pm_fresh s)) as [->|Hne]; [lia|].
  rewrite lookup_insert_ne by done. intros Hn. specialize (Hnum n p Hn). lia.
Qed.

Lemma fault_took_kept s s' id i a : numbered s -> took s s' id i a -> good_kept s s'.
Proof. intros Hnum Ht n p Hn Hp. exists p. split; [by apply (took_pages s s' id i a)|done]. Qed.

(** An update of one page. *)
Lemma upd_page_ok s n p g : pm_pages s !! n = Some p -> upd_page s n g = Ret (with_pages s (<[n := g p]> (pm_pages s))).
Proof. intros Hn. unfold upd_page. by rewrite Hn. Qed.

Lemma insert_numbered s n p p' : numbered s -> pm_pages s !! n = Some p -> numbered (with_pages s (<[n := p']> (pm_pages s))).
Proof.
  intros Hnum Hn k q. simpl. destruct (decide (k = n)) as [->|Hne]; [intros _; by apply (Hnum n p)|].
  rewrite lookup_insert_ne by done. apply Hnum.
Qed.

Lemma insert_kept s n p p' : pm_pages s !! n = Some p -> (good_page p -> good_page p') -> pg_address p' = pg_address p ->
  good_kept s (with_pages s (<[n := p']> (pm_pages s))).
Proof.
  intros Hn Hg Ea k q Hk Hq. simpl. destruct (decide (k = n)) as [->|Hne].
  - rewrite lookup_insert_eq. exists p'. assert (q = p) as -> by congruence. split; [done|]. split; [by apply Hg|done].
  - rewrite lookup_insert_ne by done. by exists q.
Qed.

(** ** The machine, when only page structs change *)

Lemma pages_ok s g : pm_ok s -> pm_ok (with_pages s g).
Proof. intros [H1 H2 H3]. by split. Qed.

Lemma mach_ok_frames m f D : mach_ok (k_mach m) D -> pm_ok f -> (forall b, frame_free f b -> frame_free (k_frames m) b) ->
  mach_ok (k_mach (with_frames m f)) D.
Proof. intros [H1 H2 H3] Hf Hb. split; [done|done|]. intros a Ha. apply H3. by apply Hb. Qed.

Lemma mach_ok_pages m g D : mach_ok (k_mach m) D -> mach_ok (k_mach (with_frames m (with_pages (k_frames m) g))) D.
Proof. intros H. apply mach_ok_frames; [done| |done]. apply pages_ok, H. Qed.

(** ** The page at an offset *)

(** The page tables and the rest of the machine. *)
Definition same_tables (m m' : kmem) : Prop :=
  m_mem (k_mach m') = m_mem (k_mach m) /\ m_cr3 (k_mach m') = m_cr3 (k_mach m) /\ m_cpu (k_mach m') = m_cpu (k_mach m).

Lemma lookup_same_page c o o' : PgCache.wf c -> 0 <= o -> 0 <= o' -> o / pg_size c = o' / pg_size c ->
  pgcache_lookup c o = pgcache_lookup c o'.
Proof.
  intros W Ho Ho' E. pose proof (wf_pg_pos c W) as Hpos.
  assert (Hcap : o < max_capacity c <-> o' < max_capacity c).
  { rewrite (PgCache.wf_cap _ W), Z.mul_comm. pose proof (Z.div_lt_upper_bound o _ (16 ^ (PgCache.order c + 1)) Hpos).
    pose proof (Z.div_lt_upper_bound o' _ (16 ^ (PgCache.order c + 1)) Hpos).
    pose proof (Z.div_le_lower_bound o _ (16 ^ (PgCache.order c + 1)) Hpos). pose proof (Z.div_le_lower_bound o' _ (16 ^ (PgCache.order c + 1)) Hpos). lia. }
  destruct (Z.lt_ge_cases o (max_capacity c)) as [Hlt|Hge].
  - by rewrite !lookup_get, E by (done || tauto).
  - unfold pgcache_lookup. by rewrite !(proj2 (Z.leb_le _ _)) by lia.
Qed.

Section fault.
Context {V : vnode_ops}.

(** What vm_file_getpage leaves: the page [n] is the page of the cache there. *)
Record page_taken (m m' : kmem) (f : Z) (x : vm_file_t) (c c' : pgcache) (off : Z) (n : nat) (p : page_t) : Prop := mk_taken {
  gt_file : paged_file m' f x c';
  gt_numbered : numbered (k_frames m');
  gt_tables : same_tables m m';
  gt_files : k_files m' = k_files m;
  gt_caches : k_caches m' = <[f_pgcache x := c']> (k_caches m);
  gt_page : pm_pages (k_frames m') !! n = Some p;
  gt_good : good_page p;
  gt_refs : 2 <= pg_refcount p;
  gt_in : forall o, 0 <= o -> o / PAGE_SIZE = (off + f_off x) / PAGE_SIZE -> pgcache_lookup c' o = Ret (Some (page_ptr (Some n)));
  gt_out : forall o, 0 <= o -> o / PAGE_SIZE <> (off + f_off x) / PAGE_SIZE -> pgcache_lookup c' o = pgcache_lookup c o;
  gt_old : forall q, pgcache_lookup c (off + f_off x) = Ret (Some q) -> q = page_ptr (Some n);
  gt_left : (frames_left (k_frames m) <= 1 + frames_left (k_frames m'))%nat;
  gt_kept : good_kept (k_frames m) (k_frames m');
}.

Lemma ptr_page_ptr n : ptr_page (page_ptr (Some n)) = Some n.
Proof. unfold ptr_page, page_ptr. rewrite (proj2 (Z.eqb_neq _ 0)) by lia. f_equal. lia. Qed.

Lemma good_add_ref p : good_page p -> good_page (add_ref p) /\ 2 <= pg_refcount (add_ref p).
Proof. intros (H1 & H2 & H3 & H4 & H5). split; [|simpl; lia]. split_and!; try done. simpl. lia. Qed.

Lemma frame_page_good s s' id i a : pm_ok s -> id ∈ zone_ids s -> took s s' id i a -> good_page (frame_page id a).
Proof.
  intros Hok Hid Ht. destruct (src_frame (FrameSource := zone_source) s a Hok) as (_ & Hf & _).
  - exists id, i. split; [done|]. apply Ht.
  - by split_and!.
Qed.

(** The same lookups on the store of [m'], where pages in use are kept. *)
Lemma paged_kept m m' f x c : paged_file m f x c -> k_files m' = k_files m -> k_caches m' !! f_pgcache x = Some c ->
  good_kept (k_frames m) (k_frames m') -> paged_file m' f x c.
Proof.
  intros [P1 P2 P3 P4 PA P5 P6 P7 P8 P9] Ef Ec Hk. split; try done; [by rewrite Ef|].
  intros o q Ho Hq. destruct (P9 o q Ho Hq) as (n & p & E & Hn & Hp). destruct (Hk n p Hn Hp) as (p' & Hn' & Hp' & _). by exists n, p'.
Qed.

Lemma getpage_hit m f x c D off n p :
  paged_file m f x c -> numbered (k_frames m) -> mach_ok (k_mach m) D -> 0 <= off < f_size x ->
  pgcache_lookup c (off + f_off x) = Ret (Some (page_ptr (Some n))) -> pm_pages (k_frames m) !! n = Some p -> good_page p ->
  exists m', vm_file_getpage f off m = Ret (Some n, m') /\ mach_ok (k_mach m') D /\ page_taken m m' f x c c off n (add_ref p).
Proof.
  intros Hpf Hnum Hok Hoff Hl Hn Hp. pose proof Hpf as [P1 P2 P3 P4 PA P5 P6 P7 P8 P9].
  assert (Eo : u64 (off + f_off x) = off + f_off x) by (apply wrap_small; unfold fits; lia).
  eexists. split; [|split].
  - unfold vm_file_getpage, get_file. rewrite P1. cbn [mbind outcome_bind]. rewrite (proj2 (Z.leb_gt _ off)) by lia. rewrite Eo.
    unfold get_cache. rewrite P5. cbn [mbind outcome_bind]. rewrite Hl. cbn [mbind outcome_bind]. rewrite ptr_page_ptr. unfold get_ref.
    rewrite (upd_page_ok _ _ _ _ Hn). done.
  - by apply mach_ok_pages.
  - assert (Hk : good_kept (k_frames m) (with_pages (k_frames m) (<[n := add_ref p]> (pm_pages (k_frames m)))))
      by (apply (insert_kept _ _ p); [done|apply good_add_ref|done]).
    split; try done.
    + apply (paged_kept m); try done.
    + by apply (insert_numbered _ _ p).
    + symmetry. by apply insert_id.
    + apply lookup_insert_eq.
    + by apply good_add_ref.
    + by apply good_add_ref.
    + intros o Ho E. rewrite <- Hl. apply lookup_same_page; [done|done|lia|by rewrite P7].
    + intros q Hq. congruence.
    + change (frames_left (k_frames m) <= 1 + frames_left (k_frames m))%nat. lia.
Qed.

Lemma getpage_miss m f x c D off :
  paged_file m f x c -> numbered (k_frames m) -> mach_ok (k_mach m) D -> 0 <= off < f_size x ->
  pgcache_lookup c (off + f_off x) = Ret None -> (0 < frames_left (k_frames m))%nat ->
  exists n m' c' p, vm_file_getpage f off m = Ret (Some n, m') /\ mach_ok (k_mach m') D /\ page_taken m m' f x c c' off n p.
Proof.
  intros Hpf Hnum Hok Hoff Hl Hleft. pose proof Hpf as [P1 P2 P3 P4 PA P5 P6 P7 P8 P9]. pose proof (mo_src _ _ Hok) as Hsrc.
  assert (Eo : u64 (off + f_off x) = off + f_off x) by (apply wrap_small; unfold fits; lia).
  destruct (alloc_one (k_frames m) Hsrc Hleft) as (id & i & a & s' & Hid & Hrun & Ht). set (n := pm_fresh (k_frames m)) in *.
  destruct (insert_lookup c (off + f_off x) (page_ptr (Some n)) false P6) as (c' & old & Hl' & Hins & Hwf' & Epg & Ecap & Hget); [lia|].
  rewrite Hl in Hl'. injection Hl' as <-. cbn [option_list] in Hins.
  pose proof (frame_page_good _ _ _ _ _ Hsrc Hid Ht) as Hgood. destruct (good_add_ref _ Hgood) as [Hgood1 Hrefs].
  assert (Hn : pm_pages s' !! n = Some (frame_page id a)) by (rewrite (tk_page _ _ _ _ _ Ht); apply lookup_insert_eq).
  set (s2 := with_pages s' (<[n := add_ref (frame_page id a)]> (pm_pages s'))).
  assert (Hk : good_kept (k_frames m) s2).
  { apply (good_kept_trans _ s'); [by apply (fault_took_kept _ _ id i a)|]. by apply (insert_kept _ _ (frame_page id a)). }
  exists n, (with_caches (with_frames m s2) (<[f_pgcache x := c']> (k_caches m))), c', (add_ref (frame_page id a)). split; [|split].
  - unfold vm_file_getpage, get_file. rewrite P1. cbn [mbind outcome_bind]. rewrite (proj2 (Z.leb_gt _ off)) by lia. rewrite Eo.
    unfold get_cache. rewrite P5. cbn [mbind outcome_bind]. rewrite Hl. cbn [mbind outcome_bind]. unfold missing_page. rewrite P2, P3. cbn [Z.eqb].
    change (alloc_pages_size (k_frames m) 1 PAGE_SIZE) with (FrameAlloc.alloc_pages (k_frames m) 1). rewrite Hrun. cbn [mbind outcome_bind].
    unfold get_ref. change (k_frames (with_frames m s')) with s'. rewrite (upd_page_ok _ _ _ _ Hn). cbn [mbind outcome_bind].
    simpl k_caches. rewrite P5. cbn [mbind outcome_bind]. rewrite Hins. done.
  - apply (mach_ok_frames m s2 D Hok).
    + apply pages_ok. by apply (took_ok (k_frames m) s' id i a).
    + intros b Hb. by apply (took_free (k_frames m) s' id i a b).
  - split; try done.
    + split; try done; [apply lookup_insert_eq|by rewrite Epg|by rewrite Ecap|]. intros o q Ho Hq. rewrite Hget in Hq by done.
      case_decide as E.
      * injection Hq as <-. exists n, (add_ref (frame_page id a)). split; [done|]. split; [apply lookup_insert_eq|done].
      * destruct (P9 o q Ho Hq) as (k & p & Eq & Hk' & Hp). destruct (Hk k p Hk' Hp) as (p' & Hp1 & Hp2 & _). by exists k, p'.
    + apply (insert_numbered _ _ (frame_page id a)); [by apply (took_numbered (k_frames m) s' id i a)|done].
    + apply lookup_insert_eq.
    + intros o Ho E. rewrite Hget by done. rewrite decide_True; [done|]. by rewrite P7.
    + intros o Ho E. rewrite Hget by done. rewrite decide_False; [done|]. by rewrite P7.
    + intros q Hq. congruence.
    + change (frames_left (k_frames m) <= 1 + frames_left s')%nat. pose proof (took_left (k_frames m) s' id i a Hsrc Hid Ht). lia.
Qed.

Lemma getpage_ok m f x c D off :
  paged_file m f x c -> numbered (k_frames m) -> mach_ok (k_mach m) D -> 0 <= off < f_size x -> (0 < frames_left (k_frames m))%nat ->
  exists n m' c' p, vm_file_getpage f off m = Ret (Some n, m') /\ mach_ok (k_mach m') D /\ page_taken m m' f x c c' off n p.
Proof.
  intros Hpf Hnum Hok Hoff Hleft. pose proof Hpf as [P1 P2 P3 P4 PA P5 P6 P7 P8 P9].
  assert (exists r, pgcache_lookup c (off + f_off x) = Ret r) as ([q|] & Hl) by (rewrite lookup_get by (done || lia); eauto).
  - destruct (P9 (off + f_off x) q ltac:(lia) Hl) as (n & p & -> & Hn & Hp). destruct (getpage_hit m f x c D off n p) as (m' & H1 & H2 & H3); try done.
    by exists n, m', c, (add_ref p).
  - by apply getpage_miss.
Qed.

(** ** Mapping it *)

Lemma drop_shared s n p : pm_pages s !! n = Some p -> 2 <= pg_refcount p ->
  FrameAlloc.drop_pages s (Some n) = Ret (with_pages s (<[n := with_refcount p (pg_refcount p - 1)]> (pm_pages s))).
Proof.
  intros Hn Hr. unfold FrameAlloc.drop_pages, putref, get_page. rewrite Hn. cbn [mbind outcome_bind]. rewrite (upd_page_ok _ _ _ _ Hn).
  cbn [mbind outcome_bind]. by rewrite (proj2 (Z.eqb_neq _ 1)) by lia.
Qed.

Lemma mappage_ok vm f x c off n p m D :
  let ptr := vm_address vm + off in
  paged_file m f x c -> numbered (k_frames m) -> mach_ok (k_mach m) D -> pm_pages (k_frames m) !! n = Some p -> good_page p ->
  2 <= pg_refcount p -> 0 <= ptr < 2 ^ 64 -> large_free m D ptr -> idx ptr 3 <> R_ENTRY -> small_page (vm_flags vm) ->
  (3 <= frames_left (k_frames m))%nat ->
  exists m' D' p', file_type_mappage_internal vm f off n m = Ret m' /\ paged_file m' f x c /\ numbered (k_frames m') /\
    mach_ok (k_mach m') D' /\ D ⊆ D' /\ same_heap m m' /\
    (forall va, path va = path ptr -> translate (k_mach m') va = Ret (pg_address p + Z.land va 0xFFF)) /\
    (forall va, idx va 3 <> R_ENTRY -> path va <> path ptr -> translate (k_mach m') va = translate (k_mach m) va) /\
    (forall va, large_free m D va -> large_free m' D' va) /\
    pm_pages (k_frames m') !! n = Some p' /\ pg_address p' = pg_address p /\ good_kept (k_frames m) (k_frames m').
Proof.
  intros ptr Hpf Hnum Hok Hn Hp Hrefs Hptr Hl Hr Hs Hleft. pose proof Hp as (G1 & G2 & G3 & G4 & G5).
  set (P := fun s => numbered s /\ good_kept (k_frames m) s /\ pm_pages s !! n = Some p).
  destruct (map_page_keeps P vm ptr (pg_address p) m D) as
    (m1 & D' & Hrun & Hok' & Hsub & Hh & Hin & Hout & Hsm & _ & Hnum1 & Hk1 & Hn1); try done.
  { intros s s' id i a Ht (N1 & N2 & N3). split; [by apply (took_numbered s s' id i a)|]. split; [|by apply (took_pages s s' id i a)].
    apply (good_kept_trans _ s); [done|]. by apply (fault_took_kept s s' id i a). }
  { split; [done|]. split; [|done]. intros k q Hk Hq. by exists q. }
  set (e := mk_pte n (slot (get_pgtable_address ptr PG_LEVEL_PT) (PT_INDEX ptr)) (vm_address vm)).
  set (p1 := with_refcount (page_add_mapping (add_ref p) e) (pg_refcount (page_add_mapping (add_ref p) e) - 1)).
  exists (with_frames m1 (with_pages (k_frames m1) (<[n := p1]> (pm_pages (k_frames m1))))), D', p1.
  assert (Hk2 : good_kept (k_frames m) (with_pages (k_frames m1) (<[n := p1]> (pm_pages (k_frames m1))))).
  { apply (good_kept_trans _ (k_frames m1)); [done|]. apply (insert_kept _ _ p); [done| |done]. intros _. split_and!; try done. simpl. lia. }
  split.
  { unfold file_type_mappage_internal, get_page. rewrite Hn. cbn [mbind outcome_bind]. rewrite G1, G2. cbn [andb Z.eqb Pos.eqb kassert mbind outcome_bind].
    unfold get_file. rewrite (pf_file _ _ _ _ Hpf). cbn [mbind outcome_bind]. rewrite G3, (pf_pg _ _ _ _ Hpf), Z.eqb_refl. cbn [kassert mbind outcome_bind].
    rewrite (wrap_small 64) by done. fold ptr. rewrite Hrun. cbn [mbind outcome_bind]. unfold pte_struct_alloc. rewrite (upd_page_ok _ _ _ _ Hn1).
    cbn [mbind outcome_bind]. fold e. rewrite (upd_page_ok _ n (add_ref p)) by (simpl; apply lookup_insert_eq). cbn [mbind outcome_bind].
    unfold put_pages. rewrite (drop_shared _ n (page_add_mapping (add_ref p) e)); [|simpl; by rewrite insert_insert_eq, lookup_insert_eq|simpl; lia].
    cbn [mbind outcome_bind]. simpl. by rewrite !insert_insert_eq. }
  destruct Hh as (H1 & H2 & H3).
  split; [apply (paged_kept m); try done; simpl; rewrite H2; by apply Hpf|]. split; [by apply (insert_numbered _ _ p)|].
  split; [by apply mach_ok_pages|]. split; [done|]. split; [done|]. split; [done|]. split; [done|]. split; [done|].
  split; [apply lookup_insert_eq|]. split; [done|done].
Qed.

(** ** Pages of addresses *)

Lemma align_down_page v : 0 <= v < 2 ^ 64 -> align_down v PAGE_SIZE = PAGE_SIZE * (v / PAGE_SIZE).
Proof.
  intros Hv. unfold align_down. change (u64 (PAGE_SIZE - 1)) with (Z.ones 12). change PAGE_SIZE with (2 ^ 12).
  rewrite Z.mul_comm, <- Z.shiftl_mul_pow2, <- Z.shiftr_div_pow2 by lia. apply Z.bits_inj'. intros i Hi.
  rewrite Z.land_spec, Z.shiftl_spec, testbit_not_w, Z.testbit_ones_nonneg by lia.
  destruct (Z.ltb_spec i 12) as [Hlt|Hge]; cbn [negb andb].
  - rewrite (Z.testbit_neg_r _ (i - 12)) by lia. rewrite !andb_false_r. done.
  - rewrite Z.shiftr_spec by lia. replace (i - 12 + 12) with i by lia. destruct (Z.ltb_spec i 64) as [|Hge64]; [by rewrite !andb_true_r|].
    rewrite (Z.bits_above_log2 v i); [done|lia|]. destruct (Z.eq_dec v 0) as [->|]; [simpl; lia|]. apply Z.lt_le_trans with 64; [|lia]. apply Z.log2_lt_pow2; lia.
Qed.

Lemma large_free_path m D va va' : path va = path va' -> large_free m D va -> large_free m D va'.
Proof.
  unfold path. intros [= E3 E2 E1 E0] H l t Hl. specialize (H l t Hl). by destruct l; simpl in *; rewrite <- ?E3, <- ?E2, <- ?E1, <- ?E0.
Qed.

Lemma page_of_offset va addr : 0 <= va <= addr -> va mod PAGE_SIZE = 0 ->
  (va + PAGE_SIZE * ((addr - va) / PAGE_SIZE)) / PAGE_SIZE = addr / PAGE_SIZE.
Proof.
  intros H Ha. unfold PAGE_SIZE in *. rewrite (Z.mul_comm 4096), Z.div_add by lia.
  rewrite (Z_div_exact_full_2 va 4096) at 2 by lia. replace (addr - 4096 * (va / 4096)) with (addr + - (va / 4096) * 4096) by lia.
  rewrite Z.div_add by lia. lia.
Qed.

Lemma land_page a : Z.land a 0xFFF = a mod PAGE_SIZE.
Proof. change 0xFFF with (Z.ones 12). by rewrite Z.land_ones. Qed.

(** The memory side of a fault: the page of the file is found and mapped. *)
Lemma demand_ok vm x c addr m D :
  let off := align_down (u64 (addr - vm_address vm)) PAGE_SIZE in
  let o := addr - vm_address vm + f_off x in
  paged_file m (vm_data vm) x c -> numbered (k_frames m) -> mach_ok (k_mach m) D ->
  0 <= vm_address vm <= addr -> addr - vm_address vm < f_size x -> vm_address vm mod PAGE_SIZE = 0 ->
  small_page (vm_flags vm) -> canonical addr -> idx addr 3 <> R_ENTRY -> large_free m D addr -> (4 <= frames_left (k_frames m))%nat ->
  exists n m1 m' D' c' p, vm_file_getpage (vm_data vm) off m = Ret (Some n, m1) /\
    file_type_mappage_internal vm (vm_data vm) off n m1 = Ret m' /\
    mach_ok (k_mach m') D' /\ paged_file m' (vm_data vm) x c' /\ numbered (k_frames m') /\
    k_files m' = k_files m /\ k_caches m' = <[f_pgcache x := c']> (k_caches m) /\
    pgcache_lookup c' o = Ret (Some (page_ptr (Some n))) /\
    (forall q, pgcache_lookup c o = Ret (Some q) -> q = page_ptr (Some n)) /\
    (forall o', 0 <= o' -> o' / PAGE_SIZE <> o / PAGE_SIZE -> pgcache_lookup c' o' = pgcache_lookup c o') /\
    pm_pages (k_frames m') !! n = Some p /\ good_kept (k_frames m) (k_frames m') /\
    (forall a, a / PAGE_SIZE = addr / PAGE_SIZE -> translate (k_mach m') a = Ret (pg_address p + a mod PAGE_SIZE)) /\
    (forall a, canonical a -> idx a 3 <> R_ENTRY -> a / PAGE_SIZE <> addr / PAGE_SIZE ->
      translate (k_mach m') a = translate (k_mach m) a).
Proof.
  intros off o Hpf Hnum Hok Hva Hsize Hal Hs Hc Hr Hl Hleft. assert (Ha64 : 0 <= addr < 2 ^ 64) by (destruct Hc; lia).
  assert (Eoff : off = PAGE_SIZE * ((addr - vm_address vm) / PAGE_SIZE)).
  { unfold off. rewrite (wrap_small 64) by (unfold fits; lia). apply align_down_page. lia. }
  pose proof (Z.div_mod (addr - vm_address vm) PAGE_SIZE ltac:(done)) as Hdm. pose proof (Z.mod_pos_bound (addr - vm_address vm) PAGE_SIZE ltac:(done)) as Hmb.
  assert (Hoff : 0 <= off <= addr - vm_address vm).
  { pose proof (Z.div_pos (addr - vm_address vm) PAGE_SIZE ltac:(lia) ltac:(done)). unfold PAGE_SIZE in *. lia. }
  destruct (getpage_ok m (vm_data vm) x c D off Hpf Hnum Hok) as (n & m1 & c' & p & Hget & Hok1 & [T1 T2 [T3 [T3' T3'']] T4 T5 T6 T7 T8 T9 T10 T11 T12 T13]); [lia..|].
  set (ptr := vm_address vm + off).
  assert (Epath : path addr = path ptr).
  { apply path_page. change 4096 with PAGE_SIZE. unfold ptr. rewrite Eoff. symmetry. by apply page_of_offset. }
  assert (Eo : o / PAGE_SIZE = (off + f_off x) / PAGE_SIZE).
  { unfold o. rewrite Eoff. pose proof (pf_aligned _ _ _ _ Hpf) as Hfa. pose proof (Z_div_exact_full_2 (f_off x) PAGE_SIZE ltac:(done) Hfa) as Ef.
    rewrite Ef. rewrite <- Z.mul_add_distr_l, (Z.mul_comm PAGE_SIZE), (Z.mul_comm PAGE_SIZE), Z.div_add, Z.div_mul by done. done. }
  assert (Hl1 : large_free m1 D ptr).
  { apply (large_free_path _ _ addr); [done|]. unfold large_free, no_large in *. by rewrite T3. }
  pose proof (pf_off _ _ _ _ Hpf) as Hfo.
  destruct (mappage_ok vm (vm_data vm) x c' off n p m1 D) as
    (m' & D' & p' & Hmap & Hpf' & Hnum' & Hok' & Hsub & (S1 & S2 & S3) & Hin & Hout & Hlf & Hn' & Ea & Hk'); try done.
  { unfold ptr. lia. }
  { intros E3. apply Hr. rewrite <- E3. unfold path in Epath. by injection Epath. }
  { lia. }
  assert (Hsame : forall a, translate (k_mach m1) a = translate (k_mach m) a) by (intros a; unfold translate; by rewrite T3, T3').
  exists n, m1, m', D', c', p'. split; [done|]. split; [done|]. split; [done|]. split; [done|]. split; [done|].
  split; [by rewrite S1, T4|]. split; [by rewrite S2, T5|].
  assert (Eidx : pgcache_lookup c o = pgcache_lookup c (off + f_off x)).
  { apply lookup_same_page; [apply Hpf|unfold o; lia|lia|]. by rewrite (pf_cpg _ _ _ _ Hpf). }
  split; [apply T9; [unfold o; lia|done]|]. split; [intros q; rewrite Eidx; apply T11|]. split; [intros o' Ho'; rewrite Eo; by apply T10|].
  split; [done|]. split; [by apply (good_kept_trans _ (k_frames m1))|]. rewrite Ea. split.
  - intros a Hpage. rewrite <- land_page. apply Hin. unfold ptr in Epath. rewrite <- Epath. by apply path_page.
  - intros a Hca Hra Hpage. rewrite <- Hsame. apply Hout; [done|]. intros E. apply Hpage. apply canonical_path; [done|done|]. by rewrite Epath.
Qed.

(** ** The handler *)

Lemma fault_lock_unlock st sp s (m : kmem) : spaces st !! sp = Some s ->
  space_unlock (set_mem (put_space st sp (with_depth s (lock_depth s + 1))) m) sp = Ret (set_mem st m).
Proof.
  intros Hs. unfold space_unlock, get_space. simpl. rewrite lookup_insert_eq. cbn [mbind outcome_bind]. unfold put_space, set_spaces, set_mem. simpl.
  rewrite insert_insert_eq. rewrite insert_id; [done|]. rewrite Hs. destruct s. unfold with_depth. simpl. do 2 f_equal. lia.
Qed.

Lemma wf_mem st (m : kmem) : vm_wf st -> vm_wf (set_mem st m).
Proof. intros [W1 W2 W3 W4]. split; try done. intros sp s Hs. destruct (W4 sp s Hs) as (S & U & H). exists S, U. by apply (space_ok_same st). Qed.

(** C16. A page fault on a mapping of an anonymous file of small pages is
    answered: when the page was not present, the address lies in the mapped
    part of a mapping that allows the access, no large page is in the way and
    four frames are left, the handler returns and the access succeeds when it
    is repeated.
    The page of the address then translates to a page struct of the file's
    cache, the one that was there or a new one; every other address translates
    as before, the other pages of the file, the mappings and the locks are
    unchanged, and the invariants hold for the next fault. *)
Theorem page_fault_recovers st D s d vm x c addr error
    (Hwf : vm_wf st) (Hmach : mach_ok (k_mach (mem st)) D) (Hnum : numbered (k_frames (mem st)))
    (Hcur : curspace st <> 0) (Hspace : spaces st !! select_space st (curspace st) addr = Some s) (Hlock : 0 <= lock_depth s)
    (Hd : d ∈ mappings s) (Hvm : vms st !! d = Some vm) (Hnull : addr <> 0) (Hstart : 0 <= vm_address vm)
    (Haddr : vm_address vm <= addr < vm_address vm + vm_size vm) (Halign : vm_address vm mod PAGE_SIZE = 0)
    (Herror : has_flag error CPU_PF_P = false) (Hcan : can_handle_fault vm error = true) (Hsmall : small_page (vm_flags vm))
    (Hfile : paged_file (mem st) (vm_data vm) x c) (Hsize : vm_size vm <= f_size x)
    (Hcanon : canonical addr) (Hroot : idx addr 3 <> R_ENTRY) (Hlarge : large_free (mem st) D addr)
    (Hframes : (4 <= frames_left (k_frames (mem st)))%nat) :
  let o := addr - vm_address vm + f_off x in
  exists m' D' c' n p, page_fault_handler st addr error = Ret (Recovered, set_mem st m') /\
    vm_wf (set_mem st m') /\ mach_ok (k_mach m') D' /\ paged_file m' (vm_data vm) x c' /\ numbered (k_frames m') /\
    pm_pages (k_frames m') !! n = Some p /\ pgcache_lookup c' o = Ret (Some (page_ptr (Some n))) /\
    (forall q, pgcache_lookup c o = Ret (Some q) -> q = page_ptr (Some n)) /\
    (forall o', 0 <= o' -> o' / PAGE_SIZE <> o / PAGE_SIZE -> pgcache_lookup c' o' = pgcache_lookup c o') /\
    (forall a, a / PAGE_SIZE = addr / PAGE_SIZE -> translate (k_mach m') a = Ret (pg_address p + a mod PAGE_SIZE)) /\
    (forall a, canonical a -> idx a 3 <> R_ENTRY -> a / PAGE_SIZE <> addr / PAGE_SIZE ->
      translate (k_mach m') a = translate (k_mach (mem st)) a).
Proof.
  intros o. destruct (demand_ok vm x c addr (mem st) D) as
    (n & m1 & m' & D' & c' & p & Hget & Hmap & Hok' & Hpf' & Hnum' & _ & _ & Hl & Hold & Hoth & Hn & _ & Hin & Hout); try done; [lia..|].
  exists m', D', c', n, p. split; [|by split_and!; try apply wf_mem].
  set (sp := select_space st (curspace st) addr) in *. destruct (wf_spaces _ Hwf sp s Hspace) as (S & U & Hok).
  destruct (so_in _ _ _ _ _ Hok d Hd) as (v & q & Hv & _ & Hf & _). assert (v = vm) as -> by congruence.
  destruct (mapped_part vm Hf) as (F1 & F2 & _); [lia|]. pose proof (wf_vms _ Hwf d vm Hvm) as Hd0.
  set (st1 := put_space st sp (with_depth s (lock_depth s + 1))).
  assert (Hmapping : space_get_mapping st1 sp addr = Ret d).
  { apply (mapping_at st1 sp (with_depth s (lock_depth s + 1)) S U d vm); try done; [apply lookup_insert_eq| |simpl; lia|lia].
    by apply space_ok_depth, (space_ok_same st). }
  unfold page_fault_handler. rewrite (proj2 (Z.eqb_neq addr 0)), (proj2 (Z.eqb_neq _ 0) Hcur) by done. cbn [orb]. fold sp.
  unfold space_lock. rewrite (get_space_at st sp s Hspace). cbn [mbind outcome_bind]. fold st1. rewrite Herror, Hmapping. cbn [mbind outcome_bind].
  rewrite (proj2 (Z.eqb_neq d 0)) by lia. unfold get_vm. change (vms st1) with (vms st). rewrite Hvm. cbn [mbind outcome_bind].
  rewrite Hcan. cbn [negb]. change (mem st1) with (mem st). rewrite Hget. cbn [mbind outcome_bind]. rewrite Hmap. cbn [mbind outcome_bind].
  unfold st1. by rewrite (fault_lock_unlock st sp s m' Hspace).
Qed.

Lemma beyond_part vm addr : vm_fits vm -> vm_size vm mod PAGE_SIZE = 0 -> 0 < addr < UINT64_MAX ->
  ~ (vm_address vm <= addr < vm_address vm + vm_size vm) -> vm_size vm <= align_down (u64 (addr - vm_address vm)) PAGE_SIZE.
Proof.
  intros (F1 & F2 & F3 & F4) Hal Ha Hout. pose proof (wrap_range 64 (addr - vm_address vm) ltac:(lia)) as Hr. unfold fits in Hr.
  assert (0 <= vm_address vm /\ vm_address vm + vm_size vm <= UINT64_MAX) as [Hva Hend] by (unfold vm_lo in *; destruct (has_flag _ _); lia).
  rewrite align_down_page by done. set (v := u64 _) in *. assert (Hv : vm_size vm <= v).
  { unfold v, UINT64_MAX in *. destruct (Z.lt_ge_cases addr (vm_address vm)) as [Hlt|Hge]; [|rewrite (wrap_small 64) by (unfold fits; lia); lia].
    unfold wrap. rewrite <- (Z.mod_unique_pos _ (2 ^ 64) (-1) (addr - vm_address vm + 2 ^ 64)); lia. }
  rewrite (Z_div_exact_full_2 (vm_size vm) PAGE_SIZE) at 1 by done. apply Z.mul_le_mono_nonneg_l; [done|]. by apply Z.div_le_mono.
Qed.

(** The handler after it took the lock, for a page that was not present. *)
Lemma fault_absent st s addr error : curspace st <> 0 -> addr <> 0 -> has_flag error CPU_PF_P = false ->
  let sp := select_space st (curspace st) addr in
  let st1 := put_space st sp (with_depth s (lock_depth s + 1)) in
  spaces st !! sp = Some s ->
  page_fault_handler st addr error =
    (d ← space_get_mapping st1 sp addr;
     ok ← (if d =? 0 then Ret false else vm ← get_vm st1 d; Ret (can_handle_fault vm error));
     if negb ok then st ← space_unlock st1 sp; Ret (Exception, st)
     else
       vm ← get_vm st1 d;
       let off := align_down (u64 (addr - vm_address vm)) PAGE_SIZE in
       '(page, m) ← vm_file_getpage (vm_data vm) off (mem st1);
       match page with
       | None => st ← space_unlock (set_mem st1 m) sp; Ret (Exception, st)
       | Some n => m ← file_type_mappage_internal vm (vm_data vm) off n m; st ← space_unlock (set_mem st1 m) sp; Ret (Recovered, st)
       end).
Proof.
  intros Hcur Ha He sp st1 Hs. unfold page_fault_handler. rewrite (proj2 (Z.eqb_neq addr 0)), (proj2 (Z.eqb_neq _ 0) Hcur) by done. cbn [orb]. fold sp.
  unfold space_lock. rewrite (get_space_at st sp s Hs). cbn [mbind outcome_bind]. by rewrite He.
Qed.

(** The mapping of the address gives no page: the lock is released. *)
Lemma fault_no_page st s addr error d vm m' :
  vm_wf st -> curspace st <> 0 -> spaces st !! select_space st (curspace st) addr = Some s -> 0 <= lock_depth s -> 0 < addr < UINT64_MAX ->
  has_flag error CPU_PF_P = false -> d ∈ mappings s -> vms st !! d = Some vm -> contains_point (vm_virt_interval vm) addr = true ->
  can_handle_fault vm error = true -> vm_file_getpage (vm_data vm) (align_down (u64 (addr - vm_address vm)) PAGE_SIZE) (mem st) = Ret (None, m') ->
  page_fault_handler st addr error = Ret (Exception, set_mem st m').
Proof.
  intros Hwf Hcur Hs Hlock Ha He Hd Hvm Hc Hcan Hget. rewrite (fault_absent st s addr error) by (done || lia).
  set (sp := select_space st (curspace st) addr) in *. set (st1 := put_space _ _ _). destruct (wf_spaces _ Hwf sp s Hs) as (S & U & Hok).
  destruct (so_in _ _ _ _ _ Hok d Hd) as (v & q & Hv & _ & Hf & _). assert (v = vm) as -> by congruence. pose proof (wf_vms _ Hwf d vm Hvm) as Hd0.
  assert (space_get_mapping st1 sp addr = Ret d) as ->.
  { apply (mapping_at st1 sp (with_depth s (lock_depth s + 1)) S U d vm); try done; [apply lookup_insert_eq|by apply space_ok_depth, (space_ok_same st)|simpl; lia|].
    rewrite (vm_fits_interval vm Hf) in Hc. unfold contains_point in Hc. simpl in Hc. zbool. lia. }
  cbn [mbind outcome_bind]. rewrite (proj2 (Z.eqb_neq d 0)) by lia. unfold get_vm. change (vms st1) with (vms st). rewrite Hvm. cbn [mbind outcome_bind].
  rewrite Hcan. cbn [negb]. change (mem st1) with (mem st). rewrite Hget. cbn [mbind outcome_bind]. unfold st1. by rewrite (fault_lock_unlock st sp s m' Hs).
Qed.

(** C17. The page faults that end in an exception, for an address that is not
    null, in a process that has an address space.  A fault on a page that is
    present is one, and leaves the lock of the space held.  A fault on a page
    that is not present changes nothing and releases the lock when no mapping
    whose range has the address may answer it, be it for its type, its state or
    its protection.  When the mapping may answer but its file has no page to
    give, whether the file is anonymous or has a vnode, only what the file did
    remains and the lock is released; for a file not larger than the mapped
    part that is the case, without any effect, in the guard page and in the
    unused part of the mapping. *)
Theorem page_fault_refused st s addr error
    (Hwf : vm_wf st) (Hcur : curspace st <> 0) (Hspace : spaces st !! select_space st (curspace st) addr = Some s)
    (Hlock : 0 <= lock_depth s) (Haddr : 0 < addr < UINT64_MAX) :
  (has_flag error CPU_PF_P = true ->
    page_fault_handler st addr error = Ret (Exception, put_space st (select_space st (curspace st) addr) (with_depth s (lock_depth s + 1)))) /\
  (has_flag error CPU_PF_P = false ->
    (forall d vm, d ∈ mappings s -> vms st !! d = Some vm -> contains_point (vm_virt_interval vm) addr = true -> can_handle_fault vm error = false) ->
    page_fault_handler st addr error = Ret (Exception, st)) /\
  (forall d vm, has_flag error CPU_PF_P = false -> d ∈ mappings s -> vms st !! d = Some vm -> contains_point (vm_virt_interval vm) addr = true ->
    can_handle_fault vm error = true ->
    (forall m', vm_file_getpage (vm_data vm) (align_down (u64 (addr - vm_address vm)) PAGE_SIZE) (mem st) = Ret (None, m') ->
      page_fault_handler st addr error = Ret (Exception, set_mem st m')) /\
    (forall x, ~ (vm_address vm <= addr < vm_address vm + vm_size vm) -> vm_size vm mod PAGE_SIZE = 0 ->
      k_files (mem st) !! vm_data vm = Some x -> f_size x <= vm_size vm -> page_fault_handler st addr error = Ret (Exception, st))).
Proof.
  split; [|split].
  - intros He. unfold page_fault_handler. rewrite (proj2 (Z.eqb_neq addr 0)), (proj2 (Z.eqb_neq _ 0) Hcur) by lia. cbn [orb].
    unfold space_lock. rewrite (get_space_at st _ s Hspace). cbn [mbind outcome_bind]. by rewrite He.
  - intros He Hnone. rewrite (fault_absent st s addr error) by (done || lia). set (sp := select_space st (curspace st) addr) in *. set (st1 := put_space _ _ _).
    assert (Hun : space_unlock st1 sp = Ret st) by (pose proof (fault_lock_unlock st sp s (mem st) Hspace) as H; unfold st1; by destruct st).
    destruct (wf_spaces _ Hwf sp s Hspace) as (S & U & Hok).
    destruct (get_mapping_ok st1 sp (with_depth s (lock_depth s + 1)) S U addr) as (d & -> & Hans);
      [apply lookup_insert_eq|by apply space_ok_depth, (space_ok_same st)|simpl; lia|lia|].
    cbn [mbind outcome_bind]. destruct Hans as [(vm & Hd & Hvm & Hc)|[-> _]]; [|cbn [Z.eqb mbind outcome_bind negb]; by rewrite Hun].
    change (vms st1) with (vms st) in Hvm. pose proof (wf_vms _ Hwf d vm Hvm) as Hd0. rewrite (proj2 (Z.eqb_neq d 0)) by lia.
    unfold get_vm. change (vms st1) with (vms st). rewrite Hvm. cbn [mbind outcome_bind]. rewrite (Hnone d vm Hd Hvm Hc). cbn [negb]. by rewrite Hun.
  - intros d vm He Hd Hvm Hc Hcan. split; [intros m'; by apply (fault_no_page st s addr error d)|]. intros x Hpart Hal Hx Hsize.
    destruct (wf_spaces _ Hwf _ s Hspace) as (S & U & Hok). destruct (so_in _ _ _ _ _ Hok d Hd) as (v & q & Hv & _ & Hf & _). assert (v = vm) as -> by congruence.
    pose proof (beyond_part vm addr Hf Hal Haddr Hpart) as Hbig. rewrite (fault_no_page st s addr error d vm (mem st)); try done; [by destruct st|].
    unfold vm_file_getpage, get_file. rewrite Hx. cbn [mbind outcome_bind]. by rewrite (proj2 (Z.leb_le _ _)) by lia.
Qed.

End fault.

(** ** A file in the kernel's space *)

#[local] Existing Instance no_vnodes.

(** The file of VmFile on the machine of VmRun, mapped at a fixed address. *)
Definition fault_mem : kmem := mk_kmem (k_mach start_mem) {[1 := file_ex]} {[2 := cache_ex]} 3 ∅.
Definition fault_vm (prot : Z) : vm_mapping_t :=
  settled (new_mapping VM_TYPE_FILE 1 0xFFFFC01000000000 0x8000 0x8000 (readable (Z.lor VM_FIXED prot)) 1).

Lemma fault_file : paged_file fault_mem 1 file_ex cache_ex.
Proof.
  split; try done; [apply cache_ex_wf|]. intros o q Ho Hq. exfalso.
  destruct (Z.lt_ge_cases o 0x100000) as [Hlt|Hge].
  - rewrite lookup_get in Hq by (done || apply cache_ex_wf). change (PgCache.root cache_ex) with zero_node in Hq. by rewrite get_zero_node in Hq.
  - unfold pgcache_lookup in Hq. rewrite (proj2 (Z.leb_le _ o)) in Hq by done. done.
Qed.

Lemma fault_start prot : prot = VM_READ \/ prot = VM_WRITE ->
  exists st s, vm_wf st /\ curspace st = 2 /\ kernel_space st = 1 /\ spaces st !! 1 = Some s /\ lock_depth s = 0 /\ mappings s = [3] /\
    vms st = <[3 := fault_vm prot]> ∅ /\ mem st = fault_mem.
Proof.
  intros Hprot. assert (Hmaps : forall a, maps (new_mapping VM_TYPE_FILE 1 a 0x8000 0x8000 (readable (Z.lor VM_FIXED prot)) 1) fault_mem = Ret fault_mem).
  { intros a. destruct Hprot as [-> | ->]; (apply (blank_update fault_mem 1 2 file_ex cache_ex); [by split_and!; try apply cache_ex_wf|done]). }
  destruct (vmap_internal_ok no_garbage (set_mem start_state fault_mem) 2 VM_TYPE_FILE 0xFFFFC01000000000 0x8000 0x8000 (Z.lor VM_FIXED prot) 1
    0xFFFFC01000000000 0x8000 0 start_space 12) as [(_ & Hno & _)|(g & st' & _ & _ & _ & _ & _ & Hg & _ & Hadd)].
  - apply wf_mem, start_wf.
  - by destruct Hprot as [-> | ->]; vm_compute.
  - by destruct Hprot as [-> | ->]; vm_compute.
  - done.
  - done.
  - done.
  - lia.
  - lia.
  - lia.
  - by vm_compute.
  - by destruct Hprot as [-> | ->]; vm_compute.
  - by vm_compute.
  - by destruct Hprot as [-> | ->].
  - by destruct Hprot as [-> | ->]; vm_compute.
  - done.
  - split; [by destruct Hprot as [-> | ->]; vm_compute|]. by intros d vm ?%not_elem_of_nil.
  - intros g _ _ _ _ _. exists fault_mem. apply Hmaps.
  - exfalso. apply Hno. by intros d vm ?%not_elem_of_nil.
  - rewrite Hg in Hadd by (by destruct Hprot as [-> | ->]). destruct Hadd as [Wf [K1 K2 _ _ _] (s1 & Hs1 & (l & r & El & El1) & _ & _ & Hdep) Hvms Hmem].
    symmetry in El. apply app_nil in El as [-> ->]. exists st', s1.
    split; [exact Wf|]. split; [exact K2|]. split; [exact K1|]. split; [exact Hs1|]. split; [exact Hdep|]. split; [exact El1|]. split; [exact Hvms|].
    change (mem (set_mem start_state fault_mem)) with fault_mem in Hmem. rewrite Hmaps in Hmem. by injection Hmem.
Qed.

Lemma page_fault_recovers_witness :
  exists st m', page_fault_handler st 0xFFFFC01000003456 2 = Ret (Recovered, set_mem st m') /\
    exists pa, translate (k_mach m') 0xFFFFC01000003456 = Ret pa.
Proof.
  destruct (fault_start VM_WRITE (or_intror eq_refl)) as (st & s & Wf & Hcur & Hk & Hs & Hdep & Hl & Hv & Hm).
  destruct (page_fault_recovers st demo_tree s 3 (fault_vm VM_WRITE) file_ex cache_ex 0xFFFFC01000003456 2)
    as (m' & D' & c' & n & p & Hrun & _ & _ & _ & _ & _ & _ & _ & _ & Hin & _).
  - exact Wf.
  - rewrite Hm. apply demo_zones_mach.
  - rewrite Hm. by intros n p Hn.
  - by rewrite Hcur.
  - unfold select_space. rewrite Hk. exact Hs.
  - by rewrite Hdep.
  - rewrite Hl. apply list_elem_of_here.
  - rewrite Hv. apply lookup_insert_eq.
  - done.
  - by vm_compute.
  - by vm_compute.
  - by vm_compute.
  - by vm_compute.
  - by vm_compute.
  - by split.
  - rewrite Hm. apply fault_file.
  - by vm_compute.
  - right. by vm_compute.
  - by vm_compute.
  - rewrite Hm. by apply demo_no_large.
  - rewrite Hm. vm_compute. lia.
  - exists st, m'. split; [exact Hrun|]. eexists. by apply Hin.
Defined.

(** A write to a file that is mapped for reading, and a fault on a present page. *)
Lemma page_fault_refused_witness :
  exists st st', page_fault_handler st 0xFFFFC01000003456 2 = Ret (Exception, st) /\ page_fault_handler st 0xFFFFC01000003456 3 = Ret (Exception, st').
Proof.
  destruct (fault_start VM_READ (or_introl eq_refl)) as (st & s & Wf & Hcur & Hk & Hs & Hdep & Hl & Hv & Hm).
  assert (Hsel : spaces st !! select_space st (curspace st) 0xFFFFC01000003456 = Some s) by (unfold select_space; rewrite Hk; exact Hs).
  assert (Hc0 : curspace st <> 0) by (by rewrite Hcur). assert (Hd0 : 0 <= lock_depth s) by (by rewrite Hdep).
  destruct (page_fault_refused st s 0xFFFFC01000003456 2 Wf Hc0 Hsel Hd0) as (_ & Hno & _); [by vm_compute|].
  destruct (page_fault_refused st s 0xFFFFC01000003456 3 Wf Hc0 Hsel Hd0) as (Hp & _ & _); [by vm_compute|].
  eexists st, _. split; [|by apply Hp]. apply Hno; [done|].
  intros d vm Hd. rewrite Hl in Hd. apply list_elem_of_singleton in Hd as ->. rewrite Hv, lookup_insert_eq. intros [= <-] _. by vm_compute.
Defined.
