(* ===== verification/Lock.v ===== *)
(** * kernel/lock.c and kernel/mutex.c: lock claims and mutexes

    A mutex is a word that holds its owner and three state bits, and a counter.
    The functions run on a processor with its current thread.  A spin mutex is
    taken in steps, one per access of the word that other processors can race
    with, so that the steps of several processors can be interleaved (SpinLock);
    the other functions touch the word once, or only while they own it. *)

From S2P Require Import Prelude Mm.
From stdpp Require Import list gmap.
Local Open Scope Z_scope.

(** ** Lock claims *)

Abbreviation MAX_CLAIMS := 8.

(** A node of a claim list; a claim is the lock, 0 when it is gone. *)
Record claim_node := mk_claims {
  claims : list Z;
  nclaims : Z;
}.

Definition lock_claim_list_alloc : claim_node := mk_claims (replicate 8 0) 0.

Definition put_claim (n : claim_node) (lock : Z) : outcome claim_node :=
  c ← store (claims n) (nclaims n) lock; Ret (mk_claims c (nclaims n + 1)).

(** A list is its first node and the nodes behind it.  A new node replaces the
    ones behind a full first node. *)
Definition lock_claim_list_add (l : list claim_node) (lock : Z) : outcome (list claim_node) :=
  match l with
  | [] => Fault
  | n :: rest =>
      if nclaims n =? MAX_CLAIMS then n' ← put_claim lock_claim_list_alloc lock; Ret [n; n']
      else n' ← put_claim n lock; Ret (n' :: rest)
  end.

(** The last of the first [k] claims that is for [lock]. *)
Fixpoint find_claim (k : nat) (cs : list Z) (lock : Z) : outcome (option Z) :=
  match k with
  | O => Ret None
  | S k' => c ← load cs (Z.of_nat k'); if c =? lock then Ret (Some (Z.of_nat k')) else find_claim k' cs lock
  end.

Fixpoint lock_claim_list_remove (l : list claim_node) (lock : Z) : outcome (list claim_node) :=
  match l with
  | [] => Fault
  | n :: rest =>
      if (nclaims n =? MAX_CLAIMS) && negb (bool_decide (rest = [])) then
        rest ← lock_claim_list_remove rest lock; Ret (n :: rest)
      else
        i ← find_claim (Z.to_nat (nclaims n)) (claims n) lock;
        match i with
        | None => Panic
        | Some i => c ← store (claims n) i 0; Ret (mk_claims c (nclaims n - 1) :: rest)
        end
  end.

(** ** Processors and threads *)

(** A processor with its thread, 0 before there are threads; [rflags] is the
    interrupt flag that was saved. *)
Record cpu_t := mk_cpu {
  curthread : Z;
  lock_count : Z;
  spin_count : Z;
  crit_level : Z;
  irq_on : bool;
  rflags : bool;
  spin_claims : option (list claim_node);
}.

Definition with_counts (c : cpu_t) (locks spins : Z) : cpu_t :=
  mk_cpu (curthread c) locks spins (crit_level c) (irq_on c) (rflags c) (spin_claims c).
Definition with_crit (c : cpu_t) (level : Z) (irq saved : bool) : cpu_t :=
  mk_cpu (curthread c) (lock_count c) (spin_count c) level irq saved (spin_claims c).
Definition with_claims (c : cpu_t) (l : option (list claim_node)) : cpu_t :=
  mk_cpu (curthread c) (lock_count c) (spin_count c) (crit_level c) (irq_on c) (rflags c) l.

Definition critical_enter (c : cpu_t) : cpu_t :=
  if curthread c =? 0 then with_crit c (crit_level c) false (irq_on c)
  else with_crit c (crit_level c + 1) false (if crit_level c =? 0 then irq_on c else rflags c).

Definition critical_exit (c : cpu_t) : cpu_t :=
  if curthread c =? 0 then with_crit c (crit_level c) (rflags c) (rflags c)
  else with_crit c (crit_level c - 1) (if crit_level c =? 1 then rflags c else irq_on c) (rflags c).

Definition spinlock_enter (c : cpu_t) : cpu_t :=
  critical_enter (if curthread c =? 0 then c else with_counts c (lock_count c) (spin_count c + 1)).

Definition spinlock_exit (c : cpu_t) : outcome cpu_t :=
  if curthread c =? 0 then Ret (critical_exit c)
  else kassert (0 <? spin_count c);; Ret (critical_exit (with_counts c (lock_count c) (spin_count c - 1))).

(** SPIN_CLAIMS_ADD and SPIN_CLAIMS_REMOVE. *)
Definition claims_add (c : cpu_t) (lock : Z) : outcome cpu_t :=
  match spin_claims c with
  | None => Ret c
  | Some l => l ← lock_claim_list_add l lock; Ret (with_claims c (Some l))
  end.
Definition claims_remove (c : cpu_t) (lock : Z) : outcome cpu_t :=
  match spin_claims c with
  | None => Ret c
  | Some l => l ← lock_claim_list_remove l lock; Ret (with_claims c (Some l))
  end.

(** ** Mutexes *)

Abbreviation MTX_SPIN := 0x1.
Abbreviation MTX_DEBUG := 0x2.
Abbreviation MTX_RECURSIVE := 0x4.
Abbreviation MTX_NOCLAIMS := 0x8.
Abbreviation MTX_UNOWNED := 0x00.
Abbreviation MTX_LOCKED := 0x01.
Abbreviation MTX_DESTROYED := 0x02.
Abbreviation MTX_RECURSED := 0x04.
Abbreviation MTX_STATE_MASK := 0x07.
Abbreviation SPINLOCK_LOCKCLASS := 0x0001.
Abbreviation MUTEX_LOCKCLASS := 0x0002.
Abbreviation LC_MASK := 0x00ff.
Abbreviation LO_DEBUG := 0x0100.
Abbreviation LO_NOCLAIMS := 0x0200.
Abbreviation LO_RECURSABLE := 0x0400.
Abbreviation LO_INITIALIZED := 0x1000.
Abbreviation LO_FLAGS_MASK := 0xffff.
Abbreviation MA_UNLOCKED := 0x00.
Abbreviation MA_LOCKED := 0x01.
Abbreviation MA_OWNED := 0x08.
Abbreviation MA_NOTOWNED := 0x10.
Abbreviation MA_RECURSED := 0x20.
Abbreviation MA_NOTRECURSED := 0x40.

Record mtx_t := mk_mtx {
  lo_flags : Z;
  lo_data : Z;
  mtx_lock : Z;
}.

Definition new_mtx_lock (td state : Z) : Z := Z.lor td (Z.land state MTX_STATE_MASK).
Definition mtx_lock_owner (ml : Z) : Z := Z.land ml (not_w 64 MTX_STATE_MASK).
Abbreviation mtx_get_owner m := (mtx_lock_owner (mtx_lock m)).
Abbreviation mtx_get_lc m := (Z.land (lo_flags m) LC_MASK).
Abbreviation mtx_get_lo m := (Z.land (lo_flags m) LO_FLAGS_MASK).

Definition mtx_opts_to_lockobject_flags (opts : Z) : Z :=
  let '(flags, opts) :=
    if has_flag opts MTX_SPIN then (Z.lor LO_INITIALIZED SPINLOCK_LOCKCLASS, Z.land opts (not_w 32 MTX_RECURSIVE))
    else (Z.lor LO_INITIALIZED MUTEX_LOCKCLASS, opts) in
  Z.lor (Z.lor (Z.lor flags (if has_flag opts MTX_DEBUG then LO_DEBUG else 0))
    (if has_flag opts MTX_NOCLAIMS then LO_NOCLAIMS else 0)) (if has_flag opts MTX_RECURSIVE then LO_RECURSABLE else 0).

Definition mtx_init (opts : Z) : mtx_t := mk_mtx (mtx_opts_to_lockobject_flags opts) 0 MTX_UNOWNED.

Definition mtx_destroy (m : mtx_t) : outcome mtx_t :=
  kassert (negb (mtx_lock m =? MTX_DESTROYED));; Ret (mk_mtx MTX_DESTROYED 0 MTX_DESTROYED).

Definition mtx_owner (m : mtx_t) : outcome Z :=
  kassert (negb (mtx_lock m =? MTX_DESTROYED));; Ret (mtx_get_owner m).

Definition mtx_assert (m : mtx_t) (what : Z) (c : cpu_t) : outcome () :=
  let locked := has_flag (mtx_lock m) MTX_LOCKED in
  if what =? MA_UNLOCKED then kassert (mtx_lock m =? MTX_UNOWNED)
  else if has_flag what MA_LOCKED then kassert locked
  else if has_flag what MA_OWNED then kassert (locked && (mtx_get_owner m =? curthread c))
  else if has_flag what MA_NOTOWNED then kassert (negb (mtx_get_owner m =? curthread c))
  else if has_flag what MA_RECURSED then kassert (locked && (0 <? lo_data m))
  else if has_flag what MA_NOTRECURSED then kassert (locked && (lo_data m =? 1))
  else Panic.

(** The checks at the start of the lock functions for a class of mutexes. *)
Definition mtx_check (m : mtx_t) (class : Z) : outcome () :=
  kassert (negb (mtx_lock m =? MTX_DESTROYED));; kassert (mtx_get_lc m =? class).

(** One more lock by the owner. *)
Definition mtx_recurse (m : mtx_t) (c : cpu_t) : outcome (mtx_t * cpu_t) :=
  kassert (has_flag (mtx_get_lo m) LO_RECURSABLE);;
  Ret (mk_mtx (lo_flags m) (u32 (lo_data m + 1)) (Z.lor (mtx_lock m) MTX_RECURSED), with_counts c (lock_count c + 1) (spin_count c)).

Definition owns (m : mtx_t) (c : cpu_t) : bool := negb (curthread c =? 0) && (mtx_get_owner m =? curthread c).

(** The compare and exchange of a free word for the thread's. *)
Definition mtx_cas (m : mtx_t) (c : cpu_t) : option mtx_t :=
  if mtx_lock m =? MTX_UNOWNED then Some (mk_mtx (lo_flags m) (lo_data m) (new_mtx_lock (curthread c) MTX_LOCKED)) else None.

Definition set_data (m : mtx_t) (d : Z) : mtx_t := mk_mtx (lo_flags m) d (mtx_lock m).
Definition set_word (m : mtx_t) (w : Z) : mtx_t := mk_mtx (lo_flags m) (lo_data m) w.

(** *** Spin mutexes; [lock] is the address of the mutex *)

Definition mtx_spin_trylock (lock : Z) (m : mtx_t) (c : cpu_t) : outcome (bool * mtx_t * cpu_t) :=
  mtx_check m SPINLOCK_LOCKCLASS;;
  kassert ((mtx_get_owner m =? 0) || negb (mtx_get_owner m =? curthread c));;
  c ← claims_add (spinlock_enter c) lock;
  if owns m c then '(m, c) ← mtx_recurse m c; Ret (true, m, c)
  else
    match mtx_cas m c with
    | Some m => Ret (true, set_data m 1, c)
    | None => c ← claims_remove c lock; c ← spinlock_exit c; Ret (false, m, c)
    end.

Abbreviation MAX_RETRIES := 0xFFFFFFFF.

(** Where a thread is in _mtx_spin_lock: before the exchange, before the load
    of the word in the inner loop, or the owner before it sets the counter.
    [waits] counts the delays so far. *)
Inductive spin_pc :=
  | SpinExchange (waits : Z)
  | SpinLoad (waits : Z)
  | SpinOwned.

(** The start of _mtx_spin_lock; it ends the call of an owner. *)
Definition spin_lock_begin (lock : Z) (m : mtx_t) (c : cpu_t) : outcome (mtx_t * cpu_t * option spin_pc) :=
  mtx_check m SPINLOCK_LOCKCLASS;;
  c ← claims_add (spinlock_enter c) lock;
  if owns m c then '(m, c) ← mtx_recurse m c; Ret (m, c, None) else Ret (m, c, Some (SpinExchange 0)).

(** One access of the word, or the write of the counter. *)
Definition spin_lock_step (m : mtx_t) (c : cpu_t) (pc : spin_pc) : outcome (mtx_t * option spin_pc) :=
  match pc with
  | SpinExchange w => match mtx_cas m c with Some m => Ret (m, Some SpinOwned) | None => Ret (m, Some (SpinLoad w)) end
  | SpinLoad w =>
      if mtx_lock m =? MTX_UNOWNED then Ret (m, Some (SpinExchange w))
      else if MAX_RETRIES <=? w then Panic else Ret (m, Some (SpinLoad (w + 1)))
  | SpinOwned => Ret (set_data m 1, None)
  end.

(** The steps of a processor that runs alone. *)
Fixpoint spin_lock_alone (fuel : nat) (m : mtx_t) (c : cpu_t) (pc : option spin_pc) : outcome (mtx_t * cpu_t) :=
  match pc with
  | None => Ret (m, c)
  | Some pc =>
      match fuel with
      | O => NoFuel
      | S f => '(m, pc) ← spin_lock_step m c pc; spin_lock_alone f m c pc
      end
  end.

Definition mtx_spin_lock (fuel : nat) (lock : Z) (m : mtx_t) (c : cpu_t) : outcome (mtx_t * cpu_t) :=
  '(m, c, pc) ← spin_lock_begin lock m c; spin_lock_alone fuel m c pc.

(** _mtx_spin_unlock up to the store of the word: the mutex, and whether it is
    to be released. *)
Definition spin_unlock_begin (m : mtx_t) (c : cpu_t) : outcome (mtx_t * bool) :=
  mtx_check m SPINLOCK_LOCKCLASS;;
  kassert (mtx_get_owner m =? curthread c);;
  let m := set_data m (u32 (lo_data m - 1)) in
  if has_flag (mtx_lock m) MTX_RECURSED && (0 <? lo_data m) then
    kassert (has_flag (mtx_get_lo m) LO_RECURSABLE);;
    Ret (if lo_data m =? 1 then set_word m (Z.land (mtx_lock m) (not_w 64 MTX_RECURSED)) else m, false)
  else kassert (lo_data m =? 0);; Ret (m, true).

Definition spin_unlock_end (lock : Z) (c : cpu_t) : outcome cpu_t := c ← claims_remove c lock; spinlock_exit c.

Definition mtx_spin_unlock (lock : Z) (m : mtx_t) (c : cpu_t) : outcome (mtx_t * cpu_t) :=
  '(m, release) ← spin_unlock_begin m c;
  if (release : bool) then c ← spin_unlock_end lock c; Ret (set_word m MTX_UNOWNED, c) else Ret (m, c).

(** *** Wait mutexes *)

Definition mtx_wait_trylock (m : mtx_t) (c : cpu_t) : outcome (bool * mtx_t * cpu_t) :=
  mtx_check m MUTEX_LOCKCLASS;;
  if owns m c then '(m, c) ← mtx_recurse m c; Ret (true, m, c)
  else
    match mtx_cas m c with
    | Some m => if curthread c =? 0 then Fault else Ret (true, set_data m 1, with_counts c (lock_count c + 1) (spin_count c))
    | None => Ret (false, m, c)
    end.

(** A thread that does not get a mutex goes to sleep on a lock queue, under the
    lock of the chain that the queue is in. *)
Inductive wait_result := Acquired (m : mtx_t) (c : cpu_t) | Sleeps (chain : mtx_t).

(** [chain] is the lock of the chain of a mutex; chains have locks of their own. *)
Fixpoint mtx_wait_lock (fuel : nat) (chain : mtx_t) (m : mtx_t) (c : cpu_t) : outcome wait_result :=
  match fuel with
  | O => NoFuel
  | S f =>
      mtx_check m MUTEX_LOCKCLASS;;
      if owns m c then '(m, c) ← mtx_recurse m c; Ret (Acquired m c)
      else
        match mtx_cas m c with
        | Some m => if curthread c =? 0 then Fault else Ret (Acquired (set_data m 1) (with_counts c (lock_count c + 1) (spin_count c)))
        | None =>
            r ← mtx_wait_lock f chain chain c;
            match r with Acquired chain _ => Ret (Sleeps chain) | Sleeps chain => Ret (Sleeps chain) end
        end
  end.

(** The chain locks, as lockq_static_init of kernel/tqueue.c makes them. *)
Definition chain_lock : mtx_t := mtx_init MTX_SPIN.

Definition mtx_wait_unlock (m : mtx_t) (c : cpu_t) : outcome (mtx_t * cpu_t) :=
  if mtx_get_owner m =? 0 then Panic
  else
    mtx_check m MUTEX_LOCKCLASS;;
    kassert (mtx_get_owner m =? curthread c);;
    let m := set_data m (u32 (lo_data m - 1)) in
    let c := with_counts c (lock_count c - 1) (spin_count c) in
    if has_flag (mtx_lock m) MTX_RECURSED && (0 <? lo_data m) then
      kassert (has_flag (mtx_get_lo m) LO_RECURSABLE);;
      Ret (if lo_data m =? 1 then set_word m (Z.land (mtx_lock m) (not_w 64 MTX_RECURSED)) else m, c)
    else kassert (lo_data m =? 0);; Ret (set_word m MTX_UNOWNED, c).
