(* ===== verification/LockRun.v ===== *)
(** * Claim lists and wait mutexes

    Claim lists hold the locks of a processor as a stack of at most eight, and
    lose claims when locks are released in another order.  A wait mutex is an
    owner and a depth; a thread that finds it taken panics. *)

From S2P Require Import Prelude Mm Lock.
From stdpp Require Import list gmap.
Local Open Scope Z_scope.

(** ** Claim lists *)

(** The list holds the claims of [st], the latest first. *)
Definition claims_ok (l : list claim_node) (st : list Z) : Prop :=
  exists junk, l = [mk_claims (rev st ++ junk) (Z.of_nat (length st))] /\ length (rev st ++ junk) = 8%nat.

Lemma claims_alloc : claims_ok [lock_claim_list_alloc] [].
Proof. by exists (replicate 8 0). Qed.

Lemma claims_length l st : claims_ok l st -> (length st <= 8)%nat.
Proof. intros (junk & _ & H). rewrite length_app, length_rev in H. lia. Qed.

Lemma claims_add_ok l st lock : claims_ok l st -> (length st < 8)%nat ->
  exists l', lock_claim_list_add l lock = Ret l' /\ claims_ok l' (lock :: st).
Proof.
  intros (junk & -> & Hl) Hd. rewrite length_app, length_rev in Hl. destruct junk as [|j junk]; [simpl in Hl; lia|].
  eexists. split.
  - unfold lock_claim_list_add, put_claim. cbn [nclaims claims]. rewrite (proj2 (Z.eqb_neq _ _)) by lia.
    rewrite store_in_range by (rewrite length_app, length_rev; simpl; lia). done.
  - exists junk. rewrite Nat2Z.id. simpl. rewrite insert_app_r_alt, length_rev, Nat.sub_diag by (rewrite length_rev; lia). simpl.
    rewrite <- app_assoc. split; [do 2 f_equal; lia|]. rewrite length_app, length_rev. simpl in *. lia.
Qed.

Lemma find_top st junk lock k : k = length (lock :: st) ->
  find_claim k (rev (lock :: st) ++ junk) lock = Ret (Some (Z.of_nat (length st))).
Proof.
  intros ->. simpl. unfold load. rewrite (proj2 (Z.leb_le _ _)), Nat2Z.id by lia.
  rewrite <- app_assoc, lookup_app_r, length_rev, Nat.sub_diag by (rewrite length_rev; lia). simpl. by rewrite Z.eqb_refl.
Qed.

Lemma claims_remove_ok l st lock : claims_ok l (lock :: st) ->
  exists l', lock_claim_list_remove l lock = Ret l' /\ claims_ok l' st.
Proof.
  intros (junk & -> & Hl). eexists. split.
  - cbn [lock_claim_list_remove nclaims claims]. rewrite bool_decide_eq_true_2, andb_false_r by done. rewrite Nat2Z.id, find_top by done. cbn [mbind outcome_bind].
    rewrite store_in_range by (rewrite Hl; simpl in Hl; rewrite !length_app, length_rev in Hl; simpl in Hl; lia). done.
  - exists (0 :: junk). rewrite Nat2Z.id. simpl. rewrite <- app_assoc, insert_app_r_alt, length_rev, Nat.sub_diag by (rewrite length_rev; lia). simpl.
    split; [do 2 f_equal; lia|]. simpl in Hl. rewrite !length_app, length_rev in Hl. rewrite length_app, length_rev. simpl in *. lia.
Qed.

Inductive claim_op := Claim (lock : Z) | Drop (lock : Z).

Fixpoint claim_run (l : list claim_node) (ops : list claim_op) : outcome (list claim_node) :=
  match ops with
  | [] => Ret l
  | Claim lock :: ops => l ← lock_claim_list_add l lock; claim_run l ops
  | Drop lock :: ops => l ← lock_claim_list_remove l lock; claim_run l ops
  end.

(** The same on a stack; [None] when a claim is dropped that is not the latest
    or when there are more than eight. *)
Fixpoint stack_run (st : list Z) (ops : list claim_op) : option (list Z) :=
  match ops with
  | [] => Some st
  | Claim lock :: ops => if decide (length st < 8)%nat then stack_run (lock :: st) ops else None
  | Drop lock :: ops => match st with top :: st => if decide (top = lock) then stack_run st ops else None | [] => None end
  end.

(** C19. A claim list is a stack of locks: as long as at most eight locks are
    held and the latest is released first, claims are added and removed
    without a panic and the list holds exactly the locks held. *)
Theorem claims_stack ops l st st' (Hl : claims_ok l st) (Hrun : stack_run st ops = Some st') :
  exists l', claim_run l ops = Ret l' /\ claims_ok l' st'.
Proof.
  revert l st Hl Hrun. induction ops as [|[lock|lock] ops IH]; intros l st Hl Hrun; simpl in Hrun.
  - injection Hrun as <-. by exists l.
  - case_decide as Hd; [|done]. destruct (claims_add_ok l st lock Hl Hd) as (l1 & H1 & Hl1). simpl. rewrite H1. cbn [mbind outcome_bind]. by apply (IH l1 (lock :: st)).
  - destruct st as [|top st]; [done|]. case_decide as Hd; [|done]. subst top. destruct (claims_remove_ok l st lock Hl) as (l1 & H1 & Hl1).
    simpl. rewrite H1. cbn [mbind outcome_bind]. by apply (IH l1 st).
Qed.

Lemma claims_stack_witness :
  exists l, claim_run [lock_claim_list_alloc] [Claim 16; Claim 32; Drop 32; Claim 48; Drop 48] = Ret l /\ claims_ok l [16].
Proof. apply (claims_stack _ _ [] [16] claims_alloc). reflexivity. Defined.

Lemma find_below st junk lock k : (k <= length st)%nat -> lock ∉ st -> find_claim k (rev st ++ junk) lock = Ret None.
Proof.
  intros Hk Hn. induction k as [|k IH]; [done|]. simpl. unfold load. rewrite (proj2 (Z.leb_le _ _)), Nat2Z.id by lia.
  rewrite lookup_app_l by (rewrite length_rev; lia). destruct (rev st !! k) as [x|] eqn:E; [|apply lookup_ge_None in E; rewrite length_rev in E; lia].
  cbn [mbind outcome_bind]. destruct (Z.eqb_spec x lock) as [->|_]; [|apply IH; lia].
  apply list_elem_of_lookup_2 in E. apply list_elem_of_In, in_rev, list_elem_of_In in E. done.
Qed.

Lemma load_past (st rest : list Z) (i k : nat) (x : Z) : rest !! k = Some x -> i = (length st + k)%nat -> load (rev st ++ rest) (Z.of_nat i) = Ret x.
Proof.
  intros Hx ->. unfold load. rewrite (proj2 (Z.leb_le _ _)), Nat2Z.id by lia. rewrite lookup_app_r, length_rev by (rewrite length_rev; lia).
  replace (length st + k - length st)%nat with k by lia. by rewrite Hx.
Qed.

(** Releasing two spin locks in the order they were taken panics: the
    first release shortens the list although its claim was not the last, and
    the second does not find its claim any more. *)
Theorem claims_out_of_order l a b st (Hl : claims_ok l (b :: a :: st)) (Hab : a <> b) (Hb : b ∉ st) (Ha : a ∉ st) (Hb0 : b <> 0) :
  exists l', lock_claim_list_remove l a = Ret l' /\ lock_claim_list_remove l' b = Panic.
Proof.
  destruct Hl as (junk & -> & Hlen). rewrite !length_app, length_rev in Hlen. simpl in Hlen.
  assert (Hshape : rev (b :: a :: st) ++ junk = rev st ++ a :: b :: junk) by (simpl; by rewrite <- !app_assoc).
  eexists. split.
  - cbn [lock_claim_list_remove nclaims claims]. rewrite bool_decide_eq_true_2, andb_false_r by done. rewrite Nat2Z.id. cbn [length find_claim].
    rewrite Hshape, (load_past st _ (S (length st)) 1 b) by (done || (simpl; lia)). cbn [mbind outcome_bind]. rewrite (proj2 (Z.eqb_neq b a)) by done.
    rewrite (load_past st _ (length st) 0 a) by (done || (simpl; lia)). cbn [mbind outcome_bind]. rewrite Z.eqb_refl. cbn [mbind outcome_bind].
    rewrite store_in_range by (rewrite length_app, length_rev; simpl; lia). done.
  - cbn [lock_claim_list_remove nclaims claims]. rewrite bool_decide_eq_true_2, andb_false_r by done. rewrite Nat2Z.id.
    rewrite insert_app_r_alt, length_rev, Nat.sub_diag by (rewrite length_rev; lia).
    replace (Z.to_nat (Z.of_nat (S (S (length st))) - 1)) with (S (length st)) by lia. cbn [find_claim].
    rewrite (load_past st _ (length st) 0 0) by (done || (simpl; lia)). cbn [mbind outcome_bind]. rewrite (proj2 (Z.eqb_neq 0 b)) by done. by rewrite (find_below st).
Qed.

Lemma claims_out_of_order_witness :
  exists l l', claim_run [lock_claim_list_alloc] [Claim 16; Claim 32] = Ret l /\ lock_claim_list_remove l 16 = Ret l' /\ lock_claim_list_remove l' 32 = Panic.
Proof.
  eexists. destruct (claims_out_of_order [mk_claims [16; 32; 0; 0; 0; 0; 0; 0] 2] 16 32 []) as (l' & H1 & H2).
  - by exists (replicate 6 0).
  - done.
  - apply not_elem_of_nil.
  - apply not_elem_of_nil.
  - done.
  - exists l'. split; [reflexivity|]. split; [exact H1|exact H2].
Defined.

(** ** The word of a mutex *)

(** An address of a thread. *)
Definition thread (t : Z) : Prop := 0 < t < 2 ^ 64 /\ t mod 8 = 0.

Lemma thread_bits t i : thread t -> 0 <= i < 3 -> Z.testbit t i = false.
Proof.
  intros [_ Hm] Hi. rewrite <- (Z.mod_pow2_bits_low t 3) by lia. change (2 ^ 3) with 8. by rewrite Hm, Z.bits_0.
Qed.

Section word.
Context (t s : Z) (Ht : thread t) (Hs : fits 3 s).

Lemma word_owner : mtx_lock_owner (Z.lor t s) = t.
Proof.
  apply Z.bits_inj'. intros i Hi. unfold mtx_lock_owner. change MTX_STATE_MASK with (Z.ones 3).
  rewrite Z.land_spec, Z.lor_spec, testbit_not_w, Z.testbit_ones_nonneg by lia.
  destruct (Z.ltb_spec i 3); simpl; [rewrite !andb_false_r; by rewrite (thread_bits t) by (done || lia)|].
  rewrite (fits_testbit 3 s), orb_false_r, andb_true_r by (done || lia).
  destruct (Z.ltb_spec i 64); simpl; [by rewrite andb_true_r|]. rewrite andb_false_r, (fits_testbit 64 t); [done|lia| |lia]. destruct Ht. unfold fits. lia.
Qed.

Lemma word_flag k : 0 <= k < 3 -> has_flag (Z.lor t s) (2 ^ k) = Z.testbit s k.
Proof. intros Hk. rewrite has_flag_bit by lia. by rewrite Z.lor_spec, (thread_bits t) by (done || lia). Qed.

Lemma word_taken : Z.lor t s <> 0 /\ Z.lor t s <> 2.
Proof. destruct Ht as [Hr Hm]. split; intros E; pose proof word_owner as W; rewrite E in W; compute in W; lia. Qed.

Lemma word_clear : Z.land (Z.lor t s) (not_w 64 MTX_RECURSED) = Z.lor t (Z.land s (not_w 64 MTX_RECURSED)).
Proof.
  rewrite Z.land_lor_distr_l. f_equal. apply Z.bits_inj'. intros i Hi. change MTX_RECURSED with (2 ^ 2). rewrite Z.land_spec, testbit_not_w by lia.
  destruct (Z.ltb_spec i 64); [|rewrite (fits_testbit 64 t) by (done || lia || (destruct Ht; unfold fits; lia)); done].
  destruct (decide (i = 2)) as [->|Hne]; [by rewrite (thread_bits t) by (done || lia)|]. by rewrite Z.pow2_bits_false, andb_true_r by lia.
Qed.
End word.

Lemma owner_free : mtx_lock_owner 0 = 0.
Proof. done. Qed.

(** ** Wait mutexes *)

Inductive mtx_op := MLock | MTry | MUnlock.

(** One call by the thread of [c]; the result is that of a try. *)
Definition mtx_do (m : mtx_t) (c : cpu_t) (op : mtx_op) : outcome (bool * mtx_t * cpu_t) :=
  match op with
  | MLock => r ← mtx_wait_lock 2 chain_lock m c; match r with Acquired m c => Ret (true, m, c) | Sleeps _ => NoFuel end
  | MTry => mtx_wait_trylock m c
  | MUnlock => '(m, c) ← mtx_wait_unlock m c; Ret (true, m, c)
  end.

(** Calls by several threads, one after the other. *)
Fixpoint mtx_run (m : mtx_t) (cs : gmap Z cpu_t) (ops : list (Z * mtx_op)) : outcome (list bool * mtx_t * gmap Z cpu_t) :=
  match ops with
  | [] => Ret ([], m, cs)
  | (t, op) :: ops =>
      match cs !! t with
      | None => Fault
      | Some c =>
          '(r, m, c) ← mtx_do m c op;
          '(rs, m, cs) ← mtx_run m (<[t := c]> cs) ops;
          Ret (r :: rs, m, cs)
      end
  end.

(** A mutex as its owner and depth; [None] is a panic. *)
Definition lock_spec (recursive : bool) (st : option (Z * nat)) (t : Z) (op : mtx_op) : option (bool * option (Z * nat)) :=
  match op, st with
  | (MLock | MTry), None => Some (true, Some (t, 1%nat))
  | (MLock | MTry), Some (o, d) =>
      if decide (o = t) then (if recursive then Some (true, Some (t, S d)) else None)
      else match op with MTry => Some (false, st) | _ => None end
  | MUnlock, Some (o, d) => if decide (o = t) then Some (true, match d with S (S d) => Some (t, S d) | _ => None end) else None
  | MUnlock, None => None
  end.

Fixpoint lock_spec_run (recursive : bool) (st : option (Z * nat)) (ops : list (Z * mtx_op)) : option (list bool * option (Z * nat)) :=
  match ops with
  | [] => Some ([], st)
  | (t, op) :: ops =>
      '(r, st) ← lock_spec recursive st t op;
      '(rs, st) ← lock_spec_run recursive st ops;
      Some (r :: rs, st)
  end.

(** How often a thread holds the mutex. *)
Definition held (st : option (Z * nat)) (t : Z) : Z :=
  match st with Some (o, d) => if decide (o = t) then Z.of_nat d else 0 | None => 0 end.

Definition wait_opts (recursive : bool) : Z := if recursive then MTX_RECURSIVE else 0.
Definition depth_bits (d : nat) : Z := if decide (2 <= d)%nat then 5 else 1.

Definition mtx_is (recursive : bool) (m : mtx_t) (st : option (Z * nat)) : Prop :=
  lo_flags m = mtx_opts_to_lockobject_flags (wait_opts recursive) /\
  match st with
  | None => mtx_lock m = 0 /\ lo_data m = 0
  | Some (o, d) => thread o /\ (1 <= d)%nat /\ (recursive = false -> d = 1%nat) /\ mtx_lock m = Z.lor o (depth_bits d) /\ lo_data m = Z.of_nat d
  end.

Lemma depth_bits_fits d : fits 3 (depth_bits d).
Proof. unfold depth_bits, fits. case_decide; lia. Qed.

Lemma recursable recursive : has_flag (Z.land (mtx_opts_to_lockobject_flags (wait_opts recursive)) LO_FLAGS_MASK) LO_RECURSABLE = recursive.
Proof. by destruct recursive. Qed.

Lemma wait_class recursive : (Z.land (mtx_opts_to_lockobject_flags (wait_opts recursive)) LC_MASK =? MUTEX_LOCKCLASS) = true.
Proof. by destruct recursive. Qed.

Section wait.
Context (m : mtx_t) (c : cpu_t) (Hc : thread (curthread c)).

Lemma wait_check recursive st : mtx_is recursive m st -> mtx_check m MUTEX_LOCKCLASS = Ret ().
Proof.
  intros [Hf Hm]. unfold mtx_check. rewrite Hf, wait_class. replace (mtx_lock m =? MTX_DESTROYED) with false; [done|]. symmetry. apply Z.eqb_neq.
  destruct st as [[o d]|]; destruct Hm as [Ho Hm].
  - destruct Hm as (_ & _ & -> & _). apply word_taken; [done|apply depth_bits_fits].
  - by rewrite Ho.
Qed.

Lemma wait_owns recursive st : mtx_is recursive m st -> owns m c = match st with Some (o, _) => bool_decide (o = curthread c) | None => false end.
Proof.
  intros [Hf Hm]. unfold owns. destruct Hc as [Hr _]. rewrite (proj2 (Z.eqb_neq _ 0)) by lia. simpl. destruct st as [[o d]|].
  - destruct Hm as (Ho & _ & _ & -> & _). rewrite word_owner by (done || apply depth_bits_fits).
    case_bool_decide as E; [by apply Z.eqb_eq|by apply Z.eqb_neq].
  - destruct Hm as [-> _]. rewrite owner_free. apply Z.eqb_neq. lia.
Qed.

Lemma wait_cas recursive st : mtx_is recursive m st ->
  mtx_cas m c = match st with None => Some (set_word m (Z.lor (curthread c) 1)) | Some _ => None end.
Proof.
  intros [Hf Hm]. unfold mtx_cas. destruct st as [[o d]|].
  - destruct Hm as (Ho & _ & _ & -> & _). by rewrite (proj2 (Z.eqb_neq _ _)) by (apply word_taken; [done|apply depth_bits_fits]).
  - by destruct Hm as [-> _].
Qed.

Abbreviation depth_fits st := (match st with Some (_, d) => Z.of_nat d + 1 < 2 ^ 32 | None => True end).

(** What a call leaves: the mutex and the count of locks of the thread. *)
Definition mtx_step (recursive : bool) (r : outcome (bool * mtx_t * cpu_t)) (st : option (Z * nat)) (spec : option (bool * option (Z * nat))) : Prop :=
  match spec with
  | None => r = Panic
  | Some (b, st') =>
      exists m' c', r = Ret (b, m', c') /\ mtx_is recursive m' st' /\ curthread c' = curthread c /\
        lock_count c' = lock_count c + held st' (curthread c) - held st (curthread c)
  end.

Lemma recurse_ok (recursive : bool) d : mtx_is recursive m (Some (curthread c, d)) -> Z.of_nat d + 1 < 2 ^ 32 ->
  mtx_step recursive ('(m, c) ← mtx_recurse m c; Ret (true, m, c)) (Some (curthread c, d))
    (if recursive then Some (true, Some (curthread c, S d)) else None).
Proof.
  intros [Hf (_ & Hd & Hrec & Hw & Hdat)] Hfit. unfold mtx_recurse. rewrite Hf, recursable. destruct recursive; [|done].
  replace (u32 (lo_data m + 1)) with (Z.of_nat (S d)) by (rewrite wrap_small; unfold fits; lia).
  unfold mtx_step. eexists _, _. split; [done|]. simpl. rewrite !decide_True by done. repeat split; try done; try apply Hc; try lia.
  rewrite Hw, <- Z.lor_assoc. f_equal. unfold depth_bits. rewrite (decide_True (P := (2 <= S d)%nat)) by lia. by case_decide.
Qed.

Lemma take_ok recursive : mtx_is recursive m None ->
  mtx_step recursive (match mtx_cas m c with
            | Some m => if curthread c =? 0 then Fault else Ret (true, set_data m 1, with_counts c (lock_count c + 1) (spin_count c))
            | None => Ret (false, m, c)
            end) None (Some (true, Some (curthread c, 1%nat))).
Proof.
  intros Hm. rewrite (wait_cas _ _ Hm). destruct Hm as [Hf _]. destruct Hc as [Hr Ha]. rewrite (proj2 (Z.eqb_neq _ 0)) by lia.
  eexists _, _. split; [done|]. simpl. rewrite decide_True by done. repeat split; done || lia.
Qed.

Lemma unlock_ok recursive st : mtx_is recursive m st -> depth_fits st ->
  mtx_step recursive (mtx_do m c MUnlock) st (lock_spec recursive st (curthread c) MUnlock).
Proof.
  intros Hm Hfit. pose proof (wait_check _ _ Hm) as Hck. destruct Hm as [Hf Hm]. unfold mtx_do, mtx_wait_unlock. destruct st as [[o d]|]; simpl.
  2: { destruct Hm as [-> _]. by rewrite owner_free. }
  destruct Hm as (Ho & Hd & Hrec & Hw & Hdat). rewrite Hck, Hw, word_owner by (done || apply depth_bits_fits). destruct Ho as [Hr Ha].
  rewrite (proj2 (Z.eqb_neq o 0)) by lia. cbn [mbind outcome_bind]. case_decide as E.
  2: { by rewrite (proj2 (Z.eqb_neq o (curthread c))) by done. }
  subst o. rewrite Z.eqb_refl. cbn [mbind outcome_bind kassert lo_data set_data mtx_lock lo_flags]. rewrite Hdat, wrap_small by (unfold fits; lia).
  change MTX_RECURSED with (2 ^ 2) at 1. rewrite ?Hw, word_flag by (done || lia || apply depth_bits_fits). destruct d as [|[|d]]; [lia| |].
  - simpl. eexists _, _. split; [done|]. simpl. rewrite decide_True by done. repeat split; done || lia.
  - destruct recursive; [|by specialize (Hrec eq_refl)]. rewrite (proj2 (Z.ltb_lt 0 _)) by lia. rewrite Hf, recursable. cbn [andb mbind outcome_bind kassert].
    unfold depth_bits at 1. rewrite decide_True by lia. cbn [Z.testbit Z.of_nat andb mbind outcome_bind].
    eexists _, _. split; [done|]. simpl held. rewrite !decide_True by done. destruct d as [|d].
    + simpl. rewrite word_clear by (done || apply depth_bits_fits). repeat split; done || lia.
    + rewrite (proj2 (Z.eqb_neq _ 1)) by lia. cbn [mtx_is set_data lo_flags mtx_lock lo_data curthread lock_count with_counts]. unfold mtx_is. simpl mtx_lock. simpl lo_data. rewrite Hw. repeat split; done || lia.
Qed.

Lemma mtx_do_ok recursive st op : mtx_is recursive m st -> depth_fits st ->
  mtx_step recursive (mtx_do m c op) st (lock_spec recursive st (curthread c) op).
Proof.
  intros Hm Hfit. pose proof (wait_check _ _ Hm) as Hck. pose proof (wait_owns _ _ Hm) as How. pose proof (wait_cas _ _ Hm) as Hcas.
  destruct op; [| |by apply unlock_ok]; unfold mtx_do; cbn [mtx_wait_lock]; unfold mtx_wait_trylock; rewrite Hck, How; cbn [mbind outcome_bind].
  all: destruct st as [[o d]|]; cbn [lock_spec].
  - case_decide as E; [subst o; rewrite bool_decide_eq_true_2 by done|by rewrite bool_decide_eq_false_2, Hcas by done].
    pose proof (recurse_ok _ _ Hm Hfit) as H. by destruct (mtx_recurse m c) as [[]| | |].
  - pose proof (take_ok _ Hm) as H. rewrite Hcas in *. by case_match.
  - case_decide as E; [subst o; rewrite bool_decide_eq_true_2 by done; by apply recurse_ok|]. rewrite bool_decide_eq_false_2, Hcas by done.
    eexists _, _. split; [done|]. split; [done|]. split; [done|lia].
  - by apply take_ok.
Qed.
End wait.

Lemma held_other recursive st t op b st' u : lock_spec recursive st t op = Some (b, st') -> u <> t -> held st' u = held st u.
Proof.
  intros H Hu. destruct op, st as [[o d]|]; simpl in *; repeat (case_decide || case_match); simplify_eq; simpl; repeat case_decide; simplify_eq; done.
Qed.

Lemma depth_grows recursive st t op b st' n : lock_spec recursive st t op = Some (b, st') ->
  match st with Some (_, d) => Z.of_nat d + Z.of_nat (S n) < 2 ^ 32 | None => Z.of_nat (S n) < 2 ^ 32 end ->
  match st' with Some (_, d) => Z.of_nat d + Z.of_nat n < 2 ^ 32 | None => Z.of_nat n < 2 ^ 32 end.
Proof.
  intros H Hn. destruct op, st as [[o d]|]; simpl in *; repeat (case_decide || case_match); simplify_eq; lia.
Qed.

Definition depth_room (st : option (Z * nat)) (n : nat) : Prop :=
  match st with Some (_, d) => Z.of_nat d + Z.of_nat n < 2 ^ 32 | None => Z.of_nat n < 2 ^ 32 end.

Definition run_ok (recursive : bool) (cs : gmap Z cpu_t) (r : outcome (list bool * mtx_t * gmap Z cpu_t)) (st : option (Z * nat))
    (spec : option (list bool * option (Z * nat))) : Prop :=
  match spec with
  | None => r = Panic
  | Some (rs, st') =>
      exists m' cs', r = Ret (rs, m', cs') /\ mtx_is recursive m' st' /\
        forall t c, cs !! t = Some c -> exists c', cs' !! t = Some c' /\ lock_count c' = lock_count c + held st' t - held st t
  end.

Lemma mtx_run_from recursive ops : forall m cs st, mtx_is recursive m st -> depth_room st (S (length ops)) ->
  (forall t c, cs !! t = Some c -> curthread c = t /\ thread t) -> Forall (fun o => o.1 ∈ dom cs) ops ->
  run_ok recursive cs (mtx_run m cs ops) st (lock_spec_run recursive st ops).
Proof.
  induction ops as [|[t op] ops IH]; intros m cs st Hm Hroom Hcs Hops; simpl.
  - exists m, cs. split; [done|]. split; [done|]. intros t c Ht. exists c. split; [done|lia].
  - apply Forall_cons in Hops as [Ht Hops]. apply elem_of_dom in Ht as [c Ht]. simpl in Ht. rewrite Ht. destruct (Hcs _ _ Ht) as [Hcur Hthr].
    assert (Hstep : mtx_step c recursive (mtx_do m c op) st (lock_spec recursive st t op)).
    { rewrite <- Hcur. apply mtx_do_ok; [by rewrite Hcur|done|]. unfold depth_room in Hroom. destruct st as [[? ?]|]; [lia|done]. }
    destruct (lock_spec recursive st t op) as [[b st1]|] eqn:Espec; simpl in *; [|by rewrite Hstep].
    destruct Hstep as (m1 & c1 & -> & Hm1 & Hcur1 & Hcnt). cbn [mbind outcome_bind].
    specialize (IH m1 (<[t := c1]> cs) st1 Hm1 (depth_grows _ _ _ _ _ _ _ Espec Hroom)).
    assert (Hcs1 : forall u cu, (<[t := c1]> cs) !! u = Some cu -> curthread cu = u /\ thread u).
    { intros u cu. rewrite lookup_insert_Some. intros [[<- <-]|[_ Hu]]; [by rewrite Hcur1|by apply Hcs]. }
    assert (Hops1 : Forall (fun o => o.1 ∈ dom (<[t := c1]> cs)) ops).
    { eapply Forall_impl; [exact Hops|]. simpl. intros ? ?. rewrite dom_insert. set_solver. }
    specialize (IH Hcs1 Hops1).
    destruct (lock_spec_run recursive st1 ops) as [[rs st']|]; simpl in *; [|by rewrite IH].
    destruct IH as (m' & cs' & -> & Hm' & Hcnts). exists m', cs'. split; [done|]. split; [done|]. intros u cu Hu.
    destruct (decide (u = t)) as [->|Hne].
    + destruct (Hcnts t c1 (lookup_insert_eq _ _ _)) as (c' & Hc' & Hl). exists c'. split; [done|]. rewrite Hl, Hcnt, Hcur. rewrite Ht in Hu. simplify_eq. lia.
    + destruct (Hcnts u cu) as (c' & Hc' & Hl); [by rewrite lookup_insert_ne|]. exists c'. split; [done|]. rewrite Hl. by rewrite (held_other _ _ _ _ _ _ u Espec) by done.
Qed.

(** C18. A wait mutex is an owner with a depth.  Over any sequence of lock,
    trylock and unlock calls of several threads the results are those of that
    machine, every thread's count of locks is what it holds, and the calls
    panic exactly where the machine stops: on an unlock by a thread that does
    not own the mutex, a second lock of a mutex that is not recursive, and a
    lock of a mutex that another thread owns. *)
Theorem mtx_run_refines recursive ops cs (Hcs : forall t c, cs !! t = Some c -> curthread c = t /\ thread t)
    (Hops : Forall (fun o => o.1 ∈ dom cs) ops) (Hlen : Z.of_nat (length ops) < 2 ^ 32 - 1) :
  match lock_spec_run recursive None ops with
  | None => mtx_run (mtx_init (wait_opts recursive)) cs ops = Panic
  | Some (rs, st) =>
      exists m cs', mtx_run (mtx_init (wait_opts recursive)) cs ops = Ret (rs, m, cs') /\ mtx_is recursive m st /\
        forall t c, cs !! t = Some c -> exists c', cs' !! t = Some c' /\ lock_count c' = lock_count c + held st t
  end.
Proof.
  assert (H : run_ok recursive cs (mtx_run (mtx_init (wait_opts recursive)) cs ops) None (lock_spec_run recursive None ops)).
  { apply mtx_run_from; [by destruct recursive|unfold depth_room; lia|done..]. }
  unfold run_ok in H. destruct (lock_spec_run recursive None ops) as [[rs st]|]; [|done].
  destruct H as (m & cs' & Hr & Hm & Hcnt). exists m, cs'. split; [done|]. split; [done|]. intros t c Ht. destruct (Hcnt t c Ht) as (c' & Hc' & Hl). exists c'. simpl in Hl. split; [done|lia].
Qed.

Definition idle_cpu (t : Z) : cpu_t := mk_cpu t 0 0 0 true false None.

Lemma mtx_run_refines_witness :
  exists m cs', mtx_run (mtx_init (wait_opts true)) {[ 64 := idle_cpu 64; 128 := idle_cpu 128 ]}
      [(64, MLock); (64, MLock); (128, MTry); (64, MUnlock); (64, MUnlock); (128, MTry)] = Ret ([true; true; false; true; true; true], m, cs') /\
    mtx_is true m (Some (128, 1%nat)) /\
    forall t c, ({[ 64 := idle_cpu 64; 128 := idle_cpu 128 ]} : gmap Z cpu_t) !! t = Some c ->
      exists c', cs' !! t = Some c' /\ lock_count c' = lock_count c + held (Some (128, 1%nat)) t.
Proof.
  apply (mtx_run_refines true [(64, MLock); (64, MLock); (128, MTry); (64, MUnlock); (64, MUnlock); (128, MTry)] {[ 64 := idle_cpu 64; 128 := idle_cpu 128 ]}).
  - intros t c H. apply lookup_insert_Some in H as [[<- <-]|[_ H]]; [done|]. apply lookup_singleton_Some in H as [<- <-]. done.
  - repeat constructor; apply elem_of_dom; eexists; reflexivity.
  - reflexivity.
Defined.
