(* ===== verification/SpinLock.v ===== *)
(** * Spin mutexes under interleaving

    Threads on processors of their own lock and unlock one spin mutex, one
    access of the word at a time and in any order.  At most one is between the
    exchange that takes the word and the store that frees it, its processor
    keeps interrupts off, and in a fair run the mutex is taken again and again
    as long as somebody wants it. *)

From S2P Require Import Prelude Mm Lock LockRun.
From stdpp Require Import list gmap.
Local Open Scope Z_scope.

(** ** The system *)

(** Where a thread is: outside, in _mtx_spin_lock, with the mutex, or in
    _mtx_spin_unlock before the store of the word or after it. *)
Inductive spin_at := Outside | Locking (pc : spin_pc) | Inside | Releasing | Leaving.

#[global] Instance spin_pc_eq_dec : EqDecision spin_pc.
Proof. solve_decision. Defined.
#[global] Instance spin_at_eq_dec : EqDecision spin_at.
Proof. solve_decision. Defined.

Definition spin_pc_at (pc : option spin_pc) : spin_at := match pc with Some pc => Locking pc | None => Inside end.

(** One step of a thread that locks and unlocks the mutex over and over. *)
Definition spin_thread (lock : Z) (m : mtx_t) (c : cpu_t) (at_ : spin_at) : outcome (mtx_t * cpu_t * spin_at) :=
  match at_ with
  | Outside => '(m, c, pc) ← spin_lock_begin lock m c; Ret (m, c, spin_pc_at pc)
  | Locking pc => '(m, pc) ← spin_lock_step m c pc; Ret (m, c, spin_pc_at pc)
  | Inside => '(m, release) ← spin_unlock_begin m c; Ret (m, c, if (release : bool) then Releasing else Inside)
  | Releasing => Ret (set_word m MTX_UNOWNED, c, Leaving)
  | Leaving => c ← spin_unlock_end lock c; Ret (m, c, Outside)
  end.

Record spin_sys := mk_sys {
  s_mtx : mtx_t;
  s_cpus : gmap Z (cpu_t * spin_at);
}.

(** The thread [t] makes a step. *)
Definition sys_step (lock : Z) (s : spin_sys) (t : Z) : outcome spin_sys :=
  match s_cpus s !! t with
  | None => Fault
  | Some (c, a) => '(m, c, a) ← spin_thread lock (s_mtx s) c a; Ret (mk_sys m (<[t := (c, a)]> (s_cpus s)))
  end.

Inductive spin_reach (lock : Z) (s0 : spin_sys) : spin_sys -> Prop :=
  | reach_start : spin_reach lock s0 s0
  | reach_step s t s' : spin_reach lock s0 s -> sys_step lock s t = Ret s' -> spin_reach lock s0 s'.

(** The first [n] steps of a schedule. *)
Fixpoint spin_run (lock : Z) (s0 : spin_sys) (sched : nat -> Z) (n : nat) : outcome spin_sys :=
  match n with
  | O => Ret s0
  | S n => s ← spin_run lock s0 sched n; sys_step lock s (sched n)
  end.

(** A new mutex, and the processors of the threads. *)
Definition spin_start (opts : Z) (cs : gmap Z cpu_t) : spin_sys := mk_sys (mtx_init opts) ((fun c => (c, Outside)) <$> cs).

(** ** The processor of a thread *)

Definition claims_hold (oc : option (list claim_node)) (st : list Z) : Prop :=
  match oc with None => True | Some l => claims_ok l st end.

(** A processor that can take one more spin mutex; [st] are those it has. *)
Record good_cpu (c : cpu_t) (st : list Z) : Prop := {
  gc_thread : thread (curthread c);
  gc_spins : 0 <= spin_count c;
  gc_level : 0 <= crit_level c;
  gc_irq : 0 < crit_level c -> irq_on c = false;
  gc_claims : claims_hold (spin_claims c) st;
  gc_room : (length st < 8)%nat;
}.

(** The processor that started as [c0] without the mutex and with it. *)
Record cpu_out (c0 : cpu_t) (st : list Z) (c : cpu_t) : Prop := {
  co_thread : curthread c = curthread c0;
  co_locks : lock_count c = lock_count c0;
  co_spins : spin_count c = spin_count c0;
  co_level : crit_level c = crit_level c0;
  co_irq : irq_on c = irq_on c0;
  co_saved : 0 < crit_level c0 -> rflags c = rflags c0;
  co_claims : claims_hold (spin_claims c) st;
}.

Record cpu_in (lock : Z) (c0 : cpu_t) (st : list Z) (c : cpu_t) : Prop := {
  ci_thread : curthread c = curthread c0;
  ci_locks : lock_count c = lock_count c0;
  ci_spins : spin_count c = spin_count c0 + 1;
  ci_level : crit_level c = crit_level c0 + 1;
  ci_irq : irq_on c = false;
  ci_saved : rflags c = if crit_level c0 =? 0 then irq_on c0 else rflags c0;
  ci_claims : claims_hold (spin_claims c) (lock :: st);
}.

Lemma good_out c st : good_cpu c st -> cpu_out c st c.
Proof. by intros []. Qed.

Section cpu.
Context (lock : Z) (c0 : cpu_t) (st : list Z) (Hgood : good_cpu c0 st).

Lemma enter_ok c : cpu_out c0 st c -> exists c', claims_add (spinlock_enter c) lock = Ret c' /\ cpu_in lock c0 st c'.
Proof.
  intros Hout. destruct Hgood as [[Ht _] Hs Hl Hi Hc Hr]. destruct Hout as [H1 H2 H3 H4 H5 H6 H7].
  assert (H0 : (curthread c =? 0) = false) by (apply Z.eqb_neq; lia).
  unfold claims_add, spinlock_enter, critical_enter. rewrite !H0. simpl. rewrite H0. simpl.
  assert (Hsaved : (if crit_level c =? 0 then irq_on c else rflags c) = if crit_level c0 =? 0 then irq_on c0 else rflags c0).
  { rewrite H4, H5. destruct (Z.eqb_spec (crit_level c0) 0); [done|]. apply H6. lia. }
  destruct (spin_claims c) as [l|] eqn:El.
  - destruct (claims_add_ok l st lock) as (l' & Hl' & Hok); [done|done|]. rewrite Hl'. eexists. split; [done|]. split; simpl; done || lia.
  - eexists. split; [done|]. split; simpl; try done; [lia..|by rewrite El].
Qed.

Lemma exit_ok c : cpu_in lock c0 st c -> exists c', spin_unlock_end lock c = Ret c' /\ cpu_out c0 st c'.
Proof.
  intros Hin. destruct Hgood as [[Ht _] Hs Hl Hi Hc Hr]. destruct Hin as [H1 H2 H3 H4 H5 H6 H7].
  assert (H0 : (curthread c =? 0) = false) by (apply Z.eqb_neq; lia).
  assert (Hrem : exists c1, claims_remove c lock = Ret c1 /\ claims_hold (spin_claims c1) st /\ c1 = with_claims c (spin_claims c1)).
  { unfold claims_remove. destruct (spin_claims c) as [l|] eqn:El; [|exists c; by destruct c; simpl in *; subst].
    destruct (claims_remove_ok l st lock H7) as (l' & -> & Hok). by eexists. }
  destruct Hrem as (c1 & Hc1 & Hok & E). unfold spin_unlock_end. rewrite Hc1. cbn [mbind outcome_bind]. rewrite E.
  unfold spinlock_exit, critical_exit. simpl. rewrite !H0. rewrite (proj2 (Z.ltb_lt 0 _)) by lia. eexists. split; [done|].
  split; simpl; try done; try lia.
  - rewrite H4, H5, H6. destruct (Z.eqb_spec (crit_level c0 + 1) 1), (Z.eqb_spec (crit_level c0) 0); try lia; [done|]. symmetry. apply Hi. lia.
  - rewrite H6. intros. by rewrite (proj2 (Z.eqb_neq _ 0)) by lia.
Qed.
End cpu.

(** ** The invariant *)

Lemma spin_flags opts : has_flag opts MTX_SPIN = true ->
  (Z.land (mtx_opts_to_lockobject_flags opts) LC_MASK =? SPINLOCK_LOCKCLASS) = true.
Proof.
  intros H. unfold mtx_opts_to_lockobject_flags. rewrite H.
  assert (E : has_flag (Z.land opts (not_w 32 MTX_RECURSIVE)) MTX_RECURSIVE = false).
  { unfold has_flag. rewrite <- Z.land_assoc. change (Z.land (not_w 32 MTX_RECURSIVE) MTX_RECURSIVE) with 0. by rewrite Z.land_0_r. }
  rewrite E. by destruct (has_flag _ MTX_DEBUG), (has_flag _ MTX_NOCLAIMS).
Qed.

Definition holding (a : spin_at) : bool := match a with Locking SpinOwned | Inside | Releasing => true | _ => false end.

(** The counter of a mutex that a thread holds. *)
Definition counter (a : spin_at) : Z := match a with Inside => 1 | _ => 0 end.

(** Where a thread goes when it finds the word free or not, and the word it
    leaves. *)
Definition next_at (free : bool) (a : spin_at) : spin_at :=
  match a with
  | Outside => Locking (SpinExchange 0)
  | Locking (SpinExchange w) => if free then Locking SpinOwned else Locking (SpinLoad w)
  | Locking (SpinLoad w) => if free then Locking (SpinExchange w) else Locking (SpinLoad (w + 1))
  | Locking SpinOwned => Inside
  | Inside => Releasing
  | Releasing => Leaving
  | Leaving => Outside
  end.

Definition next_word (t word : Z) (a : spin_at) : Z :=
  match a with
  | Locking (SpinExchange _) => if word =? 0 then Z.lor t 1 else word
  | Releasing => 0
  | _ => word
  end.

(** A thread whose delays are used up. *)
Definition exhausted (s : spin_sys) (a : spin_at) : Prop :=
  mtx_lock (s_mtx s) <> 0 /\ exists w, a = Locking (SpinLoad w) /\ MAX_RETRIES <= w.

Section spin.
Context (lock opts : Z) (Hspin : has_flag opts MTX_SPIN = true) (cs : gmap Z cpu_t) (sts : Z -> list Z).
Context (Hcs : forall t c, cs !! t = Some c -> curthread c = t /\ good_cpu c (sts t)).

Definition cpu_at (t : Z) (c : cpu_t) (a : spin_at) : Prop :=
  exists c0, cs !! t = Some c0 /\ if decide (a = Outside) then cpu_out c0 (sts t) c else cpu_in lock c0 (sts t) c.

Record spin_inv (s : spin_sys) : Prop := {
  si_flags : lo_flags (s_mtx s) = mtx_opts_to_lockobject_flags opts;
  si_cpus : forall t c a, s_cpus s !! t = Some (c, a) -> cpu_at t c a;
  si_holder : forall t c a, s_cpus s !! t = Some (c, a) -> holding a = true ->
    mtx_lock (s_mtx s) = Z.lor t 1 /\ lo_data (s_mtx s) = counter a;
  si_free : mtx_lock (s_mtx s) = 0 /\ lo_data (s_mtx s) = 0 \/
    exists t c a, s_cpus s !! t = Some (c, a) /\ holding a = true;
}.

Lemma start_inv : spin_inv (spin_start opts cs).
Proof.
  split; simpl; [done| | |by left].
  - intros t c a H. apply lookup_fmap_Some in H as (c0 & E & H). simplify_eq. exists c. split; [done|]. simpl. by apply good_out, Hcs.
  - intros t c a H. apply lookup_fmap_Some in H as (c0 & E & H). by simplify_eq.
Qed.

Lemma at_thread t c a : cpu_at t c a -> curthread c = t /\ thread t.
Proof.
  intros (c0 & Hc0 & H). destruct (Hcs _ _ Hc0) as [<- [Ht _ _ _ _ _]]. split; [|done]. case_decide; by destruct H.
Qed.

Section state.
Context (s : spin_sys) (Hinv : spin_inv s).

(** Two threads do not hold the mutex at once. *)
Lemma one_holder t1 c1 a1 t2 c2 a2 : s_cpus s !! t1 = Some (c1, a1) -> s_cpus s !! t2 = Some (c2, a2) ->
  holding a1 = true -> holding a2 = true -> t1 = t2.
Proof.
  intros H1 H2 Ha1 Ha2. destruct (si_holder s Hinv _ _ _ H1 Ha1) as [W1 _]. destruct (si_holder s Hinv _ _ _ H2 Ha2) as [W2 _].
  rewrite W1 in W2. apply (f_equal mtx_lock_owner) in W2.
  rewrite !word_owner in W2 by (done || (eapply at_thread, si_cpus; done)). done.
Qed.

Lemma word_cases : mtx_lock (s_mtx s) = 0 /\ lo_data (s_mtx s) = 0 \/
  exists t c a, s_cpus s !! t = Some (c, a) /\ holding a = true /\ thread t /\ mtx_lock (s_mtx s) = Z.lor t 1.
Proof.
  destruct (si_free s Hinv) as [H|(t & c & a & H & Ha)]; [by left|]. right. exists t, c, a. split; [done|]. split; [done|].
  split; [eapply at_thread, si_cpus; done|]. by eapply si_holder.
Qed.

Lemma spin_check : mtx_check (s_mtx s) SPINLOCK_LOCKCLASS = Ret ().
Proof.
  unfold mtx_check. rewrite (si_flags s Hinv), spin_flags by done. rewrite (proj2 (Z.eqb_neq _ MTX_DESTROYED)); [done|].
  destruct word_cases as [[-> _]|(t & c & a & _ & _ & Ht & ->)]; [done|]. by apply word_taken.
Qed.

Lemma not_owner t c a : s_cpus s !! t = Some (c, a) -> holding a = false -> mtx_get_owner (s_mtx s) <> t.
Proof.
  intros H Ha. destruct (at_thread t c a) as [_ [Hr _]]; [by eapply si_cpus|].
  destruct word_cases as [[-> _]|(u & cu & au & Hu & Hau & Hthr & ->)]; [rewrite owner_free; lia|]. rewrite word_owner by done. congruence.
Qed.

(** Nobody else holds the mutex when the word is free or [t] holds it. *)
Lemma nobody_else t c a u cu au : s_cpus s !! t = Some (c, a) -> (mtx_lock (s_mtx s) = 0 \/ holding a = true) ->
  s_cpus s !! u = Some (cu, au) -> u <> t -> holding au = false.
Proof.
  intros Ht Hor Hu Hne. destruct (holding au) eqn:E; [|done]. exfalso. destruct Hor as [H0|Ha]; [|eauto using one_holder].
  destruct (si_holder s Hinv _ _ _ Hu E) as [W _]. rewrite W in H0. apply word_taken in H0; [done| |done]. eapply at_thread, si_cpus; done.
Qed.

(** A step that leaves the mutex to those who hold it. *)
Lemma spin_inv_same t c a c' a' : s_cpus s !! t = Some (c, a) -> holding a = false -> holding a' = false -> cpu_at t c' a' ->
  spin_inv (mk_sys (s_mtx s) (<[t := (c', a')]> (s_cpus s))).
Proof.
  intros H Ha Ha' Hat. destruct Hinv as [Hf Hcp Hh Hfr]. split; simpl; [done| | |].
  - intros u cu au. rewrite lookup_insert_Some. intros [[<- [= <- <-]]|[_ Hu]]; eauto.
  - intros u cu au. rewrite lookup_insert_Some. intros [[<- [= <- <-]]|[_ Hu]] Hau; [congruence|eauto].
  - destruct Hfr as [Hfr|(u & cu & au & Hu & Hau)]; [by left|]. right. exists u, cu, au. rewrite lookup_insert_ne by congruence. done.
Qed.

(** A step of the thread that takes, holds or frees the mutex. *)
Lemma inv_own t c a m a' : s_cpus s !! t = Some (c, a) -> (mtx_lock (s_mtx s) = 0 \/ holding a = true) -> cpu_at t c a' ->
  lo_flags m = lo_flags (s_mtx s) -> lo_data m = counter a' -> mtx_lock m = (if holding a' then Z.lor t 1 else 0) -> (holding a' = false -> counter a' = 0) ->
  spin_inv (mk_sys m (<[t := (c, a')]> (s_cpus s))).
Proof.
  intros H Hor Hat Hf Hd Hw Hz. split; simpl; [by rewrite Hf, (si_flags s Hinv)| | |].
  - intros u cu au. rewrite lookup_insert_Some. intros [[<- [= <- <-]]|[_ Hu]]; [done|by apply (si_cpus s Hinv)].
  - intros u cu au. rewrite lookup_insert_Some. intros [[<- [= <- <-]]|[Hne Hu]] Hau; [by rewrite Hw, Hau|].
    rewrite (nobody_else t c a u cu au) in Hau; done.
  - destruct (holding a') eqn:Ea; [right|left; split; [done|rewrite Hd; auto]]. exists t, c, a'. by rewrite lookup_insert_eq.
Qed.
End state.

Lemma at_in t c a : cpu_at t c a -> a <> Outside -> exists c0, cs !! t = Some c0 /\ cpu_in lock c0 (sts t) c.
Proof. intros (c0 & Hc0 & H) Ha. rewrite decide_False in H by done. eauto. Qed.

Lemma in_at t c a c0 : cs !! t = Some c0 -> cpu_in lock c0 (sts t) c -> a <> Outside -> cpu_at t c a.
Proof. intros Hc0 H Ha. exists c0. by rewrite decide_False. Qed.

Definition steps_to (s : spin_sys) (t : Z) (a : spin_at) : Prop :=
  exists m c', sys_step lock s t = Ret (mk_sys m (<[t := (c', next_at (mtx_lock (s_mtx s) =? 0) a)]> (s_cpus s))) /\
    mtx_lock m = next_word t (mtx_lock (s_mtx s)) a /\
    spin_inv (mk_sys m (<[t := (c', next_at (mtx_lock (s_mtx s) =? 0) a)]> (s_cpus s))).

Section step.
Context (s : spin_sys) (Hinv : spin_inv s) (t : Z) (c : cpu_t).

Lemma step_outside : s_cpus s !! t = Some (c, Outside) -> steps_to s t Outside.
Proof.
  intros H. destruct (si_cpus s Hinv _ _ _ H) as (c0 & Hc0 & Hout). simpl in Hout. destruct (Hcs _ _ Hc0) as [Hcur Hgood].
  destruct (enter_ok lock c0 (sts t) Hgood c Hout) as (c' & He & Hin). exists (s_mtx s), c'. split; [|split; [done|]].
  - unfold sys_step, spin_thread, spin_lock_begin. rewrite H, spin_check by done. cbn [mbind outcome_bind]. rewrite He. cbn [mbind outcome_bind].
    unfold owns. rewrite (ci_thread _ _ _ _ Hin), Hcur, (proj2 (Z.eqb_neq (mtx_get_owner _) t)), andb_false_r by (by eapply not_owner). done.
  - eapply spin_inv_same; [done|exact H|done|done|]. by eapply in_at.
Qed.

Lemma step_locking pc : s_cpus s !! t = Some (c, Locking pc) ->
  exhausted s (Locking pc) /\ sys_step lock s t = Panic \/ ~ exhausted s (Locking pc) /\ steps_to s t (Locking pc).
Proof.
  intros H. pose proof (si_cpus s Hinv _ _ _ H) as Hat. destruct (at_thread _ _ _ Hat) as [Hcur Hthr].
  destruct (at_in _ _ _ Hat) as (c0 & Hc0 & Hin); [done|]. assert (Hat' : forall a, a <> Outside -> cpu_at t c a) by eauto using in_at.
  unfold steps_to, sys_step, spin_thread, spin_lock_step. rewrite H. destruct pc as [w|w|].
  - right. split; [by intros [_ (? & ? & _)]|]. unfold mtx_cas, next_at, next_word. destruct (Z.eqb_spec (mtx_lock (s_mtx s)) 0) as [E|E].
    + eexists _, _. split; [done|]. simpl. split; [by rewrite Hcur|]. eapply inv_own; eauto; [|by simpl; rewrite Hcur].
      destruct (word_cases s Hinv) as [[_ ->]|(u & cu & au & _ & _ & Hu & W)]; [done|]. rewrite W in E. by apply word_taken in E.
    + eexists _, _. split; [done|]. split; [done|]. by eapply spin_inv_same; eauto.
  - unfold next_at, next_word. destruct (Z.eqb_spec (mtx_lock (s_mtx s)) 0) as [E|E].
    + right. split; [by intros [? _]|]. eexists _, _. split; [done|]. split; [done|]. by eapply spin_inv_same; eauto.
    + destruct (Z.leb_spec MAX_RETRIES w).
      * left. split; [|done]. split; [done|]. by exists w.
      * right. split; [intros [_ (w' & ? & ?)]; simplify_eq; lia|]. eexists _, _. split; [done|]. split; [done|]. by eapply spin_inv_same; eauto.
  - right. split; [by intros [_ (? & ? & _)]|]. eexists _, _. split; [done|]. split; [done|]. eapply inv_own; eauto; [by apply (si_holder s Hinv _ _ _ H)|done].
Qed.

Lemma step_unlock a : a = Inside \/ a = Releasing -> s_cpus s !! t = Some (c, a) -> steps_to s t a.
Proof.
  intros Ha H. pose proof (si_cpus s Hinv _ _ _ H) as Hat. destruct (at_thread _ _ _ Hat) as [Hcur Hthr].
  destruct (at_in _ _ _ Hat) as (c0 & Hc0 & Hin); [by destruct Ha as [-> | ->]|].
  destruct (si_holder s Hinv _ _ _ H) as [W D]; [by destruct Ha as [-> | ->]|].
  unfold steps_to, sys_step, spin_thread. rewrite H. destruct Ha as [-> | ->]; simpl in D.
  - unfold spin_unlock_begin. rewrite spin_check by done. cbn [mbind outcome_bind]. rewrite W, word_owner, Hcur, Z.eqb_refl by done. cbn [mbind outcome_bind kassert].
    simpl mtx_lock. rewrite W. change MTX_RECURSED with (2 ^ 2) at 1. rewrite word_flag, D by (done || lia). simpl.
    eexists _, _. split; [done|]. split; [done|]. eapply inv_own; eauto.
  - eexists _, _. split; [done|]. split; [done|]. eapply inv_own; eauto; by eapply in_at.
Qed.

Lemma step_leaving : s_cpus s !! t = Some (c, Leaving) -> steps_to s t Leaving.
Proof.
  intros H. pose proof (si_cpus s Hinv _ _ _ H) as Hat. destruct (at_in _ _ _ Hat) as (c0 & Hc0 & Hin); [done|]. destruct (Hcs _ _ Hc0) as [_ Hgood].
  destruct (exit_ok lock c0 (sts t) Hgood c Hin) as (c' & He & Hout). exists (s_mtx s), c'. unfold sys_step, spin_thread. rewrite H, He.
  split; [done|]. split; [done|]. eapply spin_inv_same; [done|exact H|done|done|]. by exists c0.
Qed.

(** A step goes where the algorithm says, or panics for a thread that has
    waited too often. *)
Lemma sys_step_ok a : s_cpus s !! t = Some (c, a) ->
  exhausted s a /\ sys_step lock s t = Panic \/ ~ exhausted s a /\ steps_to s t a.
Proof.
  intros H. destruct a as [|pc| | |]; [|by apply step_locking|..]; right; (split; [by intros [_ (? & ? & _)]|]);
    eauto using step_outside, step_leaving, step_unlock.
Qed.
End step.

Lemma reach_inv s : spin_reach lock (spin_start opts cs) s -> spin_inv s.
Proof.
  induction 1 as [|s t s' _ IH Hs]; [apply start_inv|]. destruct (s_cpus s !! t) as [[c a]|] eqn:E; [|unfold sys_step in Hs; by rewrite E in Hs].
  destruct (sys_step_ok s IH t c a E) as [[_ Hp]|[_ (m & c' & Hr & _ & Hi)]]; [congruence|]. rewrite Hs in Hr. by injection Hr as ->.
Qed.

(** *** Progress *)

Definition trying (s : spin_sys) (t : Z) : Prop := exists c pc, s_cpus s !! t = Some (c, Locking pc) /\ pc <> SpinOwned.

(** The thread [y] takes the mutex. *)
Definition takes (s : spin_sys) (y : Z) : Prop :=
  mtx_lock (s_mtx s) = 0 /\ exists c w, s_cpus s !! y = Some (c, Locking (SpinExchange w)).

(** The thread whose step is needed, and how many it has to make. *)
Definition helper (s : spin_sys) (t : Z) : Z := if mtx_lock (s_mtx s) =? 0 then t else mtx_get_owner (s_mtx s).
Definition stage (a : spin_at) : nat :=
  match a with
  | Locking SpinOwned => 5 | Inside => 4 | Releasing => 3
  | Locking (SpinLoad _) => 2 | Locking (SpinExchange _) => 1
  | _ => 0
  end.
Definition measure (s : spin_sys) (t : Z) : nat := match s_cpus s !! helper s t with Some (_, a) => stage a | None => 0 end.

Lemma next_trying free pc : pc <> SpinOwned -> (free = true -> forall w, pc <> SpinExchange w) ->
  exists pc', next_at free (Locking pc) = Locking pc' /\ pc' <> SpinOwned.
Proof. intros Hp Hw. destruct pc as [w|w|]; [|destruct free; eexists; done|done]. destruct free; [by destruct (Hw eq_refl w)|by eexists]. Qed.

Definition nearer (s s' : spin_sys) (t y : Z) : Prop :=
  trying s' t /\ ((measure s' t < measure s t)%nat \/ measure s' t = measure s t /\ helper s' t = helper s t /\ y <> helper s t).

Section nearer.
Context (s : spin_sys) (Hinv : spin_inv s) (t y : Z) (Htry : trying s t) (c : cpu_t) (a : spin_at) (Hy : s_cpus s !! y = Some (c, a)).
Context (m : mtx_t) (c' : cpu_t) (Hw : mtx_lock m = next_word y (mtx_lock (s_mtx s)) a).
Let s' := mk_sys m (<[y := (c', next_at (mtx_lock (s_mtx s) =? 0) a)]> (s_cpus s)).

Lemma nearer_free : mtx_lock (s_mtx s) = 0 -> ~ takes s y -> nearer s s' t y.
Proof.
  intros E Hno. destruct Htry as (ct & pc & Ht & Hpc). assert (Hnx : forall w, a <> Locking (SpinExchange w)) by (intros w ->; apply Hno; split; eauto).
  assert (Hw0 : mtx_lock m = 0).
  { rewrite Hw. unfold next_word. repeat case_match; congruence. }
  unfold nearer, trying, measure, helper, s'. simpl. rewrite Hw0, E. simpl. destruct (decide (y = t)) as [->|Hne].
  - rewrite lookup_insert_eq, Ht. rewrite Ht in Hy. simplify_eq. destruct pc as [w|w|]; [by destruct (Hnx w)| |done]. simpl. split; [by eexists _, _|lia].
  - rewrite lookup_insert_ne, Ht by done. split; [eauto|by right].
Qed.

Lemma nearer_held : mtx_lock (s_mtx s) <> 0 -> nearer s s' t y.
Proof.
  intros E. destruct Htry as (ct & pc & Ht & Hpc). destruct (word_cases s Hinv) as [[? _]|(u & cu & au & Hu & Hau & Hthr & W)]; [done|].
  unfold nearer, trying, measure, helper, s'. simpl. rewrite W, (proj2 (Z.eqb_neq _ 0)), word_owner, Hu by (done || (rewrite <- W; done)).
  destruct (decide (y = u)) as [->|Hne].
  - rewrite Hu in Hy. simplify_eq. assert (t <> u) by (intros ->; rewrite Hu in Ht; simplify_eq; by destruct pc). rewrite lookup_insert_ne by done. split; [eauto|left].
    destruct a as [|[]| | |]; try done; simpl in Hw; rewrite Hw.
    1,2: rewrite W, (proj2 (Z.eqb_neq _ 0)), word_owner, lookup_insert_eq by (done || (rewrite <- W; done)); simpl; lia.
    simpl. rewrite lookup_insert_ne, Ht by done. destruct pc; simpl; done || lia.
  - assert (Hw1 : mtx_lock m = Z.lor u 1).
    { rewrite Hw, <- W. unfold next_word. destruct a as [|[]| | |]; try done; [by rewrite (proj2 (Z.eqb_neq _ 0))|]. destruct Hne. by eapply one_holder. }
    rewrite Hw1, (proj2 (Z.eqb_neq _ 0)), word_owner, (lookup_insert_ne _ y u), Hu by (done || (rewrite <- W; done)). split; [|by right].
    destruct (decide (y = t)) as [->|Hnt]; [|rewrite lookup_insert_ne by done; eauto]. rewrite lookup_insert_eq. rewrite Ht in Hy. simplify_eq.
    destruct (next_trying false pc Hpc) as (pc' & -> & ?); [done|]. eauto.
Qed.
End nearer.

Lemma step_nearer s t y : spin_inv s -> trying s t -> y ∈ dom (s_cpus s) ->
  (exists c a, s_cpus s !! y = Some (c, a) /\ exhausted s a) \/ takes s y \/
  exists s', sys_step lock s y = Ret s' /\ spin_inv s' /\ dom (s_cpus s') = dom (s_cpus s) /\ nearer s s' t y.
Proof.
  intros Hinv Htry Hy. apply elem_of_dom in Hy as [[c a] Hy]. destruct (sys_step_ok s Hinv y c a Hy) as [[Hex _]|[_ (m & c' & Hs & Hw & Hi)]]; [left; eauto|right].
  assert (Htk : takes s y \/ ~ takes s y).
  { unfold takes. destruct (decide (mtx_lock (s_mtx s) = 0)) as [E|E]; [|by right; intros [? _]]. destruct a as [|[w|w|]| | |]; try (right; intros (_ & ? & ? & ?); congruence). left. eauto. }
  destruct Htk as [Htk|Hno]; [by left|right]. eexists. split; [exact Hs|]. split; [done|]. split.
  { simpl. rewrite dom_insert_L. apply elem_of_dom_2 in Hy. set_solver. }
  destruct (decide (mtx_lock (s_mtx s) = 0)); [by apply nearer_free with c|by apply nearer_held with c].
Qed.

Lemma run_reach s0 sched n : forall s, spin_run lock s0 sched n = Ret s -> spin_reach lock s0 s.
Proof.
  induction n as [|n IH]; intros s H; simpl in H; [injection H as <-; constructor|].
  destruct (spin_run lock s0 sched n) as [s1| | |] eqn:E; try done. eapply reach_step; [by apply IH|exact H].
Qed.

Lemma reach_dom s : spin_reach lock (spin_start opts cs) s -> dom (s_cpus s) = dom cs.
Proof.
  induction 1 as [|s t s' _ IH Hs]; [simpl; by rewrite dom_fmap_L|]. unfold sys_step in Hs. destruct (s_cpus s !! t) as [[c a]|] eqn:E; [|done].
  destruct (spin_thread lock (s_mtx s) c a) as [[[m c'] a']| | |]; try done. injection Hs as <-. simpl. rewrite dom_insert_L, <- IH. apply elem_of_dom_2 in E. set_solver.
Qed.

Section fair.
Context (sched : nat -> Z) (Hsched : forall n, sched n ∈ dom cs).
Context (Hfair : forall t n, t ∈ dom cs -> exists k, (n <= k)%nat /\ sched k = t).
Abbreviation run := (spin_run lock (spin_start opts cs) sched).

Definition progress (n : nat) : Prop :=
  exists k s, (n <= k)%nat /\ run k = Ret s /\ (takes s (sched k) \/ exists c a, s_cpus s !! sched k = Some (c, a) /\ exhausted s a).

Lemma progress_le n n' : (n <= n')%nat -> progress n' -> progress n.
Proof. intros H (k & s & Hk & Hr). exists k, s. split; [lia|done]. Qed.

Lemma helper_dom s t : spin_inv s -> trying s t -> helper s t ∈ dom (s_cpus s).
Proof.
  intros Hinv (c & pc & H & _). unfold helper. case_match; [by eapply elem_of_dom_2|].
  destruct (word_cases s Hinv) as [[E _]|(u & cu & au & Hu & _ & Hthr & ->)]; [rewrite E in *; done|]. rewrite word_owner by done. by eapply elem_of_dom_2.
Qed.

(** Until the helper's turn, or something better. *)
Lemma progress_wait t M (IH : forall s n, run n = Ret s -> trying s t -> (measure s t < M)%nat -> progress n) d :
  forall s n, run n = Ret s -> trying s t -> measure s t = M -> sched (n + d)%nat = helper s t -> progress n.
Proof.
  induction d as [|d IHd]; intros s n Hr Htry HM Hsch; pose proof (reach_inv _ (run_reach _ _ _ _ Hr)) as Hinv;
    (destruct (step_nearer s t (sched n) Hinv Htry) as [Hex|[Htk|(s' & Hs & Hi & _ & Htry' & Hm)]];
      [by rewrite (reach_dom _ (run_reach _ _ _ _ Hr))|exists n, s; eauto..|]);
    assert (Hr' : run (S n) = Ret s') by (simpl; by rewrite Hr); apply (progress_le n (S n)); [lia| |lia|].
  - rewrite Nat.add_0_r in Hsch. destruct Hm as [Hm|(_ & _ & Hne)]; [|done]. apply (IH s'); [done..|lia].
  - destruct Hm as [Hm|(Hm & Hh & _)]; [apply (IH s'); [done..|lia]|]. apply (IHd s'); [done..|congruence|]. rewrite Hh, <- Hsch. f_equal. lia.
Qed.

Lemma progress_always t M : forall s n, run n = Ret s -> trying s t -> measure s t = M -> progress n.
Proof.
  induction M as [M IH] using lt_wf_ind. intros s n Hr Htry HM.
  destruct (Hfair (helper s t) n) as (k & Hk & Hsch).
  { rewrite <- (reach_dom s) by (by eapply run_reach). apply helper_dom; [|done]. by eapply reach_inv, run_reach. }
  eapply (progress_wait t M) with (d := (k - n)%nat); eauto. replace (n + (k - n))%nat with k by lia. done.
Qed.
End fair.

Lemma takes_owned s y : spin_inv s -> takes s y -> exists s' c, sys_step lock s y = Ret s' /\ s_cpus s' !! y = Some (c, Locking SpinOwned).
Proof.
  intros Hinv (E & c & w & Hy). destruct (sys_step_ok s Hinv y c _ Hy) as [[[? _] _]|[_ (m & c' & Hs & _)]]; [done|].
  eexists _, c'. split; [exact Hs|]. simpl. by rewrite E, lookup_insert_eq.
Qed.
End spin.

(** ** Properties *)

(** C14. Under every interleaving of threads that lock and unlock a spin mutex
    at most one holds it.  The holder is in the word, its count is one and its
    interrupts are off; a thread outside has its processor back as it was; and
    every thread can make its next step unless it has waited for the mutex
    2^32 - 1 times. *)
Theorem spin_exclusive lock opts cs sts s (Hspin : has_flag opts MTX_SPIN = true)
    (Hcs : forall t c, cs !! t = Some c -> curthread c = t /\ good_cpu c (sts t)) (Hreach : spin_reach lock (spin_start opts cs) s) :
  (forall t1 c1 a1 t2 c2 a2, s_cpus s !! t1 = Some (c1, a1) -> s_cpus s !! t2 = Some (c2, a2) -> holding a1 = true -> holding a2 = true -> t1 = t2) /\
  (forall t c, s_cpus s !! t = Some (c, Inside) -> mtx_lock (s_mtx s) = new_mtx_lock t MTX_LOCKED /\ lo_data (s_mtx s) = 1 /\ irq_on c = false) /\
  (forall t c, s_cpus s !! t = Some (c, Outside) -> exists c0, cs !! t = Some c0 /\ cpu_out c0 (sts t) c) /\
  (forall t c a, s_cpus s !! t = Some (c, a) -> exhausted s a /\ sys_step lock s t = Panic \/ exists s', sys_step lock s t = Ret s').
Proof.
  pose proof (reach_inv lock opts Hspin cs sts Hcs s Hreach) as Hinv. split; [|split; [|split]].
  - intros. by eapply one_holder.
  - intros t c H. destruct (si_holder _ _ _ _ _ Hinv t c Inside H eq_refl) as [W D]. split; [done|]. split; [done|].
    destruct (si_cpus _ _ _ _ _ Hinv t c Inside H) as (c0 & _ & Hin). by destruct Hin.
  - intros t c H. by apply (si_cpus _ _ _ _ _ Hinv t c Outside).
  - intros t c a H. destruct (sys_step_ok lock opts Hspin cs sts Hcs s Hinv t c a H) as [?|[_ (m & c' & Hs & _)]]; [by left|right]. by eexists.
Qed.

(** C15. A spin mutex does not deadlock: in every run of a fair schedule, when
    a thread wants the mutex some thread takes it later, unless a thread
    first uses up its 2^32 - 1 waits. *)
Theorem spin_progress lock opts cs sts sched n s t (Hspin : has_flag opts MTX_SPIN = true)
    (Hcs : forall t c, cs !! t = Some c -> curthread c = t /\ good_cpu c (sts t))
    (Hsched : forall n, sched n ∈ dom cs) (Hfair : forall t n, t ∈ dom cs -> exists k, (n <= k)%nat /\ sched k = t)
    (Hrun : spin_run lock (spin_start opts cs) sched n = Ret s) (Htry : trying s t) :
  exists k s1, (n <= k)%nat /\ spin_run lock (spin_start opts cs) sched k = Ret s1 /\
    ((exists s2 c, mtx_lock (s_mtx s1) = 0 /\ spin_run lock (spin_start opts cs) sched (S k) = Ret s2 /\ s_cpus s2 !! sched k = Some (c, Locking SpinOwned)) \/
     (exists c a, s_cpus s1 !! sched k = Some (c, a) /\ exhausted s1 a)).
Proof.
  destruct (progress_always lock opts Hspin cs sts Hcs sched Hsched Hfair t _ s n Hrun Htry eq_refl) as (k & s1 & Hk & Hr & [Htk|Hex]); exists k, s1; [|by eauto].
  split; [done|]. split; [done|]. left. destruct (takes_owned lock opts Hspin cs sts Hcs s1 (sched k)) as (s2 & c & Hs & Hc); [by eapply reach_inv, run_reach|done|].
  exists s2, c. split; [apply Htk|]. split; [simpl; by rewrite Hr|done].
Qed.

(** ** Two threads *)

Definition spin_cpu (t : Z) : cpu_t := mk_cpu t 0 0 0 true false (Some [lock_claim_list_alloc]).
Definition two_cpus : gmap Z cpu_t := {[ 64 := spin_cpu 64; 128 := spin_cpu 128 ]}.
Definition turns (n : nat) : Z := if Nat.even n then 64 else 128.

Lemma spin_cpu_good t : thread t -> good_cpu (spin_cpu t) [].
Proof. intros Ht. split; simpl; try done; [apply claims_alloc|lia]. Qed.

Lemma two_good t c : two_cpus !! t = Some c -> curthread c = t /\ good_cpu c [].
Proof.
  unfold two_cpus. intros H. apply lookup_insert_Some in H as [[<- <-]|[_ H]]; [split; [done|]; by apply spin_cpu_good|].
  apply lookup_singleton_Some in H as [<- <-]. split; [done|]. by apply spin_cpu_good.
Qed.

Lemma turns_dom n : turns n ∈ dom two_cpus.
Proof. unfold turns. destruct (Nat.even n); apply elem_of_dom; by eexists. Qed.

Lemma turns_fair t n : t ∈ dom two_cpus -> exists k, (n <= k)%nat /\ turns k = t.
Proof.
  intros Ht. apply elem_of_dom in Ht as [c Ht]. assert (H : t = 64 \/ t = 128).
  { unfold two_cpus in Ht. apply lookup_insert_Some in Ht as [[<- _]|[_ H]]; [by left|]. apply lookup_singleton_Some in H as [<- _]. by right. }
  unfold turns. destruct (Nat.even n) eqn:E, H as [-> | ->]; [exists n|exists (S n)|exists (S n)|exists n]; rewrite ?Nat.even_succ, <- ?Nat.negb_even, ?E; split; done || lia.
Qed.

Definition where_is (r : outcome spin_sys) (t : Z) : option spin_at := match r with Ret s => snd <$> s_cpus s !! t | _ => None end.

(** The first thread is inside and the second waits. *)
Lemma spin_exclusive_witness :
  exists s, spin_run 4096 (spin_start MTX_SPIN two_cpus) turns 6 = Ret s /\ snd <$> s_cpus s !! 64 = Some Inside /\
    (forall t c a, s_cpus s !! t = Some (c, a) -> holding a = true -> t = 64).
Proof.
  destruct (spin_run 4096 (spin_start MTX_SPIN two_cpus) turns 6) as [s| | |] eqn:E; [|discriminate E..].
  exists s. split; [reflexivity|]. assert (H : where_is (spin_run 4096 (spin_start MTX_SPIN two_cpus) turns 6) 64 = Some Inside) by (vm_compute; reflexivity). rewrite E in H. simpl in H. split; [exact H|].
  destruct (spin_exclusive 4096 MTX_SPIN two_cpus (fun _ => []) s eq_refl two_good (run_reach _ _ _ _ _ E)) as (Hone & _).
  intros t c a Ht Ha. destruct (s_cpus s !! 64) as [[c1 a1]|] eqn:E1; [|discriminate H]. injection H as ->. exact (Hone t c a 64 c1 Inside Ht E1 Ha eq_refl).
Defined.

(** Both threads want the mutex after the first two steps. *)
Lemma spin_progress_witness :
  exists s, spin_run 4096 (spin_start MTX_SPIN two_cpus) turns 2 = Ret s /\
    exists k s1, (2 <= k)%nat /\ spin_run 4096 (spin_start MTX_SPIN two_cpus) turns k = Ret s1 /\
      ((exists s2 c, mtx_lock (s_mtx s1) = 0 /\ spin_run 4096 (spin_start MTX_SPIN two_cpus) turns (S k) = Ret s2 /\ s_cpus s2 !! turns k = Some (c, Locking SpinOwned)) \/
       (exists c a, s_cpus s1 !! turns k = Some (c, a) /\ exhausted s1 a)).
Proof.
  destruct (spin_run 4096 (spin_start MTX_SPIN two_cpus) turns 2) as [s| | |] eqn:E; [|discriminate E..].
  exists s. split; [reflexivity|]. apply (spin_progress 4096 MTX_SPIN two_cpus (fun _ => []) turns 2 s 128 eq_refl two_good turns_dom turns_fair E).
  assert (H : where_is (spin_run 4096 (spin_start MTX_SPIN two_cpus) turns 2) 128 = Some (Locking (SpinExchange 0))) by (vm_compute; reflexivity). rewrite E in H. simpl in H.
  destruct (s_cpus s !! 128) as [[c1 a1]|] eqn:E1; [|discriminate H]. injection H as ->. by exists c1, (SpinExchange 0).
Defined.
