(* ===== verification/FileTable.v ===== *)
(** * kernel/vfs/file.c and the descriptor calls of kernel/vfs/fs.c

    A process has a table of open files: a bitmap of the descriptors in use, a
    red-black tree of the files by descriptor, a count and a spin mutex.  A
    file has a reference count and a mutex and refers to a vnode, which has
    both as well.  The calls on descriptors are built on the table; what a
    file system or a device does is an interface, as it is in the code. *)

From S2P Require Import Prelude Mm Bitmap RbTree Lock Kio.
From stdpp Require Import list gmap.
Local Open Scope Z_scope.

(** The numbers of the C library's headers that the calls use.  Error numbers
    are positive. *)
Class abi_numbers := {
  EBADF : Z; EMFILE : Z; EISDIR : Z; ENODEV : Z; ENOTDIR : Z; EINVAL : Z; ENOTSUP : Z; EROFS : Z; ESPIPE : Z;
  O_CLOEXEC : Z; O_APPEND : Z; O_ACCMODE : Z;
  EINVAL_pos : 0 < EINVAL; ENODEV_pos : 0 < ENODEV; EBADF_pos : 0 < EBADF;
}.

Abbreviation O_RDONLY := 0.
Abbreviation O_WRONLY := 1.
Abbreviation O_RDWR := 2.
Abbreviation SEEK_SET := 0.
Abbreviation SEEK_CUR := 1.
Abbreviation SEEK_END := 2.
Abbreviation FTABLE_MAX_FILES := 1024.

(** ** Data *)

Inductive vtype := V_NONE | V_REG | V_DIR | V_LNK | V_BLK | V_CHR | V_FIFO | V_SOCK.
Inductive vstate := V_EMPTY | V_ALIVE | V_DEAD.

#[global] Instance vtype_eq_dec : EqDecision vtype.
Proof. solve_decision. Defined.
#[global] Instance vstate_eq_dec : EqDecision vstate.
Proof. solve_decision. Defined.

(** [vn_rdonly] is the flag of the vnode's mount. *)
Record vnode_t := mk_vnode {
  vn_type : vtype;
  vn_state : vstate;
  vn_mtx : mtx_t;
  vn_ref : Z;
  vn_nopen : Z;
  vn_size : Z;
  vn_rdonly : bool;
  v_dev : Z;
}.

Record file_t := mk_file {
  f_fd : Z;
  f_flags : Z;
  f_type : vtype;
  f_vnode : Z;
  f_mtx : mtx_t;
  f_ref : Z;
  f_offset : Z;
  f_closed : bool;
}.

(** [ft_addr] is the address of the lock. *)
Record ftable_t := mk_ftable {
  ft_tree : rb_tree_t;
  ft_bitmap : bitmap_t;
  ft_count : Z;
  ft_lock : mtx_t;
  ft_addr : Z;
}.

(** What the tables of operations of file systems and devices point to, by
    vnode and by device; [None] is a null pointer.  Opening, reading and
    writing a vnode give the new size of the vnode as well.  [M] is their
    state, and [v_cleanup] stands for all that follows the last reference.
    [resolve_file] and [resolve_dir] are path resolution: a negative error, or
    a result and the vnode found.  The first includes the creation of a file
    that is missing and the check for symbolic links (fs.c, 257 to 303); the
    vnodes that creation makes count as vnodes from the start. *)
Class file_ops (M : Type) := {
  resolve_file : list Z -> Z -> Z -> M -> outcome (Z * Z * M);
  resolve_dir : list Z -> M -> outcome (Z * Z * M);
  v_open : Z -> option (Z -> M -> outcome (Z * Z * M));
  d_open : Z -> option (Z -> M -> outcome (Z * M));
  v_close : Z -> option (M -> outcome (Z * M));
  v_read : Z -> option (Z -> kio_t -> M -> outcome (Z * kio_t * Z * M));
  v_write : Z -> option (Z -> kio_t -> M -> outcome (Z * kio_t * Z * M));
  v_cleanup : Z -> M -> outcome M;
  d_close : Z -> option (M -> outcome (Z * M));
  d_read : Z -> option (Z -> Z -> kio_t -> M -> outcome (Z * kio_t * M));
  d_write : Z -> option (Z -> Z -> kio_t -> M -> outcome (Z * kio_t * M));
}.

(** The process that runs: its table, the files and vnodes it can reach, its
    processor and the rest.  [f_next] is where the next file is allocated. *)
Record fsys (M : Type) := mk_fsys {
  table : ftable_t;
  files : gmap Z file_t;
  f_next : Z;
  vnodes : gmap Z vnode_t;
  cpu : cpu_t;
  rest : M;
}.
Arguments mk_fsys {M}.
Arguments table {M}.
Arguments files {M}.
Arguments f_next {M}.
Arguments vnodes {M}.
Arguments cpu {M}.
Arguments rest {M}.

Section table.
Context {M : Type}.
Implicit Types s : fsys M.

Definition with_table s (t : ftable_t) : fsys M := mk_fsys t (files s) (f_next s) (vnodes s) (cpu s) (rest s).
Definition with_cpu s (c : cpu_t) : fsys M := mk_fsys (table s) (files s) (f_next s) (vnodes s) c (rest s).
Definition with_files s (fs : gmap Z file_t) : fsys M := mk_fsys (table s) fs (f_next s) (vnodes s) (cpu s) (rest s).
Definition with_vnodes s (vs : gmap Z vnode_t) : fsys M := mk_fsys (table s) (files s) (f_next s) vs (cpu s) (rest s).
Definition with_rest s (m : M) : fsys M := mk_fsys (table s) (files s) (f_next s) (vnodes s) (cpu s) m.

Definition get_file s (p : Z) : outcome file_t := match files s !! p with Some f => Ret f | None => Fault end.
Definition put_file s (p : Z) (f : file_t) : fsys M := with_files s (<[p := f]> (files s)).
Definition get_vnode s (v : Z) : outcome vnode_t := match vnodes s !! v with Some n => Ret n | None => Fault end.
Definition put_vnode s (v : Z) (n : vnode_t) : fsys M := with_vnodes s (<[v := n]> (vnodes s)).

Definition set_f_mtx (f : file_t) (m : mtx_t) : file_t := mk_file (f_fd f) (f_flags f) (f_type f) (f_vnode f) m (f_ref f) (f_offset f) (f_closed f).
Definition set_f_ref (f : file_t) (r : Z) : file_t := mk_file (f_fd f) (f_flags f) (f_type f) (f_vnode f) (f_mtx f) r (f_offset f) (f_closed f).
Definition set_f_offset (f : file_t) (o : Z) : file_t := mk_file (f_fd f) (f_flags f) (f_type f) (f_vnode f) (f_mtx f) (f_ref f) o (f_closed f).
Definition set_f_closed (f : file_t) : file_t := mk_file (-1) (f_flags f) (f_type f) (f_vnode f) (f_mtx f) (f_ref f) (f_offset f) true.
Definition set_vn_mtx (n : vnode_t) (m : mtx_t) : vnode_t := mk_vnode (vn_type n) (vn_state n) m (vn_ref n) (vn_nopen n) (vn_size n) (vn_rdonly n) (v_dev n).
Definition set_vn_ref (n : vnode_t) (r : Z) : vnode_t := mk_vnode (vn_type n) (vn_state n) (vn_mtx n) r (vn_nopen n) (vn_size n) (vn_rdonly n) (v_dev n).
Definition set_vn_nopen (n : vnode_t) (k : Z) : vnode_t := mk_vnode (vn_type n) (vn_state n) (vn_mtx n) (vn_ref n) k (vn_size n) (vn_rdonly n) (v_dev n).
Definition set_vn_size (n : vnode_t) (k : Z) : vnode_t := mk_vnode (vn_type n) (vn_state n) (vn_mtx n) (vn_ref n) (vn_nopen n) k (vn_rdonly n) (v_dev n).

Definition V_ISDIR (n : vnode_t) : bool := bool_decide (vn_type n = V_DIR).
Definition V_ISDEV (n : vnode_t) : bool := bool_decide (vn_type n = V_BLK) || bool_decide (vn_type n = V_CHR).

(** ** Vnodes *)

Definition vn_getref s (v : Z) : outcome (fsys M) := n ← get_vnode s v; Ret (put_vnode s v (set_vn_ref n (vn_ref n + 1))).

(** A wait mutex taken by the thread that runs. *)
Definition take_mtx (m : mtx_t) (c : cpu_t) : outcome (mtx_t * cpu_t) :=
  r ← mtx_wait_lock 2 chain_lock m c; match r with Acquired m c => Ret (m, c) | Sleeps _ => NoFuel end.

Definition vn_lock s (v : Z) : outcome (bool * fsys M) :=
  n ← get_vnode s v;
  if bool_decide (vn_state n = V_DEAD) then Ret (false, s)
  else '(m, c) ← take_mtx (vn_mtx n) (cpu s); Ret (true, with_cpu (put_vnode s v (set_vn_mtx n m)) c).

Definition vn_unlock s (v : Z) : outcome (fsys M) :=
  n ← get_vnode s v;
  '(m, c) ← mtx_wait_unlock (vn_mtx n) (cpu s);
  Ret (with_cpu (put_vnode s v (set_vn_mtx n m)) c).

(** [vn->nopen += d] under the lock. *)
Definition vn_count_open s (v d : Z) : outcome (fsys M) :=
  '(_, s) ← vn_lock s v;
  n ← get_vnode s v;
  vn_unlock (put_vnode s v (set_vn_nopen n (u32 (vn_nopen n + d)))) v.

Section ops.
Context {FO : file_ops M}.

Definition vn_release s (v : Z) : outcome (fsys M) :=
  n ← get_vnode s v;
  let s := put_vnode s v (set_vn_ref n (vn_ref n - 1)) in
  if vn_ref n =? 1 then
    kassert (bool_decide (vn_state n = V_DEAD));;
    m ← v_cleanup v (rest s);
    Ret (with_rest (with_vnodes s (delete v (vnodes s))) m)
  else Ret s.

(** ** Files *)

Definition new_file s (fd flags : Z) (type : vtype) (v : Z) : outcome (Z * fsys M) :=
  s ← vn_getref s v;
  let p := f_next s in
  Ret (p, mk_fsys (table s) (<[p := mk_file fd flags type v (mtx_init 0) 1 0 false]> (files s)) (p + 1) (vnodes s) (cpu s) (rest s)).

Definition f_alloc s (fd flags v : Z) : outcome (Z * fsys M) := n ← get_vnode s v; new_file s fd flags (vn_type n) v.

Definition f_dup s (p : Z) : outcome (Z * fsys M) := f ← get_file s p; new_file s (f_fd f) (f_flags f) (f_type f) (f_vnode f).

Definition f_cleanup s (p : Z) : outcome (fsys M) :=
  f ← get_file s p;
  kassert (f_closed f);;
  kassert (f_ref f =? 0);;
  s ← vn_release s (f_vnode f);
  Ret (with_files s (delete p (files s))).

Definition f_getref s (p : Z) : outcome (fsys M) :=
  if p =? 0 then Ret s else f ← get_file s p; Ret (put_file s p (set_f_ref f (f_ref f + 1))).

Definition f_release s (p : Z) : outcome (fsys M) :=
  if p =? 0 then Ret s
  else
    f ← get_file s p;
    let s := put_file s p (set_f_ref f (f_ref f - 1)) in
    if f_ref f =? 1 then f_cleanup s p else Ret s.

Definition f_lock s (p : Z) : outcome (bool * fsys M) :=
  f ← get_file s p;
  if f_closed f then Ret (false, s)
  else '(m, c) ← take_mtx (f_mtx f) (cpu s); Ret (true, with_cpu (put_file s p (set_f_mtx f m)) c).

Definition f_unlock s (p : Z) : outcome (fsys M) :=
  f ← get_file s p;
  '(m, c) ← mtx_wait_unlock (f_mtx f) (cpu s);
  Ret (with_cpu (put_file s p (set_f_mtx f m)) c).

(** ** The table *)

Definition set_tree (t : ftable_t) (tr : rb_tree_t) (n : Z) : ftable_t := mk_ftable tr (ft_bitmap t) n (ft_lock t) (ft_addr t).
Definition set_bitmap (t : ftable_t) (b : bitmap_t) : ftable_t := mk_ftable (ft_tree t) b (ft_count t) (ft_lock t) (ft_addr t).
Definition set_lock (t : ftable_t) (m : mtx_t) : ftable_t := mk_ftable (ft_tree t) (ft_bitmap t) (ft_count t) m (ft_addr t).

Definition ftable_alloc (addr : Z) : ftable_t := mk_ftable create_rb_tree (bitmap_init FTABLE_MAX_FILES) 0 (mtx_init MTX_SPIN) addr.

Definition ftable_empty (t : ftable_t) : bool := ft_count t =? 0.

Definition ftable_free (t : ftable_t) : outcome () := kassert (ft_count t =? 0).

(** FTABLE_LOCK takes a free lock in two steps. *)
Definition FTABLE_LOCK s : outcome (fsys M) :=
  '(m, c) ← mtx_spin_lock 2 (ft_addr (table s)) (ft_lock (table s)) (cpu s);
  Ret (with_cpu (with_table s (set_lock (table s) m)) c).

Definition FTABLE_UNLOCK s : outcome (fsys M) :=
  '(m, c) ← mtx_spin_unlock (ft_addr (table s)) (ft_lock (table s)) (cpu s);
  Ret (with_cpu (with_table s (set_lock (table s) m)) c).

Definition ftable_alloc_fd s : outcome (Z * fsys M) :=
  s ← FTABLE_LOCK s;
  '(fd, b) ← bitmap_get_set_free (ft_bitmap (table s));
  s ← FTABLE_UNLOCK (with_table s (set_bitmap (table s) b));
  Ret (if fd <? 0 then -1 else fd, s).

Definition ftable_claim_fd s (fd : Z) : outcome (Z * fsys M) :=
  if fd <? 0 then Ret (-1, s)
  else
    kassert (fd <? FTABLE_MAX_FILES);;
    s ← FTABLE_LOCK s;
    used ← bitmap_get (ft_bitmap (table s)) fd;
    if (used : bool) then s ← FTABLE_UNLOCK s; Ret (-1, s)
    else
      '(_, b) ← bitmap_set (ft_bitmap (table s)) fd;
      s ← FTABLE_UNLOCK (with_table s (set_bitmap (table s) b));
      Ret (fd, s).

Definition ftable_free_fd s (fd : Z) : outcome (fsys M) :=
  if fd <? 0 then Ret s
  else
    kassert (fd <? FTABLE_MAX_FILES);;
    s ← FTABLE_LOCK s;
    '(_, b) ← bitmap_clear (ft_bitmap (table s)) fd;
    FTABLE_UNLOCK (with_table s (set_bitmap (table s) b)).

Definition ftable_get_file s (fd : Z) : outcome (Z * fsys M) :=
  s ← FTABLE_LOCK s;
  p ← rb_tree_find (ft_tree (table s)) fd;
  s ← f_getref s p;
  s ← FTABLE_UNLOCK s;
  Ret (p, s).

(** The count stays as it was. *)
Definition ftable_get_remove_file s (fd : Z) : outcome (Z * fsys M) :=
  s ← FTABLE_LOCK s;
  '(p, t) ← rb_tree_delete no_events (ft_tree (table s)) fd;
  s ← FTABLE_UNLOCK (with_table s (set_tree (table s) t (ft_count (table s))));
  Ret (p, s).

Definition ftable_add_file s (p : Z) : outcome (fsys M) :=
  f ← get_file s p;
  kassert ((0 <=? f_fd f) && (f_fd f <? FTABLE_MAX_FILES));;
  s ← FTABLE_LOCK s;
  q ← rb_tree_find (ft_tree (table s)) (f_fd f);
  if negb (q =? 0) then Panic
  else
    t ← rb_tree_insert no_events (ft_tree (table s)) (f_fd f) p;
    FTABLE_UNLOCK (with_table s (set_tree (table s) t (ft_count (table s) + 1))).

Definition ftable_remove_file s (fd : Z) : outcome (fsys M) :=
  kassert ((0 <=? fd) && (fd <? FTABLE_MAX_FILES));;
  s ← FTABLE_LOCK s;
  '(p, t) ← rb_tree_delete no_events (ft_tree (table s)) fd;
  if p =? 0 then Panic
  else
    s ← FTABLE_UNLOCK (with_table s (set_tree (table s) t (ft_count (table s) - 1)));
    f_release s p.

(** The loop of ftable_clone: the node stays the same, and the tree of the
    clone, whose memory is zero, is null. *)
Fixpoint clone_loop (fuel : nat) s (node : nat) : outcome (ftable_t * fsys M) :=
  match fuel with
  | O => NoFuel
  | S f =>
      n ← rd (ft_tree (table s)) node;
      '(ok, s) ← f_lock s (data n);
      if (ok : bool) then '(_, s) ← f_dup s (data n); Fault else clone_loop f s node
  end.

(** The new tree, bitmap and lock go to the table that is cloned. *)
Definition ftable_clone (fuel : nat) s : outcome (ftable_t * fsys M) :=
  s ← FTABLE_LOCK (with_table s (mk_ftable create_rb_tree (bitmap_init FTABLE_MAX_FILES) (ft_count (table s)) (mtx_init MTX_SPIN) (ft_addr (table s))));
  let s := with_table s (set_bitmap (table s) (clone_bitmap (ft_bitmap (table s)))) in
  clone_loop fuel s (RbTree.min (ft_tree (table s))).

(** ** Calls on descriptors *)

Context {A : abi_numbers}.

Definition vn_close s (v : Z) : outcome (Z * fsys M) :=
  match v_close v with
  | None => Ret (0, s)
  | Some close => '(res, m) ← close (rest s); Ret (if res <? 0 then res else 0, with_rest s m)
  end.

Definition vn_read s (v off : Z) (k : kio_t) : outcome (Z * kio_t * fsys M) :=
  n ← get_vnode s v;
  match v_read v with
  | None => Ret (- ENOTSUP, k, s)
  | Some read =>
      if off <? 0 then Ret (- EINVAL, k, s)
      else if vn_size n <=? off then Ret (0, k, s)
      else '(res, k, sz, m) ← read off k (rest s); Ret (res, k, with_rest (put_vnode s v (set_vn_size n sz)) m)
  end.

Definition vn_write s (v off : Z) (k : kio_t) : outcome (Z * kio_t * fsys M) :=
  n ← get_vnode s v;
  if vn_rdonly n then Ret (- EROFS, k, s)
  else
    match v_write v with
    | None => Ret (- ENOTSUP, k, s)
    | Some write =>
        if off <? 0 then Ret (- EINVAL, k, s)
        else if vn_size n <=? off then Ret (0, k, s)
        else '(res, k, sz, m) ← write off k (rest s); Ret (res, k, with_rest (put_vnode s v (set_vn_size n sz)) m)
    end.

Definition vn_open s (v flags : Z) : outcome (Z * fsys M) :=
  n ← get_vnode s v;
  match v_open v with
  | None => Ret (0, s)
  | Some open => '(res, sz, m) ← open flags (rest s); Ret (if res <? 0 then res else 0, with_rest (put_vnode s v (set_vn_size n sz)) m)
  end.

(** The vnode is open: it is counted, and a new file goes into the table. *)
Definition add_open s (fd flags v : Z) : outcome (Z * fsys M) :=
  s ← vn_count_open s v 1;
  '(p, s) ← f_alloc s fd flags v;
  s ← ftable_add_file s p;
  Ret (fd, s).

Definition access_ok (flags : Z) : bool :=
  let acc := Z.land flags O_ACCMODE in (acc =? O_RDONLY) || (acc =? O_WRONLY) || (acc =? O_RDWR).

(** fs_proc_open once it has the descriptor: the result that [open_end] sees. *)
Definition open_at s (fd : Z) (path : list Z) (flags mode : Z) : outcome (Z * fsys M) :=
  if negb (access_ok flags) then Ret (- EINVAL, s)
  else
    '(res, v, m) ← resolve_file path flags mode (rest s);
    let s := with_rest s m in
    if res <? 0 then Ret (res, s)
    else
      n ← get_vnode s v;
      if V_ISDEV n && (v_dev n =? 0) then Ret (- ENODEV, s)
      else
        '(res, s) ←
          (if V_ISDEV n then
             match d_open (v_dev n) with None => Ret (0, s) | Some open => '(res, m) ← open flags (rest s); Ret (res, with_rest s m) end
           else vn_open s v flags);
        if res <? 0 then Ret (res, s) else add_open s fd flags v.

Definition open_end s (fd res : Z) : outcome (Z * fsys M) :=
  s ← (if res <? 0 then ftable_free_fd s fd else Ret s); Ret (res, s).

(** A negative descriptor asks for a new one. *)
Definition fs_proc_open s (fd : Z) (path : list Z) (flags mode : Z) : outcome (Z * fsys M) :=
  if fd <? 0 then
    '(fd, s) ← ftable_alloc_fd s;
    if fd <? 0 then open_end s fd (- EMFILE)
    else '(res, s) ← open_at s fd path flags mode; open_end s fd res
  else
    '(claimed, s) ← ftable_claim_fd s fd;
    if claimed <? 0 then open_end s fd (- EBADF)
    else '(res, s) ← open_at s fd path flags mode; open_end s fd res.

Definition fs_open s (path : list Z) (flags mode : Z) : outcome (Z * fsys M) := fs_proc_open s (-1) path flags mode.

Definition fs_opendir s (path : list Z) : outcome (Z * fsys M) :=
  '(res, v, m) ← resolve_dir path (rest s);
  let s := with_rest s m in
  if res <? 0 then Ret (res, s)
  else
    '(fd, s) ← ftable_alloc_fd s;
    if fd <? 0 then Ret (- EMFILE, s) else add_open s fd O_RDONLY v.

(** The file leaves the table and is marked closed, up to the last release. *)
Definition close_file s (fd p v : Z) : outcome (fsys M) :=
  s ← ftable_remove_file s fd;
  s ← ftable_free_fd s fd;
  f ← get_file s p;
  vn_count_open (put_file s p (set_f_closed f)) v (-1).

(** The end of a call: the file is unlocked, if it was locked, and released. *)
Definition finish {R : Type} s (p : Z) (locked : bool) (res : R) : outcome (R * fsys M) :=
  s ← (if locked then f_unlock s p else Ret s); s ← f_release s p; Ret (res, s).

Definition fs_close s (fd : Z) : outcome (Z * fsys M) :=
  '(p, s) ← ftable_get_file s fd;
  if p =? 0 then Ret (- EBADF, s)
  else
    '(ok, s) ← f_lock s p;
    if negb ok then finish s p false (- EBADF)
    else
      f ← get_file s p;
      let v := f_vnode f in
      n ← get_vnode s v;
      if V_ISDIR n then finish s p true (- EISDIR)
      else if V_ISDEV n && (v_dev n =? 0) then finish s p true (- ENODEV)
      else
        '(res, s) ←
          (if V_ISDEV n then
             match d_close (v_dev n) with None => Ret (0, s) | Some close => '(res, m) ← close (rest s); Ret (res, with_rest s m) end
           else vn_close s v);
        if res <? 0 then finish s p true res
        else s ← close_file s fd p v; finish s p true res.

Definition fs_closedir s (fd : Z) : outcome (Z * fsys M) :=
  '(p, s) ← ftable_get_file s fd;
  if p =? 0 then Ret (- EBADF, s)
  else
    f ← get_file s p;
    n ← get_vnode s (f_vnode f);
    if negb (V_ISDIR n) then finish s p false (- ENOTDIR)
    else
      '(ok, s) ← f_lock s p;
      if negb ok then finish s p false (- EBADF)
      else s ← close_file s fd p (f_vnode f); finish s p true 0.

(** A transfer at the file's offset, which moves by the result. *)
Definition advance s (p res : Z) : outcome (fsys M) :=
  f ← get_file s p; Ret (put_file s p (set_f_offset f (f_offset f + res))).

Definition dev_transfer s (op : option (Z -> Z -> kio_t -> M -> outcome (Z * kio_t * M))) (off : Z) (k : kio_t) : outcome (Z * kio_t * fsys M) :=
  match op with
  | None => Ret (- ENOTSUP, k, s)
  | Some op => '(res, k, m) ← op off (kio_remaining k) k (rest s); Ret (res, k, with_rest s m)
  end.

Definition fs_kread s (fd : Z) (k : kio_t) : outcome (Z * kio_t * fsys M) :=
  kassert (bool_decide (dir k = KIO_WRITE));;
  '(p, s) ← ftable_get_file s fd;
  if p =? 0 then Ret (- EBADF, k, s)
  else
    f ← get_file s p;
    n ← get_vnode s (f_vnode f);
    if V_ISDIR n then finish s p false (- EISDIR, k)
    else if has_flag (f_flags f) O_WRONLY then finish s p false (- EBADF, k)
    else
      '(ok, s) ← f_lock s p;
      if negb ok then finish s p false (- EBADF, k)
      else if V_ISDEV n && (v_dev n =? 0) then finish s p true (- ENODEV, k)
      else
        '(res, k, s) ← (if V_ISDEV n then dev_transfer s (d_read (v_dev n)) (f_offset f) k else vn_read s (f_vnode f) (f_offset f) k);
        if res <? 0 then finish s p true (res, k) else s ← advance s p res; finish s p true (res, k).

Definition fs_kwrite s (fd : Z) (k : kio_t) : outcome (Z * kio_t * fsys M) :=
  kassert (bool_decide (dir k = KIO_READ));;
  '(p, s) ← ftable_get_file s fd;
  if p =? 0 then Ret (- EBADF, k, s)
  else
    f ← get_file s p;
    n ← get_vnode s (f_vnode f);
    if V_ISDIR n then finish s p false (- EISDIR, k)
    else if has_flag (f_flags f) O_RDONLY then finish s p false (- EBADF, k)
    else
      '(ok, s) ← f_lock s p;
      if negb ok then finish s p false (- EBADF, k)
      else
        f ← get_file s p;
        let f := if has_flag (f_flags f) O_APPEND then set_f_offset f (vn_size n) else f in
        let s := put_file s p f in
        if V_ISDEV n && (v_dev n =? 0) then finish s p true (- ENODEV, k)
        else
          '(res, k, s) ← (if V_ISDEV n then dev_transfer s (d_write (v_dev n)) (f_offset f) k else vn_write s (f_vnode f) (f_offset f) k);
          if res <? 0 then finish s p true (res, k) else s ← advance s p res; finish s p true (res, k).

(** A pipe or a socket is unlocked before it was locked. *)
Definition fs_lseek s (fd offset whence : Z) : outcome (Z * fsys M) :=
  '(p, s) ← ftable_get_file s fd;
  if p =? 0 then Ret (- EBADF, s)
  else
    f ← get_file s p;
    n ← get_vnode s (f_vnode f);
    if V_ISDIR n then finish s p false (- EISDIR)
    else if bool_decide (vn_type n = V_FIFO) || bool_decide (vn_type n = V_SOCK) then finish s p true (- ESPIPE)
    else
      '(ok, s) ← f_lock s p;
      if negb ok then finish s p false (- EBADF)
      else
        let target :=
          if whence =? SEEK_SET then Some offset
          else if whence =? SEEK_CUR then Some (f_offset f + offset)
          else if whence =? SEEK_END then Some (vn_size n + offset)
          else None in
        match target with
        | None => finish s p true (- EINVAL)
        | Some res =>
            if (res <? 0) || (vn_size n <? res) then finish s p true (- EINVAL)
            else f ← get_file s p; finish (put_file s p (set_f_offset f res)) p true res
        end.

Definition fs_telldir s (fd : Z) : outcome (Z * fsys M) :=
  '(p, s) ← ftable_get_file s fd;
  if p =? 0 then Ret (- EBADF, s)
  else
    f ← get_file s p;
    n ← get_vnode s (f_vnode f);
    finish s p false (if V_ISDIR n then f_offset f else - ENOTDIR).

Definition fs_seekdir s (fd loc : Z) : outcome (fsys M) :=
  '(p, s) ← ftable_get_file s fd;
  if p =? 0 then Ret s
  else
    f ← get_file s p;
    n ← get_vnode s (f_vnode f);
    '(_, s) ← finish (if V_ISDIR n then put_file s p (set_f_offset f loc) else s) p false tt;
    Ret s.

Definition fs_dup s (fd : Z) : outcome (Z * fsys M) :=
  '(p, s) ← ftable_get_file s fd;
  if p =? 0 then Ret (- EBADF, s)
  else
    '(ok, s) ← f_lock s p;
    if negb ok then finish s p false (- EBADF)
    else
      '(newfd, s) ← ftable_alloc_fd s;
      if newfd <? 0 then finish s p true (- EMFILE)
      else
        f ← get_file s p;
        '(q, s) ← f_alloc s newfd (Z.land (f_flags f) (not_w 32 O_CLOEXEC)) (f_vnode f);
        s ← ftable_add_file s q;
        finish s p true newfd.

End ops.
End table.
