(* ===== verification/FileRun.v ===== *)
(** * Open files: the table refines a map of descriptors

    The bitmap, the tree, the counts and the locks behind a process's
    descriptors implement a finite map from descriptors to open files. *)

From S2P Require Import Prelude Mm Bitmap RbTree RbAdd RbRemove Lock LockRun SpinLock Kio FileTable.
From stdpp Require Import list gmap.
Local Open Scope Z_scope.

(** ** Locks of one thread *)

(** The mutexes of the table, of files and of vnodes when they are free. *)
Abbreviation free_spin := (mtx_init MTX_SPIN).
Definition held_mtx (o t : Z) : mtx_t := mk_mtx (mtx_opts_to_lockobject_flags o) 1 (Z.lor t 1).

Section cpu.
Context (c0 : cpu_t) (st : list Z) (Hgood : good_cpu c0 st).

(** The processor of the thread while it has [n] wait mutexes. *)
Definition idle (n : Z) (c : cpu_t) : Prop := cpu_out (with_counts c0 (lock_count c0 + n) (spin_count c0)) st c.

Lemma good_counts n : good_cpu (with_counts c0 (lock_count c0 + n) (spin_count c0)) st.
Proof. destruct Hgood. by split. Qed.

Lemma idle_thread n c : idle n c -> curthread c = curthread c0 /\ thread (curthread c).
Proof. intros H. rewrite (co_thread _ _ _ H). simpl. split; [done|apply Hgood]. Qed.

Lemma spin_take lock n c : idle n c ->
  exists c', mtx_spin_lock 2 lock free_spin c = Ret (held_mtx MTX_SPIN (curthread c0), c') /\
    cpu_in lock (with_counts c0 (lock_count c0 + n) (spin_count c0)) st c'.
Proof.
  intros H. destruct (enter_ok lock _ st (good_counts n) c H) as (c' & He & Hin). exists c'. split; [|done].
  unfold mtx_spin_lock, spin_lock_begin. change (mtx_check free_spin SPINLOCK_LOCKCLASS) with (Ret ()). cbn [mbind outcome_bind]. rewrite He. cbn [mbind outcome_bind].
  pose proof (ci_thread _ _ _ _ Hin) as Ht. simpl in Ht. unfold owns. rewrite Ht. destruct (gc_thread _ _ Hgood) as [Hr _].
  change (mtx_get_owner free_spin) with 0. rewrite (proj2 (Z.eqb_neq 0 (curthread c0))), andb_false_r by lia. cbn. by rewrite Ht.
Qed.

Lemma spin_give lock n c : cpu_in lock (with_counts c0 (lock_count c0 + n) (spin_count c0)) st c ->
  exists c', mtx_spin_unlock lock (held_mtx MTX_SPIN (curthread c0)) c = Ret (free_spin, c') /\ idle n c'.
Proof.
  intros Hin. destruct (exit_ok lock _ st (good_counts n) c Hin) as (c' & He & Hout). exists c'. split; [|done].
  pose proof (ci_thread _ _ _ _ Hin) as Ht. simpl in Ht. pose proof (gc_thread _ _ Hgood) as Hthr. unfold mtx_spin_unlock, spin_unlock_begin, mtx_check, held_mtx. cbn [mtx_lock].
  rewrite (proj2 (Z.eqb_neq _ MTX_DESTROYED)) by (by apply word_taken). change (mtx_get_lc _ =? SPINLOCK_LOCKCLASS) with true. cbn [negb kassert mbind outcome_bind].
  rewrite word_owner, Ht, (Z.eqb_refl (curthread c0)) by done. cbn [kassert mbind outcome_bind set_data mtx_lock lo_data lo_flags]. change MTX_RECURSED with (2 ^ 2) at 1.
  rewrite word_flag by (done || lia). change (u32 (1 - 1)) with 0. cbn [andb Z.testbit Z.eqb kassert mbind outcome_bind]. by rewrite He.
Qed.

(** A wait mutex of a file or a vnode. *)
Lemma wait_take o n c : o = wait_opts true \/ o = wait_opts false -> idle n c ->
  exists c', take_mtx (mtx_init o) c = Ret (held_mtx o (curthread c0), c') /\ idle (n + 1) c'.
Proof.
  intros Ho H. destruct (idle_thread n c H) as [Ht Hthr]. unfold take_mtx. cbn [mtx_wait_lock].
  replace (mtx_check (mtx_init o) MUTEX_LOCKCLASS) with (Ret ()) by (by destruct Ho as [-> | ->]). cbn [mbind outcome_bind].
  unfold owns. change (mtx_get_owner (mtx_init o)) with 0. destruct Hthr as [Hr _]. rewrite (proj2 (Z.eqb_neq 0 (curthread c))), andb_false_r by lia.
  cbn. rewrite (proj2 (Z.eqb_neq (curthread c) 0)) by lia. eexists. split; [by rewrite Ht|].
  destruct H as [H1 H2 H3 H4 H5 H6 H7]. split; simpl in *; done || lia.
Qed.

Lemma wait_give o n c : o = wait_opts true \/ o = wait_opts false -> idle (n + 1) c ->
  exists c', mtx_wait_unlock (held_mtx o (curthread c0)) c = Ret (mtx_init o, c') /\ idle n c'.
Proof.
  intros Ho H. destruct (idle_thread _ c H) as [Ht Hthr]. pose proof (gc_thread _ _ Hgood) as Hthr0. unfold mtx_wait_unlock, mtx_check, held_mtx. cbn [mtx_lock].
  rewrite word_owner by done. destruct Hthr0 as [Hr0 Ha0]. rewrite (proj2 (Z.eqb_neq _ 0)) by lia.
  assert (Hnd : (Z.lor (curthread c0) 1 =? MTX_DESTROYED) = false) by (apply Z.eqb_neq; apply word_taken; done). rewrite Hnd.
  cbn [lo_flags]. replace (Z.land (mtx_opts_to_lockobject_flags o) LC_MASK =? MUTEX_LOCKCLASS) with true by (by destruct Ho as [-> | ->]). cbn [negb kassert mbind outcome_bind].
  rewrite Ht, (Z.eqb_refl (curthread c0)). cbn [kassert mbind outcome_bind set_data mtx_lock lo_data lo_flags]. change MTX_RECURSED with (2 ^ 2) at 1.
  rewrite word_flag by (done || lia). change (u32 (1 - 1)) with 0. cbn [andb Z.testbit Z.eqb kassert mbind outcome_bind]. eexists. split; [done|].
  destruct H as [H1 H2 H3 H4 H5 H6 H7]. split; simpl in *; done || lia.
Qed.
End cpu.

(** ** The bitmap of descriptors *)

(** The least of the next [n] numbers that is not in [D]. *)
Fixpoint least_free (n : nat) (i : Z) (D : gset Z) : option Z :=
  match n with
  | O => None
  | S n => if decide (i ∈ D) then least_free n (i + 1) D else Some i
  end.

Definition least_fd (D : gset Z) : option Z := least_free (Z.to_nat FTABLE_MAX_FILES) 0 D.

Lemma least_free_spec n : forall i D,
  match least_free n i D with
  | Some j => i <= j < i + Z.of_nat n /\ j ∉ D /\ forall x, i <= x < j -> x ∈ D
  | None => forall x, i <= x < i + Z.of_nat n -> x ∈ D
  end.
Proof.
  induction n as [|n IH]; intros i D; simpl; [lia|]. case_decide as Hi; [|split; [lia|]; split; [done|lia]].
  specialize (IH (i + 1) D). destruct (least_free n (i + 1) D) as [j|].
  - destruct IH as (Hj & Hn & Hb). split; [lia|]. split; [done|]. intros x Hx. destruct (decide (x = i)) as [->|]; [done|]. apply Hb. lia.
  - intros x Hx. destruct (decide (x = i)) as [->|]; [done|]. apply IH. lia.
Qed.

Lemma least_fd_spec D :
  match least_fd D with
  | Some j => 0 <= j < FTABLE_MAX_FILES /\ j ∉ D /\ forall x, 0 <= x < j -> x ∈ D
  | None => forall x, 0 <= x < FTABLE_MAX_FILES -> x ∈ D
  end.
Proof. pose proof (least_free_spec (Z.to_nat FTABLE_MAX_FILES) 0 D) as H. by rewrite Z2Nat.id in H by lia. Qed.
#[global] Opaque least_fd.

Record bm_ok (b : bitmap_t) (D : gset Z) (k : Z) : Prop := {
  bo_wf : Bitmap.wf b;
  bo_len : length (bmp_map b) = 16%nat;
  bo_bits : forall i, 0 <= i < FTABLE_MAX_FILES -> bit_at (bmp_map b) i = bool_decide (i ∈ D);
  bo_range : forall i, i ∈ D -> 0 <= i < FTABLE_MAX_FILES;
  bo_free : FTABLE_MAX_FILES - Z.of_nat (base.size D) <= bmp_free b <= FTABLE_MAX_FILES + k;
  bo_sum : u64 (bmp_used b + bmp_free b) = FTABLE_MAX_FILES;
}.

Lemma bitmap_init_ok : bm_ok (bitmap_init FTABLE_MAX_FILES) ∅ 0.
Proof.
  split.
  - split; [|done]. apply Forall_replicate. unfold fits. lia.
  - done.
  - intros i Hi. rewrite bool_decide_eq_false_2 by set_solver. unfold bit_at. destruct (bmp_map (bitmap_init FTABLE_MAX_FILES) !! Z.to_nat (i / 64)) as [q|] eqn:E; [|done].
    apply lookup_replicate in E as [-> _]. apply Z.bits_0.
  - set_solver.
  - rewrite size_empty. change (bmp_free (bitmap_init FTABLE_MAX_FILES)) with FTABLE_MAX_FILES. lia.
  - done.
Qed.

Lemma fits_clearbit q i : fits 64 q -> fits 64 (Z.clearbit q i).
Proof.
  intros Hq. apply fits_of_testbit; [lia| |].
  - unfold Z.clearbit. apply Z.ldiff_nonneg. left. unfold fits in Hq. lia.
  - intros j Hj. rewrite Z.clearbit_eqb. by rewrite (fits_testbit 64 q) by (done || lia).
Qed.

Section bits.
Context (b : bitmap_t) (D : gset Z) (k : Z) (Hok : bm_ok b D k) (Hk : k < 2 ^ 62).

Lemma size_below fd : 0 <= fd < FTABLE_MAX_FILES -> fd ∉ D -> Z.of_nat (base.size D) < FTABLE_MAX_FILES.
Proof.
  intros Hr Hfd. assert (Hs : {[ fd ]} ∪ D ⊆ list_to_set (seqZ 0 FTABLE_MAX_FILES)).
  { intros x Hx. apply elem_of_list_to_set, elem_of_seqZ. apply elem_of_union in Hx as [->%elem_of_singleton|Hx]; [lia|]. pose proof (bo_range _ _ _ Hok x Hx). lia. }
  apply subseteq_size in Hs. rewrite size_union in Hs by (by apply disjoint_singleton_l). rewrite size_singleton, size_list_to_set, length_seqZ in Hs by apply NoDup_seqZ. lia.
Qed.

Lemma size_most : Z.of_nat (base.size D) <= FTABLE_MAX_FILES.
Proof.
  assert (Hs : D ⊆ list_to_set (seqZ 0 FTABLE_MAX_FILES)).
  { intros x Hx. apply elem_of_list_to_set, elem_of_seqZ. pose proof (bo_range _ _ _ Hok x Hx). lia. }
  apply subseteq_size in Hs. rewrite size_list_to_set, length_seqZ in Hs by apply NoDup_seqZ. lia.
Qed.

Lemma bits_alloc : exists r b', bitmap_get_set_free b = Ret (r, b') /\
  match least_fd D with Some fd => r = fd /\ bm_ok b' ({[ fd ]} ∪ D) k | None => r = -1 /\ b' = b end.
Proof.
  destruct Hok as [Hwf Hlen Hbits Hrange Hfree Hsum]. destruct (get_set_free_spec b Hwf) as (r & b' & E & Hr). exists r, b'. split; [done|].
  pose proof (least_fd_spec D) as Hl. destruct Hr as [(Hwf' & [T1 T2 T3 T4] & Hnone & F & U)|(-> & -> & Hfull)]; cbn [fst snd] in *.
  - rewrite Hlen in T2. assert (Hr : r ∉ D). { specialize (T3 r ltac:(lia)). rewrite Hbits in T3 by lia. by apply bool_decide_eq_false in T3. }
    assert (Hb : forall x, 0 <= x < r -> x ∈ D).
    { intros x Hx. destruct (decide (x ∈ D)) as [|Hn]; [done|]. pose proof (Z.mod_pos_bound x 64 ltac:(lia)). destruct (Hnone x Hx ltac:(lia)). intros j Hj. replace j with x by lia.
      rewrite Hbits by lia. by apply bool_decide_eq_false. }
    destruct (least_fd D) as [j|]; [|by destruct Hr; apply Hl; lia]. destruct Hl as (Hj & Hnj & Hbj).
    assert (r = j) as ->. { destruct (Z.lt_trichotomy r j) as [|[|]]; [|done|]; exfalso; [apply Hr, Hbj|apply Hnj, Hb]; lia. }
    split; [done|]. assert (Hlen' : length (bmp_map b') = 16%nat).
    { pose proof (get_set_free_size _ _ _ E) as Hsz. destruct Hwf as [_ W1], Hwf' as [_ W2]. lia. }
    split; [done|done| | |rewrite size_union, size_singleton by (by apply disjoint_singleton_l); lia|by rewrite F, U].
    + intros i Hi. rewrite T4, Hbits by lia. destruct (decide (i = j)) as [->|Hne].
      * rewrite (bool_decide_eq_true_2 (j ∈ {[ j ]} ∪ D)) by set_solver. rewrite (proj2 (Z.leb_le j j)), (proj2 (Z.ltb_lt j (j + 1))), orb_true_r by lia. done.
      * rewrite (bool_decide_ext (i ∈ {[ j ]} ∪ D) (i ∈ D)) by set_solver. destruct (Z.leb_spec j i), (Z.ltb_spec i (j + 1)); simpl; rewrite ?orb_false_r; done || lia.
    + intros i Hi. apply elem_of_union in Hi as [->%elem_of_singleton|Hi]; [lia|by apply Hrange].
  - destruct (least_fd D) as [j|]; [exfalso|done]. destruct Hl as (Hj & Hnj & _). pose proof (size_below j ltac:(lia) Hnj). destruct Hfull as [F|Hfull]; [lia|].
    pose proof (Z.mod_pos_bound j 64 ltac:(lia)). apply (Hfull j ltac:(lia) ltac:(lia)). intros x Hx. replace x with j by lia. rewrite Hbits by lia. by apply bool_decide_eq_false.
Qed.

Lemma word_index fd : 0 <= fd < FTABLE_MAX_FILES -> 0 <= fd / 64 < 16.
Proof. intros H. split; [apply Z.div_pos; lia|apply Z.div_lt_upper_bound; lia]. Qed.

Lemma bits_word fd : 0 <= fd < FTABLE_MAX_FILES -> exists q, load (bmp_map b) (fd / 64) = Ret q /\ bmp_map b !! Z.to_nat (fd / 64) = Some q /\ Z.testbit q (fd mod 64) = bool_decide (fd ∈ D).
Proof.
  intros Hr. pose proof (word_index fd Hr). destruct Hok as [_ Hlen Hbits _ _ _]. specialize (Hbits fd Hr). unfold bit_at in Hbits. unfold load.
  destruct (bmp_map b !! Z.to_nat (fd / 64)) as [q|] eqn:Eq; [|apply lookup_ge_None in Eq; lia].
  exists q. rewrite (proj2 (Z.leb_le 0 (fd / 64))) by lia. done.
Qed.

(** One word with another bit at [fd]. *)
Lemma bits_update fd q (v : bool) : 0 <= fd < FTABLE_MAX_FILES -> bmp_map b !! Z.to_nat (fd / 64) = Some q ->
  forall q', (forall j, 0 <= j -> Z.testbit q' j = if j =? fd mod 64 then v else Z.testbit q j) ->
  forall i, 0 <= i < FTABLE_MAX_FILES -> bit_at (<[Z.to_nat (fd / 64) := q']> (bmp_map b)) i = if i =? fd then v else bit_at (bmp_map b) i.
Proof.
  intros Hr Eq q' Hq' i Hi. pose proof (word_index fd Hr). pose proof (bo_len _ _ _ Hok). rewrite bit_at_insert by lia.
  pose proof (Z.div_mod i 64 ltac:(lia)). pose proof (Z.div_mod fd 64 ltac:(lia)). pose proof (Z.mod_pos_bound i 64 ltac:(lia)).
  destruct (Z.eqb_spec (i / 64) (fd / 64)) as [E|E].
  - rewrite Hq' by lia. destruct (Z.eqb_spec (i mod 64) (fd mod 64)), (Z.eqb_spec i fd); try lia; [done|]. unfold bit_at. by rewrite E, Eq.
  - destruct (Z.eqb_spec i fd) as [->|]; done.
Qed.

Lemma bits_clear fd : fd ∈ D -> exists b', bitmap_clear b fd = Ret (true, b') /\ bm_ok b' (D ∖ {[ fd ]}) (k + 1).
Proof.
  intros Hfd. pose proof (bo_range _ _ _ Hok fd Hfd) as Hr. pose proof (word_index fd Hr) as Hi. destruct (bits_word fd Hr) as (q & Hq & Eq & Hb).
  pose proof (bits_update fd q false Hr Eq) as Hupd. pose proof size_most as Hsz. destruct Hok as [Hwf Hlen Hbits Hrange Hfree Hsum].
  rewrite bool_decide_eq_true_2 in Hb by done. unfold bitmap_clear, index_ok. rewrite Hsum, wrap_small by (unfold fits; lia). rewrite (proj2 (Z.ltb_lt fd FTABLE_MAX_FILES)) by lia.
  cbn [kassert mbind outcome_bind]. rewrite Hq. cbn [mbind outcome_bind btr64]. rewrite Hb, store_in_range by lia. cbn [mbind outcome_bind Z.b2z]. eexists. split; [done|].
  assert (Hs : Z.of_nat (base.size (D ∖ {[ fd ]})) = Z.of_nat (base.size D) - 1).
  { rewrite size_difference by (by apply singleton_subseteq_l). rewrite size_singleton. assert (0 < base.size D)%nat; [|lia].
    apply Nat.neq_0_lt_0. intros E. apply size_empty_inv in E. by apply (E fd) in Hfd. }
  split; simpl.
  - apply wf_add_counts, wf_set_word; [done|]. apply fits_clearbit. by eapply wf_word.
  - by rewrite length_insert.
  - intros i Hr'. rewrite (Hupd (Z.clearbit q (fd mod 64))) by (done || (intros j Hj; rewrite Z.clearbit_eqb; destruct (Z.eqb_spec j (fd mod 64)), (Z.eqb_spec (fd mod 64) j); try done; try lia; simpl; by rewrite ?andb_true_r, ?andb_false_r)).
    destruct (Z.eqb_spec i fd) as [->|]; [rewrite bool_decide_eq_false_2; [done|set_solver]|]. rewrite Hbits by done. apply bool_decide_ext. set_solver.
  - intros i Hin. apply Hrange. set_solver.
  - rewrite Hs, wrap_small by (unfold fits; lia). lia.
  - rewrite <- Hsum. unfold wrap. rewrite <- Zplus_mod. f_equal. lia.
Qed.
End bits.

(** ** The operations of the table *)

Section steps.
Context {M : Type} {FO : file_ops M} (c0 : cpu_t) (st : list Z) (Hgood : good_cpu c0 st).
Abbreviation idle := (idle c0 st).
Implicit Types (t : ftable_t) (fs : gmap Z file_t) (vs : gmap Z vnode_t) (c : cpu_t) (m : M).

Definition inside (n : Z) t c : Prop :=
  ft_lock t = held_mtx MTX_SPIN (curthread c0) /\ cpu_in (ft_addr t) (with_counts c0 (lock_count c0 + n) (spin_count c0)) st c.

Lemma table_lock_ok t fs nx vs c m n : ft_lock t = free_spin -> idle n c ->
  exists c', FTABLE_LOCK (mk_fsys t fs nx vs c m) = Ret (mk_fsys (set_lock t (held_mtx MTX_SPIN (curthread c0))) fs nx vs c' m) /\
    inside n (set_lock t (held_mtx MTX_SPIN (curthread c0))) c'.
Proof.
  intros Hl Hc. destruct (spin_take c0 st Hgood (ft_addr t) n c Hc) as (c' & H & Hin). exists c'. split; [|done].
  unfold FTABLE_LOCK. simpl. rewrite Hl, H. done.
Qed.

Lemma table_unlock_ok t fs nx vs c m n : inside n t c ->
  exists c', FTABLE_UNLOCK (mk_fsys t fs nx vs c m) = Ret (mk_fsys (set_lock t free_spin) fs nx vs c' m) /\ idle n c'.
Proof.
  intros [Hl Hc]. destruct (spin_give c0 st Hgood (ft_addr t) n c Hc) as (c' & H & Hin). exists c'. split; [|done].
  unfold FTABLE_UNLOCK. simpl. rewrite Hl, H. done.
Qed.

Section table.
Context (t : ftable_t) (fs : gmap Z file_t) (nx : Z) (vs : gmap Z vnode_t) (c : cpu_t) (m : M) (n : Z).
Context (Hl : ft_lock t = free_spin) (Hc : idle n c).
Abbreviation sys := (mk_fsys t fs nx vs c m).

Lemma alloc_fd_ok D k : bm_ok (ft_bitmap t) D k -> k < 2 ^ 62 ->
  exists r b c', ftable_alloc_fd sys = Ret (r, mk_fsys (set_bitmap t b) fs nx vs c' m) /\ idle n c' /\
    match least_fd D with Some fd => r = fd /\ bm_ok b ({[ fd ]} ∪ D) k | None => r = -1 /\ b = ft_bitmap t end.
Proof.
  intros Hb Hk. destruct (table_lock_ok t fs nx vs c m n Hl Hc) as (c1 & H1 & Hin). unfold ftable_alloc_fd. rewrite H1. cbn [mbind outcome_bind table].
  destruct (bits_alloc _ _ _ Hb Hk) as (r & b & Hr & Hspec). simpl ft_bitmap. rewrite Hr. cbn [mbind outcome_bind].
  destruct (table_unlock_ok (set_bitmap (set_lock t (held_mtx MTX_SPIN (curthread c0))) b) fs nx vs c1 m n Hin) as (c2 & H2 & Hc2).
  unfold with_table. simpl. rewrite H2. cbn [mbind outcome_bind]. exists r, b, c2.
  pose proof (least_fd_spec D) as Hl'. destruct (least_fd D) as [fd|]; destruct Hspec as [-> Hb'].
  - rewrite (proj2 (Z.ltb_ge fd 0)) by lia. split; [|done]. destruct t; simpl in *; by subst.
  - split; [|done]. destruct t; simpl in *; by subst.
Qed.

Lemma free_fd_ok D k fd : bm_ok (ft_bitmap t) D k -> k < 2 ^ 62 -> fd ∈ D ->
  exists b c', ftable_free_fd sys fd = Ret (mk_fsys (set_bitmap t b) fs nx vs c' m) /\ idle n c' /\ bm_ok b (D ∖ {[ fd ]}) (k + 1).
Proof.
  intros Hb Hk Hfd. pose proof (bo_range _ _ _ Hb fd Hfd). destruct (table_lock_ok t fs nx vs c m n Hl Hc) as (c1 & H1 & Hin). unfold ftable_free_fd.
  rewrite (proj2 (Z.ltb_ge fd 0)), (proj2 (Z.ltb_lt fd FTABLE_MAX_FILES)), H1 by lia. cbn [mbind outcome_bind kassert table].
  destruct (bits_clear _ _ _ Hb Hk fd Hfd) as (b & Hr & Hb'). simpl ft_bitmap. rewrite Hr. cbn [mbind outcome_bind].
  destruct (table_unlock_ok (set_bitmap (set_lock t (held_mtx MTX_SPIN (curthread c0))) b) fs nx vs c1 m n Hin) as (c2 & H2 & Hc2).
  unfold with_table. simpl. rewrite H2. exists b, c2. split; [|done]. destruct t; simpl in *; by subst.
Qed.

Context (Fm : gmap Z Z) (Htree : rb_holds (ft_tree t) Fm).

Lemma find_fd fd : rb_tree_find (ft_tree t) fd = Ret (default 0 (Fm !! fd)).
Proof. destruct Htree as (sh & k & Hok & _). by apply (find_reads _ _ _ _ _ Hok). Qed.

Lemma get_none fd : Fm !! fd = None -> exists c', ftable_get_file sys fd = Ret (0, mk_fsys t fs nx vs c' m) /\ idle n c'.
Proof.
  intros Hfd. destruct (table_lock_ok t fs nx vs c m n Hl Hc) as (c1 & H1 & Hin). unfold ftable_get_file. rewrite H1. cbn [mbind outcome_bind table]. simpl ft_tree.
  rewrite find_fd, Hfd. cbn [mbind outcome_bind default f_getref Z.eqb].
  destruct (table_unlock_ok _ fs nx vs c1 m n Hin) as (c2 & H2 & Hc2). rewrite H2. exists c2. split; [|done]. destruct t; simpl in *; by subst.
Qed.

Lemma get_some fd p f : Fm !! fd = Some p -> p <> 0 -> fs !! p = Some f ->
  exists c', ftable_get_file sys fd = Ret (p, mk_fsys t (<[p := set_f_ref f (f_ref f + 1)]> fs) nx vs c' m) /\ idle n c'.
Proof.
  intros Hfd Hp Hf. destruct (table_lock_ok t fs nx vs c m n Hl Hc) as (c1 & H1 & Hin). unfold ftable_get_file. rewrite H1. cbn [mbind outcome_bind table]. simpl ft_tree.
  rewrite find_fd, Hfd. cbn [mbind outcome_bind]. simpl (default 0 (Some p)). unfold f_getref, get_file. rewrite (proj2 (Z.eqb_neq p 0)) by done. simpl files. rewrite Hf. cbn [mbind outcome_bind].
  unfold put_file, with_files. simpl.
  destruct (table_unlock_ok _ (<[p := set_f_ref f (f_ref f + 1)]> fs) nx vs c1 m n Hin) as (c2 & H2 & Hc2). rewrite H2. exists c2. split; [|done]. destruct t; simpl in *; by subst.
Qed.

Lemma holds_nodes : nodes (ft_tree t) = 2 * Z.of_nat (base.size Fm).
Proof. destruct Htree as (sh & k & _ & Hn & Hs). lia. Qed.

Lemma add_ok p f : fs !! p = Some f -> 0 <= f_fd f < FTABLE_MAX_FILES -> Fm !! f_fd f = None -> Z.of_nat (base.size Fm) < 2 ^ 62 ->
  exists tr c', ftable_add_file sys p = Ret (mk_fsys (set_tree t tr (ft_count t + 1)) fs nx vs c' m) /\ idle n c' /\ rb_holds tr (<[f_fd f := p]> Fm).
Proof.
  intros Hf Hr Hfd Hsz. destruct (table_lock_ok t fs nx vs c m n Hl Hc) as (c1 & H1 & Hin). unfold ftable_add_file, get_file. simpl files. rewrite Hf. cbn [mbind outcome_bind].
  rewrite (proj2 (Z.leb_le 0 _)), (proj2 (Z.ltb_lt _ _)), H1 by lia. cbn [mbind outcome_bind kassert andb table]. simpl ft_tree. rewrite find_fd, Hfd. cbn [mbind outcome_bind default Z.eqb negb].
  destruct (step_op_ok (ft_tree t) Fm (RbRemove.Insert (f_fd f) p) 0 (<[f_fd f := p]> Fm) Htree) as (tr & Ht & Hh & _); [rewrite holds_nodes; lia|simpl; by rewrite Hfd|].
  simpl in Ht. destruct (rb_tree_insert no_events (ft_tree t) (f_fd f) p) as [tr'| | |]; try done. injection Ht as ->. cbn [mbind outcome_bind].
  destruct (table_unlock_ok (set_tree (set_lock t (held_mtx MTX_SPIN (curthread c0))) tr (ft_count t + 1)) fs nx vs c1 m n Hin) as (c2 & H2 & Hc2).
  unfold with_table. simpl. rewrite H2. exists tr, c2. split; [|done]. destruct t; simpl in *; by subst.
Qed.

Lemma remove_ok fd p f : Fm !! fd = Some p -> p <> 0 -> fs !! p = Some f -> f_ref f = 2 -> 0 <= fd < FTABLE_MAX_FILES -> Z.of_nat (base.size Fm) < 2 ^ 62 ->
  exists tr c', ftable_remove_file sys fd = Ret (mk_fsys (set_tree t tr (ft_count t - 1)) (<[p := set_f_ref f 1]> fs) nx vs c' m) /\ idle n c' /\
    rb_holds tr (delete fd Fm).
Proof.
  intros Hfd Hp Hf Href Hr Hsz. destruct (table_lock_ok t fs nx vs c m n Hl Hc) as (c1 & H1 & Hin). unfold ftable_remove_file.
  rewrite (proj2 (Z.leb_le 0 _)), (proj2 (Z.ltb_lt _ _)), H1 by lia. cbn [mbind outcome_bind kassert andb table]. simpl ft_tree.
  destruct (step_op_ok (ft_tree t) Fm (RbRemove.Delete fd) p (delete fd Fm) Htree) as (tr & Ht & Hh & _); [rewrite holds_nodes; lia|simpl; by rewrite Hfd|].
  simpl in Ht. rewrite Ht. cbn [mbind outcome_bind]. rewrite (proj2 (Z.eqb_neq p 0)) by done.
  destruct (table_unlock_ok (set_tree (set_lock t (held_mtx MTX_SPIN (curthread c0))) tr (ft_count t - 1)) fs nx vs c1 m n Hin) as (c2 & H2 & Hc2).
  unfold with_table. simpl. rewrite H2. cbn [mbind outcome_bind]. unfold f_release, get_file. rewrite (proj2 (Z.eqb_neq p 0)) by done. simpl files. rewrite Hf. cbn [mbind outcome_bind].
  rewrite Href. simpl. exists tr, c2. split; [|done]. unfold put_file, with_files. simpl. destruct t; simpl in *; by subst.
Qed.
End table.

Section objects.
Context (t : ftable_t) (fs : gmap Z file_t) (nx : Z) (vs : gmap Z vnode_t) (c : cpu_t) (m : M) (n : Z).
Abbreviation sys := (mk_fsys t fs nx vs c m).
Abbreviation held := (held_mtx 0 (curthread c0)).

Lemma f_lock_ok p f : idle n c -> fs !! p = Some f -> f_mtx f = mtx_init 0 -> f_closed f = false ->
  exists c', f_lock sys p = Ret (true, mk_fsys t (<[p := set_f_mtx f held]> fs) nx vs c' m) /\ idle (n + 1) c'.
Proof.
  intros Hc Hf Hm Hcl. destruct (wait_take c0 st Hgood 0 n c (or_intror eq_refl) Hc) as (c' & H & Hc'). exists c'. split; [|done].
  unfold f_lock, get_file. simpl files. rewrite Hf. cbn [mbind outcome_bind]. rewrite Hcl, Hm. simpl cpu. by rewrite H.
Qed.

Lemma f_unlock_ok p f : idle (n + 1) c -> fs !! p = Some f -> f_mtx f = held ->
  exists c', f_unlock sys p = Ret (mk_fsys t (<[p := set_f_mtx f (mtx_init 0)]> fs) nx vs c' m) /\ idle n c'.
Proof.
  intros Hc Hf Hm. destruct (wait_give c0 st Hgood 0 n c (or_intror eq_refl) Hc) as (c' & H & Hc'). exists c'. split; [|done].
  unfold f_unlock, get_file. simpl files. rewrite Hf. cbn [mbind outcome_bind]. rewrite Hm. simpl cpu. by rewrite H.
Qed.

Lemma finish_plain {R} p f (res : R) : p <> 0 -> fs !! p = Some f -> f_ref f = 2 ->
  finish sys p false res = Ret (res, mk_fsys t (<[p := set_f_ref f 1]> fs) nx vs c m).
Proof.
  intros Hp Hf Hr. unfold finish, f_release, get_file. cbn [mbind outcome_bind]. rewrite (proj2 (Z.eqb_neq p 0)) by done. simpl files. rewrite Hf. cbn [mbind outcome_bind].
  rewrite Hr. done.
Qed.

Lemma count_open_ok v nd d : idle n c -> vs !! v = Some nd -> vn_state nd = V_ALIVE -> vn_mtx nd = mtx_init MTX_RECURSIVE ->
  exists c', vn_count_open sys v d = Ret (mk_fsys t fs nx (<[v := set_vn_nopen nd (u32 (vn_nopen nd + d))]> vs) c' m) /\ idle n c'.
Proof.
  intros Hc Hv Hs Hm. destruct (wait_take c0 st Hgood MTX_RECURSIVE n c (or_introl eq_refl) Hc) as (c1 & H1 & Hc1).
  destruct (wait_give c0 st Hgood MTX_RECURSIVE n c1 (or_introl eq_refl) Hc1) as (c2 & H2 & Hc2). exists c2. split; [|done].
  unfold vn_count_open, vn_lock, get_vnode. simpl vnodes. rewrite Hv. cbn [mbind outcome_bind]. rewrite Hs, Hm. rewrite bool_decide_eq_false_2 by done. simpl cpu. rewrite H1. cbn [mbind outcome_bind].
  unfold with_cpu, put_vnode, with_vnodes. simpl vnodes. rewrite lookup_insert_eq. cbn [mbind outcome_bind]. unfold vn_unlock, get_vnode. simpl vnodes. rewrite lookup_insert_eq. cbn [mbind outcome_bind].
  simpl vn_mtx. simpl cpu. rewrite H2. cbn [mbind outcome_bind]. unfold with_cpu, put_vnode, with_vnodes. simpl. rewrite !insert_insert_eq. destruct nd; simpl in *; by subst.
Qed.

(** The last release of a closed file. *)
Lemma release_closed p f nd : p <> 0 -> fs !! p = Some f -> f_ref f = 1 -> f_closed f = true -> vs !! f_vnode f = Some nd -> vn_ref nd <> 1 ->
  f_release sys p = Ret (mk_fsys t (delete p fs) nx (<[f_vnode f := set_vn_ref nd (vn_ref nd - 1)]> vs) c m).
Proof.
  intros Hp Hf Hr Hcl Hv Hn. unfold f_release, get_file. rewrite (proj2 (Z.eqb_neq p 0)) by done. simpl files. rewrite Hf. cbn [mbind outcome_bind]. rewrite Hr. simpl (1 =? 1).
  unfold f_cleanup, get_file. cbn iota. unfold put_file, with_files. simpl files. rewrite lookup_insert_eq. cbn [mbind outcome_bind]. simpl f_closed. rewrite Hcl. simpl f_ref. cbn [mbind outcome_bind kassert Z.eqb Z.sub].
  unfold vn_release, get_vnode. simpl vnodes. simpl f_vnode. rewrite Hv. cbn [mbind outcome_bind]. rewrite (proj2 (Z.eqb_neq _ 1)) by done. cbn [mbind outcome_bind].
  unfold with_files, put_vnode, with_vnodes. simpl. by rewrite delete_insert_eq.
Qed.

(** A new file on a vnode. *)
Lemma f_alloc_ok fd flags v nd : vs !! v = Some nd ->
  f_alloc sys fd flags v =
    Ret (nx, mk_fsys t (<[nx := mk_file fd flags (vn_type nd) v (mtx_init 0) 1 0 false]> fs) (nx + 1) (<[v := set_vn_ref nd (vn_ref nd + 1)]> vs) c m).
Proof. intros Hv. unfold f_alloc, get_vnode. simpl vnodes. rewrite Hv. cbn [mbind outcome_bind]. unfold new_file, vn_getref, get_vnode. simpl vnodes. by rewrite Hv. Qed.
End objects.

Lemma finish_locked {R} t fs nx vs c m n p f (res : R) : idle (n + 1) c -> p <> 0 -> fs !! p = Some f -> f_ref f = 2 -> f_mtx f = held_mtx 0 (curthread c0) ->
  exists c', finish (mk_fsys t fs nx vs c m) p true res = Ret (res, mk_fsys t (<[p := set_f_ref (set_f_mtx f (mtx_init 0)) 1]> fs) nx vs c' m) /\ idle n c'.
Proof.
  intros Hc Hp Hf Hr Hm. destruct (f_unlock_ok t fs nx vs c m n p f Hc Hf Hm) as (c' & H & Hc'). exists c'. split; [|done].
  unfold finish. rewrite H. cbn [mbind outcome_bind]. unfold f_release, get_file. rewrite (proj2 (Z.eqb_neq p 0)) by done. simpl files. rewrite lookup_insert_eq. cbn [mbind outcome_bind].
  simpl f_ref. rewrite Hr. simpl. unfold put_file, with_files. simpl. by rewrite insert_insert_eq.
Qed.

Lemma finish_closed {R} t fs nx vs c m n p f nd (res : R) : idle (n + 1) c -> p <> 0 -> fs !! p = Some f -> f_ref f = 1 -> f_closed f = true ->
  f_mtx f = held_mtx 0 (curthread c0) -> vs !! f_vnode f = Some nd -> vn_ref nd <> 1 ->
  exists c', finish (mk_fsys t fs nx vs c m) p true res = Ret (res, mk_fsys t (delete p fs) nx (<[f_vnode f := set_vn_ref nd (vn_ref nd - 1)]> vs) c' m) /\ idle n c'.
Proof.
  intros Hc Hp Hf Hr Hcl Hm Hv Hn. destruct (f_unlock_ok t fs nx vs c m n p f Hc Hf Hm) as (c' & H & Hc'). exists c'. split; [|done].
  unfold finish. rewrite H. cbn [mbind outcome_bind].
  rewrite (release_closed t (<[p := set_f_mtx f (mtx_init 0)]> fs) nx vs c' m p (set_f_mtx f (mtx_init 0)) nd); [|done|apply lookup_insert_eq|done..].
  cbn [mbind outcome_bind]. simpl f_vnode. by rewrite delete_insert_eq.
Qed.
End steps.
