(* ===== verification/FdSpec.v ===== *)
(** * Descriptors as a finite map

    What the calls on descriptors promise, on a map from descriptors to open
    files, and the theorem that the table of files keeps the promise. *)

From S2P Require Import Prelude Mm Bitmap RbTree RbAdd RbRemove Lock LockRun SpinLock Kio FileTable FileRun.
From stdpp Require Import list gmap.
Local Open Scope Z_scope.

(** ** The specification *)

Record afile := mk_af { a_vnode : Z; a_flags : Z; a_offset : Z }.
Record anode := mk_an { an_type : vtype; an_nopen : Z; an_size : Z; an_rdonly : bool; an_dev : Z }.
Record afs (M : Type) := mk_afs { a_files : gmap Z afile; a_nodes : gmap Z anode; a_rest : M }.
Arguments mk_afs {M}.
Arguments a_files {M}.
Arguments a_nodes {M}.
Arguments a_rest {M}.

Definition an_count (n : anode) (d : Z) : anode := mk_an (an_type n) (u32 (an_nopen n + d)) (an_size n) (an_rdonly n) (an_dev n).
Definition an_resize (n : anode) (sz : Z) : anode := mk_an (an_type n) (an_nopen n) sz (an_rdonly n) (an_dev n).
Definition an_isdev (n : anode) : bool := bool_decide (an_type n = V_BLK) || bool_decide (an_type n = V_CHR).

Inductive fd_op :=
  | FOpen (path : list Z) (flags mode : Z) | FOpendir (path : list Z) | FClose (fd : Z) | FClosedir (fd : Z) | FDup (fd : Z)
  | FSeek (fd offset whence : Z) | FTell (fd : Z) | FSeekdir (fd loc : Z)
  | FRead (fd : Z) (k : kio_t) | FWrite (fd : Z) (k : kio_t).

Section spec.
Context {M : Type} {FO : file_ops M} {A : abi_numbers}.
Implicit Types a : afs M.

Definition set_offset a (fd : Z) (f : afile) (o : Z) : afs M := mk_afs (<[fd := mk_af (a_vnode f) (a_flags f) o]> (a_files a)) (a_nodes a) (a_rest a).
Definition set_node a (v : Z) (n : anode) (m : M) : afs M := mk_afs (a_files a) (<[v := n]> (a_nodes a)) m.
Definition drop_fd a (fd : Z) (f : afile) (n : anode) : afs M := mk_afs (delete fd (a_files a)) (<[a_vnode f := an_count n (-1)]> (a_nodes a)) (a_rest a).

Definition on_file {R} a (fd : Z) (bad : R) (k : afile -> anode -> outcome (R * afs M)) : outcome (R * afs M) :=
  match a_files a !! fd with
  | None => Ret (bad, a)
  | Some f => match a_nodes a !! a_vnode f with None => Fault | Some n => k f n end
  end.

(** What the file system or the device answers to an open, with the size of
    the vnode then. *)
Definition node_open (n : anode) (v flags : Z) (m : M) : outcome (Z * Z * M) :=
  if an_isdev n then
    match d_open (an_dev n) with
    | None => Ret (0, an_size n, m)
    | Some open => '(res, m) ← open flags m; Ret (res, an_size n, m)
    end
  else
    match v_open v with
    | None => Ret (0, an_size n, m)
    | Some open => '(res, sz, m) ← open flags m; Ret (if res <? 0 then res else 0, sz, m)
    end.

Definition new_open a (fd flags v : Z) (n : anode) : afs M :=
  mk_afs (<[fd := mk_af v flags 0]> (a_files a)) (<[v := an_count n 1]> (a_nodes a)) (a_rest a).
Definition set_rest a (m : M) : afs M := mk_afs (a_files a) (a_nodes a) m.

(** Opening with the descriptor [fd], which stays free when the call fails. *)
Definition open_with a (fd : Z) (path : list Z) (flags mode : Z) : outcome (Z * afs M) :=
  if negb (access_ok flags) then Ret (- EINVAL, a)
  else
    '(res, v, m) ← resolve_file path flags mode (a_rest a);
    let a := set_rest a m in
    if res <? 0 then Ret (res, a)
    else
      match a_nodes a !! v with
      | None => Fault
      | Some n =>
          if an_isdev n && (an_dev n =? 0) then Ret (- ENODEV, a)
          else
            '(res, sz, m) ← node_open n v flags (a_rest a);
            let n := an_resize n sz in
            let a := set_node a v n m in
            Ret (if res <? 0 then (res, a) else (fd, new_open a fd flags v n))
      end.

(** A new descriptor is the least that is free. *)
Definition spec_open a (path : list Z) (flags mode : Z) : outcome (Z * afs M) :=
  match least_fd (dom (a_files a)) with
  | None => Ret (- EMFILE, a)
  | Some fd => open_with a fd path flags mode
  end.

Definition spec_opendir a (path : list Z) : outcome (Z * afs M) :=
  '(res, v, m) ← resolve_dir path (a_rest a);
  let a := set_rest a m in
  if res <? 0 then Ret (res, a)
  else
    match least_fd (dom (a_files a)) with
    | None => Ret (- EMFILE, a)
    | Some fd => match a_nodes a !! v with None => Fault | Some n => Ret (fd, new_open a fd O_RDONLY v n) end
    end.

Definition spec_dup a (fd : Z) : outcome (Z * afs M) :=
  on_file a fd (- EBADF) (fun f _ =>
    match least_fd (dom (a_files a)) with
    | None => Ret (- EMFILE, a)
    | Some fd' => Ret (fd', mk_afs (<[fd' := mk_af (a_vnode f) (Z.land (a_flags f) (not_w 32 O_CLOEXEC)) 0]> (a_files a)) (a_nodes a) (a_rest a))
    end).

(** What the file system or the device answers to a close. *)
Definition node_close (n : anode) (v : Z) (m : M) : outcome (Z * M) :=
  match (if an_isdev n then d_close (an_dev n) else v_close v) with
  | None => Ret (0, m)
  | Some close => '(res, m) ← close m; Ret (if an_isdev n || (res <? 0) then res else 0, m)
  end.

Definition spec_close a (fd : Z) : outcome (Z * afs M) :=
  on_file a fd (- EBADF) (fun f n =>
    if decide (an_type n = V_DIR) then Ret (- EISDIR, a)
    else if an_isdev n && (an_dev n =? 0) then Ret (- ENODEV, a)
    else
      '(res, m) ← node_close n (a_vnode f) (a_rest a);
      let a := mk_afs (a_files a) (a_nodes a) m in
      Ret (res, if res <? 0 then a else drop_fd a fd f n)).

Definition spec_closedir a (fd : Z) : outcome (Z * afs M) :=
  on_file a fd (- EBADF) (fun f n => if decide (an_type n = V_DIR) then Ret (0, drop_fd a fd f n) else Ret (- ENOTDIR, a)).

Definition spec_seek a (fd offset whence : Z) : outcome (Z * afs M) :=
  on_file a fd (- EBADF) (fun f n =>
    if decide (an_type n = V_DIR) then Ret (- EISDIR, a)
    else if bool_decide (an_type n = V_FIFO) || bool_decide (an_type n = V_SOCK) then Panic
    else
      let target :=
        if whence =? SEEK_SET then Some offset
        else if whence =? SEEK_CUR then Some (a_offset f + offset)
        else if whence =? SEEK_END then Some (an_size n + offset)
        else None in
      match target with
      | None => Ret (- EINVAL, a)
      | Some res => if (res <? 0) || (an_size n <? res) then Ret (- EINVAL, a) else Ret (res, set_offset a fd f res)
      end).

Definition spec_tell a (fd : Z) : outcome (Z * afs M) :=
  on_file a fd (- EBADF) (fun f n => Ret (if decide (an_type n = V_DIR) then a_offset f else - ENOTDIR, a)).

Definition spec_seekdir a (fd loc : Z) : outcome (Z * afs M) :=
  on_file a fd 0 (fun f n => Ret (0, if decide (an_type n = V_DIR) then set_offset a fd f loc else a)).

(** What a read or a write at [off] gives, with the size of the vnode then. *)
Definition node_transfer (dev_op : option (Z -> Z -> kio_t -> M -> outcome (Z * kio_t * M)))
    (op : option (Z -> kio_t -> M -> outcome (Z * kio_t * Z * M))) (ro : bool) (n : anode) (off : Z) (k : kio_t) (m : M) : outcome (Z * kio_t * Z * M) :=
  if an_isdev n then
    match dev_op with
    | None => Ret (- ENOTSUP, k, an_size n, m)
    | Some op => '(res, k, m) ← op off (kio_remaining k) k m; Ret (res, k, an_size n, m)
    end
  else if ro && an_rdonly n then Ret (- EROFS, k, an_size n, m)
  else
    match op with
    | None => Ret (- ENOTSUP, k, an_size n, m)
    | Some op =>
        if off <? 0 then Ret (- EINVAL, k, an_size n, m)
        else if an_size n <=? off then Ret (0, k, an_size n, m)
        else op off k m
    end.

(** The transfer of an open file; the offset moves by what was transferred. *)
Definition file_transfer a (fd : Z) (f : afile) (n : anode) (r : outcome (Z * kio_t * Z * M)) (off : Z) : outcome (Z * kio_t * afs M) :=
  '(res, k, sz, m) ← r;
  let a := set_node a (a_vnode f) (an_resize n sz) m in
  Ret (res, k, set_offset a fd f (if res <? 0 then off else off + res)).

Definition spec_read a (fd : Z) (k : kio_t) : outcome (Z * kio_t * afs M) :=
  kassert (bool_decide (dir k = KIO_WRITE));;
  on_file a fd (- EBADF, k) (fun f n =>
    if decide (an_type n = V_DIR) then Ret (- EISDIR, k, a)
    else if has_flag (a_flags f) O_WRONLY then Ret (- EBADF, k, a)
    else if an_isdev n && (an_dev n =? 0) then Ret (- ENODEV, k, a)
    else file_transfer a fd f n (node_transfer (d_read (an_dev n)) (v_read (a_vnode f)) false n (a_offset f) k (a_rest a)) (a_offset f)).

(** Nothing keeps a file that was opened for reading from being written. *)
Definition spec_write a (fd : Z) (k : kio_t) : outcome (Z * kio_t * afs M) :=
  kassert (bool_decide (dir k = KIO_READ));;
  on_file a fd (- EBADF, k) (fun f n =>
    if decide (an_type n = V_DIR) then Ret (- EISDIR, k, a)
    else
      let off := if has_flag (a_flags f) O_APPEND then an_size n else a_offset f in
      if an_isdev n && (an_dev n =? 0) then Ret (- ENODEV, k, set_offset a fd f off)
      else file_transfer a fd f n (node_transfer (d_write (an_dev n)) (v_write (a_vnode f)) true n off k (a_rest a)) off).

Definition no_kio {S} (r : outcome (Z * S)) : outcome (Z * option kio_t * S) := '(x, s) ← r; Ret (x, None, s).
Definition a_kio {S} (r : outcome (Z * kio_t * S)) : outcome (Z * option kio_t * S) := '(x, k, s) ← r; Ret (x, Some k, s).

Definition spec_op a (o : fd_op) : outcome (Z * option kio_t * afs M) :=
  match o with
  | FOpen path flags mode => no_kio (spec_open a path flags mode)
  | FOpendir path => no_kio (spec_opendir a path)
  | FClose fd => no_kio (spec_close a fd)
  | FClosedir fd => no_kio (spec_closedir a fd)
  | FDup fd => no_kio (spec_dup a fd)
  | FSeek fd offset whence => no_kio (spec_seek a fd offset whence)
  | FTell fd => no_kio (spec_tell a fd)
  | FSeekdir fd loc => no_kio (spec_seekdir a fd loc)
  | FRead fd k => a_kio (spec_read a fd k)
  | FWrite fd k => a_kio (spec_write a fd k)
  end.

(** The calls of the kernel. *)
Definition do_op (s : fsys M) (o : fd_op) : outcome (Z * option kio_t * fsys M) :=
  match o with
  | FOpen path flags mode => no_kio (fs_open s path flags mode)
  | FOpendir path => no_kio (fs_opendir s path)
  | FClose fd => no_kio (fs_close s fd)
  | FClosedir fd => no_kio (fs_closedir s fd)
  | FDup fd => no_kio (fs_dup s fd)
  | FSeek fd offset whence => no_kio (fs_lseek s fd offset whence)
  | FTell fd => no_kio (fs_telldir s fd)
  | FSeekdir fd loc => no_kio (s ← fs_seekdir s fd loc; Ret (0, s))
  | FRead fd k => a_kio (fs_kread s fd k)
  | FWrite fd k => a_kio (fs_kwrite s fd k)
  end.

Fixpoint spec_run a (ops : list fd_op) : outcome (list (Z * option kio_t) * afs M) :=
  match ops with
  | [] => Ret ([], a)
  | o :: ops => '(r, k, a) ← spec_op a o; '(rs, a) ← spec_run a ops; Ret ((r, k) :: rs, a)
  end.

Fixpoint fd_run (s : fsys M) (ops : list fd_op) : outcome (list (Z * option kio_t) * fsys M) :=
  match ops with
  | [] => Ret ([], s)
  | o :: ops => '(r, k, s) ← do_op s o; '(rs, s) ← fd_run s ops; Ret ((r, k) :: rs, s)
  end.
End spec.

(** ** References to vnodes *)

Definition users (F : gmap Z afile) (v : Z) : Z := Z.of_nat (base.size (filter (fun p => a_vnode p.2 = v) F)).

Lemma users_insert F fd f v : F !! fd = None -> users (<[fd := f]> F) v = users F v + (if decide (a_vnode f = v) then 1 else 0).
Proof.
  intros Hn. unfold users. case_decide as E.
  - rewrite map_filter_insert_True by done. rewrite map_size_insert_None; [lia|]. apply map_lookup_filter_None. by left.
  - rewrite map_filter_insert_False by done. rewrite delete_id by done. lia.
Qed.

Lemma users_delete F fd f v : F !! fd = Some f -> users (delete fd F) v = users F v - (if decide (a_vnode f = v) then 1 else 0).
Proof.
  intros Hf. rewrite <- (insert_delete_id F fd f Hf) at 2. rewrite users_insert by apply lookup_delete_eq. lia.
Qed.

Lemma users_update F fd f f' v : F !! fd = Some f -> a_vnode f' = a_vnode f -> users (<[fd := f']> F) v = users F v.
Proof.
  intros Hf E. rewrite <- (insert_delete_eq F fd f'). rewrite users_insert by apply lookup_delete_eq. rewrite (users_delete F fd f v Hf), E. lia.
Qed.

Lemma users_pos F fd f : F !! fd = Some f -> 1 <= users F (a_vnode f).
Proof. intros Hf. pose proof (users_delete F fd f (a_vnode f) Hf) as H. rewrite decide_True in H by done. unfold users in *. lia. Qed.

(** ** The relation *)

Section refine.
Context {M : Type} {FO : file_ops M} {AB : abi_numbers} (c0 : cpu_t) (st : list Z) (Hgood : good_cpu c0 st).
(** The references to a vnode that are not from this process's files. *)
Context (others : Z -> Z) (Hothers : forall v, 1 <= others v).
Abbreviation idle := (idle c0 st).

(** The file that a descriptor stands for. *)
Definition file_of (fd : Z) (ty : vtype) (f : afile) : file_t := mk_file fd (a_flags f) ty (a_vnode f) (mtx_init 0) 1 (a_offset f) false.

Record files_are (fs : gmap Z file_t) (Fm : gmap Z Z) (F : gmap Z afile) : Prop := {
  fa_some : forall fd f, F !! fd = Some f -> exists p ty, Fm !! fd = Some p /\ p <> 0 /\ fs !! p = Some (file_of fd ty f);
  fa_none : forall fd, F !! fd = None -> Fm !! fd = None;
  fa_all : forall p f, fs !! p = Some f -> Fm !! f_fd f = Some p;
}.

Definition node_of (F : gmap Z afile) (v : Z) (x : anode) : vnode_t :=
  mk_vnode (an_type x) V_ALIVE (mtx_init MTX_RECURSIVE) (others v + users F v) (an_nopen x) (an_size x) (an_rdonly x) (an_dev x).

Definition nodes_are (vs : gmap Z vnode_t) (F : gmap Z afile) (N : gmap Z anode) : Prop :=
  vs = map_imap (fun v x => Some (node_of F v x)) N.

Record rel (s : fsys M) (a : afs M) (k : Z) : Prop := {
  rl_lock : ft_lock (table s) = free_spin;
  rl_cpu : idle 0 (cpu s);
  rl_bits : bm_ok (ft_bitmap (table s)) (dom (a_files a)) k;
  rl_count : ft_count (table s) = Z.of_nat (base.size (a_files a));
  rl_tree : exists Fm, rb_holds (ft_tree (table s)) Fm /\ files_are (files s) Fm (a_files a);
  rl_next : 0 < f_next s /\ forall p f, files s !! p = Some f -> p < f_next s;
  rl_nodes : nodes_are (vnodes s) (a_files a) (a_nodes a);
  rl_refs : forall fd f, a_files a !! fd = Some f -> is_Some (a_nodes a !! a_vnode f);
  rl_rest : rest s = a_rest a;
}.

Lemma nodes_lookup vs F N v : nodes_are vs F N -> vs !! v = node_of F v <$> N !! v.
Proof. intros ->. rewrite map_lookup_imap. by destruct (N !! v). Qed.

(** The nodes change with the files that refer to them. *)
Lemma nodes_update vs F N F' v x n : nodes_are vs F N -> n = node_of F' v x -> (forall u, u <> v -> users F' u = users F u) ->
  nodes_are (<[v := n]> vs) F' (<[v := x]> N).
Proof.
  intros Hn -> Hu. apply map_eq. intros u. rewrite map_lookup_imap. destruct (decide (u = v)) as [->|Hne].
  - by rewrite !lookup_insert_eq.
  - rewrite !lookup_insert_ne by done. rewrite (nodes_lookup _ _ _ u Hn). destruct (N !! u) as [y|]; [|done]. simpl. unfold node_of. by rewrite Hu.
Qed.

Lemma nodes_keep vs F N F' : nodes_are vs F N -> (forall u, users F' u = users F u) -> nodes_are vs F' N.
Proof.
  intros Hn Hu. apply map_eq. intros u. rewrite map_lookup_imap, (nodes_lookup _ _ _ u Hn). destruct (N !! u); [|done]. simpl. unfold node_of. by rewrite Hu.
Qed.

Lemma files_dom fs Fm F : files_are fs Fm F -> dom Fm = dom F.
Proof.
  intros [Hs Hn _]. apply set_eq. intros fd. rewrite !elem_of_dom. destruct (F !! fd) as [f|] eqn:E.
  - destruct (Hs _ _ E) as (p & ty & -> & _). by split.
  - by rewrite (Hn _ E).
Qed.

Lemma files_size fs Fm F k b : files_are fs Fm F -> bm_ok b (dom F) k -> Z.of_nat (base.size Fm) < 2 ^ 62.
Proof.
  intros Hf Hb. pose proof (size_most _ _ _ Hb) as H. rewrite <- (files_dom _ _ _ Hf), size_dom in H. lia.
Qed.

(** The file of a descriptor changes. *)
Lemma files_update fs Fm F fd p ty f f' : files_are fs Fm F -> F !! fd = Some f -> Fm !! fd = Some p -> a_vnode f' = a_vnode f ->
  files_are (<[p := file_of fd ty f']> fs) Fm (<[fd := f']> F).
Proof.
  intros Hfa Hf Hp Hv. destruct Hfa as [Hs Hn Ha]. destruct (Hs _ _ Hf) as (p' & ty' & Hp' & Hp0 & Hfs). simplify_eq. split.
  - intros fd' g. rewrite lookup_insert_Some. intros [[<- <-]|[Hne Hg]]; [exists p, ty; by rewrite lookup_insert_eq|].
    destruct (Hs _ _ Hg) as (q & ty2 & Hq & Hq0 & Hqf). exists q, ty2. split; [done|]. split; [done|]. rewrite lookup_insert_ne; [done|].
    intros ->. rewrite Hfs in Hqf. by injection Hqf.
  - intros fd' Hfd'. apply lookup_insert_None in Hfd' as [Hfd' _]. by apply Hn.
  - intros q g. rewrite lookup_insert_Some. intros [[<- <-]|[Hne Hg]]; [done|by apply Ha].
Qed.

(** A descriptor and its file are gone. *)
Lemma files_delete fs Fm F fd p f : files_are fs Fm F -> F !! fd = Some f -> Fm !! fd = Some p ->
  files_are (delete p fs) (delete fd Fm) (delete fd F).
Proof.
  intros [Hs Hn Ha] Hf Hp. destruct (Hs _ _ Hf) as (p' & ty' & Hp' & Hp0 & Hfs). simplify_eq. split.
  - intros fd' g. rewrite lookup_delete_Some. intros [Hne Hg]. destruct (Hs _ _ Hg) as (q & ty2 & Hq & Hq0 & Hqf). exists q, ty2.
    rewrite lookup_delete_ne by done. split; [done|]. split; [done|]. rewrite lookup_delete_ne; [done|]. intros ->. rewrite Hfs in Hqf. by injection Hqf.
  - intros fd'. rewrite !lookup_delete_None. intros [->|Hfd']; [by left|right; by apply Hn].
  - intros q g. rewrite lookup_delete_Some. intros [Hne Hg]. rewrite lookup_delete_ne; [by apply Ha|]. intros E. apply Ha in Hg. rewrite <- E in Hg. congruence.
Qed.

(** A new descriptor with a new file. *)
Lemma files_insert fs Fm F fd p ty f : files_are fs Fm F -> F !! fd = None -> fs !! p = None -> p <> 0 ->
  files_are (<[p := file_of fd ty f]> fs) (<[fd := p]> Fm) (<[fd := f]> F).
Proof.
  intros [Hs Hn Ha] Hfd Hp Hp0. split.
  - intros fd' g. rewrite lookup_insert_Some. intros [[<- <-]|[Hne Hg]]; [exists p, ty; by rewrite !lookup_insert_eq|].
    destruct (Hs _ _ Hg) as (q & ty2 & Hq & Hq0 & Hqf). exists q, ty2. rewrite lookup_insert_ne by done. split; [done|]. split; [done|].
    rewrite lookup_insert_ne; [done|]. intros ->. congruence.
  - intros fd'. rewrite !lookup_insert_None. intros [Hfd' Hne]. split; [by apply Hn|done].
  - intros q g. rewrite lookup_insert_Some. intros [[<- <-]|[Hne Hg]]; [simpl; by rewrite lookup_insert_eq|].
    rewrite lookup_insert_ne; [by apply Ha|]. intros E. pose proof (Ha _ _ Hg) as H. rewrite <- E in H. by rewrite (Hn _ Hfd) in H.
Qed.

(** *** One call on an open file *)

Definition agrees {R} (r : outcome (R * fsys M)) (spec : outcome (R * afs M)) (k : Z) : Prop :=
  match spec with
  | Ret (x, a) => exists s, r = Ret (x, s) /\ rel s a k
  | Panic => r = Panic
  | Fault => r = Fault
  | NoFuel => r = NoFuel
  end.

Record borrowed (s : fsys M) (a : afs M) (fd : Z) (f : afile) (Fm : gmap Z Z) (p : Z) (ty : vtype) (n : anode) (c : cpu_t) : Prop := {
  bw_tree : rb_holds (ft_tree (table s)) Fm;
  bw_files : files_are (files s) Fm (a_files a);
  bw_ptr : Fm !! fd = Some p;
  bw_nonnull : p <> 0;
  bw_file : files s !! p = Some (file_of fd ty f);
  bw_node : a_nodes a !! a_vnode f = Some n;
  bw_vnode : vnodes s !! a_vnode f = Some (node_of (a_files a) (a_vnode f) n);
  bw_cpu : idle 0 c;
  bw_get : ftable_get_file s fd = Ret (p, mk_fsys (table s) (<[p := set_f_ref (file_of fd ty f) 2]> (files s)) (f_next s) (vnodes s) c (rest s));
}.

Lemma borrow s a k fd f : rel s a k -> a_files a !! fd = Some f -> exists Fm p ty n c, borrowed s a fd f Fm p ty n c.
Proof.
  intros [Hl Hc Hb Hct (Fm & Ht & Hf) Hx Hn Hr Hm] Hfd. destruct (fa_some _ _ _ Hf fd f Hfd) as (p & ty & Hp & Hp0 & Hfs). destruct (Hr _ _ Hfd) as [n Hnode].
  destruct s as [t fs nx vs c m]. simpl in *. destruct (get_some c0 st Hgood t fs nx vs c m 0 Hl Hc Fm Ht fd p _ Hp Hp0 Hfs) as (c' & Hg & Hc').
  exists Fm, p, ty, n, c'. split; try done. simpl. by rewrite (nodes_lookup _ _ _ _ Hn), Hnode.
Qed.

Lemma no_file s a k fd : rel s a k -> a_files a !! fd = None -> exists s', ftable_get_file s fd = Ret (0, s') /\ rel s' a k.
Proof.
  intros [Hl Hc Hb Hct (Fm & Ht & Hf) Hx Hn Hr Hm] Hfd. destruct s as [t fs nx vs c m]. simpl in *.
  destruct (get_none c0 st Hgood t fs nx vs c m 0 Hl Hc Fm Ht fd (fa_none _ _ _ Hf _ Hfd)) as (c' & Hg & Hc'). eexists. split; [exact Hg|]. split; simpl; eauto.
Qed.

Section call.
Context (s : fsys M) (a : afs M) (k fd : Z) (f : afile) (Fm : gmap Z Z) (p : Z) (ty : vtype) (n : anode) (c : cpu_t).
Context (Hrel : rel s a k) (Hfd : a_files a !! fd = Some f) (Hbw : borrowed s a fd f Fm p ty n c).

(** The file is given back, perhaps with another offset, and its vnode with
    another size. *)
Lemma give_back o n' c' m : idle 0 c' -> 
  rel (mk_fsys (table s) (<[p := file_of fd ty (mk_af (a_vnode f) (a_flags f) o)]> (files s)) (f_next s)
         (<[a_vnode f := node_of (a_files a) (a_vnode f) n']> (vnodes s)) c' m)
      (mk_afs (<[fd := mk_af (a_vnode f) (a_flags f) o]> (a_files a)) (<[a_vnode f := n']> (a_nodes a)) m) k.
Proof.
  intros Hc'. destruct Hrel as [Hl Hc Hb Hct _ Hx Hn Hr Hm]. destruct Hbw as [Ht Hf Hp Hp0 Hfs Hnode _ _ _].
  assert (Hu : forall v, users (<[fd := mk_af (a_vnode f) (a_flags f) o]> (a_files a)) v = users (a_files a) v) by (intros v; by eapply users_update).
  assert (Hdom : dom (<[fd := mk_af (a_vnode f) (a_flags f) o]> (a_files a)) = dom (a_files a)).
  { rewrite dom_insert_L. apply elem_of_dom_2 in Hfd. set_solver. }
  split; simpl; try done.
  - by rewrite Hdom.
  - by rewrite map_size_insert_Some by eauto.
  - exists Fm. split; [done|]. by eapply files_update.
  - split; [apply Hx|]. intros q g. rewrite lookup_insert_Some. intros [[<- _]|[_ Hg]]; by eapply Hx.
  - eapply nodes_update; [done| |done]. unfold node_of. by rewrite Hu.
  - intros fd' g. rewrite lookup_insert_Some. intros [[<- <-]|[_ Hg]]; [simpl; by rewrite lookup_insert_eq|].
    destruct (decide (a_vnode g = a_vnode f)) as [-> |]; [by rewrite lookup_insert_eq|rewrite lookup_insert_ne by done; by eapply Hr].
Qed.

Lemma give_back_same c' m : idle 0 c' ->
  rel (mk_fsys (table s) (<[p := file_of fd ty f]> (files s)) (f_next s) (vnodes s) c' m) (mk_afs (a_files a) (a_nodes a) m) k.
Proof.
  intros Hc'. pose proof (give_back (a_offset f) n c' m Hc') as H. destruct Hbw as [_ _ _ _ _ Hnode Hvn _ _].
  rewrite (insert_id (vnodes s)), (insert_id (a_nodes a)) in H by done. destruct f as [v fl o]. simpl in *. by rewrite (insert_id (a_files a)) in H by done.
Qed.

Lemma give_back_offset o c' m : idle 0 c' ->
  rel (mk_fsys (table s) (<[p := file_of fd ty (mk_af (a_vnode f) (a_flags f) o)]> (files s)) (f_next s) (vnodes s) c' m)
      (mk_afs (<[fd := mk_af (a_vnode f) (a_flags f) o]> (a_files a)) (a_nodes a) m) k.
Proof.
  intros Hc'. pose proof (give_back o n c' m Hc') as H. destruct Hbw as [_ _ _ _ _ Hnode Hvn _ _]. by rewrite (insert_id (vnodes s)), (insert_id (a_nodes a)) in H by done.
Qed.

(** The file while the call has it, with the offset [o]. *)
Definition locked_file (o : Z) : file_t := mk_file fd (a_flags f) ty (a_vnode f) (held_mtx 0 (curthread c0)) 2 o false.

Lemma lock_borrowed : exists c',
  f_lock (mk_fsys (table s) (<[p := set_f_ref (file_of fd ty f) 2]> (files s)) (f_next s) (vnodes s) c (rest s)) p =
    Ret (true, mk_fsys (table s) (<[p := locked_file (a_offset f)]> (files s)) (f_next s) (vnodes s) c' (rest s)) /\ idle 1 c'.
Proof.
  destruct (f_lock_ok c0 st Hgood (table s) (<[p := set_f_ref (file_of fd ty f) 2]> (files s)) (f_next s) (vnodes s) c (rest s) 0 p (set_f_ref (file_of fd ty f) 2))
    as (c' & H & Hc'); [by eapply bw_cpu|apply lookup_insert_eq|done|done|].
  exists c'. split; [|done]. rewrite H. by rewrite insert_insert_eq.
Qed.

Lemma finish_call {R} t fs nx vs c1 m o (res : R) : idle 1 c1 ->
  exists c', finish (mk_fsys t (<[p := locked_file o]> fs) nx vs c1 m) p true res =
    Ret (res, mk_fsys t (<[p := file_of fd ty (mk_af (a_vnode f) (a_flags f) o)]> fs) nx vs c' m) /\ idle 0 c'.
Proof.
  intros Hc1. destruct (finish_locked c0 st Hgood t (<[p := locked_file o]> fs) nx vs c1 m 0 p (locked_file o) res) as (c' & H & Hc');
    [done|by eapply bw_nonnull|apply lookup_insert_eq|done|done|]. exists c'. split; [|done]. rewrite H. by rewrite insert_insert_eq.
Qed.
End call.

Lemma af_eta f : mk_af (a_vnode f) (a_flags f) (a_offset f) = f.
Proof. by destruct f. Qed.

Lemma rest_same s a k : rel s a k -> mk_afs (a_files a) (a_nodes a) (rest s) = a.
Proof. intros Hrel. rewrite (rl_rest _ _ _ Hrel). by destruct a. Qed.

Ltac bind := cbn [mbind outcome_bind].

(** The start of a call: no file, or the file with a second reference. *)
Ltac open_call Hrel f n Hb :=
  match goal with
  | |- context [a_files ?a !! ?fd] =>
      let Hfd := fresh "Hfd" in
      destruct (a_files a !! fd) as [f|] eqn:Hfd;
      [let Fm := fresh "Fm" in let p := fresh "p" in let ty := fresh "ty" in let c := fresh "c" in
       destruct (borrow _ _ _ fd f Hrel Hfd) as (Fm & p & ty & n & c & Hb);
       rewrite (bw_get _ _ _ _ _ _ _ _ _ Hb), (bw_node _ _ _ _ _ _ _ _ _ Hb); bind; rewrite (proj2 (Z.eqb_neq p 0)) by (by eapply bw_nonnull)
      |let s1 := fresh "s" in let Hg := fresh "Hg" in let Hr := fresh "Hr" in
       destruct (no_file _ _ _ fd Hrel Hfd) as (s1 & Hg & Hr); rewrite Hg; bind; exists s1; by split]
  end.

(** The fields of the file and its vnode are read. *)
Ltac read_objects Hb :=
  unfold get_file; simpl files; rewrite lookup_insert_eq; bind;
  unfold get_vnode; simpl vnodes; simpl f_vnode; rewrite (bw_vnode _ _ _ _ _ _ _ _ _ Hb); bind.

Lemma isdir F v n : V_ISDIR (node_of F v n) = bool_decide (an_type n = V_DIR).
Proof. done. Qed.

Lemma tell_ok s a k fd : rel s a k -> agrees (fs_telldir s fd) (spec_tell a fd) k.
Proof.
  intros Hrel. unfold fs_telldir, spec_tell, on_file. open_call Hrel f n Hb. read_objects Hb.
  rewrite (finish_plain _ _ _ _ _ _ _ (set_f_ref (file_of fd ty f) 2)) by (done || apply lookup_insert_eq || by eapply bw_nonnull). rewrite insert_insert_eq.
  eexists. split; [f_equal; f_equal; rewrite isdir; by repeat case_decide; case_bool_decide|]. rewrite <- (rest_same s a k Hrel). by eapply give_back_same, bw_cpu.
Qed.

Lemma seekdir_ok s a k fd loc : rel s a k -> agrees (s ← fs_seekdir s fd loc; Ret (0, s)) (spec_seekdir a fd loc) k.
Proof.
  intros Hrel. unfold fs_seekdir, spec_seekdir, on_file. open_call Hrel f n Hb. read_objects Hb. rewrite isdir. case_bool_decide as Ht.
  - rewrite decide_True by done. unfold put_file, with_files. simpl files. rewrite insert_insert_eq.
    rewrite (finish_plain _ _ _ _ _ _ _ (set_f_offset (set_f_ref (file_of fd ty f) 2) loc)) by (done || apply lookup_insert_eq || by eapply bw_nonnull). rewrite insert_insert_eq.
    eexists. split; [done|]. unfold set_offset. rewrite <- (rl_rest _ _ _ Hrel). by eapply (give_back_offset s a k fd f), bw_cpu.
  - rewrite decide_False by done.
    rewrite (finish_plain _ _ _ _ _ _ _ (set_f_ref (file_of fd ty f) 2)) by (done || apply lookup_insert_eq || by eapply bw_nonnull). rewrite insert_insert_eq.
    eexists. split; [done|]. rewrite <- (rest_same s a k Hrel). by eapply give_back_same, bw_cpu.
Qed.

(** The file is locked for the call, and the call ends. *)
Ltac lock_call Hb :=
  let c1 := fresh "c" in let H := fresh in let Hc1 := fresh "Hc" in
  destruct (lock_borrowed _ _ _ _ _ _ _ _ _ Hb) as (c1 & H & Hc1); rewrite H; clear H; bind; cbn [negb].
Ltac end_call Hb :=
  match goal with
  | |- context [finish (mk_fsys ?t (<[?p := locked_file ?fd ?f ?ty ?o]> ?fs) ?nx ?vs ?c ?m) ?p true ?res] =>
      let c1 := fresh "c" in let H := fresh in let Hc1 := fresh "Hc" in
      destruct (finish_call _ _ _ _ _ _ _ _ _ Hb t fs nx vs c m o res) as (c1 & H & Hc1); [assumption|]; rewrite H; clear H; bind; eexists; split; [reflexivity|]
  end.

(** The call ends before the file is locked. *)
Ltac end_plain Hrel Hb :=
  rewrite (finish_plain _ _ _ _ _ _ _ (set_f_ref (file_of _ _ _) 2)) by (done || apply lookup_insert_eq || by eapply bw_nonnull);
  rewrite insert_insert_eq; eexists; split; [reflexivity|]; rewrite <- (rest_same _ _ _ Hrel); by eapply give_back_same, bw_cpu.

Lemma finish_unowned {R} t (fs : gmap Z file_t) nx vs c (m : M) p f (res : R) : fs !! p = Some f -> f_mtx f = mtx_init 0 -> finish (mk_fsys t fs nx vs c m) p true res = Panic.
Proof. intros Hf Hm. unfold finish, f_unlock, get_file. simpl files. rewrite Hf. bind. by rewrite Hm. Qed.

Lemma seek_ok s a k fd offset whence : rel s a k -> agrees (fs_lseek s fd offset whence) (spec_seek a fd offset whence) k.
Proof.
  intros Hrel. unfold fs_lseek, spec_seek, on_file. open_call Hrel f n Hb. read_objects Hb. rewrite isdir. case_bool_decide as Ht; [rewrite decide_True by done; end_plain Hrel Hb|].
  rewrite decide_False by done. simpl vn_type. destruct (bool_decide (an_type n = V_FIFO) || _).
  { simpl. eapply finish_unowned; [apply lookup_insert_eq|done]. }
  lock_call Hb. simpl f_offset. simpl vn_size. destruct (if whence =? SEEK_SET then _ else _) as [res|].
  - destruct ((res <? 0) || (an_size n <? res)).
    + end_call Hb. rewrite af_eta, <- (rest_same s a k Hrel). by eapply give_back_same.
    + unfold get_file. simpl files. rewrite lookup_insert_eq. bind. unfold put_file, with_files. simpl. rewrite insert_insert_eq.
      change (set_f_offset _ res) with (locked_file fd f ty res). end_call Hb. unfold set_offset. rewrite <- (rl_rest _ _ _ Hrel). by eapply (give_back_offset s a k fd f).
  - end_call Hb. rewrite af_eta, <- (rest_same s a k Hrel). by eapply give_back_same.
Qed.

Section transfer.
Context (t : ftable_t) (fs : gmap Z file_t) (nx : Z) (vs : gmap Z vnode_t) (c : cpu_t) (m : M) (F : gmap Z afile) (v : Z) (n : anode).
Context (Hv : vs !! v = Some (node_of F v n)).
Abbreviation sys := (mk_fsys t fs nx vs c m).

Definition moved (r : outcome (Z * kio_t * Z * M)) : outcome (Z * kio_t * fsys M) :=
  '(res, k, sz, m) ← r; Ret (res, k, mk_fsys t fs nx (<[v := node_of F v (an_resize n sz)]> vs) c m).

Lemma moved_same res k m' : moved (Ret (res, k, an_size n, m')) = Ret (res, k, mk_fsys t fs nx vs c m').
Proof. simpl. rewrite insert_id; [done|]. rewrite Hv. by destruct n. Qed.

Lemma dev_moved op ops ro off k : an_isdev n = true -> dev_transfer sys op off k = moved (node_transfer op ops ro n off k m).
Proof.
  intros Hd. unfold dev_transfer, node_transfer. rewrite Hd. destruct op as [op|]; [|by rewrite moved_same]. simpl rest.
  destruct (op off (kio_remaining k) k m) as [[[res k'] m']| | |]; bind; [by rewrite moved_same|done..].
Qed.

Lemma read_moved dev_op off k : an_isdev n = false -> vn_read sys v off k = moved (node_transfer dev_op (v_read v) false n off k m).
Proof.
  intros Hd. unfold vn_read, get_vnode, node_transfer. simpl vnodes. rewrite Hv, Hd. bind. simpl (false && _). cbn iota. destruct (v_read v) as [op|]; [|by rewrite moved_same].
  simpl vn_size. simpl rest. repeat case_match; try by rewrite moved_same. destruct (op off k m) as [[[[res k'] sz] m']| | |]; done.
Qed.

Lemma write_moved dev_op off k : an_isdev n = false -> vn_write sys v off k = moved (node_transfer dev_op (v_write v) true n off k m).
Proof.
  intros Hd. unfold vn_write, get_vnode, node_transfer. simpl vnodes. rewrite Hv, Hd. bind. simpl vn_rdonly. simpl (true && _). destruct (an_rdonly n); [by rewrite moved_same|].
  destruct (v_write v) as [op|]; [|by rewrite moved_same].
  simpl vn_size. simpl rest. repeat case_match; try by rewrite moved_same. destruct (op off k m) as [[[[res k'] sz] m']| | |]; done.
Qed.
End transfer.

Section finish_transfer.
Context (s : fsys M) (a : afs M) (k fd : Z) (f : afile) (Fm : gmap Z Z) (p : Z) (ty : vtype) (n : anode) (c c1 : cpu_t).
Context (Hrel : rel s a k) (Hfd : a_files a !! fd = Some f) (Hb : borrowed s a fd f Fm p ty n c) (Hc1 : idle 1 c1).

(** The end of a read or a write that started at [off]. *)
Lemma transfer_ok off r :
  agrees ('(res, kio, s) ← moved (table s) (<[p := locked_file fd f ty off]> (files s)) (f_next s) (vnodes s) c1 (a_files a) (a_vnode f) n r;
          if res <? 0 then finish s p true (res, kio) else s ← advance s p res; finish s p true (res, kio))
    (file_transfer a fd f n r off) k.
Proof.
  unfold file_transfer, moved. destruct r as [[[[res kio] sz] m]| | |]; bind; [|done..]. destruct (res <? 0).
  - end_call Hb. by eapply (give_back s a k fd f).
  - unfold advance, get_file. simpl files. rewrite lookup_insert_eq. bind. unfold put_file, with_files. simpl. rewrite insert_insert_eq.
    change (set_f_offset (locked_file fd f ty off) (off + res)) with (locked_file fd f ty (off + res)). end_call Hb. by eapply (give_back s a k fd f).
Qed.
End finish_transfer.

Lemma isdev F v n : V_ISDEV (node_of F v n) = an_isdev n.
Proof. done. Qed.

Lemma read_ok s a k fd kio : rel s a k -> agrees (fs_kread s fd kio) (spec_read a fd kio) k.
Proof.
  intros Hrel. unfold fs_kread, spec_read, on_file. destruct (bool_decide (dir kio = KIO_WRITE)); [|done]. simpl (kassert true). bind.
  open_call Hrel f n Hb. read_objects Hb. rewrite isdir. case_bool_decide as Ht; [rewrite decide_True by done; end_plain Hrel Hb|].
  rewrite decide_False by done. simpl f_flags. destruct (has_flag (a_flags f) O_WRONLY); [end_plain Hrel Hb|].
  lock_call Hb. simpl v_dev. rewrite isdev. destruct (an_isdev n && (an_dev n =? 0)).
  - end_call Hb. rewrite af_eta, <- (rest_same s a k Hrel). by eapply give_back_same.
  - simpl f_offset. rewrite <- (rl_rest _ _ _ Hrel). eapply eq_ind_r with (P := fun x => agrees x _ k); [by eapply (transfer_ok s a k fd f)|].
    apply (f_equal (fun r => mbind _ r)). destruct (an_isdev n) eqn:Hd; [apply dev_moved|apply read_moved]; done || by eapply bw_vnode.
Qed.

Lemma write_ok s a k fd kio : rel s a k -> agrees (fs_kwrite s fd kio) (spec_write a fd kio) k.
Proof.
  intros Hrel. unfold fs_kwrite, spec_write, on_file. destruct (bool_decide (dir kio = KIO_READ)); [|done]. simpl (kassert true). bind.
  open_call Hrel f n Hb. read_objects Hb. rewrite isdir. case_bool_decide as Ht; [rewrite decide_True by done; end_plain Hrel Hb|].
  rewrite decide_False by done. change (has_flag _ O_RDONLY) with (negb (Z.land (a_flags f) 0 =? 0)). rewrite Z.land_0_r. simpl (negb (0 =? 0)). cbn iota.
  lock_call Hb. unfold get_file. simpl files. rewrite lookup_insert_eq. bind. simpl f_flags. simpl vn_size. set (off := if has_flag (a_flags f) O_APPEND then an_size n else a_offset f).
  replace (if has_flag (a_flags f) O_APPEND then set_f_offset _ _ else locked_file fd f ty (a_offset f)) with (locked_file fd f ty off) by (unfold off; by destruct (has_flag _ _)).
  unfold put_file, with_files. simpl files. rewrite insert_insert_eq. simpl v_dev. rewrite isdev. destruct (an_isdev n && (an_dev n =? 0)).
  - end_call Hb. unfold set_offset. rewrite <- (rl_rest _ _ _ Hrel). by eapply (give_back_offset s a k fd f).
  - simpl f_offset. simpl f_vnode. rewrite <- (rl_rest _ _ _ Hrel). eapply eq_ind_r with (P := fun x => agrees x _ k); [by eapply (transfer_ok s a k fd f)|].
    apply (f_equal (fun r => mbind _ r)). destruct (an_isdev n) eqn:Hd; [apply dev_moved|apply write_moved]; done || by eapply bw_vnode.
Qed.

(** *** New descriptors *)

Lemma rel_more s a k k' : rel s a k -> k <= k' -> rel s a k'.
Proof. intros [? ? [? ? ? ? ? ?] ? ? ? ? ? ?] Hk. split; try done. split; try done. lia. Qed.

Lemma agrees_more {R} (r : outcome (R * fsys M)) spec k k' : agrees r spec k -> k <= k' -> agrees r spec k'.
Proof. unfold agrees. intros H Hk. destruct spec as [[x a]| | |]; try done. destruct H as (s & -> & Hs). exists s. split; [done|]. by eapply rel_more. Qed.

Section fresh.
Context (s : fsys M) (a : afs M) (k fd v fl : Z) (x' : anode) (ty : vtype) (tr : rb_tree_t) (b : bitmap_t) (c : cpu_t) (Fm : gmap Z Z).
Context (Hrel : rel s a k) (Hfd : a_files a !! fd = None) (Hfiles : files_are (files s) Fm (a_files a)).

Lemma rel_insert : rb_holds tr (<[fd := f_next s]> Fm) -> bm_ok b ({[ fd ]} ∪ dom (a_files a)) k -> idle 0 c ->
  rel (mk_fsys (mk_ftable tr b (ft_count (table s) + 1) free_spin (ft_addr (table s))) (<[f_next s := file_of fd ty (mk_af v fl 0)]> (files s)) (f_next s + 1)
         (<[v := node_of (<[fd := mk_af v fl 0]> (a_files a)) v x']> (vnodes s)) c (rest s))
      (mk_afs (<[fd := mk_af v fl 0]> (a_files a)) (<[v := x']> (a_nodes a)) (a_rest a)) k.
Proof.
  intros Htr Hb Hc. destruct Hrel as [Hl _ _ Hct _ [Hnx Hlt] Hn Hr Hm]. split; simpl; try done.
  - by rewrite dom_insert_L.
  - rewrite map_size_insert_None by done. lia.
  - exists (<[fd := f_next s]> Fm). split; [done|]. apply files_insert; [done|done| |lia].
    destruct (files s !! f_next s) as [g|] eqn:E; [|done]. apply Hlt in E. lia.
  - split; [lia|]. intros q g. rewrite lookup_insert_Some. intros [[<- _]|[_ Hg]]; [lia|]. apply Hlt in Hg. lia.
  - eapply nodes_update; [done|done|]. intros u Hu. rewrite users_insert, decide_False by (done || (simpl; congruence)). lia.
  - intros fd' g. rewrite lookup_insert_Some. intros [[<- <-]|[_ Hg]]; [simpl; by rewrite lookup_insert_eq|].
    destruct (decide (a_vnode g = v)) as [-> |]; [by rewrite lookup_insert_eq|rewrite lookup_insert_ne by done; by eapply Hr].
Qed.

(** The reference that the new file takes. *)
Lemma node_more : set_vn_ref (node_of (a_files a) v x') (vn_ref (node_of (a_files a) v x') + 1) = node_of (<[fd := mk_af v fl 0]> (a_files a)) v x'.
Proof. unfold node_of, set_vn_ref. simpl. rewrite users_insert, decide_True by done. f_equal. lia. Qed.
End fresh.

Lemma least_new (F : gmap Z afile) (Fm : gmap Z Z) fs fd : files_are fs Fm F -> least_fd (dom F) = Some fd -> 0 <= fd < FTABLE_MAX_FILES /\ F !! fd = None /\ Fm !! fd = None.
Proof.
  intros Hf E. pose proof (least_fd_spec (dom F)) as H. rewrite E in H. destruct H as (Hr & Hn & _). apply not_elem_of_dom in Hn. split; [done|]. split; [done|]. by eapply fa_none.
Qed.

Lemma set_bitmap_same t : set_bitmap t (ft_bitmap t) = t.
Proof. by destruct t. Qed.

(** A reserved descriptor, before its file is in the table. *)
Record reserved (s : fsys M) (a : afs M) (fd : Z) (Fm : gmap Z Z) (t : ftable_t) (b : bitmap_t) (c : cpu_t) (k : Z) : Prop := {
  rv_table : table s = set_bitmap t b;
  rv_cpu : cpu s = c;
  rv_rel : rel (with_cpu (with_table s t) c) a k;
  rv_tree : rb_holds (ft_tree t) Fm;
  rv_files : files_are (files s) Fm (a_files a);
  rv_bits : bm_ok b ({[ fd ]} ∪ dom (a_files a)) k;
  rv_range : 0 <= fd < FTABLE_MAX_FILES;
  rv_free : a_files a !! fd = None /\ Fm !! fd = None;
}.

Lemma rel_rest s a k m : rel s a k -> rel (with_rest s m) (set_rest a m) k.
Proof. intros [Hl Hc Hb Hct Ht Hx Hn Hr Hm]. by split. Qed.

Lemma rel_node s a k v n sz m : rel s a k -> a_nodes a !! v = Some n ->
  rel (with_rest (with_vnodes s (<[v := node_of (a_files a) v (an_resize n sz)]> (vnodes s))) m) (set_node a v (an_resize n sz) m) k.
Proof.
  intros [Hl Hc Hb Hct Ht Hx Hn Hr Hm] Hv. split; try done; simpl.
  - by eapply nodes_update.
  - intros fd f Hf. destruct (decide (a_vnode f = v)) as [->|]; [by rewrite lookup_insert_eq|rewrite lookup_insert_ne by done; by eapply Hr].
Qed.

Lemma reserved_rest s a fd Fm t b c k m : reserved s a fd Fm t b c k -> reserved (with_rest s m) (set_rest a m) fd Fm t b c k.
Proof. intros [Ht Hc Hr Htr Hf Hb Hrg Hfr]. split; try done. by apply (rel_rest _ _ _ m) in Hr. Qed.

Lemma reserved_node s a fd Fm t b c k v n sz m : reserved s a fd Fm t b c k -> a_nodes a !! v = Some n ->
  reserved (with_rest (with_vnodes s (<[v := node_of (a_files a) v (an_resize n sz)]> (vnodes s))) m) (set_node a v (an_resize n sz) m) fd Fm t b c k.
Proof. intros [Ht Hc Hr Htr Hf Hb Hrg Hfr] Hv. split; try done. by apply (rel_node _ _ _ v n sz m) in Hr. Qed.

Lemma reserve s a k fd : rel s a k -> k < 2 ^ 62 -> least_fd (dom (a_files a)) = Some fd ->
  exists s' Fm b c, ftable_alloc_fd s = Ret (fd, s') /\ reserved s' a fd Fm (table s) b c k /\ rest s' = rest s.
Proof.
  intros Hrel Hk Hfd. pose proof Hrel as [Hl Hc Hb Hct (Fm & Ht & Hf) Hx Hn Hr Hm]. destruct s as [t fs nx vs c m]. simpl in *.
  destruct (alloc_fd_ok c0 st Hgood t fs nx vs c m 0 Hl Hc _ k Hb Hk) as (r & b & c1 & -> & Hc1 & Hspec). rewrite Hfd in Hspec. destruct Hspec as [-> Hb'].
  destruct (least_new _ _ _ _ Hf Hfd) as (Hrange & HF & HFm). eexists _, Fm, b, c1. split; [done|]. split; [|done]. split; try done. by split; simpl; eauto.
Qed.

Lemma no_descriptor s a k : rel s a k -> k < 2 ^ 62 -> least_fd (dom (a_files a)) = None -> exists s', ftable_alloc_fd s = Ret (-1, s') /\ rel s' a k.
Proof.
  intros Hrel Hk Hfd. pose proof Hrel as [Hl Hc Hb Hct (Fm & Ht & Hf) Hx Hn Hr Hm]. destruct s as [t fs nx vs c m]. simpl in *.
  destruct (alloc_fd_ok c0 st Hgood t fs nx vs c m 0 Hl Hc _ k Hb Hk) as (r & b & c1 & -> & Hc1 & Hspec). rewrite Hfd in Hspec. destruct Hspec as [-> ->].
  eexists. split; [done|]. rewrite set_bitmap_same. by split; simpl; eauto.
Qed.

(** A reserved descriptor is given back. *)
Lemma unreserve s a fd Fm t b c k res : reserved s a fd Fm t b c k -> k < 2 ^ 62 -> res < 0 -> exists s', open_end s fd res = Ret (res, s') /\ rel s' a (k + 1).
Proof.
  intros [Ht Hc Hr Htr Hf Hb Hrg [HF HFm]] Hk Hres. unfold open_end. rewrite (proj2 (Z.ltb_lt res 0)) by done.
  pose proof Hr as [Hl Hci Hb0 Hct _ Hx Hn Hrf Hm]. destruct s as [t' fs nx vs c' m]. simpl in *. subst t' c'.
  destruct (free_fd_ok c0 st Hgood (set_bitmap t b) fs nx vs c m 0 Hl Hci _ k fd Hb Hk) as (b' & c1 & -> & Hc1 & Hb'); [set_solver|]. bind.
  eexists. split; [done|]. replace (({[fd]} ∪ dom (a_files a)) ∖ {[fd]}) with (dom (a_files a)) in Hb' by (apply not_elem_of_dom in HF; set_solver).
  by split; simpl; eauto.
Qed.

Lemma add_open_ok s a fd Fm t b c k flags v : reserved s a fd Fm t b c k ->
  match a_nodes a !! v with
  | None => add_open s fd flags v = Fault
  | Some n => exists s', add_open s fd flags v = Ret (fd, s') /\ rel s' (new_open a fd flags v n) k
  end.
Proof.
  intros [Ht Hc Hr Htr Hf Hb Hrg [HF HFm]]. pose proof Hr as [Hl Hci Hb0 Hct _ Hx Hn Hrf Hm]. destruct s as [t' fs nx vs c' m]. simpl in *. subst t' c'.
  pose proof (nodes_lookup _ _ _ v Hn) as Hv. unfold add_open. destruct (a_nodes a !! v) as [x|] eqn:Hxv; simpl in Hv.
  2: { unfold vn_count_open, vn_lock, get_vnode. simpl vnodes. by rewrite Hv. }
  destruct (count_open_ok c0 st Hgood (set_bitmap t b) fs nx vs c m 0 v _ 1 Hci Hv) as (c2 & -> & Hc2); [done|done|]. bind.
  erewrite f_alloc_ok by apply lookup_insert_eq. bind. rewrite insert_insert_eq.
  change (set_vn_nopen (node_of (a_files a) v x) (u32 (vn_nopen (node_of (a_files a) v x) + 1))) with (node_of (a_files a) v (an_count x 1)). rewrite (node_more a fd v flags (an_count x 1) HF).
  match goal with |- context [ftable_add_file (mk_fsys ?t1 ?fs1 ?nx1 ?vs1 ?c ?m) ?p] =>
    destruct (add_ok c0 st Hgood t1 fs1 nx1 vs1 c m 0 Hl Hc2 Fm Htr p _ (lookup_insert_eq _ _ _) Hrg HFm (files_size _ _ _ _ _ Hf Hb0)) as (tr & c3 & -> & Hc3 & Htr') end. bind.
  eexists. split; [done|]. simpl in Htr'. unfold set_tree, set_bitmap. simpl ft_lock. simpl ft_count. simpl ft_bitmap. rewrite Hl.
  by eapply (rel_insert (mk_fsys t fs nx vs c m) a k fd v flags (an_count x 1)).
Qed.

Lemma opening s F v n flags : vnodes s !! v = Some (node_of F v n) ->
  (if V_ISDEV (node_of F v n) then
     match d_open (v_dev (node_of F v n)) with None => Ret (0, s) | Some open => '(res, m) ← open flags (rest s); Ret (res, with_rest s m) end
   else vn_open s v flags) =
  '(res, sz, m) ← node_open n v flags (rest s); Ret (res, with_rest (with_vnodes s (<[v := node_of F v (an_resize n sz)]> (vnodes s))) m).
Proof.
  intros Hv. assert (Hid : forall m, with_rest (with_vnodes s (<[v := node_of F v (an_resize n (an_size n))]> (vnodes s))) m = with_rest s m).
  { intros m. rewrite insert_id; [by destruct s|]. rewrite Hv. by destruct n. }
  assert (Hid0 : with_rest s (rest s) = s) by (by destruct s).
  rewrite isdev. unfold vn_open, node_open, get_vnode. rewrite Hv. simpl v_dev. bind. destruct (an_isdev n).
  - destruct (d_open (an_dev n)) as [open|]; [|bind; by rewrite Hid, Hid0]. destruct (open flags (rest s)) as [[res m]| | |]; bind; [by rewrite Hid|done..].
  - destruct (v_open v) as [open|]; [|bind; by rewrite Hid, Hid0]. by destruct (open flags (rest s)) as [[[res sz] m]| | |].
Qed.

Lemma open_with_ok s a fd Fm t b c k path flags mode : reserved s a fd Fm t b c k -> k < 2 ^ 62 -> rest s = a_rest a ->
  agrees ('(res, s) ← open_at s fd path flags mode; open_end s fd res) (open_with a fd path flags mode) (k + 1).
Proof.
  intros Hrv Hk Hrest. pose proof (rv_range _ _ _ _ _ _ _ _ Hrv) as Hrg. unfold open_at, open_with. destruct (access_ok flags); cbn [negb].
  2: { bind. eapply unreserve; [done|done|]. pose proof EINVAL_pos. lia. }
  rewrite Hrest. destruct (resolve_file path flags mode (a_rest a)) as [[[res v] m]| | |]; bind; [|done..].
  apply (reserved_rest _ _ _ _ _ _ _ _ m) in Hrv. clear Hrest. set (s1 := with_rest s m) in *. set (a1 := set_rest a m) in *.
  destruct (Z.ltb_spec res 0); [bind; by eapply unreserve|].
  pose proof (nodes_lookup _ _ _ v (rl_nodes _ _ _ (rv_rel _ _ _ _ _ _ _ _ Hrv))) as Hv. simpl vnodes in Hv. unfold get_vnode at 1. unfold s1 at 1. simpl vnodes.
  simpl a_nodes in Hv. unfold a1 at 1. simpl a_nodes. destruct (a_nodes a !! v) as [n|] eqn:Hn; simpl in Hv; rewrite Hv; [|done]. bind.
  rewrite isdev. simpl v_dev. destruct (an_isdev n && (an_dev n =? 0)).
  { bind. eapply unreserve; [done|done|]. pose proof ENODEV_pos. lia. }
  rewrite <- (isdev (a_files a) v n). change (an_dev n) with (v_dev (node_of (a_files a) v n)). rewrite (opening s1 (a_files a) v n flags Hv).
  change (rest s1) with (a_rest a1). destruct (node_open n v flags (a_rest a1)) as [[[r sz] m']| | |]; bind; [|done..].
  apply (reserved_node _ _ _ _ _ _ _ _ v n sz m') in Hrv; [|done]. destruct (Z.ltb_spec r 0); [bind; by eapply unreserve|].
  pose proof (add_open_ok _ _ _ _ _ _ _ _ flags v Hrv) as H'. unfold set_node in H' at 1. simpl a_nodes in H'. rewrite lookup_insert_eq in H'.
  destruct H' as (s2 & H' & Hs2). simpl a_files in H'. unfold a1 in H'. simpl a_files in H'. rewrite H'. bind. unfold open_end. rewrite (proj2 (Z.ltb_ge fd 0)) by lia. bind.
  exists s2. split; [done|]. eapply rel_more; [done|lia].
Qed.

Lemma open_ok s a k path flags mode : rel s a k -> k < 2 ^ 62 -> agrees (fs_open s path flags mode) (spec_open a path flags mode) (k + 1).
Proof.
  intros Hrel Hk. unfold fs_open, fs_proc_open, spec_open. simpl (-1 <? 0). cbn iota. destruct (least_fd (dom (a_files a))) as [fd|] eqn:Hfd.
  - destruct (reserve s a k fd Hrel Hk Hfd) as (s1 & Fm & b & c & -> & Hrv & Hrest). bind. pose proof (rv_range _ _ _ _ _ _ _ _ Hrv). rewrite (proj2 (Z.ltb_ge fd 0)) by lia.
    eapply open_with_ok; [done|done|]. by rewrite Hrest, (rl_rest _ _ _ Hrel).
  - destruct (no_descriptor s a k Hrel Hk Hfd) as (s' & -> & Hr). bind. unfold open_end, ftable_free_fd. simpl (-1 <? 0). cbn iota.
    exists s'. split; [by destruct (- EMFILE <? 0)|]. eapply rel_more; [done|lia].
Qed.

Lemma opendir_ok s a k path : rel s a k -> k < 2 ^ 62 -> agrees (fs_opendir s path) (spec_opendir a path) k.
Proof.
  intros Hrel Hk. unfold fs_opendir, spec_opendir. rewrite (rl_rest _ _ _ Hrel). destruct (resolve_dir path (a_rest a)) as [[[res v] m]| | |]; bind; [|done..].
  apply (rel_rest _ _ _ m) in Hrel. destruct (res <? 0); [by eexists|]. change (a_files (set_rest a m)) with (a_files a).
  destruct (least_fd (dom (a_files a))) as [fd|] eqn:Hfd.
  - destruct (reserve _ _ k fd Hrel Hk Hfd) as (s1 & Fm & b & c & -> & Hrv & _). bind. pose proof (rv_range _ _ _ _ _ _ _ _ Hrv). rewrite (proj2 (Z.ltb_ge fd 0)) by lia.
    pose proof (add_open_ok _ _ _ _ _ _ _ _ O_RDONLY v Hrv) as H'. by destruct (a_nodes (set_rest a m) !! v).
  - destruct (no_descriptor _ _ k Hrel Hk Hfd) as (s' & -> & Hr). bind. by exists s'.
Qed.

Lemma dup_ok s a k fd : rel s a k -> k < 2 ^ 62 -> agrees (fs_dup s fd) (spec_dup a fd) k.
Proof.
  intros Hrel Hk. unfold fs_dup, spec_dup, on_file. open_call Hrel f n Hb. lock_call Hb.
  pose proof Hrel as [Hl _ Hbits _ _ [Hnx Hlt] _ _ Hm]. pose proof Hb as [Ht Hf Hp Hp0 Hfs Hnode Hvn _ _].
  match goal with |- context [ftable_alloc_fd (mk_fsys ?t1 ?fs1 ?nx1 ?vs1 ?c ?m)] =>
    destruct (alloc_fd_ok c0 st Hgood t1 fs1 nx1 vs1 c m 1 Hl Hc _ k Hbits Hk) as (r & b & c2 & -> & Hc2 & Hspec) end. bind.
  destruct (least_fd (dom (a_files a))) as [fd'|] eqn:Hfd'.
  2: { destruct Hspec as [-> ->]. simpl (-1 <? 0). cbn iota. rewrite set_bitmap_same. end_call Hb. rewrite af_eta, <- (rest_same s a k Hrel). by eapply give_back_same. }
  destruct Hspec as [-> Hb']. destruct (least_new _ _ _ _ Hf Hfd') as (Hrange & HF & HFm). rewrite (proj2 (Z.ltb_ge fd' 0)) by lia.
  unfold get_file. simpl files. rewrite lookup_insert_eq. bind. simpl f_flags. simpl f_vnode. erewrite f_alloc_ok by exact Hvn. bind.
  rewrite (node_more a fd' (a_vnode f) (Z.land (a_flags f) (not_w 32 O_CLOEXEC)) n HF).
  match goal with |- context [ftable_add_file (mk_fsys ?t1 ?fs1 ?nx1 ?vs1 ?c ?m) ?p] =>
    destruct (add_ok c0 st Hgood t1 fs1 nx1 vs1 c m 1 Hl Hc2 Fm Ht p _ (lookup_insert_eq _ _ _) Hrange HFm (files_size _ _ _ _ _ Hf Hbits)) as (tr & c3 & -> & Hc3 & Htr) end. bind.
  pose proof (Hlt _ _ Hfs) as Hpn. rewrite insert_insert_ne by lia. end_call Hb. rewrite af_eta. rewrite insert_insert_ne by lia. rewrite (insert_id (files s) p) by done.
  unfold set_tree, set_bitmap. simpl. rewrite Hl.
  match goal with Hi : idle 0 _ |- _ => pose proof (rel_insert s a k fd' (a_vnode f) (Z.land (a_flags f) (not_w 32 O_CLOEXEC)) n (an_type n) tr b _ Fm Hrel HF Hf Htr Hb' Hi) as H end.
  by rewrite (insert_id (a_nodes a)) in H by done.
Qed.

(** *** Descriptors that go *)

Section gone.
Context (s : fsys M) (a : afs M) (k fd : Z) (f : afile) (Fm : gmap Z Z) (p : Z) (ty : vtype) (n : anode) (c c1 : cpu_t) (m : M).
Context (Hrel : rel s a k) (Hk : k < 2 ^ 62) (Hfd : a_files a !! fd = Some f) (Hb : borrowed s a fd f Fm p ty n c) (Hc1 : idle 1 c1).

Lemma close_ok (res : Z) :
  exists s', (s ← close_file (mk_fsys (table s) (<[p := locked_file fd f ty (a_offset f)]> (files s)) (f_next s) (vnodes s) c1 m) fd p (a_vnode f); finish s p true res) = Ret (res, s') /\
    rel s' (drop_fd (mk_afs (a_files a) (a_nodes a) m) fd f n) (k + 1).
Proof.
  pose proof Hrel as [Hl _ Hbits Hct _ [Hnx Hlt] Hn Hr Hm]. pose proof Hb as [Ht Hf Hp Hp0 Hfs Hnode Hvn _ _].
  assert (Hdom : fd ∈ dom (a_files a)) by (by eapply elem_of_dom_2). pose proof (bo_range _ _ _ Hbits fd Hdom) as Hrange. unfold close_file.
  destruct (remove_ok c0 st Hgood (table s) (<[p := locked_file fd f ty (a_offset f)]> (files s)) (f_next s) (vnodes s) c1 m 1 Hl Hc1 Fm Ht fd p _ Hp Hp0 (lookup_insert_eq _ _ _) eq_refl Hrange
    (files_size _ _ _ _ _ Hf Hbits)) as (tr & c2 & -> & Hc2 & Htr). bind. rewrite insert_insert_eq.
  match goal with |- context [ftable_free_fd (mk_fsys ?t1 ?fs1 ?nx1 ?vs1 ?c ?m) fd] =>
    destruct (free_fd_ok c0 st Hgood t1 fs1 nx1 vs1 c m 1 Hl Hc2 _ k fd Hbits Hk Hdom) as (b & c3 & -> & Hc3 & Hb') end. bind.
  unfold get_file. simpl files. rewrite lookup_insert_eq. bind. unfold put_file, with_files. simpl. rewrite insert_insert_eq.
  match goal with |- context [vn_count_open (mk_fsys ?t1 ?fs1 ?nx1 ?vs1 ?c ?m) ?v ?d] =>
    destruct (count_open_ok c0 st Hgood t1 fs1 nx1 vs1 c m 1 v _ d Hc3 Hvn) as (c4 & -> & Hc4); [done|done|] end. bind.
  match goal with |- context [finish (mk_fsys ?t1 ?fs1 ?nx1 ?vs1 ?c ?m) p true res] =>
    destruct (finish_closed c0 st Hgood t1 fs1 nx1 vs1 c m 0 p _ (node_of (a_files a) (a_vnode f) (an_count n (-1))) res Hc4 Hp0 (lookup_insert_eq _ _ _)) as (c5 & -> & Hc5) end;
    [done|done|done|simpl; apply lookup_insert_eq|simpl; pose proof (users_pos _ _ _ Hfd); pose proof (Hothers (a_vnode f)); lia|].
  eexists. split; [reflexivity|]. rewrite delete_insert_eq, insert_insert_eq. simpl. unfold set_tree, set_bitmap. simpl. rewrite Hl.
  split; simpl; try done.
  - by rewrite dom_delete_L.
  - rewrite map_size_delete_Some by eauto. assert (base.size (a_files a) <> 0%nat) by (intros E; apply map_size_empty_inv in E; rewrite E in Hfd; done). lia.
  - exists (delete fd Fm). split; [done|]. by eapply files_delete.
  - split; [done|]. intros q g. rewrite lookup_delete_Some. intros [_ Hg]. by eapply Hlt.
  - eapply nodes_update; [done| |].
    + unfold node_of, set_vn_ref. simpl. rewrite (users_delete _ _ _ _ Hfd), decide_True by done. f_equal. lia.
    + intros u Hu. rewrite (users_delete _ _ _ _ Hfd), decide_False by congruence. lia.
  - intros fd' g. rewrite lookup_delete_Some. intros [_ Hg].
    destruct (decide (a_vnode g = a_vnode f)) as [-> |]; [by rewrite lookup_insert_eq|rewrite lookup_insert_ne by done; by eapply Hr].
Qed.
End gone.

Lemma closing s F v n : vnodes s !! v = Some (node_of F v n) ->
  (if V_ISDEV (node_of F v n) then
     match d_close (v_dev (node_of F v n)) with None => Ret (0, s) | Some close => '(res, m) ← close (rest s); Ret (res, with_rest s m) end
   else vn_close s v) = '(res, m) ← node_close n v (rest s); Ret (res, with_rest s m).
Proof.
  intros Hv. rewrite isdev. unfold vn_close, node_close. simpl v_dev. destruct (an_isdev n).
  - destruct (d_close (an_dev n)) as [close|]; [|by destruct s]. by destruct (close (rest s)) as [[? ?]| | |].
  - destruct (v_close v) as [close|]; [|by destruct s]. by destruct (close (rest s)) as [[? ?]| | |].
Qed.

Lemma fs_close_ok s a k fd : rel s a k -> k < 2 ^ 62 -> agrees (fs_close s fd) (spec_close a fd) (k + 1).
Proof.
  intros Hrel Hk. unfold fs_close, spec_close, on_file. assert (Hrel1 : rel s a (k + 1)) by (eapply rel_more; [done|lia]). open_call Hrel1 f n Hb. lock_call Hb. read_objects Hb. rewrite isdir.
  case_bool_decide as Ht; [rewrite decide_True by done; end_call Hb; rewrite af_eta, <- (rest_same s a _ Hrel1); by eapply give_back_same|].
  rewrite decide_False by done. simpl v_dev. rewrite isdev. destruct (an_isdev n && (an_dev n =? 0)).
  { end_call Hb. rewrite af_eta, <- (rest_same s a _ Hrel1). by eapply give_back_same. }
  rewrite <- (isdev (a_files a) (a_vnode f) n). change (an_dev n) with (v_dev (node_of (a_files a) (a_vnode f) n)). rewrite closing by exact (bw_vnode _ _ _ _ _ _ _ _ _ Hb). simpl rest.
  rewrite (rl_rest _ _ _ Hrel). destruct (node_close n (a_vnode f) (a_rest a)) as [[res m]| | |]; bind; [|done..]. unfold with_rest. simpl.
  destruct (res <? 0).
  - end_call Hb. rewrite af_eta. by eapply give_back_same.
  - by eapply (close_ok s a k fd f).
Qed.

Lemma closedir_ok s a k fd : rel s a k -> k < 2 ^ 62 -> agrees (fs_closedir s fd) (spec_closedir a fd) (k + 1).
Proof.
  intros Hrel Hk. unfold fs_closedir, spec_closedir, on_file. assert (Hrel1 : rel s a (k + 1)) by (eapply rel_more; [done|lia]). open_call Hrel1 f n Hb. read_objects Hb. rewrite isdir.
  case_bool_decide as Ht; [|rewrite decide_False by done; end_plain Hrel1 Hb]. rewrite decide_True by done. cbn [negb]. lock_call Hb.
  destruct (close_ok s a k fd f Fm p ty n c _ (rest s) Hrel Hk Hfd Hb Hc 0) as (s' & Hs & Hr'). simpl f_vnode. rewrite Hs. exists s'. split; [done|]. by rewrite (rest_same s a k Hrel) in Hr'.
Qed.

(** *** A descriptor that is asked for *)

Lemma bit_taken b D k fd : bm_ok b D k -> fd ∈ D -> bitmap_get b fd = Ret true.
Proof.
  intros Hb Hfd. pose proof (bo_range _ _ _ Hb fd Hfd) as Hr. destruct (bits_word _ _ _ Hb fd Hr) as (q & Hq & _ & Ht). pose proof (bo_sum _ _ _ Hb) as Hsum.
  unfold bitmap_get, index_ok. rewrite Hsum, wrap_small by (unfold fits; lia). rewrite (proj2 (Z.ltb_lt fd FTABLE_MAX_FILES)) by lia. cbn [kassert mbind outcome_bind]. rewrite Hq. bind.
  unfold bt64. by rewrite Ht, bool_decide_eq_true_2.
Qed.

Lemma claim_taken s a k fd : rel s a k -> fd ∈ dom (a_files a) ->
  exists c, ftable_claim_fd s fd = Ret (-1, with_cpu s c) /\ idle 0 c.
Proof.
  intros [Hl Hc Hb Hct Ht Hx Hn Hr Hm] Hfd. destruct s as [t fs nx vs c m]. simpl in *. pose proof (bo_range _ _ _ Hb fd Hfd).
  destruct (table_lock_ok c0 st Hgood t fs nx vs c m 0 Hl Hc) as (c1 & H1 & Hin). unfold ftable_claim_fd.
  rewrite (proj2 (Z.ltb_ge fd 0)), (proj2 (Z.ltb_lt fd FTABLE_MAX_FILES)), H1 by lia. cbn [kassert mbind outcome_bind table]. simpl ft_bitmap. rewrite (bit_taken _ _ _ _ Hb Hfd). bind.
  destruct (table_unlock_ok c0 st Hgood _ fs nx vs c1 m 0 Hin) as (c2 & H2 & Hc2). rewrite H2. bind. exists c2. split; [|done]. destruct t; simpl in *; by subst.
Qed.

Lemma claimed_ok s a k fd path flags mode : rel s a k -> k < 2 ^ 62 -> fd ∈ dom (a_files a) ->
  exists b c, fs_proc_open s fd path flags mode = Ret (- EBADF, with_cpu (with_table s (set_bitmap (table s) b)) c) /\
    idle 0 c /\ bm_ok b (dom (a_files a) ∖ {[ fd ]}) (k + 1).
Proof.
  intros Hrel Hk Hfd. destruct (claim_taken s a k fd Hrel Hfd) as (c & H & Hc). pose proof Hrel as [Hl _ Hb _ _ _ _ _ _]. pose proof (bo_range _ _ _ Hb fd Hfd). pose proof EBADF_pos.
  unfold fs_proc_open. rewrite (proj2 (Z.ltb_ge fd 0)) by lia. rewrite H. bind. simpl (-1 <? 0). cbn iota. unfold open_end. rewrite (proj2 (Z.ltb_lt (- EBADF) 0)) by lia.
  destruct s as [t fs nx vs c' m]. simpl in *. destruct (free_fd_ok c0 st Hgood t fs nx vs c m 0 Hl Hc _ k fd Hb Hk Hfd) as (b & c2 & H2 & Hc2 & Hb2).
  unfold with_cpu. simpl. rewrite H2. bind. by exists b, c2.
Qed.

(** *** Sequences of calls *)

Lemma agrees_kio (r : outcome (Z * fsys M)) spec k : agrees r spec k -> agrees (no_kio r) (no_kio spec) k.
Proof. unfold agrees. destruct spec as [[x a]| | |]; simpl; [|by intros -> ..]. intros (s & -> & Hs). by exists s. Qed.

Lemma agrees_kio' (r : outcome (Z * kio_t * fsys M)) spec k : agrees r spec k -> agrees (a_kio r) (a_kio spec) k.
Proof. unfold agrees. destruct spec as [[[x kio] a]| | |]; simpl; [|by intros -> ..]. intros (s & -> & Hs). by exists s. Qed.

Lemma op_ok s a k o : rel s a k -> k < 2 ^ 62 -> agrees (do_op s o) (spec_op a o) (k + 1).
Proof.
  intros Hrel Hk. destruct o; simpl; (apply agrees_kio || apply agrees_kio'); try (by apply fs_close_ok); try (by apply closedir_ok); try (by apply open_ok); (eapply agrees_more; [|instantiate (1 := k); lia]);
    [by apply opendir_ok|by apply dup_ok|by apply seek_ok|by apply tell_ok|by apply seekdir_ok|by apply read_ok|by apply write_ok].
Qed.

Lemma run_ok ops : forall s a k, rel s a k -> k + Z.of_nat (length ops) < 2 ^ 62 ->
  agrees (fd_run s ops) (spec_run a ops) (k + Z.of_nat (length ops)).
Proof.
  induction ops as [|o ops IH]; intros s a k Hrel Hk.
  - exists s. split; [done|]. eapply rel_more; [done|simpl; lia].
  - simpl. pose proof (op_ok s a k o Hrel) as H. unfold agrees in H. destruct (spec_op a o) as [[[x kio] a1]| | |]; [|rewrite H by (simpl in Hk; lia); done..].
    destruct H as (s1 & -> & H1); [simpl in Hk; lia|]. bind. specialize (IH s1 a1 (k + 1) H1). unfold agrees in IH.
    destruct (spec_run a1 ops) as [[rs a2]| | |]; [|rewrite IH by (simpl in Hk; lia); done..]. destruct IH as (s2 & -> & H2); [simpl in Hk; lia|]. bind.
    exists s2. split; [done|]. eapply rel_more; [done|lia].
Qed.
End refine.

(** A process without open files; [N] are the vnodes that exist, each with
    references of others. *)
Definition fs_start {M} (addr : Z) (others : Z -> Z) (N : gmap Z anode) (c : cpu_t) (m : M) : fsys M :=
  mk_fsys (ftable_alloc addr) ∅ 1 (map_imap (fun v x => Some (node_of others ∅ v x)) N) c m.

Lemma start_rel {M} addr others N c (m : M) c0 st : idle c0 st 0 c -> rel c0 st others (fs_start addr others N c m) (mk_afs ∅ N m) 0.
Proof.
  intros Hc. split; simpl; try done.
  - rewrite dom_empty_L. apply bitmap_init_ok.
  - exists ∅. split; [apply create_holds|]. by split.
Qed.


(** A file system with the regular file 10 named f and the directory 11 named
    d, and a device named x that cannot be opened.  Its state counts reads. *)
Definition demo_ops : file_ops Z := {|
  resolve_file := fun path _ _ m => Ret (match path with [102] => (0, 10, m) | [120] => (0, 12, m) | _ => (-2, 0, m) end);
  resolve_dir := fun path m => Ret (match path with [100] => (0, 11, m) | _ => (-2, 0, m) end);
  v_open := fun _ => None;
  d_open := fun _ => Some (fun _ m => Ret (-5, m));
  v_close := fun _ => None;
  v_read := fun v => if v =? 10 then Some (fun off k m => Ret (Z.min 30 (100 - off), k, 100, m + 1)) else None;
  v_write := fun _ => None;
  v_cleanup := fun _ m => Ret m;
  d_close := fun _ => None;
  d_read := fun _ => None;
  d_write := fun _ => None;
|}.
Definition demo_abi : abi_numbers := {|
  EBADF := 9; EMFILE := 24; EISDIR := 21; ENODEV := 19; ENOTDIR := 20; EINVAL := 22; ENOTSUP := 95; EROFS := 30; ESPIPE := 29;
  O_CLOEXEC := 0x80000; O_APPEND := 0x400; O_ACCMODE := 3;
  EINVAL_pos := eq_refl; ENODEV_pos := eq_refl; EBADF_pos := eq_refl;
|}.
Definition demo_nodes : gmap Z anode := {[ 10 := mk_an V_REG 0 100 false 0; 11 := mk_an V_DIR 0 0 false 0; 12 := mk_an V_CHR 0 0 false 7 ]}.


(** C38. Asking for a descriptor that is open takes it away: after any
    sequence of calls fs_proc_open with such a descriptor fails with EBADF as
    it should, but frees the bit of the descriptor on its way out.  The file
    stays in the tree, everything else is unchanged, and the bitmap says that
    the descriptor can be given out. *)
Theorem open_claimed_fd {M : Type} {FO : file_ops M} {AB : abi_numbers} (c : cpu_t) (st : list Z) (others : Z -> Z) addr N (m : M) ops rs a fd path flags mode
    (Hcpu : good_cpu c st) (Hothers : forall v, 1 <= others v) (Hlen : Z.of_nat (length ops) < 2 ^ 62)
    (Hrun : spec_run (mk_afs ∅ N m) ops = Ret (rs, a)) (Hopen : fd ∈ dom (a_files a)) :
  exists s b c', fd_run (fs_start addr others N c m) ops = Ret (rs, s) /\
    fs_proc_open s fd path flags mode = Ret (- EBADF, with_cpu (with_table s (set_bitmap (table s) b)) c') /\
    (exists Fm p, rb_holds (ft_tree (table s)) Fm /\ Fm !! fd = Some p) /\
    forall i, 0 <= i < FTABLE_MAX_FILES -> bit_at (bmp_map b) i = bool_decide (i ∈ dom (a_files a) ∖ {[ fd ]}).
Proof.
  destruct (good_out c st Hcpu) as [Ho1 Ho2]. assert (Hi : idle c st 0 c) by (split; simpl; done || lia).
  pose proof (run_ok c st Hcpu others Hothers ops _ _ 0 (start_rel addr others N c m c st Hi) ltac:(lia)) as H. unfold agrees in H. rewrite Hrun in H.
  destruct H as (s & Hs & Hrel). destruct (claimed_ok c st Hcpu others s a _ fd path flags mode Hrel ltac:(lia) Hopen) as (b & c' & Ho & _ & Hb).
  exists s, b, c'. split; [done|]. split; [done|]. split; [|exact (bo_bits _ _ _ Hb)].
  destruct (rl_tree _ _ _ _ _ _ Hrel) as (Fm & Ht & Hf). apply elem_of_dom in Hopen as [f Hf']. destruct (fa_some _ _ _ Hf fd f Hf') as (p & _ & Hp & _). by exists Fm, p.
Qed.

Lemma open_claimed_fd_witness :
  exists s b c', fd_run (FO := demo_ops) (A := demo_abi) (fs_start 4096 (fun _ => 1) demo_nodes (spin_cpu 64) 0) [FOpen [102] 0 0; FOpendir [100]] = Ret ([(0, None); (1, None)], s) /\
    fs_proc_open (FO := demo_ops) (A := demo_abi) s 0 [102] 0 0 = Ret (-9, with_cpu (with_table s (set_bitmap (table s) b)) c') /\ bit_at (bmp_map b) 0 = false.
Proof.
  assert (Hc : good_cpu (spin_cpu 64) []) by (apply spin_cpu_good; vm_compute; repeat split).
  pose (a := mk_afs (M := Z) {[ 0 := mk_af 10 0 0; 1 := mk_af 11 0 0 ]} (<[11 := mk_an V_DIR 1 0 false 0]> (<[10 := mk_an V_REG 1 100 false 0]> demo_nodes)) 0).
  assert (E : spec_run (FO := demo_ops) (A := demo_abi) (mk_afs ∅ demo_nodes 0) [FOpen [102] 0 0; FOpendir [100]] = Ret ([(0, None); (1, None)], a)) by (vm_compute; reflexivity).
  destruct (open_claimed_fd (FO := demo_ops) (AB := demo_abi) (spin_cpu 64) [] (fun _ => 1) 4096 demo_nodes 0 [FOpen [102] 0 0; FOpendir [100]] _ a 0 [102] 0 0 Hc (fun _ => Z.le_refl 1) eq_refl E) as (s & b & c' & H1 & H2 & _ & H3).
  - apply elem_of_dom. by exists (mk_af 10 0 0).
  - exists s, b, c'. split; [exact H1|]. split; [exact H2|]. rewrite H3 by lia. apply bool_decide_eq_false_2. intros [_ Hn]%elem_of_difference. by apply Hn, elem_of_singleton.
Defined.

(** ftable_clone works on the table it is to copy: it replaces its tree by an
    empty one and then reads the file of that tree's sentinel. *)
Theorem ftable_clone_faults {M : Type} {FO : file_ops M} (c0 : cpu_t) (st : list Z) (fuel : nat) (s : fsys M)
    (Hcpu : good_cpu c0 st) (Hc : cpu s = c0) (Hnull : files s !! 0 = None) :
  ftable_clone (S fuel) s = Fault.
Proof.
  destruct s as [t fs nx vs c m]. simpl in *. subst c. unfold ftable_clone, with_table. simpl.
  assert (Hi : idle c0 st 0 c0). { destruct (good_out c0 st Hcpu). split; simpl; done || lia. }
  match goal with |- context [FTABLE_LOCK (mk_fsys ?t1 _ _ _ _ _)] => destruct (table_lock_ok c0 st Hcpu t1 fs nx vs c0 m 0 eq_refl Hi) as (c1 & -> & _) end.
  cbn. unfold f_lock, get_file. simpl. change (rd create_rb_tree 0) with (Ret (mk_node 0 0 BLACK 0 0 0 0 0)). simpl. by rewrite Hnull.
Qed.
