(* ===== verification/Time.v ===== *)
(** * Calendar time: include/kernel/time.h

    The two conversions between seconds since 1970 and a broken down time,
    against a calendar that counts the days of years and months. *)

From S2P Require Import Prelude.
Local Open Scope Z_scope.

Record tm := mk_tm {
  tm_sec : Z;
  tm_min : Z;
  tm_hour : Z;
  tm_mday : Z;
  tm_mon : Z;
  tm_year : Z;
  tm_wday : Z;
  tm_yday : Z;
}.

(** The [int] fields are converted before the multiplications. *)
Definition tm2posix (t : tm) : Z :=
  let epoch := u64 (0 + u64 (tm_sec t)) in
  let epoch := u64 (epoch + u64 (u64 (tm_min t) * 60)) in
  let epoch := u64 (epoch + u64 (u64 (tm_hour t) * 3600)) in
  let epoch := u64 (epoch + u64 (u64 (tm_yday t) * 86400)) in
  let epoch := u64 (epoch + u64 (u64 (tm_year t - 70) * 31536000)) in
  let epoch := u64 (epoch + u64 (u64 (Z.quot (tm_year t - 69) 4) * 86400)) in
  let epoch := u64 (epoch - u64 (u64 (Z.quot (tm_year t - 1) 100) * 86400)) in
  u64 (epoch + u64 (u64 (Z.quot (tm_year t + 299) 400) * 86400)).

Definition leap (year : Z) : bool :=
  (year mod 4 =? 0) && (negb (year mod 100 =? 0) || (year mod 400 =? 0)).

Fixpoint year_loop (fuel : nat) (days year : Z) : outcome (Z * Z) :=
  if 365 <=? days then
    match fuel with
    | O => NoFuel
    | S f =>
        if leap year then
          if 366 <=? days then year_loop f (days - 366) (year + 1) else Ret (days, year)
        else year_loop f (days - 365) (year + 1)
    end
  else Ret (days, year).

(** The test of a month's own length in the loop. *)
Definition month_test (year month : Z) : Z :=
  if month =? 1 then if leap year then 29 else 28
  else if (month =? 3) || (month =? 5) || (month =? 8) || (month =? 10) then 30
  else 31.

Fixpoint month_loop (fuel : nat) (year month days month_days : Z) : outcome (Z * Z * Z) :=
  if 28 <=? days then
    match fuel with
    | O => NoFuel
    | S f =>
        let len := month_test year month in
        if len <=? days then month_loop f year (month + 1) (days - len) (u64 (month_days + len))
        else Ret (month, days, month_days)
    end
  else Ret (month, days, month_days).

Definition posix2tm (epoch : Z) : outcome tm :=
  let days := epoch / 86400 in
  let rem := epoch mod 86400 in
  '(days, year) ← year_loop (S (Z.to_nat (days / 365))) days 1970;
  '(month, days, month_days) ← month_loop 14 year 0 days 0;
  Ret (mk_tm (sint 32 (rem mod 60)) (sint 32 ((rem / 60) mod 60)) (sint 32 ((rem / 3600) mod 24))
         (sint 32 (u64 (days - month_days + 1))) (sint 32 month) (sint 32 (u64 (year - 1900)))
         (sint 32 ((epoch / 86400 + 4) mod 7)) (sint 32 days)).

(** ** The calendar *)

(** The Gregorian rule, and the leap test of the code. *)
Definition gregorian (year : Z) : bool :=
  if year mod 400 =? 0 then true else if year mod 100 =? 0 then false else year mod 4 =? 0.

Lemma leap_gregorian y : leap y = gregorian y.
Proof.
  unfold leap, gregorian. destruct (Z.eqb_spec (y mod 400) 0), (Z.eqb_spec (y mod 100) 0), (Z.eqb_spec (y mod 4) 0);
    try done; exfalso; Z.to_euclidean_division_equations; lia.
Qed.

Definition year_len (year : Z) : Z := if gregorian year then 366 else 365.

(** The days of the [n] years from 1970 on. *)
Fixpoint years_days (n : nat) : Z :=
  match n with O => 0 | S n' => years_days n' + year_len (1970 + Z.of_nat n') end.

Definition month_len (year : Z) (month : nat) : Z :=
  match month with
  | 1%nat => if gregorian year then 29 else 28
  | 3%nat | 5%nat | 8%nat | 10%nat => 30
  | _ => 31
  end.

(** The days of the year before a month. *)
Fixpoint month_start (year : Z) (month : nat) : Z :=
  match month with O => 0 | S m => month_start year m + month_len year m end.

(** A date: years after 1970, month and day from 0, and the time of day. *)
Record date := mk_date {
  d_year : nat;
  d_month : nat;
  d_day : Z;
  d_hour : Z;
  d_min : Z;
  d_sec : Z;
}.
Definition d_y (d : date) : Z := 1970 + Z.of_nat (d_year d).

Record date_ok (d : date) : Prop := mk_date_ok {
  do_year : Z.of_nat (d_year d) < 2 ^ 31 - 1970;
  do_month : (d_month d < 12)%nat;
  do_day : 0 <= d_day d < month_len (d_y d) (d_month d);
  do_hour : 0 <= d_hour d < 24;
  do_min : 0 <= d_min d < 60;
  do_sec : 0 <= d_sec d < 60;
}.

Definition yday (d : date) : Z := month_start (d_y d) (d_month d) + d_day d.
Definition seconds (d : date) : Z := (d_hour d * 60 + d_min d) * 60 + d_sec d.
Definition epoch_of (d : date) : Z := (years_days (d_year d) + yday d) * 86400 + seconds d.

(** The day of the year within the year. *)
Lemma month_start_12 y : month_start y 12 = year_len y.
Proof. unfold year_len. simpl. by destruct (gregorian y). Qed.

Lemma month_len_bounds y m : 28 <= month_len y m <= 31.
Proof.
  unfold month_len. destruct (gregorian y); do 12 (destruct m as [|m]; [lia|]); lia.
Qed.

Lemma month_start_mono y m k : (m <= k)%nat -> month_start y m <= month_start y k.
Proof.
  induction 1 as [|k _ IH]; [done|]. simpl. pose proof (month_len_bounds y k). lia.
Qed.

Lemma yday_range d : date_ok d -> 0 <= yday d < year_len (d_y d).
Proof.
  intros [_ Hm Hd _ _ _]. unfold yday.
  pose proof (month_start_mono (d_y d) 0 (d_month d) ltac:(lia)) as H0. simpl in H0.
  pose proof (month_start_mono (d_y d) (S (d_month d)) 12 ltac:(lia)) as H12.
  rewrite month_start_12 in H12. simpl in H12. lia.
Qed.

(** ** The loops *)

Lemma leap_366 y : year_len y = 365 \/ (year_len y = 366 /\ leap y = true).
Proof. unfold year_len. rewrite leap_gregorian. destruct (gregorian y); tauto. Qed.

(** [n] full years are counted off. *)
Lemma year_loop_ok n : forall k r fuel,
  0 <= r < year_len (1970 + Z.of_nat (k + n)) -> (n < fuel)%nat ->
  year_loop fuel (years_days (k + n) - years_days k + r) (1970 + Z.of_nat k) =
    Ret (r, 1970 + Z.of_nat (k + n)).
Proof.
  induction n as [|n IH]; intros k r fuel Hr Hf.
  - rewrite Nat.add_0_r in *. replace (years_days k - years_days k + r) with r by lia.
    destruct fuel as [|fuel]; [lia|]. simpl. destruct (Z.leb_spec 365 r); [|done].
    destruct (leap_366 (1970 + Z.of_nat k)) as [E|[E ->]]; [lia|].
    by rewrite (proj2 (Z.leb_gt 366 r)) by lia.
  - destruct fuel as [|fuel]; [lia|]. cbn [year_loop].
    assert (Hmono : forall a b, (a <= b)%nat -> years_days a <= years_days b).
    { induction 1 as [|b _ IHb]; [done|]. simpl. pose proof (leap_366 (1970 + Z.of_nat b)). lia. }
    pose proof (Hmono (S k) (k + S n)%nat ltac:(lia)) as Hm. cbn [years_days] in Hm.
    specialize (IH (S k) r fuel). replace (S k + n)%nat with (k + S n)%nat in IH by lia.
    specialize (IH Hr ltac:(lia)). cbn [years_days] in IH.
    replace (1970 + Z.of_nat k + 1) with (1970 + Z.of_nat (S k)) by lia.
    set (days := years_days (k + S n) - years_days k + r).
    replace (years_days (k + S n) - (years_days k + year_len (1970 + Z.of_nat k)) + r)
      with (days - year_len (1970 + Z.of_nat k)) in IH by (unfold days; lia).
    rewrite leap_gregorian. unfold year_len in *. destruct (gregorian (1970 + Z.of_nat k)) eqn:E.
    + rewrite (proj2 (Z.leb_le 365 days)), (proj2 (Z.leb_le 366 days)) by lia. exact IH.
    + rewrite (proj2 (Z.leb_le 365 days)) by lia. exact IH.
Qed.

Lemma month_test_len y m : (m < 12)%nat -> month_test y (Z.of_nat m) = month_len y m.
Proof. intros Hm. unfold month_test. rewrite leap_gregorian. do 12 (destruct m as [|m]; [done|]). lia. Qed.

Lemma month_loop_ok y n : forall k r fuel,
  (k + n < 12)%nat -> 0 <= r < month_len y (k + n) -> (n < fuel)%nat ->
  month_loop fuel y (Z.of_nat k) (month_start y (k + n) - month_start y k + r) (month_start y k) =
    Ret (Z.of_nat (k + n), r, month_start y (k + n)).
Proof.
  induction n as [|n IH]; intros k r fuel Hk Hr Hf.
  - rewrite Nat.add_0_r in *. replace (month_start y k - month_start y k + r) with r by lia.
    destruct fuel as [|fuel]; [lia|]. simpl. destruct (Z.leb_spec 28 r); [|done].
    rewrite month_test_len by lia. by rewrite (proj2 (Z.leb_gt _ r)) by lia.
  - destruct fuel as [|fuel]; [lia|]. cbn [month_loop]. rewrite month_test_len by lia.
    pose proof (month_start_mono y (S k) (k + S n) ltac:(lia)) as Hm. cbn [month_start] in Hm.
    pose proof (month_start_mono y (k + S n) 12 ltac:(lia)) as Hm12.
    pose proof (month_start_mono y 0 k ltac:(lia)) as Hm0. simpl in Hm0.
    rewrite month_start_12 in Hm12. pose proof (leap_366 y). pose proof (month_len_bounds y k).
    set (days := month_start y (k + S n) - month_start y k + r).
    rewrite (proj2 (Z.leb_le 28 days)), (proj2 (Z.leb_le _ days)) by lia.
    specialize (IH (S k) r fuel). replace (S k + n)%nat with (k + S n)%nat in IH by lia.
    rewrite <- IH by lia. cbn [month_start]. rewrite wrap_small by (unfold fits; lia).
    f_equal; lia.
Qed.

Lemma years_days_mono a b : (a <= b)%nat -> years_days a <= years_days b.
Proof. induction 1 as [|b _ IHb]; [done|]. simpl. pose proof (leap_366 (1970 + Z.of_nat b)). lia. Qed.

Lemma years_days_lower n : 365 * Z.of_nat n <= years_days n <= 366 * Z.of_nat n.
Proof. induction n as [|n IH]; [done|]. cbn [years_days]. pose proof (leap_366 (1970 + Z.of_nat n)). lia. Qed.

(** The leap days in closed form. *)
Lemma years_days_closed n :
  years_days n = 365 * Z.of_nat n + (Z.of_nat n + 1) / 4 - (Z.of_nat n + 69) / 100 + (Z.of_nat n + 369) / 400.
Proof.
  induction n as [|n IH]; [done|]. cbn [years_days]. rewrite IH. unfold year_len. rewrite <- leap_gregorian. unfold leap.
  rewrite Nat2Z.inj_succ. set (z := Z.of_nat n). assert (Hz : 0 <= z) by (unfold z; lia). clearbody z. clear IH.
  assert (H4 : (Z.succ z + 1) / 4 = (z + 1) / 4 + (if (1970 + z) mod 4 =? 0 then 1 else 0))
    by (destruct (Z.eqb_spec ((1970 + z) mod 4) 0); Z.to_euclidean_division_equations; lia).
  assert (H100 : (Z.succ z + 69) / 100 = (z + 69) / 100 + (if (1970 + z) mod 100 =? 0 then 1 else 0))
    by (destruct (Z.eqb_spec ((1970 + z) mod 100) 0); Z.to_euclidean_division_equations; lia).
  assert (H400 : (Z.succ z + 369) / 400 = (z + 369) / 400 + (if (1970 + z) mod 400 =? 0 then 1 else 0))
    by (destruct (Z.eqb_spec ((1970 + z) mod 400) 0); Z.to_euclidean_division_equations; lia).
  rewrite H4, H100, H400.
  destruct (Z.eqb_spec ((1970 + z) mod 4) 0), (Z.eqb_spec ((1970 + z) mod 100) 0),
    (Z.eqb_spec ((1970 + z) mod 400) 0); simpl; try lia;
    exfalso; Z.to_euclidean_division_equations; lia.
Qed.

Lemma epoch_parts d : date_ok d ->
  epoch_of d / 86400 = years_days (d_year d) + yday d /\ epoch_of d mod 86400 = seconds d /\ 0 <= seconds d < 86400.
Proof.
  intros Hd. pose proof Hd as [_ _ _ Hh Hm Hs]. unfold epoch_of.
  assert (Hsec : 0 <= seconds d < 86400) by (unfold seconds; lia).
  rewrite Z.add_comm, Z.div_add, Z.mod_add, Z.div_small, Z.mod_small by lia. lia.
Qed.

Lemma seconds_parts d : date_ok d ->
  seconds d mod 60 = d_sec d /\ (seconds d / 60) mod 60 = d_min d /\ (seconds d / 3600) mod 24 = d_hour d.
Proof.
  intros [_ _ _ Hh Hm Hs]. unfold seconds.
  assert (H1 : ((d_hour d * 60 + d_min d) * 60 + d_sec d) / 60 = d_hour d * 60 + d_min d)
    by (rewrite Z.add_comm, Z.div_add, Z.div_small by lia; lia).
  split; [rewrite Z.add_comm, Z.mod_add, Z.mod_small; lia|]. split.
  - rewrite H1, Z.add_comm, Z.mod_add, Z.mod_small; lia.
  - change 3600 with (60 * 60). rewrite <- Z.div_div, H1 by lia.
    rewrite Z.add_comm, Z.div_add, Z.div_small, Z.mod_small; lia.
Qed.

Lemma sint32_small x : - 2 ^ 31 <= x < 2 ^ 31 -> sint 32 x = x.
Proof.
  intros Hx. unfold sint. destruct (Z.le_gt_cases 0 x).
  - rewrite wrap_small by (unfold fits; lia). by rewrite (proj2 (Z.ltb_lt _ _)) by lia.
  - assert (wrap 32 x = x + 2 ^ 32) as ->
      by (unfold wrap; rewrite <- (Z.mod_add _ 1) by lia; apply Z.mod_small; lia).
    rewrite (proj2 (Z.ltb_ge _ _)) by lia. lia.
Qed.

Lemma sint32_u64 x : sint 32 (u64 x) = sint 32 x.
Proof.
  unfold sint. assert (wrap 32 (u64 x) = wrap 32 x) as ->; [|done]. unfold wrap.
  apply Z.mod_mod_divide. by exists (2 ^ 32).
Qed.

Lemma posix2tm_parts d : date_ok d ->
  posix2tm (epoch_of d) =
    Ret (mk_tm (d_sec d) (d_min d) (d_hour d) (d_day d - month_start (d_y d) (d_month d) + 1)
           (Z.of_nat (d_month d)) (d_y d - 1900) ((years_days (d_year d) + yday d + 4) mod 7) (d_day d)).
Proof.
  intros Hd.
  pose proof (yday_range d Hd) as Hy. destruct (epoch_parts d Hd) as (E1 & E2 & Hsec).
  destruct (seconds_parts d Hd) as (S1 & S2 & S3).
  pose proof (years_days_lower (d_year d)) as Hlow. pose proof (leap_366 (d_y d)) as Hlen.
  unfold posix2tm. rewrite E1, E2, S1, S2, S3.
  pose proof (year_loop_ok (d_year d) 0 (yday d)
    (S (Z.to_nat ((years_days (d_year d) + yday d) / 365)))) as Hyl.
  rewrite Nat.add_0_l in Hyl. change (years_days 0) with 0 in Hyl. rewrite Z.sub_0_r in Hyl.
  change (1970 + Z.of_nat 0) with 1970 in Hyl. rewrite Hyl; [|done|].
  2:{ apply Nat.lt_succ_r. apply Nat2Z.inj_le. rewrite Z2Nat.id by (apply Z.div_pos; lia).
      apply Z.div_le_lower_bound; lia. }
  fold (d_y d). cbn [mbind outcome_bind].
  pose proof (month_loop_ok (d_y d) (d_month d) 0 (d_day d) 14) as Hml. pose proof Hd as [Hyr Hm Hday Hh Hmi Hs].
  rewrite Nat.add_0_l in Hml. change (month_start (d_y d) 0) with 0 in Hml.
  rewrite Z.sub_0_r in Hml. change (Z.of_nat 0) with 0 in Hml. fold (yday d) in Hml. rewrite Hml by (done || lia).
  cbn [mbind outcome_bind]. rewrite !sint32_u64.
  pose proof (Z.mod_pos_bound (years_days (d_year d) + yday d + 4) 7 ltac:(lia)).
  pose proof (month_len_bounds (d_y d) (d_month d)). unfold yday in *.
  rewrite !sint32_small by (unfold d_y in *; lia). done.
Qed.

(** Removes the wraps around values that fit, innermost first. *)
Ltac settle_wraps :=
  repeat match goal with
  | |- context [wrap 64 ?x] =>
      lazymatch x with
      | context [wrap] => fail
      | _ => rewrite (wrap_small 64 x) by (unfold fits; lia)
      end
  end.

(** C37. posix2tm breaks the seconds of every date down into the right year,
    month, hour, minute, second and day of the week; but the day of the month
    is short by the days of the months before, and the day of the year is the
    day of the month, so both are right only in January. *)
Theorem posix2tm_date (d : date) (Hd : date_ok d) :
  posix2tm (epoch_of d) =
    Ret (mk_tm (d_sec d) (d_min d) (d_hour d) (d_day d - month_start (d_y d) (d_month d) + 1)
           (Z.of_nat (d_month d)) (d_y d - 1900) ((years_days (d_year d) + yday d + 4) mod 7) (d_day d)).
Proof. by apply posix2tm_parts. Qed.

Lemma posix2tm_date_witness :
  posix2tm 1709209845 = Ret (mk_tm 45 30 12 (-2) 1 124 4 28).
Proof.
  pose proof (posix2tm_date (mk_date 54 1 28 12 30 45)) as H.
  change 1709209845 with (epoch_of (mk_date 54 1 28 12 30 45)). apply H.
  split; simpl; lia.
Defined.

(** The broken down time that a date has. *)
Definition tm_of (d : date) : tm :=
  mk_tm (d_sec d) (d_min d) (d_hour d) (d_day d + 1) (Z.of_nat (d_month d)) (d_y d - 1900)
    ((years_days (d_year d) + yday d + 4) mod 7) (yday d).

(** tm2posix gives the seconds since 1970 of every date, leap years
    included, when the day of the year is set; what posix2tm makes of a date
    lacks the days of the months before. *)
Theorem tm2posix_epoch (d : date) (Hd : date_ok d) :
  tm2posix (tm_of d) = epoch_of d /\
  exists t, posix2tm (epoch_of d) = Ret t /\ tm2posix t = epoch_of d - month_start (d_y d) (d_month d) * 86400.
Proof.
  pose proof (yday_range d Hd) as Hy. pose proof (years_days_closed (d_year d)) as Hc.
  pose proof (leap_366 (d_y d)) as Hlen. pose proof (years_days_lower (d_year d)) as Hlow.
  pose proof Hd as [Hyr Hm Hday Hh Hmi Hs].
  assert (Hgen : forall t, tm_sec t = d_sec d -> tm_min t = d_min d -> tm_hour t = d_hour d ->
    tm_year t = d_y d - 1900 -> 0 <= tm_yday t <= 366 ->
    tm2posix t = (years_days (d_year d) + tm_yday t) * 86400 + seconds d).
  { intros t E1 E2 E3 E4 Hyd. unfold tm2posix. rewrite E1, E2, E3, E4. unfold d_y in *.
    set (n := Z.of_nat (d_year d)) in *.
    replace (1970 + n - 1900 - 69) with (n + 1) by lia. replace (1970 + n - 1900 - 1) with (n + 69) by lia.
    replace (1970 + n - 1900 + 299) with (n + 369) by lia. replace (1970 + n - 1900 - 70) with n by lia.
    rewrite !Z.quot_div_nonneg by lia.
    assert (Hb : forall a b, 0 <= a -> 1 <= b -> 0 <= a / b <= a)
      by (intros a b Ha Hb; split; [apply Z.div_pos; lia|apply Z.div_le_upper_bound; nia]).
    pose proof (Hb (n + 1) 4 ltac:(lia) ltac:(lia)). pose proof (Hb (n + 69) 100 ltac:(lia) ltac:(lia)).
    pose proof (Hb (n + 369) 400 ltac:(lia) ltac:(lia)).
    pose proof (Z.mul_div_le (n + 69) 100 ltac:(lia)).
    settle_wraps.
    unfold seconds. lia. }
  split.
  - rewrite Hgen; [done|done..|]. simpl. lia.
  - eexists. split; [by apply posix2tm_parts|]. rewrite Hgen; [|done..|].
    + unfold epoch_of, yday. simpl. lia.
    + simpl. pose proof (month_len_bounds (d_y d) (d_month d)). lia.
Qed.

Lemma tm2posix_epoch_witness : tm2posix (tm_of (mk_date 54 1 28 12 30 45)) = 1709209845.
Proof.
  destruct (tm2posix_epoch (mk_date 54 1 28 12 30 45)) as [E _]; [split; simpl; lia|]. exact E.
Defined.
