(* ===== verification/Fmtlib.v ===== *)
(** * lib/fmt/fmtlib.c: formatters of single values

    A buffer is an array with the position of the next byte and the room that
    is left.  A formatter writes to a buffer and returns the number of bytes it
    wrote.  Values carry the 64 bits of the union and, for pointers, what they
    point to.  Doubles are the bits of the union, computed with by the
    specification of IEEE arithmetic in the standard library. *)

From S2P Require Import Prelude Mm CString Kio Time.
From Stdlib Require Import String Ascii SpecFloat.
From stdpp Require Import list.
Local Open Scope Z_scope.

Abbreviation FMTLIB_MAX_WIDTH := 256.
Abbreviation FMTLIB_MAX_TYPE_LEN := 16.
Abbreviation TEMP_BUFFER_SIZE := 257.
Abbreviation PRECISION_DEFAULT := 6.
Abbreviation PRECISION_MAX := 9.
Abbreviation FMT_FLAG_ALT := 0x01.
Abbreviation FMT_FLAG_UPPER := 0x02.
Abbreviation FMT_FLAG_SIGN := 0x04.
Abbreviation FMT_FLAG_SPACE := 0x08.
Abbreviation FMT_FLAG_ZERO := 0x10.

(** The character codes that occur below. *)
Abbreviation ch c := (Z.of_N (N_of_ascii c)).

(** ** Values and specifiers *)

Record vnode_obj := mk_vnode_obj { vno_addr : Z; vno_vfs : option Z; vno_id : Z }.

(** What a pointer argument refers to. *)
Inductive fmt_obj :=
  | Obj_none
  | Obj_chars (mem : list Z)
  | Obj_path (text : list Z)
  | Obj_str (text : option (list Z))
  | Obj_cstr (text : list Z)
  | Obj_tm (t : tm)
  | Obj_thread (pid tid : Z) (name : list Z)
  | Obj_lock (name : list Z) (flags data : Z)
  | Obj_vattr (type mode : Z)
  | Obj_vnode (vn : vnode_obj)
  | Obj_ventry (vn : option vnode_obj) (vfs_id id flags : Z) (name : option (list Z))
  | Obj_file (fd type : Z) (vn : option vnode_obj).

Record fmt_raw_value := mk_raw { rv_bits : Z; rv_obj : fmt_obj }.
Definition raw_uint64 (v : Z) : fmt_raw_value := mk_raw (u64 v) Obj_none.

Inductive fmt_align_t := FMT_ALIGN_LEFT | FMT_ALIGN_CENTER | FMT_ALIGN_RIGHT.

Inductive fmt_argtype_t :=
  | FMT_ARGTYPE_NONE | FMT_ARGTYPE_INT32 | FMT_ARGTYPE_INT64 | FMT_ARGTYPE_DOUBLE
  | FMT_ARGTYPE_SIZE | FMT_ARGTYPE_VOIDPTR.

(** The formatter functions by name. *)
Inductive fmt_formatter_t :=
  | F_signed | F_unsigned | F_binary | F_octal | F_hex | F_double | F_string | F_char
  | F_mem_quantity | F_errno | F_path_t | F_str_t | F_cstr_t | F_time_utc | F_time_unix
  | F_thread | F_lock_object | F_vtype | F_vattr | F_vnode | F_ventry | F_file.

Record fmt_spec_t := mk_spec {
  sp_type : list Z;
  sp_type_len : Z;
  sp_flags : Z;
  sp_width : Z;
  sp_precision : Z;
  sp_align : fmt_align_t;
  sp_fill : Z;
  sp_value : fmt_raw_value;
  sp_argtype : fmt_argtype_t;
  sp_formatter : option fmt_formatter_t;
}.

Definition resolved (s : fmt_spec_t) (flags : Z) (a : fmt_argtype_t) (f : option fmt_formatter_t) : fmt_spec_t :=
  mk_spec (sp_type s) (sp_type_len s) flags (sp_width s) (sp_precision s) (sp_align s) (sp_fill s)
    (sp_value s) a f.

Definition mk_fmtlib_spec_u64 (v w : Z) : fmt_spec_t :=
  mk_spec [] 0 0 w 0 FMT_ALIGN_LEFT (ch "0") (raw_uint64 v) FMT_ARGTYPE_INT64 None.
Definition mk_fmtlib_spec_pointer (p : Z) : fmt_spec_t :=
  mk_spec [] 0 FMT_FLAG_ALT 16 0 FMT_ALIGN_LEFT (ch "0") (mk_raw p Obj_none) FMT_ARGTYPE_VOIDPTR None.
Definition mk_fmtlib_spec_voidp (v : fmt_raw_value) : fmt_spec_t :=
  mk_spec [] 0 0 0 0 FMT_ALIGN_LEFT 0 v FMT_ARGTYPE_VOIDPTR None.

(** ** Buffers *)

Record fmt_buffer_t := mk_fb {
  fb_mem : list Z;
  fb_pos : Z;
  fb_size : Z;
  fb_written : Z;
}.

Definition fmtlib_buffer (data : list Z) (size : Z) : outcome fmt_buffer_t :=
  mem ← write_at data 0 (replicate (Z.to_nat size) 0);
  Ret (mk_fb mem 0 (u64 (size - 1)) 0).

Definition fmtlib_buffer_full (b : fmt_buffer_t) : bool := fb_size b =? 0.

(** Writers return the number of bytes written. *)
Abbreviation writer := (fmt_buffer_t -> outcome (Z * fmt_buffer_t)).

(** [size] bytes of [data]. *)
Definition fmtlib_buffer_write (data : list Z) (size : Z) : writer := fun b =>
  if fb_size b =? 0 then Ret (0, b)
  else
    let n := if size <? fb_size b then size else fb_size b in
    src ← read_at data 0 n;
    mem ← write_at (fb_mem b) (fb_pos b) src;
    Ret (n, mk_fb mem (fb_pos b + n) (fb_size b - n) (fb_written b + n)).

Definition fmtlib_buffer_write_char (c : Z) : writer := fun b =>
  if fb_size b =? 0 then Ret (0, b)
  else
    mem ← write_at (fb_mem b) (fb_pos b) [c];
    Ret (1, mk_fb mem (fb_pos b + 1) (fb_size b - 1) (fb_written b + 1)).

(** [n += w1; n += w2], where [w2] may depend on the count so far. *)
Definition w_none : writer := fun b => Ret (0, b).
Definition w_bind (w : writer) (f : Z -> writer) : writer := fun b =>
  '(n, b) ← w b; '(m, b) ← f n b; Ret (n + m, b).
Definition w_seq (w1 w2 : writer) : writer := w_bind w1 (fun _ => w2).
Definition w_let {A} (x : outcome A) (f : A -> writer) : writer := fun b => a ← x; f a b.
Definition w_str (s : string) : writer := fmtlib_buffer_write (bytes s) (zlen (bytes s)).
Abbreviation w_char := fmtlib_buffer_write_char.
Notation "w1 >+ w2" := (w_seq w1 w2) (at level 60, right associativity).

(** [for (i = 0; i < k; i++)] of one character, and the loop over a string. *)
Fixpoint w_repeat (k : nat) (c : Z) : writer :=
  match k with O => w_none | S k' => w_char c >+ w_repeat k' c end.
Fixpoint w_chars (s : list Z) : writer :=
  match s with [] => w_none | c :: s' => w_char c >+ w_chars s' end.

(** ** Integers *)

Record num_format := mk_num_format { nf_base : Z; nf_digits : list Z; nf_prefix : list Z }.

Abbreviation binary_format := (mk_num_format 2 (bytes "01") (bytes "0b")).
Abbreviation octal_format := (mk_num_format 8 (bytes "01234567") (bytes "0o")).
Abbreviation decimal_format := (mk_num_format 10 (bytes "0123456789") []).
Abbreviation hex_lower_format := (mk_num_format 16 (bytes "0123456789abcdef") (bytes "0x")).
Abbreviation hex_upper_format := (mk_num_format 16 (bytes "0123456789ABCDEF") (bytes "0X")).

(** The digits in the order they are produced, least significant first. *)
Fixpoint digit_chars (fuel : nat) (value base : Z) (digits : list Z) (buffer : list Z) : outcome (list Z) :=
  if 0 <? value then
    match fuel with
    | O => NoFuel
    | S f =>
        c ← load digits (value mod base);
        digit_chars f (value / base) base digits (buffer ++ [c])
    end
  else Ret buffer.

Definition swap_at (l : list Z) (i j : nat) : list Z :=
  match l !! i, l !! j with Some x, Some y => <[j := x]> (<[i := y]> l) | _, _ => l end.

(** [k] iterations from [i] on. *)
Fixpoint swap_loop (k : nat) (i n : nat) (l : list Z) : list Z :=
  match k with O => l | S k' => swap_loop k' (S i) n (swap_at l i (n - i - 1)) end.

(** The text in the intermediate buffer; a 64-bit value has at most 64 digits,
    so the buffer is never exceeded. *)
Definition u64_to_str (value : Z) (format : num_format) : outcome (list Z) :=
  if value =? 0 then Ret [ch "0"]
  else
    buffer ← digit_chars 64 value (nf_base format) (nf_digits format) [];
    let n := length buffer in
    Ret (swap_loop (n / 2) 0 n buffer).

(** The magnitude and whether a minus sign is needed; negating the least
    [int64_t] overflows. *)
Definition magnitude (spec : fmt_spec_t) (is_signed : bool) : outcome (Z * bool) :=
  if is_signed then
    let i := sint 64 (rv_bits (sp_value spec)) in
    if i =? - 2 ^ 63 then Fault
    else if i <? 0 then Ret (u64 (- i), true) else Ret (i, false)
  else Ret (rv_bits (sp_value spec), false).

Definition w_sign (negative : bool) (flags : Z) : writer :=
  if negative then w_char (ch "-")
  else if has_flag flags FMT_FLAG_SIGN then w_char (ch "+")
  else if has_flag flags FMT_FLAG_SPACE then w_char (ch " ")
  else w_none.

Definition clamp_width (w : Z) : Z := Z.min (Z.max w 0) FMTLIB_MAX_WIDTH.

Definition format_integer (spec : fmt_spec_t) (is_signed : bool) (format : num_format) : writer :=
  let width := clamp_width (sp_width spec) in
  w_let (magnitude spec is_signed) (fun '(v, is_negative) =>
  w_let (u64_to_str v format) (fun temp =>
  let len := zlen temp in
  let prec := u64 (sp_precision spec) in
  w_bind
    (w_sign is_negative (sp_flags spec) >+
     (if has_flag (sp_flags spec) FMT_FLAG_ALT then w_chars (nf_prefix format) else w_none) >+
     (if len <? prec then w_repeat (Z.to_nat (prec - len)) (ch "0") else w_none))
    (fun n =>
       (if has_flag (sp_flags spec) FMT_FLAG_ZERO && (len + n <? width)
        then w_repeat (Z.to_nat (width - len - n)) (ch "0") else w_none) >+
       fmtlib_buffer_write temp len))).

Definition format_signed (spec : fmt_spec_t) : writer := format_integer spec true decimal_format.
Definition format_unsigned (spec : fmt_spec_t) : writer := format_integer spec false decimal_format.
Definition format_binary (spec : fmt_spec_t) : writer := format_integer spec false binary_format.
Definition format_octal (spec : fmt_spec_t) : writer := format_integer spec false octal_format.
Definition format_hex (spec : fmt_spec_t) : writer :=
  if has_flag (sp_flags spec) FMT_FLAG_UPPER then format_integer spec false hex_upper_format
  else format_integer spec false hex_lower_format.

Definition fmtlib_buffer_write_u64 (value : Z) : writer :=
  w_let (u64_to_str value decimal_format) (fun temp => fmtlib_buffer_write temp (zlen temp)).

(** ** Doubles *)

Abbreviation fprec := 53.
Abbreviation femax := 1024.

(** The fields of [union double_raw]. *)
Definition dbl_frac (bits : Z) : Z := Z.land bits (Z.ones 52).
Definition dbl_exp (bits : Z) : Z := Z.land (Z.shiftr bits 52) 0x7FF.
Definition dbl_sign (bits : Z) : bool := Z.testbit bits 63.

(** The number the bits stand for. *)
Definition double_of_bits (bits : Z) : spec_float :=
  let s := dbl_sign bits in
  if dbl_exp bits =? 0x7FF then
    if dbl_frac bits =? 0 then S754_infinity s else S754_nan
  else
    let m := if dbl_exp bits =? 0 then dbl_frac bits else Z.lor (dbl_frac bits) (2 ^ 52) in
    let e := Z.max (dbl_exp bits) 1 - 1075 in
    match m with Zpos p => S754_finite s p e | _ => S754_zero s end.

(** [(double) z] and [(uint64_t) f]. *)
Definition double_of_Z (z : Z) : spec_float := binary_normalize fprec femax z 0 false.
Definition trunc_u64 (f : spec_float) : outcome Z :=
  match f with
  | S754_zero _ => Ret 0
  | S754_finite s m e =>
      let v := if 0 <=? e then Z.shiftl (Zpos m) e else Z.shiftr (Zpos m) (- e) in
      let v := if s then - v else v in
      if (0 <=? v) && (v <? 2 ^ 64) then Ret v else Fault
  | _ => Fault
  end.

Definition half : spec_float := S754_finite false (2 ^ 52)%positive (-53).

(** The whole part and the decimals as integers, rounded. *)
Definition split_double (value : spec_float) (prec : Z) : outcome (Z * Z) :=
  whole ← trunc_u64 value;
  let tmp := SFmul fprec femax (SFsub fprec femax value (double_of_Z whole)) (double_of_Z (10 ^ prec)) in
  frac ← trunc_u64 tmp;
  let delta := SFsub fprec femax tmp (double_of_Z frac) in
  if SFltb half delta then
    let frac := u64 (frac + 1) in
    if 10 ^ prec <=? frac then Ret (u64 (whole + 1), 0) else Ret (whole, frac)
  else if SFltb delta half then Ret (whole, frac)
  else if (frac =? 0) || Z.testbit frac 0 then Ret (whole, u64 (frac + 1))
  else Ret (whole, frac).

Definition format_double (spec : fmt_spec_t) : writer :=
  let bits := rv_bits (sp_value spec) in
  let flags := sp_flags spec in
  let width := clamp_width (sp_width spec) in
  let prec := Z.min (if 0 <? sp_precision spec then sp_precision spec else PRECISION_DEFAULT) PRECISION_MAX in
  w_bind
    ((if dbl_sign bits then w_char (ch "-") else w_none) >+
     (if has_flag flags FMT_FLAG_SIGN then w_char (ch "+")
      else if has_flag flags FMT_FLAG_SPACE then w_char (ch " ") else w_none))
    (fun n =>
       if (dbl_exp bits =? 0x7FF) && (dbl_frac bits =? 0) then
         w_str (if has_flag flags FMT_FLAG_UPPER then "INF" else "inf")
       else if (dbl_exp bits =? 0x7FF) && negb (dbl_frac bits =? 0) then
         w_str (if has_flag flags FMT_FLAG_UPPER then "NAN" else "nan")
       else if (dbl_exp bits =? 0) && (dbl_frac bits =? 0) then
         w_char (ch "0") >+
         (if has_flag flags FMT_FLAG_ALT then w_none
          else w_char (ch ".") >+ w_repeat (Z.to_nat prec) (ch "0"))
       else
         w_let (split_double (SFabs (double_of_bits bits)) prec) (fun '(whole, frac) =>
         let write_decimal := negb ((frac =? 0) && has_flag flags FMT_FLAG_ALT) in
         w_let (u64_to_str whole decimal_format) (fun whole_str =>
         w_let (if write_decimal then u64_to_str frac decimal_format else Ret []) (fun frac_str =>
         let temp := whole_str ++ (if write_decimal then [ch "."] else []) ++ frac_str in
         let len := zlen temp in
         let frac_len := zlen frac_str in
         (if has_flag flags FMT_FLAG_ZERO && (len + n <? width)
          then w_repeat (Z.to_nat (width - len - n)) (ch "0") else w_none) >+
         fmtlib_buffer_write temp len >+
         (if write_decimal && (frac_len <? prec)
          then w_repeat (Z.to_nat (prec - frac_len)) (ch "0") else w_none))))).

(** ** Strings and quantities *)

Definition ptr_is_null (spec : fmt_spec_t) : bool := rv_bits (sp_value spec) =? 0.

Definition format_string (spec : fmt_spec_t) : writer :=
  if ptr_is_null spec then w_str "(null)"
  else
    match rv_obj (sp_value spec) with
    | Obj_chars mem =>
        let prec := u64 (sp_precision spec) in
        if prec =? 0 then w_let (strlen mem 0) (fun len => fmtlib_buffer_write mem len)
        else fmtlib_buffer_write mem prec
    | _ => fun _ => Fault
    end.

Definition format_char (spec : fmt_spec_t) : writer :=
  let c := u8 (rv_bits (sp_value spec)) in
  if c =? 0 then fmtlib_buffer_write [ch "\"; ch "0"] 2 else fmtlib_buffer_write [c] 1.

(** Each division by 1024 moves on to the next suffix; [k] are left. *)
Fixpoint quantity_loop (k : nat) (value : Z) (index : nat) : Z * nat :=
  match k with
  | O => (value, index)
  | S k' => if 1024 <=? value then quantity_loop k' (value / 1024) (S index) else (value, index)
  end.

Definition quantity_suffix (alt upper : bool) (index : nat) : list Z :=
  let names : list string := (if alt then
      if upper then ["B"; "Ki"; "Mi"; "Gi"; "Ti"; "Pi"; "Ei"; "Zi"; "Yi"]
      else ["b"; "ki"; "mi"; "gi"; "ti"; "pi"; "ei"; "zi"; "yi"]
    else
      if upper then [EmptyString; "K"; "M"; "G"; "T"; "P"; "E"; "Z"; "Y"]
      else [EmptyString; "k"; "m"; "g"; "t"; "p"; "e"; "z"; "y"])%string in
  bytes (nth index names EmptyString).

Definition format_mem_quantity (spec : fmt_spec_t) : writer :=
  let flags := sp_flags spec in
  let '(value, index) := quantity_loop 8 (rv_bits (sp_value spec)) 0 in
  let suffix := quantity_suffix (has_flag flags FMT_FLAG_ALT) (has_flag flags FMT_FLAG_UPPER) index in
  w_let (u64_to_str value decimal_format) (fun temp =>
    fmtlib_buffer_write temp (zlen temp) >+ fmtlib_buffer_write suffix (zlen suffix)).

Definition format_path_t (spec : fmt_spec_t) : writer :=
  if ptr_is_null spec then w_str "(null)"
  else match rv_obj (sp_value spec) with
       | Obj_path text => fmtlib_buffer_write text (zlen text)
       | _ => fun _ => Fault
       end.

Definition format_str_t (spec : fmt_spec_t) : writer :=
  if ptr_is_null spec then w_str "(null str_t)"
  else match rv_obj (sp_value spec) with
       | Obj_str None => w_str "(null)"
       | Obj_str (Some text) => fmtlib_buffer_write text (zlen text)
       | _ => fun _ => Fault
       end.

Definition format_cstr_t (spec : fmt_spec_t) : writer :=
  if ptr_is_null spec then w_str "(null)"
  else match rv_obj (sp_value spec) with
       | Obj_cstr text => fmtlib_buffer_write text (zlen text)
       | _ => fun _ => Fault
       end.

(** ** Times *)

Definition format_struct_tm_utc (t : tm) : writer :=
  format_unsigned (mk_fmtlib_spec_u64 (tm_year t + 1900) 4) >+ w_char (ch "-") >+
  format_unsigned (mk_fmtlib_spec_u64 (tm_mon t + 1) 2) >+ w_char (ch "-") >+
  format_unsigned (mk_fmtlib_spec_u64 (tm_mday t) 2) >+ w_char (ch " ") >+
  format_unsigned (mk_fmtlib_spec_u64 (tm_hour t) 2) >+ w_char (ch ":") >+
  format_unsigned (mk_fmtlib_spec_u64 (tm_min t) 2) >+ w_char (ch ":") >+
  format_unsigned (mk_fmtlib_spec_u64 (tm_sec t) 2).

Definition format_time_utc (spec : fmt_spec_t) : writer :=
  if ptr_is_null spec then w_str "(null)"
  else match rv_obj (sp_value spec) with
       | Obj_tm t => format_struct_tm_utc t
       | _ => fun _ => Fault
       end.

Definition format_time_unix (spec : fmt_spec_t) : writer :=
  let epoch := rv_bits (sp_value spec) in
  if epoch =? 0 then w_str "1970-01-01 00:00:00"
  else w_let (posix2tm epoch) format_struct_tm_utc.

(** ** Kernel objects *)

Definition format_thread (spec : fmt_spec_t) : writer :=
  if ptr_is_null spec then w_str "(null)"
  else match rv_obj (sp_value spec) with
       | Obj_thread pid tid name =>
           w_char (ch "(") >+ fmtlib_buffer_write_u64 (u64 pid) >+ w_char (ch ":") >+
           fmtlib_buffer_write_u64 (u64 tid) >+
           (if 0 <? zlen name then w_char (ch ":") >+ fmtlib_buffer_write name (zlen name) else w_none) >+
           w_char (ch ")")
       | _ => fun _ => Fault
       end.

Definition w_when (b : bool) (w : writer) : writer := if b then w else w_none.

(** The lock options, in words or letters. *)
Definition w_lock_opts (upper : bool) (opts : Z) : writer :=
  if upper then
    w_when (has_flag opts 0x0100) (w_str ",debug") >+ w_when (has_flag opts 0x0200) (w_str ",noclaims") >+
    w_when (has_flag opts 0x0400) (w_str ",recurse") >+ w_when (has_flag opts 0x0800) (w_str ",sleep") >+
    w_when (has_flag opts 0x1000) (w_str ",init")
  else
    w_char (ch ":") >+
    w_when (has_flag opts 0x0100) (w_char (ch "D")) >+ w_when (has_flag opts 0x0200) (w_char (ch "N")) >+
    w_when (has_flag opts 0x0400) (w_char (ch "R")) >+ w_when (has_flag opts 0x0800) (w_char (ch "S")) >+
    w_when (has_flag opts 0x1000) (w_char (ch "i")).

(** The class names of spin locks, mutexes and reader-writer locks. *)
Definition lock_class_name (upper : bool) (class : Z) : option string :=
  if class =? 0x01 then Some (if upper then "spinlock" else "spl")%string
  else if class =? 0x02 then Some (if upper then "mutex" else "mtx")%string
  else if class =? 0x06 then Some (if upper then "rwlock" else "rwl")%string
  else None.

Definition format_lock_object (spec : fmt_spec_t) : writer :=
  let alt := has_flag (sp_flags spec) FMT_FLAG_ALT in
  let upper := has_flag (sp_flags spec) FMT_FLAG_UPPER in
  if ptr_is_null spec then w_str "(null)"
  else match rv_obj (sp_value spec) with
       | Obj_lock name flags data =>
           let ptr_flags := Z.lor (Z.lor FMT_FLAG_ALT FMT_FLAG_ZERO) (if upper then FMT_FLAG_UPPER else 0) in
           let ptr_spec := mk_spec [] 0 ptr_flags 16 0 FMT_ALIGN_LEFT 0 (sp_value spec) FMT_ARGTYPE_VOIDPTR None in
           w_str "{" >+ fmtlib_buffer_write name (zlen name) >+
           w_when (alt || (zlen name =? 0))
             (w_char (ch "<") >+ format_hex ptr_spec >+ w_char (ch ">")) >+
           w_char (ch ":") >+
           match lock_class_name upper (Z.land flags 0xFF) with
           | Some s =>
               w_str s >+ w_lock_opts upper (Z.land flags 0xFFFF) >+ w_char (ch ":") >+
               fmtlib_buffer_write_u64 (u64 data) >+ w_char (ch "}")
           | None =>
               w_str "invalid" >+ w_char (ch "<") >+ fmtlib_buffer_write_u64 (Z.land flags 0xFF) >+
               w_char (ch ">") >+ w_char (ch "}")
           end
       | _ => fun _ => Fault
       end.

(** The names of the node types, upper and lower case. *)
Definition vtype_name (upper : bool) (t : Z) : option string :=
  match t, upper with
  | 0, true => Some "V_NONE" | 0, false => Some "v_none"
  | 1, true => Some "V_REG" | 1, false => Some "v_reg"
  | 2, true => Some "V_DIR" | 2, false => Some "v_dir"
  | 3, true => Some "V_LNK" | 3, false => Some "v_lnk"
  | 4, true => Some "V_BLK" | 4, false => Some "v_blk"
  | 5, true => Some "V_CHR" | 5, false => Some "v_chr"
  | 6, true => Some "V_FIFO" | 6, false => Some "v_fifo"
  | 7, true => Some "V_SOCK" | 7, false => Some "v_sock"
  | _, _ => None
  end%string.

(** The value is narrowed to the width of the enumeration. *)
Definition format_vtype (spec : fmt_spec_t) : writer :=
  let vtype := u32 (rv_bits (sp_value spec)) in
  let upper := has_flag (sp_flags spec) FMT_FLAG_UPPER in
  match vtype_name upper vtype with
  | Some s => w_str s
  | None =>
      w_str (if upper then "INVALID VTYPE<" else "invalid vtype<") >+ fmtlib_buffer_write_u64 vtype >+
      w_char (ch ">")
  end.

Definition format_vattr (spec : fmt_spec_t) : writer :=
  if ptr_is_null spec then w_str "(null)"
  else match rv_obj (sp_value spec) with
       | Obj_vattr type mode =>
           w_char (ch "{") >+ format_vtype (mk_fmtlib_spec_u64 type 0) >+ w_char (ch ",") >+
           format_octal (mk_fmtlib_spec_u64 mode 0) >+ w_char (ch "}")
       | _ => fun _ => Fault
       end.

(** [<pointer>] with the '+' flag. *)
Definition w_address (plus : bool) (addr : Z) : writer :=
  w_when plus (w_char (ch "<") >+ format_hex (mk_fmtlib_spec_pointer addr) >+ w_char (ch ">")).

Definition w_vnode (vn : vnode_obj) : writer :=
  w_char (ch "(") >+
  match vno_vfs vn with
  | Some id => format_signed (mk_fmtlib_spec_u64 id 0)
  | None => w_str "null"
  end >+
  w_char (ch ":") >+ format_signed (mk_fmtlib_spec_u64 (vno_id vn) 0) >+ w_char (ch ")").

Definition format_vnode (spec : fmt_spec_t) : writer :=
  if ptr_is_null spec then w_str "(null)"
  else match rv_obj (sp_value spec) with
       | Obj_vnode vn => w_vnode vn >+ w_address (has_flag (sp_flags spec) FMT_FLAG_SIGN) (rv_bits (sp_value spec))
       | _ => fun _ => Fault
       end.

Definition format_ventry (spec : fmt_spec_t) : writer :=
  if ptr_is_null spec then w_str "(null)"
  else match rv_obj (sp_value spec) with
       | Obj_ventry vn vfs_id id flags name =>
           w_char (ch "(") >+
           match vn with
           | Some (mk_vnode_obj _ None _) => w_str "null"
           | _ => format_signed (mk_fmtlib_spec_u64 vfs_id 0)
           end >+
           w_char (ch ":") >+
           (if has_flag flags 0x01 then format_signed (mk_fmtlib_spec_u64 id 0) else w_str "null") >+
           w_char (ch ":") >+
           format_str_t (mk_fmtlib_spec_voidp (mk_raw 1 (Obj_str name))) >+ w_char (ch ")") >+
           w_address (has_flag (sp_flags spec) FMT_FLAG_SIGN) (rv_bits (sp_value spec))
       | _ => fun _ => Fault
       end.

Definition format_file (spec : fmt_spec_t) : writer :=
  if ptr_is_null spec then w_str "(null)"
  else match rv_obj (sp_value spec) with
       | Obj_file fd type vn =>
           w_char (ch "<") >+ format_signed (mk_fmtlib_spec_u64 fd 0) >+ w_char (ch ":") >+
           format_vtype (mk_fmtlib_spec_u64 type 0) >+ w_char (ch ":") >+
           match vn with Some vn => w_vnode vn | None => w_str "(null)" end >+ w_char (ch ">") >+
           w_address (has_flag (sp_flags spec) FMT_FLAG_SIGN) (rv_bits (sp_value spec))
       | _ => fun _ => Fault
       end.

(** ** Specifiers *)

Section errors.
(** The message of an error number; the table is indexed by constants of the
    C library's headers. *)
Variable strerror : Z -> option (list Z).

Definition format_errno (spec : fmt_spec_t) : writer :=
  let err := sint 32 (rv_bits (sp_value spec)) in
  if 0 <=? err then
    w_str "success<" >+ format_unsigned (mk_fmtlib_spec_u64 err 0) >+ w_char (ch ">")
  else
    match strerror (Z.abs err) with
    | None => w_str "{unknown error: " >+ format_signed spec >+ w_char (ch "}")
    | Some s => fmtlib_buffer_write s (zlen s)
    end.

Definition run_formatter (f : fmt_formatter_t) (spec : fmt_spec_t) : writer :=
  match f with
  | F_signed => format_signed spec
  | F_unsigned => format_unsigned spec
  | F_binary => format_binary spec
  | F_octal => format_octal spec
  | F_hex => format_hex spec
  | F_double => format_double spec
  | F_string => format_string spec
  | F_char => format_char spec
  | F_mem_quantity => format_mem_quantity spec
  | F_errno => format_errno spec
  | F_path_t => format_path_t spec
  | F_str_t => format_str_t spec
  | F_cstr_t => format_cstr_t spec
  | F_time_utc => format_time_utc spec
  | F_time_unix => format_time_unix spec
  | F_thread => format_thread spec
  | F_lock_object => format_lock_object spec
  | F_vtype => format_vtype spec
  | F_vattr => format_vattr spec
  | F_vnode => format_vnode spec
  | F_ventry => format_ventry spec
  | F_file => format_file spec
  end.

(** [str] is an array that holds at least [len] bytes. *)
Definition apply_alignment (spec : fmt_spec_t) (str : list Z) (len : Z) : writer :=
  if u64 (sp_width spec) <? len then fmtlib_buffer_write str len
  else
    let padding := Z.to_nat (u64 (sp_width spec) - len) in
    let c := sp_fill spec in
    match sp_align spec with
    | FMT_ALIGN_LEFT => fmtlib_buffer_write str len >+ w_repeat padding c
    | FMT_ALIGN_RIGHT => w_repeat padding c >+ fmtlib_buffer_write str len
    | FMT_ALIGN_CENTER =>
        w_repeat (padding / 2) c >+ fmtlib_buffer_write str len >+ w_repeat (padding - padding / 2) c
    end.

(** The character [i] of the type, which ends in a NUL. *)
Definition type_char (t : list Z) (i : nat) : Z := nth i t 0.

Definition resolve_integral_type (spec : fmt_spec_t) : option fmt_spec_t :=
  let t := sp_type spec in
  let '(argtype, n) :=
    if (type_char t 0 =? ch "l") && (type_char t 1 =? ch "l") then (FMT_ARGTYPE_INT64, 2%nat)
    else if type_char t 0 =? ch "z" then (FMT_ARGTYPE_SIZE, 1%nat)
    else (FMT_ARGTYPE_INT32, 0%nat) in
  let c := type_char t n in
  let flags := sp_flags spec in
  if c =? ch "d" then Some (resolved spec flags argtype (Some F_signed))
  else if c =? ch "u" then Some (resolved spec flags argtype (Some F_unsigned))
  else if c =? ch "b" then Some (resolved spec flags argtype (Some F_binary))
  else if c =? ch "o" then Some (resolved spec flags argtype (Some F_octal))
  else if c =? ch "X" then Some (resolved spec (Z.lor flags FMT_FLAG_UPPER) argtype (Some F_hex))
  else if c =? ch "x" then Some (resolved spec flags argtype (Some F_hex))
  else None.

(** The types of one character. *)
Definition resolve_char_type (spec : fmt_spec_t) : option fmt_spec_t :=
  let c := type_char (sp_type spec) 0 in
  let flags := sp_flags spec in
  let upper := Z.lor flags FMT_FLAG_UPPER in
  if c =? ch "F" then Some (resolved spec upper FMT_ARGTYPE_DOUBLE (Some F_double))
  else if c =? ch "f" then Some (resolved spec flags FMT_ARGTYPE_DOUBLE (Some F_double))
  else if c =? ch "s" then Some (resolved spec flags FMT_ARGTYPE_VOIDPTR (Some F_string))
  else if c =? ch "c" then Some (resolved spec flags FMT_ARGTYPE_INT32 (Some F_char))
  else if c =? ch "p" then Some (resolved spec (Z.lor flags FMT_FLAG_ALT) FMT_ARGTYPE_VOIDPTR (Some F_hex))
  else if c =? ch "M" then Some (resolved spec upper FMT_ARGTYPE_SIZE (Some F_mem_quantity))
  else None.

(** The named types, compared up to their own length, in the order of the
    tests. *)
Definition named_types : list (string * fmt_argtype_t * fmt_formatter_t) :=
  [ ("td", FMT_ARGTYPE_VOIDPTR, F_thread); ("Lo", FMT_ARGTYPE_VOIDPTR, F_lock_object);
    ("va", FMT_ARGTYPE_VOIDPTR, F_vattr); ("ve", FMT_ARGTYPE_VOIDPTR, F_ventry);
    ("vn", FMT_ARGTYPE_VOIDPTR, F_vnode); ("vt", FMT_ARGTYPE_INT32, F_vtype);
    ("err", FMT_ARGTYPE_INT32, F_errno); ("str", FMT_ARGTYPE_VOIDPTR, F_str_t);
    ("cstr", FMT_ARGTYPE_VOIDPTR, F_cstr_t); ("path", FMT_ARGTYPE_VOIDPTR, F_path_t);
    ("time", FMT_ARGTYPE_VOIDPTR, F_time_utc); ("epoc", FMT_ARGTYPE_INT64, F_time_unix);
    ("file", FMT_ARGTYPE_VOIDPTR, F_file) ]%string.

Fixpoint find_named (l : list (string * fmt_argtype_t * fmt_formatter_t)) (t : list Z)
    : option (fmt_argtype_t * fmt_formatter_t) :=
  match l with
  | [] => None
  | (name, a, f) :: l' =>
      if bool_decide (take (length (bytes name)) t = bytes name) then Some (a, f) else find_named l' t
  end.

(** Whether the type is known, and the specifier with what it resolves to. *)
Definition fmtlib_resolve_type (spec : fmt_spec_t) : bool * fmt_spec_t :=
  if sp_type_len spec =? 0 then (true, resolved spec (sp_flags spec) FMT_ARGTYPE_NONE None)
  else
    match resolve_integral_type spec with
    | Some spec' => (true, spec')
    | None =>
        match (if sp_type_len spec =? 1 then resolve_char_type spec else None) with
        | Some spec' => (true, spec')
        | None =>
            match find_named named_types (sp_type spec) with
            | Some (a, f) => (true, resolved spec (sp_flags spec) a (Some f))
            | None => (false, resolved spec (sp_flags spec) FMT_ARGTYPE_NONE None)
            end
        end
    end.

(** The length of the printf type that the characters start with. *)
Definition is_int_type (c : Z) : bool :=
  (c =? ch "d") || (c =? ch "u") || (c =? ch "b") || (c =? ch "o") || (c =? ch "x") || (c =? ch "X").

Definition fmtlib_parse_printf_type (c0 c1 c2 : Z) : Z :=
  if is_int_type c0 || (c0 =? ch "f") || (c0 =? ch "F") || (c0 =? ch "s") || (c0 =? ch "c") ||
     (c0 =? ch "p") || (c0 =? ch "M") then 1
  else if c0 =? ch "l" then (if (c1 =? ch "l") && is_int_type c2 then 3 else 0)
  else if c0 =? ch "t" then (if c1 =? ch "d" then 2 else 0)
  else if c0 =? ch "L" then (if c1 =? ch "o" then 2 else 0)
  else if c0 =? ch "z" then (if is_int_type c1 then 2 else 0)
  else if c0 =? ch "v" then
    (if (c1 =? ch "a") || (c1 =? ch "e") || (c1 =? ch "n") || (c1 =? ch "t") then 2 else 0)
  else 0.

(** With a width the value goes through an intermediate buffer. *)
Definition fmtlib_format_spec (spec : fmt_spec_t) : writer :=
  if sp_type_len spec =? 0 then apply_alignment spec [] 0
  else
    match sp_formatter spec with
    | None => w_none
    | Some f =>
        if 0 <? sp_width spec then
          fun b =>
            value ← fmtlib_buffer (replicate 257 0) TEMP_BUFFER_SIZE;
            '(n, value) ← run_formatter f spec value;
            apply_alignment spec (fb_mem value) n b
        else run_formatter f spec
    end.
End errors.
