(* ===== verification/Fmt.v ===== *)
(** * lib/fmt/fmt.c: format strings

    The format string is the list of its characters before the terminator;
    pointers into it are positions, and reading past the terminator is a
    fault.  Arguments are the values that va_arg delivers in turn. *)

From S2P Require Import Prelude Mm CString Kio Time Fmtlib.
From Stdlib Require Import String Ascii.
From stdpp Require Import list.
Local Open Scope Z_scope.

Abbreviation FMT_MAX_ARGS := 10.
Abbreviation FMT_MAX_SPECS := 30.

Definition is_alpha (c : Z) : bool := ((97 <=? c) && (c <=? 122)) || ((65 <=? c) && (c <=? 90)).
Definition is_align (c : Z) : bool := (c =? ch "<") || (c =? ch "^") || (c =? ch ">").

(** [*ptr]. *)
Definition chr (format : list Z) (ptr : Z) : outcome Z :=
  if (0 <=? ptr) && (ptr <? zlen format) then load format ptr
  else if ptr =? zlen format then Ret 0 else Fault.

Record parsed_fmt_spec_t := mk_parsed {
  ps_index : Z;
  ps_flags : Z;
  ps_width : Z;
  ps_width_is_index : bool;
  ps_precision : Z;
  ps_precision_is_index : bool;
  ps_align : fmt_align_t;
  ps_fill : Z;
  ps_type : list Z;
  ps_type_len : Z;
  ps_valid : bool;
}.

(** The value and the position after the digits; an [int] that overflows is
    undefined. *)
Fixpoint read_digits (fuel : nat) (format : list Z) (ptr value : Z) : outcome (Z * Z) :=
  c ← chr format ptr;
  if isdigit c then
    match fuel with
    | O => NoFuel
    | S f =>
        let value := value * 10 + (c - ch "0") in
        if 2 ^ 31 <=? value then Fault else read_digits f format (ptr + 1) value
    end
  else Ret (value, ptr).
Definition read_int (format : list Z) (ptr : Z) : outcome (Z * Z) :=
  read_digits (length format) format ptr 0.

(** ** Brace specifiers *)

(** The local variables of the parser; [None] as a result is the jump to
    early_exit. *)
Record parse_t := mk_parse {
  pt_ptr : Z;
  pt_flags : Z;
  pt_width : Z;
  pt_width_is_index : bool;
  pt_precision : Z;
  pt_precision_is_index : bool;
  pt_align : fmt_align_t;
  pt_fill : Z;
  pt_arg : Z;
}.
Definition at_ptr (p : parse_t) (ptr : Z) : parse_t :=
  mk_parse ptr (pt_flags p) (pt_width p) (pt_width_is_index p) (pt_precision p) (pt_precision_is_index p)
    (pt_align p) (pt_fill p) (pt_arg p).
Definition with_flag (p : parse_t) (flags : Z) (align : fmt_align_t) (fill : Z) : parse_t :=
  mk_parse (pt_ptr p + 1) flags (pt_width p) (pt_width_is_index p) (pt_precision p)
    (pt_precision_is_index p) align fill (pt_arg p).
Definition with_width (p : parse_t) (ptr width : Z) (is_index : bool) (arg : Z) : parse_t :=
  mk_parse ptr (pt_flags p) width is_index (pt_precision p) (pt_precision_is_index p)
    (pt_align p) (pt_fill p) arg.
Definition with_precision (p : parse_t) (ptr prec : Z) (is_index : bool) (arg : Z) : parse_t :=
  mk_parse ptr (pt_flags p) (pt_width p) (pt_width_is_index p) prec is_index
    (pt_align p) (pt_fill p) arg.

(** One flag character; [!] only in braces. *)
Definition flag_step (braces : bool) (p : parse_t) (c : Z) : option parse_t :=
  if c =? ch "#" then Some (with_flag p (Z.lor (pt_flags p) FMT_FLAG_ALT) (pt_align p) (pt_fill p))
  else if braces && (c =? ch "!") then
    Some (with_flag p (Z.lor (pt_flags p) FMT_FLAG_UPPER) (pt_align p) (pt_fill p))
  else if c =? ch "0" then Some (with_flag p (Z.lor (pt_flags p) FMT_FLAG_ZERO) (pt_align p) (ch "0"))
  else if c =? ch "+" then Some (with_flag p (Z.lor (pt_flags p) FMT_FLAG_SIGN) (pt_align p) (pt_fill p))
  else if c =? ch "-" then
    Some (with_flag p (Z.land (pt_flags p) (Z.lnot FMT_FLAG_ZERO)) FMT_ALIGN_RIGHT (pt_fill p))
  else if c =? ch " " then Some (with_flag p (Z.lor (pt_flags p) FMT_FLAG_SPACE) (pt_align p) (pt_fill p))
  else None.

Fixpoint flag_loop (fuel : nat) (braces : bool) (format : list Z) (p : parse_t) : outcome parse_t :=
  c ← chr format (pt_ptr p);
  match flag_step braces p c with
  | None => Ret p
  | Some p' => match fuel with O => NoFuel | S f => flag_loop f braces format p' end
  end.

(** The first position from [ptr] on that holds a brace or the terminator. *)
Fixpoint find_close (fuel : nat) (format : list Z) (ptr : Z) : outcome Z :=
  c ← chr format ptr;
  if (c =? 0) || (c =? ch "}") then Ret ptr
  else match fuel with O => NoFuel | S f => find_close f format (ptr + 1) end.

Abbreviation invalid_spec := (mk_parsed 0 0 0 false 0 false FMT_ALIGN_LEFT 0 [] 0 false).

Section brace.
Context (format : list Z) (max_args : Z).

(** CHECK_EOF: a closing brace ends the specifier, the terminator aborts. *)
Definition check_eof (p : parse_t) (done : bool) (k : parse_t -> outcome (option (parse_t * bool)))
    : outcome (option (parse_t * bool)) :=
  if done then Ret (Some (p, true))
  else
    c ← chr format (pt_ptr p);
    if c =? ch "}" then Ret (Some (p, true)) else if c =? 0 then Ret None else k p.

(** A number, or [*] with a number or the next argument: the position, the
    value, whether it is an index, and the next argument. *)
Definition parse_star (ptr arg : Z) : outcome (option (Z * Z * Z)) :=
  c ← chr format ptr;
  if c =? 0 then Ret None
  else if isdigit c then
    '(v, ptr) ← read_int format ptr;
    if max_args <=? v then Ret None else Ret (Some (ptr, v, arg))
  else if max_args <=? arg then Ret None else Ret (Some (ptr, arg, arg + 1)).

Definition parse_width (p : parse_t) : outcome (option (parse_t * bool)) :=
  c ← chr format (pt_ptr p);
  if isdigit c then
    '(v, ptr) ← read_int format (pt_ptr p);
    Ret (Some (with_width p ptr v false (pt_arg p), false))
  else if c =? ch "*" then
    r ← parse_star (pt_ptr p + 1) (pt_arg p);
    match r with
    | None => Ret None
    | Some (ptr, v, arg) => Ret (Some (with_width p ptr v true arg, false))
    end
  else Ret (Some (p, false)).

Definition parse_precision (p : parse_t) : outcome (option (parse_t * bool)) :=
  c ← chr format (pt_ptr p);
  if c =? ch "." then
    let ptr := pt_ptr p + 1 in
    c ← chr format ptr;
    if isdigit c then
      '(v, ptr) ← read_int format ptr;
      Ret (Some (with_precision p ptr v false (pt_arg p), false))
    else if c =? ch "*" then
      r ← parse_star (ptr + 1) (pt_arg p);
      match r with
      | None => Ret None
      | Some (ptr, v, arg) => Ret (Some (with_precision p ptr v true arg, false))
      end
    else Ret None
  else Ret (Some (p, false)).

(** The steps from a label on; the flag says that the type was reached. *)
Definition then_step (x : outcome (option (parse_t * bool)))
    (k : parse_t -> bool -> outcome (option (parse_t * bool))) : outcome (option (parse_t * bool)) :=
  r ← x; match r with None => Ret None | Some (p, done) => k p done end.

Definition from_width (p : parse_t) : outcome (option (parse_t * bool)) :=
  then_step (parse_width p) (fun p done => check_eof p done parse_precision).
Definition from_flags (p : parse_t) : outcome (option (parse_t * bool)) :=
  p ← flag_loop (length format) true format p; check_eof p false from_width.

Definition parse_align (p : parse_t) : outcome (option parse_t) :=
  c ← chr format (pt_ptr p);
  r ← (if c =? ch "$" then
         let ptr := pt_ptr p + 1 in
         c ← chr format ptr;
         if c =? 0 then Ret None
         else
           d ← chr format (ptr + 1);
           if is_align d then
             Ret (Some (mk_parse (ptr + 1) (pt_flags p) (pt_width p) (pt_width_is_index p) (pt_precision p)
                          (pt_precision_is_index p) (pt_align p) c (pt_arg p)))
           else Ret None
       else Ret (Some p));
  match r with
  | None => Ret None
  | Some p =>
      c ← chr format (pt_ptr p);
      Ret (Some (if c =? ch "<" then with_flag p (pt_flags p) FMT_ALIGN_LEFT (pt_fill p)
                 else if c =? ch "^" then with_flag p (pt_flags p) FMT_ALIGN_CENTER (pt_fill p)
                 else if c =? ch ">" then with_flag p (pt_flags p) FMT_ALIGN_RIGHT (pt_fill p)
                 else p))
  end.

Definition from_align (p : parse_t) : outcome (option (parse_t * bool)) :=
  check_eof p false (fun p =>
    r ← parse_align p;
    match r with None => Ret None | Some p => check_eof p false from_flags end).

(** The index, and the rest of the specifier by the quick check. *)
Definition parse_index (p : parse_t) : outcome (option (Z * Z * Z)) :=
  c ← chr format (pt_ptr p);
  if isdigit c then
    '(v, ptr) ← read_int format (pt_ptr p);
    if max_args <=? v then Ret None else Ret (Some (v, ptr, pt_arg p))
  else if max_args <=? pt_arg p then Ret None
  else Ret (Some (pt_arg p, pt_ptr p, pt_arg p + 1)).

Definition parse_fields (p : parse_t) : outcome (option (parse_t * bool)) :=
  c ← chr format (pt_ptr p);
  if is_alpha c then Ret (Some (p, true))
  else if c =? ch "0" then from_flags p
  else if isdigit c then from_width p
  else if c =? ch "." then parse_precision p
  else from_align p.

(** Up to the label parse_type: the index and the fields. *)
Definition parse_head (ptr arg_index : Z) : outcome (option (Z * parse_t)) :=
  let p := mk_parse (ptr + 1) 0 0 false 0 false FMT_ALIGN_LEFT (ch " ") arg_index in
  c ← chr format (ptr + 1);
  if c =? ch "}" then Ret (Some (0, p))
  else if c =? 0 then Ret None
  else
    r ← parse_index p;
    match r with
    | None => Ret None
    | Some (index, ptr, arg) =>
        let p := with_width p ptr 0 false arg in
        c ← chr format ptr;
        if c =? ch "}" then Ret (Some (index, p))
        else if c =? ch ":" then
          r ← parse_fields (at_ptr p (ptr + 1));
          match r with None => Ret None | Some (p, _) => Ret (Some (index, p)) end
        else Ret None
    end.

Definition max_arg (index : Z) (p : parse_t) : Z :=
  let m := if pt_width_is_index p then Z.max index (pt_width p) else index in
  if pt_precision_is_index p then Z.max m (pt_precision p) else m.

Definition finish_spec (index : Z) (p : parse_t) (type : list Z) : parsed_fmt_spec_t :=
  mk_parsed index (pt_flags p) (pt_width p) (pt_width_is_index p) (pt_precision p)
    (pt_precision_is_index p) (pt_align p) (pt_fill p) type (zlen type) true.

(** The length of the specifier, the specifier, and the argument counters. *)
Definition parse_fmt_spec (ptr arg_index arg_count : Z) : outcome (Z * parsed_fmt_spec_t * Z * Z) :=
  let early_exit :=
    e ← find_close (length format) format ptr;
    c ← chr format e;
    Ret (e - ptr + (if c =? ch "}" then 1 else 0), invalid_spec, arg_index, arg_count) in
  r ← parse_head ptr arg_index;
  match r with
  | None => early_exit
  | Some (index, p) =>
      e ← find_close (length format) format (pt_ptr p);
      c ← chr format e;
      if c =? 0 then early_exit
      else
        type ← read_at format (pt_ptr p) (e - pt_ptr p);
        Ret (e - ptr + 1, finish_spec index p type, pt_arg p, Z.max arg_count (max_arg index p + 1))
  end.

(** ** printf specifiers *)

Definition printf_width (p : parse_t) : outcome parse_t :=
  c ← chr format (pt_ptr p);
  if isdigit c then
    '(v, ptr) ← read_int format (pt_ptr p); Ret (with_width p ptr v false (pt_arg p))
  else Ret p.

(** [None] without a digit after the point. *)
Definition printf_precision (p : parse_t) : outcome (option parse_t) :=
  c ← chr format (pt_ptr p);
  if c =? ch "." then
    c ← chr format (pt_ptr p + 1);
    if isdigit c then
      '(v, ptr) ← read_int format (pt_ptr p + 1); Ret (Some (with_precision p ptr v false (pt_arg p)))
    else Ret None
  else Ret (Some p).

(** The characters at and after a position, as far as the type needs them. *)
Definition printf_type (ptr : Z) : outcome Z :=
  c0 ← chr format ptr;
  c1 ← (if c0 =? 0 then Ret 0 else chr format (ptr + 1));
  c2 ← (if (c0 =? 0) || (c1 =? 0) then Ret 0 else chr format (ptr + 2));
  Ret (fmtlib_parse_printf_type c0 c1 c2).

Definition parse_printf_spec (ptr arg_index arg_count : Z) : outcome (Z * parsed_fmt_spec_t * Z * Z) :=
  let exit (fin : Z) := Ret (fin - ptr, invalid_spec, arg_index, arg_count) in
  if max_args <=? arg_index then exit ptr
  else
    let p := mk_parse (ptr + 1) 0 0 false 0 false FMT_ALIGN_LEFT (ch " ") (arg_index + 1) in
    c ← chr format (pt_ptr p);
    if c =? 0 then exit ptr
    else
      p ← flag_loop (length format) false format p;
      c ← chr format (pt_ptr p);
      if c =? 0 then exit ptr
      else
        p ← printf_width p;
        c ← chr format (pt_ptr p);
        if c =? 0 then exit ptr
        else
          r ← printf_precision p;
          match r with
          | None => exit ptr
          | Some p =>
              n ← printf_type (pt_ptr p);
              if n =? 0 then exit (pt_ptr p + 1)
              else
                type ← read_at format (pt_ptr p) n;
                Ret (pt_ptr p + n - ptr, finish_spec arg_index p type, arg_index + 1,
                     Z.max arg_count (arg_index + 1))
          end.
End brace.

(** ** The formatter *)

(** An entry of the tables of specifiers: the parsed form, the specifier, and
    the position after it. *)
Record entry_t := mk_entry { en_parsed : parsed_fmt_spec_t; en_spec : fmt_spec_t; en_end : Z }.

Definition empty_spec : fmt_spec_t :=
  mk_spec [] 0 0 0 0 FMT_ALIGN_LEFT 0 (raw_uint64 0) FMT_ARGTYPE_NONE None.

(** The variables of fmt_format.  [fs_specs] holds the entries in use, so that
    its length is spec_index; [fs_two] is the start of the second pass, when
    there is one. *)
Record fmt_state := mk_fs {
  fs_ptr : Z;
  fs_buf : fmt_buffer_t;
  fs_n : Z;
  fs_two : option (Z * nat);
  fs_arg_index : Z;
  fs_arg_count : Z;
  fs_loaded : Z;
  fs_values : list fmt_raw_value;
  fs_argtypes : list fmt_argtype_t;
  fs_specs : list entry_t;
  fs_args : list fmt_raw_value;
}.

Definition fs_at (s : fmt_state) (ptr : Z) : fmt_state :=
  mk_fs ptr (fs_buf s) (fs_n s) (fs_two s) (fs_arg_index s) (fs_arg_count s) (fs_loaded s) (fs_values s)
    (fs_argtypes s) (fs_specs s) (fs_args s).

(** [n += w(&buf)]. *)
Definition fs_write (s : fmt_state) (w : writer) : outcome fmt_state :=
  '(m, buf) ← w (fs_buf s);
  Ret (mk_fs (fs_ptr s) buf (fs_n s + m) (fs_two s) (fs_arg_index s) (fs_arg_count s) (fs_loaded s)
         (fs_values s) (fs_argtypes s) (fs_specs s) (fs_args s)).

(** [if (single_pass) n += ...]. *)
Definition single_pass (s : fmt_state) : bool := match fs_two s with None => true | Some _ => false end.
Definition fs_write_single (s : fmt_state) (w : writer) : outcome fmt_state :=
  if single_pass s then fs_write s w else Ret s.

Definition fs_argtype (s : fmt_state) (i : Z) (t : fmt_argtype_t) : outcome fmt_state :=
  ts ← store (fs_argtypes s) i t;
  Ret (mk_fs (fs_ptr s) (fs_buf s) (fs_n s) (fs_two s) (fs_arg_index s) (fs_arg_count s) (fs_loaded s)
         (fs_values s) ts (fs_specs s) (fs_args s)).

(** The entry of the specifier at hand is the last one. *)
Definition fs_push (s : fmt_state) (e : entry_t) (ptr arg_index arg_count : Z) (two : option (Z * nat)) : fmt_state :=
  mk_fs ptr (fs_buf s) (fs_n s) two arg_index arg_count (fs_loaded s) (fs_values s) (fs_argtypes s)
    (fs_specs s ++ [e]) (fs_args s).

(** What va_arg gives for an argument of the type. *)
Definition va_value (t : fmt_argtype_t) (v : fmt_raw_value) : fmt_raw_value :=
  match t with
  | FMT_ARGTYPE_INT32 => raw_uint64 (sint 32 (rv_bits v))
  | FMT_ARGTYPE_INT64 | FMT_ARGTYPE_SIZE => raw_uint64 (rv_bits v)
  | _ => v
  end.

(** Loads the arguments up to arg_count; [k] are to be loaded. *)
Fixpoint load_args (k : nat) (s : fmt_state) : outcome fmt_state :=
  match k with
  | O => Ret s
  | S k' =>
      t ← load (fs_argtypes s) (fs_loaded s);
      '(v, args) ← match t with
                   | FMT_ARGTYPE_NONE => Ret (raw_uint64 0, fs_args s)
                   | _ => match fs_args s with
                          | [] => Fault
                          | a :: args => Ret (va_value t a, args)
                          end
                   end;
      vs ← store (fs_values s) (fs_loaded s) v;
      load_args k' (mk_fs (fs_ptr s) (fs_buf s) (fs_n s) (fs_two s) (fs_arg_index s) (fs_arg_count s)
                      (fs_loaded s + 1) vs (fs_argtypes s) (fs_specs s) args)
  end.
Definition load_all (s : fmt_state) : outcome fmt_state :=
  load_args (Z.to_nat (fs_arg_count s - fs_loaded s)) s.

(** The specifier with its value, and with width and precision from
    arguments. *)
Definition with_values (vs : list fmt_raw_value) (p : parsed_fmt_spec_t) (sp : fmt_spec_t) : outcome fmt_spec_t :=
  v ← load vs (ps_index p);
  w ← (if ps_width_is_index p then a ← load vs (ps_width p); Ret (sint 32 (rv_bits a)) else Ret (sp_width sp));
  pr ← (if ps_precision_is_index p then a ← load vs (ps_precision p); Ret (sint 32 (rv_bits a))
        else Ret (sp_precision sp));
  Ret (mk_spec (sp_type sp) (sp_type_len sp) (sp_flags sp) w pr (sp_align sp) (sp_fill sp) v
         (sp_argtype sp) (sp_formatter sp)).

(** The specifier before its type is resolved; a longer type would be
    terminated outside of its array. *)
Definition unresolved (p : parsed_fmt_spec_t) : outcome fmt_spec_t :=
  if FMTLIB_MAX_TYPE_LEN <? ps_type_len p then Fault
  else
    Ret (mk_spec (ps_type p) (ps_type_len p) (ps_flags p) (if ps_width_is_index p then 0 else ps_width p)
           (if ps_precision_is_index p then 0 else ps_precision p) (ps_align p) (ps_fill p)
           (raw_uint64 0) FMT_ARGTYPE_NONE None).

Section format.
Variable strerror : Z -> option (list Z).
Context (format : list Z) (max_args : Z).

Definition w_bad_type (p : parsed_fmt_spec_t) : writer :=
  w_str "{bad type: " >+ fmtlib_buffer_write (ps_type p) (ps_type_len p) >+ w_char (ch "}").

(** A specifier that was parsed: resolves its type and, in a single pass,
    loads the arguments and writes it. *)
Definition handle_spec (s : fmt_state) (brace : bool) (m : Z) (p : parsed_fmt_spec_t)
    (arg_index arg_count : Z) : outcome fmt_state :=
  let fin := fs_ptr s + m in
  let cur := length (fs_specs s) in
  if negb (ps_valid p) then Ret (fs_push s (mk_entry p empty_spec fin) fin arg_index arg_count (fs_two s))
  else
    let two := if single_pass s && (arg_index + 1 <? arg_count) then Some (fs_ptr s, cur) else fs_two s in
    sp ← unresolved p;
    let '(known, sp) := fmtlib_resolve_type sp in
    let s := fs_push s (mk_entry p sp fin) fin arg_index arg_count two in
    if negb known then
      s ← (if brace then fs_write_single s (w_bad_type p) else Ret s);
      fs_argtype s (ps_index p) FMT_ARGTYPE_NONE
    else
      s ← fs_argtype s (ps_index p) (sp_argtype sp);
      s ← (if ps_width_is_index p then fs_argtype s (ps_width p) FMT_ARGTYPE_INT32 else Ret s);
      s ← (if ps_precision_is_index p then fs_argtype s (ps_precision p) FMT_ARGTYPE_INT32 else Ret s);
      if negb (single_pass s) then Ret s
      else
        match sp_argtype sp with
        | FMT_ARGTYPE_NONE => fs_write s (fmtlib_format_spec strerror sp)
        | _ =>
            s ← load_all s;
            sp ← with_values (fs_values s) p sp;
            fs_write s (fmtlib_format_spec strerror sp)
        end.

(** One iteration of the first loop; with all entries in use a specifier is
    neither parsed nor passed. *)
Definition format_step (s : fmt_state) : outcome (ctl fmt_state fmt_state) :=
  let ptr := fs_ptr s in
  c ← chr format ptr;
  if (c =? 0) || fmtlib_buffer_full (fs_buf s) then Ret (Stop s)
  else if (c =? ch "{") || (c =? ch "%") then
    c1 ← chr format (ptr + 1);
    if c1 =? c then
      s ← fs_write_single s (w_char c); Ret (Next (fs_at s (ptr + 2)))
    else if FMT_MAX_SPECS <=? Z.of_nat (length (fs_specs s)) then Ret (Next s)
    else
      '(m, p, arg_index, arg_count) ←
        (if c =? ch "{" then parse_fmt_spec format max_args ptr (fs_arg_index s) (fs_arg_count s)
         else parse_printf_spec format max_args ptr (fs_arg_index s) (fs_arg_count s));
      s ← handle_spec s (c =? ch "{") m p arg_index arg_count;
      Ret (Next s)
  else if c =? ch "}" then
    s ← fs_write_single s (w_char (ch "}"));
    c1 ← chr format (ptr + 1);
    Ret (Next (fs_at s (if c1 =? ch "}" then ptr + 2 else ptr + 1)))
  else
    s ← fs_write_single s (w_char c); Ret (Next (fs_at s (ptr + 1))).

(** One iteration of the second pass, at the entry [index]. *)
Definition second_step (st : fmt_state * nat) : outcome (ctl (fmt_state * nat) fmt_state) :=
  let '(s, index) := st in
  let ptr := fs_ptr s in
  c ← chr format ptr;
  if (c =? 0) || fmtlib_buffer_full (fs_buf s) || (length (fs_specs s) <=? index)%nat then Ret (Stop s)
  else if c =? ch "{" then
    c1 ← chr format (ptr + 1);
    if c1 =? ch "{" then
      s ← fs_write s (w_char (ch "{")); Ret (Next (fs_at s (ptr + 2), index))
    else
      match fs_specs s !! index with
      | None => Fault
      | Some e =>
          if negb (ps_valid (en_parsed e)) then Ret (Next (s, S index))
          else
            sp ← with_values (fs_values s) (en_parsed e) (en_spec e);
            s ← fs_write s (fmtlib_format_spec strerror sp);
            Ret (Next (fs_at s (en_end e), S index))
      end
  else if c =? ch "}" then
    s ← fs_write s (w_char (ch "}"));
    c1 ← chr format (ptr + 1);
    Ret (Next (fs_at s (if c1 =? ch "}" then ptr + 2 else ptr + 1), index))
  else
    s ← fs_write s (w_char c); Ret (Next (fs_at s (ptr + 1), index)).

(** The rest of the format, copied. *)
Definition tail_step (s : fmt_state) : outcome (ctl fmt_state fmt_state) :=
  c ← chr format (fs_ptr s);
  if (c =? 0) || fmtlib_buffer_full (fs_buf s) then Ret (Stop s)
  else s ← fs_write s (w_char c); Ret (Next (fs_at s (fs_ptr s + 1))).

Definition second_pass (fuel : nat) (s : fmt_state) : outcome fmt_state :=
  match fs_two s with
  | None => Ret s
  | Some (start, index) =>
      s ← load_all s;
      s ← while_loop fuel second_step (fs_at s start, index);
      while_loop fuel tail_step s
  end.

(** The number of bytes written and the array after it. *)
Definition fmt_format (fuel : nat) (buffer : list Z) (size : Z) (args : list fmt_raw_value)
    : outcome (Z * list Z) :=
  buf ← fmtlib_buffer buffer size;
  let s := mk_fs 0 buf 0 None 0 0 0 (replicate 10 (raw_uint64 0)) (replicate 10 FMT_ARGTYPE_NONE) [] args in
  s ← while_loop fuel format_step s;
  s ← second_pass fuel s;
  Ret (fs_n s, fb_mem (fs_buf s)).
End format.

(** ** Callers *)

Section callers.
Variable strerror : Z -> option (list Z).

Definition fmt_write (fuel : nat) (b : fmt_buffer_t) (format : list Z) (args : list fmt_raw_value)
    : outcome (Z * fmt_buffer_t) :=
  let data := drop (Z.to_nat (fb_pos b)) (fb_mem b) in
  '(n, data) ← fmt_format strerror format FMT_MAX_ARGS fuel data (fb_size b) args;
  Ret (n, mk_fb (take (Z.to_nat (fb_pos b)) (fb_mem b) ++ data) (fb_pos b + n) (u64 (fb_size b - n))
            (fb_written b + n)).

Definition ksprintf (fuel : nat) (str format : list Z) (args : list fmt_raw_value) : outcome (Z * list Z) :=
  '(n, str) ← fmt_format strerror format FMT_MAX_ARGS fuel str (2 ^ 31 - 1) args;
  _ ← kassert (n <? 2 ^ 31 - 1);
  Ret (n, str).

Definition ksnprintf (fuel : nat) (str : list Z) (n : Z) (format : list Z) (args : list fmt_raw_value)
    : outcome (Z * list Z) :=
  fmt_format strerror format FMT_MAX_ARGS fuel str n args.
End callers.
