(* ===== verification/FmtText.v ===== *)
(** * What the formatters of lib/fmt/fmtlib.c write

    A writer [emits] a text when it appends as much of the text as the buffer
    has room for, counts those bytes and touches nothing else.  Every formatter
    emits a text, which is given for numbers and for aligned fields. *)

From S2P Require Import Prelude Mm CString Kio Time Fmtlib.
From Stdlib Require Import String Ascii SpecFloat.
From stdpp Require Import list.
Local Open Scope Z_scope.

(** ** Writers *)

Record fb_ok (b : fmt_buffer_t) : Prop := mk_fb_ok {
  fo_pos : 0 <= fb_pos b;
  fo_size : 0 <= fb_size b;
  fo_room : fb_pos b + fb_size b <= zlen (fb_mem b);
}.

(** The buffer after as much of [s] as fits. *)
Definition fb_put (b : fmt_buffer_t) (s : list Z) : fmt_buffer_t :=
  let t := take (Z.to_nat (fb_size b)) s in
  mk_fb (splice (fb_mem b) (fb_pos b) t) (fb_pos b + zlen t) (fb_size b - zlen t) (fb_written b + zlen t).

Definition fit (b : fmt_buffer_t) (s : list Z) : Z := Z.min (zlen s) (fb_size b).

Definition emits (w : writer) (s : list Z) : Prop :=
  forall b, fb_ok b -> w b = Ret (fit b s, fb_put b s).

Lemma zlen_app {A} (l k : list A) : zlen (l ++ k) = zlen l + zlen k.
Proof. unfold zlen. rewrite length_app. lia. Qed.

Lemma zlen_nonneg {A} (l : list A) : 0 <= zlen l.
Proof. unfold zlen. lia. Qed.

Lemma zlen_fit b s : fb_ok b -> zlen (take (Z.to_nat (fb_size b)) s) = fit b s.
Proof. intros [_ H _]. unfold fit, zlen. rewrite length_take. lia. Qed.

Lemma fit_range b s : fb_ok b -> 0 <= fit b s <= fb_size b.
Proof. intros [_ H _]. unfold fit. pose proof (zlen_nonneg s). lia. Qed.

Lemma splice_splice (l s t : list Z) off :
  0 <= off -> off + zlen s <= zlen l -> splice (splice l off s) (off + zlen s) t = splice l off (s ++ t).
Proof.
  intros Ho Hl. unfold splice, zlen in *.
  assert (Hlt : length (take (Z.to_nat off) l) = Z.to_nat off) by (rewrite length_take; lia).
  rewrite take_app_ge, drop_app_ge by lia. rewrite Hlt.
  replace (Z.to_nat (off + Z.of_nat (length s)) - Z.to_nat off)%nat with (length s) by lia.
  replace (Z.to_nat (off + Z.of_nat (length s)) + length t - Z.to_nat off)%nat with (length s + length t)%nat by lia.
  rewrite take_app_length, drop_app_ge by lia.
  replace (length s + length t - length s)%nat with (length t) by lia.
  rewrite drop_drop, length_app, <- !app_assoc. do 4 f_equal. lia.
Qed.

Lemma splice_nil_zlen (l : list Z) off s : 0 <= off -> off + zlen s <= zlen l -> zlen (splice l off s) = zlen l.
Proof.
  intros Ho Hl. unfold splice, zlen in *. rewrite !length_app, length_take, length_drop. lia.
Qed.

Lemma fb_put_ok b s : fb_ok b -> fb_ok (fb_put b s).
Proof.
  intros Hb. pose proof (fit_range b s Hb) as Hf. pose proof Hb as [Hp Hs Hr].
  split; simpl; rewrite ?(zlen_fit b s Hb); [lia|lia|].
  rewrite splice_nil_zlen; [lia|done|]. rewrite (zlen_fit b s Hb). lia.
Qed.

Lemma fb_put_app b s t : fb_ok b -> fb_put (fb_put b s) t = fb_put b (s ++ t) /\ fit b s + fit (fb_put b s) t = fit b (s ++ t).
Proof.
  intros Hb. pose proof (fit_range b s Hb) as Hf. pose proof Hb as [Hp Hs Hr]. split.
  - unfold fb_put at 1. simpl. rewrite (zlen_fit b s Hb).
    assert (Et : take (Z.to_nat (fb_size b)) (s ++ t) =
      take (Z.to_nat (fb_size b)) s ++ take (Z.to_nat (fb_size b - fit b s)) t).
    { rewrite take_app. f_equal. unfold fit, zlen in *.
      destruct (Z.le_gt_cases (Z.of_nat (length s)) (fb_size b)).
      - f_equal. lia.
      - replace (Z.to_nat (fb_size b) - length s)%nat with 0%nat by lia.
        replace (Z.to_nat (fb_size b - Z.min (Z.of_nat (length s)) (fb_size b))) with 0%nat by lia. done. }
    unfold fb_put. rewrite Et, zlen_app, (zlen_fit b s Hb).
    rewrite <- (zlen_fit b s Hb), splice_splice by (rewrite ?(zlen_fit b s Hb); lia).
    rewrite (zlen_fit b s Hb). f_equal; lia.
  - unfold fit. simpl. rewrite (zlen_fit b s Hb). unfold fit in *. rewrite zlen_app.
    pose proof (zlen_nonneg s). pose proof (zlen_nonneg t). lia.
Qed.

Lemma fb_put_nil b : fb_put b [] = b.
Proof.
  unfold fb_put. rewrite take_nil, splice_nil. unfold zlen. simpl. destruct b; simpl. f_equal; lia.
Qed.

Lemma fit_nil b : fb_ok b -> fit b [] = 0.
Proof. intros [_ H _]. unfold fit, zlen. simpl. lia. Qed.

Lemma emits_none : emits w_none [].
Proof. intros b Hb. unfold w_none. by rewrite fb_put_nil, fit_nil. Qed.

Lemma full_put b s : fb_ok b -> fb_size b = 0 -> fit b s = 0 /\ fb_put b s = b.
Proof.
  intros Hb H0. unfold fit, fb_put. rewrite H0. simpl. rewrite splice_nil.
  pose proof (zlen_nonneg s). split; [lia|]. destruct b; simpl in *. unfold zlen. simpl. f_equal; lia.
Qed.

(** The second writer may depend on the count of the first; when the first
    text did not fit, the buffer is full and the count does not matter. *)
Lemma emits_bind w f s t :
  emits w s -> emits (f (zlen s)) t -> (forall n, 0 <= n <= zlen s -> exists t', emits (f n) t') ->
  emits (w_bind w f) (s ++ t).
Proof.
  intros Hw Hf Hany b Hb. unfold w_bind. rewrite (Hw b Hb). simpl.
  destruct (fb_put_app b s t Hb) as [Ep Ef]. pose proof (fb_put_ok b s Hb) as Hb'.
  destruct (Z.le_gt_cases (zlen s) (fb_size b)) as [Hle|Hgt].
  - assert (fit b s = zlen s) as E by (unfold fit; lia). rewrite <- Ep, <- Ef, E. by rewrite (Hf _ Hb').
  - destruct (Hany (fit b s)) as (t' & Ht').
    { pose proof (fit_range b s Hb). unfold fit. pose proof (zlen_nonneg s). destruct Hb. lia. }
    assert (H0 : fb_size (fb_put b s) = 0) by (simpl; rewrite (zlen_fit b s Hb); unfold fit; lia).
    rewrite (Ht' _ Hb'). simpl. destruct (full_put (fb_put b s) t' Hb' H0) as [-> E1].
    destruct (full_put (fb_put b s) t Hb' H0) as [E2 E3]. rewrite <- Ep, <- Ef, E1, E2, E3. done.
Qed.

Lemma emits_seq w1 w2 s t : emits w1 s -> emits w2 t -> emits (w1 >+ w2) (s ++ t).
Proof. intros H1 H2. apply emits_bind; [done|done|eauto]. Qed.

Lemma emits_let {A} (x : outcome A) a f s : x = Ret a -> emits (f a) s -> emits (w_let x f) s.
Proof. intros -> H b Hb. unfold w_let. simpl. by apply H. Qed.

Lemma take_zlen (data : list Z) n : 0 <= n <= zlen data -> zlen (take (Z.to_nat n) data) = n.
Proof. intros H. unfold zlen in *. rewrite length_take. lia. Qed.

Lemma emits_write data n : 0 <= n <= zlen data -> emits (fmtlib_buffer_write data n) (take (Z.to_nat n) data).
Proof.
  intros Hn b Hb. pose proof Hb as [Hp Hs Hr]. unfold fmtlib_buffer_write.
  destruct (Z.eqb_spec (fb_size b) 0) as [E|Hne].
  { destruct (full_put b (take (Z.to_nat n) data) Hb E) as [-> ->]. done. }
  set (k := if n <? fb_size b then n else fb_size b).
  assert (Hk : k = fit b (take (Z.to_nat n) data)).
  { unfold k, fit. rewrite take_zlen by done. destruct (Z.ltb_spec n (fb_size b)); lia. }
  assert (Hkn : 0 <= k <= n /\ k <= fb_size b) by (unfold k; destruct (Z.ltb_spec n (fb_size b)); lia).
  rewrite read_at_slice by lia. simpl.
  assert (Es : slice data 0 k = take (Z.to_nat (fb_size b)) (take (Z.to_nat n) data)).
  { unfold slice. rewrite drop_0, take_take. f_equal. unfold k. destruct (Z.ltb_spec n (fb_size b)); lia. }
  assert (Hzl : zlen (slice data 0 k) = k) by (rewrite Es, (zlen_fit b _ Hb); done).
  rewrite write_at_splice by lia. simpl. unfold fb_put. rewrite <- Es, Hzl, Hk. done.
Qed.

Lemma emits_all data : emits (fmtlib_buffer_write data (zlen data)) data.
Proof.
  pose proof (emits_write data (zlen data)) as H. pose proof (zlen_nonneg data).
  rewrite take_ge in H by (unfold zlen; lia). apply H. lia.
Qed.

Lemma emits_str s : emits (w_str s) (bytes s).
Proof. apply emits_all. Qed.

Lemma emits_char c : emits (w_char c) [c].
Proof.
  intros b Hb. pose proof Hb as [Hp Hs Hr]. unfold fmtlib_buffer_write_char.
  destruct (Z.eqb_spec (fb_size b) 0) as [E|Hne]; [by destruct (full_put b [c] Hb E) as [-> ->]|].
  rewrite write_at_splice by (unfold zlen in *; simpl; lia). simpl.
  unfold fit, fb_put. rewrite take_ge by (simpl; lia). unfold zlen. simpl. rewrite Z.min_l by lia. done.
Qed.

Lemma emits_repeat k c : emits (w_repeat k c) (replicate k c).
Proof.
  induction k as [|k IH]; [apply emits_none|]. simpl. apply (emits_seq _ _ [c]); [apply emits_char|done].
Qed.

Lemma emits_chars s : emits (w_chars s) s.
Proof.
  induction s as [|c s IH]; [apply emits_none|]. simpl. apply (emits_seq _ _ [c]); [apply emits_char|done].
Qed.

Lemma emits_when b w s : emits w s -> emits (w_when b w) (if b then s else []).
Proof. destruct b; [done|]. intros _. apply emits_none. Qed.

Create HintDb fmt.
#[export] Hint Resolve emits_none emits_all emits_str emits_char emits_repeat emits_chars emits_when : fmt.

(** ** Digits *)

(** The digits of a number, most significant first; 0 has none. *)
Fixpoint num_digits (fuel : nat) (base v : Z) : list Z :=
  match fuel with
  | O => []
  | S f => if v =? 0 then [] else num_digits f base (v / base) ++ [v mod base]
  end.

Definition digit_char (digits : list Z) (d : Z) : Z := nth (Z.to_nat d) digits 0.
Definition num_text (format : num_format) (v : Z) : list Z :=
  if v =? 0 then [ch "0"] else digit_char (nf_digits format) <$> num_digits 64 (nf_base format) v.

(** A number of [fuel] binary places has at most as many digits. *)
Lemma div_shrinks base v k : 2 <= base -> 0 <= v < 2 ^ Z.of_nat (S k) -> 0 <= v / base < 2 ^ Z.of_nat k.
Proof.
  intros Hb Hv. rewrite Nat2Z.inj_succ, Z.pow_succ_r in Hv by lia. split; [apply Z.div_pos; lia|].
  apply Z.div_lt_upper_bound; nia.
Qed.

Lemma num_digits_value base k : forall v,
  2 <= base -> 0 <= v < 2 ^ Z.of_nat k ->
  value base (num_digits k base v) = v /\ Forall (fun d => 0 <= d < base) (num_digits k base v).
Proof.
  induction k as [|k IH]; intros v Hb Hv; cbn [num_digits].
  - simpl in Hv. split; [unfold value; simpl; lia|constructor].
  - destruct (Z.eqb_spec v 0) as [->|Hne]; [by split; [done|constructor]|].
    destruct (IH (v / base) Hb (div_shrinks base v k Hb Hv)) as [Hval Hall]. split.
    + unfold value in *. rewrite fold_left_app, Hval. simpl. pose proof (Z.div_mod v base ltac:(lia)). lia.
    + apply Forall_app. split; [done|]. constructor; [apply Z.mod_pos_bound; lia|constructor].
Qed.

Lemma num_digits_length base k v : (length (num_digits k base v) <= k)%nat.
Proof.
  revert v. induction k as [|k IH]; intros v; cbn [num_digits]; [done|]. case_test; simpl; [lia|].
  rewrite length_app. specialize (IH (v / base)). simpl. lia.
Qed.

Lemma num_digits_pos k base v : v <> 0 -> (0 < length (num_digits (S k) base v))%nat.
Proof. intros Hv. cbn [num_digits]. rewrite (proj2 (Z.eqb_neq v 0)), length_app by done. simpl. lia. Qed.

Record format_ok (format : num_format) : Prop := mk_format_ok {
  fmo_base : 2 <= nf_base format;
  fmo_digits : zlen (nf_digits format) = nf_base format;
}.

Lemma decimal_ok : format_ok decimal_format. Proof. by split. Qed.
Lemma binary_ok : format_ok binary_format. Proof. by split. Qed.
Lemma octal_ok : format_ok octal_format. Proof. by split. Qed.
Lemma hex_lower_ok : format_ok hex_lower_format. Proof. by split. Qed.
Lemma hex_upper_ok : format_ok hex_upper_format. Proof. by split. Qed.
#[export] Hint Resolve decimal_ok binary_ok octal_ok hex_lower_ok hex_upper_ok : fmt.

Lemma digit_chars_ok format k : format_ok format -> forall v acc,
  0 <= v < 2 ^ Z.of_nat k ->
  digit_chars k v (nf_base format) (nf_digits format) acc =
    Ret (acc ++ reverse (digit_char (nf_digits format) <$> num_digits k (nf_base format) v)).
Proof.
  intros [Hb Hd]. induction k as [|k IH]; intros v acc Hv; cbn [digit_chars num_digits].
  - simpl in Hv. rewrite (proj2 (Z.ltb_ge _ _)) by lia. by rewrite app_nil_r.
  - destruct (Z.eqb_spec v 0) as [->|Hne]; [by rewrite app_nil_r|].
    rewrite (proj2 (Z.ltb_lt _ _)) by lia. pose proof (Z.mod_pos_bound v (nf_base format) ltac:(lia)) as Hm.
    destruct (load_in_range (nf_digits format) (v mod nf_base format)) as (c & -> & Hc); [unfold zlen in Hd; lia|].
    simpl. rewrite IH by (by apply div_shrinks). f_equal. rewrite fmap_app, reverse_app. simpl.
    rewrite <- app_assoc. simpl. do 2 f_equal. unfold digit_char. by rewrite (nth_lookup_Some _ _ _ _ Hc).
Qed.

#[global] Arguments num_digits : simpl never.
#[global] Arguments digit_chars : simpl never.

Lemma swap_at_ends (p m s : list Z) x y :
  length p = length s -> swap_at (p ++ (x :: m ++ [y]) ++ s) (length p)
    (length (p ++ (x :: m ++ [y]) ++ s) - length p - 1) = p ++ (y :: m ++ [x]) ++ s.
Proof.
  intros Hl. set (l := p ++ (x :: m ++ [y]) ++ s).
  assert (Hj : (length l - length p - 1 = length (p ++ x :: m))%nat)
    by (unfold l; rewrite !length_app; simpl; rewrite !length_app; simpl; lia).
  rewrite Hj. unfold swap_at.
  assert (Hx : l !! length p = Some x) by (unfold l; simpl; by rewrite list_lookup_middle).
  assert (El : l = (p ++ x :: m) ++ y :: s) by (unfold l; simpl; rewrite <- !app_assoc; done).
  assert (Hy : l !! length (p ++ x :: m) = Some y) by (rewrite El; by rewrite list_lookup_middle).
  rewrite Hx, Hy. unfold l. simpl. rewrite <- app_assoc. simpl.
  rewrite insert_app_r_alt, Nat.sub_diag by done. simpl.
  rewrite (insert_app_r_alt p) by (rewrite length_app; simpl; lia).
  replace (length (p ++ x :: m) - length p)%nat with (S (length m)) by (rewrite length_app; simpl; lia). simpl.
  rewrite insert_app_r_alt, Nat.sub_diag by done. simpl. by rewrite <- app_assoc.
Qed.

(** The loop reverses the middle part. *)
Lemma swap_loop_reverse k : forall (p m s : list Z),
  length p = length s -> k = (length m / 2)%nat ->
  swap_loop k (length p) (length (p ++ m ++ s)) (p ++ m ++ s) = p ++ reverse m ++ s.
Proof.
  induction k as [|k IH]; intros p m s Hl Hk.
  - simpl. f_equal. f_equal. destruct m as [|x [|y m]]; [done|done|]. cbn [length] in Hk.
    assert (1 <= S (S (length m)) / 2)%nat by (apply Nat.div_le_lower_bound; lia). lia.
  - destruct m as [|x m]; [done|]. destruct m as [|y m _] using rev_ind; [done|].
    cbn [swap_loop]. rewrite (swap_at_ends p m s x y Hl).
    assert (Hk' : k = (length m / 2)%nat).
    { cbn [length] in Hk. rewrite length_app in Hk. simpl length in Hk.
      replace (S (length m + 1)) with (length m + 1 * 2)%nat in Hk by lia. rewrite Nat.div_add in Hk by lia. lia. }
    specialize (IH (p ++ [y]) m (x :: s)). rewrite <- !app_assoc in IH. simpl in IH.
    rewrite length_app in IH. simpl in IH. rewrite Nat.add_1_r in IH.
    rewrite reverse_cons, reverse_app. simpl. rewrite <- !app_assoc. simpl. rewrite <- IH by first [exact Hk'|simpl; lia].
    f_equal. rewrite !length_app. simpl. rewrite !length_app. simpl. lia.
Qed.

Lemma swap_loop_rev l : swap_loop (length l / 2) 0 (length l) l = reverse l.
Proof.
  pose proof (swap_loop_reverse (length l / 2) [] l [] eq_refl eq_refl) as H. simpl in H.
  by rewrite !app_nil_r in H.
Qed.

Lemma u64_to_str_text format v : format_ok format -> fits 64 v -> u64_to_str v format = Ret (num_text format v).
Proof.
  intros Hf Hv. unfold u64_to_str, num_text. destruct (Z.eqb_spec v 0) as [->|Hne]; [done|].
  rewrite (digit_chars_ok format 64 Hf v []) by exact Hv. cbn [mbind outcome_bind]. rewrite app_nil_l, swap_loop_rev. by rewrite reverse_involutive.
Qed.

Lemma num_text_length format v : 0 < zlen (num_text format v) <= 64.
Proof.
  unfold num_text, zlen. destruct (Z.eqb_spec v 0) as [->|Hne]; [simpl; lia|].
  rewrite length_fmap. pose proof (num_digits_length (nf_base format) 64 v).
  pose proof (num_digits_pos 63 (nf_base format) v Hne). lia.
Qed.

(** ** Integers *)

Definition zeros (k : Z) : list Z := replicate (Z.to_nat k) (ch "0").

Definition sign_chars (negative : bool) (flags : Z) : list Z :=
  if negative then [ch "-"] else if has_flag flags FMT_FLAG_SIGN then [ch "+"]
  else if has_flag flags FMT_FLAG_SPACE then [ch " "] else [].

(** Sign, prefix, zeros up to the precision, zeros up to the width, digits. *)
Definition int_text (spec : fmt_spec_t) (format : num_format) (v : Z) (negative : bool) : list Z :=
  let flags := sp_flags spec in
  let digits := num_text format v in
  let head := sign_chars negative flags ++ (if has_flag flags FMT_FLAG_ALT then nf_prefix format else []) ++
              zeros (u64 (sp_precision spec) - zlen digits) in
  head ++ (if has_flag flags FMT_FLAG_ZERO then zeros (clamp_width (sp_width spec) - zlen digits - zlen head) else []) ++
  digits.

Lemma emits_sign negative flags : emits (w_sign negative flags) (sign_chars negative flags).
Proof. unfold w_sign, sign_chars. repeat case_test; auto with fmt. Qed.

(** Zeros are written when their number is positive. *)
Lemma emits_zeros (b : bool) k :
  emits (if b && (0 <? k) then w_repeat (Z.to_nat k) (ch "0") else w_none) (if b then zeros k else []).
Proof.
  destruct b; simpl; [|apply emits_none]. destruct (Z.ltb_spec 0 k); [apply emits_repeat|].
  unfold zeros. replace (Z.to_nat k) with 0%nat by lia. apply emits_none.
Qed.

Lemma zeros_test (b : bool) x y k : k = y - x -> b && (x <? y) = b && (0 <? k).
Proof. intros ->. f_equal. destruct (Z.ltb_spec x y), (Z.ltb_spec 0 (y - x)); done || lia. Qed.

Lemma emits_format_integer spec is_signed format v negative :
  format_ok format -> magnitude spec is_signed = Ret (v, negative) -> fits 64 v ->
  emits (format_integer spec is_signed format) (int_text spec format v negative).
Proof.
  intros Hf Hm Hv. unfold format_integer. apply (emits_let _ (v, negative)); [done|]. cbv beta iota.
  apply (emits_let _ (num_text format v)); [by apply u64_to_str_text|]. cbv beta zeta.
  set (digits := num_text format v). set (prec := u64 (sp_precision spec)). unfold int_text. fold digits prec.
  set (head := sign_chars negative (sp_flags spec) ++ _). apply emits_bind.
  - apply emits_seq; [apply emits_sign|]. apply emits_seq; [case_test; auto with fmt|].
    pose proof (emits_zeros true (prec - zlen digits)) as H.
    rewrite <- (zeros_test true (zlen digits) prec) in H by done. exact H.
  - apply emits_seq; [|apply emits_all].
    rewrite (zeros_test _ _ _ (clamp_width (sp_width spec) - zlen digits - zlen head)) by lia. apply emits_zeros.
  - intros n _. eexists. apply emits_seq; [|apply emits_all].
    rewrite (zeros_test _ _ _ (clamp_width (sp_width spec) - zlen digits - n)) by lia. apply emits_zeros.
Qed.

(** The magnitude of a 64-bit value. *)
Definition bits_ok (spec : fmt_spec_t) : Prop := fits 64 (rv_bits (sp_value spec)).

Lemma magnitude_unsigned spec : magnitude spec false = Ret (rv_bits (sp_value spec), false).
Proof. done. Qed.

Lemma magnitude_signed spec :
  sint 64 (rv_bits (sp_value spec)) <> - 2 ^ 63 ->
  magnitude spec true = Ret (Z.abs (sint 64 (rv_bits (sp_value spec))), sint 64 (rv_bits (sp_value spec)) <? 0) /\
  fits 64 (Z.abs (sint 64 (rv_bits (sp_value spec)))).
Proof.
  intros Hne. unfold magnitude. rewrite (proj2 (Z.eqb_neq _ _)) by done.
  set (i := sint 64 (rv_bits (sp_value spec))) in *.
  assert (Hi : - 2 ^ 63 < i < 2 ^ 63).
  { unfold i, sint in *. pose proof (wrap_range 64 (rv_bits (sp_value spec)) ltac:(lia)) as Hw. unfold fits in Hw.
    change (64 - 1) with 63 in *. destruct (Z.ltb_spec (wrap 64 (rv_bits (sp_value spec))) (2 ^ 63)); lia. }
  split; [|unfold fits; lia]. destruct (Z.ltb_spec i 0).
  - rewrite wrap_small by (unfold fits; lia). do 2 f_equal. lia.
  - do 2 f_equal. lia.
Qed.

Lemma emits_unsigned spec format :
  format_ok format -> bits_ok spec ->
  emits (format_integer spec false format) (int_text spec format (rv_bits (sp_value spec)) false).
Proof. intros Hf Hb. by apply emits_format_integer. Qed.

Lemma emits_hex spec : bits_ok spec ->
  emits (format_hex spec) (int_text spec (if has_flag (sp_flags spec) FMT_FLAG_UPPER then hex_upper_format else hex_lower_format)
    (rv_bits (sp_value spec)) false).
Proof. intros Hb. unfold format_hex. case_test; apply emits_unsigned; auto with fmt. Qed.

Lemma emits_u64 v : fits 64 v -> emits (fmtlib_buffer_write_u64 v) (num_text decimal_format v).
Proof. intros Hv. eapply emits_let; [by apply u64_to_str_text; auto with fmt|]. apply emits_all. Qed.

(** The texts of the specifiers made for parts of kernel objects. *)
Lemma bits_ok_u64 v w : bits_ok (mk_fmtlib_spec_u64 v w).
Proof. unfold bits_ok. simpl. by apply wrap_range. Qed.
Lemma spec_u64_fits v w : fits 64 (rv_bits (sp_value (mk_fmtlib_spec_u64 v w))).
Proof. simpl. by apply wrap_range. Qed.
#[export] Hint Resolve bits_ok_u64 emits_u64 : fmt.

(** ** Every formatter emits a text *)

Definition some_text (w : writer) : Prop := exists s, emits w s.

Lemma st_none : some_text w_none. Proof. eexists. apply emits_none. Qed.
Lemma st_char c : some_text (w_char c). Proof. eexists. apply emits_char. Qed.
Lemma st_str s : some_text (w_str s). Proof. eexists. apply emits_str. Qed.
Lemma st_all l : some_text (fmtlib_buffer_write l (zlen l)). Proof. eexists. apply emits_all. Qed.
Lemma st_repeat k c : some_text (w_repeat k c). Proof. eexists. apply emits_repeat. Qed.
Lemma st_seq w1 w2 : some_text w1 -> some_text w2 -> some_text (w1 >+ w2).
Proof. intros [s Hs] [t Ht]. eexists. by apply emits_seq. Qed.
Lemma st_if (b : bool) w1 w2 : some_text w1 -> some_text w2 -> some_text (if b then w1 else w2).
Proof. by destruct b. Qed.
Lemma st_when b w : some_text w -> some_text (w_when b w).
Proof. intros H. apply st_if; [done|apply st_none]. Qed.
Lemma st_let {A} (x : outcome A) a f : x = Ret a -> some_text (f a) -> some_text (w_let x f).
Proof. intros E [s Hs]. exists s. by apply (emits_let x a). Qed.
Lemma st_bind w f : some_text w -> (forall n, some_text (f n)) -> some_text (w_bind w f).
Proof.
  intros [s Hs] Hf. destruct (Hf (zlen s)) as [t Ht]. eexists. apply emits_bind; [done|done|]. intros n _. apply Hf.
Qed.
Lemma st_u64 v : fits 64 v -> some_text (fmtlib_buffer_write_u64 v).
Proof. intros H. eexists. by apply emits_u64. Qed.
Lemma st_unsigned spec format : format_ok format -> bits_ok spec -> some_text (format_integer spec false format).
Proof. intros Hf Hb. eexists. by apply emits_unsigned. Qed.
Lemma st_hex spec : bits_ok spec -> some_text (format_hex spec).
Proof. intros H. eexists. by apply emits_hex. Qed.
Lemma st_signed spec : sint 64 (rv_bits (sp_value spec)) <> - 2 ^ 63 -> some_text (format_signed spec).
Proof. intros H. destruct (magnitude_signed spec H) as [Hm Hf]. eexists. eapply emits_format_integer; eauto with fmt. Qed.

Lemma sint64_u64 v : - 2 ^ 63 <= v < 2 ^ 63 -> sint 64 (u64 v) = v.
Proof.
  intros Hv. unfold sint. rewrite wrap_idem by done. change (64 - 1) with 63. destruct (Z.le_gt_cases 0 v).
  - rewrite wrap_small by (unfold fits; lia). by rewrite (proj2 (Z.ltb_lt _ _)) by lia.
  - assert (wrap 64 v = v + 2 ^ 64) as -> by (unfold wrap; rewrite <- (Z.mod_add _ 1) by lia; apply Z.mod_small; lia).
    rewrite (proj2 (Z.ltb_ge _ _)) by lia. lia.
Qed.

Lemma sint32_range v : - 2 ^ 31 <= sint 32 v < 2 ^ 31.
Proof.
  unfold sint. pose proof (wrap_range 32 v ltac:(lia)) as H. unfold fits in H. change (32 - 1) with 31. case_test; zbool; lia.
Qed.

Definition int_id (v : Z) : Prop := - 2 ^ 31 <= v < 2 ^ 31.

Lemma int_id_signed v w : int_id v -> sint 64 (rv_bits (sp_value (mk_fmtlib_spec_u64 v w))) <> - 2 ^ 63.
Proof. unfold int_id. intros Hv. simpl. rewrite sint64_u64; lia. Qed.

Lemma st_id v w : int_id v -> some_text (format_signed (mk_fmtlib_spec_u64 v w)).
Proof. intros H. by apply st_signed, int_id_signed. Qed.

Lemma st_u64_spec v w format : format_ok format -> some_text (format_integer (mk_fmtlib_spec_u64 v w) false format).
Proof. intros H. apply st_unsigned; auto with fmt. Qed.

#[export] Hint Resolve st_none st_char st_str st_all st_repeat st_seq st_if st_when st_u64 st_unsigned st_hex st_id
  st_u64_spec : fmt.

(** *** What the formatters ask of their arguments *)

Definition vnode_ok (vn : vnode_obj) : Prop :=
  int_id (vno_id vn) /\ match vno_vfs vn with Some id => int_id id | None => True end.

(** The bytes that a string argument lets be read. *)
Definition chars_ok (mem : list Z) (prec : Z) : Prop :=
  (prec = 0 /\ exists n, strlen mem 0 = Ret n /\ 0 <= n <= zlen mem) \/ (0 < prec <= zlen mem).

Definition double_ok (spec : fmt_spec_t) : Prop :=
  forall prec, 0 < prec <= 9 -> exists whole frac,
    split_double (SFabs (double_of_bits (rv_bits (sp_value spec)))) prec = Ret (whole, frac) /\
    fits 64 whole /\ fits 64 frac.

Section arguments.
Context (strerror : Z -> option (list Z)).

Definition arg_ok (f : fmt_formatter_t) (spec : fmt_spec_t) : Prop :=
  bits_ok spec /\
  let obj := rv_obj (sp_value spec) in
  match f with
  | F_signed | F_errno => sint 64 (rv_bits (sp_value spec)) <> - 2 ^ 63
  | F_double => double_ok spec
  | F_string => ptr_is_null spec = true \/ exists mem, obj = Obj_chars mem /\ chars_ok mem (u64 (sp_precision spec))
  | F_path_t => ptr_is_null spec = true \/ exists t, obj = Obj_path t
  | F_str_t => ptr_is_null spec = true \/ exists t, obj = Obj_str t
  | F_cstr_t => ptr_is_null spec = true \/ exists t, obj = Obj_cstr t
  | F_time_utc => ptr_is_null spec = true \/ exists t, obj = Obj_tm t
  | F_thread => ptr_is_null spec = true \/ exists p t n, obj = Obj_thread p t n
  | F_lock_object => ptr_is_null spec = true \/ exists n fl d, obj = Obj_lock n fl d /\ 0 <= fl
  | F_vattr => ptr_is_null spec = true \/ exists t m, obj = Obj_vattr t m
  | F_vnode => ptr_is_null spec = true \/ exists vn, obj = Obj_vnode vn /\ vnode_ok vn
  | F_ventry => ptr_is_null spec = true \/
      exists vn fid id fl n, obj = Obj_ventry vn fid id fl n /\ int_id fid /\ int_id id
  | F_file => ptr_is_null spec = true \/
      exists fd t vn, obj = Obj_file fd t vn /\ int_id fd /\ match vn with Some v => vnode_ok v | None => True end
  | _ => True
  end.

Lemma year_loop_total fuel : forall days year,
  0 <= days -> days / 365 < Z.of_nat fuel -> exists d y, year_loop fuel days year = Ret (d, y) /\ 0 <= d < 366.
Proof.
  induction fuel as [|fuel IH]; intros days year Hd Hf.
  - assert (0 <= days / 365) by (apply Z.div_pos; lia). lia.
  - cbn [year_loop]. destruct (Z.leb_spec 365 days); [|exists days, year; split; [done|lia]].
    assert (Hq : forall k, 365 <= k <= days -> (days - k) / 365 < Z.of_nat fuel).
    { intros k Hk. apply Z.div_lt_upper_bound; [lia|]. pose proof (Z.mod_pos_bound days 365 ltac:(lia)).
      pose proof (Z.div_mod days 365 ltac:(lia)). lia. }
    destruct (leap year); [destruct (Z.leb_spec 366 days)|].
    + apply IH; [lia|]. apply Hq. lia.
    + exists days, year. split; [done|lia].
    + apply IH; [lia|]. apply Hq. lia.
Qed.

Lemma month_loop_total fuel : forall year month days acc,
  0 <= days < 28 * Z.of_nat fuel -> exists r, month_loop fuel year month days acc = Ret r.
Proof.
  induction fuel as [|fuel IH]; intros year month days acc Hd; [lia|]. cbn [month_loop].
  destruct (Z.leb_spec 28 days); [|eauto].
  assert (28 <= month_test year month) by (unfold month_test; repeat case_test; lia).
  destruct (Z.leb_spec (month_test year month) days); [|eauto]. apply IH. lia.
Qed.

Lemma posix2tm_total epoch : 0 <= epoch -> exists t, posix2tm epoch = Ret t.
Proof.
  intros He. assert (0 <= epoch / 86400) by (apply Z.div_pos; lia).
  destruct (year_loop_total (S (Z.to_nat (epoch / 86400 / 365))) (epoch / 86400) 1970) as (d & y & Hy & Hd).
  - done.
  - rewrite Nat2Z.inj_succ, Z2Nat.id by (apply Z.div_pos; lia). lia.
  - destruct (month_loop_total 14 y 0 d 0) as ([[m d'] md] & Hm); [lia|].
    unfold posix2tm. rewrite Hy. cbn [mbind outcome_bind]. rewrite Hm. eexists. done.
Qed.

Lemma st_tm t : some_text (format_struct_tm_utc t).
Proof. unfold format_struct_tm_utc, format_unsigned. auto 20 with fmt. Qed.

Lemma st_vnode vn : vnode_ok vn -> some_text (w_vnode vn).
Proof. intros [Hi Hv]. unfold w_vnode. destruct (vno_vfs vn); auto 10 with fmt. Qed.

Lemma st_address plus a : fits 64 a -> some_text (w_address plus a).
Proof. intros Ha. unfold w_address. apply st_when. auto 10 with fmt. Qed.

Lemma st_double spec : bits_ok spec -> double_ok spec -> some_text (format_double spec).
Proof.
  intros Hb Hd. unfold format_double. apply st_bind; [auto with fmt|]. intros n.
  set (prec := Z.min _ _). assert (Hp : 0 < prec <= 9).
  { unfold prec. destruct (Z.ltb_spec 0 (sp_precision spec)); lia. }
  destruct (Hd prec Hp) as (whole & frac & E & Hw & Hf).
  apply st_if; [auto with fmt|]. apply st_if; [auto with fmt|]. apply st_if; [auto with fmt|].
  eapply st_let; [exact E|]. cbv beta iota zeta.
  eapply st_let; [apply u64_to_str_text; auto with fmt|]. cbv beta.
  apply (st_let _ (if negb ((frac =? 0) && has_flag (sp_flags spec) FMT_FLAG_ALT) then num_text decimal_format frac else [])).
  - case_test; [|done]. apply u64_to_str_text; auto with fmt.
  - cbv beta. auto 10 with fmt.
Qed.

Lemma quantity_loop_fits k : forall v i, fits 64 v -> fits 64 (quantity_loop k v i).1.
Proof.
  induction k as [|k IH]; intros v i Hv; simpl; [done|]. case_test; [|done]. apply IH.
  unfold fits in *. split; [apply Z.div_pos; lia|]. apply Z.div_lt_upper_bound; lia.
Qed.

Lemma st_quantity spec : bits_ok spec -> some_text (format_mem_quantity spec).
Proof.
  intros Hb. unfold format_mem_quantity. pose proof (quantity_loop_fits 8 _ 0 Hb) as Hf.
  destruct (quantity_loop 8 _ 0) as [v i]. eapply st_let; [apply u64_to_str_text; [auto with fmt|exact Hf]|]. auto with fmt.
Qed.

Lemma st_lock spec name flags data :
  bits_ok spec -> rv_obj (sp_value spec) = Obj_lock name flags data -> 0 <= flags -> some_text (format_lock_object spec).
Proof.
  intros Hb Ho Hf. unfold format_lock_object. apply st_if; [auto with fmt|]. rewrite Ho. cbv zeta.
  assert (Hc : fits 64 (Z.land flags 0xFF)).
  { change 0xFF with (Z.ones 8). rewrite Z.land_ones by lia.
    pose proof (Z.mod_pos_bound flags (2 ^ 8) ltac:(lia)). unfold fits. lia. }
  assert (Hd : fits 64 (u64 data)) by by apply wrap_range.
  do 4 (apply st_seq; [auto 10 with fmt|]).
  destruct (lock_class_name _ _); [|auto 10 with fmt]. apply st_seq; [auto with fmt|].
  apply st_seq; [unfold w_lock_opts; apply st_if; auto 20 with fmt|auto 10 with fmt].
Qed.
End arguments.

(** ** Fields *)

(** [s] padded to the width of the specifier. *)
Definition pad_text (spec : fmt_spec_t) (s : list Z) : list Z :=
  let k := Z.to_nat (sp_width spec - zlen s) in
  let c := sp_fill spec in
  match sp_align spec with
  | FMT_ALIGN_LEFT => s ++ replicate k c
  | FMT_ALIGN_RIGHT => replicate k c ++ s
  | FMT_ALIGN_CENTER => replicate (k / 2) c ++ s ++ replicate (k - k / 2) c
  end.

(** A value with a width is cut to the intermediate buffer and padded. *)
Definition field_text (spec : fmt_spec_t) (s : list Z) : list Z :=
  if 0 <? sp_width spec then pad_text spec (take 256 s) else s.

Lemma pad_text_length spec s : 0 <= sp_width spec -> zlen (pad_text spec s) = Z.max (sp_width spec) (zlen s).
Proof.
  intros Hw. unfold pad_text. set (k := Z.to_nat (sp_width spec - zlen s)).
  assert (k / 2 <= k)%nat by (apply Nat.div_le_upper_bound; lia). unfold zlen in *.
  destruct (sp_align spec); rewrite !length_app, !length_replicate; lia.
Qed.

Lemma emits_alignment spec str len :
  0 <= sp_width spec < 2 ^ 31 -> 0 <= len <= zlen str ->
  emits (apply_alignment spec str len) (pad_text spec (take (Z.to_nat len) str)).
Proof.
  intros Hw Hl. unfold apply_alignment, pad_text. rewrite wrap_small by (unfold fits; lia).
  rewrite (take_zlen str len Hl). pose proof (emits_write str len Hl) as Hwr.
  destruct (Z.ltb_spec (sp_width spec) len) as [Hlt|Hge].
  - replace (Z.to_nat (sp_width spec - len)) with 0%nat by lia.
    destruct (sp_align spec); simpl; rewrite ?app_nil_r; done.
  - destruct (sp_align spec); auto using emits_seq, emits_repeat.
Qed.

(** The intermediate buffer. *)
Lemma temp_buffer w s : emits w s ->
  exists b value, fmtlib_buffer (replicate 257 0) TEMP_BUFFER_SIZE = Ret b /\ w b = Ret (Z.min (zlen s) 256, value) /\
    Z.min (zlen s) 256 <= zlen (fb_mem value) /\
    take (Z.to_nat (Z.min (zlen s) 256)) (fb_mem value) = take 256 s.
Proof.
  intros Hw. set (b := mk_fb (replicate 257 0) 0 256 0).
  assert (Hb : fb_ok b) by (split; unfold zlen; simpl; lia).
  exists b, (fb_put b s). split; [done|]. split; [by rewrite (Hw b Hb)|].
  assert (Hs : zlen (take 256 s) = Z.min (zlen s) 256) by (unfold zlen; rewrite length_take; lia).
  assert (Em : fb_mem (fb_put b s) = take 256 s ++ drop (length (take 256 s)) (replicate 257 0)) by done.
  rewrite Em. pose proof (zlen_nonneg s). split.
  - rewrite zlen_app, Hs. pose proof (zlen_nonneg (drop (length (take 256 s)) (replicate 257 0))). lia.
  - unfold zlen in *. rewrite take_app_le by lia. rewrite take_ge; [done|]. lia.
Qed.

Section claims.
Context (strerror : Z -> option (list Z)).

Lemma st_vtype spec : some_text (format_vtype spec).
Proof.
  unfold format_vtype. destruct (vtype_name _ _); [auto with fmt|].
  assert (Hu : fits 64 (u32 (rv_bits (sp_value spec)))).
  { pose proof (wrap_range 32 (rv_bits (sp_value spec)) ltac:(lia)) as H. unfold fits in *. lia. }
  auto 10 with fmt.
Qed.
Hint Resolve st_vtype st_vnode st_address st_tm : fmt.

Lemma st_string spec :
  ptr_is_null spec = true \/ (exists mem, rv_obj (sp_value spec) = Obj_chars mem /\ chars_ok mem (u64 (sp_precision spec))) ->
  some_text (format_string spec).
Proof.
  unfold format_string. intros [->|(mem & Ho & Hc)]; [auto with fmt|]. apply st_if; [auto with fmt|].
  rewrite Ho. destruct Hc as [(-> & n & Hn & Hr)|Hp].
  - simpl. eapply st_let; [exact Hn|]. eexists. by apply emits_write.
  - rewrite (proj2 (Z.eqb_neq _ 0)) by lia. eexists. apply emits_write. lia.
Qed.

Lemma st_errno spec : sint 64 (rv_bits (sp_value spec)) <> - 2 ^ 63 -> some_text (format_errno strerror spec).
Proof.
  intros Hf. unfold format_errno, format_unsigned. apply st_if; [auto 10 with fmt|].
  destruct (strerror _); [auto with fmt|]. pose proof (st_signed spec Hf). auto 10 with fmt.
Qed.

Lemma st_thread spec p t n : rv_obj (sp_value spec) = Obj_thread p t n -> some_text (format_thread spec).
Proof.
  intros Ho. unfold format_thread. apply st_if; [auto with fmt|]. rewrite Ho.
  assert (fits 64 (u64 p)) by by apply wrap_range. assert (fits 64 (u64 t)) by by apply wrap_range. auto 20 with fmt.
Qed.

Lemma st_vattr spec t m : rv_obj (sp_value spec) = Obj_vattr t m -> some_text (format_vattr spec).
Proof. intros Ho. unfold format_vattr, format_octal. apply st_if; [auto with fmt|]. rewrite Ho. auto 20 with fmt. Qed.

Lemma st_ventry spec vn fid id fl n :
  bits_ok spec -> rv_obj (sp_value spec) = Obj_ventry vn fid id fl n -> int_id fid -> int_id id ->
  some_text (format_ventry spec).
Proof.
  intros Hb Ho H1 H2. unfold format_ventry. apply st_if; [auto with fmt|]. rewrite Ho.
  do 5 (apply st_seq; [try destruct vn as [[? [?|] ?]|]; auto with fmt|]).
  apply st_seq; [unfold format_str_t; simpl; destruct n; auto with fmt|]. auto with fmt.
Qed.

Lemma st_file spec fd t vn :
  bits_ok spec -> rv_obj (sp_value spec) = Obj_file fd t vn -> int_id fd ->
  match vn with Some v => vnode_ok v | None => True end -> some_text (format_file spec).
Proof.
  intros Hb Ho H1 H2. unfold format_file. apply st_if; [auto with fmt|]. rewrite Ho.
  destruct vn; auto 20 with fmt.
Qed.

Lemma run_formatter_text f spec : arg_ok f spec -> some_text (run_formatter strerror f spec).
Proof.
  intros [Hb Hf]. destruct f; simpl in *; try (apply st_unsigned; auto with fmt).
  - by apply st_signed.
  - by apply st_hex.
  - by apply st_double.
  - by apply st_string.
  - unfold format_char. apply st_if; eexists; apply emits_write; unfold zlen; simpl; lia.
  - by apply st_quantity.
  - by apply st_errno.
  - unfold format_path_t. destruct Hf as [->|(t & ->)]; auto with fmt.
  - unfold format_str_t. destruct Hf as [->|([t|] & ->)]; auto with fmt.
  - unfold format_cstr_t. destruct Hf as [->|(t & ->)]; auto with fmt.
  - unfold format_time_utc. destruct Hf as [->|(t & ->)]; auto with fmt.
  - unfold format_time_unix. apply st_if; [auto with fmt|].
    destruct (posix2tm_total (rv_bits (sp_value spec))) as (t & Ht); [apply Hb|]. eapply st_let; [exact Ht|apply st_tm].
  - destruct Hf as [E|(p & t & n & Ho)]; [unfold format_thread; rewrite E; auto with fmt|by eapply st_thread].
  - destruct Hf as [E|(n & fl & d & Ho & Hfl)]; [unfold format_lock_object; rewrite E; auto with fmt|by eapply st_lock].
  - apply st_vtype.
  - destruct Hf as [E|(t & m & Ho)]; [unfold format_vattr; rewrite E; auto with fmt|by eapply st_vattr].
  - unfold format_vnode. destruct Hf as [->|(vn & -> & Hv)]; auto with fmt.
  - destruct Hf as [E|(? & ? & ? & ? & ? & Ho & ? & ?)]; [unfold format_ventry; rewrite E; auto with fmt|by eapply st_ventry].
  - destruct Hf as [E|(? & ? & ? & Ho & ? & ?)]; [unfold format_file; rewrite E; auto with fmt|by eapply st_file].
Qed.

(** C35. Whatever the formatter, a specifier with a fitting argument writes
    one text: without a width the value's own text, with a width that text, at
    most 256 bytes of it, padded by the alignment to exactly the width if it is
    shorter.  As much of it as the buffer has room for is appended and counted,
    and no other byte of memory changes. *)
Theorem fmtlib_format_spec_field (spec : fmt_spec_t) (f : fmt_formatter_t)
    (Htype : sp_type_len spec <> 0) (Hf : sp_formatter spec = Some f) (Harg : arg_ok f spec)
    (Hwidth : 0 <= sp_width spec < 2 ^ 31) :
  exists s, emits (run_formatter strerror f spec) s /\
    emits (fmtlib_format_spec strerror spec) (field_text spec s) /\
    zlen (field_text spec s) = (if 0 <? sp_width spec then Z.max (sp_width spec) (Z.min (zlen s) 256) else zlen s).
Proof.
  destruct (run_formatter_text f spec Harg) as [s Hs]. exists s. split; [done|]. split.
  - unfold fmtlib_format_spec, field_text. rewrite (proj2 (Z.eqb_neq _ _)), Hf by done.
    destruct (Z.ltb_spec 0 (sp_width spec)) as [Hpos|_]; [|done].
    destruct (temp_buffer _ s Hs) as (b & value & Eb & Ew & Hlen & Htake). intros out Hout.
    rewrite Eb. cbn [mbind outcome_bind]. rewrite Ew. cbn [mbind outcome_bind]. pose proof (zlen_nonneg s).
    rewrite (emits_alignment spec (fb_mem value) (Z.min (zlen s) 256) Hwidth) by (done || lia).
    by rewrite Htake.
  - unfold field_text. destruct (Z.ltb_spec 0 (sp_width spec)); [|done].
    rewrite pad_text_length by lia. unfold zlen. rewrite length_take. lia.
Qed.
End claims.

Lemma fmtlib_format_spec_field_witness :
  exists s, emits (fmtlib_format_spec (fun _ => None)
      (mk_spec (bytes "d") 1 0 8 0 FMT_ALIGN_RIGHT (ch " ") (raw_uint64 (-42)) FMT_ARGTYPE_INT32 (Some F_signed))) s /\
    8 <= zlen s.
Proof.
  set (sp := mk_spec (bytes "d") 1 0 8 0 FMT_ALIGN_RIGHT (ch " ") (raw_uint64 (-42)) FMT_ARGTYPE_INT32 (Some F_signed)).
  destruct (fmtlib_format_spec_field (fun _ => None) sp F_signed) as (s & Hs & He & Hl).
  - discriminate.
  - reflexivity.
  - split; [by apply wrap_range|]. by vm_compute.
  - simpl; lia.
  - exists (field_text sp s). split; [exact He|]. rewrite Hl. simpl. lia.
Defined.

(** ** Numbers read back *)

Lemma num_digits_bound base k : forall v d,
  2 <= base -> 0 <= v < base ^ Z.of_nat d -> (length (num_digits k base v) <= d)%nat.
Proof.
  induction k as [|k IH]; intros v d Hb Hv; [unfold num_digits; simpl; lia|].
  unfold num_digits; fold (num_digits k base (v / base)). destruct (Z.eqb_spec v 0); [simpl; lia|].
  destruct d as [|d]; [simpl in Hv; lia|]. rewrite length_app. simpl length.
  rewrite Nat2Z.inj_succ, Z.pow_succ_r in Hv by lia.
  specialize (IH (v / base) d Hb). assert (0 <= v / base < base ^ Z.of_nat d); [|lia].
  split; [apply Z.div_pos; lia|apply Z.div_lt_upper_bound; lia].
Qed.

Lemma decimal_digit d : 0 <= d < 10 -> digit_of (schar (digit_char (nf_digits decimal_format) d)) 10 = Some d.
Proof.
  intros Hd. assert (In d [0; 1; 2; 3; 4; 5; 6; 7; 8; 9]) as Hin by (simpl; lia).
  simpl in Hin. repeat (destruct Hin as [<- | Hin]; [done|]). done.
Qed.

(** The decimal text denotes the number. *)
Lemma decimal_text v : 0 <= v < 2 ^ 63 ->
  exists ds, digits_of 10 (num_text decimal_format v) ds /\ value 10 ds = v /\
    num_text decimal_format v <> [] /\ zlen (num_text decimal_format v) <= 19.
Proof.
  intros Hv. unfold num_text. destruct (Z.eqb_spec v 0) as [->|Hne].
  - exists [0]. split; [repeat constructor|]. split; [done|]. split; [done|]. unfold zlen. simpl. lia.
  - change (nf_base decimal_format) with 10. set (ds := num_digits 64 10 v). exists ds.
    destruct (num_digits_value 10 64 v ltac:(lia)) as [Hval Hall]; [change (Z.of_nat 64) with 64; lia|].
    fold ds in Hval, Hall. split; [|split; [done|split]].
    + unfold digits_of. clear Hval. induction Hall as [|d l Hd _ IH]; [constructor|].
      rewrite fmap_cons. constructor; [by apply decimal_digit|exact IH].
    + intros E. apply (f_equal length) in E. rewrite length_fmap in E.
      pose proof (num_digits_pos 63 10 v Hne). fold ds in H. simpl length in E at 2. lia.
    + unfold zlen. rewrite length_fmap. pose proof (num_digits_bound 10 64 v 19 ltac:(lia)) as H.
      fold ds in H. change (10 ^ Z.of_nat 19) with 10000000000000000000 in H. lia.
Qed.

(** The buffer that fmtlib_buffer makes, after a text that fits. *)
Lemma buffer_text data size w s :
  emits w s -> zlen s < size <= zlen data -> size < 2 ^ 64 ->
  exists b b' rest, fmtlib_buffer data size = Ret b /\ w b = Ret (zlen s, b') /\ fb_mem b' = s ++ 0 :: rest.
Proof.
  intros Hw Hs H64. pose proof (zlen_nonneg s) as H0.
  set (mem := splice data 0 (replicate (Z.to_nat size) 0)).
  assert (Em : mem = replicate (Z.to_nat size) 0 ++ drop (Z.to_nat size) data)
    by (unfold mem, splice; simpl; by rewrite length_replicate).
  assert (Hmem : zlen mem = zlen data).
  { rewrite Em. unfold zlen in *. rewrite length_app, length_replicate, length_drop. lia. }
  set (b := mk_fb mem 0 (size - 1) 0).
  assert (Hb : fb_ok b) by (split; simpl; lia).
  exists b, (fb_put b s), (drop (S (length s)) mem). split; [|split].
  - unfold fmtlib_buffer. rewrite write_at_splice; [|lia|unfold zlen in *; rewrite length_replicate; lia].
    cbn [mbind outcome_bind]. rewrite wrap_small by (unfold fits; lia). done.
  - rewrite (Hw b Hb). do 2 f_equal. unfold fit. simpl. lia.
  - simpl. rewrite take_ge by (unfold zlen in *; lia). unfold splice. simpl. f_equal.
    apply drop_S. rewrite Em. rewrite lookup_app_l by (rewrite length_replicate; unfold zlen in *; lia).
    apply lookup_replicate_2. unfold zlen in *. lia.
Qed.

(** C36. A signed number formatted into a fresh buffer is read back by strtol
    as the same number, with the end of the text at the byte count returned;
    twenty-one bytes are always enough. *)
Theorem format_signed_strtol (v size : Z) (data : list Z)
    (Hv : - 2 ^ 63 < v < 2 ^ 63) (Hsize : 21 <= size <= zlen data) (H64 : size < 2 ^ 64) :
  exists b n b', fmtlib_buffer data size = Ret b /\
    format_signed (mk_fmtlib_spec_u64 v 0) b = Ret (n, b') /\ strtol (fb_mem b') 0 10 = Ret (v, n).
Proof.
  set (sp := mk_fmtlib_spec_u64 v 0).
  assert (Hi : sint 64 (rv_bits (sp_value sp)) = v) by (apply sint64_u64; lia).
  destruct (magnitude_signed sp) as [Hm Hf]; [lia|]. rewrite Hi in Hm, Hf.
  pose proof (emits_format_integer sp true decimal_format _ _ decimal_ok Hm Hf) as He.
  destruct (decimal_text (Z.abs v)) as (ds & Hds & Hval & Hne & Hlen); [lia|].
  set (cs := num_text decimal_format (Z.abs v)) in *.
  assert (Et : int_text sp decimal_format (Z.abs v) (v <? 0) = (if v <? 0 then [ch "-"] else []) ++ cs).
  { unfold int_text. fold cs. pose proof (zlen_nonneg cs).
    assert (Hz : zeros (u64 (sp_precision sp) - zlen cs) = []).
    { unfold zeros. change (u64 (sp_precision sp)) with 0. by replace (Z.to_nat (0 - zlen cs)) with 0%nat by lia. }
    rewrite Hz. by destruct (v <? 0). }
  rewrite Et in He. destruct (buffer_text data size _ _ He) as (b & b' & rest & Hb & Hw & Hmem); [|done|].
  { rewrite zlen_app. unfold zlen at 1. pose proof (zlen_nonneg cs). destruct (v <? 0); simpl; lia. }
  exists b, (zlen ((if v <? 0 then [ch "-"] else []) ++ cs)), b'. split; [done|]. split; [done|].
  rewrite Hmem, <- app_assoc.
  pose proof (strtol_text [] (if v <? 0 then [ch "-"] else []) cs ds rest 10 0 (v <? 0)) as Hs.
  rewrite !app_nil_l in Hs. change (Z.of_nat (length [])) with 0 in Hs. rewrite Hs; try done; try lia.
  - f_equal. f_equal; [|unfold zlen; rewrite length_app; lia]. rewrite Hval. unfold clamp, LONG_MAX, LONG_MIN.
    destruct (Z.ltb_spec v 0); lia.
  - destruct (v <? 0); constructor.
Qed.

Lemma format_signed_strtol_witness :
  exists b n b', fmtlib_buffer (replicate 32 7) 32 = Ret b /\
    format_signed (mk_fmtlib_spec_u64 (-9223372036854775807) 0) b = Ret (n, b') /\
    strtol (fb_mem b') 0 10 = Ret (-9223372036854775807, n).
Proof. apply (format_signed_strtol (-9223372036854775807) 32 (replicate 32 7)); unfold zlen; simpl; lia. Defined.
