(* ===== verification/FmtRun.v ===== *)
(** * Format strings of lib/fmt/fmt.c at work

    Where the formatter stays within its buffer, ends, and returns. *)

From S2P Require Import Prelude Mm CString Kio Time Fmtlib Fmt FmtText.
From Stdlib Require Import String Ascii SpecFloat.
From stdpp Require Import list.
Local Open Scope Z_scope.

(** ** Writers that stay in their buffer *)

(** [b'] is [b] after [n] more bytes; no other byte changed. *)
Record grew (b : fmt_buffer_t) (n : Z) (b' : fmt_buffer_t) : Prop := mk_grew {
  gr_ok : fb_ok b';
  gr_n : 0 <= n;
  gr_pos : fb_pos b' = fb_pos b + n;
  gr_size : fb_size b' = fb_size b - n;
  gr_len : zlen (fb_mem b') = zlen (fb_mem b);
  gr_out : forall i, ~ (fb_pos b <= Z.of_nat i < fb_pos b + n) -> fb_mem b' !! i = fb_mem b !! i;
}.

Definition safe (w : writer) : Prop := forall b, fb_ok b -> ends (w b) (fun r => grew b r.1 r.2).

Lemma grew_refl b : fb_ok b -> grew b 0 b.
Proof. intros H. split; try done; lia. Qed.

Lemma grew_trans b1 b2 b3 n m : grew b1 n b2 -> grew b2 m b3 -> grew b1 (n + m) b3.
Proof.
  intros [Ho1 Hn1 Hp1 Hs1 Hl1 Hf1] [Ho2 Hn2 Hp2 Hs2 Hl2 Hf2]. split; try done; try lia.
  intros i Hi. rewrite Hf2, Hf1; [done|lia|lia].
Qed.

(** A write of bytes at the position. *)
Lemma grew_write b s :
  fb_ok b -> zlen s <= fb_size b ->
  ends (write_at (fb_mem b) (fb_pos b) s) (fun mem =>
    grew b (zlen s) (mk_fb mem (fb_pos b + zlen s) (fb_size b - zlen s) (fb_written b + zlen s))).
Proof.
  intros [Hp Hs Hr] Hl. pose proof (zlen_nonneg s). rewrite write_at_splice by lia. simpl.
  assert (Hz : zlen (splice (fb_mem b) (fb_pos b) s) = zlen (fb_mem b)) by (apply splice_nil_zlen; lia).
  split; simpl; try lia; [split; simpl; lia|]. intros i Hi. unfold splice, zlen in *.
  destruct (Z.lt_ge_cases (Z.of_nat i) (fb_pos b)).
  - rewrite lookup_app_l by (rewrite length_take; lia). apply lookup_take_lt. lia.
  - rewrite lookup_app_r by (rewrite length_take; lia). rewrite length_take.
    rewrite lookup_app_r by lia. rewrite lookup_drop. f_equal. lia.
Qed.

Lemma safe_none : safe w_none.
Proof. intros b Hb. simpl. by apply grew_refl. Qed.

Lemma safe_fault : safe (fun _ => Fault).
Proof. by intros b Hb. Qed.

Lemma safe_write data n : 0 <= n -> safe (fmtlib_buffer_write data n).
Proof.
  intros Hn b Hb. unfold fmtlib_buffer_write. destruct (Z.eqb_spec (fb_size b) 0); [by apply grew_refl|].
  set (k := if n <? fb_size b then n else fb_size b).
  assert (Hk : 0 <= k <= fb_size b) by (unfold k; destruct Hb; destruct (Z.ltb_spec n (fb_size b)); lia).
  unfold read_at. destruct ((0 <=? 0) && (0 <=? k) && (0 + k <=? zlen data)) eqn:E; [|done].
  apply andb_true_iff in E as [_ E]. apply Z.leb_le in E. cbn [mbind outcome_bind].
  set (s := take (Z.to_nat k) (drop (Z.to_nat 0) data)).
  assert (Hs : zlen s = k) by (unfold s, zlen in *; rewrite length_take, length_drop; lia).
  pose proof (grew_write b s Hb ltac:(lia)) as H. rewrite Hs in H. destruct (write_at _ _ s); done.
Qed.

Lemma safe_char c : safe (w_char c).
Proof.
  intros b Hb. unfold fmtlib_buffer_write_char. destruct (Z.eqb_spec (fb_size b) 0); [by apply grew_refl|].
  pose proof (grew_write b [c] Hb) as H. unfold zlen in H. simpl in H. destruct Hb. specialize (H ltac:(lia)).
  by destruct (write_at _ _ [c]).
Qed.

Lemma safe_bind w f : safe w -> (forall n, 0 <= n -> safe (f n)) -> safe (w_bind w f).
Proof.
  intros Hw Hf b Hb. unfold w_bind. apply (ends_bind _ _ _ _ (Hw b Hb)). intros [n b1] H1. simpl in H1.
  apply (ends_bind _ _ _ _ (Hf n (gr_n _ _ _ H1) b1 (gr_ok _ _ _ H1))). intros [m b2] H2. simpl in *.
  by eapply grew_trans.
Qed.

Lemma safe_seq w1 w2 : safe w1 -> safe w2 -> safe (w1 >+ w2).
Proof. intros H1 H2. by apply safe_bind. Qed.

Lemma safe_let {A} (x : outcome A) (P : A -> Prop) f :
  ends x P -> (forall a, P a -> safe (f a)) -> safe (w_let x f).
Proof. intros Hx Hf b Hb. unfold w_let. apply (ends_bind _ _ _ _ Hx). intros a Ha. by apply Hf. Qed.

Lemma safe_if (b : bool) w1 w2 : safe w1 -> safe w2 -> safe (if b then w1 else w2).
Proof. by destruct b. Qed.
Lemma safe_when b w : safe w -> safe (w_when b w).
Proof. intros H. apply safe_if; [done|apply safe_none]. Qed.
Lemma safe_str s : safe (w_str s).
Proof. apply safe_write, zlen_nonneg. Qed.
Lemma safe_all l : safe (fmtlib_buffer_write l (zlen l)).
Proof. apply safe_write, zlen_nonneg. Qed.
Lemma safe_repeat k c : safe (w_repeat k c).
Proof. induction k as [|k IH]; [apply safe_none|]. apply safe_seq; [apply safe_char|done]. Qed.
Lemma safe_chars s : safe (w_chars s).
Proof. induction s as [|c s IH]; [apply safe_none|]. apply safe_seq; [apply safe_char|done]. Qed.

Create HintDb safe.
#[export] Hint Resolve safe_none safe_fault safe_char safe_seq safe_if safe_when safe_str safe_all safe_repeat safe_chars : safe.

(** ** Formatters on any argument *)

Lemma text_ends v format : format_ok format -> fits 64 v -> ends (u64_to_str v format) (fun _ => True).
Proof. intros Hf Hv. by rewrite u64_to_str_text. Qed.

Lemma magnitude_ends spec is_signed : bits_ok spec -> ends (magnitude spec is_signed) (fun r => fits 64 r.1).
Proof.
  intros Hb. destruct is_signed; [|exact Hb]. unfold magnitude.
  destruct (Z.eqb_spec (sint 64 (rv_bits (sp_value spec))) (- 2 ^ 63)); [done|].
  destruct (magnitude_signed spec) as [Hm Hf]; [done|]. unfold magnitude in Hm.
  rewrite (proj2 (Z.eqb_neq _ _)) in Hm by done. rewrite Hm. exact Hf.
Qed.

Lemma safe_integer spec is_signed format : format_ok format -> bits_ok spec -> safe (format_integer spec is_signed format).
Proof.
  intros Hf Hb. unfold format_integer. apply (safe_let _ _ _ (magnitude_ends spec is_signed Hb)). intros [v neg] Hv.
  apply (safe_let _ _ _ (text_ends v format Hf Hv)). intros temp _. cbv zeta.
  apply safe_bind; [unfold w_sign; auto 10 with safe|]. intros n Hn. auto 10 with safe.
Qed.

Lemma safe_hex spec : bits_ok spec -> safe (format_hex spec).
Proof. intros Hb. unfold format_hex. apply safe_if; apply safe_integer; auto with fmt. Qed.

Lemma safe_u64 v : fits 64 v -> safe (fmtlib_buffer_write_u64 v).
Proof. intros Hv. apply (safe_let _ _ _ (text_ends v _ decimal_ok Hv)). auto with safe. Qed.

Lemma safe_id v w is_signed format : format_ok format -> safe (format_integer (mk_fmtlib_spec_u64 v w) is_signed format).
Proof. intros Hf. apply safe_integer; auto with fmt. Qed.

Lemma safe_signed_u64 v w : safe (format_signed (mk_fmtlib_spec_u64 v w)).
Proof. apply safe_id, decimal_ok. Qed.
Lemma safe_unsigned_u64 v w : safe (format_unsigned (mk_fmtlib_spec_u64 v w)).
Proof. apply safe_id, decimal_ok. Qed.
Lemma safe_octal_u64 v w : safe (format_octal (mk_fmtlib_spec_u64 v w)).
Proof. apply safe_id, octal_ok. Qed.
#[export] Hint Resolve safe_hex safe_u64 safe_signed_u64 safe_unsigned_u64 safe_octal_u64 : safe.

Lemma trunc_ends f : ends (trunc_u64 f) (fits 64).
Proof.
  destruct f; simpl; try done. case_test; [|done]. simpl. zbool. unfold fits. lia.
Qed.

Lemma split_double_ends v prec : ends (split_double v prec) (fun r => fits 64 r.1 /\ fits 64 r.2).
Proof.
  unfold split_double. apply (ends_bind _ _ _ _ (trunc_ends v)). intros whole Hw.
  apply (ends_bind _ _ _ _ (trunc_ends _)). intros frac Hf.
  pose proof (wrap_range 64 (frac + 1) ltac:(lia)). pose proof (wrap_range 64 (whole + 1) ltac:(lia)).
  repeat case_test; simpl; try (split; unfold fits in *; lia || done).
Qed.

Lemma safe_double spec : safe (format_double spec).
Proof.
  unfold format_double. apply safe_bind; [auto with safe|]. intros n Hn. cbv zeta.
  apply safe_if; [auto with safe|]. apply safe_if; [auto with safe|]. apply safe_if; [auto with safe|].
  apply (safe_let _ _ _ (split_double_ends _ _)). intros [whole frac] [Hw Hf]. simpl in Hw, Hf.
  apply (safe_let _ _ _ (text_ends whole _ decimal_ok Hw)). intros ws _. cbv beta.
  apply (safe_let _ (fun _ => True)); [case_test; [by apply text_ends; auto with fmt|done]|]. auto 10 with safe.
Qed.

Lemma strlen_ends mem : ends (strlen mem 0) (fun n => 0 <= n).
Proof.
  unfold strlen, mem_fuel.
  assert (H : forall f s len, 0 <= s <= Z.of_nat (length mem) -> Z.of_nat (length mem) < s + Z.of_nat f -> 0 <= len ->
    ends (strlen_loop f mem s len) (fun n => 0 <= n)).
  { induction f as [|f IH]; intros s len Hs Hf Hl; [lia|]. simpl. apply (ends_bind _ _ _ _ (ends_load mem s)).
    intros c Hc. apply lookup_lt_Some in Hc. case_test; [done|]. apply IH; lia. }
  apply H; lia.
Qed.

Lemma safe_string spec : safe (format_string spec).
Proof.
  unfold format_string. apply safe_if; [auto with safe|]. destruct (rv_obj (sp_value spec)); auto with safe.
  apply safe_if; [|apply safe_write, wrap_range; lia].
  apply (safe_let _ _ _ (strlen_ends mem)). intros n Hn. by apply safe_write.
Qed.

Lemma safe_tm t : safe (format_struct_tm_utc t).
Proof. unfold format_struct_tm_utc. auto 20 with safe. Qed.

Lemma safe_time_unix spec : bits_ok spec -> safe (format_time_unix spec).
Proof.
  intros Hb. unfold format_time_unix. apply safe_if; [auto with safe|].
  destruct (posix2tm_total (rv_bits (sp_value spec))) as (t & Ht); [apply Hb|].
  apply (safe_let _ (fun _ => True)); [by rewrite Ht|]. intros; apply safe_tm.
Qed.

Lemma safe_vtype spec : safe (format_vtype spec).
Proof.
  unfold format_vtype. destruct (vtype_name _ _); [auto with safe|].
  assert (Hu : fits 64 (u32 (rv_bits (sp_value spec)))).
  { pose proof (wrap_range 32 (rv_bits (sp_value spec)) ltac:(lia)) as H. unfold fits in *. lia. }
  auto 10 with safe.
Qed.

Lemma safe_vnode vn : safe (w_vnode vn).
Proof. unfold w_vnode. destruct (vno_vfs vn); auto 10 with safe. Qed.

Lemma safe_address plus a : fits 64 a -> safe (w_address plus a).
Proof. intros Ha. unfold w_address. apply safe_when. auto 10 with safe. Qed.

Lemma safe_mask v k : 0 <= k <= 64 -> fits 64 (Z.land v (Z.ones k)).
Proof.
  intros Hk. rewrite Z.land_ones by lia. pose proof (Z.mod_pos_bound v (2 ^ k) ltac:(lia)).
  pose proof (Z.pow_le_mono_r 2 k 64 ltac:(lia) ltac:(lia)). unfold fits. lia.
Qed.

Lemma safe_lock spec : bits_ok spec -> safe (format_lock_object spec).
Proof.
  intros Hb. unfold format_lock_object. apply safe_if; [auto with safe|].
  destruct (rv_obj (sp_value spec)) as [| | | | | | |name flags data| | | |]; auto with safe. cbv zeta.
  pose proof (safe_mask flags 8 ltac:(lia)) as Hc. change (Z.ones 8) with 0xFF in Hc.
  assert (Hd : fits 64 (u64 data)) by by apply wrap_range.
  do 4 (apply safe_seq; [auto 10 with safe|]).
  destruct (lock_class_name _ _); [|auto 10 with safe]. apply safe_seq; [auto with safe|].
  apply safe_seq; [unfold w_lock_opts; apply safe_if; auto 20 with safe|auto 10 with safe].
Qed.
#[export] Hint Resolve safe_string safe_tm safe_vtype safe_vnode safe_address safe_double : safe.

Lemma safe_formatter strerror f spec : bits_ok spec -> safe (run_formatter strerror f spec).
Proof.
  intros Hb. destruct f; cbn [run_formatter]; auto with safe; try (apply safe_integer; auto with fmt).
  - unfold format_char. apply safe_if; apply safe_write; lia.
  - unfold format_mem_quantity. pose proof (quantity_loop_fits 8 _ 0 Hb) as Hf. destruct (quantity_loop 8 _ 0) as [v i].
    apply (safe_let _ _ _ (text_ends v _ decimal_ok Hf)). auto with safe.
  - unfold format_errno. apply safe_if; [auto 10 with safe|]. destruct (strerror _); [auto with safe|].
    apply safe_seq; [auto with safe|]. apply safe_seq; [apply safe_integer; auto with fmt|auto with safe].
  - unfold format_path_t. destruct (rv_obj _); auto with safe.
  - unfold format_str_t. destruct (rv_obj _) as [| | |[?|]| | | | | | | |]; auto with safe.
  - unfold format_cstr_t. destruct (rv_obj _); auto with safe.
  - unfold format_time_utc. destruct (rv_obj _); auto with safe.
  - by apply safe_time_unix.
  - unfold format_thread. destruct (rv_obj _); auto with safe.
    assert (fits 64 (u64 pid)) by by apply wrap_range. assert (fits 64 (u64 tid)) by by apply wrap_range. auto 20 with safe.
  - by apply safe_lock.
  - unfold format_vattr. destruct (rv_obj _); auto 20 with safe.
  - unfold format_vnode. destruct (rv_obj _); auto with safe.
  - unfold format_ventry. destruct (rv_obj _) as [| | | | | | | | | |vn ? ? ? n|]; auto with safe.
    apply safe_if; [auto with safe|]. do 5 (apply safe_seq; [try destruct vn as [[? [?|] ?]|]; auto with safe|]).
    apply safe_seq; [unfold format_str_t; simpl; destruct n; auto with safe|]. auto with safe.
  - unfold format_file. destruct (rv_obj _) as [| | | | | | | | | | |? ? [?|]]; auto 20 with safe.
Qed.

Lemma safe_alignment spec str len : 0 <= len -> safe (apply_alignment spec str len).
Proof.
  intros Hl. pose proof (safe_write str len Hl). unfold apply_alignment. apply safe_if; [done|].
  destruct (sp_align spec); auto 10 with safe.
Qed.

Lemma safe_format_spec strerror spec : bits_ok spec -> safe (fmtlib_format_spec strerror spec).
Proof.
  intros Hb. unfold fmtlib_format_spec. apply safe_if; [by apply safe_alignment|].
  destruct (sp_formatter spec) as [f|]; [|auto with safe]. pose proof (safe_formatter strerror f spec Hb) as Hf.
  apply safe_if; [|done]. intros b Hok. set (tb := mk_fb (replicate 257 0) 0 256 0).
  assert (Htb : fb_ok tb) by (split; by vm_compute).
  change (fmtlib_buffer (replicate 257 0) TEMP_BUFFER_SIZE) with (Ret tb). cbn [mbind outcome_bind].
  apply (ends_bind _ _ _ _ (Hf tb Htb)). intros [n v] Hv. simpl. apply safe_alignment; [apply (gr_n _ _ _ Hv)|done].
Qed.

(** ** Formats of numbers *)

(** The formatters that print the bits of their argument and follow no
    pointer. *)
Definition plain_formatter (f : fmt_formatter_t) : bool :=
  match f with
  | F_signed | F_unsigned | F_binary | F_octal | F_hex | F_char | F_mem_quantity | F_errno | F_time_unix | F_vtype => true
  | _ => false
  end.

Definition type_formatter (t : list Z) : option fmt_formatter_t :=
  sp_formatter (fmtlib_resolve_type (mk_spec t (zlen t) 0 0 0 FMT_ALIGN_LEFT 0 (raw_uint64 0) FMT_ARGTYPE_NONE None)).2.

(** A type that fits into its array and is unknown or has such a formatter. *)
Definition plain_type (t : list Z) : bool :=
  (zlen t <=? FMTLIB_MAX_TYPE_LEN) && match type_formatter t with None => true | Some f => plain_formatter f end.

Fixpoint suffixes_plain (l : list Z) : bool :=
  plain_type l && match l with [] => true | _ :: l' => suffixes_plain l' end.

Fixpoint until_close (l : list Z) : list Z :=
  match l with [] => [] | c :: l' => if c =? ch "}" then [] else c :: until_close l' end.

(** No text from an opening brace to the next closing one ends in any other
    type, whatever the fields before the type are; a closing brace is no fill
    character. *)
Fixpoint plain_specs (l : list Z) : bool :=
  match l with
  | [] => true
  | c :: l' =>
      (if (c =? ch "{") && negb (nth 0 l' 0 =? ch "{") then suffixes_plain (until_close l')
       else negb ((c =? ch "$") && (nth 0 l' 0 =? ch "}"))) && plain_specs l'
  end.

(** No number has more than nine digits; [k] more may follow here. *)
Fixpoint short_runs (k : nat) (l : list Z) : bool :=
  match l with
  | [] => true
  | c :: l' => if isdigit c then match k with O => false | S k' => short_runs k' l' end else short_runs 9 l'
  end.

(** No argument is named by its number. *)
Definition takes_argument (c : Z) : bool := (c =? ch "{") || (c =? ch "*").
Fixpoint implicit_args (l : list Z) : bool :=
  match l with [] => true | c :: l' => negb (takes_argument c && isdigit (nth 0 l' 0)) && implicit_args l' end.

Definition plain_format (l : list Z) : bool := short_runs 9 l && plain_specs l.

Lemma short_runs_mono l : forall k k', (k <= k')%nat -> short_runs k l = true -> short_runs k' l = true.
Proof.
  induction l as [|c l IH]; intros k k' Hk; simpl; [done|]. destruct (isdigit c); [|done].
  destruct k as [|k]; [done|]. destruct k' as [|k']; [lia|]. apply IH. lia.
Qed.

Lemma short_runs_drop l i : short_runs 9 l = true -> short_runs 9 (drop i l) = true.
Proof.
  revert i. induction l as [|c l IH]; intros [|i] H; try done. simpl in *. apply IH.
  destruct (isdigit c); [by apply (short_runs_mono l 8); [lia|]|done].
Qed.

Lemma plain_specs_drop l i : plain_specs l = true -> plain_specs (drop i l) = true.
Proof. revert i. induction l as [|c l IH]; intros [|i] H; try done. simpl in *. apply IH. by apply andb_true_iff in H as [_ H]. Qed.

Lemma implicit_args_drop l i : implicit_args l = true -> implicit_args (drop i l) = true.
Proof. revert i. induction l as [|c l IH]; intros [|i] H; try done. simpl in *. apply IH. by apply andb_true_iff in H as [_ H]. Qed.

Lemma suffixes_plain_drop l i : suffixes_plain l = true -> plain_type (drop i l) = true.
Proof.
  revert i. induction l as [|c l IH]; intros i H; cbn [suffixes_plain] in H; apply andb_true_iff in H as [H1 H2]; [by destruct i|].
  destruct i as [|i]; [done|]. by apply IH.
Qed.

Lemma until_close_take l k : l !! k = Some (ch "}") -> (forall i, (i < k)%nat -> l !! i <> Some (ch "}")) -> until_close l = take k l.
Proof.
  revert k. induction l as [|c l IH]; intros [|k] Hk Hi; try done.
  - simpl in Hk. injection Hk as ->. done.
  - cbn [until_close take]. destruct (Z.eqb_spec c (ch "}")) as [->|Hne]; [by destruct (Hi 0%nat ltac:(lia))|]. f_equal.
    apply IH; [done|]. intros i Hlt. apply (Hi (S i)). lia.
Qed.

Lemma resolve_formatter sp :
  sp_type_len sp = zlen (sp_type sp) -> sp_formatter (fmtlib_resolve_type sp).2 = type_formatter (sp_type sp).
Proof.
  destruct sp as [t n fl w pr al fi v a f]. simpl. intros ->. unfold type_formatter, fmtlib_resolve_type, resolve_integral_type, resolve_char_type. simpl.
  case_test; [done|]. repeat (case_test; try done).
  all: by destruct (find_named named_types t) as [[? ?]|].
Qed.

Lemma plain_arg f spec : plain_formatter f = true -> bits_ok spec -> sint 64 (rv_bits (sp_value spec)) <> - 2 ^ 63 -> arg_ok f spec.
Proof. intros Hf Hb Hn. by destruct f. Qed.

Lemma st_alignment spec str len : 0 <= len <= zlen str -> some_text (apply_alignment spec str len).
Proof.
  intros Hl. assert (Hw : some_text (fmtlib_buffer_write str len)) by (eexists; by apply emits_write).
  unfold apply_alignment. apply st_if; [done|]. destruct (sp_align spec); auto 10 with fmt.
Qed.

Lemma st_format_spec strerror spec :
  match sp_formatter spec with None => True | Some f => arg_ok f spec end -> some_text (fmtlib_format_spec strerror spec).
Proof.
  intros Hf. unfold fmtlib_format_spec. apply st_if; [apply st_alignment; unfold zlen; simpl; lia|].
  destruct (sp_formatter spec) as [f|]; [|apply st_none]. destruct (run_formatter_text strerror f spec Hf) as [s Hs].
  apply st_if; [|by exists s]. destruct (temp_buffer _ s Hs) as (b & value & Eb & Ew & Hlen & _).
  destruct (st_alignment spec (fb_mem value) (Z.min (zlen s) 256)) as [t Ht]; [pose proof (zlen_nonneg s); lia|].
  exists t. intros out Hout. rewrite Eb. cbn [mbind outcome_bind]. rewrite Ew. cbn [mbind outcome_bind]. by apply Ht.
Qed.

(** ** Computations that return, or may fault *)

(** With [lax] false, [halts x Q] is that [x] returns a result that satisfies
    [Q]; with [lax] true, faults and panics are allowed, but not that the
    computation runs out of fuel.  The lemmas below serve both readings. *)
Section lax.
Context (lax : Prop).

Definition halts {A} (x : outcome A) (Q : A -> Prop) : Prop :=
  match x with Ret a => Q a | NoFuel => False | _ => lax end.

Lemma halts_bind {A B} (x : outcome A) (f : A -> outcome B) (P : A -> Prop) (Q : B -> Prop) :
  halts x P -> (forall a, P a -> halts (f a) Q) -> halts (x ≫= f) Q.
Proof. destruct x; simpl; auto. Qed.

Lemma halts_mono {A} (x : outcome A) (P Q : A -> Prop) : halts x P -> (forall a, P a -> Q a) -> halts x Q.
Proof. destruct x; simpl; auto. Qed.

Lemma halts_load {A} (l : list A) i :
  lax \/ 0 <= i < Z.of_nat (length l) -> halts (load l i) (fun a => l !! Z.to_nat i = Some a).
Proof.
  intros [H|H]; [|by destruct (load_in_range l i H) as (a & -> & Ha)]. unfold load. case_test; [|done]. by destruct (l !! Z.to_nat i).
Qed.

Lemma halts_store {A} (l : list A) i v :
  lax \/ 0 <= i < Z.of_nat (length l) -> halts (store l i v) (fun l' => l' = <[Z.to_nat i := v]> l).
Proof.
  intros H. unfold store. case_test; [done|]. destruct H as [H|H]; [done|]. zbool; lia.
Qed.

(** ** The parsers stay in the format string *)

Section parsing.
Context (format : list Z).

Definition inside (p : Z) : Prop := 0 <= p <= zlen format.

Lemma chr_inside p : inside p -> exists c, chr format p = Ret c /\ (c <> 0 -> p < zlen format).
Proof.
  intros [H0 Hp]. unfold chr. destruct (Z.ltb_spec p (zlen format)) as [Hlt|Hge].
  - rewrite (proj2 (Z.leb_le 0 p)) by done. destruct (load_in_range format p) as (c & -> & _); [unfold zlen in *; lia|].
    simpl. eauto.
  - rewrite andb_false_r, (proj2 (Z.eqb_eq p _)) by lia. exists 0. split; [done|]. lia.
Qed.

(** A character other than the terminator is in the string. *)
Lemma chr_lookup p c : chr format p = Ret c -> c <> 0 -> 0 <= p /\ format !! Z.to_nat p = Some c.
Proof.
  unfold chr, load. intros H Hc. destruct (Z.leb_spec 0 p); simpl in H; [|case_test; by inv_ret].
  destruct (p <? zlen format); [|case_test; by inv_ret]. destruct (format !! Z.to_nat p); by inv_ret.
Qed.

Lemma chr_room p c : chr format p = Ret c -> c <> 0 -> p + 1 <= zlen format.
Proof. intros H Hc. destruct (chr_lookup p c H Hc) as [H0 Hl]. apply lookup_lt_Some in Hl. unfold zlen. lia. Qed.

Lemma lookup_chr i c : format !! i = Some c -> chr format (Z.of_nat i) = Ret c.
Proof.
  intros H. pose proof (lookup_lt_Some _ _ _ H). unfold chr, load, zlen. rewrite (proj2 (Z.leb_le 0 _)), (proj2 (Z.ltb_lt _ _)) by lia.
  simpl. by rewrite Nat2Z.id, H.
Qed.

(** A read, with what the character says about the position. *)
Lemma chr_ends {A} p (f : Z -> outcome A) (Q : A -> Prop) :
  inside p -> (forall c, (c <> 0 -> p + 1 <= zlen format) -> chr format p = Ret c -> halts (f c) Q) ->
  halts (chr format p ≫= f) Q.
Proof.
  intros Hp Hf. destruct (chr_inside p Hp) as (c & E & Hc). rewrite E. simpl. apply Hf; [|done].
  intros Hne. specialize (Hc Hne). lia.
Qed.

(** No closing brace from [p] to before [q]. *)
Definition noclose (p q : Z) : Prop := lax \/ forall i, p <= i < q -> chr format i <> Ret (ch "}").

Lemma noclose_refl p : noclose p p.
Proof. right. intros. lia. Qed.

Lemma noclose_trans p q r : noclose p q -> noclose q r -> noclose p r.
Proof.
  intros [H|H1]; [by left|]. intros [H|H2]; [by left|]. right. intros i Hi.
  destruct (Z.lt_ge_cases i q); [apply H1; lia|apply H2; lia].
Qed.

Lemma noclose_step p q c : chr format p = Ret c -> c <> ch "}" -> noclose (p + 1) q -> noclose p q.
Proof.
  intros Hp Hc H. apply (noclose_trans p (p + 1)); [|done]. right. intros i Hi. replace i with p by lia. rewrite Hp. congruence.
Qed.

Lemma noclose_one p c : chr format p = Ret c -> c <> ch "}" -> noclose p (p + 1).
Proof. intros Hp Hc. by apply (noclose_step p _ c), noclose_refl. Qed.

Context (Hruns : lax \/ short_runs 9 format = true) (Hplain : lax \/ plain_specs format = true).

Lemma digit_nonzero c : isdigit c = true -> c <> 0.
Proof. unfold isdigit. intros H ->. done. Qed.

Lemma digit_noclose c : isdigit c = true -> c <> ch "}".
Proof. unfold isdigit. intros H ->. done. Qed.

(** What is left of a number at [p] keeps the value [v] in an [int]. *)
Definition short_at (p v : Z) : Prop :=
  lax \/ exists k, (k <= 9)%nat /\ short_runs k (drop (Z.to_nat p) format) = true /\ v < 10 ^ (9 - Z.of_nat k).

Lemma short_at_start p : short_at p 0.
Proof. destruct Hruns as [H|H]; [by left|right]. exists 9%nat. split; [lia|]. split; [by apply short_runs_drop|done]. Qed.

Lemma short_at_digit p v c :
  chr format p = Ret c -> isdigit c = true -> 0 <= v -> short_at p v ->
  lax \/ (v * 10 + (c - ch "0") < 2 ^ 31 /\ short_at (p + 1) (v * 10 + (c - ch "0"))).
Proof.
  intros Hc Hd Hv [H|(k & Hk & Hr & Hb)]; [by left|right].
  destruct (chr_lookup p c Hc (digit_nonzero c Hd)) as [H0 Hl]. rewrite (drop_S _ _ _ Hl) in Hr. simpl in Hr. rewrite Hd in Hr.
  destruct k as [|k]; [done|]. change (ch "0") with 48. assert (Hc' : 48 <= c <= 57) by (unfold isdigit in Hd; zbool; lia).
  assert (Hlt : v * 10 + (c - 48) < 10 ^ (9 - Z.of_nat k)).
  { replace (9 - Z.of_nat k) with (Z.succ (9 - Z.of_nat (S k))) by lia. rewrite Z.pow_succ_r by lia. lia. }
  pose proof (Z.pow_le_mono_r 10 (9 - Z.of_nat k) 9 ltac:(lia) ltac:(lia)) as Hmax. change (10 ^ 9) with 1000000000 in Hmax.
  split; [lia|]. right. exists k. split; [lia|]. split; [|done]. by replace (Z.to_nat (p + 1)) with (S (Z.to_nat p)) by lia.
Qed.

Lemma read_digits_ends fuel : forall p v,
  inside p -> zlen format - p <= Z.of_nat fuel -> 0 <= v -> short_at p v ->
  halts (read_digits fuel format p v) (fun r => p <= r.2 <= zlen format /\ noclose p r.2 /\ 0 <= r.1).
Proof.
  induction fuel as [|fuel IH]; intros p v Hp Hf Hv Hs; cbn [read_digits]; apply chr_ends; try done; intros c Hc Ec;
    (destruct (isdigit c) eqn:E; [|simpl; unfold inside in *; split; [lia|]; split; [apply noclose_refl|done]]);
    specialize (Hc (digit_nonzero c E)); unfold inside in *; [lia|].
  destruct (short_at_digit p v c Ec E Hv Hs) as [H|[Hlt Hs']].
  - case_test; [done|]. assert (Hv' : 0 <= v * 10 + (c - ch "0")) by (change (ch "0") with 48; unfold isdigit in E; zbool; lia).
    eapply halts_mono; [apply IH; [unfold inside; lia|lia|done|by left]|]. intros [w q] (Hq & Hn & Hw). simpl in *.
    split; [lia|]. split; [by left|done].
  - cbv zeta. rewrite (proj2 (Z.leb_gt _ _)) by lia.
    assert (Hv' : 0 <= v * 10 + (c - ch "0")) by (change (ch "0") with 48; unfold isdigit in E; zbool; lia).
    eapply halts_mono; [apply IH; [unfold inside; lia|lia|done|done]|]. intros [w q] (Hq & Hn & Hw). cbn [fst snd] in *.
    split; [lia|]. split; [|done]. by apply (noclose_step p q c Ec); [apply digit_noclose|].
Qed.

Lemma read_int_ends p : inside p -> halts (read_int format p) (fun r => p <= r.2 <= zlen format /\ noclose p r.2 /\ 0 <= r.1).
Proof. intros Hp. apply read_digits_ends; [done| |done|apply short_at_start]. unfold inside, zlen in *. lia. Qed.

Lemma find_close_ends fuel : forall p,
  inside p -> zlen format - p <= Z.of_nat fuel ->
  halts (find_close fuel format p)
    (fun e => p <= e <= zlen format /\ noclose p e /\ exists c, chr format e = Ret c /\ (c = 0 \/ c = ch "}")).
Proof.
  induction fuel as [|fuel IH]; intros p Hp Hf; cbn [find_close]; apply chr_ends; try done; intros c Hc E;
    (destruct ((c =? 0) || (c =? ch "}")) eqn:T;
     [simpl; unfold inside in *; split; [lia|]; split; [apply noclose_refl|]; exists c; split; [done|]; apply orb_true_iff in T;
      destruct T as [T|T]; apply Z.eqb_eq in T; tauto|]);
    apply orb_false_iff in T as [T T2]; apply Z.eqb_neq in T, T2; specialize (Hc T).
  - lia.
  - unfold inside in *. eapply halts_mono; [apply IH; unfold inside; lia|]. intros e (He & Hn & Hx). split; [lia|].
    split; [by apply (noclose_step p e c)|done].
Qed.

(** How many arguments the text before [p] can take in turn. *)
Definition uses (p : Z) : Z := zlen (filter (fun c => Is_true (takes_argument c)) (take (Z.to_nat p) format)).

Lemma uses_mono p q : p <= q -> uses p <= uses q.
Proof.
  intros H. unfold uses, zlen. rewrite <- (take_drop (Z.to_nat p) (take (Z.to_nat q) format)), take_take, filter_app, length_app.
  rewrite Nat.min_l by lia. lia.
Qed.

Lemma uses_at p c : chr format p = Ret c -> takes_argument c = true -> uses (p + 1) = uses p + 1.
Proof.
  intros Hp Hc. destruct (chr_lookup p c Hp) as [H0 Hl]; [by intros ->|]. unfold uses, zlen. replace (Z.to_nat (p + 1)) with (S (Z.to_nat p)) by lia.
  rewrite (take_S_r _ _ _ Hl), filter_app, filter_cons_True, length_app by (by rewrite Hc). simpl length. lia.
Qed.

Context (max_args limit : Z).
Context (Hlimit : lax \/ max_args <= limit \/ (implicit_args format = true /\ uses (zlen format) <= limit)).

(** An argument that may be referred to, and that was passed. *)
Definition index_ok (i : Z) : Prop := 0 <= i < max_args /\ (lax \/ i < limit).

Lemma index_auto i p : 0 <= i < max_args -> i < uses p -> p <= zlen format -> index_ok i.
Proof.
  intros Hi Hu Hp. split; [done|]. destruct Hlimit as [H|[H|[_ H]]]; [by left|right; lia|right]. pose proof (uses_mono p _ Hp). lia.
Qed.

Lemma index_named p c d v :
  chr format p = Ret c -> takes_argument c = true -> chr format (p + 1) = Ret d -> isdigit d = true -> 0 <= v < max_args -> index_ok v.
Proof.
  intros Hp Hc Hd Hdig Hv. split; [done|]. destruct Hlimit as [H|[H|[H _]]]; [by left|right; lia|exfalso].
  destruct (chr_lookup p c Hp) as [H0 Hl]; [by intros ->|]. destruct (chr_lookup _ _ Hd (digit_nonzero d Hdig)) as [_ Hl'].
  apply (implicit_args_drop _ (Z.to_nat p)) in H. rewrite (drop_S _ _ _ Hl) in H.
  replace (Z.to_nat (p + 1)) with (S (Z.to_nat p)) in Hl' by lia. rewrite (drop_S _ _ _ Hl') in H.
  cbn [implicit_args nth] in H. by rewrite Hc, Hdig in H.
Qed.

(** The arguments that a specifier refers to are within bounds. *)
Definition args_in (p : parse_t) : Prop :=
  0 <= pt_arg p <= uses (pt_ptr p) /\ (pt_width_is_index p = true -> index_ok (pt_width p)) /\
  (pt_precision_is_index p = true -> index_ok (pt_precision p)).

Lemma args_in_at p q : args_in p -> pt_ptr p <= pt_ptr q -> pt_arg q = pt_arg p ->
  pt_width_is_index q = pt_width_is_index p -> pt_width q = pt_width p ->
  pt_precision_is_index q = pt_precision_is_index p -> pt_precision q = pt_precision p -> args_in q.
Proof.
  intros (A1 & A2 & A3) Hle Ea E1 E2 E3 E4. pose proof (uses_mono _ _ Hle). unfold args_in. rewrite Ea, E1, E2, E3, E4. split; [lia|done].
Qed.

(** The results of the parser's steps: not before [p]. *)
Definition advanced (p : Z) (q : parse_t) : Prop := p <= pt_ptr q <= zlen format /\ noclose p (pt_ptr q) /\ args_in q.
Definition from (p : Z) (r : option (parse_t * bool)) : Prop :=
  match r with None => True | Some (q, _) => advanced p q end.

Lemma advanced_refl p : inside (pt_ptr p) -> args_in p -> advanced (pt_ptr p) p.
Proof. intros Hp Ha. unfold inside in Hp. split; [lia|]. split; [apply noclose_refl|done]. Qed.

Lemma advanced_mono p q r : advanced q r -> p <= q -> noclose p q -> advanced p r.
Proof. intros (H1 & H2 & H3) Hpq Hn. split; [lia|]. split; [by apply (noclose_trans p q)|done]. Qed.

Lemma from_mono p q x : halts x (from q) -> p <= q -> noclose p q -> halts x (from p).
Proof. intros Hx Hpq Hn. eapply halts_mono; [exact Hx|]. intros [[r b]|]; [|done]. intros Hr. by apply (advanced_mono p q). Qed.

Lemma flag_step_ptr braces p c p' : flag_step braces p c = Some p' ->
  pt_ptr p' = pt_ptr p + 1 /\ c <> 0 /\ c <> ch "}" /\ (args_in p -> args_in p').
Proof.
  unfold flag_step. intros H. destruct (Z.eqb_spec c 0) as [->|Hne]; [by destruct braces|].
  destruct (Z.eqb_spec c (ch "}")) as [->|Hnc]; [by destruct braces|].
  assert (Hw : forall fl al fi, args_in p -> args_in (with_flag p fl al fi)) by (intros fl al fi Ha; apply (args_in_at p); simpl; try done; lia).
  repeat case_test; simplify_eq; auto.
Qed.

Lemma flag_loop_ends braces fuel : forall p,
  inside (pt_ptr p) -> args_in p -> zlen format - pt_ptr p <= Z.of_nat fuel ->
  halts (flag_loop fuel braces format p) (advanced (pt_ptr p)).
Proof.
  induction fuel as [|fuel IH]; intros p Hp Ha Hf; cbn [flag_loop]; apply chr_ends; try done; intros c Hc Ec;
    (destruct (flag_step braces p c) as [p'|] eqn:E; [|by apply advanced_refl]);
    destruct (flag_step_ptr _ _ _ _ E) as (Ep & Hne & Hnc & Ha'); specialize (Hc Hne); unfold inside in *; [lia|].
  eapply halts_mono; [apply IH; [unfold inside; lia|by apply Ha'|lia]|]. intros q Hq. rewrite Ep in Hq.
  apply (advanced_mono _ (pt_ptr p + 1)); [done|lia|]. by apply (noclose_one _ c).
Qed.

(** After a star at [p]. *)
Lemma parse_star_ends p arg :
  0 <= p -> chr format p = Ret (ch "*") -> 0 <= arg <= uses p -> halts (parse_star format max_args (p + 1) arg) (fun r => match r with None => True
    | Some (q, v, a) => p + 1 <= q <= zlen format /\ noclose p q /\ index_ok v /\ 0 <= a <= uses q end).
Proof.
  intros H0 Hstar Ha. pose proof (chr_room _ _ Hstar ltac:(done)) as Hr. assert (Hp : inside (p + 1)) by (unfold inside; lia).
  pose proof (noclose_one p _ Hstar ltac:(done)) as Hone. pose proof (uses_at p _ Hstar eq_refl) as Hu.
  unfold parse_star. apply chr_ends; [done|]. intros c Hc Ec. case_test; [done|].
  destruct (isdigit c) eqn:E.
  - apply (halts_bind _ _ _ _ (read_int_ends (p + 1) Hp)). intros [v q] (Hq & Hn & Hv). simpl in Hq, Hn, Hv.
    destruct (Z.leb_spec max_args v); simpl; [done|]. split; [done|]. split; [by apply (noclose_trans _ (p + 1))|].
    split; [by apply (index_named p (ch "*") c)|]. pose proof (uses_mono (p + 1) q). lia.
  - destruct (Z.leb_spec max_args arg); simpl; [done|]. unfold inside in *. split; [lia|]. split; [done|].
    split; [apply (index_auto arg (p + 1)); lia|lia].
Qed.

Lemma check_eof_ends p done k :
  inside (pt_ptr p) -> args_in p ->
  (forall c, chr format (pt_ptr p) = Ret c -> c <> ch "}" -> c <> 0 -> halts (k p) (from (pt_ptr p))) ->
  halts (check_eof format p done k) (from (pt_ptr p)).
Proof.
  intros Hp Ha Hk. unfold check_eof. destruct done; [by apply advanced_refl|].
  apply chr_ends; [done|]. intros c Hc Ec. destruct (Z.eqb_spec c (ch "}")); [by apply advanced_refl|].
  destruct (Z.eqb_spec c 0); [done|]. by apply (Hk c).
Qed.

Lemma parse_width_ends p : inside (pt_ptr p) -> args_in p -> halts (parse_width format max_args p) (from (pt_ptr p)).
Proof.
  intros Hp Ha. pose proof Ha as (A1 & A2 & A3). unfold parse_width. apply chr_ends; [done|]. intros c Hc Ec. destruct (isdigit c) eqn:E.
  - apply (halts_bind _ _ _ _ (read_int_ends _ Hp)). intros [v q] (Hq & Hn & Hv). pose proof (uses_mono _ _ (proj1 Hq)).
    refine (conj Hq (conj Hn (conj _ (conj _ A3)))); [simpl in *; lia|done].
  - destruct (Z.eqb_spec c (ch "*")) as [->|]; [|by apply advanced_refl]. unfold inside in *.
    apply (halts_bind _ _ _ _ (parse_star_ends (pt_ptr p) (pt_arg p) ltac:(lia) Ec A1)).
    intros [[[q v] a]|]; [|done]. intros (Hq & Hn & Hv & Ha'). refine (conj _ (conj Hn (conj Ha' (conj (fun _ => Hv) A3)))). simpl. lia.
Qed.

Lemma parse_precision_ends p : inside (pt_ptr p) -> args_in p -> halts (parse_precision format max_args p) (from (pt_ptr p)).
Proof.
  intros Hp Ha. pose proof Ha as (A1 & A2 & A3). unfold parse_precision. apply chr_ends; [done|]. intros c Hc Ec.
  destruct (Z.eqb_spec c (ch ".")) as [->|]; [|by apply advanced_refl]. pose proof (noclose_one _ (ch ".") Ec ltac:(done)) as Hdot.
  specialize (Hc ltac:(done)). unfold inside in *. apply chr_ends; [unfold inside; lia|]. intros c2 Hc2 Ec2.
  pose proof (uses_mono (pt_ptr p) (pt_ptr p + 1) ltac:(lia)) as Hu. destruct (isdigit c2) eqn:E.
  - apply (halts_bind _ _ _ _ (read_int_ends (pt_ptr p + 1) ltac:(unfold inside; lia))). intros [v q] (Hq & Hn & Hv).
    pose proof (uses_mono _ _ (proj1 Hq)). apply (advanced_mono _ (pt_ptr p + 1)); [|lia|done].
    refine (conj Hq (conj Hn (conj _ (conj A2 _)))); [simpl in *; lia|done].
  - destruct (Z.eqb_spec c2 (ch "*")) as [->|]; [|done].
    apply (halts_bind _ _ _ _ (parse_star_ends (pt_ptr p + 1) (pt_arg p) ltac:(lia) Ec2 ltac:(lia))).
    intros [[[q v] a]|]; [|done]. intros (Hq & Hn & Hv & Ha'). apply (advanced_mono _ (pt_ptr p + 1)); [|lia|done].
    refine (conj _ (conj Hn (conj Ha' (conj A2 (fun _ => Hv))))). simpl. lia.
Qed.

Lemma from_width_ends p : inside (pt_ptr p) -> args_in p -> halts (from_width format max_args p) (from (pt_ptr p)).
Proof.
  intros Hp Ha. unfold from_width, then_step. apply (halts_bind _ _ _ _ (parse_width_ends p Hp Ha)).
  intros [[q d]|]; [|done]. intros (Hq & Hn & Ha'). unfold inside in *. apply (from_mono _ (pt_ptr q)); [|lia|done].
  apply check_eof_ends; [unfold inside; lia|done|]. intros _ _ _ _. apply parse_precision_ends; [unfold inside; lia|done].
Qed.

Lemma from_flags_ends p : inside (pt_ptr p) -> args_in p -> halts (from_flags format max_args p) (from (pt_ptr p)).
Proof.
  intros Hp Ha. unfold from_flags.
  assert (Hf : zlen format - pt_ptr p <= Z.of_nat (length format)) by (unfold inside, zlen in *; lia).
  apply (halts_bind _ _ _ _ (flag_loop_ends true _ p Hp Ha Hf)). intros q (Hq & Hn & Ha'). unfold inside in *.
  apply (from_mono _ (pt_ptr q)); [|lia|done]. apply check_eof_ends; [unfold inside; lia|done|]. intros _ _ _ _.
  apply from_width_ends; [unfold inside; lia|done].
Qed.

(** A fill character is no closing brace. *)
Lemma fill_noclose p c : chr format p = Ret (ch "$") -> chr format (p + 1) = Ret c -> c <> 0 -> lax \/ c <> ch "}".
Proof.
  intros Hp Hc Hne. destruct Hplain as [H|H]; [by left|right]. intros ->.
  destruct (chr_lookup _ _ Hp ltac:(done)) as [H0 Hl]. destruct (chr_lookup _ _ Hc Hne) as [_ Hl'].
  apply (plain_specs_drop _ (Z.to_nat p)) in H. rewrite (drop_S _ _ _ Hl) in H.
  replace (Z.to_nat (p + 1)) with (S (Z.to_nat p)) in Hl' by lia. rewrite (drop_S _ _ _ Hl') in H.
  cbn [plain_specs nth] in H. by rewrite andb_false_l in H.
Qed.

Lemma parse_align_ends p :
  inside (pt_ptr p) -> args_in p ->
  halts (parse_align format p) (fun r => match r with None => True | Some q => advanced (pt_ptr p) q end).
Proof.
  intros Hp Ha. unfold parse_align. apply chr_ends; [done|]. intros c Hc Ec.
  apply (halts_bind _ _ (fun r => match r with None => True | Some q => advanced (pt_ptr p) q end)).
  - destruct (Z.eqb_spec c (ch "$")) as [->|]; [|by apply advanced_refl]. specialize (Hc ltac:(done)). unfold inside in *.
    apply chr_ends; [unfold inside; lia|]. intros c2 Hc2 Ec2. destruct (Z.eqb_spec c2 0) as [|Hz]; [done|]. specialize (Hc2 Hz).
    apply chr_ends; [unfold inside; lia|]. intros d Hd _. case_test; [|done]. simpl.
    split; [simpl; lia|]. split; [|apply (args_in_at p); simpl; try done; lia]. apply (noclose_step _ _ (ch "$") Ec); [done|].
    destruct (fill_noclose _ _ Ec Ec2 Hz) as [H|Hfill]; [by left|by apply (noclose_one _ c2)].
  - intros [q|]; [|done]. intros (Hq & Hn & Ha'). unfold inside in *. apply chr_ends; [unfold inside; lia|]. intros d Hd Ed.
    assert (Hmove : d <> 0 -> d <> ch "}" -> forall al fi, advanced (pt_ptr p) (with_flag q (pt_flags q) al fi)).
    { intros Hne Hnc al fi. specialize (Hd Hne). apply (advanced_mono _ (pt_ptr q)); [|lia|done].
      split; [simpl; lia|]. split; [by apply (noclose_one _ d)|apply (args_in_at q); simpl; try done; lia]. }
    simpl. repeat (match goal with |- context [d =? ?x] => destruct (Z.eqb_spec d x) as [->|] end; [by apply Hmove|]). done.
Qed.

Lemma from_align_ends p : inside (pt_ptr p) -> args_in p -> halts (from_align format max_args p) (from (pt_ptr p)).
Proof.
  intros Hp Ha. unfold from_align. apply check_eof_ends; [done|done|]. intros _ _ _ _.
  apply (halts_bind _ _ _ _ (parse_align_ends p Hp Ha)). intros [q|]; [|done]. intros (Hq & Hn & Ha'). unfold inside in *.
  apply (from_mono _ (pt_ptr q)); [|lia|done]. apply check_eof_ends; [unfold inside; lia|done|]. intros _ _ _ _.
  apply from_flags_ends; [unfold inside; lia|done].
Qed.

Lemma parse_fields_ends p : inside (pt_ptr p) -> args_in p -> halts (parse_fields format max_args p) (from (pt_ptr p)).
Proof.
  intros Hp Ha. unfold parse_fields. apply chr_ends; [done|]. intros c Hc _.
  case_test; [by apply advanced_refl|]. case_test; [by apply from_flags_ends|].
  case_test; [by apply from_width_ends|]. case_test; [by apply parse_precision_ends|by apply from_align_ends].
Qed.

(** After a brace at [ptr]. *)
Lemma parse_index_ends ptr p : 0 <= ptr -> chr format ptr = Ret (ch "{") -> pt_ptr p = ptr + 1 -> 0 <= pt_arg p <= uses ptr ->
  halts (parse_index format max_args p) (fun r => match r with None => True
    | Some (i, q, a) => ptr + 1 <= q <= zlen format /\ noclose (ptr + 1) q /\ index_ok i /\ 0 <= a <= uses q end).
Proof.
  intros H0 Hb Ep Ha. pose proof (chr_room _ _ Hb ltac:(done)) as Hr. assert (Hp : inside (ptr + 1)) by (unfold inside; lia).
  pose proof (uses_at ptr _ Hb eq_refl) as Hu. unfold parse_index. rewrite Ep. apply chr_ends; [done|]. intros d _ Ed. destruct (isdigit d) eqn:E.
  - apply (halts_bind _ _ _ _ (read_int_ends (ptr + 1) Hp)). intros [v q] (Hq & Hn & Hv). simpl in Hq, Hn, Hv.
    destruct (Z.leb_spec max_args v); simpl; [done|]. split; [done|]. split; [done|].
    split; [by apply (index_named ptr (ch "{") d)|]. pose proof (uses_mono (ptr + 1) q). lia.
  - destruct (Z.leb_spec max_args (pt_arg p)); simpl; [done|]. split; [lia|]. split; [apply noclose_refl|].
    split; [apply (index_auto _ (ptr + 1)); lia|lia].
Qed.

Lemma parse_head_ends ptr arg :
  0 <= ptr -> chr format ptr = Ret (ch "{") -> 0 <= arg <= uses ptr ->
  halts (parse_head format max_args ptr arg) (fun r => match r with None => True
    | Some (i, q) => advanced (ptr + 1) q /\ (0 < max_args -> index_ok i) end).
Proof.
  intros H0 Hb Ha. pose proof (chr_room _ _ Hb ltac:(done)) as Hp. pose proof (uses_at ptr _ Hb eq_refl) as Hu.
  unfold parse_head. cbv zeta. apply chr_ends; [unfold inside; lia|]. intros c Hc _.
  set (p := mk_parse _ _ _ _ _ _ _ _ _). assert (Hpi : inside (pt_ptr p)) by (unfold inside; simpl; lia).
  assert (Hpa : args_in p) by (split; [simpl; lia|done]).
  case_test; [split; [by apply (advanced_refl p)|intros; apply (index_auto 0 (ptr + 1)); lia]|]. case_test; [done|].
  apply (halts_bind _ _ _ _ (parse_index_ends ptr p H0 Hb eq_refl Ha)). intros [[[index q] a]|]; [|done]. intros (Hq & Hn & Hi & Ha').
  set (p' := with_width p q 0 false a). assert (Hpa' : args_in p') by done. apply chr_ends; [unfold inside; lia|]. intros d Hd Ed.
  case_test; [split; [exact (conj Hq (conj Hn Hpa'))|done]|]. destruct (Z.eqb_spec d (ch ":")) as [->|]; [|done]. specialize (Hd ltac:(done)).
  assert (Hpa2 : args_in (at_ptr p' (q + 1))) by (apply (args_in_at p'); simpl; try done; lia).
  apply (halts_bind _ _ _ _ (parse_fields_ends (at_ptr p' (q + 1)) ltac:(unfold inside; simpl; lia) Hpa2)).
  intros [[r b]|]; [|done]. intros Hr. split; [|done]. apply (advanced_mono _ (q + 1)); [exact Hr|lia|].
  apply (noclose_trans _ q); [done|by apply (noclose_one _ (ch ":"))].
Qed.

(** The type of a specifier is a suffix of its text. *)
Lemma type_plain ptr q e :
  chr format ptr = Ret (ch "{") -> chr format (ptr + 1) <> Ret (ch "{") -> ptr + 1 <= q <= e -> chr format e = Ret (ch "}") ->
  noclose (ptr + 1) e -> lax \/ plain_type (take (Z.to_nat (e - q)) (drop (Z.to_nat q) format)) = true.
Proof.
  intros Hptr Hnext Hq He Hn. destruct Hplain as [H|H]; [by left|]. destruct Hn as [Hn|Hn]; [by left|right].
  destruct (chr_lookup _ _ Hptr ltac:(done)) as [H0 Hl]. destruct (chr_lookup _ _ He ltac:(done)) as [_ Hle].
  apply (plain_specs_drop _ (Z.to_nat ptr)) in H. rewrite (drop_S _ _ _ Hl) in H. cbn [plain_specs] in H.
  set (l := drop (S (Z.to_nat ptr)) format) in *.
  assert (Hl' : forall i, l !! i = format !! Z.to_nat (ptr + 1 + Z.of_nat i)) by (intros i; unfold l; rewrite lookup_drop; f_equal; lia).
  assert (Hne : (nth 0 l 0 =? ch "{") = false).
  { apply Z.eqb_neq. intros E. apply Hnext. specialize (Hl' 0%nat). destruct l as [|c l0]; [done|]. change (c = ch "{") in E. subst c. change (_ !! 0%nat) with (Some (ch "{")) in Hl'.
    replace (ptr + 1) with (Z.of_nat (Z.to_nat (ptr + 1))) by lia. apply lookup_chr. symmetry. by replace (Z.to_nat (ptr + 1)) with (Z.to_nat (ptr + 1 + Z.of_nat 0)) by lia. }
  rewrite Hne in H. rewrite Z.eqb_refl in H. cbn [andb negb] in H. apply andb_true_iff in H as [H _].
  rewrite (until_close_take l (Z.to_nat (e - ptr - 1))) in H.
  - apply (suffixes_plain_drop _ (Z.to_nat (q - ptr - 1))) in H. unfold l in H. rewrite skipn_firstn_comm, drop_drop in H.
    replace (S (Z.to_nat ptr) + Z.to_nat (q - ptr - 1))%nat with (Z.to_nat q) in H by lia.
    by replace (Z.to_nat (e - ptr - 1) - Z.to_nat (q - ptr - 1))%nat with (Z.to_nat (e - q)) in H by lia.
  - rewrite Hl'. rewrite <- Hle. f_equal. lia.
  - intros i Hi. rewrite Hl'. intros E. apply lookup_chr in E. rewrite Z2Nat.id in E by lia. apply (Hn (ptr + 1 + Z.of_nat i)); [lia|done].
Qed.

(** What a valid specifier refers to exists. *)
Definition in_range (p : parsed_fmt_spec_t) : Prop :=
  index_ok (ps_index p) /\ (ps_width_is_index p = true -> index_ok (ps_width p)) /\
  (ps_precision_is_index p = true -> index_ok (ps_precision p)).

(** A brace specifier is at least one character and ends in the format. *)
Definition parsed_ok (ptr count : Z) (r : Z * parsed_fmt_spec_t * Z * Z) : Prop :=
  let '(m, p, a, c) := r in
  1 <= m /\ ptr + m <= zlen format /\ ps_type_len p = zlen (ps_type p) /\ 0 <= a <= uses (ptr + m) /\
  (0 < max_args -> count <= max_args /\ (lax \/ count <= limit) -> c <= max_args /\ (lax \/ c <= limit)) /\
  (ps_valid p = true -> (0 < max_args -> in_range p) /\ (lax \/ plain_type (ps_type p) = true)).

Lemma max_arg_ok i p : index_ok i -> (pt_width_is_index p = true -> index_ok (pt_width p)) ->
  (pt_precision_is_index p = true -> index_ok (pt_precision p)) -> index_ok (max_arg i p).
Proof.
  intros Hi A2 A3. assert (Hmx : forall a b, index_ok a -> index_ok b -> index_ok (Z.max a b)).
  { intros a b [Ha Ha'] [Hb Hb']. split; [lia|]. destruct Ha' as [H|Ha']; [by left|]. destruct Hb' as [H|Hb']; [by left|]. right. lia. }
  unfold max_arg. cbv zeta. destruct (pt_precision_is_index p); [apply Hmx; [|by apply A3]|]; (destruct (pt_width_is_index p); [apply Hmx; [done|by apply A2]|done]).
Qed.

Lemma count_ok count i :
  count <= max_args /\ (lax \/ count <= limit) -> index_ok i -> Z.max count (i + 1) <= max_args /\ (lax \/ Z.max count (i + 1) <= limit).
Proof.
  intros [Hc Hl] [Hi Hi']. split; [lia|]. destruct Hl as [H|Hl]; [by left|]. destruct Hi' as [H|Hi']; [by left|]. right. lia.
Qed.

Lemma parse_fmt_spec_ends ptr arg count :
  0 <= ptr -> chr format ptr = Ret (ch "{") -> chr format (ptr + 1) <> Ret (ch "{") -> 0 <= arg <= uses ptr ->
  halts (parse_fmt_spec format max_args ptr arg count) (parsed_ok ptr count).
Proof.
  intros H0 Hc Hnext Ha. assert (Hp : ptr + 1 <= zlen format) by exact (chr_room _ _ Hc ltac:(done)).
  assert (Hfuel : forall q, 0 <= q -> zlen format - q <= Z.of_nat (length format)) by (intros; unfold zlen; lia).
  assert (Hexit : halts (e ← find_close (length format) format ptr; c ← chr format e;
      Ret (e - ptr + (if c =? ch "}" then 1 else 0), invalid_spec, arg, count)) (parsed_ok ptr count)).
  { apply (halts_bind _ _ _ _ (find_close_ends _ ptr ltac:(unfold inside; lia) (Hfuel ptr H0))).
    intros e (He & _ & c & Ec & Hcc). rewrite Ec. cbn [mbind outcome_bind halts].
    assert (e <> ptr) by (intros ->; rewrite Hc in Ec; injection Ec as <-; by destruct Hcc).
    assert (e + (if c =? ch "}" then 1 else 0) <= zlen format).
    { destruct (Z.eqb_spec c (ch "}")) as [->|]; [|lia]. exact (chr_room _ _ Ec ltac:(done)). }
    set (m := e - ptr + _). assert (Hm : 1 <= m /\ ptr + m <= zlen format) by (unfold m in *; destruct (c =? ch "}"); lia).
    pose proof (uses_mono ptr (ptr + m) ltac:(lia)). split_and!; try done; lia. }
  unfold parse_fmt_spec. apply (halts_bind _ _ _ _ (parse_head_ends ptr arg H0 Hc Ha)). intros [[index p]|]; [|by intros _].
  intros ((Hq & Hn & A1 & A2 & A3) & Hi).
  apply (halts_bind _ _ _ _ (find_close_ends _ (pt_ptr p) ltac:(unfold inside; lia) (Hfuel (pt_ptr p) ltac:(lia)))).
  intros e (He & Hne & c & Ec & Hcc). rewrite Ec. cbn [mbind outcome_bind]. destruct (Z.eqb_spec c 0) as [->|Hc0]; [exact Hexit|].
  pose proof (chr_room _ _ Ec Hc0) as Hroom. destruct Hcc as [->| ->]; [done|]. unfold read_at.
  rewrite (proj2 (Z.leb_le 0 _)), (proj2 (Z.leb_le 0 _)), (proj2 (Z.leb_le (_ + _) _)) by lia. cbn [andb mbind outcome_bind halts parsed_ok].
  split; [lia|]. split; [lia|]. split; [done|]. split; [pose proof (uses_mono (pt_ptr p) (ptr + (e - ptr + 1))); lia|]. split.
  - intros Hpos Hcount. apply count_ok; [done|]. apply max_arg_ok; [by apply Hi|done..].
  - intros _. split; [intros Hpos; split; [by apply Hi|done]|].
    apply (type_plain ptr (pt_ptr p) e); [done|done|lia|done|]. by apply (noclose_trans _ (pt_ptr p)).
Qed.
End parsing.

(** ** The formatter stays in its buffer and ends *)

(** A loop whose body decreases a measure while it keeps an invariant. *)
Lemma while_ends {St R} (body : St -> outcome (ctl St R)) (I : St -> Prop) (mu : St -> Z) (Q : R -> Prop) :
  (forall s, I s -> 0 <= mu s /\
    halts (body s) (fun c => match c with Next s' => I s' /\ mu s' < mu s | Stop r => Q r end)) ->
  forall fuel s, I s -> mu s < Z.of_nat fuel -> halts (while_loop fuel body s) Q.
Proof.
  intros Hbody. induction fuel as [|fuel IH]; intros s Hs Hf; destruct (Hbody s Hs) as [H0 Hb]; [lia|].
  cbn [while_loop]. apply (halts_bind _ _ _ _ Hb). intros [s'|r] Hc; [|exact Hc]. destruct Hc as [Hs' Hmu].
  apply IH; [done|]. lia.
Qed.

Ltac or_lax H := destruct H as [H|H]; [by left|].

Section run.
Variable strerror : Z -> option (list Z).
Context (format : list Z) (max_args limit : Z) (b0 : fmt_buffer_t).
Context (Hruns : lax \/ short_runs 9 format = true) (Hplain : lax \/ plain_specs format = true).
Context (Hmax : lax \/ 0 < max_args <= FMT_MAX_ARGS).
Context (Hlimit : lax \/ max_args <= limit \/ (implicit_args format = true /\ uses format (zlen format) <= limit)).

(** The argument of any plain formatter. *)
Definition value_ok (v : fmt_raw_value) : Prop := fits 64 (rv_bits v) /\ (lax \/ sint 64 (rv_bits v) <> - 2 ^ 63).

Definition spec_plain (sp : fmt_spec_t) : Prop :=
  match sp_formatter sp with None => True | Some f => plain_formatter f = true end.

(** An entry of the table can be written in the second pass. *)
Definition entry_ready (e : entry_t) : Prop := ps_valid (en_parsed e) = true -> in_range max_args limit (en_parsed e) /\ spec_plain (en_spec e).

(** The arrays are long enough and enough arguments are left. *)
Record ready (s : fmt_state) : Prop := mk_ready {
  rd_values : length (fs_values s) = 10%nat;
  rd_types : length (fs_argtypes s) = 10%nat;
  rd_loaded : 0 <= fs_loaded s;
  rd_count : fs_arg_count s <= max_args;
  rd_limit : fs_arg_count s <= limit;
  rd_args : limit - fs_loaded s <= zlen (fs_args s);
  rd_specs : Forall entry_ready (fs_specs s);
}.

Record st_ok (s : fmt_state) : Prop := mk_st_ok {
  so_ptr : inside format (fs_ptr s);
  so_grew : grew b0 (fs_n s) (fs_buf s);
  so_values : Forall value_ok (fs_values s);
  so_args : Forall value_ok (fs_args s);
  so_specs : Forall (fun e => inside format (en_end e)) (fs_specs s);
  so_two : match fs_two s with None => True | Some (start, _) => inside format start end;
  so_index : 0 <= fs_arg_index s;
  so_ready : lax \/ ready s;
}.

(** What the steps inside of a handler leave alone. *)
Definition kept (s s' : fmt_state) : Prop :=
  st_ok s' /\ fs_ptr s' = fs_ptr s /\ fs_specs s' = fs_specs s /\ fs_two s' = fs_two s /\ fs_arg_index s' = fs_arg_index s.

Lemma kept_same s : st_ok s -> kept s s.
Proof. done. Qed.

(** Chains two such steps. *)
Lemma kept_bind s (x : outcome fmt_state) f :
  halts x (kept s) -> (forall s', st_ok s' -> halts (f s') (kept s')) -> halts (x ≫= f) (kept s).
Proof.
  intros Hx Hf. apply (halts_bind _ _ _ _ Hx). intros s' (Hs & E1 & E2 & E3 & E4). eapply halts_mono; [by apply Hf|].
  intros s2 (Hs2 & F1 & F2 & F3 & F4). unfold kept. by rewrite F1, F2, F3, F4.
Qed.

(** The writers in use: they stay in the buffer, and return. *)
Definition usable (w : writer) : Prop := safe w /\ (lax \/ some_text w).

Lemma usable_char c : usable (w_char c).
Proof. split; [apply safe_char|right; apply st_char]. Qed.

Lemma usable_spec sp : bits_ok sp -> (lax \/ (sint 64 (rv_bits (sp_value sp)) <> - 2 ^ 63 /\ spec_plain sp)) -> usable (fmtlib_format_spec strerror sp).
Proof.
  intros Hb Hs. split; [by apply safe_format_spec|]. or_lax Hs. right. destruct Hs as [Hn Hp]. apply st_format_spec. unfold spec_plain in Hp.
  destruct (sp_formatter sp); [by apply plain_arg|done].
Qed.

Lemma usable_bad_type p : ps_type_len p = zlen (ps_type p) -> usable (w_bad_type p).
Proof.
  intros E. unfold w_bad_type. rewrite E. split; [|right].
  - apply safe_seq; [apply safe_str|]. apply safe_seq; [apply safe_all|apply safe_char].
  - apply st_seq; [apply st_str|]. apply st_seq; [apply st_all|apply st_char].
Qed.

Lemma fs_write_ends s w : st_ok s -> usable w -> halts (fs_write s w) (kept s).
Proof.
  intros [Hp Hg Hv Ha Hsp Ht Hi Hr] [Hw Hret]. pose proof (Hw _ (gr_ok _ _ _ Hg)) as Hwr. apply (halts_bind _ _ (fun r => grew (fs_buf s) r.1 r.2)).
  - destruct Hret as [H|[t Hret]]; [by destruct (w (fs_buf s))|]. by rewrite (Hret _ (gr_ok _ _ _ Hg)) in *.
  - intros [m b] Hm. simpl in *. split; [|done]. split; simpl; try done; [by eapply grew_trans|]. or_lax Hr. right. by destruct Hr.
Qed.

Lemma fs_write_single_ends s w : st_ok s -> usable w -> halts (fs_write_single s w) (kept s).
Proof. intros Hs Hw. unfold fs_write_single. case_test; [by apply fs_write_ends|by apply kept_same]. Qed.

Lemma fs_argtype_ends s i t : st_ok s -> (lax \/ index_ok max_args limit i) -> halts (fs_argtype s i t) (kept s).
Proof.
  intros [Hp Hg Hv Ha Hsp Ht Hin Hr] Hi. apply (halts_bind _ _ (fun ts => ts = <[Z.to_nat i := t]> (fs_argtypes s))).
  - apply halts_store. or_lax Hi. destruct Hi as [Hi _]. or_lax Hr. destruct Hmax as [?|Hmx]; [by left|]. right. rewrite (rd_types _ Hr). lia.
  - intros ts ->. split; [|done]. split; try done. or_lax Hr. right. destruct Hr. split; simpl; try done. by rewrite length_insert.
Qed.

Lemma u64_value_ok v : - 2 ^ 63 < v < 2 ^ 63 -> value_ok (raw_uint64 v).
Proof. intros Hv. split; [by apply wrap_range|right]. simpl. rewrite sint64_u64 by lia. lia. Qed.

Lemma va_value_ok t v : value_ok v -> value_ok (va_value t v).
Proof.
  intros Hv. destruct t; simpl; try done.
  - apply u64_value_ok. pose proof (sint32_range (rv_bits v)). lia.
  - destruct Hv as [Hf Hn]. unfold value_ok. simpl. by rewrite (wrap_small 64) by done.
  - destruct Hv as [Hf Hn]. unfold value_ok. simpl. by rewrite (wrap_small 64) by done.
Qed.

Lemma load_args_ends k : forall s, st_ok s -> (lax \/ k = 0%nat \/ fs_loaded s + Z.of_nat k <= Z.min max_args limit) -> halts (load_args k s) (kept s).
Proof.
  induction k as [|k IH]; intros s Hs Hk; [by apply kept_same|]. cbn [load_args]. pose proof Hs as [Hp Hg Hv Ha Hsp Ht Hin Hr].
  assert (Hroom : lax \/ ready s /\ max_args <= 10 /\ fs_loaded s + Z.of_nat (S k) <= Z.min max_args limit).
  { or_lax Hk. or_lax Hr. destruct Hmax as [?|Hmx]; [by left|]. right. split; [done|]. split; [lia|]. by destruct Hk. }
  apply (halts_bind _ _ (fun _ => True)).
  { eapply halts_mono; [apply halts_load|done]. or_lax Hroom. right. destruct Hroom as [R Hk']. pose proof (rd_loaded _ R). rewrite (rd_types _ R). lia. }
  intros t _. apply (halts_bind _ _ (fun r => value_ok r.1 /\ Forall value_ok r.2 /\ zlen (fs_args s) <= zlen r.2 + 1)).
  - assert (Hn : halts match fs_args s with [] => Fault | a :: args => Ret (va_value t a, args) end
                   (fun r => value_ok r.1 /\ Forall value_ok r.2 /\ zlen (fs_args s) <= zlen r.2 + 1)).
    { destruct (fs_args s) as [|a args] eqn:E.
      - simpl. destruct Hroom as [H|[R Hk']]; [done|]. pose proof (rd_args _ R) as H. rewrite E in H. unfold zlen in H. simpl in H. lia.
      - apply Forall_cons in Ha as [Ha Hrest]. split; [by apply va_value_ok|]. split; [done|]. unfold zlen. simpl. lia. }
    destruct t; try exact Hn. split; [by apply u64_value_ok|]. split; [exact Ha|simpl; lia].
  - intros [v args] (Hval & Hargs & Hlen). simpl in Hval, Hargs, Hlen. apply (halts_bind _ _ (fun vs => vs = <[Z.to_nat (fs_loaded s) := v]> (fs_values s))).
    { apply halts_store. or_lax Hroom. right. destruct Hroom as [R Hk']. pose proof (rd_loaded _ R). rewrite (rd_values _ R). lia. }
    intros vs ->. eapply halts_mono; [apply IH|].
    + split; try done; [by apply Forall_insert|]. or_lax Hroom. right. destruct Hroom as [[] Hk']. split; simpl; try done; [by rewrite length_insert|lia|lia].
    + or_lax Hroom. right. right. simpl. lia.
    + intros s' (H & E1 & E2 & E3 & E4). split; [done|]. by rewrite E1, E2, E3, E4.
Qed.

Lemma load_all_ends s : st_ok s -> halts (load_all s) (kept s).
Proof. intros Hs. apply load_args_ends; [done|]. pose proof (so_ready _ Hs) as Hr. or_lax Hr. right. pose proof (rd_count _ Hr). pose proof (rd_limit _ Hr). lia. Qed.

Lemma with_values_ends s p sp : st_ok s -> (lax \/ (in_range max_args limit p /\ spec_plain sp)) ->
  halts (with_values (fs_values s) p sp) (fun sp' => usable (fmtlib_format_spec strerror sp')).
Proof.
  intros Hs Hp. pose proof (so_values _ Hs) as Hvs.
  assert (Hload : forall i, (lax \/ index_ok max_args limit i) -> halts (load (fs_values s) i) (fun v => fs_values s !! Z.to_nat i = Some v)).
  { intros i Hi. apply halts_load. pose proof (so_ready _ Hs) as Hr. or_lax Hr. or_lax Hi. destruct Hi as [Hi _]. destruct Hmax as [?|Hmx]; [by left|]. right. rewrite (rd_values _ Hr). lia. }
  unfold with_values. apply (halts_bind _ _ _ _ (Hload (ps_index p) ltac:(or_lax Hp; right; apply Hp))). intros v Hv.
  apply (halts_bind _ _ (fun _ => True)).
  { case_test; [|done]. eapply halts_bind; [apply Hload; or_lax Hp; right; by apply Hp|done]. }
  intros w _. apply (halts_bind _ _ (fun _ => True)).
  { case_test; [|done]. eapply halts_bind; [apply Hload; or_lax Hp; right; by apply Hp|done]. }
  intros pr _. destruct (Forall_lookup_1 _ _ _ _ Hvs Hv) as [Hf Hn]. simpl. apply usable_spec; [exact Hf|].
  or_lax Hn. or_lax Hp. right. split; [exact Hn|apply Hp].
Qed.

Lemma resolve_value sp : sp_value (fmtlib_resolve_type sp).2 = sp_value sp.
Proof.
  unfold fmtlib_resolve_type. case_test; [done|]. destruct (resolve_integral_type sp) eqn:E.
  { unfold resolve_integral_type in E. repeat case_test; by simplify_eq. }
  destruct (if sp_type_len sp =? 1 then _ else _) eqn:E2.
  { case_test; [|done]. unfold resolve_char_type in E2. repeat case_test; by simplify_eq. }
  by destruct (find_named named_types (sp_type sp)) as [[a f]|].
Qed.

(** A specifier takes one entry and moves past its text. *)
Definition took (s : fmt_state) (m arg : Z) (s' : fmt_state) : Prop :=
  st_ok s' /\ fs_ptr s' = fs_ptr s + m /\ length (fs_specs s') = S (length (fs_specs s)) /\ fs_arg_index s' = arg.

Lemma push_ok s e arg count two m :
  st_ok s -> inside format (fs_ptr s + m) -> en_end e = fs_ptr s + m ->
  (two = fs_two s \/ two = Some (fs_ptr s, length (fs_specs s))) ->
  0 <= arg -> (lax \/ (count <= max_args /\ count <= limit) /\ entry_ready e) ->
  took s m arg (fs_push s e (fs_ptr s + m) arg count two).
Proof.
  intros Hs Hm He Htwo Harg Hc. destruct Hs as [Hp Hg Hv Ha Hsp Ht Hi Hr].
  split; [|split; [done|split; [simpl; rewrite length_app; simpl; lia|done]]]. split; simpl; try done.
  - apply Forall_app. split; [done|]. constructor; [by rewrite He|done].
  - by destruct Htwo as [->| ->].
  - or_lax Hr. or_lax Hc. right. destruct Hr, Hc as [[]]. split; simpl; try done. apply Forall_app. split; [done|]. by constructor.
Qed.

Lemma took_kept s m arg s' x : took s m arg s' -> halts x (kept s') -> halts x (took s m arg).
Proof.
  intros (Hs & Ep & El & Ea) Hx. eapply halts_mono; [exact Hx|]. intros s2 (H2 & E1 & E2 & _ & E4). split; [done|].
  by rewrite E1, E2, E4.
Qed.

(** A specifier of a known type: its arguments are noted and, in a single pass,
    loaded and printed. *)
Lemma known_ends s p sp : st_ok s -> bits_ok sp -> sint 64 (rv_bits (sp_value sp)) <> - 2 ^ 63 -> (lax \/ (in_range max_args limit p /\ spec_plain sp)) ->
  halts (s ← fs_argtype s (ps_index p) (sp_argtype sp);
    s ← (if ps_width_is_index p then fs_argtype s (ps_width p) FMT_ARGTYPE_INT32 else Ret s);
    s ← (if ps_precision_is_index p then fs_argtype s (ps_precision p) FMT_ARGTYPE_INT32 else Ret s);
    if negb (single_pass s) then Ret s
    else match sp_argtype sp with
         | FMT_ARGTYPE_NONE => fs_write s (fmtlib_format_spec strerror sp)
         | _ => s ← load_all s; sp ← with_values (fs_values s) p sp; fs_write s (fmtlib_format_spec strerror sp)
         end) (kept s).
Proof.
  intros Hs Hb Hn Hp. apply kept_bind; [apply fs_argtype_ends; [done|]; or_lax Hp; right; apply Hp|]. clear s Hs. intros s Hs.
  apply kept_bind; [case_test; [apply fs_argtype_ends; [done|]; or_lax Hp; right; by apply Hp|by apply kept_same]|]. clear s Hs. intros s Hs.
  apply kept_bind; [case_test; [apply fs_argtype_ends; [done|]; or_lax Hp; right; by apply Hp|by apply kept_same]|]. clear s Hs. intros s Hs.
  case_test; [by apply kept_same|].
  assert (Hload : halts (s' ← load_all s; sp' ← with_values (fs_values s') p sp; fs_write s' (fmtlib_format_spec strerror sp')) (kept s)).
  { apply kept_bind; [by apply load_all_ends|]. intros s5 H5.
    apply (halts_bind _ _ _ _ (with_values_ends s5 p sp H5 Hp)). intros sp' Hsp'. by apply fs_write_ends. }
  destruct (sp_argtype sp); try exact Hload. apply fs_write_ends; [done|]. apply usable_spec; [done|]. or_lax Hp. right. split; [done|apply Hp].
Qed.

Lemma handle_spec_ends s brace m p arg count :
  st_ok s -> parsed_ok format max_args limit (fs_ptr s) (fs_arg_count s) (m, p, arg, count) -> halts (handle_spec strerror s brace m p arg count) (took s m arg).
Proof.
  intros Hs (Hm1 & Hm2 & Hlen & Harg & Hcount & Hvalid). pose proof (so_ptr _ Hs) as Hp. unfold inside in Hp.
  assert (Hm : inside format (fs_ptr s + m)) by (unfold inside; lia).
  assert (Hc : lax \/ count <= max_args /\ count <= limit).
  { pose proof (so_ready _ Hs) as Hr. or_lax Hr. destruct Hmax as [?|Hmx]; [by left|].
    destruct Hcount as [Hc Hl]; [lia|split; [apply Hr|right; apply Hr]|]. or_lax Hl. by right. }
  unfold handle_spec. destruct (ps_valid p) eqn:Ev; cbn [negb]; cycle 1.
  { simpl. apply push_ok; try done; [by left|lia|]. or_lax Hc. right. split; [done|]. intros E. simpl in E. congruence. }
  destruct (Hvalid eq_refl) as [Hin Hty]. set (two := if _ && _ then _ else _).
  assert (Htwo : two = fs_two s \/ two = Some (fs_ptr s, length (fs_specs s))) by (unfold two; case_test; auto).
  apply (halts_bind _ _ (fun sp => sp_value sp = raw_uint64 0 /\ sp_type sp = ps_type p /\ sp_type_len sp = zlen (sp_type sp))).
  { unfold unresolved. destruct (Z.ltb_spec FMTLIB_MAX_TYPE_LEN (ps_type_len p)); [|done]. simpl. destruct Hty as [H'|Hty]; [done|].
    unfold plain_type in Hty. apply andb_true_iff in Hty as [Hty _]. zbool. lia. }
  intros sp (Esv & Est & Esl). pose proof (resolve_value sp) as Ev'. pose proof (resolve_formatter sp Esl) as Ef.
  destruct (fmtlib_resolve_type sp) as [known sp']. simpl in Ev', Ef.
  assert (Hsp : lax \/ (in_range max_args limit p /\ spec_plain sp')).
  { or_lax Hty. destruct Hmax as [?|Hmx]; [by left|]. right. split; [apply Hin; lia|]. unfold plain_type in Hty. apply andb_true_iff in Hty as [_ Hty].
    unfold spec_plain. rewrite Ef, Est. by destruct (type_formatter (ps_type p)). }
  assert (Hpush : took s m arg (fs_push s (mk_entry p sp' (fs_ptr s + m)) (fs_ptr s + m) arg count two)).
  { apply push_ok; try done; [lia|]. or_lax Hc. or_lax Hsp. right. split; [done|]. by intros _. }
  set (s1 := fs_push _ _ _ _ _ _) in *. apply (took_kept s m arg s1 _ Hpush). pose proof (proj1 Hpush) as H1. destruct known; cbn [negb].
  - apply known_ends; [done|unfold bits_ok|..|done]; rewrite Ev', Esv; by vm_compute.
  - apply kept_bind; [|intros s2 H2; apply fs_argtype_ends; [done|]; or_lax Hsp; right; apply Hsp].
    destruct brace; [|by apply kept_same]. apply fs_write_single_ends; [done|]. by apply usable_bad_type.
Qed.

(** The opening braces from a position on. *)
Definition braces (p : Z) : Z := zlen (filter (fun c => c = ch "{") (drop (Z.to_nat p) format)).

Lemma braces_mono p q : 0 <= p <= q -> braces q <= braces p.
Proof.
  intros H. unfold braces, zlen. replace (Z.to_nat q) with (Z.to_nat p + Z.to_nat (q - p))%nat by lia.
  rewrite <- drop_drop. set (l := drop (Z.to_nat p) format).
  rewrite <- (take_drop (Z.to_nat (q - p)) l) at 2. rewrite filter_app, length_app. lia.
Qed.

Lemma braces_at p : 0 <= p -> chr format p = Ret (ch "{") -> braces p = 1 + braces (p + 1).
Proof.
  intros H0 Hc. pose proof (chr_room _ _ _ Hc ltac:(done)) as Hr. unfold chr in Hc.
  rewrite (proj2 (Z.leb_le 0 p)), (proj2 (Z.ltb_lt p _)) in Hc by lia. simpl in Hc. unfold load in Hc.
  rewrite (proj2 (Z.leb_le 0 p)) in Hc by lia. destruct (format !! Z.to_nat p) as [c|] eqn:E; [|done]. injection Hc as ->.
  unfold braces, zlen. rewrite (drop_S _ _ _ E). rewrite filter_cons_True by done.
  replace (Z.to_nat (p + 1)) with (S (Z.to_nat p)) by lia. simpl length. lia.
Qed.

Context (Hpercent : Forall (fun c => c <> ch "%") format).

Lemma chr_not_percent p c : chr format p = Ret c -> c <> ch "%".
Proof.
  unfold chr, load. destruct (_ && _).
  - destruct (0 <=? p); [|done]. destruct (format !! Z.to_nat p) as [x|] eqn:E; [|done]. simpl. intros [= <-].
    by apply (Forall_lookup_1 _ _ _ _ Hpercent E).
  - destruct (p =? zlen format); [|done]. by intros [= <-].
Qed.

Lemma at_ok s p : st_ok s -> inside format p -> st_ok (fs_at s p).
Proof. intros [? ? ? ? ? ? ? Hr] Hp. split; try done. or_lax Hr. right. by destruct Hr. Qed.

(** The loops' steps that write and move on. *)
Lemma write_move s w p (Q : fmt_state -> Prop) :
  st_ok s -> usable w -> inside format p ->
  (forall s', kept s s' -> st_ok (fs_at s' p) -> Q s') -> halts (fs_write s w) Q.
Proof.
  intros Hs Hw Hp HQ. eapply halts_mono; [by apply fs_write_ends|]. intros s' Hk. apply HQ; [done|].
  by apply at_ok; [apply Hk|].
Qed.

Lemma write_single_move s w p (Q : fmt_state -> Prop) :
  st_ok s -> usable w -> inside format p ->
  (forall s', kept s s' -> st_ok (fs_at s' p) -> Q s') -> halts (fs_write_single s w) Q.
Proof.
  intros Hs Hw Hp HQ. eapply halts_mono; [by apply fs_write_single_ends|]. intros s' Hk. apply HQ; [done|].
  by apply at_ok; [apply Hk|].
Qed.

(** With room in the table for every brace to come, the first loop moves on in
    each iteration. *)
Definition room (s : fmt_state) : Prop := st_ok s /\ Z.of_nat (length (fs_specs s)) + braces (fs_ptr s) <= FMT_MAX_SPECS /\
  fs_arg_index s <= uses format (fs_ptr s).

Definition left_to_read (s : fmt_state) : Z := zlen format - fs_ptr s.

Lemma room_at s s' p :
  room s -> kept s s' -> st_ok (fs_at s' p) -> fs_ptr s < p -> room (fs_at s' p) /\ left_to_read (fs_at s' p) < left_to_read s.
Proof.
  intros (Hs & Hr & Hu) (_ & Ep & Es & _ & Ea) H1 Hp. split; [|unfold left_to_read; simpl; lia]. split; [done|]. simpl. rewrite Es, Ea.
  pose proof (braces_mono (fs_ptr s) p). pose proof (uses_mono format (fs_ptr s) p). destruct (so_ptr _ Hs). lia.
Qed.

Lemma format_step_ends s :
  room s -> 0 <= left_to_read s /\
  halts (format_step strerror format max_args s)
    (fun c => match c with Next s' => room s' /\ left_to_read s' < left_to_read s | Stop s' => room s' end).
Proof.
  intros Hr. destruct Hr as (Hs & Hb & Hu) eqn:E. clear E. pose proof (so_ptr _ Hs) as Hp. unfold inside in Hp.
  split; [unfold left_to_read; lia|]. unfold format_step. apply chr_ends; [exact Hp|]. intros c Hc Ec.
  destruct (Z.eqb_spec c 0) as [->|Hne]; [done|]. specialize (Hc Hne).
  destruct (fmtlib_buffer_full (fs_buf s)); [done|]. cbn [orb].
  destruct (Z.eqb_spec c (ch "%")) as [->|]; [by destruct (chr_not_percent _ _ Ec)|]. rewrite orb_false_r.
  destruct (Z.eqb_spec c (ch "{")) as [->|Hnb].
  - apply chr_ends; [unfold inside; lia|]. intros c1 Hc1 Ec1. destruct (Z.eqb_spec c1 (ch "{")) as [->|].
    + specialize (Hc1 ltac:(done)).
      apply (halts_bind _ _ _ _ (write_single_move s _ (fs_ptr s + 2) _ Hs (usable_char _) ltac:(unfold inside; lia) (fun s' H1 H2 => conj H1 H2))).
      intros s' [Hk H2]. apply room_at; [done|done|done|lia].
    + pose proof (braces_at _ (proj1 Hp) Ec) as Hbr. pose proof (zlen_nonneg (filter (fun c => c = ch "{") (drop (Z.to_nat (fs_ptr s + 1)) format))).
      unfold braces at 2 in Hbr. rewrite (proj2 (Z.leb_gt _ _)) by lia.
      assert (Hnext : chr format (fs_ptr s + 1) <> Ret (ch "{")) by (rewrite Ec1; congruence).
      apply (halts_bind _ _ _ _ (parse_fmt_spec_ends format Hruns Hplain max_args limit Hlimit (fs_ptr s) (fs_arg_index s) (fs_arg_count s) (proj1 Hp) Ec Hnext (conj (so_index _ Hs) Hu))).
      intros [[[m p] arg] count] Hok. apply (halts_bind _ _ _ _ (handle_spec_ends s true m p arg count Hs Hok)). destruct Hok as (Hm & Hin & _ & Harg & _).
      intros s' (H' & Ep & El & Ea). split; [|unfold left_to_read; lia]. split; [done|]. rewrite Ep, El, Ea. split; [|lia].
      pose proof (braces_mono (fs_ptr s + 1) (fs_ptr s + m)). unfold braces in *. lia.
  - destruct (Z.eqb_spec c (ch "}")) as [->|].
    + apply (halts_bind _ _ _ _ (fs_write_single_ends s _ Hs (usable_char _))). intros s' Hk.
      apply chr_ends; [unfold inside; lia|]. intros c1 Hc1 _.
      apply room_at; [done|done| |case_test; lia]. apply at_ok; [apply Hk|]. unfold inside.
      destruct (Z.eqb_spec c1 (ch "}")) as [->|]; [specialize (Hc1 ltac:(done))|]; lia.
    + apply (halts_bind _ _ _ _ (write_single_move s _ (fs_ptr s + 1) _ Hs (usable_char _) ltac:(unfold inside; lia) (fun s' H1 H2 => conj H1 H2))).
      intros s' [Hk H2]. apply room_at; [done|done|done|lia].
Qed.

(** The second pass moves on or takes an entry. *)
Definition left_to_copy (st : fmt_state * nat) : Z :=
  Z.max 0 (Z.of_nat (length (fs_specs st.1)) - Z.of_nat st.2) * (zlen format + 1) + left_to_read st.1.

Definition second_ok (n : nat) (s : fmt_state) : Prop := st_ok s /\ length (fs_specs s) = n.

Lemma second_move s s' p index :
  kept s s' -> st_ok (fs_at s' p) -> fs_ptr s < p ->
  second_ok (length (fs_specs s)) (fs_at s' p) /\ left_to_copy (fs_at s' p, index) < left_to_copy (s, index).
Proof.
  intros (_ & Ep & Es & _) H1 Hp. split; [split; [done|]; simpl; by rewrite Es|].
  unfold left_to_copy, left_to_read. simpl. rewrite Es. lia.
Qed.

Lemma second_take s s' p index :
  inside format (fs_ptr s) -> kept s s' -> st_ok (fs_at s' p) -> (index < length (fs_specs s))%nat ->
  second_ok (length (fs_specs s)) (fs_at s' p) /\ left_to_copy (fs_at s' p, S index) < left_to_copy (s, index).
Proof.
  intros Hin (_ & Ep & Es & _) H1 Hi. split; [split; [done|]; simpl; by rewrite Es|].
  pose proof (so_ptr _ H1) as Hp. unfold inside in *. simpl in Hp.
  unfold left_to_copy, left_to_read. simpl. rewrite Es. nia.
Qed.

Lemma second_step_ends n st :
  second_ok n st.1 -> 0 <= left_to_copy st /\
  halts (second_step strerror format st)
    (fun c => match c with Next st' => second_ok n st'.1 /\ left_to_copy st' < left_to_copy st | Stop s' => second_ok n s' end).
Proof.
  destruct st as [s index]. simpl fst. intros [Hs <-]. pose proof (so_ptr _ Hs) as Hp. pose proof Hp as Hpi. unfold inside in Hp.
  split; [unfold left_to_copy, left_to_read; simpl; nia|]. unfold second_step. apply chr_ends; [exact Hp|]. intros c Hc Ec.
  destruct (Z.eqb_spec c 0) as [->|Hne]; [done|]. specialize (Hc Hne).
  destruct (fmtlib_buffer_full (fs_buf s)); [done|]. cbn [orb].
  destruct (Nat.leb_spec (length (fs_specs s)) index) as [|Hi]; [done|].
  destruct (Z.eqb_spec c (ch "{")) as [->|Hnb].
  - apply chr_ends; [unfold inside; lia|]. intros c1 Hc1 Ec1. destruct (Z.eqb_spec c1 (ch "{")) as [->|].
    + specialize (Hc1 ltac:(done)).
      apply (halts_bind _ _ _ _ (write_move s _ (fs_ptr s + 2) _ Hs (usable_char _) ltac:(unfold inside; lia) (fun s' H1 H2 => conj H1 H2))).
      intros s' [Hk H2]. apply second_move; [done|done|lia].
    + destruct (fs_specs s !! index) as [e|] eqn:Ee; [|apply lookup_ge_None in Ee; lia]. destruct (negb (ps_valid (en_parsed e))) eqn:Ev.
      * pose proof (second_take s s (fs_ptr s) index Hpi (kept_same s Hs)) as H. destruct s. by apply H.
      * assert (Hrd : lax \/ (in_range max_args limit (en_parsed e) /\ spec_plain (en_spec e))).
        { pose proof (so_ready _ Hs) as Hr. or_lax Hr. right. apply (Forall_lookup_1 _ _ _ _ (rd_specs _ Hr) Ee). by apply negb_false_iff. }
        apply (halts_bind _ _ _ _ (with_values_ends s _ _ Hs Hrd)). intros sp Hsp.
        pose proof (Forall_lookup_1 _ _ _ _ (so_specs _ Hs) Ee) as He. simpl in He.
        apply (halts_bind _ _ _ _ (write_move s _ (en_end e) _ Hs Hsp He (fun s' H1 H2 => conj H1 H2))).
        intros s' [Hk H2]. apply second_take; done || lia.
  - destruct (Z.eqb_spec c (ch "}")) as [->|].
    + apply (halts_bind _ _ _ _ (fs_write_ends s _ Hs (usable_char _))). intros s' Hk.
      apply chr_ends; [unfold inside; lia|]. intros c1 Hc1 _.
      apply second_move; [done| |case_test; lia]. apply at_ok; [apply Hk|]. unfold inside.
      destruct (Z.eqb_spec c1 (ch "}")) as [->|]; [specialize (Hc1 ltac:(done))|]; lia.
    + apply (halts_bind _ _ _ _ (write_move s _ (fs_ptr s + 1) _ Hs (usable_char _) ltac:(unfold inside; lia) (fun s' H1 H2 => conj H1 H2))).
      intros s' [Hk H2]. apply second_move; [done|done|lia].
Qed.

Lemma tail_step_ends s :
  st_ok s -> 0 <= left_to_read s /\
  halts (tail_step format s)
    (fun c => match c with Next s' => st_ok s' /\ left_to_read s' < left_to_read s | Stop s' => st_ok s' end).
Proof.
  intros Hs. pose proof (so_ptr _ Hs) as Hp. unfold inside in Hp.
  split; [unfold left_to_read; lia|]. unfold tail_step. apply chr_ends; [exact Hp|]. intros c Hc _.
  destruct (Z.eqb_spec c 0) as [->|Hne]; [done|]. specialize (Hc Hne). destruct (fmtlib_buffer_full (fs_buf s)); [done|].
  apply (halts_bind _ _ _ _ (write_move s _ (fs_ptr s + 1) _ Hs (usable_char _) ltac:(unfold inside; lia) (fun s' H1 H2 => conj H1 H2))).
  intros s' [(_ & Ep & _) H2]. unfold halts. rewrite Ep. split; [done|]. unfold left_to_read. simpl. lia.
Qed.

Lemma second_pass_ends fuel s :
  st_ok s -> Z.of_nat (length (fs_specs s)) <= FMT_MAX_SPECS -> (31 * (length format + 1) <= fuel)%nat ->
  halts (second_pass strerror format fuel s) st_ok.
Proof.
  intros Hs Hl Hf. unfold second_pass. destruct (fs_two s) as [[start index]|] eqn:Et; [|done].
  apply (halts_bind _ _ _ _ (load_all_ends s Hs)). intros s1 (H1 & _ & Es & E2).
  assert (Hstart : inside format start) by (pose proof (so_two _ Hs) as H; by rewrite Et in H).
  assert (H2 : second_ok (length (fs_specs s)) (fs_at s1 start)) by (split; [by apply at_ok|simpl; by rewrite Es]).
  apply (halts_bind _ _ (second_ok (length (fs_specs s)))).
  - apply (while_ends _ (fun st => second_ok (length (fs_specs s)) st.1) left_to_copy);
      [intros st Hst; by apply second_step_ends|done|].
    destruct H2 as [_ H2]. unfold second_ok, left_to_copy, left_to_read, inside, zlen in *. simpl in *. rewrite H2.
    assert (Z.max 0 (Z.of_nat (length (fs_specs s)) - Z.of_nat index) <= 30) by lia. nia.
  - intros s2 [H3 _]. apply (while_ends _ st_ok left_to_read); [apply tail_step_ends|done|].
    pose proof (so_ptr _ H3) as H. unfold left_to_read, inside, zlen in *. lia.
Qed.
End run.

(** What formatting leaves: fewer bytes than the size are counted, terminators
    follow them up to the size, and the memory after the buffer is as before. *)
Definition formatted (buffer : list Z) (size : Z) (r : Z * list Z) : Prop :=
  0 <= r.1 < size /\ length r.2 = length buffer /\ (forall i, r.1 <= Z.of_nat i < size -> r.2 !! i = Some 0) /\
  (forall i, size <= Z.of_nat i -> r.2 !! i = buffer !! i).

Lemma fmt_format_halts strerror format max_args limit fuel buffer size args :
  Forall (fun c => c <> ch "%") format -> braces format 0 <= FMT_MAX_SPECS -> Forall value_ok args ->
  0 < size <= zlen buffer -> size < 2 ^ 64 -> (31 * (length format + 1) <= fuel)%nat ->
  (lax \/ plain_format format = true) -> (lax \/ 0 < max_args <= FMT_MAX_ARGS) ->
  (lax \/ 0 <= limit <= zlen args /\ (max_args <= limit \/ (implicit_args format = true /\ uses format (zlen format) <= limit))) ->
  halts (fmt_format strerror format max_args fuel buffer size args) (formatted buffer size).
Proof.
  intros Hpercent Hbraces Hargs Hsize H64 Hfuel Hpl Hmax Hlim.
  assert (Hruns : lax \/ short_runs 9 format = true) by (or_lax Hpl; right; by apply andb_true_iff in Hpl as [H _]).
  assert (Hspecs : lax \/ plain_specs format = true) by (or_lax Hpl; right; by apply andb_true_iff in Hpl as [_ H]).
  assert (Hlimit : lax \/ max_args <= limit \/ (implicit_args format = true /\ uses format (zlen format) <= limit)) by (or_lax Hlim; right; apply Hlim).
  set (mem := splice buffer 0 (replicate (Z.to_nat size) 0)).
  assert (Em : mem = replicate (Z.to_nat size) 0 ++ drop (Z.to_nat size) buffer)
    by (unfold mem, splice; simpl; by rewrite length_replicate).
  assert (Hmem : zlen mem = zlen buffer)
    by (rewrite Em; unfold zlen in *; rewrite length_app, length_replicate, length_drop; lia).
  set (b := mk_fb mem 0 (size - 1) 0). assert (Hb : fb_ok b) by (split; simpl; lia).
  unfold fmt_format, fmtlib_buffer. rewrite write_at_splice; [|lia|unfold zlen in *; rewrite length_replicate; lia].
  cbn [mbind outcome_bind]. rewrite wrap_small by (unfold fits; lia). fold mem b.
  match goal with |- halts (while_loop _ _ ?x ≫= _) _ => set (s0 := x) end.
  assert (H0 : room format max_args limit b s0).
  { split; [|split; [simpl; lia|unfold uses; apply zlen_nonneg]]. split; try done.
    - unfold inside. pose proof (zlen_nonneg format). simpl. lia.
    - by apply grew_refl.
    - apply (Forall_replicate value_ok 10). by apply u64_value_ok.
    - or_lax Hlim. or_lax Hmax. right. split; simpl; (done || lia). }
  apply (halts_bind _ _ (room format max_args limit b)).
  { apply (while_ends _ (room format max_args limit b) (left_to_read format)); [intros s; by apply format_step_ends|done|].
    unfold left_to_read, zlen. simpl. lia. }
  intros s (Hs & Hr & _). apply (halts_bind _ _ (st_ok format max_args limit b)).
  { apply second_pass_ends; [done|done| |done]. pose proof (zlen_nonneg (filter (fun c => c = ch "{") (drop (Z.to_nat (fs_ptr s)) format))).
    unfold braces in Hr. lia. }
  clear s Hs Hr. intros s Hs. destruct (so_grew _ _ _ _ _ Hs) as [[Hp Hz Hrm] Hn Hpos Hsz Hlen Hout]. simpl in *.
  rewrite Em in Hout. split; [simpl; lia|]. split; [unfold zlen in *; simpl; lia|]. split; intros i Hi; simpl in *; rewrite Hout by lia.
  - rewrite lookup_app_l by (rewrite length_replicate; lia). apply lookup_replicate_2. lia.
  - rewrite lookup_app_r by (rewrite length_replicate; lia). rewrite length_replicate, lookup_drop. f_equal. lia.
Qed.
End lax.

(** C25. Formatting ends: for a format of any text and any brace specifiers,
    with no percent sign and no more opening braces than the table of
    specifiers has entries, no loop over the format takes more than thirty-one
    iterations for each of its characters and the terminator, whatever the
    arguments are, and what a run that returns wrote lies in the buffer: fewer bytes than its size are
    counted, terminators follow them up to the size, and the memory after the
    buffer is as it was.  A run can also stop in an access or a conversion that
    is undefined in C, but not for a format of numbers: when every type between
    braces is short and is unknown or prints the bits of its argument, no number
    in the format has ten digits, no argument is the least 64-bit integer, and
    the arguments passed are as many as max_args allows or as the braces and
    stars of a format that names none by its number, formatting returns.  (The
    bound is on the loops over the format; padding adds to that up to the width
    or the precision.) *)
Theorem fmt_format_ends (strerror : Z -> option (list Z)) (format : list Z) (max_args : Z) (fuel : nat)
    (buffer : list Z) (size : Z) (args : list fmt_raw_value)
    (Hpercent : Forall (fun c => c <> ch "%") format) (Hbraces : braces format 0 <= FMT_MAX_SPECS)
    (Hargs : Forall (fun a => fits 64 (rv_bits a)) args) (Hsize : 0 < size <= zlen buffer) (H64 : size < 2 ^ 64)
    (Hfuel : (31 * (length format + 1) <= fuel)%nat) :
  let run := fmt_format strerror format max_args fuel buffer size args in
  run <> NoFuel /\ (forall r, run = Ret r -> formatted buffer size r) /\
  (plain_format format = true -> 0 < max_args <= FMT_MAX_ARGS ->
   max_args <= zlen args \/ (implicit_args format = true /\ uses format (zlen format) <= zlen args) ->
   Forall (fun a => sint 64 (rv_bits a) <> - 2 ^ 63) args -> exists r, run = Ret r).
Proof.
  intros run. assert (H : halts True run (formatted buffer size)).
  { apply (fmt_format_halts True strerror format max_args 0); try done; try (by left). eapply Forall_impl; [exact Hargs|]. intros a Ha. split; [done|by left]. }
  split; [by intros E; rewrite E in H|]. split; [by intros r E; rewrite E in H|]. clear H.
  intros Hpl Hmax Henough Hmin. assert (H : halts False run (formatted buffer size)); [|by destruct run; eauto].
  apply (fmt_format_halts False strerror format max_args (zlen args)); try done; try (by right).
  - rewrite Forall_forall in *. intros a Ha. split; [by apply Hargs|right; by apply Hmin].
  - right. split; [split; [apply zlen_nonneg|done]|done].
Qed.

Definition sample_format : list Z := bytes "{:+05d} of {:>*llx}}}".
Definition sample_args : list fmt_raw_value := [raw_uint64 42; raw_uint64 9; raw_uint64 255].

Lemma fmt_format_ends_witness :
  exists r, fmt_format (fun _ => None) sample_format FMT_MAX_ARGS 900 (replicate 24 7) 20 sample_args = Ret r /\
    formatted (replicate 24 7) 20 r.
Proof.
  assert (H1 : Forall (fun c => c <> ch "%") sample_format).
  { apply Forall_forall. intros c Hc ->. revert Hc. apply (bool_decide_eq_false_1 _). by vm_compute. }
  assert (H2 : Forall (fun a => fits 64 (rv_bits a)) sample_args) by (repeat constructor; by vm_compute).
  assert (H3 : (31 * (length sample_format + 1) <= 900)%nat) by (apply Nat.leb_le; by vm_compute).
  destruct (fmt_format_ends (fun _ => None) sample_format FMT_MAX_ARGS 900 (replicate 24 7) 20 sample_args H1
    ltac:(by vm_compute) H2 ltac:(by vm_compute) ltac:(by vm_compute) H3) as (_ & Hin & Hret).
  destruct Hret as [r Hr].
  - by vm_compute.
  - lia.
  - right. split; by vm_compute.
  - repeat constructor; by vm_compute.
  - exists r. split; [exact Hr|by apply Hin].
Defined.
