(* ===== verification/FmtPrint.v ===== *)
(** * What fmt_format prints

    A format made of characters, doubled braces and percent signs, and brace
    specifiers that only name a type prints the text of each piece in turn. *)

From S2P Require Import Prelude Mm CString Kio Time Fmtlib Fmt FmtText FmtRun.
From Stdlib Require Import String Ascii.
From stdpp Require Import list.
Local Open Scope Z_scope.

(** ** Pieces *)

Inductive piece :=
  | Plain (c : Z)
  | Escape (c : Z)
  | Field (type : list Z) (v : fmt_raw_value).

Definition special (c : Z) : bool := (c =? ch "{") || (c =? ch "%") || (c =? ch "}").

Definition piece_src (p : piece) : list Z :=
  match p with
  | Plain c => [c]
  | Escape c => [c; c]
  | Field t _ => ch "{" :: ch ":" :: t ++ [ch "}"]
  end.

Definition piece_args (p : piece) : list fmt_raw_value := match p with Field _ v => [v] | _ => [] end.

(** The specifier that a type alone stands for, and the one with its value. *)
Definition type_spec (t : list Z) : fmt_spec_t :=
  (fmtlib_resolve_type (mk_spec t (zlen t) 0 0 0 FMT_ALIGN_LEFT (ch " ") (raw_uint64 0) FMT_ARGTYPE_NONE None)).2.
Definition field_spec (t : list Z) (v : fmt_raw_value) : fmt_spec_t :=
  let sp := type_spec t in
  mk_spec (sp_type sp) (sp_type_len sp) (sp_flags sp) (sp_width sp) (sp_precision sp) (sp_align sp) (sp_fill sp)
    (va_value (sp_argtype sp) v) (sp_argtype sp) (sp_formatter sp).

(** Types that the parser reaches by their first letter and that are known. *)
Definition type_ok (t : list Z) : bool :=
  match t with [] => false | c :: _ => is_alpha c end &&
  forallb (fun c => negb (c =? 0) && negb (c =? ch "}")) t && (zlen t <=? FMTLIB_MAX_TYPE_LEN) &&
  match sp_argtype (type_spec t) with FMT_ARGTYPE_NONE => false | _ => true end &&
  (fmtlib_resolve_type (mk_spec t (zlen t) 0 0 0 FMT_ALIGN_LEFT (ch " ") (raw_uint64 0) FMT_ARGTYPE_NONE None)).1.

Definition piece_ok (p : piece) : Prop :=
  match p with
  | Plain c => c <> 0 /\ special c = false
  | Escape c => special c = true
  | Field t v => type_ok t = true /\ exists f, sp_formatter (type_spec t) = Some f /\ arg_ok f (field_spec t v)
  end.

(** Resolving a type changes neither its length nor the width. *)
Lemma resolve_shape sp : exists fl a f, (fmtlib_resolve_type sp).2 = resolved sp fl a f.
Proof.
  unfold fmtlib_resolve_type. case_test; [simpl; eauto|]. destruct (resolve_integral_type sp) eqn:E.
  { unfold resolve_integral_type in E. repeat case_test; simplify_eq; simpl; eauto. }
  destruct (if sp_type_len sp =? 1 then _ else _) eqn:E2.
  { case_test; [|done]. unfold resolve_char_type in E2. repeat case_test; simplify_eq; simpl; eauto. }
  destruct (find_named named_types (sp_type sp)) as [[a f]|]; simpl; eauto.
Qed.

Lemma resolve_width sp : sp_width (fmtlib_resolve_type sp).2 = sp_width sp.
Proof. by destruct (resolve_shape sp) as (? & ? & ? & ->). Qed.

Lemma resolve_len sp : sp_type_len (fmtlib_resolve_type sp).2 = sp_type_len sp.
Proof. by destruct (resolve_shape sp) as (? & ? & ? & ->). Qed.

Section print.
Variable strerror : Z -> option (list Z).

(** The text of a piece. *)
Definition prints (p : piece) (s : list Z) : Prop :=
  match p with
  | Plain c | Escape c => s = [c]
  | Field t v => exists f, sp_formatter (type_spec t) = Some f /\ emits (run_formatter strerror f (field_spec t v)) s
  end.

Lemma prints_some p : piece_ok p -> exists s, prints p s.
Proof.
  destruct p as [c|c|t v]; simpl; [by eauto..|]. intros [_ (f & Ef & Ha)].
  destruct (run_formatter_text strerror f _ Ha) as [s Hs]. eauto.
Qed.

(** ** Reading a piece *)

Lemma chr_at pre c post : chr (pre ++ c :: post) (zlen pre) = Ret c.
Proof.
  unfold chr, load. rewrite zlen_app. pose proof (zlen_nonneg pre). assert (zlen (c :: post) = 1 + zlen post) as -> by (unfold zlen; simpl; lia).
  pose proof (zlen_nonneg post). rewrite (proj2 (Z.leb_le 0 _)), (proj2 (Z.ltb_lt _ _)) by lia. simpl.
  unfold zlen. rewrite Nat2Z.id, lookup_app_r, Nat.sub_diag by lia. done.
Qed.

Lemma chr_next pre l c post k :
  k = zlen pre + zlen l -> chr (pre ++ l ++ c :: post) k = Ret c.
Proof. intros ->. rewrite app_assoc, <- zlen_app. apply chr_at. Qed.

Lemma find_close_at t : forall fuel pre post,
  Forall (fun c => c <> 0 /\ c <> ch "}") t -> (length t <= fuel)%nat ->
  find_close fuel (pre ++ t ++ ch "}" :: post) (zlen pre) = Ret (zlen pre + zlen t).
Proof.
  induction t as [|c t IH]; intros fuel pre post Ht Hf.
  - destruct fuel; cbn [find_close app]; rewrite chr_at; cbn [mbind outcome_bind]; simpl; unfold zlen; simpl; f_equal; lia.
  - inversion Ht as [|? ? [H1 H2] Ht']; subst. destruct fuel as [|fuel]; [simpl in Hf; lia|].
    cbn [find_close app]. rewrite chr_at. cbn [mbind outcome_bind].
    rewrite (proj2 (Z.eqb_neq _ _) H1), (proj2 (Z.eqb_neq _ _) H2). cbn [orb].
    specialize (IH fuel (pre ++ [c]) post Ht' ltac:(simpl in Hf; lia)). rewrite <- app_assoc, zlen_app in IH.
    change (zlen [c]) with 1 in IH. cbn [app] in IH. rewrite IH. f_equal.
    unfold zlen; simpl. lia.
Qed.

Lemma type_ok_parts t :
  type_ok t = true ->
  exists c t', t = c :: t' /\ is_alpha c = true /\ Forall (fun c => c <> 0 /\ c <> ch "}") t /\ zlen t <= FMTLIB_MAX_TYPE_LEN.
Proof.
  unfold type_ok. intros H. repeat (apply andb_true_iff in H as [H ?]). destruct t as [|c t']; [done|].
  exists c, t'. split; [done|]. split; [done|]. split; [|zbool; lia].
  apply List.Forall_forall. intros x Hx.
  match goal with H : forallb _ _ = true |- _ => rewrite forallb_forall in H; specialize (H x Hx) end.
  apply andb_true_iff in H3 as [Ha Hb]. split; [by intros ->|by intros ->].
Qed.

(** The specifier of a type alone takes the next argument. *)
Lemma parse_type_spec pre t post k :
  type_ok t = true -> 0 <= k < FMT_MAX_ARGS ->
  parse_fmt_spec (pre ++ piece_src (Field t (raw_uint64 0)) ++ post) FMT_MAX_ARGS (zlen pre) k k =
    Ret (4 + zlen t - 1,
         mk_parsed k 0 0 false 0 false FMT_ALIGN_LEFT (ch " ") t (zlen t) true, k + 1, k + 1).
Proof.
  intros Ht Hk. destruct (type_ok_parts t Ht) as (c & t' & Et & Hc & Hall & Hlen).
  set (format := pre ++ _ ++ post).
  assert (E1 : format = pre ++ [ch "{"] ++ ch ":" :: t ++ ch "}" :: post) by (unfold format; simpl; by rewrite <- app_assoc).
  assert (E2 : format = pre ++ [ch "{"; ch ":"] ++ c :: t' ++ ch "}" :: post) by (rewrite E1, Et; done).
  assert (E3 : format = (pre ++ [ch "{"; ch ":"]) ++ t ++ ch "}" :: post) by (rewrite E1, <- app_assoc; done).
  assert (C1 : chr format (zlen pre + 1) = Ret (ch ":")) by (rewrite E1; by apply chr_next).
  assert (C2 : chr format (zlen pre + 1 + 1) = Ret c) by (rewrite E2; apply chr_next; change (zlen [ch "{"; ch ":"]) with 2; lia).
  assert (Z3 : zlen (pre ++ [ch "{"; ch ":"]) = zlen pre + 1 + 1) by (rewrite zlen_app; change (zlen [ch "{"; ch ":"]) with 2; lia).
  assert (F3 : find_close (length format) format (zlen pre + 1 + 1) = Ret (zlen pre + 1 + 1 + zlen t)).
  { rewrite <- Z3, E3. apply find_close_at; [done|]. rewrite !length_app. lia. }
  assert (C3 : chr format (zlen pre + 1 + 1 + zlen t) = Ret (ch "}")).
  { rewrite E3. apply chr_next. by rewrite Z3. }
  assert (R3 : read_at format (zlen pre + 1 + 1) (zlen t) = Ret t).
  { pose proof (zlen_nonneg pre). pose proof (zlen_nonneg t). pose proof (zlen_nonneg post). rewrite read_at_slice; [|lia|lia|].
    - rewrite E3, <- Z3. unfold slice, zlen. rewrite !Nat2Z.id, drop_app_length, take_app_length. done.
    - rewrite E3, zlen_app, Z3, zlen_app. assert (zlen (ch "}" :: post) = 1 + zlen post) by (unfold zlen; simpl; lia). lia. }
  assert (Hd : isdigit c = false) by (unfold isdigit, is_alpha in *; zbool; lia).
  unfold parse_fmt_spec, parse_head. cbv zeta. rewrite C1. cbn [mbind outcome_bind].
  change (ch ":" =? ch "}") with false. change (ch ":" =? 0) with false. cbn match.
  unfold parse_index. cbn [pt_ptr pt_arg]. rewrite C1. cbn [mbind outcome_bind]. change (isdigit (ch ":")) with false. cbn match.
  rewrite (proj2 (Z.leb_gt _ _)) by lia. cbn [mbind outcome_bind]. rewrite C1. cbn [mbind outcome_bind].
  change (ch ":" =? ch "}") with false. change (ch ":" =? ch ":") with true. cbn match.
  unfold parse_fields, at_ptr, with_width. cbn [pt_ptr pt_arg pt_flags pt_width pt_width_is_index pt_precision pt_precision_is_index pt_align pt_fill].
  rewrite C2. cbn [mbind outcome_bind]. rewrite Hc. cbn [mbind outcome_bind pt_ptr].
  rewrite F3. cbn [mbind outcome_bind]. rewrite C3. cbn [mbind outcome_bind]. change (ch "}" =? 0) with false. cbn match.
  replace (zlen pre + 1 + 1 + zlen t - (zlen pre + 1 + 1)) with (zlen t) by lia. rewrite R3. cbn [mbind outcome_bind].
  unfold finish_spec, max_arg. cbn [pt_ptr pt_arg pt_flags pt_width pt_width_is_index pt_precision pt_precision_is_index pt_align pt_fill].
  do 3 f_equal; [f_equal|]; lia.
Qed.


(** ** One iteration per piece *)

Record ready (s : fmt_state) (ptr k : Z) : Prop := mk_ready {
  rd_ptr : fs_ptr s = ptr;
  rd_two : fs_two s = None;
  rd_index : fs_arg_index s = k;
  rd_count : fs_arg_count s = k;
  rd_loaded : fs_loaded s = k;
  rd_values : length (fs_values s) = 10%nat;
  rd_types : length (fs_argtypes s) = 10%nat;
  rd_specs : Z.of_nat (length (fs_specs s)) = k;
  rd_buf : fb_ok (fs_buf s);
}.

(** [s'] is [s] after a piece with [n] source characters, the text [t] and the
    arguments [vs]. *)
Definition printed (s s' : fmt_state) (ptr k n : Z) (t : list Z) (vs : list fmt_raw_value) : Prop :=
  ready s' (ptr + n) (k + zlen vs) /\ fs_buf s' = fb_put (fs_buf s) t /\ fs_n s' = fs_n s + fit (fs_buf s) t /\
  fs_args s = vs ++ fs_args s'.

Lemma write_char_ready s ptr k c n :
  ready s ptr k -> exists s', fs_write_single s (w_char c) = Ret s' /\ printed s (fs_at s' (ptr + n)) ptr k n [c] [].
Proof.
  intros [Hp H2 Hi Hc Hl Hv Ht Hs Hb]. unfold fs_write_single, single_pass. rewrite H2. unfold fs_write.
  rewrite (emits_char c _ Hb). cbn [mbind outcome_bind]. eexists. split; [done|]. split; [|done].
  replace (k + zlen (@nil fmt_raw_value)) with k by (unfold zlen; simpl; lia). split; simpl; try done. by apply fb_put_ok.
Qed.

Lemma load_one s ptr k t a args :
  fs_arg_count s = k + 1 -> fs_loaded s = k -> 0 <= k < 10 -> length (fs_values s) = 10%nat ->
  load (fs_argtypes s) k = Ret t -> t <> FMT_ARGTYPE_NONE -> fs_args s = a :: args ->
  load_all (fs_at s ptr) =
    Ret (mk_fs ptr (fs_buf s) (fs_n s) (fs_two s) (fs_arg_index s) (k + 1) (k + 1) (<[Z.to_nat k := va_value t a]> (fs_values s))
           (fs_argtypes s) (fs_specs s) args).
Proof.
  intros Hc Hl Hk Hv Ht Hn Ha. unfold load_all. simpl. rewrite Hc, Hl.
  replace (Z.to_nat (k + 1 - k)) with 1%nat by lia. cbn [load_args]. simpl fs_argtypes. simpl fs_loaded. rewrite Hl, Ht.
  cbn [mbind outcome_bind]. simpl fs_args. rewrite Ha. simpl fs_values.
  destruct t; try done; cbn [mbind outcome_bind]; rewrite store_in_range by (rewrite Hv; lia); simpl; by rewrite Hc, ?Hl.
Qed.

(** A specifier that only names a type, handled at the next argument. *)
Lemma handle_type_spec s ptr k t v text args :
  ready s ptr k -> 0 <= k < FMT_MAX_ARGS -> fs_args s = v :: args -> piece_ok (Field t v) -> prints (Field t v) text ->
  exists s', handle_spec strerror s true (4 + zlen t - 1)
      (mk_parsed k 0 0 false 0 false FMT_ALIGN_LEFT (ch " ") t (zlen t) true) (k + 1) (k + 1) = Ret s' /\
    printed s s' ptr k (zlen (piece_src (Field t v))) text [v].
Proof.
  intros [Hp H2 Hi Hc Hl Hv Ht Hs Hb] Hk Ha [Hok Hf] (f & Ef & He).
  destruct (type_ok_parts t Hok) as (c & t' & Et & _ & _ & Hlen).
  assert (Hpos : 0 < zlen t) by (rewrite Et; unfold zlen; simpl; lia).
  unfold type_ok in Hok. repeat (apply andb_true_iff in Hok as [Hok ?]).
  unfold handle_spec. cbn [ps_valid negb].
  rewrite (proj2 (Z.ltb_ge (k + 1 + 1) (k + 1))), andb_false_r, H2 by lia.
  unfold unresolved. cbn [ps_type_len]. rewrite (proj2 (Z.ltb_ge _ _)) by lia.
  cbn [mbind outcome_bind ps_type ps_type_len ps_flags ps_width ps_width_is_index ps_precision ps_precision_is_index ps_align ps_fill].
  fold (type_spec t) in *. destruct (fmtlib_resolve_type _) as [known sp] eqn:Er.
  assert (Esp : type_spec t = sp) by (unfold type_spec; by rewrite Er).
  simpl in H. subst known. cbn [negb]. set (e := mk_entry _ _ _).
  unfold fs_argtype at 1. cbn [fs_argtypes fs_push ps_index]. rewrite store_in_range by (rewrite Ht; lia).
  cbn [mbind outcome_bind]. unfold single_pass. cbn [fs_two fs_push negb].
  set (s1 := mk_fs _ _ _ _ _ _ _ _ _ _ _).
  assert (Hload : load_all s1 = Ret (mk_fs (fs_ptr s + (4 + zlen t - 1)) (fs_buf s) (fs_n s) None (k + 1) (k + 1) (k + 1)
      (<[Z.to_nat k := va_value (sp_argtype sp) v]> (fs_values s)) (fs_argtypes s1) (fs_specs s ++ [e]) args)).
  { apply (load_one s1 (fs_ptr s + (4 + zlen t - 1)) k (sp_argtype sp) v args); try done.
    - simpl. apply load_Some. split; [lia|]. apply list_lookup_insert_eq. lia.
    - intros E. rewrite Esp, E in H0. done. }
  assert (Hgo : exists s', (s ← load_all s1; sp0 ← with_values (fs_values s) (mk_parsed k 0 0 false 0 false FMT_ALIGN_LEFT (ch " ") t (zlen t) true) sp;
      fs_write s (fmtlib_format_spec strerror sp0)) = Ret s' /\ printed s s' ptr k (zlen (piece_src (Field t v))) text [v]).
  { rewrite Hload. cbn [mbind outcome_bind fs_values]. unfold with_values. cbn [ps_index ps_width_is_index ps_precision_is_index].
    rewrite (proj2 (load_Some _ _ (va_value (sp_argtype sp) v))) by (split; [lia|]; apply list_lookup_insert_eq; lia).
    cbn [mbind outcome_bind].
    assert (Hes : emits (fmtlib_format_spec strerror (field_spec t v)) text).
    { unfold fmtlib_format_spec.
      assert (sp_type_len (field_spec t v) <> 0 /\ sp_width (field_spec t v) = 0) as [Hn ->].
      { unfold field_spec, type_spec. simpl. rewrite resolve_width, resolve_len. simpl. lia. }
      rewrite (proj2 (Z.eqb_neq _ _) Hn). change (sp_formatter (field_spec t v)) with (sp_formatter (type_spec t)).
      rewrite Ef. exact He. }
    unfold field_spec in Hes. rewrite Esp in Hes. unfold fs_write. cbn [fs_buf]. rewrite (Hes _ Hb). cbn [mbind outcome_bind].
    eexists. split; [done|]. split; [|split; [done|split; [done|]]].
    - change (zlen [v]) with 1.
      assert (Hz : zlen (piece_src (Field t v)) = 4 + zlen t - 1) by (simpl; unfold zlen; simpl; rewrite length_app; simpl; lia).
      rewrite Hz. split; simpl; rewrite ?length_insert, ?length_app, ?Hp; try done; try lia.
      + simpl. lia.
      + by apply fb_put_ok.
    - simpl. by rewrite Ha. }
  destruct (sp_argtype sp) eqn:Ea; try exact Hgo. rewrite Esp, Ea in H0. done.
Qed.

Lemma special_cases c : special c = true -> c = ch "{" \/ c = ch "%" \/ c = ch "}".
Proof. unfold special. intros H. zbool. lia. Qed.

Lemma piece_step pre p post s k text args :
  ready s (zlen pre) k -> k + zlen (piece_args p) <= FMT_MAX_ARGS -> fs_args s = piece_args p ++ args ->
  fmtlib_buffer_full (fs_buf s) = false -> piece_ok p -> prints p text ->
  exists s', format_step strerror (pre ++ piece_src p ++ post) FMT_MAX_ARGS s = Ret (Next s') /\
    printed s s' (zlen pre) k (zlen (piece_src p)) text (piece_args p).
Proof.
  intros Hr Hk Ha Hfull Hok Hpr. unfold format_step. rewrite (rd_ptr _ _ _ Hr). cbv zeta.
  destruct p as [c|c|t v].
  - destruct Hok as [Hne Hsp]. simpl in Hpr. subst text. cbn [piece_src app]. rewrite chr_at. cbn [mbind outcome_bind].
    rewrite (proj2 (Z.eqb_neq _ _) Hne), Hfull. cbn [orb]. unfold special in Hsp.
    apply orb_false_iff in Hsp as [Hsp H3]. rewrite Hsp, H3.
    destruct (write_char_ready s (zlen pre) k c 1 Hr) as (s' & -> & Hs'). cbn [mbind outcome_bind]. eauto.
  - simpl in Hpr. subst text. simpl in Hok.
    assert (C0 : chr (pre ++ piece_src (Escape c) ++ post) (zlen pre) = Ret c) by apply chr_at.
    assert (C1 : chr (pre ++ piece_src (Escape c) ++ post) (zlen pre + 1) = Ret c) by by apply (chr_next pre [c]).
    rewrite C0. cbn [mbind outcome_bind]. rewrite Hfull, orb_false_r.
    destruct (write_char_ready s (zlen pre) k c 2 Hr) as (s' & Hw & Hs').
    destruct (special_cases c Hok) as [->|[->| ->]]; simpl Z.eqb; cbn [orb]; rewrite ?C1; cbn [mbind outcome_bind];
      rewrite ?Z.eqb_refl, Hw; cbn [mbind outcome_bind]; rewrite ?C1; cbn [mbind outcome_bind]; eauto.
  - assert (E : pre ++ piece_src (Field t v) ++ post = pre ++ ch "{" :: ch ":" :: t ++ ch "}" :: post)
      by (simpl; by rewrite <- app_assoc).
    assert (C0 : chr (pre ++ piece_src (Field t v) ++ post) (zlen pre) = Ret (ch "{")) by (rewrite E; apply chr_at).
    assert (C1 : chr (pre ++ piece_src (Field t v) ++ post) (zlen pre + 1) = Ret (ch ":"))
      by (rewrite E; by apply (chr_next pre [ch "{"])).
    rewrite C0. cbn [mbind outcome_bind]. rewrite Hfull. change (ch "{" =? 0) with false. change (ch "{" =? ch "{") with true.
    cbn [orb]. rewrite C1. cbn [mbind outcome_bind]. change (ch ":" =? ch "{") with false. cbn match.
    change (zlen (piece_args (Field t v))) with 1 in *. pose proof (rd_specs _ _ _ Hr).
    rewrite (proj2 (Z.leb_gt _ _)) by lia. rewrite (rd_index _ _ _ Hr), (rd_count _ _ _ Hr).
    change (piece_src (Field t v)) with (piece_src (Field t (raw_uint64 0))).
    rewrite parse_type_spec by (destruct Hok; done || lia). cbn [mbind outcome_bind].
    destruct (handle_type_spec s (zlen pre) k t v text args) as (s' & -> & Hs'); try done; [lia|].
    cbn [mbind outcome_bind]. eauto.
Qed.

(** The first loop over the pieces that are left. *)
Lemma pieces_loop ps texts : Forall2 prints ps texts -> Forall piece_ok ps -> forall fuel pre s k args,
  ready s (zlen pre) k -> k + zlen (concat (piece_args <$> ps)) <= FMT_MAX_ARGS ->
  fs_args s = concat (piece_args <$> ps) ++ args -> (length ps < fuel)%nat ->
  exists s', while_loop fuel (format_step strerror (pre ++ concat (piece_src <$> ps)) FMT_MAX_ARGS) s = Ret s' /\
    fs_two s' = None /\ fs_buf s' = fb_put (fs_buf s) (concat texts) /\ fs_n s' = fs_n s + fit (fs_buf s) (concat texts).
Proof.
  intros Hpr. induction Hpr as [|p text ps texts Hp Hps IH]; intros Hok fuel pre s k args Hr Hk Ha Hf;
    (destruct fuel as [|fuel]; [simpl in Hf; lia|]); cbn [while_loop]; pose proof (rd_buf _ _ _ Hr) as Hb.
  - unfold format_step. rewrite (rd_ptr _ _ _ Hr). cbn [fmap list_fmap concat]. rewrite app_nil_r.
    assert (chr pre (zlen pre) = Ret 0) as ->.
    { unfold chr. rewrite Z.ltb_irrefl, andb_false_r, Z.eqb_refl. done. }
    cbn [mbind outcome_bind Z.eqb orb]. exists s. split; [done|]. split; [apply (rd_two _ _ _ Hr)|].
    rewrite fb_put_nil, fit_nil by done. split; [done|lia].
  - inversion Hok as [|? ? Hok1 Hok']; subst. destruct (fmtlib_buffer_full (fs_buf s)) eqn:Hfull.
    + exists s. split.
      * destruct (chr_inside (pre ++ concat (piece_src <$> p :: ps)) (zlen pre)) as (c & Ec & _).
        { unfold inside. rewrite zlen_app. pose proof (zlen_nonneg pre).
          pose proof (zlen_nonneg (concat (piece_src <$> p :: ps))). lia. }
        unfold format_step. rewrite (rd_ptr _ _ _ Hr), Ec. cbn [mbind outcome_bind]. by rewrite Hfull, orb_true_r.
      * split; [apply (rd_two _ _ _ Hr)|]. apply Z.eqb_eq in Hfull. destruct (full_put _ (concat (text :: texts)) Hb Hfull) as [-> ->].
        split; [done|lia].
    + rewrite !fmap_cons in *. cbn [concat] in *. rewrite zlen_app in Hk. rewrite <- app_assoc in Ha.
      pose proof (zlen_nonneg (concat (piece_args <$> ps))).
      destruct (piece_step pre p (concat (piece_src <$> ps)) s k text (concat (piece_args <$> ps) ++ args) Hr ltac:(lia) Ha Hfull Hok1 Hp)
        as (s1 & -> & Hr1 & Hb1 & Hn1 & Ha1).
      cbn [mbind outcome_bind]. rewrite app_assoc. rewrite <- zlen_app in Hr1.
      rewrite Ha in Ha1. apply app_inv_head in Ha1.
      destruct (IH Hok' fuel (pre ++ piece_src p) s1 (k + zlen (piece_args p)) args Hr1) as (s' & Hw & H2 & Hb2 & Hn2);
        [lia|done|simpl in Hf; lia|].
      exists s'. split; [exact Hw|]. split; [done|]. destruct (fb_put_app (fs_buf s) text (concat texts) Hb) as [E1 E2].
      rewrite Hb2, Hb1, Hn2, Hn1, Hb1, E1. split; [done|]. rewrite <- E2. lia.
Qed.

(** C24. A format of characters, doubled specials and up to ten type
    specifiers of any of the known types prints the texts of its pieces one
    after the other, each argument in its turn.  The buffer holds the printed
    text cut to its size less one, then terminators; the count returned is
    that of the bytes stored. *)
Theorem fmt_format_prints (ps : list piece) (fuel : nat) (buffer : list Z) (size : Z)
    (Hok : Forall piece_ok ps) (Hargs : zlen (concat (piece_args <$> ps)) <= FMT_MAX_ARGS)
    (Hsize : 0 < size <= zlen buffer) (H64 : size < 2 ^ 64) (Hfuel : (length ps < fuel)%nat) :
  exists texts, Forall2 prints ps texts /\
    let out := take (Z.to_nat (size - 1)) (concat texts) in
    fmt_format strerror (concat (piece_src <$> ps)) FMT_MAX_ARGS fuel buffer size (concat (piece_args <$> ps)) =
      Ret (zlen out, out ++ replicate (Z.to_nat (size - zlen out)) 0 ++ drop (Z.to_nat size) buffer).
Proof.
  assert (exists texts, Forall2 prints ps texts) as [texts Hpr].
  { clear -Hok. induction Hok as [|p ps Hp _ [texts IH]]; [by exists []|]. destruct (prints_some p Hp) as [t Ht].
    exists (t :: texts). by constructor. }
  exists texts. split; [done|]. intros out.
  set (mem := replicate (Z.to_nat size) 0 ++ drop (Z.to_nat size) buffer).
  assert (Hmem : zlen mem = zlen buffer).
  { unfold mem, zlen in *. rewrite length_app, length_replicate, length_drop. lia. }
  unfold fmt_format, fmtlib_buffer. rewrite write_at_splice; [|lia|unfold zlen in *; rewrite length_replicate; lia].
  cbn [mbind outcome_bind]. rewrite wrap_small by (unfold fits; lia).
  assert (splice buffer 0 (replicate (Z.to_nat size) 0) = mem) as -> by (unfold splice; simpl; by rewrite length_replicate).
  set (b := mk_fb mem 0 (size - 1) 0). assert (Hb : fb_ok b) by (split; simpl; lia).
  match goal with |- context [while_loop _ _ ?x] => set (s0 := x) end.
  destruct (pieces_loop ps texts Hpr Hok fuel [] s0 0 []) as (s' & Hw & H2 & Hbuf & Hn);
    [by split|lia|by rewrite app_nil_r|done|].
  rewrite app_nil_l in Hw. rewrite Hw. cbn [mbind outcome_bind]. unfold second_pass. rewrite H2. cbn [mbind outcome_bind].
  rewrite Hn, Hbuf. change (fs_buf s0) with b. change (fs_n s0) with 0. rewrite Z.add_0_l, <- (zlen_fit b _ Hb).
  change (fb_size b) with (size - 1). fold out. do 2 f_equal. unfold fb_put. change (fb_size b) with (size - 1). fold out.
  change (splice mem 0 out = out ++ replicate (Z.to_nat (size - zlen out)) 0 ++ drop (Z.to_nat size) buffer).
  assert (Hl : (length out <= Z.to_nat (size - 1))%nat) by (unfold out; rewrite length_take; lia).
  unfold splice. change (Z.to_nat 0) with 0%nat. rewrite take_0, Nat.add_0_l, app_nil_l. f_equal. unfold mem.
  rewrite drop_app_le by (rewrite length_replicate; lia). rewrite drop_replicate. do 2 f_equal. unfold zlen. lia.
Qed.
End print.

Definition sample_pieces : list piece :=
  (Plain <$> bytes "pid=") ++ [Field (bytes "d") (raw_uint64 (-7))] ++ (Plain <$> bytes " rip=") ++
  [Field (bytes "llx") (raw_uint64 48879); Escape (ch "{"); Field (bytes "M") (raw_uint64 4096); Escape (ch "}")].

(** "pid={:d} rip={:llx}{{{:M}}}" prints "pid=-7 rip=beef{4096}". *)
Lemma fmt_format_prints_witness :
  exists texts, Forall2 (prints (fun _ => None)) sample_pieces texts /\
    let out := take (Z.to_nat 31) (concat texts) in
    fmt_format (fun _ => None) (concat (piece_src <$> sample_pieces)) FMT_MAX_ARGS 99 (replicate 40 7) 32
        (concat (piece_args <$> sample_pieces)) =
      Ret (zlen out, out ++ replicate (Z.to_nat (32 - zlen out)) 0 ++ drop (Z.to_nat 32) (replicate 40 7)).
Proof.
  apply (fmt_format_prints (fun _ => None) sample_pieces 99 (replicate 40 7) 32).
  - repeat constructor; try (eexists; split; [by vm_compute|]); try done; by vm_compute.
  - by vm_compute.
  - by vm_compute.
  - by vm_compute.
  - apply Nat.ltb_lt. by vm_compute.
Defined.

(** ** Formats that never end *)

Section stuck.
Variable strerror : Z -> option (list Z).
Context (text : list Z) (max_args : Z) (Htext : Forall (fun c => c <> 0 /\ special c = false) text).

Definition open_format : list Z := text ++ [ch "%"].

(** Before the percent sign, with room for the text that is left. *)
Record before (s : fmt_state) : Prop := mk_before {
  bf_ptr : 0 <= fs_ptr s <= zlen text;
  bf_two : fs_two s = None;
  bf_buf : fb_ok (fs_buf s);
  bf_room : zlen text - fs_ptr s < fb_size (fs_buf s);
}.

(** A percent sign before the terminator is parsed to nothing. *)
Lemma parse_open k n : parse_printf_spec open_format max_args (zlen text) k n = Ret (0, invalid_spec, k, n).
Proof.
  unfold parse_printf_spec. cbv zeta. case_test; [by rewrite Z.sub_diag|]. cbn [pt_ptr].
  assert (chr open_format (zlen text + 1) = Ret 0) as ->.
  { unfold chr, open_format. rewrite zlen_app. change (zlen [ch "%"]) with 1. by rewrite Z.ltb_irrefl, andb_false_r, Z.eqb_refl. }
  cbn [mbind outcome_bind]. by rewrite Z.sub_diag.
Qed.

Lemma open_step s : before s -> exists s', format_step strerror open_format max_args s = Ret (Next s') /\ before s'.
Proof.
  intros [Hp H2 Hb Hr]. unfold format_step. assert (Hfull : fmtlib_buffer_full (fs_buf s) = false)
    by (apply Z.eqb_neq; lia).
  destruct (Z.eq_dec (fs_ptr s) (zlen text)) as [E|Hne].
  - rewrite E. assert (chr open_format (zlen text) = Ret (ch "%")) as -> by apply chr_at.
    cbn [mbind outcome_bind]. rewrite Hfull. change (ch "%" =? 0) with false. change (ch "%" =? ch "{") with false.
    change (ch "%" =? ch "%") with true. cbn [orb].
    assert (chr open_format (zlen text + 1) = Ret 0) as ->.
    { unfold chr, open_format. rewrite zlen_app. change (zlen [ch "%"]) with 1. by rewrite Z.ltb_irrefl, andb_false_r, Z.eqb_refl. }
    cbn [mbind outcome_bind]. change (0 =? ch "%") with false. cbn match. case_test; [by exists s|].
    rewrite parse_open. cbn [mbind outcome_bind]. unfold handle_spec. cbn [ps_valid negb mbind outcome_bind].
    eexists. split; [done|]. by split; simpl; try done; lia.
  - destruct (lookup_lt_is_Some_2 text (Z.to_nat (fs_ptr s))) as [c Hc]; [unfold zlen in *; lia|].
    pose proof (Forall_lookup_1 _ _ _ _ Htext Hc) as [Hc0 Hsp]. unfold special in Hsp. apply orb_false_iff in Hsp as [Hsp H3].
    assert (chr open_format (fs_ptr s) = Ret c) as ->.
    { unfold chr, load, open_format. rewrite zlen_app. change (zlen [ch "%"]) with 1.
      rewrite (proj2 (Z.leb_le 0 _)), (proj2 (Z.ltb_lt _ _)) by lia. simpl. rewrite lookup_app_l by (unfold zlen in *; lia).
      by rewrite Hc. }
    cbn [mbind outcome_bind]. rewrite (proj2 (Z.eqb_neq _ _) Hc0), Hfull, Hsp, H3. cbn [orb].
    unfold fs_write_single, single_pass, fs_write. rewrite H2, (emits_char c _ Hb). cbn [mbind outcome_bind].
    eexists. split; [done|]. split; simpl; try done; [lia|by apply fb_put_ok|].
    rewrite (zlen_fit _ [c] Hb). unfold fit. change (zlen [c]) with 1. lia.
Qed.

Lemma open_loop fuel : forall s, before s -> while_loop fuel (format_step strerror open_format max_args) s = NoFuel.
Proof.
  induction fuel as [|fuel IH]; intros s Hs; [done|]. cbn [while_loop].
  destruct (open_step s Hs) as (s' & -> & Hs'). cbn [mbind outcome_bind]. by apply IH.
Qed.

(** A format whose last character is a single percent sign is never
    finished: after any text that fits in the buffer, the loop of fmt_format
    stays at the percent sign, however many iterations it is given. *)
Theorem fmt_format_open_percent (fuel : nat) (buffer : list Z) (size : Z) (args : list fmt_raw_value)
    (Hsize : zlen text + 1 < size <= zlen buffer) (H64 : size < 2 ^ 64) :
  fmt_format strerror open_format max_args fuel buffer size args = NoFuel.
Proof.
  pose proof (zlen_nonneg text). unfold fmt_format, fmtlib_buffer.
  rewrite write_at_splice; [|lia|unfold zlen in *; rewrite length_replicate; lia].
  cbn [mbind outcome_bind]. rewrite wrap_small by (unfold fits; lia). rewrite open_loop; [done|].
  assert (zlen (splice buffer 0 (replicate (Z.to_nat size) 0)) = zlen buffer)
    by (apply splice_nil_zlen; [done|unfold zlen in *; rewrite length_replicate; lia]).
  split; simpl; try done; try lia. split; simpl; lia.
Qed.
End stuck.

Lemma fmt_format_open_percent_witness :
  fmt_format (fun _ => None) (open_format (bytes "load 100")) FMT_MAX_ARGS 100 (replicate 16 0) 16 [] = NoFuel.
Proof.
  apply (fmt_format_open_percent (fun _ => None) (bytes "load 100")); [|by vm_compute|by vm_compute].
  repeat constructor; by vm_compute.
Defined.

(** ksprintf has no size for its array and clears 2^31 - 1 bytes of it
    before it formats: with any smaller array, whatever the format is, it
    writes outside of the array. *)
Theorem ksprintf_overruns (strerror : Z -> option (list Z)) (fuel : nat) (str format : list Z) (args : list fmt_raw_value)
    (Hstr : zlen str < 2 ^ 31 - 1) :
  ksprintf strerror fuel str format args = Fault.
Proof.
  unfold ksprintf, fmt_format, fmtlib_buffer, write_at.
  assert (Hz : zlen (replicate (Z.to_nat (2 ^ 31 - 1)) 0) = 2 ^ 31 - 1) by (unfold zlen; rewrite length_replicate; lia).
  rewrite Hz, (proj2 (Z.leb_gt (0 + (2 ^ 31 - 1)) (zlen str))) by lia. by rewrite andb_false_r.
Qed.

Lemma ksprintf_overruns_witness : ksprintf (fun _ => None) 10 (replicate 64 0) (bytes "x") [] = Fault.
Proof. apply ksprintf_overruns. unfold zlen. rewrite length_replicate. lia. Defined.
